(* ===== verification/_CoqProject ===== *)
-Q . S2P
Prelude.v
Collections.v
Numbers.v
Scopes.v
Acl.v
Runs.v
Sessions.v
TapeFold.v
Compaction.v
Turns.v
Delivery.v
DurableMap.v
Directory.v
Identity.v
Regex.v
Shell.v
CommandPolicy.v
Totality.v
Membership.v
Egress.v
Posture.v
Reach.v
Idempotency.v
Schedule.v
Cron.v
Limits.v
Tasks.v
Auth.v
Signals.v
Processes.v
Memory.v
RunTrigger.v
Monitors.v
Credentials.v
Keychain.v
Config.v
Leases.v
Worker.v
Projects.v
Untrusted.v
Board.v
BoardApi.v
BoardAuth.v
Brain.v
BoardRunner.v
SignIn.v
Screen.v
Skills.v
Replay.v
Files.v
