(* ===== verification/Prelude.v ===== *)
(** * Company Brain: a verification of the harness's core services

    The program is a multi-user agent harness.  People talk to an agent through
    surfaces (Slack, the web, schedules); every message becomes a _run_ of a
    _session_; a worker leases the run, resolves what the people present may see
    and do, lets an agent work in a sandbox, and queues the answer for delivery.
    This library models the services in which that behaviour is decided: the
    stores that keep the state and the policies that say who may do what.

    ** Files and sources

    - [Prelude]: notations, the error type [outcome], tactics, hints and generic
      lemmas.  [Collections]: what the source uses of JavaScript's [Map], [Set],
      arrays and strings: insertion-ordered maps ([JMap]), stable sorting,
      [dedup], string functions.
      [Numbers]: double-precision numbers (IEEE 754), for money and thresholds.
    - [Scopes]: [src/types.ts] (scope ids, principals), [directory/person.ts],
      [resolution/context-filter.ts].
    - [Acl]: [acl/acl-store.ts] and [acl/resource-ref.ts].  The state is the
      array of grants; [grant], [revoke] and [replaceGrantsIfCurrent] are the
      handlers with their guards.  The persistence is an interface
      ([GrantPersistence]) with the in-memory implementation.
    - [Runs]: [runs/run-store.ts] and [runs/memory-run-store.ts], the run queue
      and the tool ledger; one definition per method, a step relation over them,
      and the log of the runs the terminal listeners were called with.
    - [Sessions]: [sessions/memory-session-store.ts]: sessions, leases, the log,
      the tape, participants and what part of the log each may read.
    - [TapeFold]: [harness/tape-fold.ts], the messages a harness is resumed with.
      [Compaction]: [harness/context-compaction.ts] and
      [core/orchestrator/compaction.ts], the summaries that replace old parts of
      the log for the model; both work on the entries and tapes of [Sessions].
    - [Turns]: [core/turn-origin.ts], [core/turn-outcome.ts].
    - [Delivery]: [Outbox] is [delivery/delivery-store.ts], [RunResult] is
      [delivery/run-result-delivery.ts], which connects [Runs] to the outbox.
    - [DurableMap]: [persistence/durable-map.ts] as a class of operations with
      laws and the in-memory instance; [Identity] and [Idempotency] are proved
      against the class.
    - [Directory]: [directory/directory-store.ts], [directory/visibility.ts].
    - [Identity]: [identity/identity-service.ts].
    - [Regex], [Shell], [CommandPolicy]: [util/safe-regex.ts] and
      [policy/command-policy.ts]; [Shell] has the scanner and every reader of
      nested scripts, [CommandPolicy] the rules, their composition and parsing;
      [Totality] shows that the evaluation of a command always ends.
    - [Membership]: [resolution/scope-membership.ts], [resolution/scope-reach.ts].
    - [Egress]: [resolution/egress-policy.ts], [resolution/audience-floor.ts],
      [resolution/publish-audience.ts] and the control-plane claim of
      [resolution/resolution-service.ts].
    - [Posture]: [security/security-posture.ts].
    - [Reach]: [reach/reach.ts], on top of [Directory] and [Delivery].
    - [Idempotency]: [idempotency/idempotency-store.ts], as interleaved calls.
    - [Schedule], [Cron]: [cron/schedule.ts]; [triggers/trigger-store.ts],
      [cron/cron-store.ts] over the class of [DurableMap], [cron/scheduler.ts].
    - [Limits]: [ratelimit/rate-limiter.ts] and [ratelimit/budget.ts].
    - [Tasks]: [tasks/memory-task-store.ts].
    - [Auth]: [auth/signed-token.ts], [auth/capability-token.ts],
      [auth/portal-identity.ts], [auth/source-auth.ts], [auth/replay-dedupe.ts].
    - [Signals]: [wake/wake.ts] and the wake sweep, [runs/run-signal-store.ts] with
      the poll of a run's signals, the replay of signals that miss the end of
      their run ([api/app-turn.ts], [api/app-helpers.ts]), and the coalesced
      refreshes of [slack/message-gating.ts].
    - [Processes]: [processes/process-registry.ts], [processes/process-reaper.ts],
      [processes/reconcile.ts], [sandbox/process-poll.ts].
    - [Memory]: [memory/notebook.ts], [memory/memory-service.ts] over the interface of
      [workspace/workspace-store.ts], [memory/policy.ts].
    - [RunTrigger]: [triggers/run-trigger.ts], [core/turn-options.ts].  [Monitors]:
      [monitors/monitor-broker.ts], [monitors/monitor-store.ts] and
      [monitors/monitor-poller.ts], which fires the triggers of [RunTrigger].
    - [Credentials]: sealing ([connectors/connector-client-store.ts]), paths, the
      script that loads a secret, secret drops ([credentials/secret-drop.ts]).
      [Keychain]: [credentials/keychain.ts].
    - [Config]: [resolution/config-store.ts].
    - [Leases]: [persistence/leader-lease.ts] and [persistence/advisory-lock.ts] over
      a model of PostgreSQL's session locks.
    - [Worker]: [runs/worker.ts], [runs/reaper.ts], [runs/drain.ts] and
      [runs/instance-registry.ts], on the stores of [Runs] and [Sessions].
    - [Projects]: [projects/project-store.ts], [environments/environment-store.ts].
    - The board of the companybrain layer
      ([deploy/layers/companybrain/plugins/board/src]): [Untrusted] is
      [untrusted.ts]; [Board] and [Brain] are the tables and transactions of
      [store.ts] (posts, claims and requested work; entries, versions and proposals
      with the gate of [improve.ts]); [BoardApi] is [access.ts] and the handlers of
      [mcp.ts] and [routes.ts] over [Board]; [BoardAuth] is [auth.ts], [oauth.ts]
      and [limits.ts]; [BoardRunner] is [runner.ts].
    - [SignIn]: the identity provider ([plugins/auth/src/server.ts], [tokens.ts]) with
      the single-use claims it makes at the core ([plugins/chassis/src/claims.ts],
      [api/routes/auth-broker.ts], the Postgres table of [auth/replay-dedupe.ts]).
    - [Screen]: [security/security-screener.ts] and
      [core/orchestrator/security-screen.ts].
    - [Skills]: [skills/skill-store.ts], [skills/skill-name.ts],
      [skills/skill-collision.ts], [skills/materialization-paths.ts], [skills/seed.ts].
    - [Replay]: [harness/replay.ts] and [util/message-tag.ts], on the entries of
      [Sessions] and the checks of [TapeFold].
    - [Files]: the in-memory stores of [files/file-artifact-store.ts] and
      [files/durable-byte-store.ts].

    ** What is shown

    - Access: only its owner changes the grants of a personal scope; a handle is
      offered to an audience exactly when everybody in it may have it; grant,
      revoke and replace do exactly what they say on every branch; people who are
      not internal write and manage nothing; managing implies writing; a managed
      group is open to its confirmed members only; what a message may reach.
    - Runs: in every reachable store one run of a session runs at a time, a
      finished run stays as it is, its listeners are called once, a sweep clears
      all lapsed leases, the oldest claimable run is claimed, the final-attempt
      flag is right.
    - Sessions: the log is gapless and changes only under the lease; leases are
      exclusive; a removed participant's view is frozen and a new one starts at
      the present; deletion is complete and local.
    - Delivery: one delivery per key for ever; an acknowledged key is never handed
      out; claims are exclusive until they lapse; together with the run queue,
      every finished run that has something to say is answered exactly once.  [once] does its work once
      under every interleaving.
    - Policy: every command gets a decision (or the error of a malformed escape);
      an organisation's rules cannot be overridden by a scope or loosened by a
      deployment; the text a command executes through substitutions and
      wrapped shells is part of what the rules see; a host denied to anybody
      present is denied to the turn; the control plane stays reachable; the
      verdict of the screener fails closed and its input is bounded.
    - Directory and identity: visibility follows the last sync; a manual
      deactivation survives syncs, refreshes and restarts.
    - The model's context: a tape is filtered for the people present, its check
      accepts exactly the well-formed conversations, healing repairs what a
      restart cut off; a compaction is transparent (the new summary, then exactly
      what it does not stand for), fits the budget, and its label admits only
      people who may see all of it, for entries visible to the whole audience.
    - Schedules: what is accepted and its normal form; a slot of a cron is claimed
      again only after its claim was given back or the cron set anew, and a job is
      handled exactly as its outcome says.
    - Limits: how many requests any stretch of time can see; the budget answers
      as if it kept the whole history (a refinement of the specification that
      does).
    - Tasks: the status of a task is what its log alone says.
    - Tokens: a signed request is accepted once; a capability is accepted only
      under one of the secrets, a blob transfer exactly by the grant of it, and a
      minted token verifies to its claims until it expires.
    - Signals: under every interleaving no signal is taken twice or left waiting
      while its run is live (a handler that throws ends its batch), and those that
      miss the end of the run are replayed; what [stop] leaves behind is stated
      exactly, and the steps a drain takes are bounded by [enough].
    - Processes: the kill hook tears its sandbox down on every path and reports
      success only for a process that is gone; sweeps and reconciliation change
      exactly the rows they should.
    - Memory: a capture adds exactly the new facts, once each, and keeps the newest;
      capturing again changes nothing; facts cannot forge where or when they were
      said.
    - Triggers and monitors: a turn is asked for only on behalf of a person who may
      read the trigger's home, and every other end of a firing is stated; the events of
      a watch are the matching lines of the job's output, however the reads cut it (of
      a line longer than 4096 characters its end).
    - Keychain: a secret leaves only for its owner or under the owner's grant, and an
      organisation's service credential only for that organisation; a one-time grant gives it out once, an approval mints what was asked for; sealed
      secrets survive the rotation of keys.
    - Configuration: what is read after a write, what a failed write pins and what still brings in
      the row, the floors
      of the organisation, complete histories of versioned texts.
    - Locks and workers: one leader at a time under failures of connections on either
      side, with every lock accounted for; workers whose leases are current never
      share a conversation; a turn is cancelled exactly after three refused
      heartbeats; which instances a drain supersedes.
    - Projects: who changes a roster; a body under [withVersion] sees the roster its
      version was read with; the three views of membership agree.
    - Board and brain: one live claim per target; a task's status is what its log
      leads to, unless it was closed by hand; writes need access to the repository (a
      run's own submission may only hand in its task); revoked tokens stay refused and
      codes work once; only the last closing tag ends fenced text; changes without a
      person pass the gate, and a revert restores; a run is bounded and accounted for.
    - Sign-in: an identity token is about an allowed address that a link was mailed
      to and answers the request it was asked for, once per link; mails are limited.
    - Screening: no passage of up to 256 code units is missed because a text is cut
      into chunks; a proxy in the shadow decides nothing; every attempt is recorded.
    - Skills: a published skill has been reviewed, except where its text was changed
      or archived past the review; a file's path stays below its skill; which skill
      is used, and that seeds are installed.
    - Replay: a conversation rebuilt from the log passes the check of the tape; no
      text forges or ends its tag; an overheard message is imported once.
    - Files: what is opened is what was put; the pages of a listing are complete,
      unless the limit is below one.

    Some theorems record behaviour that is probably not meant:
    [Acl.sameGrantSet_not_symmetric],
    [CommandPolicy.script_hidden_behind_env_or_stdbuf],
    [Egress.empty_floor_opens_network], [Compaction.compacted_label_leaks],
    [failing_cron_blocks_batch] of [Cron],
    [Signals.Poll.drain_on_stop_skipped], [accept_reject_race] of [Brain],
    [lost_watch_blocks] and [rearmed_watch_skips] of [Monitors],
    [file_name_runs] of [Credentials], [refresh_overtaken], [reload_before_write]
    and [withdrawn_choice_unseen] of [Config], [client_kept] and
    [failed_unlock_keeps_lock] of [Leases], [reaper_frees_new_lease] of [Worker],
    [archived_draft_published] and [changed_skill_moves_unreviewed] of [Skills],
    [overheard_ends_transcript] of [Replay] and [half_a_file] of [Files].

    ** Modelling choices

    State is passed explicitly.  A method of an in-memory store has no await
    between its reads and writes, so it is one atomic step; what may happen is a
    step relation over the methods and the invariants are proved by induction on
    it.  Where code does await and what happens in between matters ([once], the
    signal poll, the coalesced refreshes, [signalRun], the leader lease, the workers,
    the use of a grant) its await-free stretches are the steps.  Clocks and
    random ids are arguments of the operations, with freshness as a hypothesis of the step relations where the source relies on it
    (also of a grant's id, which hashes the credential, the conversation, the purpose and
    the millisecond).  Times
    are integers of milliseconds; they stay far below 2{^53}, so the model has no
    rounding.  An error thrown is a [Throw] of [outcome], an absent value [None].

    Strings are sequences of code units below 256; code points above that which
    an escape can denote are rendered by a parameter [wideChar].  The parameters
    for what the source only calls are [newRegExp] (the engine for the patterns
    of the rules), [urlHostname] (the URL parser), [jsonParse] and
    [jsonStringify], the token counter ([encodeLength]), the calendar of Croner
    and the time zones, hashing and cryptography, base64, [Number] of a text, the runs started by a trigger,
    and the sandbox, whose answers may depend on everything done so far; the
    source's own regular expressions run on the backtracking
    matcher of [Regex], whose star loops are bounded by the length of the rest of
    the text, since an iteration that consumes nothing ends the loop.

    Recursion in [Shell] that is not structural has fuel.  Most readers drop a
    word with every call and have the number of words as fuel, which
    [segmentPayloads_fuel] and [executableIndex_fuel] prove to be enough.  Those
    that scan the text of a word anew have the weight of the words as fuel;
    [Totality] proves that a rescan weighs less, so that the overflow of the call
    stack that stands for an exhausted fuel does not occur.  The depth of nested
    scripts is limited to eight by the source itself.

    ** What is not modelled

    The Postgres variants of the stores: SQL, whose semantics would have to be made
    up; of them only the advisory locks, the replay table and the transactions of the
    board, which depend on little of it, are here.  The adapters to agent runtimes,
    sandboxes, cloud providers, mail and Slack, and the HTTP servers: they are I/O
    around the services above.  The orchestrator, which is glue between
    services that are modelled and the harness, and whose own decisions (origin and
    outcome of a turn, compaction, the drive of a run) are.  User interfaces, the
    command line and scripts.  Of the session store the
    recording of model requests, the summaries and the statistics; of the run store
    the timer of [waitFor]; of the durable map [merge]; of the idempotency store the
    query [committed]; of the keychain the joining of concurrent refreshes of a
    token; timers, whose ticks are events or arguments.  The rest of message
    gating, retention, the store of deployments and the surface cache could be
    modelled in the same way and are left for later. *)

From Stdlib Require Import ZArith Lia Ascii.
From stdpp Require Export base sorting relations option strings pretty gmap list.
Export list_basics.list list_misc.list list_monad.list list_numbers.list list_relations.list list_tactics.list.

Set Default Goal Selector "!".

(** ** Notations

    [js_scope] holds the TypeScript operators: strict equality on values with
    decidable equality, and the truthiness test on strings. *)

Declare Scope js_scope.
Delimit Scope js_scope with js.

Notation "x === y" := (bool_decide (x = y)) (at level 70, no associativity) : js_scope.
Notation "x !== y" := (negb (bool_decide (x = y))) (at level 70, no associativity) : js_scope.
Open Scope js_scope.
Open Scope string_scope.
Open Scope list_scope.
#[global] Arguments String.append !_ _ /.

(** A call that may throw: [Ok] is a normal return, [Throw] carries the message
    of the [Error]. *)
Inductive outcome (A : Type) : Type :=
| Ok (a : A)
| Throw (msg : string).
Arguments Ok {A} a.
Arguments Throw {A} msg.

#[global] Instance outcome_eq_dec {A : Type} `{EqDecision A} : EqDecision (outcome A).
Proof. solve_decision. Defined.

Definition obind {A B : Type} (m : outcome A) (f : A -> outcome B) : outcome B :=
  match m with Ok a => f a | Throw e => Throw e end.

Notation "'let!' x ':=' m 'in' k" := (obind m (fun x => k))
  (at level 10, x pattern, m at level 200, k at level 200) : js_scope.

(** ** Tactics and the hint database of the development *)

Create HintDb brain.
Create Rewrite HintDb brain.
#[export] Hint Constructors Forall NoDup : brain.

(** Decide every boolean equality test and boolean connective in sight. *)
Ltac js_bool :=
  repeat match goal with
  | H : bool_decide _ = true |- _ => apply bool_decide_eq_true in H
  | H : bool_decide _ = false |- _ => apply bool_decide_eq_false in H
  | H : negb _ = true |- _ => apply negb_true_iff in H
  | H : negb _ = false |- _ => apply negb_false_iff in H
  | H : andb _ _ = true |- _ => apply andb_true_iff in H; destruct H
  | H : orb _ _ = false |- _ => apply orb_false_iff in H; destruct H
  | H : (_ <=? _)%Z = true |- _ => apply Z.leb_le in H
  | H : (_ <=? _)%Z = false |- _ => apply Z.leb_gt in H
  | H : (_ <? _)%Z = true |- _ => apply Z.ltb_lt in H
  | H : (_ <? _)%Z = false |- _ => apply Z.ltb_ge in H
  end; simplify_eq.

(** Case on the scrutinee of the outermost [if]/[match] of the goal, keeping
    the equation, and clean up. *)
Ltac js_case :=
  match goal with
  | |- context [if ?b then _ else _] => let E := fresh "E" in destruct b eqn:E
  | |- context [match ?b with _ => _ end] => let E := fresh "E" in destruct b eqn:E
  end; js_bool.

(** ** Strings

    A TypeScript string is a sequence of 16-bit code units; the model has one
    [ascii] per code unit, so it covers the strings whose code units are below
    256.  Within that range [js_space] is exactly the white space of ECMAScript
    and [lower_ascii] exactly its lower casing.  Literals of the source with a
    wider character (a dash in an error message) are written as they are and
    never inspected by the model. *)
Module Str.

Definition js_space (c : ascii) : bool :=
  let n := N_of_ascii c in
  ((9 <=? n) && (n <=? 13) || (n =? 32) || (n =? 160))%N.

Definition lower_ascii (c : ascii) : ascii :=
  let n := N_of_ascii c in
  if ((65 <=? n) && (n <=? 90) || (192 <=? n) && (n <=? 222) && negb (n =? 215))%N
  then ascii_of_N (n + 32) else c.

Fixpoint toLowerCase (s : string) : string :=
  match s with
  | EmptyString => EmptyString
  | String c s' => String (lower_ascii c) (toLowerCase s')
  end.

Fixpoint trimStart (s : string) : string :=
  match s with
  | EmptyString => EmptyString
  | String c s' => if js_space c then trimStart s' else s
  end.

Fixpoint trimEnd (s : string) : string :=
  match s with
  | EmptyString => EmptyString
  | String c s' =>
      match trimEnd s' with
      | EmptyString => if js_space c then EmptyString else String c EmptyString
      | t => String c t
      end
  end.

Definition trim (s : string) : string := trimEnd (trimStart s).

Definition truthy (s : string) : bool := s !== "".

(** [String(n)] of an integer, as in a template literal. *)
Definition showZ (n : Z) : string := pretty n.

(** [s.startsWith(p)] *)
Definition startsWith (s p : string) : bool := String.prefix p s.

(** [s.slice(n)] *)
Fixpoint drop (n : nat) (s : string) : string :=
  match n, s with
  | O, _ => s
  | S _, EmptyString => EmptyString
  | S n', String _ s' => drop n' s'
  end.

(** [s.slice(0, n)] *)
Fixpoint take (n : nat) (s : string) : string :=
  match n, s with
  | O, _ => EmptyString
  | S _, EmptyString => EmptyString
  | S n', String c s' => String c (take n' s')
  end.

(** [s.endsWith(p)] *)
Definition endsWith (s p : string) : bool :=
  (String.length p <=? String.length s)%nat
  && (drop (String.length s - String.length p) s === p).

(** [s.indexOf(c)] for a one-character needle, [None] for -1. *)
Fixpoint indexOf (c : ascii) (s : string) : option nat :=
  match s with
  | EmptyString => None
  | String d s' => if d === c then Some O else S <$> indexOf c s'
  end.

(** [s.includes(c)] for a one-character needle. *)
Fixpoint includesChar (c : ascii) (s : string) : bool :=
  match s with
  | EmptyString => false
  | String d s' => (d === c) || includesChar c s'
  end.

(** [s.includes(p)] *)
Fixpoint includes (s p : string) : bool :=
  String.prefix p s ||
  match s with
  | EmptyString => false
  | String _ s' => includes s' p
  end.

(** [s.split(c)] for a one-character separator. *)
Fixpoint split (c : ascii) (s : string) : list string :=
  match s with
  | EmptyString => [EmptyString]
  | String d s' =>
      if d === c then EmptyString :: split c s'
      else match split c s' with
           | [] => [String d EmptyString]
           | w :: ws => String d w :: ws
           end
  end.

(** [l.join(sep)] *)
Fixpoint join (sep : string) (l : list string) : string :=
  match l with
  | [] => EmptyString
  | [s] => s
  | s :: l' => s +:+ sep +:+ join sep l'
  end.

(** [s.replace(/\s+/g, " ")]; [inRun] tells that the text before ends in white space. *)
Fixpoint collapse (inRun : bool) (s : string) : string :=
  match s with
  | EmptyString => EmptyString
  | String c rest =>
      if js_space c then if inRun then collapse true rest else String " " (collapse true rest)
      else String c (collapse false rest)
  end.

(** Code-unit order of strings, JavaScript's [<]. *)
Fixpoint ltb (a b : string) : bool :=
  match a, b with
  | _, EmptyString => false
  | EmptyString, String _ _ => true
  | String x a', String y b' =>
      if x === y then ltb a' b' else (N_of_ascii x <? N_of_ascii y)%N
  end.

(** Not greater than, in that order: the comparison of the default [sort()]. *)
Definition leb (a b : string) : bool := negb (ltb b a).

(** *** Facts *)

Lemma js_space_lower c : js_space (lower_ascii c) = js_space c.
Proof. destruct c as [[] [] [] [] [] [] [] []]; reflexivity. Qed.

Lemma lower_ascii_idem c : lower_ascii (lower_ascii c) = lower_ascii c.
Proof. destruct c as [[] [] [] [] [] [] [] []]; reflexivity. Qed.

Lemma lower_ascii_at c : lower_ascii c = "@"%char <-> c = "@"%char.
Proof.
  split; [|intros ->; reflexivity].
  destruct c as [[] [] [] [] [] [] [] []]; vm_compute; congruence.
Qed.

Lemma toLowerCase_idem s : toLowerCase (toLowerCase s) = toLowerCase s.
Proof. induction s as [|c s IH]; cbn; [done|]. by rewrite lower_ascii_idem, IH. Qed.

Lemma trimEnd_lower s : trimEnd (toLowerCase s) = toLowerCase (trimEnd s).
Proof.
  induction s as [|c s IH]; [done|].
  cbn. rewrite IH, js_space_lower.
  destruct (trimEnd s); cbn; [by destruct (js_space c)|done].
Qed.

Lemma trimStart_lower s : trimStart (toLowerCase s) = toLowerCase (trimStart s).
Proof.
  induction s as [|c s IH]; [done|].
  cbn. rewrite js_space_lower. by destruct (js_space c).
Qed.

Lemma trim_lower s : trim (toLowerCase s) = toLowerCase (trim s).
Proof. unfold trim. by rewrite trimStart_lower, trimEnd_lower. Qed.

Lemma trimEnd_idem s : trimEnd (trimEnd s) = trimEnd s.
Proof.
  induction s as [|c s IH]; [done|].
  cbn. destruct (trimEnd s) as [|d t] eqn:E.
  - destruct (js_space c) eqn:Ec; cbn; [done|]. by rewrite Ec.
  - change (trimEnd (String c (String d t))) with
      (match trimEnd (String d t) with
       | EmptyString => if js_space c then EmptyString else String c EmptyString
       | t => String c t end).
    by rewrite IH.
Qed.

Lemma trimStart_trimEnd_head c s :
  js_space c = false -> exists t, trimEnd (String c s) = String c t.
Proof. intros Hc. cbn. destruct (trimEnd s); [rewrite Hc|]; eauto. Qed.

Lemma trimStart_shape s :
  trimStart s = "" \/ exists c t, js_space c = false /\ trimStart s = String c t.
Proof.
  induction s as [|c s IH]; cbn; [by left|].
  destruct (js_space c) eqn:Ec; [done|]. right; eauto.
Qed.

Lemma trim_idem s : trim (trim s) = trim s.
Proof.
  unfold trim. destruct (trimStart_shape s) as [->|(c & t & Hc & ->)]; [done|].
  destruct (trimStart_trimEnd_head c t Hc) as [u Hu]. rewrite Hu at 1.
  cbn [trimStart]. rewrite Hc, <- Hu. apply trimEnd_idem.
Qed.

Lemma includesChar_lower_at s : includesChar "@" (toLowerCase s) = includesChar "@" s.
Proof.
  induction s as [|c s IH]; cbn; [done|]. rewrite IH. f_equal.
  apply bool_decide_ext, lower_ascii_at.
Qed.

Lemma append_nil_r s : s +:+ "" = s.
Proof. induction s; cbn; congruence. Qed.

Lemma append_assoc a b c : (a +:+ b) +:+ c = a +:+ (b +:+ c).
Proof. induction a; cbn; congruence. Qed.

Lemma append_inj_r p s t : p +:+ s = p +:+ t -> s = t.
Proof. induction p; cbn; intros H; [done|]. apply IHp. congruence. Qed.

Lemma startsWith_append p s : startsWith (p +:+ s) p = true.
Proof.
  unfold startsWith. induction p as [|c p IH]; [by destruct s|]. cbn.
  by destruct (ascii_dec c c).
Qed.

Lemma drop_append p s : drop (String.length p) (p +:+ s) = s.
Proof. by induction p. Qed.

Lemma startsWith_split s p : startsWith s p = true -> s = p +:+ drop (String.length p) s.
Proof.
  unfold startsWith. revert s. induction p as [|c p IH]; intros s; [done|].
  destruct s as [|d s]; cbn; [done|].
  destruct (ascii_dec c d) as [->|]; [|done]. intros H. f_equal. by apply IH.
Qed.

(** A text with no occurrence of [c] before the first [c]: [indexOf] finds it. *)
Lemma indexOf_append c p s :
  includesChar c p = false -> indexOf c (p +:+ String c s) = Some (String.length p).
Proof.
  induction p as [|d p IH]; cbn; intros H.
  - by rewrite bool_decide_eq_true_2.
  - apply orb_false_iff in H as [Hd Hp]. rewrite Hd, (IH Hp). done.
Qed.

Lemma take_append p s : take (String.length p) (p +:+ s) = p.
Proof. induction p as [|c p IH]; [by destruct s|]. cbn. by rewrite IH. Qed.

Lemma indexOf_Some c s n :
  indexOf c s = Some n -> s = take n s +:+ String c (drop (S n) s).
Proof.
  revert n. induction s as [|d s IH]; intros n; cbn; [done|].
  case_bool_decide as Hd; [intros [= <-]; by subst|].
  intros (m & Hm & ->)%fmap_Some. cbn [take]. cbn [String.append]. f_equal.
  by rewrite (IH m Hm) at 1.
Qed.

(** Decimal numerals have no colon, so that what stands before and after the last
    colon of a key can be told apart. *)
Lemma showZ_no_colon n : includesChar ":" (showZ n) = false.
Proof.
  assert (forall x s, includesChar ":" s = false -> includesChar ":" (pretty_N_go x s) = false) as H.
  { intros x. induction (N.lt_wf_0 x) as [x _ IH]; intros s Hs.
    destruct (decide (x = 0)%N) as [->|Hx]; [by rewrite pretty_N_go_0|].
    rewrite pretty_N_go_step by lia. apply IH; [apply N.div_lt; lia|]. cbn [includesChar].
    rewrite Hs, orb_false_r. unfold pretty_N_char. by repeat case_match. }
  assert (forall x : N, includesChar ":" (pretty x) = false) as HN.
  { intros x. unfold pretty, pretty_N. case_decide; [done|by apply H]. }
  destruct n; [done|apply HN|]. apply (HN (Npos p)).
Qed.

Lemma append_colon_inj a b x y :
  includesChar ":" x = false -> includesChar ":" y = false ->
  a +:+ ":" +:+ x = b +:+ ":" +:+ y -> a = b /\ x = y.
Proof.
  assert (forall b x y, includesChar ":" x = false -> x = b +:+ String ":" y -> False) as Hno.
  { induction b0 as [|c b0 IH]; intros x0 y0 Hx ->; cbn in Hx; [done|].
    apply orb_false_iff in Hx as [_ Hx]. by eapply IH. }
  revert b. induction a as [|c a IH]; intros [|d b] Hx Hy; cbn.
  - by intros [= ->].
  - intros [= <- H]. by destruct (Hno _ _ _ Hx H).
  - intros [= -> H]. symmetry in H. by destruct (Hno _ _ _ Hy H).
  - intros [= -> H]. destruct (IH b Hx Hy H) as [-> ->]. done.
Qed.

Lemma ltb_irrefl a : ltb a a = false.
Proof. induction a as [|x a IH]; cbn; [done|]. by rewrite bool_decide_eq_true_2. Qed.

Lemma ltb_total a b : ltb a b = false -> ltb b a = false -> a = b.
Proof.
  revert b. induction a as [|x a IH]; intros [|y b]; cbn; try done.
  destruct (decide (x = y)) as [->|Hne].
  - rewrite !bool_decide_eq_true_2 by done. intros H1 H2. f_equal. by apply IH.
  - rewrite !bool_decide_eq_false_2 by congruence.
    intros ?%N.ltb_ge ?%N.ltb_ge. destruct Hne.
    rewrite <- (ascii_N_embedding x), <- (ascii_N_embedding y). f_equal. lia.
Qed.

Lemma ltb_trans a b c : ltb a b = true -> ltb b c = true -> ltb a c = true.
Proof.
  revert b c. induction a as [|x a IH]; intros [|y b] [|z c]; cbn; try done.
  destruct (decide (x = y)) as [->|Hxy]; [rewrite (bool_decide_eq_true_2 (y = y)) by done|
    rewrite (bool_decide_eq_false_2 (x = y)) by done].
  - case_bool_decide; [apply IH|done].
  - destruct (decide (y = z)) as [->|Hyz]; [rewrite (bool_decide_eq_true_2 (z = z)) by done;
      by rewrite bool_decide_eq_false_2|].
    rewrite (bool_decide_eq_false_2 (y = z)) by done.
    intros ?%N.ltb_lt ?%N.ltb_lt. rewrite bool_decide_eq_false_2.
    + apply N.ltb_lt. lia.
    + intros ->. lia.
Qed.

#[global] Instance leb_antisymm : AntiSymm (=) (fun a b => leb a b = true).
Proof. intros a b Hab Hba. unfold leb in *. apply negb_true_iff in Hab, Hba. by apply ltb_total. Qed.

Lemma leb_total a b : leb a b = false -> leb b a = true.
Proof.
  unfold leb. intros H%negb_false_iff. apply negb_true_iff, not_true_iff_false. intros H'.
  pose proof (ltb_trans _ _ _ H H') as E. by rewrite ltb_irrefl in E.
Qed.

Lemma leb_trans a b c : leb a b = true -> leb b c = true -> leb a c = true.
Proof.
  unfold leb. rewrite !negb_true_iff. intros Hab Hbc. apply not_true_iff_false. intros Hca.
  destruct (ltb a b) eqn:E.
  - rewrite (ltb_trans _ _ _ Hca E) in Hbc. done.
  - rewrite (ltb_total _ _ E Hab) in Hca. congruence.
Qed.

Lemma truthy_iff s : truthy s = true <-> s <> "".
Proof. unfold truthy. by rewrite negb_true_iff, bool_decide_eq_false. Qed.

Lemma truthy_false_iff s : truthy s = false <-> s = "".
Proof. unfold truthy. by rewrite negb_false_iff, bool_decide_eq_true. Qed.

Lemma includes_prefix s p : startsWith s p = true -> includes s p = true.
Proof. unfold startsWith. destruct s; cbn [includes]; intros ->; done. Qed.

Lemma includes_self s t : includes (s +:+ t) s = true.
Proof. apply includes_prefix, startsWith_append. Qed.

Lemma includes_refl s : includes s s = true.
Proof. rewrite <- (append_nil_r s) at 1. apply includes_self. Qed.

Lemma includes_app p s d : includes s d = true -> includes (p +:+ s) d = true.
Proof.
  intros H. induction p as [|c p IH]; [done|].
  change (String c p +:+ s) with (String c (p +:+ s)). cbn [includes]. by rewrite IH, orb_true_r.
Qed.

Lemma append_length a b : String.length (a +:+ b) = (String.length a + String.length b)%nat.
Proof. induction a as [|c a IH]; cbn; [done|]. by rewrite IH. Qed.

Lemma take_length n s : String.length (take n s) = Nat.min n (String.length s).
Proof. revert s. induction n as [|n IH]; intros [|c s]; cbn; [done..|]. by rewrite IH. Qed.

Lemma drop_length n s : String.length (drop n s) = (String.length s - n)%nat.
Proof. revert s. induction n as [|n IH]; intros [|c s]; cbn; [done..|]. by rewrite IH. Qed.

Lemma collapse_idem b t : collapse b (collapse b t) = collapse b t.
Proof.
  revert b. induction t as [|c t IH]; intros b; cbn [collapse]; [done|]. destruct (js_space c) eqn:E.
  - destruct b; [apply IH|]. cbn. by rewrite IH.
  - cbn [collapse]. by rewrite E, IH.
Qed.

Lemma trimEnd_cons c t : trimEnd (String c t) = String c t -> trimEnd t = t /\ (t = "" -> js_space c = false).
Proof.
  cbn [trimEnd]. destruct (trimEnd t) as [|d u] eqn:E.
  - destruct (js_space c); [done|]. by intros [= <-].
  - intros [= <-]. done.
Qed.

Lemma collapse_nonempty b t : t <> "" -> trimEnd t = t -> collapse b t <> "".
Proof.
  revert b. induction t as [|c t IH]; intros b Hne Ht; [done|]. apply trimEnd_cons in Ht as [Ht Hc]. cbn [collapse].
  destruct (js_space c) eqn:E; [|done]. destruct b; [|done]. destruct (decide (t = "")) as [->|]; [by discriminate Hc|by apply IH].
Qed.

Lemma trimEnd_collapse b t : trimEnd t = t -> trimEnd (collapse b t) = collapse b t.
Proof.
  revert b. induction t as [|c t IH]; intros b Ht; [done|]. apply trimEnd_cons in Ht as [Ht Hc]. cbn [collapse].
  assert (forall d b, (t = "" -> js_space d = false) -> trimEnd (String d (collapse b t)) = String d (collapse b t)) as Hd.
  { intros d b' H. cbn [trimEnd]. rewrite IH by done. destruct (collapse b' t) eqn:Ec; [|done].
    destruct (decide (t = "")) as [Et|Et]; [by rewrite H|by destruct (collapse_nonempty b' t Et Ht)]. }
  destruct (js_space c) eqn:E; [|by apply Hd]. destruct b; [by apply IH|]. apply Hd. intros Et. by specialize (Hc Et).
Qed.

Lemma trim_collapse t : trim (collapse false (trim t)) = collapse false (trim t).
Proof.
  unfold trim at 2 3. destruct (trimStart_shape t) as [->|(c & u & Hc & ->)]; [done|].
  pose proof (trimEnd_collapse false _ (trimEnd_idem (String c u))) as H.
  destruct (trimStart_trimEnd_head c u Hc) as [v Hv]. rewrite Hv in *. cbn [collapse] in *. rewrite Hc in *.
  unfold trim. cbn [trimStart]. by rewrite Hc.
Qed.

(** *** Replacing every occurrence of a string *)

(** [s.split(p).join(r)] for a non-empty [p]: occurrences are found from the left and do
    not overlap; [skip] characters belong to the occurrence just replaced. *)
Fixpoint splitJoin (p r : string) (skip : nat) (s : string) : string :=
  match s with
  | EmptyString => EmptyString
  | String c s' =>
      match skip with
      | S k => splitJoin p r k s'
      | O => if startsWith s p then r +:+ splitJoin p r (String.length p - 1) s' else String c (splitJoin p r 0 s')
      end
  end.

Lemma splitJoin_skip p r k s : splitJoin p r k s = splitJoin p r 0 (drop k s).
Proof. revert s. induction k as [|k IH]; intros [|c s]; cbn; auto. Qed.

Lemma startsWith_cons c s d p : startsWith (String c s) (String d p) = (c === d) && startsWith s p.
Proof.
  unfold startsWith. cbn. destruct (ascii_dec d c) as [->|Hne]; [by rewrite bool_decide_eq_true_2|].
  by rewrite bool_decide_eq_false_2.
Qed.

Lemma startsWith_nil s : startsWith s "" = true.
Proof. by destruct s. Qed.

(** A prefix without the separator ends before it. *)
Lemma startsWith_before c a b p : includesChar c p = false ->
  startsWith (a +:+ String c b) p = true -> startsWith a p = true.
Proof.
  revert a. induction p as [|d p IH]; intros a; [intros; apply startsWith_nil|]. cbn [includesChar].
  intros [Hd Hp]%orb_false_iff. destruct a as [|x a]; cbn [String.append]; rewrite startsWith_cons.
  - intros [H _]%andb_true_iff. apply bool_decide_eq_true in H. apply bool_decide_eq_false in Hd. by subst.
  - intros [H1 H2]%andb_true_iff. rewrite startsWith_cons, H1. by apply IH.
Qed.

Lemma includes_cons c s p : includes (String c s) p = startsWith (String c s) p || includes s p.
Proof. done. Qed.

(** *** Splitting and joining at a separator *)

Lemma split_no_sep c s : includesChar c s = false -> split c s = [s].
Proof.
  induction s as [|d s IH]; cbn; [done|]. intros [Hd Hs]%orb_false_iff. by rewrite Hd, (IH Hs).
Qed.

Lemma split_append c a b : split c (a +:+ String c b) = split c a ++ split c b.
Proof.
  induction a as [|d a IH]; cbn; [by rewrite bool_decide_eq_true_2|]. rewrite IH.
  destruct (d === c); [done|]. destruct (split c a) as [|w ws] eqn:E; [|done].
  exfalso. destruct a as [|d' a]; cbn in E; [done|]. destruct (d' === c); [done|]. by destruct (split c a).
Qed.

Lemma split_elem c s w : w ∈ split c s -> includesChar c w = false.
Proof.
  revert w. induction s as [|d s IH]; intros w; cbn; [intros ->%list_elem_of_singleton; done|].
  destruct (d === c) eqn:E; [intros [->|H]%elem_of_cons; [done|by apply IH]|].
  destruct (split c s) as [|x xs] eqn:Es; [intros ->%list_elem_of_singleton; cbn; by rewrite E|].
  intros [->|H]%elem_of_cons; [cbn; rewrite E; cbn; apply IH; left|apply IH; by right].
Qed.

Lemma split_join c l :
  l <> [] -> Forall (fun s => includesChar c s = false) l -> split c (join (String c "") l) = l.
Proof.
  intros Hne Hall. induction Hall as [|s l Hs Hall IH]; [done|].
  destruct l as [|t l]; [by apply split_no_sep|].
  change (join (String c "") (s :: t :: l)) with (s +:+ String c (join (String c "") (t :: l))).
  rewrite split_append, (split_no_sep _ _ Hs), IH; done.
Qed.

(** *** Characters that do not occur *)

Lemma includesChar_append c a b : includesChar c (a +:+ b) = includesChar c a || includesChar c b.
Proof. induction a as [|d a IH]; cbn; [done|]. by rewrite IH, orb_assoc. Qed.

Lemma includesChar_trimStart c s : includesChar c s = false -> includesChar c (trimStart s) = false.
Proof.
  induction s as [|d s IH]; cbn; [done|]. intros H. destruct (js_space d); [|done].
  apply orb_false_iff in H as [_ H]. auto.
Qed.

Lemma includesChar_trimEnd c s : includesChar c s = false -> includesChar c (trimEnd s) = false.
Proof.
  induction s as [|d s IH]; cbn; [done|]. intros [H1 H2]%orb_false_iff. specialize (IH H2).
  destruct (trimEnd s); [destruct (js_space d); cbn; [done|by rewrite H1]|]. cbn in *. by rewrite H1, IH.
Qed.

Lemma includesChar_drop c n s : includesChar c s = false -> includesChar c (drop n s) = false.
Proof.
  revert s. induction n as [|n IH]; intros [|d s]; cbn; try done. intros [_ H]%orb_false_iff. auto.
Qed.

Lemma includesChar_take c n s : includesChar c s = false -> includesChar c (take n s) = false.
Proof.
  revert s. induction n as [|n IH]; intros [|d s]; cbn; try done. intros [H1 H2]%orb_false_iff. by rewrite H1, IH.
Qed.

End Str.

#[export] Hint Resolve Str.includes_self Str.includes_app Str.includes_refl : brain.

(** ** Untyped values ([unknown]): what [JSON.parse] or a caller may hand over *)
#[warnings="-register-all"]
Inductive json :=
| JUndefined
| JNull
| JBool (b : bool)
| JNum (n : Z)
| JStr (s : string)
| JArr (l : list json)
| JObj (fields : list (string * json)).

(** [j.k], undefined for anything that is not an object with that field. *)
Definition json_field (k : string) (j : json) : json :=
  match j with
  | JObj fields =>
      match List.find (fun p => p.1 === k) fields with
      | Some p => p.2
      | None => JUndefined
      end
  | _ => JUndefined
  end.

Definition json_is_true (j : json) : bool := match j with JBool true => true | _ => false end.

(** [!!j] *)
Definition json_truthy (j : json) : bool :=
  match j with
  | JUndefined | JNull => false
  | JBool b => b
  | JNum n => n !== 0%Z
  | JStr s => Str.truthy s
  | JArr _ | JObj _ => true
  end.

Definition json_is_str (s : string) (j : json) : bool :=
  match j with JStr t => t === s | _ => false end.

Definition json_str (j : json) : option string := match j with JStr s => Some s | _ => None end.

Definition json_arr (j : json) : option (list json) := match j with JArr l => Some l | _ => None end.

(** [j ?? d] *)
Definition json_or (j d : json) : json := match j with JUndefined | JNull => d | _ => j end.

(** [String(j)], as in a template literal. *)
Fixpoint json_to_string (j : json) : string :=
  match j with
  | JUndefined => "undefined"
  | JNull => "null"
  | JBool b => if b then "true" else "false"
  | JNum n => Str.showZ n
  | JStr s => s
  | JArr l =>
      Str.join "," (map (fun x => match x with JUndefined | JNull => "" | _ => json_to_string x end) l)
  | JObj _ => "[object Object]"
  end.

(** [[...j]]: only arrays and strings are iterable. *)
Definition json_spread (j : json) : outcome (list json) :=
  match j with
  | JArr l => Ok l
  | JStr s => Ok (map (fun c => JStr (String c "")) (String.list_ascii_of_string s))
  | _ => Throw "object is not iterable"
  end.

#[export] Hint Rewrite Str.toLowerCase_idem Str.trim_idem Str.append_nil_r
  Str.startsWith_append Str.drop_append : brain.
