(* ===== verification/Collections.v ===== *)
(** * The JavaScript collections the stores are built on

    [Arr]: [Array.prototype.sort] (a stable sort), [new Set(iterable)] (first
    occurrences, in order) and slices from the end.  [JMap]: the insertion
    ordered [Map], with the operations the stores use, its well-formedness
    (no duplicate key) and its refinement to the finite maps of stdpp. *)

From Stdlib Require Import ZArith Lia.
From S2P Require Import Prelude.

Module Arr.

Section sort.
Context {A : Type}.

(** [leb a b] is [cmp(a, b) <= 0] for the comparator of the call. *)
Variable leb : A -> A -> bool.

Fixpoint insert_sorted (x : A) (l : list A) : list A :=
  match l with
  | [] => [x]
  | y :: l' => if leb x y then x :: l else y :: insert_sorted x l'
  end.

Fixpoint sort (l : list A) : list A :=
  match l with
  | [] => []
  | x :: l' => insert_sorted x (sort l')
  end.

Lemma insert_sorted_perm x l : insert_sorted x l ≡ₚ x :: l.
Proof.
  induction l as [|y l IH]; cbn; [done|]. destruct (leb x y); [done|].
  rewrite IH. constructor.
Qed.

Lemma sort_perm l : sort l ≡ₚ l.
Proof. induction l as [|x l IH]; cbn; [done|]. by rewrite insert_sorted_perm, IH. Qed.

Lemma elem_of_sort x l : x ∈ sort l <-> x ∈ l.
Proof. by rewrite sort_perm. Qed.

Lemma sort_length l : length (sort l) = length l.
Proof. by rewrite sort_perm. Qed.

Hypothesis leb_total : forall a b, leb a b = false -> leb b a = true.
Hypothesis leb_trans : forall a b c, leb a b = true -> leb b c = true -> leb a c = true.

Lemma insert_sorted_sorted x l :
  StronglySorted (fun a b => leb a b = true) l ->
  StronglySorted (fun a b => leb a b = true) (insert_sorted x l).
Proof.
  induction 1 as [|y l Hl IH Hy]; cbn; [repeat constructor|].
  destruct (leb x y) eqn:E.
  - constructor; [by constructor|]. constructor; [done|].
    rewrite list.Forall_forall in Hy |- *. intros z Hz. by eapply leb_trans; [|apply Hy].
  - constructor; [done|]. rewrite insert_sorted_perm.
    constructor; [by apply leb_total|done].
Qed.

Lemma sort_sorted l : StronglySorted (fun a b => leb a b = true) (sort l).
Proof. induction l; cbn; [constructor|]. by apply insert_sorted_sorted. Qed.

(** The first element of a sorted array is below every element. *)
Lemma sort_head_least l x l' y : sort l = x :: l' -> y ∈ l -> y = x \/ leb x y = true.
Proof.
  intros E Hy. pose proof (sort_sorted l) as Hs. rewrite E in Hs.
  rewrite <- elem_of_sort, E in Hy. apply elem_of_cons in Hy as [->|Hy]; [by left|right].
  inversion Hs as [|? ? _ Hall]; subst. rewrite list.Forall_forall in Hall. by apply Hall.
Qed.
End sort.

(** [x.createdAt - y.createdAt] and its reverse as comparators. *)
Definition by_key {A : Type} (f : A -> Z) (a b : A) : bool := (f a <=? f b)%Z.
Definition by_key_desc {A : Type} (f : A -> Z) (a b : A) : bool := (f b <=? f a)%Z.

Lemma by_key_total {A} (f : A -> Z) a b : by_key f a b = false -> by_key f b a = true.
Proof. unfold by_key. intros ?%Z.leb_gt. apply Z.leb_le. lia. Qed.

Lemma by_key_trans {A} (f : A -> Z) a b c :
  by_key f a b = true -> by_key f b c = true -> by_key f a c = true.
Proof. unfold by_key. rewrite !Z.leb_le. lia. Qed.

Lemma by_key_desc_total {A} (f : A -> Z) a b :
  by_key_desc f a b = false -> by_key_desc f b a = true.
Proof. apply by_key_total. Qed.

Lemma by_key_desc_trans {A} (f : A -> Z) a b c :
  by_key_desc f a b = true -> by_key_desc f b c = true -> by_key_desc f a c = true.
Proof. unfold by_key_desc. rewrite !Z.leb_le. lia. Qed.

Section dedup.
Context {A : Type} `{EqDecision A}.

(** [[...new Set(l)]] *)
Definition add (acc : list A) (x : A) : list A :=
  if decide (x ∈ acc) then acc else acc ++ [x].

Definition dedup (l : list A) : list A := foldl add [] l.

Lemma elem_of_add acc x y : y ∈ add acc x <-> y ∈ acc \/ y = x.
Proof. unfold add. case_decide; set_solver. Qed.

Lemma add_new acc x : x ∉ acc -> add acc x = acc ++ [x].
Proof. intros H. unfold add. by case_match; try case_bool_decide. Qed.

Lemma NoDup_add acc x : NoDup acc -> NoDup (add acc x).
Proof.
  intros H. unfold add. case_decide; [done|]. rewrite NoDup_app.
  repeat split; [done| |apply NoDup_singleton]. set_solver.
Qed.

Lemma elem_of_foldl_add l acc y : y ∈ foldl add acc l <-> y ∈ acc \/ y ∈ l.
Proof.
  revert acc. induction l as [|x l IH]; intros acc; cbn; [set_solver|].
  rewrite IH, elem_of_add. set_solver.
Qed.

Lemma NoDup_foldl_add l acc : NoDup acc -> NoDup (foldl add acc l).
Proof. revert acc. induction l; cbn; intros; auto using NoDup_add. Qed.

Lemma elem_of_dedup l y : y ∈ dedup l <-> y ∈ l.
Proof. unfold dedup. rewrite elem_of_foldl_add. set_solver. Qed.

Lemma NoDup_dedup l : NoDup (dedup l).
Proof. apply NoDup_foldl_add. constructor. Qed.

Lemma foldl_add_length l acc : (length (foldl add acc l) <= length acc + length l)%nat.
Proof.
  revert acc. induction l as [|x l IH]; intros acc; cbn; [lia|].
  etrans; [apply IH|]. unfold add. case_decide; rewrite ?length_app; cbn; lia.
Qed.

Lemma dedup_length l : (length (dedup l) <= length l)%nat.
Proof. apply (foldl_add_length l []). Qed.

Lemma dedup_NoDup_id l : NoDup l -> dedup l = l.
Proof.
  unfold dedup. enough (forall acc, NoDup (acc ++ l) -> foldl add acc l = acc ++ l) as Hgen by
    (intros; by apply Hgen).
  induction l as [|x l IH]; intros acc H; cbn; [by rewrite app_nil_r|].
  unfold add at 2. rewrite decide_False.
  - rewrite IH; by rewrite <- app_assoc.
  - apply NoDup_app in H as (_ & H & _). intros Hx. apply (H x Hx). set_solver.
Qed.
End dedup.

(** [l.slice(-n)] for [n >= 1]. *)
Definition slice_last {A : Type} (n : nat) (l : list A) : list A :=
  drop (length l - n) l.

Lemma slice_last_length {A} n (l : list A) : length (slice_last n l) = Nat.min n (length l).
Proof. unfold slice_last. rewrite length_drop. lia. Qed.

Lemma slice_last_subseteq {A} n (l : list A) x : x ∈ slice_last n l -> x ∈ l.
Proof.
  intros H. rewrite <- (take_drop (length l - n) l). apply elem_of_app. by right.
Qed.

(** [l.filter(p)] membership. *)
Lemma elem_of_filter {A} (p : A -> bool) l x : x ∈ List.filter p l <-> p x = true /\ x ∈ l.
Proof. rewrite !list_elem_of_In, filter_In. tauto. Qed.

Lemma existsb_elem {A} (p : A -> bool) l : existsb p l = true <-> exists x, x ∈ l /\ p x = true.
Proof. rewrite existsb_exists. by setoid_rewrite list_elem_of_In. Qed.

Lemma forallb_elem {A} (p : A -> bool) l : forallb p l = true <-> forall x, x ∈ l -> p x = true.
Proof. rewrite forallb_forall. by setoid_rewrite list_elem_of_In. Qed.

Lemma existsb_false {A} (p : A -> bool) l : existsb p l = false <-> forall x, x ∈ l -> p x = false.
Proof.
  rewrite <- not_true_iff_false, existsb_elem. split.
  - intros H x Hx. apply not_true_iff_false. eauto.
  - intros H (x & Hx & Hp). rewrite (H x Hx) in Hp. done.
Qed.

Lemma filter_all {A} (p : A -> bool) l : (forall x, x ∈ l -> p x = true) -> List.filter p l = l.
Proof.
  induction l as [|x l IH]; intros H; cbn; [done|]. rewrite (H x (list_elem_of_here _ _)), IH; [done|].
  intros y Hy. apply H. by right.
Qed.

Lemma filter_ext {A} (f g : A -> bool) l : (forall x, x ∈ l -> f x = g x) -> List.filter f l = List.filter g l.
Proof.
  induction l as [|x l IH]; intros H; cbn; [done|]. rewrite (H x (list_elem_of_here _ _)), IH; [done|].
  intros y Hy. apply H. by right.
Qed.

Lemma filter_filter {A} (f g : A -> bool) l : List.filter f (List.filter g l) = List.filter (fun x => g x && f x) l.
Proof. induction l as [|x l IH]; cbn; [done|]. destruct (g x); cbn; by rewrite IH. Qed.

Lemma NoDup_filter {A} (p : A -> bool) l : NoDup l -> NoDup (List.filter p l).
Proof. rewrite !NoDup_ListNoDup. apply List.NoDup_filter. Qed.

Lemma find_elem {A} (p : A -> bool) l x : List.find p l = Some x -> x ∈ l /\ p x = true.
Proof. intros [? ?]%find_some. by rewrite list_elem_of_In. Qed.

Lemma find_split {A} (p : A -> bool) l x :
  List.find p l = Some x -> exists l1 l2, l = l1 ++ x :: l2 /\ p x = true /\ forall y, y ∈ l1 -> p y = false.
Proof.
  induction l as [|y l IH]; cbn; [done|]. destruct (p y) eqn:E.
  - intros [= ->]. exists [], l. split_and!; try done. by intros z ?%not_elem_of_nil.
  - intros (l1 & l2 & -> & ? & H)%IH. exists (y :: l1), l2. split_and!; try done.
    intros z [->|?]%elem_of_cons; eauto.
Qed.

(** [findLast]: no later element satisfies the predicate. *)
Lemma find_reverse_split {A} (p : A -> bool) l x :
  List.find p (reverse l) = Some x -> exists l1 l2, l = l1 ++ x :: l2 /\ p x = true /\ forall y, y ∈ l2 -> p y = false.
Proof.
  intros (l1 & l2 & E & Hx & H)%find_split. exists (reverse l2), (reverse l1).
  split_and!; [|done|]; [|intros y; rewrite elem_of_reverse; apply H].
  rewrite <- (reverse_involutive l), E, reverse_app, reverse_cons, <- app_assoc. done.
Qed.

Lemma find_none {A} (p : A -> bool) l x : List.find p l = None -> x ∈ l -> p x = false.
Proof. intros H Hx. apply (List.find_none _ _ H), list_elem_of_In, Hx. Qed.

Lemma sorted_snoc {A} (R : A -> A -> Prop) l x :
  StronglySorted R l -> (forall y, y ∈ l -> R y x) -> StronglySorted R (l ++ [x]).
Proof.
  induction 1 as [|y l Hl IH Hy]; intros Hx; cbn; [by repeat constructor|]. constructor.
  - apply IH. intros z Hz. apply Hx. by right.
  - apply Forall_app. split; [done|]. constructor; [|done]. apply Hx. by left.
Qed.

Lemma sorted_before {A} (R : A -> A -> Prop) l1 x l2 :
  StronglySorted R (l1 ++ x :: l2) -> forall y, y ∈ l1 -> R y x.
Proof.
  induction l1 as [|z l1 IH]; cbn; intros H y; [by intros ?%not_elem_of_nil|]. inversion H as [|? ? Hl Hz]; subst.
  intros [->|Hy]%elem_of_cons; [|by apply IH]. rewrite Forall_forall in Hz. apply Hz, elem_of_app. right; left.
Qed.

Lemma sorted_map {A B} (R : A -> A -> Prop) (S : B -> B -> Prop) (f : A -> B) l :
  (forall x y, x ∈ l -> y ∈ l -> R x y -> S (f x) (f y)) -> StronglySorted R l -> StronglySorted S (map f l).
Proof.
  intros Hf. induction 1 as [|x l Hl IH Hx]; cbn; constructor.
  - apply IH. intros y z ? ?. by apply Hf; right.
  - apply Forall_forall. intros z (y & -> & Hy)%list_elem_of_fmap. rewrite Forall_forall in Hx.
    apply Hf; [by left|by right|by apply Hx].
Qed.

Lemma sorted_filter {A} (R : A -> A -> Prop) (p : A -> bool) l :
  StronglySorted R l -> StronglySorted R (List.filter p l).
Proof.
  induction 1 as [|x l Hl IH Hx]; cbn; [constructor|]. destruct (p x); [|done]. constructor; [done|].
  rewrite Forall_forall in *. intros y [_ Hy]%Arr.elem_of_filter. by apply Hx.
Qed.

Lemma sorted_app {A} (R : A -> A -> Prop) l1 l2 :
  StronglySorted R (l1 ++ l2) -> forall x y, x ∈ l1 -> y ∈ l2 -> R x y.
Proof.
  induction l1 as [|z l1 IH]; cbn; intros H x y; [by intros ?%not_elem_of_nil|]. inversion H as [|? ? Hl Hz]; subst.
  intros [->|Hx]%elem_of_cons Hy; [|by apply IH]. rewrite Forall_forall in Hz. apply Hz, elem_of_app. by right.
Qed.

Lemma sorted_prefix {A} (R : A -> A -> Prop) l1 l2 : StronglySorted R (l1 ++ l2) -> StronglySorted R l1.
Proof.
  induction l1 as [|x l1 IH]; cbn; intros H; [constructor|]. inversion H as [|? ? Hl Hx]; subst.
  apply Forall_app in Hx as [Hx _]. by constructor; [apply IH|].
Qed.

Lemma take_in {A} n (l : list A) x : x ∈ take n l -> x ∈ l.
Proof. intros H. rewrite <- (take_drop n l). apply elem_of_app. by left. Qed.

Lemma drop_in {A} n (l : list A) x : x ∈ drop n l -> x ∈ l.
Proof. intros H. rewrite <- (take_drop n l). apply elem_of_app. by right. Qed.

(** The elements a test lets pass, when it is false on a prefix and true on the rest. *)
Lemma filter_split {A} (p : A -> bool) l1 l2 :
  (forall x, x ∈ l1 -> p x = false) -> (forall x, x ∈ l2 -> p x = true) -> List.filter p (l1 ++ l2) = l2.
Proof.
  intros H1 H2. rewrite List.filter_app, (filter_all p l2) by done.
  induction l1 as [|x l1 IH]; cbn; [done|]. rewrite H1 by left. apply IH. intros y Hy. apply H1. by right.
Qed.
(** ** Lists whose elements a function tells apart *)
Lemma NoDup_map_inj {A B} (f : A -> B) (l : list A) x y : NoDup (map f l) -> x ∈ l -> y ∈ l -> f x = f y -> x = y.
Proof.
  induction l as [|z l IH]; cbn; [by intros _ ?%elem_of_nil|]. intros [Hn Hnd]%NoDup_cons.
  intros [->|Hx]%elem_of_cons [->|Hy]%elem_of_cons Hf; [done| | |by apply IH]; exfalso; apply Hn;
    [rewrite Hf|rewrite <- Hf]; by apply (list_elem_of_fmap_2 f).
Qed.

Lemma omap_ext_in {A B} (f g : A -> option B) (l : list A) : (forall x, x ∈ l -> f x = g x) -> omap f l = omap g l.
Proof.
  induction l as [|x l IH]; intros H; [done|]. cbn. rewrite (H x ltac:(left)).
  by rewrite IH by (intros y Hy; apply H; by right).
Qed.

End Arr.

(** The JavaScript [Map]: insertion order is observable through iteration. *)
Module JMap.

Section ops.
Context {K V : Type} `{EqDecision K}.
Implicit Types (m : list (K * V)) (k : K) (v : V).

Fixpoint get m k : option V :=
  match m with
  | [] => None
  | (k', v) :: m' => if k' === k then Some v else get m' k
  end.

Definition has m k : bool := match get m k with Some _ => true | None => false end.

(** An existing key keeps its position; a new one goes last. *)
Fixpoint set m k v : list (K * V) :=
  match m with
  | [] => [(k, v)]
  | (k', v') :: m' => if k' === k then (k, v) :: m' else (k', v') :: set m' k v
  end.

Definition delete m k : list (K * V) := List.filter (fun p => p.1 !== k) m.

Definition keys m : list K := map fst m.
Definition values m : list V := map snd m.

Definition wf m : Prop := NoDup (keys m).

Lemma get_set m k k' v : get (set m k v) k' = if decide (k = k') then Some v else get m k'.
Proof.
  induction m as [|[j w] m IH]; cbn.
  - by repeat (case_bool_decide || case_decide).
  - case_bool_decide as Hj; cbn; [subst; by repeat (case_bool_decide || case_decide)|].
    rewrite IH. case_bool_decide; case_decide; congruence.
Qed.

Lemma get_set_eq m k v : get (set m k v) k = Some v.
Proof. rewrite get_set. by case_decide. Qed.

Lemma get_set_ne m k k' v : k <> k' -> get (set m k v) k' = get m k'.
Proof. intros. rewrite get_set. by case_decide. Qed.

Lemma get_delete m k k' : get (delete m k) k' = if decide (k = k') then None else get m k'.
Proof.
  unfold delete. induction m as [|[j w] m IH]; cbn; [by case_decide|].
  case_bool_decide as Hj; cbn; [subst|];
    rewrite IH; repeat (case_decide || case_bool_decide); congruence.
Qed.

Lemma elem_of_keys m k : k ∈ keys m <-> is_Some (get m k).
Proof.
  induction m as [|[j w] m IH]; cbn.
  - split; [set_solver|intros [? [=]]].
  - rewrite elem_of_cons, IH. case_bool_decide; [subst; naive_solver|naive_solver].
Qed.

Lemma get_None m k : get m k = None <-> k ∉ keys m.
Proof. rewrite elem_of_keys, <- eq_None_not_Some. done. Qed.

Lemma get_elem m k v : get m k = Some v -> (k, v) ∈ m.
Proof.
  induction m as [|[j w] m IH]; cbn; [done|].
  case_bool_decide; [intros [= ->]; subst; by left|right; auto].
Qed.

Lemma has_false m k : has m k = false <-> get m k = None.
Proof. unfold has. by destruct (get m k). Qed.

Lemma elem_get m k v : wf m -> (k, v) ∈ m -> get m k = Some v.
Proof.
  unfold wf. induction m as [|[j w] m IH]; cbn; [set_solver|].
  intros [Hj Hm]%NoDup_cons [[= -> ->]|Hin]%elem_of_cons; [by rewrite bool_decide_eq_true_2|].
  rewrite bool_decide_eq_false_2; [auto|]. intros ->.
  apply Hj. unfold keys. by apply (list_elem_of_fmap_2 fst m (k, v)).
Qed.

Lemma get_iff m k v : wf m -> get m k = Some v <-> (k, v) ∈ m.
Proof. split; [apply get_elem|by apply elem_get]. Qed.

Lemma elem_of_values m v : wf m -> v ∈ values m <-> exists k, get m k = Some v.
Proof.
  intros Hm. unfold values. rewrite list_elem_of_fmap. split.
  - intros ([k w] & -> & Hin). exists k. by apply elem_get.
  - intros (k & Hk). exists (k, v). split; [done|by apply get_elem].
Qed.

Lemma keys_set m k v : keys (set m k v) = if has m k then keys m else keys m ++ [k].
Proof.
  unfold has, keys. induction m as [|[j w] m IH]; cbn; [done|].
  case_bool_decide; cbn; [by subst|]. rewrite IH. by destruct (get m k).
Qed.

Lemma wf_nil : wf [].
Proof. constructor. Qed.

Lemma wf_set m k v : wf m -> wf (set m k v).
Proof.
  unfold wf. rewrite keys_set. unfold has. intros Hm.
  destruct (get m k) eqn:E; [done|]. apply NoDup_app. repeat split; [done| |apply NoDup_singleton].
  apply get_None in E. set_solver.
Qed.

Lemma keys_delete m k : keys (delete m k) = List.filter (fun j => j !== k) (keys m).
Proof.
  unfold delete, keys. induction m as [|[j w] m IH]; cbn; [done|].
  destruct (j !== k); cbn; by rewrite IH.
Qed.

Lemma wf_filter (p : K * V -> bool) m : wf m -> wf (List.filter p m).
Proof.
  unfold wf, keys. induction m as [|[k v] m IH]; [done|]. cbn. intros [Hk Hm]%NoDup_cons. destruct (p (k, v)); cbn; [|by apply IH].
  apply NoDup_cons. split; [|by apply IH]. intros (x & -> & [_ Hx]%Arr.elem_of_filter)%list_elem_of_fmap.
  apply Hk. by apply list_elem_of_fmap_2.
Qed.

Lemma wf_delete m k : wf m -> wf (delete m k).
Proof. unfold wf. rewrite keys_delete. apply Arr.NoDup_filter. Qed.

Lemma set_new m k v : get m k = None -> set m k v = m ++ [(k, v)].
Proof.
  induction m as [|[j w] m IH]; cbn; [done|].
  case_bool_decide; [done|]. intros Hn. by rewrite (IH Hn).
Qed.

Lemma values_set_new m k v : get m k = None -> values (set m k v) = values m ++ [v].
Proof. intros Hn. rewrite (set_new _ _ _ Hn). unfold values. by rewrite map_app. Qed.

(** Replacing the value of a present key touches exactly that position. *)
Lemma set_split m k v w :
  get m k = Some v -> exists m1 m2, m = m1 ++ (k, v) :: m2 /\ set m k w = m1 ++ (k, w) :: m2.
Proof.
  induction m as [|[j u] m IH]; cbn; [done|].
  case_bool_decide as Hj.
  - intros [= ->]. subst. by exists [], m.
  - intros Hg. destruct (IH Hg) as (m1 & m2 & -> & E). exists ((j, u) :: m1), m2.
    cbn. by rewrite E.
Qed.

Lemma set_get_id m k v : get m k = Some v -> set m k v = m.
Proof. intros Hg. destruct (set_split m k v v Hg) as (m1 & m2 & -> & E). done. Qed.

(** A predicate on all entries survives an update that establishes it. *)
Lemma all_set (P : K -> V -> Prop) m k v :
  wf m ->
  (forall j w, get m j = Some w -> P j w) -> P k v ->
  forall j w, get (set m k v) j = Some w -> P j w.
Proof. intros _ Hall Hk j w. rewrite get_set. case_decide; [intros [= <-]; by subst|auto]. Qed.

Lemma filter_values_subset m (p : V -> bool) v :
  wf m -> v ∈ List.filter p (values m) <-> p v = true /\ exists k, get m k = Some v.
Proof. intros Hm. by rewrite Arr.elem_of_filter, elem_of_values. Qed.
End ops.

(** *** Refinement: the insertion ordered map implements the finite map *)
Section refine.
Context {K V : Type} `{Countable K}.
Implicit Types (m : list (K * V)).

Definition to_gmap m : gmap K V := list_to_map m.

Lemma to_gmap_lookup m k : to_gmap m !! k = get m k.
Proof.
  induction m as [|[j w] m IH]; cbn; [apply lookup_empty|].
  unfold to_gmap in *. cbn. rewrite lookup_insert, IH.
  case_decide; case_bool_decide; congruence.
Qed.

Lemma to_gmap_set m k v : to_gmap (set m k v) = <[k := v]> (to_gmap m).
Proof.
  apply map_eq. intros j. rewrite lookup_insert, !to_gmap_lookup, get_set. done.
Qed.

Lemma to_gmap_delete m k : to_gmap (delete m k) = base.delete k (to_gmap m).
Proof.
  apply map_eq. intros j. rewrite lookup_delete, !to_gmap_lookup, get_delete. done.
Qed.
End refine.
End JMap.

Abbreviation jmap K V := (list (K * V)) (only parsing).

#[export] Hint Resolve JMap.wf_nil JMap.wf_set JMap.wf_delete : brain.
#[export] Hint Resolve Arr.by_key_total Arr.by_key_trans Arr.by_key_desc_total
  Arr.by_key_desc_trans Arr.NoDup_dedup Arr.NoDup_filter : brain.
#[export] Hint Rewrite @JMap.get_set_eq : brain.
