(* ===== verification/Numbers.v ===== *)
(** * Numbers that are not integers

    The double-precision numbers of the source, with the rounding of IEEE 754
    (binary64): budgets and thresholds are computed with them.  Integers that stay
    within the safe range are [Z] in the rest of the library. *)

From Stdlib Require Import ZArith SpecFloat.
From S2P Require Import Prelude.
Open Scope Z_scope.

Module Num.
Definition t : Type := spec_float.
Definition of_Z (n : Z) : t := binary_normalize 53 1024 n 0 false.
Definition mul (a b : t) : t := SFmul 53 1024 a b.
Definition sub (a b : t) : t := SFsub 53 1024 a b.
Definition add (a b : t) : t := SFadd 53 1024 a b.
Definition div (a b : t) : t := SFdiv 53 1024 a b.
Definition ge (a b : t) : bool := SFleb b a.
Definition lt (a b : t) : bool := SFltb a b.
Definition gt (a b : t) : bool := SFltb b a.
Definition min (a b : t) : t := if SFltb b a then b else a.
(** [Math.floor] of a finite number. *)
Definition floor (a : t) : Z :=
  match a with
  | S754_finite s m e =>
      let v := if s then Z.neg m else Z.pos m in
      if 0 <=? e then v * 2 ^ e else v / 2 ^ (- e)
  | _ => 0
  end.
Definition infinity : t := S754_infinity false.
(** The literals 0.7, 0.9, 0.6 and 0.1. *)
Definition n0_7 : t := S754_finite false 6305039478318694 (-53).
Definition n0_9 : t := S754_finite false 8106479329266893 (-53).
Definition n0_6 : t := S754_finite false 5404319552844595 (-53).
Definition n0_1 : t := S754_finite false 7205759403792794 (-56).
End Num.
