(* ===== verification/Scopes.v ===== *)
(** * Scope identifiers, persons and the audience filter

    [src/types.ts] (scope ids and the shared records), [src/directory/person.ts]
    (when two ids name the same person) and [src/resolution/context-filter.ts]
    (which history entries an audience may see). *)

From Stdlib Require Import ZArith Lia Ascii.
From S2P Require Import Prelude Collections.

(** ** Scope ids: [kind:ref] strings *)
Module ScopeKind.
Inductive t := personal | channel | team | org | group.
#[global] Instance eq_dec : EqDecision t.
Proof. solve_decision. Defined.

Definition to_string (k : t) : string :=
  match k with
  | personal => "personal" | channel => "channel" | team => "team"
  | org => "org" | group => "group"
  end.
End ScopeKind.

Definition SCOPE_KINDS : list ScopeKind.t :=
  [ScopeKind.personal; ScopeKind.channel; ScopeKind.team; ScopeKind.org; ScopeKind.group].

Definition ScopeId := string.

(** [isScopeKind(s)], returning the kind the type guard narrows to. *)
Definition isScopeKind (s : string) : option ScopeKind.t :=
  List.find (fun k => ScopeKind.to_string k === s) SCOPE_KINDS.

Definition scopeId (kind : ScopeKind.t) (ref : string) : ScopeId :=
  ScopeKind.to_string kind +:+ ":" +:+ ref.

Definition personalScope (principalId : string) : ScopeId := scopeId ScopeKind.personal principalId.

Definition parseScopeId (id : ScopeId) : option ScopeKind.t * string :=
  match Str.indexOf ":" id with
  | None => (None, "")
  | Some sep => (isScopeKind (Str.take sep id), Str.drop (S sep) id)
  end.

Definition isManageableCreationScope (id : option ScopeId) : bool :=
  match id with
  | None => false
  | Some id =>
      if negb (Str.truthy id) then false else
      let '(kind, _) := parseScopeId id in
      (kind === Some ScopeKind.channel) || (kind === Some ScopeKind.team)
  end.

Definition isSharedScope (id : option ScopeId) : bool :=
  match id with
  | None => false
  | Some id =>
      if negb (Str.truthy id) then false else
      let '(kind, _) := parseScopeId id in
      (kind === Some ScopeKind.channel) || (kind === Some ScopeKind.group)
  end.

(** ** Principals *)
Inductive PrincipalType := internal | guest.
#[global] Instance PrincipalType_eq_dec : EqDecision PrincipalType.
Proof. solve_decision. Defined.

Module Principal.
Record t := mk {
  id : string;
  type : PrincipalType;
  teamIds : option (list string);
  displayName : option string;
}.
#[global] Instance eq_dec : EqDecision t.
Proof. solve_decision. Defined.
End Principal.

Inductive ConversationKind := kind_dm | kind_channel | kind_group.
#[global] Instance ConversationKind_eq_dec : EqDecision ConversationKind.
Proof. solve_decision. Defined.

Module Conversation.
Record t := mk {
  kind : ConversationKind;
  threadRef : string;
  channelRef : option string;
  audience : list Principal.t;
  isPrivate : option bool;
  isMpim : option bool;
  publishMembers : option (list Principal.t);
}.
End Conversation.

(** ** [person.ts] *)

Definition personKey (id : option string) : string :=
  let s := Str.trim (default "" id) in
  if Str.includesChar "@" s then Str.toLowerCase s else s.

Definition samePerson (a b : option string) : bool :=
  let key := personKey a in
  (key !== "") && (key === personKey b).

Module RosterPerson.
Record t := mk {
  principalId : option string;
  slackId : option string;
}.
End RosterPerson.

Definition personKeys (member : option RosterPerson.t) (rawId : string) : list string :=
  foldl (fun keys id =>
           let key := personKey id in
           if Str.truthy key then Arr.add keys key else keys)
        []
        [Some rawId; member ≫= RosterPerson.principalId; member ≫= RosterPerson.slackId].

(** [directory.get(id).catch(() => null)] *)
Definition get_or_null {A : Type} (r : outcome (option A)) : option A :=
  match r with Ok m => m | Throw _ => None end.

Definition samePersonInDirectory
    (get : string -> outcome (option RosterPerson.t)) (a b : string) : bool :=
  if samePerson (Some a) (Some b) then true else
  if negb (Str.truthy (personKey (Some a))) || negb (Str.truthy (personKey (Some b))) then false else
  let ma := get_or_null (get a) in
  let mb := get_or_null (get b) in
  let bKeys := personKeys mb b in
  existsb (fun key => bool_decide (key ∈ bKeys)) (personKeys ma a).

Definition samePersonMatcher
    (get : string -> outcome (option RosterPerson.t)) (actorId : string) : string -> bool :=
  let row := get_or_null (get actorId) in
  let keys := personKeys row actorId in
  fun id =>
    if bool_decide (personKey (Some id) ∈ keys) then true else
    match row with
    | Some _ => false
    | None => samePersonInDirectory get id actorId
    end.

(** ** [context-filter.ts] *)

Definition principalEntitledToScope
    (p : Principal.t) (label sessionScopeId orgScopeId : ScopeId) : bool :=
  if label === orgScopeId then true else
  if label === sessionScopeId then true else
  let '(kind, ref) := parseScopeId label in
  match kind with
  | Some ScopeKind.personal => Principal.id p === ref
  | Some ScopeKind.team => bool_decide (ref ∈ default [] (Principal.teamIds p))
  | _ => false
  end.

Module SessionEntry.
Record t := mk {
  sessionId : string;
  seq : Z;
  parentSeq : option Z;
  type : string;
  payload : json;
  scopeLabel : ScopeId;
  createdAt : Z;
}.
End SessionEntry.

Definition filterHistoryForAudience
    (entries : list SessionEntry.t) (audience : list Principal.t)
    (sessionScopeId orgScopeId : ScopeId) : list SessionEntry.t :=
  match audience with
  | [] => []
  | _ => List.filter (fun e =>
           forallb (fun p => principalEntitledToScope p (SessionEntry.scopeLabel e)
                               sessionScopeId orgScopeId) audience) entries
  end.

(** ** Facts about scope ids *)

Lemma isScopeKind_to_string k : isScopeKind (ScopeKind.to_string k) = Some k.
Proof. by destruct k. Qed.

Lemma isScopeKind_Some s k : isScopeKind s = Some k -> s = ScopeKind.to_string k.
Proof. intros [_ H]%Arr.find_elem. by js_bool. Qed.

Lemma kind_no_colon k : Str.includesChar ":" (ScopeKind.to_string k) = false.
Proof. by destruct k. Qed.

Lemma parse_scopeId k r : parseScopeId (scopeId k r) = (Some k, r).
Proof.
  unfold parseScopeId, scopeId.
  change (":" +:+ r) with (String ":" r).
  rewrite (Str.indexOf_append ":" _ _ (kind_no_colon k)), Str.take_append, isScopeKind_to_string.
  f_equal. by destruct k.
Qed.

Lemma parseScopeId_Some s k r : parseScopeId s = (Some k, r) -> s = scopeId k r.
Proof.
  unfold parseScopeId. destruct (Str.indexOf ":" s) as [n|] eqn:E; [|done].
  intros [= Hk Hr]. apply isScopeKind_Some in Hk. apply Str.indexOf_Some in E.
  unfold scopeId. rewrite <- Hk, <- Hr. exact E.
Qed.

Lemma parseScopeId_iff s k r : parseScopeId s = (Some k, r) <-> s = scopeId k r.
Proof. split; [apply parseScopeId_Some|intros ->; apply parse_scopeId]. Qed.

Lemma scopeId_inj k r k' r' : scopeId k r = scopeId k' r' -> k = k' /\ r = r'.
Proof. intros H. apply (f_equal parseScopeId) in H. rewrite !parse_scopeId in H. by simplify_eq. Qed.


(** ** Facts about persons *)

Lemma personKey_idem oid : personKey (Some (personKey oid)) = personKey oid.
Proof.
  unfold personKey. cbn [from_option]. unfold id. set (s := Str.trim (from_option _ _ oid)).
  assert (Str.trim s = s) as Hs by apply Str.trim_idem.
  destruct (Str.includesChar "@" s) eqn:E.
  - rewrite Str.trim_lower, Hs, Str.includesChar_lower_at, E. apply Str.toLowerCase_idem.
  - by rewrite Hs, E.
Qed.

Lemma samePerson_iff a b :
  samePerson a b = true <-> personKey a <> "" /\ personKey a = personKey b.
Proof. unfold samePerson. rewrite andb_true_iff, negb_true_iff, bool_decide_eq_true, bool_decide_eq_false. done. Qed.

Lemma samePerson_sym a b : samePerson a b = samePerson b a.
Proof. apply eq_true_iff_eq. rewrite !samePerson_iff. intuition congruence. Qed.

Lemma samePerson_trans a b c :
  samePerson a b = true -> samePerson b c = true -> samePerson a c = true.
Proof. rewrite !samePerson_iff. intuition congruence. Qed.

Lemma samePerson_refl a : samePerson a a = true <-> personKey a <> "".
Proof. rewrite samePerson_iff. tauto. Qed.

Lemma elem_of_personKeys m rawId key :
  key ∈ personKeys m rawId <->
  key <> "" /\ (key = personKey (Some rawId)
                \/ key = personKey (m ≫= RosterPerson.principalId)
                \/ key = personKey (m ≫= RosterPerson.slackId)).
Proof.
  unfold personKeys, Str.truthy. cbn [foldl].
  repeat case_bool_decide; cbn [negb]; rewrite ?Arr.elem_of_add; set_solver.
Qed.

Lemma samePersonInDirectory_sym get a b :
  samePersonInDirectory get a b = samePersonInDirectory get b a.
Proof.
  unfold samePersonInDirectory. rewrite (samePerson_sym (Some b)). destruct (samePerson _ _); [done|].
  rewrite (orb_comm (negb (Str.truthy (personKey (Some b))))).
  destruct (_ || _); [done|]. apply eq_true_iff_eq. rewrite !Arr.existsb_elem.
  split; intros (x & H1 & H2); js_bool; exists x; by rewrite bool_decide_eq_true_2.
Qed.

(** ** Facts about the audience filter *)

Lemma principalEntitledToScope_iff p label sess orgS :
  principalEntitledToScope p label sess orgS = true <->
  label = orgS \/ label = sess
  \/ label = scopeId ScopeKind.personal (Principal.id p)
  \/ exists t, t ∈ default [] (Principal.teamIds p) /\ label = scopeId ScopeKind.team t.
Proof.
  unfold principalEntitledToScope.
  case_bool_decide as H1; [tauto|]. case_bool_decide as H2; [tauto|].
  destruct (parseScopeId label) as [k r] eqn:E.
  assert (forall k' r', label = scopeId k' r' -> k = Some k' /\ r = r') as Hinv.
  { intros k' r' ->. rewrite parse_scopeId in E. by simplify_eq. }
  destruct k as [k|]; [apply parseScopeId_Some in E|].
  - destruct k; rewrite ?bool_decide_eq_true; split; intros H;
      repeat match goal with
      | H : _ \/ _ |- _ => destruct H
      | H : exists _, _ |- _ => destruct H as (? & ? & ?)
      end; try done; try (apply Hinv in H; destruct H; congruence);
      try (match goal with Hl : label = scopeId _ _ |- _ => apply Hinv in Hl; destruct Hl; congruence end).
    + subst r. tauto.
    + right; right; right. eauto.
  - split; [done|]. intros [?|[?|[H|(t & _ & H)]]]; try done; apply Hinv in H; destruct H; congruence.
Qed.

Lemma elem_of_filterHistory entries audience sess orgS e :
  e ∈ filterHistoryForAudience entries audience sess orgS <->
  audience <> [] /\ e ∈ entries /\
  forall p, p ∈ audience -> principalEntitledToScope p (SessionEntry.scopeLabel e) sess orgS = true.
Proof.
  destruct audience as [|p ps]; cbn [filterHistoryForAudience].
  - split; [set_solver|]. intros [? _]. done.
  - rewrite Arr.elem_of_filter, Arr.forallb_elem. naive_solver.
Qed.
