(* ===== verification/Acl.v ===== *)
(** * The access-control grants

    [src/acl/resource-ref.ts] and [src/acl/acl-store.ts].  The store is written
    against the interface [GrantPersistence], as in the source; [MemoryGrants]
    is the in-memory implementation, and its instance of the laws makes every
    theorem about the store a theorem about it. *)

From Stdlib Require Import ZArith Lia Ascii.
From S2P Require Import Prelude Collections Scopes.

(** ** Resource references *)
Module ResourceKind.
Inductive t := file | skill | deploy | cron | service_cred.
#[global] Instance eq_dec : EqDecision t.
Proof. solve_decision. Defined.
End ResourceKind.

Definition RESOURCE_KINDS : list ResourceKind.t :=
  [ResourceKind.file; ResourceKind.skill; ResourceKind.deploy; ResourceKind.cron;
   ResourceKind.service_cred].

Module ResourceRef.
Record t := mk { kind : ResourceKind.t; id : string }.
#[global] Instance eq_dec : EqDecision t.
Proof. solve_decision. Defined.
End ResourceRef.

(** [PREFIX] is a record over the kinds other than [file]. *)
Definition PREFIX (k : ResourceKind.t) : option string :=
  match k with
  | ResourceKind.file => None
  | ResourceKind.skill => Some "skill:"
  | ResourceKind.deploy => Some "deployment:"
  | ResourceKind.cron => Some "cron:"
  | ResourceKind.service_cred => Some "service-cred:"
  end.

Definition fileRef (path : string) : ResourceRef.t := ResourceRef.mk ResourceKind.file path.
Definition skillRef (id : string) : ResourceRef.t := ResourceRef.mk ResourceKind.skill id.
Definition deployRef (id : string) : ResourceRef.t := ResourceRef.mk ResourceKind.deploy id.
Definition cronRef (id : string) : ResourceRef.t := ResourceRef.mk ResourceKind.cron id.
Definition serviceCredRef (slug : string) : ResourceRef.t :=
  ResourceRef.mk ResourceKind.service_cred slug.

Definition encodeRef (r : ResourceRef.t) : string :=
  match PREFIX (ResourceRef.kind r) with
  | None => ResourceRef.id r
  | Some p => p +:+ ResourceRef.id r
  end.

Fixpoint parseRef_loop (kinds : list ResourceKind.t) (s : string) : ResourceRef.t :=
  match kinds with
  | [] => ResourceRef.mk ResourceKind.file s
  | kind :: rest =>
      match PREFIX kind with
      | None => parseRef_loop rest s
      | Some p => if Str.startsWith s p
                  then ResourceRef.mk kind (Str.drop (String.length p) s)
                  else parseRef_loop rest s
      end
  end.

Definition parseRef (s : string) : ResourceRef.t := parseRef_loop RESOURCE_KINDS s.

Definition refPrefix (kind : ResourceKind.t) : option string := PREFIX kind.

(** ** Grants *)
Inductive Permission := read | write.
#[global] Instance Permission_eq_dec : EqDecision Permission.
Proof. solve_decision. Defined.

Definition permission_string (p : Permission) : string :=
  match p with read => "read" | write => "write" end.

Module Grant.
Record t := mk {
  ownerScopeId : ScopeId;
  ref : string;
  granteeScopeId : ScopeId;
  permission : Permission;
  grantedBy : string;
}.
#[global] Instance eq_dec : EqDecision t.
Proof. solve_decision. Defined.
End Grant.
Import Grant.

Module GrantedHandle.
Record t := mk {
  handlePath : string;
  ownerScopeId : ScopeId;
  ownerPath : string;
  permission : Permission;
}.
End GrantedHandle.

Definition isFileGrant (g : Grant.t) : bool :=
  ResourceRef.kind (parseRef (ref g)) === ResourceKind.file.

Definition basename (p : string) : string :=
  let lastPart := default "" (last (Str.split "/" p)) in
  if Str.truthy lastPart then lastPart else p.

Definition toHandle (g : Grant.t) : GrantedHandle.t :=
  GrantedHandle.mk ("shared/" +:+ basename (ref g)) (ownerScopeId g) (ref g) (permission g).

Definition ownerOf (scope : ScopeId) : option string :=
  let '(kind, ref) := parseScopeId scope in
  if kind === Some ScopeKind.personal then Some ref else None.

Definition isMembershipManaged (scope : ScopeId) : bool :=
  let '(kind, _) := parseScopeId scope in
  (kind === Some ScopeKind.channel) || (kind === Some ScopeKind.group).

Definition sameGrant (a b : Grant.t) : bool :=
  (ownerScopeId a === ownerScopeId b) && (ref a === ref b)
  && (granteeScopeId a === granteeScopeId b) && (permission a === permission b).

Definition sameGrantTuple (a b : Grant.t) : bool :=
  sameGrant a b && (grantedBy a === grantedBy b).

Definition sameGrantSet (a b : list Grant.t) : bool :=
  (length a === length b)
  && forallb (fun grant => existsb (fun candidate => sameGrantTuple grant candidate) b) a.

(** The grants of one resource. *)
Definition onResource (owner : ScopeId) (r : string) (g : Grant.t) : bool :=
  (ownerScopeId g === owner) && (ref g === r).

(** ** The persistence interface *)
Class GrantPersistence (St : Type) := {
  all : St -> list Grant.t;
  put : Grant.t -> St -> St;
  remove : Grant.t -> St -> St;
  replaceForResourceIfCurrent :
    ScopeId -> string -> list Grant.t -> list Grant.t -> St -> bool * St;
}.

Class GrantPersistenceLaws (St : Type) `{GrantPersistence St} := {
  all_put : forall g g' s,
    g' ∈ all (put g s) <->
    g' ∈ all s \/ g' = g /\ forall x, x ∈ all s -> sameGrant x g = false;
  all_remove : forall g g' s,
    g' ∈ all (remove g s) <-> g' ∈ all s /\ sameGrant g' g = false;
  replace_refused : forall owner r expected replacement s,
    fst (replaceForResourceIfCurrent owner r expected replacement s)
    = sameGrantSet (List.filter (onResource owner r) (all s)) expected;
  replace_unchanged : forall owner r expected replacement s,
    fst (replaceForResourceIfCurrent owner r expected replacement s) = false ->
    snd (replaceForResourceIfCurrent owner r expected replacement s) = s;
  replace_done : forall owner r expected replacement s g,
    fst (replaceForResourceIfCurrent owner r expected replacement s) = true ->
    g ∈ all (snd (replaceForResourceIfCurrent owner r expected replacement s)) <->
    g ∈ all s /\ onResource owner r g = false \/ g ∈ replacement;
}.

(** ** The in-memory persistence *)
Module MemoryGrants.

Definition key (g : Grant.t) : string :=
  let nl := String (ascii_of_nat 10) "" in
  ownerScopeId g +:+ nl +:+ ref g +:+ nl +:+ granteeScopeId g +:+ nl
  +:+ permission_string (permission g).

(** The comparator of [all()] is at most zero unless [key(a) > key(b)]. *)
Definition leb (a b : Grant.t) : bool := negb (Str.ltb (key b) (key a)).

Definition all (grants : list Grant.t) : list Grant.t := Arr.sort leb grants.

Definition put (g : Grant.t) (grants : list Grant.t) : list Grant.t :=
  if negb (existsb (fun x => sameGrant x g) grants) then grants ++ [g] else grants.

(** The loop walks the indices down and splices every match. *)
Definition remove (g : Grant.t) (grants : list Grant.t) : list Grant.t :=
  List.filter (fun x => negb (sameGrant x g)) grants.

Definition replaceForResourceIfCurrent (owner : ScopeId) (r : string)
    (expected replacement : list Grant.t) (grants : list Grant.t) : bool * list Grant.t :=
  let current := List.filter (onResource owner r) grants in
  if negb (sameGrantSet current expected) then (false, grants) else
  (true, List.filter (fun x => negb (onResource owner r x)) grants ++ replacement).

#[global] Instance persistence : GrantPersistence (list Grant.t) := {|
  Acl.all := all;
  Acl.put := put;
  Acl.remove := remove;
  Acl.replaceForResourceIfCurrent := replaceForResourceIfCurrent;
|}.

Lemma forallb_perm {A} (p : A -> bool) l l' : l ≡ₚ l' -> forallb p l = forallb p l'.
Proof. intros H. apply eq_true_iff_eq. rewrite !Arr.forallb_elem.
  split; intros Hp x Hx; apply Hp; [by rewrite H|by rewrite <- H].
Qed.

Lemma filter_perm {A} (p : A -> bool) l l' : l ≡ₚ l' -> List.filter p l ≡ₚ List.filter p l'.
Proof.
  induction 1; cbn; try done.
  - destruct (p x); [by constructor|done].
  - destruct (p x), (p y); try done. constructor.
  - by etrans.
Qed.

Lemma sameGrantSet_perm a a' b : a ≡ₚ a' -> sameGrantSet a b = sameGrantSet a' b.
Proof.
  intros H. unfold sameGrantSet.
  rewrite (forallb_perm _ _ _ H). by rewrite (Permutation_length H).
Qed.

#[global] Instance laws : GrantPersistenceLaws (list Grant.t).
Proof.
  split; cbn.
  - intros g g' s. unfold all. rewrite !Arr.elem_of_sort. unfold put.
    destruct (existsb _ _) eqn:E; cbn.
    + apply Arr.existsb_elem in E as (x & Hx & Hsame). split; [tauto|].
      intros [?|[-> Hno]]; [done|]. rewrite (Hno x) in Hsame; [done|by apply Arr.elem_of_sort].
    + rewrite elem_of_app, list_elem_of_singleton.
      assert (forall x, x ∈ Arr.sort leb s -> sameGrant x g = false) as Hno.
      { intros x Hx%Arr.elem_of_sort. by apply (proj1 (Arr.existsb_false _ _) E). }
      split; [intros [?| ->]; auto | intros [?|[-> _]]; auto].
  - intros g g' s. unfold all, remove. rewrite !Arr.elem_of_sort, Arr.elem_of_filter, negb_true_iff. tauto.
  - intros owner r expected replacement s. unfold replaceForResourceIfCurrent, all.
    rewrite (sameGrantSet_perm _ _ _ (filter_perm (onResource owner r) _ _ (Arr.sort_perm leb s))).
    by destruct (sameGrantSet _ _).
  - intros owner r expected replacement s. unfold replaceForResourceIfCurrent.
    by destruct (sameGrantSet _ _).
  - intros owner r expected replacement s g. unfold replaceForResourceIfCurrent, all.
    destruct (sameGrantSet _ _); [|done]. intros _. cbn.
    rewrite !Arr.elem_of_sort, elem_of_app, Arr.elem_of_filter, negb_true_iff. tauto.
Qed.
End MemoryGrants.

(** ** The ACL store over any persistence *)
Section store.
Context {St : Type} `{GrantPersistence St}.

(** [opts.manages]: who manages a channel or group scope. *)
Variable manages : option (string -> ScopeId -> option string -> outcome bool).

Definition canManage (scope : ScopeId) (principalId : string) (authoredBy : option string)
    : outcome bool :=
  match ownerOf scope with
  | Some owner => Ok (samePerson (Some principalId) (Some owner))
  | None =>
      match isMembershipManaged scope, manages with
      | true, Some m => m principalId scope authoredBy
      | _, _ => Ok true
      end
  end.

Definition grant (g : Grant.t) (authoredBy : option string) (s : St) : outcome St :=
  let! ok := canManage (ownerScopeId g) (grantedBy g) authoredBy in
  if negb ok then Throw "only a manager of this scope may grant access (no transitive re-share)"
  else Ok (put g s).

Definition revoke (owner : ScopeId) (r : string) (grantee : ScopeId) (revokedBy : string)
    (authoredBy : option string) (s : St) : outcome St :=
  let! ok := canManage owner revokedBy authoredBy in
  if negb ok then Throw "only a manager of this scope may revoke access" else
  let matches := List.filter (fun g => onResource owner r g && (granteeScopeId g === grantee)) (all s) in
  Ok (foldl (fun s g => remove g s) s matches).

Definition replaceGrantsIfCurrent (owner : ScopeId) (r : string)
    (expected replacement : list Grant.t) (changedBy : string) (authoredBy : option string)
    (s : St) : outcome (bool * St) :=
  let! ok := canManage owner changedBy authoredBy in
  if negb ok then Throw "only a manager of this scope may replace access grants" else
  if existsb (fun g => negb (onResource owner r g)) expected
     || existsb (fun g => negb (onResource owner r g)) replacement
  then Throw "replacement grants must belong to the selected resource"
  else Ok (replaceForResourceIfCurrent owner r expected replacement s).

Definition handlesFor (scopeIds : list ScopeId) (s : St) : list GrantedHandle.t :=
  map toHandle (List.filter (fun g => isFileGrant g && bool_decide (granteeScopeId g ∈ scopeIds)) (all s)).

Definition ScopeEntitlement := Principal.t -> ScopeId -> ScopeId -> ScopeId -> bool.

(** The filter of [handlesForAudience]. *)
Definition audienceSees (entitled : ScopeEntitlement) (audience : list Principal.t)
    (sessionScopeId orgScopeId : ScopeId) (g : Grant.t) : bool :=
  let reaches p := entitled p (granteeScopeId g) sessionScopeId orgScopeId
                   || entitled p (ownerScopeId g) sessionScopeId orgScopeId in
  isFileGrant g
  && existsb (fun p => entitled p (granteeScopeId g) sessionScopeId orgScopeId) audience
  && forallb reaches audience.

Definition handlesForAudience (audience : list Principal.t) (sessionScopeId orgScopeId : ScopeId)
    (entitled : ScopeEntitlement) (s : St) : list GrantedHandle.t :=
  match audience with
  | [] => []
  | _ => map toHandle (List.filter (audienceSees entitled audience sessionScopeId orgScopeId) (all s))
  end.

Definition grantsFor (owner : ScopeId) (r : string) (s : St) : list Grant.t :=
  List.filter (onResource owner r) (all s).

(** The type of [kind] excludes [file], which has no prefix. *)
Definition grantsOfKind (kind : ResourceKind.t) (audience : list Principal.t)
    (sessionScopeId orgScopeId : ScopeId) (entitled : ScopeEntitlement) (s : St) : list Grant.t :=
  match audience, refPrefix kind with
  | [], _ | _, None => []
  | _, Some prefix => List.filter (fun g =>
           Str.startsWith (ref g) prefix && (ownerScopeId g === orgScopeId)
           && forallb (fun p => entitled p (granteeScopeId g) sessionScopeId orgScopeId) audience)
         (all s)
  end.

End store.

(** ** Facts about references *)

Lemma parseRef_encode_nonfile r p :
  PREFIX (ResourceRef.kind r) = Some p -> parseRef (encodeRef r) = r.
Proof.
  destruct r as [[] i]; cbn [ResourceRef.kind PREFIX]; intros [= <-]; by destruct i.
Qed.

Lemma encode_parseRef s : encodeRef (parseRef s) = s.
Proof.
  unfold parseRef. generalize RESOURCE_KINDS. intros ks.
  induction ks as [|k ks IH]; cbn [parseRef_loop]; [done|].
  destruct (PREFIX k) as [p|] eqn:Ek; [|done].
  destruct (Str.startsWith s p) eqn:E; [|done].
  unfold encodeRef. cbn [ResourceRef.kind ResourceRef.id]. rewrite Ek.
  symmetry. by apply Str.startsWith_split.
Qed.

(** ** Facts about grants and the store *)

Lemma sameGrant_iff a b :
  sameGrant a b = true <->
  ownerScopeId a = ownerScopeId b /\ ref a = ref b
  /\ granteeScopeId a = granteeScopeId b /\ permission a = permission b.
Proof. unfold sameGrant. rewrite !andb_true_iff, !bool_decide_eq_true. tauto. Qed.

Lemma sameGrant_refl a : sameGrant a a = true.
Proof. by apply sameGrant_iff. Qed.

Lemma onResource_iff owner r g :
  onResource owner r g = true <-> ownerScopeId g = owner /\ ref g = r.
Proof. unfold onResource. by rewrite andb_true_iff, !bool_decide_eq_true. Qed.

Lemma ownerOf_personal u : ownerOf (personalScope u) = Some u.
Proof. unfold ownerOf, personalScope. by rewrite parse_scopeId. Qed.

Section store_facts.
Context {St : Type} `{GrantPersistenceLaws St}.
Variable manages : option (string -> ScopeId -> option string -> outcome bool).

Lemma canManage_personal u who authoredBy :
  canManage manages (personalScope u) who authoredBy = Ok (samePerson (Some who) (Some u)).
Proof. unfold canManage. by rewrite ownerOf_personal. Qed.

Lemma foldl_remove_all (gs : list Grant.t) (s : St) g :
  g ∈ all (foldl (fun s g => remove g s) s gs) <->
  g ∈ all s /\ forall x, x ∈ gs -> sameGrant g x = false.
Proof.
  revert s. induction gs as [|x gs IH]; intros s; cbn; [set_solver|].
  rewrite IH, all_remove. set_solver.
Qed.

(** The grants a successful revoke leaves. *)
Lemma revoke_all owner r grantee who authoredBy (s s' : St) g :
  revoke manages owner r grantee who authoredBy s = Ok s' ->
  g ∈ all s' <-> g ∈ all s /\ ~ (ownerScopeId g = owner /\ ref g = r /\ granteeScopeId g = grantee).
Proof.
  unfold revoke. destruct (canManage _ _ _ _) as [[]|]; cbn; intros [= <-].
  rewrite foldl_remove_all. split; intros [Hg Hx]; split; try done.
  - intros (Ho & Hr & He). specialize (Hx g). rewrite sameGrant_refl in Hx.
    discriminate Hx. apply Arr.elem_of_filter.
    split; [|done]. apply andb_true_iff. by rewrite onResource_iff, bool_decide_eq_true.
  - intros x [Hm Hx']%Arr.elem_of_filter. apply andb_true_iff in Hm as [Hm He].
    apply onResource_iff in Hm. js_bool. apply not_true_iff_false. rewrite sameGrant_iff.
    intros (E1 & E2 & E3 & _). apply Hx. destruct Hm. repeat split; congruence.
Qed.

(** *** Operation sequences *)
Inductive acl_op :=
| OpGrant (g : Grant.t) (authoredBy : option string)
| OpRevoke (owner : ScopeId) (r : string) (grantee : ScopeId) (revokedBy : string)
    (authoredBy : option string)
| OpReplace (owner : ScopeId) (r : string) (expected replacement : list Grant.t)
    (changedBy : string) (authoredBy : option string).

Definition acl_actor (op : acl_op) : string :=
  match op with
  | OpGrant g _ => grantedBy g
  | OpRevoke _ _ _ who _ | OpReplace _ _ _ _ who _ => who
  end.

Definition acl_exec (op : acl_op) (s : St) : outcome St :=
  match op with
  | OpGrant g a => grant manages g a s
  | OpRevoke owner r grantee who a => revoke manages owner r grantee who a s
  | OpReplace owner r e n who a =>
      let! res := replaceGrantsIfCurrent manages owner r e n who a s in Ok (snd res)
  end.

(** A rejected call leaves the store as it was. *)
Definition acl_apply (s : St) (op : acl_op) : St :=
  match acl_exec op s with Ok s' => s' | Throw _ => s end.

Lemma acl_exec_personal op (s s' : St) u g :
  acl_exec op s = Ok s' -> ownerScopeId g = personalScope u ->
  samePerson (Some (acl_actor op)) (Some u) = false ->
  g ∈ all s' <-> g ∈ all s.
Proof.
  intros Hop Hg Hwho. destruct op as [g0 a|owner r grantee who a|owner r e n who a]; cbn [acl_exec acl_actor] in *.
  - unfold grant in Hop. destruct (decide (ownerScopeId g0 = personalScope u)) as [E|E].
    + rewrite E, canManage_personal in Hop. cbn in Hop. by rewrite Hwho in Hop.
    + destruct (canManage _ _ _ _) as [[]|]; cbn in Hop; simplify_eq.
      rewrite all_put. split; [intros [?|[-> _]]; done|auto].
  - destruct (decide (owner = personalScope u)) as [->|E].
    + unfold revoke in Hop. rewrite canManage_personal in Hop. cbn in Hop. by rewrite Hwho in Hop.
    + rewrite (revoke_all _ _ _ _ _ _ _ g Hop). split; [tauto|]. intros; split; [done|].
      intros (? & _); congruence.
  - unfold replaceGrantsIfCurrent in Hop.
    destruct (decide (owner = personalScope u)) as [->|E].
    + rewrite canManage_personal in Hop. cbn in Hop. by rewrite Hwho in Hop.
    + destruct (canManage _ _ _ _) as [[]|]; cbn in Hop; try done.
      destruct (existsb _ e || existsb _ n) eqn:Ee; cbn in Hop; [done|]. simplify_eq.
      apply orb_false_iff in Ee as [_ En]. rewrite Arr.existsb_false in En.
      destruct (fst (replaceForResourceIfCurrent owner r e n s)) eqn:Ef;
        [|by rewrite replace_unchanged].
      rewrite replace_done by done. split.
      * intros [[? _]|Hn]; [done|]. apply En in Hn. apply negb_false_iff, onResource_iff in Hn.
        destruct Hn; congruence.
      * intros Hin. left; split; [done|]. apply not_true_iff_false. rewrite onResource_iff.
        intros [? _]; congruence.
Qed.

Lemma handlesForAudience_elem audience sess orgS entitled (s : St) h :
  h ∈ handlesForAudience audience sess orgS entitled s <->
  audience <> [] /\ exists g, h = toHandle g /\ g ∈ all s /\ isFileGrant g = true
    /\ (exists p, p ∈ audience /\ entitled p (granteeScopeId g) sess orgS = true)
    /\ (forall p, p ∈ audience ->
          entitled p (granteeScopeId g) sess orgS = true
          \/ entitled p (ownerScopeId g) sess orgS = true).
Proof.
  unfold handlesForAudience. destruct audience as [|p0 ps].
  { split; [set_solver|]. intros [? _]. done. }
  assert (forall g, audienceSees entitled (p0 :: ps) sess orgS g = true <->
    isFileGrant g = true
    /\ (exists p, p ∈ p0 :: ps /\ entitled p (granteeScopeId g) sess orgS = true)
    /\ (forall p, p ∈ p0 :: ps -> entitled p (granteeScopeId g) sess orgS = true
                                 \/ entitled p (ownerScopeId g) sess orgS = true)) as Hsees.
  { intros g. unfold audienceSees. rewrite !andb_true_iff, Arr.existsb_elem, Arr.forallb_elem.
    setoid_rewrite orb_true_iff. tauto. }
  rewrite list_elem_of_fmap. setoid_rewrite Arr.elem_of_filter. setoid_rewrite Hsees.
  split; [intros (g & ? & ? & ?)|intros (_ & g & ? & ? & ?)]; [split; [done|]|]; exists g; tauto.
Qed.
End store_facts.

(** ** Properties *)

(** Encoding a parsed reference gives the text back, and parsing an encoded
    reference gives the reference back exactly when it is not a file, or is a
    file whose path does not itself start with the prefix of another kind. *)
Theorem resource_ref_codec (s : string) (r : ResourceRef.t) :
  encodeRef (parseRef s) = s /\
  (parseRef (encodeRef r) = r <->
   (ResourceRef.kind r = ResourceKind.file ->
    forall k p, PREFIX k = Some p -> Str.startsWith (ResourceRef.id r) p = false)).
Proof.
  split; [apply encode_parseRef|].
  destruct (decide (ResourceRef.kind r = ResourceKind.file)) as [Hf|Hf].
  - destruct r as [k i]; cbn [ResourceRef.kind ResourceRef.id] in *; subst k. unfold encodeRef; cbn [ResourceRef.kind ResourceRef.id PREFIX].
    split.
    + intros Hp _ k p Hk. destruct (Str.startsWith i p) eqn:E; [|done].
      unfold parseRef in Hp. cbn -[Str.startsWith Str.drop] in Hp.
      destruct k; cbn in Hk; simplify_eq; rewrite ?E in Hp;
        repeat (case_match; [congruence|]); congruence.
    + intros Hno. specialize (Hno eq_refl). unfold parseRef. cbn -[Str.startsWith Str.drop].
      by rewrite (Hno ResourceKind.skill _ eq_refl), (Hno ResourceKind.deploy _ eq_refl),
        (Hno ResourceKind.cron _ eq_refl), (Hno ResourceKind.service_cred _ eq_refl).
  - split; [by intros _ ?|]. intros _. destruct (PREFIX (ResourceRef.kind r)) as [p|] eqn:E.
    + by eapply parseRef_encode_nonfile.
    + by destruct (ResourceRef.kind r).
Qed.

Section properties.
Context {St : Type} `{GrantPersistenceLaws St}.
Variable manages : option (string -> ScopeId -> option string -> outcome bool).

(** C1: a sequence of grant, revoke and replace calls none of which is made by
    the owner of a personal scope changes no grant of that scope, whatever
    persistence the store runs on and whoever manages the shared scopes: access
    to a personal scope cannot be re-shared by its recipients. *)
Theorem acl_personal_scope_sealed (ops : list acl_op) (s : St) (u : string) (g : Grant.t) :
  ownerScopeId g = personalScope u ->
  Forall (fun op => samePerson (Some (acl_actor op)) (Some u) = false) ops ->
  g ∈ all (foldl (acl_apply manages) s ops) <-> g ∈ all s.
Proof.
  intros Hg Hops. revert s. induction Hops as [|op ops Hop _ IH]; intros s; cbn; [done|].
  rewrite IH. unfold acl_apply. destruct (acl_exec manages op s) as [s'|] eqn:E; [|done].
  by eapply acl_exec_personal.
Qed.

(** [revoke] succeeds exactly for a manager of the owning scope; it then
    removes every grant of the resource to the grantee, whatever its permission
    and granter, and no other grant; otherwise it throws. *)
Theorem revoke_exact owner r grantee who authoredBy (s : St) :
  match revoke manages owner r grantee who authoredBy s with
  | Ok s' => canManage manages owner who authoredBy = Ok true
      /\ forall g, g ∈ all s' <->
           g ∈ all s /\ ~ (ownerScopeId g = owner /\ ref g = r /\ granteeScopeId g = grantee)
  | Throw _ => canManage manages owner who authoredBy <> Ok true
  end.
Proof.
  destruct (revoke manages owner r grantee who authoredBy s) as [s'|m] eqn:E.
  - split; [|intros g; by eapply revoke_all].
    unfold revoke in E. destruct (canManage _ _ _ _) as [[]|]; cbn in E; congruence.
  - unfold revoke in E. intros Hc. rewrite Hc in E. done.
Qed.

(** [grant] succeeds exactly for a manager of the owning scope; afterwards
    the granted access is present (the same owner, resource, grantee and
    permission) and every other grant is as before. *)
Theorem grant_exact (g : Grant.t) authoredBy (s : St) :
  match grant manages g authoredBy s with
  | Ok s' => canManage manages (ownerScopeId g) (grantedBy g) authoredBy = Ok true
      /\ (exists g', g' ∈ grantsFor (ownerScopeId g) (ref g) s' /\ sameGrant g' g = true)
      /\ (forall x, sameGrant x g = false -> x ∈ all s' <-> x ∈ all s)
      /\ (forall x, x ∈ all s -> x ∈ all s')
  | Throw _ => canManage manages (ownerScopeId g) (grantedBy g) authoredBy <> Ok true
  end.
Proof.
  unfold grant. destruct (canManage _ _ _ _) as [[]|]; cbn; try done.
  split; [done|]. split; [|split].
  - unfold grantsFor. setoid_rewrite Arr.elem_of_filter. setoid_rewrite all_put.
    destruct (existsb (fun x => sameGrant x g) (all s)) eqn:E.
    + apply Arr.existsb_elem in E as (x & Hx & Hs). exists x. pose proof Hs as Hs'.
      apply sameGrant_iff in Hs' as (Eo & Er & _). rewrite onResource_iff. auto.
    + exists g. rewrite onResource_iff, sameGrant_refl. rewrite Arr.existsb_false in E. auto.
  - intros x Hx. rewrite all_put. split; [|auto]. intros [?|[-> _]]; [done|].
    by rewrite sameGrant_refl in Hx.
  - intros x Hx. rewrite all_put. auto.
Qed.

(** [replaceGrantsIfCurrent] is a compare-and-swap on one resource: it
    throws for a caller who does not manage the scope or for grants of another
    resource, answers [false] with the store unchanged when the current grants
    are not the expected ones, and otherwise leaves on the resource exactly the
    replacement, the other resources untouched. *)
Theorem replace_is_compare_and_swap owner r expected replacement who authoredBy (s : St) :
  match replaceGrantsIfCurrent manages owner r expected replacement who authoredBy s with
  | Ok (swapped, s') =>
      canManage manages owner who authoredBy = Ok true
      /\ swapped = sameGrantSet (grantsFor owner r s) expected
      /\ (swapped = false -> s' = s)
      /\ (swapped = true -> forall g,
            (g ∈ grantsFor owner r s' <-> g ∈ replacement)
            /\ (onResource owner r g = false -> g ∈ all s' <-> g ∈ all s))
  | Throw _ =>
      canManage manages owner who authoredBy <> Ok true
      \/ exists g, g ∈ expected ++ replacement /\ onResource owner r g = false
  end.
Proof.
  unfold replaceGrantsIfCurrent. destruct (canManage _ _ _ _) as [[]|]; cbn; try (by left).
  destruct (existsb _ expected || existsb _ replacement) eqn:E; cbn.
  - right. apply orb_true_iff in E as [E|E]; apply Arr.existsb_elem in E as (g & Hg & Hr);
      exists g; rewrite negb_true_iff in Hr; split; try done; apply elem_of_app; auto.
  - apply orb_false_iff in E as [_ E]. rewrite Arr.existsb_false in E.
    pose proof (replace_refused owner r expected replacement s) as Hf.
    destruct (replaceForResourceIfCurrent owner r expected replacement s) as [b s'] eqn:Er.
    cbn in Hf. split; [done|]. split; [done|]. split.
    + intros ->. pose proof (replace_unchanged owner r expected replacement s) as Hu.
      rewrite Er in Hu. by apply Hu.
    + intros -> g. pose proof (replace_done owner r expected replacement s g) as Hd.
      rewrite Er in Hd. specialize (Hd eq_refl). cbn in Hd. unfold grantsFor.
      assert (g ∈ replacement -> onResource owner r g = true) as Hr
        by (intros Hg; apply negb_false_iff; auto).
      rewrite Arr.elem_of_filter, Hd. destruct (onResource owner r g); split; naive_solver.
Qed.

(** C6: a file handle is offered to an audience exactly when some member is
    entitled to the grantee scope and every member is entitled to the grantee
    or the owner scope.  With the program's entitlement rule, every member's
    entitlement is to the organisation, the session's own scope, the member's
    personal scope or one of the member's teams; an empty audience sees nothing. *)
Theorem handles_for_audience_exact audience sess orgS (s : St) (h : GrantedHandle.t) :
  h ∈ handlesForAudience audience sess orgS principalEntitledToScope s <->
  audience <> [] /\ exists g, h = toHandle g /\ g ∈ all s /\ isFileGrant g = true
    /\ (exists p, p ∈ audience /\ principalEntitledToScope p (granteeScopeId g) sess orgS = true)
    /\ (forall p, p ∈ audience -> exists label,
          (label = granteeScopeId g \/ label = ownerScopeId g)
          /\ (label = orgS \/ label = sess
              \/ label = scopeId ScopeKind.personal (Principal.id p)
              \/ exists t, t ∈ default [] (Principal.teamIds p) /\ label = scopeId ScopeKind.team t)).
Proof.
  rewrite handlesForAudience_elem.
  split; intros (Ha & g & Hh & Hg & Hf & Hsome & Hall); (split; [done|]);
    exists g; (do 4 (split; [done|])); intros p Hp; specialize (Hall p Hp).
  - destruct Hall as [Hall|Hall]; apply principalEntitledToScope_iff in Hall; eauto.
  - destruct Hall as (label & [->| ->] & Hl); apply principalEntitledToScope_iff in Hl; auto.
Qed.

(** The organisation's grants of a kind are offered to an audience exactly
    when the whole audience is entitled to the grantee scope, the reference has
    the kind's prefix, and the organisation is the owner. *)
Theorem grants_of_kind_exact kind audience sess orgS (s : St) (g : Grant.t) :
  g ∈ grantsOfKind kind audience sess orgS principalEntitledToScope s <->
  g ∈ all s /\ audience <> [] /\ ownerScopeId g = orgS
  /\ (exists prefix, PREFIX kind = Some prefix /\ Str.startsWith (ref g) prefix = true)
  /\ forall p, p ∈ audience -> principalEntitledToScope p (granteeScopeId g) sess orgS = true.
Proof.
  unfold grantsOfKind, refPrefix. destruct audience as [|p ps].
  { split; [set_solver|]. intros (_ & ? & _). done. }
  destruct (PREFIX kind) as [prefix|].
  - rewrite Arr.elem_of_filter, !andb_true_iff, Arr.forallb_elem, bool_decide_eq_true.
    split; [intros [[[? ?] ?] ?]; eauto 10|]. intros (? & _ & ? & (q & [= <-] & ?) & ?). auto.
  - split; [set_solver|]. intros (_ & _ & _ & (q & [=] & _) & _).
Qed.
End properties.

(** *** Witnesses, on the in-memory persistence *)
Section witnesses.
Let alice_to_bob :=
  Grant.mk (personalScope "alice") "plans.md" (personalScope "bob") read "alice".
Let alice_to_carol :=
  Grant.mk (personalScope "alice") "plans.md" (personalScope "carol") read "alice".
Let org_skill :=
  Grant.mk "org:acme" "skill:digest" "org:acme" read "root".
Let bob_reshares :=
  OpGrant (Grant.mk (personalScope "alice") "plans.md" (personalScope "carol") read "bob") None.
Let bob_revokes :=
  OpRevoke (personalScope "alice") "plans.md" (personalScope "bob") "bob" None.
Let bob := Principal.mk "bob" internal None None.

Lemma acl_personal_scope_sealed_witness :
  alice_to_bob ∈ all (foldl (acl_apply None) [alice_to_bob] [bob_reshares; bob_revokes])
  <-> alice_to_bob ∈ all [alice_to_bob].
Proof.
  apply (acl_personal_scope_sealed None [bob_reshares; bob_revokes] [alice_to_bob] "alice").
  - reflexivity.
  - repeat constructor; reflexivity.
Defined.

Lemma revoke_exact_witness :
  alice_to_bob ∈ all [alice_to_carol]
  <-> alice_to_bob ∈ all [alice_to_bob; alice_to_carol]
      /\ ~ (ownerScopeId alice_to_bob = personalScope "alice" /\ ref alice_to_bob = "plans.md"
           /\ granteeScopeId alice_to_bob = personalScope "bob").
Proof.
  exact (proj2 (revoke_exact None (personalScope "alice") "plans.md" (personalScope "bob")
                  "alice" None [alice_to_bob; alice_to_carol]) alice_to_bob).
Defined.

Lemma grant_exact_witness :
  exists g', g' ∈ grantsFor (personalScope "alice") "plans.md" [alice_to_bob; alice_to_carol]
             /\ sameGrant g' alice_to_carol = true.
Proof.
  exact (proj1 (proj2 (grant_exact None alice_to_carol None [alice_to_bob]))).
Defined.

Lemma replace_is_compare_and_swap_witness :
  alice_to_carol ∈ grantsFor (personalScope "alice") "plans.md" [alice_to_carol]
  <-> alice_to_carol ∈ [alice_to_carol].
Proof.
  exact (proj1 (proj2 (proj2 (proj2
    (replace_is_compare_and_swap None (personalScope "alice") "plans.md" [alice_to_bob]
       [alice_to_carol] "alice" None [alice_to_bob]))) eq_refl alice_to_carol)).
Defined.

Lemma handles_for_audience_exact_witness :
  handlesForAudience [bob] "channel:c1" "org:acme" principalEntitledToScope [alice_to_bob]
    = [toHandle alice_to_bob]
  /\ exists g, toHandle alice_to_bob = toHandle g /\ g ∈ all [alice_to_bob].
Proof.
  split; [reflexivity|].
  destruct (proj1 (handles_for_audience_exact [bob] "channel:c1" "org:acme" [alice_to_bob]
                     (toHandle alice_to_bob))) as (_ & g & Hh & Hg & _).
  - left.
  - exists g. exact (conj Hh Hg).
Defined.

Lemma grants_of_kind_exact_witness :
  org_skill ∈ all [org_skill] /\ ownerScopeId org_skill = "org:acme".
Proof.
  destruct (proj1 (grants_of_kind_exact ResourceKind.skill [bob] "channel:c1" "org:acme"
                     [org_skill] org_skill)) as (Hg & _ & Ho & _).
  - left.
  - exact (conj Hg Ho).
Defined.
End witnesses.

(** A store that holds a grant twice accepts a stale expectation of two distinct
    grants: [sameGrantSet] compares lengths and one inclusion only. *)
Lemma sameGrantSet_not_symmetric :
  exists a b, sameGrantSet a b = true /\ sameGrantSet b a = false.
Proof.
  set (g1 := Grant.mk (personalScope "alice") "f" (personalScope "bob") read "alice").
  set (g2 := Grant.mk (personalScope "alice") "f" (personalScope "carol") read "alice").
  exists [g1; g1], [g1; g2]. split; reflexivity.
Qed.
