(* ===== verification/Runs.v ===== *)
(** * The run queue

    [src/runs/run-store.ts], [src/runs/memory-run-store.ts] and
    [src/runs/tool-ledger.ts]: turns are queued as runs, leased by workers,
    completed, failed with retries, and reaped when a lease lapses.

    The store's maps are [JMap]s.  Every method of the in-memory store runs
    without an [await] between its first read and its last write, so a method is
    one atomic transition.  [Date.now()] and [randomUUID()] are arguments.  The
    calls to the terminal listeners are recorded, in order, in [settled]. *)

From Stdlib Require Import ZArith Lia.
From S2P Require Import Prelude Collections Scopes.
Open Scope Z_scope.

(** ** Turn results ([src/types.ts]) *)
Module TurnStatus.
Inductive t := ok | refused | failed | pending_approval | queued | silent | react.
#[global] Instance eq_dec : EqDecision t.
Proof. solve_decision. Defined.
End TurnStatus.

Module BlobAttachment.
Record t := mk { name : string; mimetype : string; sizeBytes : Z; blobId : string }.
#[global] Instance eq_dec : EqDecision t.
Proof. solve_decision. Defined.
End BlobAttachment.

Module TurnResult.
Record t := mk {
  status : TurnStatus.t;
  sessionId : option string;
  reply : option string;
  reason : option string;
  security_quarantine : bool;  (** [refusalKind === "security_quarantine"] *)
  attachments : option (list BlobAttachment.t);
}.
End TurnResult.

(** ** Runs *)
Inductive RunStatus := pending | running | done_ | failed.
#[global] Instance RunStatus_eq_dec : EqDecision RunStatus.
Proof. solve_decision. Defined.

Definition isTerminal (s : RunStatus) : bool :=
  match s with done_ | failed => true | _ => false end.

Section runs.
(** The queued request ([OrchestratorInput]); the store never looks into it. *)
Context {Req : Type}.

Record Run := mkRun {
  id : string;
  sessionId : string;
  status : RunStatus;
  request : Req;
  result : option TurnResult.t;
  deliveryState : option (option string);  (** [RunDeliveryState]: an optional [editRef] *)
  dedupKey : option string;
  attempts : Z;
  errorAttempts : Z;
  maxAttempts : Z;
  leaseToken : option string;
  leaseExpiresAt : option Z;
  workerId : option string;
  createdAt : Z;
  startedAt : option Z;
  finishedAt : option Z;
}.

(** [errorParks(run, maxClaims)]: [None] is an undefined (unlimited) bound. *)
Definition overClaimed (maxClaims : option Z) (attempts : Z) : bool :=
  match maxClaims with Some m => m <=? attempts | None => false end.

Definition errorParks (run : Run) (maxClaims : option Z) : bool :=
  (maxAttempts run <=? errorAttempts run + 1) || overClaimed maxClaims (attempts run).

Definition leaseLapsed (run : Run) (asOf : Z) : bool :=
  (status run === running)
  && match leaseExpiresAt run with Some e => e <=? asOf | None => false end.

(** The mutable fields of a run object, assigned in place. *)
Definition assign (r : Run) (st : RunStatus) (res : option TurnResult.t) (att errAtt : Z)
    (token : option string) (expires : option Z) (worker : option string)
    (started finished : option Z) : Run :=
  mkRun (id r) (sessionId r) st (request r) res (deliveryState r) (dedupKey r) att errAtt
    (maxAttempts r) token expires worker (createdAt r) started finished.

Record Store := mkStore {
  runs : jmap string Run;
  byKey : jmap string string;
  settled : list Run;
}.

Definition empty : Store := mkStore [] [] [].

Definition write (s : Store) (r : Run) : Store :=
  mkStore (JMap.set (runs s) (id r) r) (byKey s) (settled s).

(** [maxClaims]: [None] is [Number.POSITIVE_INFINITY]. *)
Variable maxClaims : option Z.

Definition sessionHasRunning (s : Store) (sid : string) : bool :=
  existsb (fun r => (sessionId r === sid) && (status r === running)) (JMap.values (runs s)).

(** [settle]: the terminal listeners are called with the run. *)
Definition settle (s : Store) (r : Run) : Store :=
  if isTerminal (status r) then mkStore (runs s) (byKey s) (settled s ++ [r]) else s.

Record EnqueueInput := mkEnqueue {
  in_sessionId : string;
  in_request : Req;
  in_dedupKey : option string;
  in_maxAttempts : option Z;
}.

Definition truthyKey (k : option string) : option string :=
  match k with Some k => if Str.truthy k then Some k else None | None => None end.

Definition newRun (input : EnqueueInput) (uuid : string) (now : Z) : Run :=
  mkRun uuid (in_sessionId input) pending (in_request input) None None (in_dedupKey input)
    0 0 (default 3 (in_maxAttempts input)) None None None now None None.

Definition enqueue (input : EnqueueInput) (uuid : string) (now : Z) (s : Store)
    : Run * bool * Store :=
  let existing := k ← truthyKey (in_dedupKey input); existingId ← JMap.get (byKey s) k;
                  (* [if (existingId)] *)
                  existingId ← truthyKey (Some existingId); JMap.get (runs s) existingId in
  match existing with
  | Some run => (run, true, s)
  | None =>
      let run := newRun input uuid now in
      let runs' := JMap.set (runs s) (id run) run in
      let byKey' := match truthyKey (in_dedupKey input) with
                    | Some k => JMap.set (byKey s) k (id run)
                    | None => byKey s
                    end in
      (run, false, mkStore runs' byKey' (settled s))
  end.

Definition lease (run : Run) (worker : string) (ttlMs : Z) (token : string) (now : Z) : Run :=
  assign run running (result run) (attempts run + 1) (errorAttempts run) (Some token)
    (Some (now + ttlMs)) (Some worker)
    (Some (default now (startedAt run))) (finishedAt run).

Definition claimable (s : Store) (r : Run) : bool :=
  (status r === pending) && negb (sessionHasRunning s (sessionId r)).

Definition claim (worker : string) (ttlMs : Z) (token : string) (now : Z) (s : Store)
    : option Run * Store :=
  let queue := Arr.sort (Arr.by_key createdAt) (List.filter (claimable s) (JMap.values (runs s))) in
  match queue with
  | [] => (None, s)
  | run :: _ => let run' := lease run worker ttlMs token now in (Some run', write s run')
  end.

Definition claimById (runId worker : string) (ttlMs : Z) (token : string) (now : Z) (s : Store)
    : option Run * Store :=
  match JMap.get (runs s) runId with
  | None => (None, s)
  | Some run =>
      if (status run !== pending) || sessionHasRunning s (sessionId run) then (None, s) else
      let run' := lease run worker ttlMs token now in (Some run', write s run')
  end.

Definition heartbeat (runId token : string) (ttlMs now : Z) (s : Store) : bool * Store :=
  match JMap.get (runs s) runId with
  | None => (false, s)
  | Some run =>
      if (status run !== running) || (leaseToken run !== Some token) then (false, s) else
      (true, write s (assign run (status run) (result run) (attempts run) (errorAttempts run)
                        (leaseToken run) (Some (now + ttlMs)) (workerId run)
                        (startedAt run) (finishedAt run)))
  end.

Definition releaseLease (runId token : string) (s : Store) : bool * Store :=
  match JMap.get (runs s) runId with
  | None => (false, s)
  | Some run =>
      if (status run !== running) || (leaseToken run !== Some token) then (false, s) else
      (true, write s (assign run pending (result run) (attempts run) (errorAttempts run)
                        None None None (startedAt run) (finishedAt run)))
  end.

Definition complete (runId token : string) (res : TurnResult.t) (now : Z) (s : Store)
    : bool * Store :=
  match JMap.get (runs s) runId with
  | None => (false, s)
  | Some run =>
      if leaseToken run !== Some token then (false, s) else
      let run' := assign run done_ (Some res) (attempts run) (errorAttempts run) None None
                    (workerId run) (startedAt run) (Some now) in
      (true, settle (write s run') run')
  end.

Record RetireOpts := mkRetireOpts { ifExpiredAt : option Z; countsAsError : bool }.

Definition parkReason (n : Z) : string :=
  "run parked after " +:+ Str.showZ n +:+ " claims without completing (suspected crash loop)".

(** The answer is [(requeued, applied)]. *)
Definition retire (run : Run) (error : string) (retry : bool) (opts : RetireOpts) (now : Z)
    (s : Store) : bool * bool * Store :=
  if status run !== running then (false, false, s) else
  if match ifExpiredAt opts with
     | Some t => match leaseExpiresAt run with None => true | Some e => t <? e end
     | None => false
     end
  then (false, false, s) else
  let errs := if countsAsError opts then errorAttempts run + 1 else errorAttempts run in
  let over := overClaimed maxClaims (attempts run) in
  if retry && (errs <? maxAttempts run) && negb over then
    (true, true, write s (assign run pending (result run) (attempts run) errs None None None
                            (startedAt run) (finishedAt run)))
  else
    let reason := if negb (countsAsError opts) && over && retry && (errs <? maxAttempts run)
                  then parkReason (attempts run) else error in
    let res := TurnResult.mk TurnStatus.failed (Some (sessionId run)) None (Some reason) false None in
    let run' := assign run failed (Some res) (attempts run) errs None None None
                  (startedAt run) (Some now) in
    (false, true, settle (write s run') run').

Definition fail_ (runId token error : string) (retry : option bool) (now : Z) (s : Store)
    : bool * Store :=
  match JMap.get (runs s) runId with
  | None => (false, s)
  | Some run =>
      if leaseToken run !== Some token then (false, s) else
      let '(requeued, _, s') :=
        retire run error (retry !== Some false) (mkRetireOpts None true) now s in
      (requeued, s')
  end.

Definition setDeliveryState (runId : string) (token : option string) (st : option string)
    (s : Store) : bool * Store :=
  match JMap.get (runs s) runId with
  | None => (false, s)
  | Some run =>
      if (token !== None) && (leaseToken run !== token) then (false, s) else
      (true, write s (mkRun (id run) (sessionId run) (status run) (request run) (result run)
                        (Some st) (dedupKey run) (attempts run) (errorAttempts run)
                        (maxAttempts run) (leaseToken run) (leaseExpiresAt run) (workerId run)
                        (createdAt run) (startedAt run) (finishedAt run)))
  end.

Definition get (runId : string) (s : Store) : option Run := JMap.get (runs s) runId.

Definition activeForThread (sid : string) (s : Store) : option Run :=
  head (Arr.sort (Arr.by_key_desc createdAt)
    (List.filter (fun r => (sessionId r === sid) && negb (isTerminal (status r)))
       (JMap.values (runs s)))).

Definition activeSessionIds (s : Store) : list string :=
  Arr.dedup (map sessionId (List.filter (fun r => negb (isTerminal (status r))) (JMap.values (runs s)))).

Definition list_ (limit : option nat) (s : Store) : list Run :=
  take (default 200%nat limit) (Arr.sort (Arr.by_key_desc createdAt) (JMap.values (runs s))).

Record ReapEvent := mkReapEvent {
  ev_runId : string; ev_sessionId : string; ev_workerId : option string;
  ev_attempts : Z; ev_errorAttempts : Z; ev_requeued : bool;
}.

Record ReapState := mkReap {
  rp_store : Store; rp_requeued : Z; rp_parked : Z;
  rp_retired : list string; rp_events : list ReapEvent;
}.

(** One round of the loop of [reapExpired]; the run object is read from the
    store it lives in. *)
Definition reapOne (now : Z) (maxAgeMs : option Z) (acc : ReapState) (runId : string) : ReapState :=
  match JMap.get (runs (rp_store acc)) runId with
  | None => acc
  | Some run =>
      let tooOld := match maxAgeMs, startedAt run with
                    | Some m, Some t => m <? now - t
                    | _, _ => false
                    end in
      let reason := if tooOld then "run exceeded max age (reaped)" else "lease expired (reaped)" in
      let worker := workerId run in
      let '(requeued, applied, s') :=
        retire run reason (negb tooOld) (mkRetireOpts (Some now) false) now (rp_store acc) in
      if negb applied then acc else
      let run' := default run (JMap.get (runs s') runId) in
      mkReap s' (if requeued then rp_requeued acc + 1 else rp_requeued acc)
        (if requeued then rp_parked acc else rp_parked acc + 1)
        (rp_retired acc ++ [sessionId run'])
        (rp_events acc ++ [mkReapEvent (id run') (sessionId run') worker (attempts run')
                             (errorAttempts run') requeued])
  end.

(** [reapExpired]: the counters, the sessions passed to [onRetired] and the
    events passed to [onReap]. *)
Definition reapExpired (now : Z) (maxAgeMs : option Z) (s : Store) : ReapState :=
  let expired := List.filter (fun r => leaseLapsed r now) (JMap.values (runs s)) in
  foldl (reapOne now maxAgeMs) (mkReap s 0 0 [] []) (map id expired).

(** ** The store as a transition system *)

(** Each constructor is one call; an id or a token drawn by [randomUUID()] is
    not one in use. *)
Inductive step : Store -> Store -> Prop :=
| step_enqueue input uuid now s :
    JMap.get (runs s) uuid = None -> uuid <> "" ->
    step s (enqueue input uuid now s).2
| step_claim worker ttlMs token now s : step s (claim worker ttlMs token now s).2
| step_claimById runId worker ttlMs token now s :
    step s (claimById runId worker ttlMs token now s).2
| step_heartbeat runId token ttlMs now s : step s (heartbeat runId token ttlMs now s).2
| step_releaseLease runId token s : step s (releaseLease runId token s).2
| step_complete runId token res now s : step s (complete runId token res now s).2
| step_fail runId token error retry now s : step s (fail_ runId token error retry now s).2
| step_setDeliveryState runId token st s : step s (setDeliveryState runId token st s).2
| step_reap now maxAgeMs s : step s (rp_store (reapExpired now maxAgeMs s)).

Definition reachable (s : Store) : Prop := rtc step empty s.
End runs.

Arguments Run : clear implicits.
Arguments Store : clear implicits.
Arguments EnqueueInput : clear implicits.

(** ** The tool ledger: outputs of tool calls already made by an attempt *)
Module Ledger.
Definition key (runId : string) (attempt callIndex : Z) : string :=
  runId +:+ ":" +:+ Str.showZ attempt +:+ ":" +:+ Str.showZ callIndex.

Definition begin (runId : string) (attempt callIndex : Z) (l : jmap string string) : option string :=
  JMap.get l (key runId attempt callIndex).

Definition record (runId : string) (attempt callIndex : Z) (output : string)
    (l : jmap string string) : jmap string string :=
  JMap.set l (key runId attempt callIndex) output.
End Ledger.

(** ** The invariant of the store *)
Section invariant.
Context {Req : Type}.
Variable maxClaims : option Z.
Implicit Types (r : Run Req) (s : Store Req).

(** A run holds a lease exactly while it is running, has a result and a finish
    time exactly when it is terminal, and counts its errors within its claims. *)
Definition run_wf r : Prop :=
  match status r with
  | running => is_Some (leaseToken r) /\ is_Some (leaseExpiresAt r) /\ is_Some (workerId r)
               /\ is_Some (startedAt r) /\ errorAttempts r < attempts r
  | _ => leaseToken r = None /\ leaseExpiresAt r = None /\ errorAttempts r <= attempts r
  end
  /\ (if isTerminal (status r) then is_Some (result r) /\ is_Some (finishedAt r)
      else result r = None /\ finishedAt r = None)
  /\ 0 <= errorAttempts r.

Definition session_mutex s : Prop :=
  forall i j r1 r2, JMap.get (runs s) i = Some r1 -> JMap.get (runs s) j = Some r2 ->
    status r1 = running -> status r2 = running -> sessionId r1 = sessionId r2 -> i = j.

Definition keys_ok s : Prop :=
  forall k i, JMap.get (byKey s) k = Some i ->
    exists r, JMap.get (runs s) i = Some r /\ dedupKey r = Some k.

Definition settled_ok s : Prop :=
  NoDup (map id (settled s)) /\
  forall i, i ∈ map id (settled s) <->
    exists r, JMap.get (runs s) i = Some r /\ isTerminal (status r) = true.

Record inv s : Prop := mk_inv {
  inv_map : JMap.wf (runs s);
  inv_id : forall k r, JMap.get (runs s) k = Some r -> id r = k;
  inv_run : forall k r, JMap.get (runs s) k = Some r -> run_wf r;
  inv_mutex : session_mutex s;
  inv_keys : keys_ok s;
  inv_settled : settled_ok s;
}.

(** What an in-place assignment may change. *)
Record same_run r r' : Prop := mk_same {
  same_id : id r' = id r;
  same_session : sessionId r' = sessionId r;
  same_key : dedupKey r' = dedupKey r;
  same_request : request r' = request r;
}.

Lemma sessionHasRunning_iff s sid :
  JMap.wf (runs s) ->
  sessionHasRunning s sid = true <->
  exists k r, JMap.get (runs s) k = Some r /\ sessionId r = sid /\ status r = running.
Proof.
  intros Hw. unfold sessionHasRunning. rewrite Arr.existsb_elem.
  setoid_rewrite JMap.elem_of_values; [|done]. setoid_rewrite andb_true_iff.
  setoid_rewrite bool_decide_eq_true. naive_solver.
Qed.

Section write.
Variables (s : Store Req) (r r' : Run Req).
Hypothesis Hinv : inv s.
Hypothesis Hget : JMap.get (runs s) (id r) = Some r.
Hypothesis Hsame : same_run r r'.
Hypothesis Hwf : run_wf r'.
Hypothesis Hrun : status r' = running ->
  status r = running \/ sessionHasRunning s (sessionId r) = false.

Lemma write_get k :
  JMap.get (runs (write s r')) k = if decide (id r = k) then Some r' else JMap.get (runs s) k.
Proof. unfold write; cbn. rewrite (same_id _ _ Hsame). apply JMap.get_set. Qed.

Lemma write_mutex : session_mutex (write s r').
Proof.
  assert (forall k q, JMap.get (runs s) k = Some q -> k <> id r -> status q = running ->
            status r' = running -> sessionId q <> sessionId r) as Hother.
  { intros k q Hq Hne Hs Hs' Hsess. destruct (Hrun Hs') as [Hold|Hno].
    - apply Hne. by eapply (inv_mutex _ Hinv).
    - apply not_true_iff_false in Hno. apply Hno.
      apply sessionHasRunning_iff; [apply Hinv|]. eauto. }
  intros i j q1 q2. rewrite !write_get. intros H1 H2 S1 S2 Hsess.
  repeat case_decide; simplify_eq; try done.
  - exfalso. rewrite (same_session _ _ Hsame) in Hsess. eapply Hother; eauto.
  - exfalso. rewrite (same_session _ _ Hsame) in Hsess. eapply Hother; eauto.
  - by eapply (inv_mutex _ Hinv).
Qed.

Lemma write_keys : keys_ok (write s r').
Proof.
  intros k i Hk. destruct (inv_keys _ Hinv k i Hk) as (q & Hq & Hkey).
  rewrite write_get. case_decide; [|eauto]. subst i. exists r'. split; [done|].
  rewrite (same_key _ _ Hsame). congruence.
Qed.

Lemma write_inv_live :
  isTerminal (status r') = isTerminal (status r) -> inv (write s r').
Proof.
  intros Hterm. split.
  - apply JMap.wf_set, Hinv.
  - intros k q. rewrite write_get. case_decide; [|apply Hinv]. intros [= <-].
    rewrite (same_id _ _ Hsame). done.
  - intros k q. rewrite write_get. case_decide; [by intros [= <-]|apply Hinv].
  - apply write_mutex.
  - apply write_keys.
  - destruct (inv_settled _ Hinv) as [Hnd Hiff]. split; [done|]. intros i. cbn [settled write].
    rewrite Hiff. setoid_rewrite write_get. case_decide; [|done]. subst i.
    split; intros (q & Hq & Ht); simplify_eq; eexists; (split; [done|congruence]).
Qed.

Lemma write_inv_settle :
  isTerminal (status r) = false -> isTerminal (status r') = true ->
  inv (settle (write s r') r').
Proof.
  intros Ht Ht'. unfold settle. rewrite Ht'. split.
  - apply JMap.wf_set, Hinv.
  - intros k q. change (JMap.get (runs (write s r')) k = Some q -> id q = k).
    rewrite write_get. case_decide; [|apply Hinv]. intros [= <-]. by rewrite (same_id _ _ Hsame).
  - intros k q. change (JMap.get (runs (write s r')) k = Some q -> run_wf q).
    rewrite write_get. case_decide; [by intros [= <-]|apply Hinv].
  - apply write_mutex.
  - apply write_keys.
  - destruct (inv_settled _ Hinv) as [Hnd Hiff]. split; cbn [settled].
    + rewrite map_app. cbn. rewrite (same_id _ _ Hsame). apply NoDup_app.
      split; [done|]. split; [|apply NoDup_singleton].
      intros i Hi ->%list_elem_of_singleton. apply Hiff in Hi as (q & Hq & Hq'). congruence.
    + intros i. pose proof (write_get i) as Hw. rewrite map_app, elem_of_app, Hiff.
      cbn [runs write map] in Hw |- *. rewrite Hw, list_elem_of_singleton, (same_id _ _ Hsame).
      case_decide as Hi; [subst i; split; [eauto|by right]|].
      split; [intros [?|?]; [done|congruence]|by left].
Qed.
End write.
End invariant.

(** ** Every operation keeps the invariant *)
Section preservation.
Context {Req : Type}.
Variable maxClaims : option Z.
Implicit Types (r : Run Req) (s : Store Req).

Lemma inv_empty : inv (@empty Req).
Proof.
  split; try (by intros ? ? ?); try (by intros ? ? ? ? ?).
  - constructor.
  - split; [constructor|]. intros i. cbn. split; [set_solver|]. intros (q & [=] & _).
Qed.

Lemma get_self s k r : inv s -> JMap.get (runs s) k = Some r -> JMap.get (runs s) (id r) = Some r.
Proof. intros Hi Hk. by rewrite (inv_id _ Hi _ _ Hk). Qed.

Lemma inv_enqueue input uuid now s :
  inv s -> JMap.get (runs s) uuid = None -> inv (enqueue input uuid now s).2.
Proof.
  intros Hi Hfresh. unfold enqueue. destruct (_ ≫= _) as [run|]; cbn; [done|].
  split; cbn.
  - apply JMap.wf_set, Hi.
  - intros k r. rewrite JMap.get_set. case_decide; [intros [= <-]; by subst|apply Hi].
  - intros k r. rewrite JMap.get_set. case_decide; [intros [= <-]|apply Hi].
    repeat split; cbn; lia.
  - intros i j r1 r2. cbn. rewrite !JMap.get_set.
    repeat case_decide; intros ? ? ? ?; simplify_eq; try done. by apply (inv_mutex _ Hi).
  - intros k i. cbn.
    assert (forall q j, JMap.get (byKey s) q = Some j ->
      exists r, JMap.get (JMap.set (runs s) uuid (newRun input uuid now)) j = Some r
                /\ dedupKey r = Some q) as Hold.
    { intros q j Hq. destruct (inv_keys _ Hi q j Hq) as (r & Hr & Hd). exists r.
      rewrite JMap.get_set_ne; [done|]. congruence. }
    destruct (truthyKey (in_dedupKey input)) as [q|] eqn:Eq; [|apply Hold].
    rewrite JMap.get_set. case_decide; [|apply Hold]. intros [= <-]. subst q.
    eexists. split; [apply JMap.get_set_eq|]. cbn. revert Eq. unfold truthyKey.
    destruct (in_dedupKey input) as [d|]; [|done]. destruct (Str.truthy d); congruence.
  - destruct (inv_settled _ Hi) as [Hnd Hiff]. split; [done|]. intros i. cbn. rewrite Hiff.
    setoid_rewrite JMap.get_set. case_decide; [|done]. subst i.
    split; intros (q & Hq & Hq'); simplify_eq.
Qed.

Lemma lease_inv s r worker ttlMs token now :
  inv s -> JMap.get (runs s) (id r) = Some r -> claimable s r = true ->
  inv (write s (lease r worker ttlMs token now)).
Proof.
  intros Hi Hr Hc. unfold claimable in Hc. js_bool.
  pose proof (inv_run _ Hi _ _ Hr) as (Hl & Ht & Hz).
  match goal with E : status r = pending |- _ => rename E into Es end. rewrite Es in Hl, Ht. cbn in Hl, Ht.
  apply (write_inv_live s r); try done.
  - repeat split; cbn; eauto; try lia; tauto.
  - intros _. by right.
  - by rewrite Es.
Qed.

Lemma claim_spec worker ttlMs token now s :
  inv s ->
  match claim worker ttlMs token now s with
  | (None, s') => s' = s /\ forall k r, JMap.get (runs s) k = Some r -> claimable s r = false
  | (Some r', s') => exists r, JMap.get (runs s) (id r) = Some r /\ claimable s r = true
      /\ r' = lease r worker ttlMs token now /\ s' = write s r'
      /\ forall k q, JMap.get (runs s) k = Some q -> claimable s q = true -> createdAt r <= createdAt q
  end.
Proof.
  intros Hi. unfold claim.
  destruct (Arr.sort _ _) as [|r l] eqn:E.
  - split; [done|]. intros k r Hr. apply not_true_iff_false. intros Hc.
    assert (r ∈ Arr.sort (Arr.by_key createdAt)
              (List.filter (claimable s) (JMap.values (runs s)))) as Hin.
    { apply Arr.elem_of_sort, JMap.filter_values_subset; [apply Hi|eauto]. }
    rewrite E in Hin. by apply elem_of_nil in Hin.
  - assert (r ∈ Arr.sort (Arr.by_key createdAt)
              (List.filter (claimable s) (JMap.values (runs s)))) as Hin by (rewrite E; by left).
    apply Arr.elem_of_sort, JMap.filter_values_subset in Hin as (Hc & k & Hk); [|apply Hi].
    exists r. do 4 (split; [by eauto using get_self|]). intros j q Hq Hqc.
    assert (q = r \/ Arr.by_key createdAt r q = true) as [->|Hle].
    { eapply Arr.sort_head_least;
        [apply Arr.by_key_total|apply Arr.by_key_trans|exact E|].
      apply JMap.filter_values_subset; [apply Hi|eauto]. }
    + lia.
    + by apply Z.leb_le.
Qed.

Lemma inv_claim worker ttlMs token now s : inv s -> inv (claim worker ttlMs token now s).2.
Proof.
  intros Hi. pose proof (claim_spec worker ttlMs token now s Hi) as Hs.
  destruct (claim worker ttlMs token now s) as [[r'|] s']; cbn.
  - destruct Hs as (r & Hr & Hc & -> & -> & _). by apply lease_inv.
  - by destruct Hs as [-> _].
Qed.

Lemma inv_claimById runId worker ttlMs token now s :
  inv s -> inv (claimById runId worker ttlMs token now s).2.
Proof.
  intros Hi. unfold claimById. destruct (JMap.get (runs s) runId) as [r|] eqn:Hr; [|done].
  destruct (_ || _) eqn:E; cbn; [done|]. apply orb_false_iff in E as [E1 E2].
  apply negb_false_iff in E1. apply lease_inv; eauto using get_self.
  unfold claimable. by rewrite E1, E2.
Qed.

Lemma inv_heartbeat runId token ttlMs now s :
  inv s -> inv (heartbeat runId token ttlMs now s).2.
Proof.
  intros Hi. unfold heartbeat. destruct (JMap.get (runs s) runId) as [r|] eqn:Hr; [|done].
  destruct (_ || _) eqn:E; cbn; [done|]. js_bool.
  pose proof (inv_run _ Hi _ _ Hr) as (Hl & Ht & Hz).
  match goal with E : status r = running |- _ => rename E into Es end.
  apply (write_inv_live s r); eauto using get_self; try done.
  unfold run_wf; cbn. rewrite Es in *. cbn in *. naive_solver.
Qed.

Lemma inv_releaseLease runId token s : inv s -> inv (releaseLease runId token s).2.
Proof.
  intros Hi. unfold releaseLease. destruct (JMap.get (runs s) runId) as [r|] eqn:Hr; [|done].
  destruct (_ || _) eqn:E; cbn; [done|]. js_bool.
  pose proof (inv_run _ Hi _ _ Hr) as (Hl & Ht & Hz).
  match goal with E : status r = running |- _ => rename E into Es end.
  rewrite Es in *. cbn in *.
  apply (write_inv_live s r); eauto using get_self; try done.
  - repeat split; cbn; try lia; naive_solver.
  - by rewrite Es.
Qed.

(** Only the holder of the current lease has a token to show. *)
Lemma token_running s k r token :
  inv s -> JMap.get (runs s) k = Some r -> leaseToken r = Some token -> status r = running.
Proof.
  intros Hi Hr Ht. destruct (inv_run _ Hi _ _ Hr) as (Hl & _).
  destruct (status r); try done; destruct Hl; congruence.
Qed.

Lemma inv_complete runId token res now s : inv s -> inv (complete runId token res now s).2.
Proof.
  intros Hi. unfold complete. destruct (JMap.get (runs s) runId) as [r|] eqn:Hr; [|done].
  destruct (_ !== _) eqn:E; cbn [snd]; [done|]. js_bool.
  pose proof (inv_run _ Hi _ _ Hr) as (Hl & _ & Hz).
  pose proof (token_running _ _ _ _ Hi Hr E) as Es.
  rewrite Es in Hl. cbn in Hl.
  apply (write_inv_settle s r); eauto using get_self; try done.
  - repeat split; cbn; eauto; lia.
  - by rewrite Es.
Qed.

(** What [retire] does, by cases. *)
Lemma retire_spec r error retry opts now s :
  match retire maxClaims r error retry opts now s with
  | (requeued, applied, s') =>
    let errs := if countsAsError opts then errorAttempts r + 1 else errorAttempts r in
    applied = (status r === running)
              && match ifExpiredAt opts with
                 | Some t => match leaseExpiresAt r with Some e => e <=? t | None => false end
                 | None => true
                 end
    /\ requeued = applied && retry && (errs <? maxAttempts r)
                  && negb (overClaimed maxClaims (attempts r))
    /\ (applied = false -> s' = s)
    /\ (requeued = true ->
        s' = write s (assign r pending (result r) (attempts r) errs None None None
                        (startedAt r) (finishedAt r)))
    /\ (applied = true -> requeued = false -> exists reason,
        let r' := assign r failed
          (Some (TurnResult.mk TurnStatus.failed (Some (sessionId r)) None (Some reason) false None))
          (attempts r) errs None None None (startedAt r) (Some now) in
        s' = settle (write s r') r')
  end.
Proof.
  unfold retire.
  destruct (status r === running) eqn:Es; cbn [negb]; [|naive_solver].
  destruct (ifExpiredAt opts) as [t|]; [destruct (leaseExpiresAt r) as [e|]|].
  1: rewrite Z.ltb_antisym; destruct (e <=? t); cbn [negb andb]; [|naive_solver].
  2: naive_solver.
  all: destruct (retry && _ && _) eqn:Er; cbn [andb];
    (split; [done|]); (split; [by rewrite <- Er|]); (split; [done|]);
    (split; [done|]); try done; intros _ _; eexists; reflexivity.
Qed.

Lemma retire_inv r error retry opts now s :
  inv s -> JMap.get (runs s) (id r) = Some r ->
  inv (retire maxClaims r error retry opts now s).2.
Proof.
  intros Hi Hr. pose proof (retire_spec r error retry opts now s) as Hs.
  destruct (retire maxClaims r error retry opts now s) as [[requeued applied] s'].
  destruct Hs as (Ha & Hq & Hno & Hre & Hpark). cbn [snd].
  destruct applied; [|by rewrite Hno].
  symmetry in Ha. apply andb_true_iff in Ha as [Es%bool_decide_eq_true _].
  pose proof (inv_run _ Hi _ _ Hr) as (Hl & Ht & Hz). rewrite Es in Hl, Ht. cbn in Hl, Ht.
  destruct requeued.
  - rewrite Hre by done. apply (write_inv_live s r); try done.
    + repeat split; cbn; try tauto; destruct (countsAsError opts); lia.
    + by rewrite Es.
  - destruct (Hpark eq_refl eq_refl) as (reason & ->).
    apply (write_inv_settle s r); try done.
    + repeat split; cbn; eauto; destruct (countsAsError opts); lia.
    + by rewrite Es.
Qed.

Lemma inv_fail runId token error retry now s :
  inv s -> inv (fail_ maxClaims runId token error retry now s).2.
Proof.
  intros Hi. unfold fail_. destruct (JMap.get (runs s) runId) as [r|] eqn:Hr; [|done].
  destruct (_ !== _); [done|].
  pose proof (retire_inv r error (retry !== Some false) (mkRetireOpts None true) now s Hi) as Hinv.
  destruct (retire _ _ _ _ _ _ _) as [[? ?] ?]. cbn in *. eauto using get_self.
Qed.

Lemma inv_setDeliveryState runId token st s :
  inv s -> inv (setDeliveryState runId token st s).2.
Proof.
  intros Hi. unfold setDeliveryState. destruct (JMap.get (runs s) runId) as [r|] eqn:Hr; [|done].
  destruct (_ && _); cbn; [done|].
  apply (write_inv_live s r); eauto using get_self; try done.
  exact (inv_run _ Hi _ _ Hr).
Qed.

Lemma reapOne_inv now maxAgeMs (acc : @ReapState Req) runId :
  inv (rp_store acc) -> inv (rp_store (reapOne maxClaims now maxAgeMs acc runId)).
Proof.
  intros Hi. unfold reapOne. destruct (JMap.get _ runId) as [r|] eqn:Hr; [|done].
  match goal with |- context [retire maxClaims r ?e ?b ?o now _] =>
    pose proof (retire_inv r e b o now (rp_store acc) Hi (get_self _ _ _ Hi Hr)) as Hinv;
    destruct (retire maxClaims r e b o now (rp_store acc)) as [[requeued applied] s'] end.
  by destruct applied.
Qed.

Lemma inv_reap now maxAgeMs s : inv s -> inv (rp_store (reapExpired maxClaims now maxAgeMs s)).
Proof.
  intros Hi. unfold reapExpired.
  assert (forall l (acc : @ReapState Req), inv (rp_store acc) ->
    inv (rp_store (foldl (reapOne maxClaims now maxAgeMs) acc l))) as Hgen.
  { induction l as [|i l IH]; intros acc Hacc; cbn; [done|]. by apply IH, reapOne_inv. }
  by apply Hgen.
Qed.

Lemma step_inv s s' : step maxClaims s s' -> inv s -> inv s'.
Proof.
  destruct 1; intros Hi; auto using inv_enqueue, inv_claim, inv_claimById, inv_heartbeat,
    inv_releaseLease, inv_complete, inv_fail, inv_setDeliveryState, inv_reap.
Qed.

Lemma reachable_inv s : reachable maxClaims s -> inv s.
Proof.
  unfold reachable. intros Hr. refine (rtc_ind_r (fun s => inv s) empty _ _ s Hr).
  - apply inv_empty.
  - intros y z _ Hstep. by apply step_inv.
Qed.
End preservation.

(** ** Properties *)
Section properties.
Context {Req : Type}.
Variable maxClaims : option Z.
Implicit Types (r : Run Req) (s : Store Req).

(** C2: in every reachable store a session has at most one running run, and a
    run holds a lease token exactly while it is running: two workers never hold
    the same conversation. *)
Theorem runs_session_exclusive s :
  reachable maxClaims s ->
  (forall i j r1 r2, get i s = Some r1 -> get j s = Some r2 ->
     status r1 = running -> status r2 = running -> sessionId r1 = sessionId r2 -> i = j)
  /\ (forall i r, get i s = Some r -> is_Some (leaseToken r) <-> status r = running).
Proof.
  intros Hi%reachable_inv. split; [apply (inv_mutex _ Hi)|].
  intros i r Hr. destruct (inv_run _ Hi _ _ Hr) as (Hl & _).
  destruct (status r); split; try done; try tauto; destruct Hl as [-> _]; by intros [? [=]].
Qed.

(** In every reachable store the terminal listeners have been called exactly
    once for each run that is done or failed and never for another, such a run
    has its result and finish time, and no run that can still execute has a
    result. *)
Theorem runs_settle_once s :
  reachable maxClaims s ->
  NoDup (map id (settled s))
  /\ forall i, (i ∈ map id (settled s) <-> exists r, get i s = Some r /\ isTerminal (status r) = true)
     /\ forall r, get i s = Some r ->
          (isTerminal (status r) = true -> is_Some (result r) /\ is_Some (finishedAt r))
          /\ (isTerminal (status r) = false -> result r = None /\ finishedAt r = None).
Proof.
  intros Hi%reachable_inv. destruct (inv_settled _ Hi) as [Hnd Hiff]. split; [done|].
  intros i. split; [apply Hiff|]. intros r Hr. destruct (inv_run _ Hi _ _ Hr) as (_ & Ht & _).
  destruct (isTerminal (status r)); naive_solver.
Qed.

(** A terminal run keeps every field but the delivery state in one step. *)
Definition same_outcome r r' : Prop :=
  status r' = status r /\ result r' = result r /\ attempts r' = attempts r
  /\ errorAttempts r' = errorAttempts r /\ finishedAt r' = finishedAt r.

Lemma retire_get r0 error retry opts now s i r :
  get i s = Some r -> isTerminal (status r) = true -> get (id r0) s = Some r0 ->
  get i (retire maxClaims r0 error retry opts now s).2 = Some r.
Proof.
  intros Hr Ht H0. pose proof (retire_spec maxClaims r0 error retry opts now s) as Hs.
  destruct (retire maxClaims r0 error retry opts now s) as [[requeued applied] s'].
  destruct Hs as (Ha & _ & Hno & Hre & Hpark). cbn [snd].
  destruct applied; [|by rewrite Hno].
  symmetry in Ha. apply andb_true_iff in Ha as [Es%bool_decide_eq_true _].
  assert (i <> id r0) as Hne by (intros ->; unfold get in *; simplify_eq; by rewrite Es in Ht).
  destruct requeued.
  - rewrite Hre by done. unfold get, write; cbn. by rewrite JMap.get_set_ne.
  - destruct (Hpark eq_refl eq_refl) as (reason & ->).
    unfold get, settle, write; cbn. by rewrite JMap.get_set_ne.
Qed.

Lemma same_outcome_refl r : same_outcome r r.
Proof. done. Qed.

Lemma reapOne_get now maxAgeMs (acc : @ReapState Req) runId i r :
  inv (rp_store acc) -> get i (rp_store acc) = Some r -> isTerminal (status r) = true ->
  get i (rp_store (reapOne maxClaims now maxAgeMs acc runId)) = Some r.
Proof.
  intros Hi Hr Ht. unfold reapOne. destruct (JMap.get _ runId) as [r0|] eqn:H0; [|done].
  match goal with |- context [retire maxClaims r0 ?e ?b ?o now _] =>
    pose proof (retire_get r0 e b o now (rp_store acc) i r Hr Ht (get_self _ _ _ Hi H0)) as Hg;
    destruct (retire maxClaims r0 e b o now (rp_store acc)) as [[requeued applied] s'] end.
  by destruct applied.
Qed.

Lemma reap_get now maxAgeMs l (acc : @ReapState Req) i r :
  inv (rp_store acc) -> get i (rp_store acc) = Some r -> isTerminal (status r) = true ->
  get i (rp_store (foldl (reapOne maxClaims now maxAgeMs) acc l)) = Some r.
Proof.
  revert acc. induction l as [|k l IH]; intros acc Hi Hr Ht; cbn; [done|].
  apply IH; [by apply reapOne_inv|by apply reapOne_get|done].
Qed.

Lemma get_write_ne s r0 i : i <> id r0 -> get i (write s r0) = get i s.
Proof. intros Hne. unfold get, write; cbn. by rewrite JMap.get_set_ne. Qed.

Lemma get_settle s r0 i : get i (settle s r0) = get i s.
Proof. unfold settle, get. by destruct (isTerminal _). Qed.

Lemma step_terminal s s' i r :
  inv s -> step maxClaims s s' -> get i s = Some r -> isTerminal (status r) = true ->
  exists r', get i s' = Some r' /\ same_outcome r r'.
Proof.
  intros Hi Hstep Hr Ht.
  assert (forall k r0, get k s = Some r0 -> isTerminal (status r0) = false -> i <> id r0) as Hne.
  { intros k r0 H0 Hn ->. rewrite (inv_id _ Hi _ _ H0) in Hr. congruence. }
  enough (get i s' = Some r \/ exists r', get i s' = Some r' /\ same_outcome r r') as
    [?|?]; [by exists r|done|].
  destruct Hstep as [input uuid now s Hf _|worker ttl token now s|k worker ttl token now s
    |k token ttl now s|k token s|k token res now s|k token error retry now s|k token st s|now age s].
  - left. unfold enqueue. destruct (_ ≫= _); [done|]. unfold get in *; cbn.
    rewrite JMap.get_set_ne; [done|congruence].
  - left. pose proof (claim_spec worker ttl token now s Hi) as Hs.
    destruct (claim worker ttl token now s) as [[r'|] s']; cbn; [|by destruct Hs as [-> _]].
    destruct Hs as (r0 & H0 & Hc & -> & -> & _). rewrite get_write_ne; [done|].
    apply (Hne _ _ H0). unfold claimable in Hc. js_bool. by rewrite H.
  - left. unfold claimById. destruct (JMap.get (runs s) k) as [r0|] eqn:H0; [|done].
    destruct (_ || _) eqn:E; [done|]. js_bool. cbn [snd]. rewrite get_write_ne; [done|].
    apply (Hne _ _ H0). by rewrite H.
  - left. unfold heartbeat. destruct (JMap.get (runs s) k) as [r0|] eqn:H0; [|done].
    destruct (_ || _) eqn:E; [done|]. js_bool. cbn [snd]. rewrite get_write_ne; [done|].
    apply (Hne _ _ H0). by rewrite H.
  - left. unfold releaseLease. destruct (JMap.get (runs s) k) as [r0|] eqn:H0; [|done].
    destruct (_ || _) eqn:E; [done|]. js_bool. cbn [snd]. rewrite get_write_ne; [done|].
    apply (Hne _ _ H0). by rewrite H.
  - left. unfold complete. destruct (JMap.get (runs s) k) as [r0|] eqn:H0; [|done].
    destruct (_ !== _) eqn:E; [done|]. js_bool. cbn [snd]. rewrite get_settle, get_write_ne; [done|].
    apply (Hne _ _ H0). by rewrite (token_running _ _ _ _ Hi H0 E).
  - left. unfold fail_. destruct (JMap.get (runs s) k) as [r0|] eqn:H0; [|done].
    destruct (_ !== _); [done|].
    pose proof (retire_get r0 error (retry !== Some false) (mkRetireOpts None true) now s i r Hr Ht
      (get_self _ _ _ Hi H0)) as Hg.
    by destruct (retire _ _ _ _ _ _ _) as [[? ?] ?].
  - unfold setDeliveryState. destruct (JMap.get (runs s) k) as [r0|] eqn:H0; [|by left].
    destruct (_ && _); [by left|]. cbn [snd]. right.
    destruct (decide (i = id r0)) as [->|Hi0].
    + rewrite (inv_id _ Hi _ _ H0) in Hr. unfold get in Hr. simplify_eq.
      eexists. unfold get, write; cbn. by rewrite JMap.get_set_eq.
    + exists r. rewrite get_write_ne by done. done.
  - left. unfold reapExpired. by apply reap_get.
Qed.

(** C9: a finished run is final: from any reachable store, along any sequence of
    calls, a done or failed run keeps its status, result, counters and finish
    time. *)
Theorem runs_terminal_final s s' i r :
  reachable maxClaims s -> rtc (step maxClaims) s s' ->
  get i s = Some r -> isTerminal (status r) = true ->
  exists r', get i s' = Some r' /\ same_outcome r r'.
Proof.
  intros Hi%reachable_inv Hs. revert r. induction Hs as [s|s s1 s2 Hstep _ IH]; intros r Hr Ht.
  - by exists r.
  - destruct (step_terminal _ _ _ _ Hi Hstep Hr Ht) as (r1 & Hr1 & Ho).
    destruct (IH (step_inv _ _ _ Hstep Hi) r1 Hr1) as (r2 & Hr2 & Ho2).
    + by rewrite (proj1 Ho).
    + exists r2. split; [done|]. unfold same_outcome in *. intuition congruence.
Qed.

(** [claim] is first in, first out: it leases the oldest pending run whose
    session has nothing running, with a fresh lease until [now + ttlMs] and one
    more attempt counted, and answers null only when no run is claimable. *)
Theorem claim_oldest worker ttlMs token now s :
  reachable maxClaims s ->
  match claim worker ttlMs token now s with
  | (None, s') => s' = s /\ forall i r, get i s = Some r -> claimable s r = false
  | (Some r', s') => exists r,
      get (id r) s = Some r /\ claimable s r = true
      /\ (forall i q, get i s = Some q -> claimable s q = true -> createdAt r <= createdAt q)
      /\ get (id r) s' = Some r' /\ (forall i, i <> id r -> get i s' = get i s)
      /\ status r' = running /\ leaseToken r' = Some token
      /\ leaseExpiresAt r' = Some (now + ttlMs) /\ attempts r' = attempts r + 1
  end.
Proof.
  intros Hi%reachable_inv. pose proof (claim_spec worker ttlMs token now s Hi) as Hs.
  destruct (claim worker ttlMs token now s) as [[r'|] s']; [|done].
  destruct Hs as (r & Hr & Hc & -> & -> & Hmin). exists r. repeat split; try done.
  - unfold get, write; cbn. by rewrite JMap.get_set_eq.
  - intros i Hne. by apply get_write_ne.
Qed.

(** The worker's final-attempt prediction is exact: when the holder of a
    lease reports a retryable failure, the run is put back in the queue exactly
    when [errorParks] says it would not be parked. *)
Theorem final_attempt_prediction runId token error now s r :
  reachable maxClaims s -> get runId s = Some r -> leaseToken r = Some token ->
  let '(requeued, s') := fail_ maxClaims runId token error None now s in
  requeued = negb (errorParks r maxClaims)
  /\ exists r', get runId s' = Some r' /\ errorAttempts r' = errorAttempts r + 1
       /\ status r' = (if errorParks r maxClaims then failed else pending).
Proof.
  intros Hi%reachable_inv Hr Ht. unfold fail_. unfold get in Hr. rewrite Hr.
  rewrite Ht, (bool_decide_eq_true_2 _ eq_refl). cbn [negb].
  pose proof (retire_spec maxClaims r error (None !== Some false) (mkRetireOpts None true) now s) as Hs.
  destruct (retire _ _ _ _ _ _ _) as [[requeued applied] s'].
  rewrite (token_running _ _ _ _ Hi Hr Ht), (bool_decide_eq_true_2 _ eq_refl) in Hs.
  destruct Hs as (Ha & Hq & _ & Hre & Hpark). cbn in Ha, Hq. subst applied.
  assert (requeued = negb (errorParks r maxClaims)) as Hparks.
  { rewrite Hq. unfold errorParks. rewrite negb_orb, Z.leb_antisym, negb_involutive. done. }
  split; [done|]. rewrite Hparks in Hre, Hpark. pose proof (inv_id _ Hi _ _ Hr) as Hid.
  destruct (errorParks r maxClaims); cbn [negb] in Hre, Hpark.
  - destruct (Hpark eq_refl eq_refl) as (reason & ->). cbv zeta. setoid_rewrite get_settle. eexists.
    unfold get, write; cbn. rewrite <- Hid, JMap.get_set_eq. done.
  - rewrite Hre by done. eexists. unfold get, write; cbn. rewrite <- Hid, JMap.get_set_eq. done.
Qed.

(** A repeated enqueue with the same deduplication key returns the first run
    and changes nothing, so a retried request never queues a second run. *)
Theorem enqueue_dedups input input' uuid uuid' now now' s k :
  reachable maxClaims s -> get uuid s = None -> uuid <> "" ->
  in_dedupKey input = Some k -> in_dedupKey input' = Some k -> k <> "" ->
  let '(r1, _, s1) := enqueue input uuid now s in
  exists r2, enqueue input' uuid' now' s1 = (r2, true, s1) /\ id r2 = id r1.
Proof.
  intros Hi%reachable_inv Hfresh Hu Hk Hk' Hne.
  assert (truthyKey (Some k) = Some k) as Htk.
  { cbn. unfold Str.truthy. by rewrite bool_decide_eq_false_2. }
  assert (forall m st r1, id r1 = uuid -> let s1 := mkStore (JMap.set (runs s) uuid r1) (JMap.set m k uuid) st in
    exists r2, enqueue input' uuid' now' s1 = (r2, true, s1) /\ id r2 = id r1) as Hnew.
  { intros m st r1 Hid s1. exists r1. split; [|done]. unfold enqueue. rewrite Hk', Htk.
    cbn [mbind option_bind byKey runs s1]. rewrite JMap.get_set_eq. cbn [mbind option_bind truthyKey].
    unfold Str.truthy at 1. rewrite bool_decide_eq_false_2 by done. cbn [negb mbind option_bind].
    by rewrite JMap.get_set_eq. }
  destruct (enqueue input uuid now s) as [[r1 d] s1] eqn:E. unfold enqueue in E.
  rewrite Hk, Htk in E. cbn [mbind option_bind] in E.
  destruct (JMap.get (byKey s) k) as [i|] eqn:Ei; cbn [mbind option_bind] in E.
  - destruct (inv_keys _ Hi _ _ Ei) as (r & Hr & _).
    destruct (truthyKey (Some i)) as [i'|] eqn:Et; cbn [mbind option_bind] in E.
    + assert (i' = i) as -> by (revert Et; cbn; destruct (Str.truthy i); congruence).
      rewrite Hr in E. simplify_eq. exists r1. unfold enqueue. rewrite Hk', Htk.
      cbn [mbind option_bind]. rewrite Ei. cbn [mbind option_bind]. rewrite Et. cbn [mbind option_bind]. by rewrite Hr.
    + simplify_eq. by apply Hnew.
  - simplify_eq. by apply Hnew.
Qed.

(** One round of the reaper on a lapsed run retires it and nothing else. *)
Lemma reapOne_spec now maxAgeMs (acc : @ReapState Req) runId r :
  inv (rp_store acc) -> get runId (rp_store acc) = Some r -> leaseLapsed r now = true ->
  let acc' := reapOne maxClaims now maxAgeMs acc runId in
  (exists r', get runId (rp_store acc') = Some r' /\ status r' <> running /\ leaseToken r' = None
              /\ attempts r' = attempts r /\ errorAttempts r' = errorAttempts r)
  /\ (forall i, i <> runId -> get i (rp_store acc') = get i (rp_store acc))
  /\ rp_requeued acc' + rp_parked acc' = rp_requeued acc + rp_parked acc + 1.
Proof.
  intros Hi Hr Hl. unfold reapOne, get in *. rewrite Hr.
  unfold leaseLapsed in Hl. apply andb_true_iff in Hl as [Es He].
  pose proof (inv_id _ Hi _ _ Hr) as Hid.
  match goal with |- context [retire maxClaims r ?e ?b ?o now ?s0] =>
    pose proof (retire_spec maxClaims r e b o now s0) as Hs;
    destruct (retire maxClaims r e b o now s0) as [[requeued applied] s'] end.
  destruct Hs as (Ha & _ & _ & Hre & Hpark). cbn [ifExpiredAt countsAsError] in Ha, Hre, Hpark.
  rewrite Es in Ha. destruct (leaseExpiresAt r) as [e|]; [|done]. rewrite He in Ha. cbn in Ha. subst applied.
  cbn zeta. cbn [negb rp_store rp_requeued rp_parked].
  assert (forall q, id q = runId -> status q <> running -> leaseToken q = None ->
    attempts q = attempts r -> errorAttempts q = errorAttempts r ->
    s' = write (rp_store acc) q \/ s' = settle (write (rp_store acc) q) q ->
    (exists r', JMap.get (runs s') runId = Some r' /\ status r' <> running /\ leaseToken r' = None
              /\ attempts r' = attempts r /\ errorAttempts r' = errorAttempts r)
    /\ (forall i, i <> runId -> JMap.get (runs s') i = JMap.get (runs (rp_store acc)) i)) as Hput.
  { intros q Hq Hst Htok Hat Her Hs'. 
    assert (forall i, get i s' = get i (write (rp_store acc) q)) as Hg
      by (intros i; destruct Hs' as [-> | ->]; [done|apply get_settle]).
    unfold get in Hg. split.
    - exists q. rewrite Hg. unfold write; cbn. by rewrite Hq, JMap.get_set_eq.
    - intros i Hne. rewrite Hg. apply get_write_ne. congruence. }
  destruct requeued.
  - edestruct Hput as [H1 H2]; [..|left; exact (Hre eq_refl)|split; [done|split; [done|lia]]]; done.
  - destruct (Hpark eq_refl eq_refl) as (reason & Hs').
    edestruct Hput as [H1 H2]; [..|right; exact Hs'|split; [done|split; [done|lia]]]; done.
Qed.

Lemma reap_fold_spec now maxAgeMs l (acc : @ReapState Req) :
  inv (rp_store acc) -> NoDup l ->
  (forall i, i ∈ l -> exists r, get i (rp_store acc) = Some r /\ leaseLapsed r now = true) ->
  let acc' := foldl (reapOne maxClaims now maxAgeMs) acc l in
  (forall i r, get i (rp_store acc) = Some r -> i ∈ l ->
     exists r', get i (rp_store acc') = Some r' /\ status r' <> running /\ leaseToken r' = None
                /\ attempts r' = attempts r /\ errorAttempts r' = errorAttempts r)
  /\ (forall i, i ∉ l -> get i (rp_store acc') = get i (rp_store acc))
  /\ rp_requeued acc' + rp_parked acc' = rp_requeued acc + rp_parked acc + Z.of_nat (length l).
Proof.
  revert acc. induction l as [|k l IH]; intros acc Hi Hnd Hl; cbn.
  { split; [set_solver|]. split; [done|lia]. }
  apply NoDup_cons in Hnd as [Hk Hnd]. destruct (Hl k) as (rk & Hrk & Hlk); [by left|].
  destruct (reapOne_spec now maxAgeMs acc k rk Hi Hrk Hlk) as (Hone & Hrest & Hsum).
  set (acc1 := reapOne maxClaims now maxAgeMs acc k) in *.
  destruct (IH acc1) as (H1 & H2 & H3); [by apply reapOne_inv|done| |].
  { intros i Hil. destruct (Hl i) as (r & Hr & Hlr); [by right|]. exists r.
    rewrite Hrest; [done|]. intros ->. done. }
  split; [|split; [|lia]].
  - intros i r Hr [->|Hil]%elem_of_cons.
    + rewrite H2 by done. destruct Hone as (r' & ? & ?). exists r'. unfold get in *. simplify_eq. done.
    + apply H1; [|done]. rewrite Hrest; [done|]. intros ->. done.
  - intros i Hil. rewrite H2 by set_solver. apply Hrest. set_solver.
Qed.

(** A sweep of the reaper at time [now] retires every run whose lease has
    lapsed, once each (the two counters add up to their number), leaves every
    other run alone, and charges no error to the retired ones; afterwards no run
    has a lapsed lease. *)
Theorem reap_clears_lapsed now maxAgeMs s :
  reachable maxClaims s ->
  let a := reapExpired maxClaims now maxAgeMs s in
  (forall i r, get i s = Some r ->
     (leaseLapsed r now = false -> get i (rp_store a) = Some r)
     /\ (leaseLapsed r now = true ->
         exists r', get i (rp_store a) = Some r' /\ status r' <> running /\ leaseToken r' = None
                    /\ attempts r' = attempts r /\ errorAttempts r' = errorAttempts r))
  /\ (forall i r, get i (rp_store a) = Some r -> leaseLapsed r now = false)
  /\ rp_requeued a + rp_parked a
     = Z.of_nat (length (List.filter (fun r => leaseLapsed r now) (JMap.values (runs s)))).
Proof.
  intros Hi%reachable_inv. unfold reapExpired.
  set (expired := List.filter _ _).
  assert (forall i, i ∈ map id expired <-> exists r, get i s = Some r /\ leaseLapsed r now = true) as Hel.
  { intros i. rewrite list_elem_of_fmap. unfold expired. setoid_rewrite JMap.filter_values_subset; [|apply Hi].
    split.
    - intros (r & -> & Hl & k & Hk). exists r. split; [by eapply get_self|done].
    - intros (r & Hr & Hl). exists r. split; [symmetry; by eapply (inv_id _ Hi)|eauto]. }
  assert (map id (JMap.values (runs s)) = JMap.keys (runs s)) as Hkeys.
  { unfold JMap.values, JMap.keys. rewrite map_map. apply map_ext_in. intros [k r] Hin. cbn.
    apply (inv_id _ Hi). apply JMap.elem_get; [apply Hi|]. by apply list_elem_of_In. }
  assert (NoDup (map id expired)) as Hnd.
  { unfold expired. pose proof (inv_map _ Hi) as Hw. unfold JMap.wf in Hw. rewrite <- Hkeys in Hw.
    revert Hw. generalize (JMap.values (runs s)). intros l.
    induction l as [|r l IH]; cbn; [done|]. intros [Hr Hl]%NoDup_cons. destruct (leaseLapsed r now); [|auto].
    cbn. constructor; [|auto]. intros (q & Eq & Hq)%list_elem_of_fmap. apply Hr.
    apply Arr.elem_of_filter in Hq as [_ Hq]. rewrite Eq. by apply list_elem_of_fmap_2. }
  destruct (reap_fold_spec now maxAgeMs (map id expired) (mkReap s 0 0 [] []) Hi Hnd)
    as (H1 & H2 & H3); [intros i; cbn; by rewrite Hel|]. cbn [rp_store rp_requeued rp_parked] in *.
  split; [|split].
  - intros i r Hr. split; intros Hl.
    + rewrite H2; [done|]. rewrite Hel. intros (q & Hq & Hlq). unfold get in *. congruence.
    + apply H1; [done|]. apply Hel. eauto.
  - intros i r Hr. destruct (decide (i ∈ map id expired)) as [Hin|Hin].
    + pose proof Hin as Hin'. apply Hel in Hin' as (q & Hq & _).
      destruct (H1 i q Hq Hin) as (q' & Hq' & Hst & _). unfold get in *. simplify_eq.
      unfold leaseLapsed. by rewrite bool_decide_eq_false_2.
    + rewrite H2 in Hr by done. apply not_true_iff_false. intros Hl. apply Hin, Hel. eauto.
  - rewrite H3. rewrite length_map. lia.
Qed.
End properties.

(** *** Witnesses: one run enqueued, claimed, and completed or reaped *)
Section witnesses.
Let input := mkEnqueue "thread-1" tt (Some "k1") None.
Let s1 : Store unit := (enqueue input "r1" 10 empty).2.
Let s2 : Store unit := (claim "w1" 1000 "tok" 20 s1).2.
Let okResult := TurnResult.mk TurnStatus.ok None (Some "hi") None false None.
Let s3 : Store unit := (complete "r1" "tok" okResult 30 s2).2.
Let leased := lease (newRun input "r1" 10) "w1" 1000 "tok" 20.

Let s1_reachable : reachable None s1.
Proof. apply rtc_once, (step_enqueue None input "r1" 10 empty); [reflexivity|discriminate]. Defined.
Let s2_reachable : reachable None s2.
Proof. exact (rtc_r _ _ _ s1_reachable (step_claim None "w1" 1000 "tok" 20 s1)). Defined.
Let s3_reachable : reachable None s3.
Proof. exact (rtc_r _ _ _ s2_reachable (step_complete None "r1" "tok" okResult 30 s2)). Defined.

Lemma runs_session_exclusive_witness : is_Some (leaseToken leased) <-> status leased = running.
Proof. exact (proj2 (runs_session_exclusive None s2 s2_reachable) "r1" leased eq_refl). Defined.

Lemma runs_settle_once_witness : NoDup (map id (settled s3)) /\ map id (settled s3) = ["r1"].
Proof. split; [exact (proj1 (runs_settle_once None s3 s3_reachable))|reflexivity]. Defined.

Lemma runs_terminal_final_witness :
  exists r', get "r1" (rp_store (reapExpired None 5000 None s3)) = Some r'
             /\ result r' = Some okResult.
Proof.
  destruct (runs_terminal_final None s3 (rp_store (reapExpired None 5000 None s3)) "r1"
    (default leased (get "r1" s3)) s3_reachable) as (r' & Hr & _ & Hres & _).
  - apply rtc_once. exact (step_reap None 5000 None s3).
  - reflexivity.
  - reflexivity.
  - exists r'. exact (conj Hr Hres).
Defined.

Lemma claim_oldest_witness : exists r, get (id r) s1 = Some r /\ claimable s1 r = true.
Proof.
  destruct (claim_oldest None "w1" 1000 "tok" 20 s1 s1_reachable) as (r & Hr & Hc & _).
  exists r. exact (conj Hr Hc).
Defined.

Lemma final_attempt_prediction_witness :
  (fail_ None "r1" "tok" "boom" None 40 s2).1 = negb (errorParks leased None).
Proof.
  exact (proj1 (final_attempt_prediction None "r1" "tok" "boom" 40 s2 leased s2_reachable
                  eq_refl eq_refl)).
Defined.

Lemma enqueue_dedups_witness :
  exists r2, enqueue input "r9" 99 s1 = (r2, true, s1) /\ id r2 = "r1".
Proof.
  exact (enqueue_dedups None input input "r1" "r9" 10 99 empty "k1" (rtc_refl _ _)
           eq_refl ltac:(discriminate) eq_refl eq_refl ltac:(discriminate)).
Defined.

Lemma reap_clears_lapsed_witness :
  rp_requeued (reapExpired None 5000 None s2) + rp_parked (reapExpired None 5000 None s2) = 1.
Proof. exact (proj2 (proj2 (reap_clears_lapsed None 5000 None s2 s2_reachable))). Defined.
End witnesses.
