(* ===== verification/Sessions.v ===== *)
(** * Sessions: leases, the append-only log, and who may see which part of it

    [src/sessions/session-store.ts] and [src/sessions/memory-session-store.ts].
    A method of the in-memory store is one atomic transition; a method that
    throws returns the store it leaves behind.  [now()] and [randomUUID()] are
    arguments. *)

From Stdlib Require Import ZArith Lia Ascii.
From S2P Require Import Prelude Collections Scopes.
Open Scope Z_scope.

(** ** Thread references: where a session comes from *)
Inductive SessionOrigin := conversation | cron_origin | webhook_origin | monitor_origin.
#[global] Instance SessionOrigin_eq_dec : EqDecision SessionOrigin.
Proof. solve_decision. Defined.

Inductive SessionCategory := cat_conversation | cat_background.
#[global] Instance SessionCategory_eq_dec : EqDecision SessionCategory.
Proof. solve_decision. Defined.

Definition background_origins : list (string * SessionOrigin) :=
  [("cron", cron_origin); ("webhook", webhook_origin); ("monitor", monitor_origin)].

(** No line terminator: what [.] of a regular expression matches. *)
Fixpoint noNewline (s : string) : bool :=
  match s with
  | EmptyString => true
  | String c s' => negb ((c === "010"%char) || (c === "013"%char)) && noNewline s'
  end.

(** [^agent:main:<origin>:([^:]+)$] *)
Definition matchStable (origin s : string) : option string :=
  let p := "agent:main:" +:+ origin +:+ ":" in
  if Str.startsWith s p then
    let rest := Str.drop (String.length p) s in
    if Str.truthy rest && negb (Str.includesChar ":" rest) then Some rest else None
  else None.

(** [^<origin>:([^:]+)(:.+)?$] *)
Definition matchLegacy (origin s : string) : option string :=
  let p := origin +:+ ":" in
  if Str.startsWith s p then
    let rest := Str.drop (String.length p) s in
    match Str.indexOf ":" rest with
    | None => if Str.truthy rest then Some rest else None
    | Some n =>
        let id := Str.take n rest in
        let tail := Str.drop (S n) rest in
        if Str.truthy id && Str.truthy tail && noNewline tail then Some id else None
    end
  else None.

Definition sessionOrigin (threadRef : option string) : SessionOrigin :=
  let s := default "" threadRef in
  match List.find (fun p => bool_decide (is_Some (matchStable p.1 s))) background_origins with
  | Some p => p.2
  | None =>
      match List.find (fun p => bool_decide (is_Some (matchLegacy p.1 s))) background_origins with
      | Some p => p.2
      | None => conversation
      end
  end.

Definition sessionCategory (origin : SessionOrigin) : SessionCategory :=
  if origin === conversation then cat_conversation else cat_background.

Definition cronIdOf (threadRef : option string) : option string :=
  let s := default "" threadRef in
  match matchStable "cron" s with Some id => Some id | None => matchLegacy "cron" s end.

(** ** Transcripts *)
Definition transcriptEntries (entries : list SessionEntry.t) : list SessionEntry.t :=
  List.filter (fun e => SessionEntry.type e !== "soul") entries.

Definition isOverheardEntry (e : SessionEntry.t) : bool :=
  (SessionEntry.type e === "user")
  && json_is_true (json_field "overheard" (SessionEntry.payload e)).

(** [entries.findIndex(p)], the length for -1. *)
Fixpoint findIndexOrLength {A : Type} (p : A -> bool) (l : list A) : nat :=
  match l with
  | [] => O
  | x :: l' => if p x then O else S (findIndexOrLength p l')
  end.

(** The loop of [windowedTranscript] from the last entry down: the index of the
    [n]-th user entry from the end, 0 when there are fewer. *)
Fixpoint tailCut (rev_entries : list SessionEntry.t) (i : nat) (n : nat) : nat :=
  match rev_entries, i with
  | e :: rest, S i' =>
      if SessionEntry.type e === "user" then
        match n with
        | S (S n') => tailCut rest i' (S n')
        | _ => i'
        end
      else tailCut rest i' n
  | _, _ => O
  end.

Record Window := mkWindowOpts {
  tailTurns : option nat; sinceSeq : option Z; beforeSeq : option Z
}.

Definition windowedTranscript (entries : list SessionEntry.t) (window : Window)
    : list SessionEntry.t * nat :=
  let entries := match beforeSeq window with
                 | Some b => take (findIndexOrLength (fun e => b <=? SessionEntry.seq e) entries) entries
                 | None => entries
                 end in
  let cut := match sinceSeq window with
             | Some q => findIndexOrLength (fun e => q <=? SessionEntry.seq e) entries
             | None => match tailTurns window with
                       | Some (S n) => tailCut (reverse entries) (length entries) (S n)
                       | _ => O
                       end
             end in
  (drop cut entries, cut).

(** ** The store *)
Inductive LeaseHolder := h_turn | h_compaction | h_fork | h_backfill.
#[global] Instance LeaseHolder_eq_dec : EqDecision LeaseHolder.
Proof. solve_decision. Defined.

Module Session.
Record t := mk {
  id : string; type : ConversationKind; scope : ScopeId; threadRef : string;
  surface : option string; createdAt : Z; channelName : option string; title : option string;
}.
End Session.

(** One person's view of a session: the part of the log it covers, by sequence
    number, and its decoration. *)
Module View.
Record t := mk {
  validFrom : Z; validTo : option Z; validFromSeq : Z; validToSeq : option Z;
  title : option string; archived : bool; pinned : bool; color : option string;
}.
End View.

Module Held.
Record t := mk { token : string; expiresAt : Z; acquiredAt : Z; holder : option LeaseHolder }.
End Held.

Record Lease := mkLease { l_session : string; l_token : string }.

Record LeaseAttempt := mkAttempt {
  a_lease : option Lease; heldBy : option LeaseHolder; heldSince : option Z; heldUntil : option Z
}.

Record NewEntry := mkNewEntry { n_type : string; n_payload : json; n_scopeLabel : ScopeId }.

Inductive TapeKind := t_message | t_context_event | t_annotation.
#[global] Instance TapeKind_eq_dec : EqDecision TapeKind.
Proof. solve_decision. Defined.

Module Tape.
Record new := mkNew {
  kind : TapeKind; payload : json; scopeLabel : ScopeId; harness : option string;
  meta : json; entrySeq : option Z; coversEntrySeq : option Z;
}.
Record t := mk { rec : new; sessionId : string; seq : Z; createdAt : Z }.
End Tape.

Record Store := mkStore {
  sessions : jmap string Session.t;
  entries : jmap string (list SessionEntry.t);
  tape : jmap string (list Tape.t);
  byThread : jmap string string;
  participants : jmap string (list string);
  windows : jmap string (jmap string View.t);
  leases : jmap string Held.t;
}.

Definition empty : Store := mkStore [] [] [] [] [] [] [].

Definition truthyOpt (o : option string) : option string :=
  match o with Some s => if Str.truthy s then Some s else None | None => None end.

Section store.
Variable leaseTtlMs : Z.

Definition getOrCreateByThread (threadRef : string) (type : ConversationKind) (scope : ScopeId)
    (channelName surface : option string) (uuid : string) (now : Z) (st : Store)
    : Session.t * Store :=
  let existing := i ← JMap.get (byThread st) threadRef; i ← truthyOpt (Some i);
                  s ← JMap.get (sessions st) i; Some (i, s) in
  match existing with
  | Some (i, s) =>
      let name := match truthyOpt channelName with Some c => Some c | None => Session.channelName s end in
      let surf := match truthyOpt surface, truthyOpt (Session.surface s) with
                  | Some x, None => Some x
                  | _, _ => Session.surface s
                  end in
      let s' := Session.mk (Session.id s) (Session.type s) (Session.scope s) (Session.threadRef s)
                  surf (Session.createdAt s) name (Session.title s) in
      (s', mkStore (JMap.set (sessions st) i s') (entries st) (tape st) (byThread st)
             (participants st) (windows st) (leases st))
  | None =>
      let s := Session.mk uuid type scope threadRef (truthyOpt surface) now (truthyOpt channelName) None in
      (s, mkStore (JMap.set (sessions st) uuid s) (JMap.set (entries st) uuid []) (tape st)
            (JMap.set (byThread st) threadRef uuid) (participants st) (windows st) (leases st))
  end.

Definition getByThread (threadRef : string) (st : Store) : option Session.t :=
  i ← JMap.get (byThread st) threadRef; i ← truthyOpt (Some i); JMap.get (sessions st) i.

Definition get (sessionId : string) (st : Store) : option Session.t := JMap.get (sessions st) sessionId.

Definition updateTitle (sessionId title : string) (st : Store) : Store :=
  match JMap.get (sessions st) sessionId with
  | Some s =>
      let s' := Session.mk (Session.id s) (Session.type s) (Session.scope s) (Session.threadRef s)
                  (Session.surface s) (Session.createdAt s) (Session.channelName s) (Some title) in
      mkStore (JMap.set (sessions st) sessionId s') (entries st) (tape st) (byThread st)
        (participants st) (windows st) (leases st)
  | None => st
  end.

Definition withLeases (st : Store) (l : jmap string Held.t) : Store :=
  mkStore (sessions st) (entries st) (tape st) (byThread st) (participants st) (windows st) l.

Definition acquireLease (sessionId : string) (holder : option LeaseHolder) (uuid : string) (now : Z)
    (st : Store) : LeaseAttempt * Store :=
  match JMap.get (leases st) sessionId with
  | Some held =>
      if now <? Held.expiresAt held then
        (mkAttempt None (Held.holder held) (Some (Held.acquiredAt held)) (Some (Held.expiresAt held)), st)
      else
        (mkAttempt (Some (mkLease sessionId uuid)) None None None,
         withLeases st (JMap.set (leases st) sessionId (Held.mk uuid (now + leaseTtlMs) now holder)))
  | None =>
      (mkAttempt (Some (mkLease sessionId uuid)) None None None,
       withLeases st (JMap.set (leases st) sessionId (Held.mk uuid (now + leaseTtlMs) now holder)))
  end.

Definition releaseLease (l : Lease) (st : Store) : Store :=
  match JMap.get (leases st) (l_session l) with
  | Some held => if Held.token held === l_token l
                 then withLeases st (JMap.delete (leases st) (l_session l)) else st
  | None => st
  end.

Definition forceReleaseLease (sessionId : string) (st : Store) : Store :=
  withLeases st (JMap.delete (leases st) sessionId).

Definition deleteSession (sessionId : string) (st : Store) : Store :=
  let byThread' := match JMap.get (sessions st) sessionId with
                   | Some s => JMap.delete (byThread st) (Session.threadRef s)
                   | None => byThread st
                   end in
  let drop_from ps principalId :=
    match JMap.get ps principalId with
    | Some set => JMap.set ps principalId (List.filter (fun i => i !== sessionId) set)
    | None => ps
    end in
  let participants' :=
    foldl drop_from (participants st) (JMap.keys (default [] (JMap.get (windows st) sessionId))) in
  mkStore (JMap.delete (sessions st) sessionId) (JMap.delete (entries st) sessionId)
    (JMap.delete (tape st) sessionId) byThread' participants'
    (JMap.delete (windows st) sessionId) (JMap.delete (leases st) sessionId).

(** Renewing the lease of a session. *)
Definition renew (st : Store) (sessionId : string) (held : Held.t) (now : Z) : Store :=
  withLeases st (JMap.set (leases st) sessionId
    (Held.mk (Held.token held) (now + leaseTtlMs) (Held.acquiredAt held) (Held.holder held))).

Definition append (l : Lease) (entry : NewEntry) (now : Z) (st : Store)
    : outcome SessionEntry.t * Store :=
  match JMap.get (leases st) (l_session l) with
  | None => (Throw "append without a valid session lease", st)
  | Some held =>
      if Held.token held !== l_token l then (Throw "append without a valid session lease", st) else
      let st := renew st (l_session l) held now in
      match JMap.get (entries st) (l_session l) with
      | None => (Throw ("unknown session: " +:+ l_session l), st)
      | Some log =>
          let seq := Z.of_nat (length log) in
          let full := SessionEntry.mk (l_session l) seq (if seq === 0 then None else Some (seq - 1))
                        (n_type entry) (n_payload entry) (n_scopeLabel entry) now in
          (Ok full, mkStore (sessions st) (JMap.set (entries st) (l_session l) (log ++ [full]))
                      (tape st) (byThread st) (participants st) (windows st) (leases st))
      end
  end.

Definition getEntries (sessionId : string) (since : option Z) (limit : option nat) (st : Store)
    : list SessionEntry.t :=
  let log := default [] (JMap.get (entries st) sessionId) in
  let filtered := List.filter (fun e => default 0 since <=? SessionEntry.seq e) log in
  match limit with
  | Some n => match n with O => filtered | _ => Arr.slice_last n filtered end
  | None => filtered
  end.

Definition appendTape (l : Lease) (rec : Tape.new) (now : Z) (st : Store) : outcome Tape.t * Store :=
  match JMap.get (leases st) (l_session l) with
  | None => (Throw "tape append without a valid session lease", st)
  | Some held =>
      if Held.token held !== l_token l then (Throw "tape append without a valid session lease", st) else
      let st := renew st (l_session l) held now in
      let log := default [] (JMap.get (tape st) (l_session l)) in
      let full := Tape.mk rec (l_session l) (Z.of_nat (length log)) now in
      (Ok full, mkStore (sessions st) (entries st) (JMap.set (tape st) (l_session l) (log ++ [full]))
                  (byThread st) (participants st) (windows st) (leases st))
  end.

Definition getTape (sessionId : string) (since : option Z) (limit : option nat) (st : Store)
    : list Tape.t :=
  let log := default [] (JMap.get (tape st) sessionId) in
  let filtered := match since with
                  | Some q => List.filter (fun r => q <? Tape.seq r) log
                  | None => log
                  end in
  match limit with
  | Some n => match n with O => filtered | _ => Arr.slice_last n filtered end
  | None => filtered
  end.

(** The entry up to which the tape covers the log. *)
Definition tapeCovers (r : Tape.t) : Z :=
  let n := Tape.rec r in
  Z.max
    (if (Tape.kind n === t_annotation) && json_is_true (json_field "turnEnd" (Tape.payload n))
     then default (-1) (Tape.entrySeq n) else -1)
    (if (Tape.kind n === t_context_event) && json_is_str "legacy_import" (json_field "event" (Tape.payload n))
     then default (-1) (Tape.coversEntrySeq n) else -1).

Definition tapeCoverage (sessionId : string) (st : Store) : Z :=
  foldl (fun m r => Z.max m (tapeCovers r)) (-1) (default [] (JMap.get (tape st) sessionId)).

Definition withView (st : Store) (sessionId principalId : string) (v : View.t) : Store :=
  let w := default [] (JMap.get (windows st) sessionId) in
  mkStore (sessions st) (entries st) (tape st) (byThread st) (participants st)
    (JMap.set (windows st) sessionId (JMap.set w principalId v)) (leases st).

Definition addParticipant (sessionId principalId : string) (title : option string)
    (includeHistory : bool) (now : Z) (st : Store) : Store :=
  let set := default [] (JMap.get (participants st) principalId) in
  let st := mkStore (sessions st) (entries st) (tape st) (byThread st)
              (JMap.set (participants st) principalId (Arr.add set sessionId)) (windows st) (leases st) in
  let w := default [] (JMap.get (windows st) sessionId) in
  let existing := JMap.get w principalId in
  let logLength := Z.of_nat (length (default [] (JMap.get (entries st) sessionId))) in
  let fresh :=
    View.mk (if includeHistory then 0 else now) None (if includeHistory then 0 else logLength) None
      (match title with Some t => Some t | None => existing ≫= View.title end)
      (match existing with Some v => View.archived v | None => false end)
      (match existing with Some v => View.pinned v | None => false end)
      (existing ≫= View.color) in
  match existing with
  | Some v =>
      match View.validTo v with
      | Some _ => withView st sessionId principalId fresh
      | None => withView st sessionId principalId
                  (View.mk (if includeHistory then 0 else View.validFrom v) None
                     (if includeHistory then 0 else View.validFromSeq v) (View.validToSeq v)
                     (match title with Some t => Some t | None => View.title v end)
                     (View.archived v) (View.pinned v) (View.color v))
      end
  | None => withView st sessionId principalId fresh
  end.

Definition removeParticipant (sessionId principalId : string) (now : Z) (st : Store) : Store :=
  match JMap.get (windows st) sessionId ≫= fun w => JMap.get w principalId with
  | Some v =>
      match View.validTo v with
      | None => withView st sessionId principalId
                  (View.mk (View.validFrom v) (Some now) (View.validFromSeq v)
                     (Some (Z.of_nat (length (default [] (JMap.get (entries st) sessionId)))))
                     (View.title v) (View.archived v) (View.pinned v) (View.color v))
      | Some _ => st
      end
  | None => st
  end.

(** The entries within a view. *)
Definition inView (v : View.t) (e : SessionEntry.t) : bool :=
  (View.validFromSeq v <=? SessionEntry.seq e)
  && match View.validToSeq v with Some q => SessionEntry.seq e <? q | None => true end.

Definition visibleEntries (sessionId principalId : string) (st : Store) : list SessionEntry.t :=
  match JMap.get (windows st) sessionId ≫= fun w => JMap.get w principalId with
  | None => []
  | Some v => List.filter (inView v) (default [] (JMap.get (entries st) sessionId))
  end.

(** [ParticipantViewPatch]: an outer [None] is an absent field, an inner one null. *)
Record ViewPatch := mkPatch {
  p_title : option (option string); p_archived : option bool;
  p_pinned : option bool; p_color : option (option string);
}.

Definition updateParticipantView (sessionId principalId : string) (p : ViewPatch) (st : Store) : Store :=
  match JMap.get (windows st) sessionId ≫= fun w => JMap.get w principalId with
  | None => st
  | Some v => withView st sessionId principalId
                (View.mk (View.validFrom v) (View.validTo v) (View.validFromSeq v) (View.validToSeq v)
                   (default (View.title v) (p_title p)) (default (View.archived v) (p_archived p))
                   (default (View.pinned v) (p_pinned p)) (default (View.color v) (p_color p)))
  end.

(** [listByParticipant]: the session, its decoration, the time of its last user
    entry and whether the person sees any entry. *)
Record ListedSession := mkListed {
  ls_session : Session.t; ls_archived : bool; ls_pinned : bool; ls_color : option string;
  lastActivityAt : Z; hasEntries : bool;
}.

Definition listByParticipant (principalId : string) (st : Store) : list ListedSession :=
  omap (fun i =>
    s ← JMap.get (sessions st) i;
    let view := JMap.get (windows st) i ≫= fun w => JMap.get w principalId in
    let all := default [] (JMap.get (entries st) i) in
    let log := List.filter (fun e => SessionEntry.type e === "user") all in
    let last := foldl Z.max (Session.createdAt s) (map SessionEntry.createdAt log) in
    let title := match view ≫= View.title with Some t => Some t | None => Session.title s end in
    Some (mkListed
      (Session.mk (Session.id s) (Session.type s) (Session.scope s) (Session.threadRef s)
         (Session.surface s) (Session.createdAt s) (Session.channelName s) title)
      (match view with Some v => View.archived v | None => false end)
      (match view with Some v => View.pinned v | None => false end)
      (view ≫= View.color) last
      (match view with Some v => existsb (inView v) all | None => false end)))
  (default [] (JMap.get (participants st) principalId)).

Definition listAll (st : Store) : list Session.t := JMap.values (sessions st).

Definition sessionsByThreadRefs (threadRefs : list string) (st : Store) : list Session.t :=
  List.filter (fun s => bool_decide (Session.threadRef s ∈ threadRefs)) (JMap.values (sessions st)).

Definition distinctScopes (st : Store) : list (ScopeId * option string) :=
  let byScope := foldl (fun m s =>
    let prev := JMap.get m (Session.scope s) in
    if negb (JMap.has m (Session.scope s))
       || (bool_decide (is_Some (truthyOpt (Session.channelName s)))
           && bool_decide (truthyOpt (prev ≫= fun x => x) = None))
    then JMap.set m (Session.scope s) (Session.channelName s) else m) [] (JMap.values (sessions st)) in
  map (fun p => (p.1, truthyOpt p.2)) byScope.

Definition participantsOf (sessionId : string) (st : Store) : list string :=
  JMap.keys (default [] (JMap.get (windows st) sessionId)).

Definition listParticipants (st : Store) : list (string * string * Z * option Z) :=
  concat (map (fun p => map (fun q => (p.1, q.1, View.validFrom q.2, View.validTo q.2)) p.2) (windows st)).

(** ** The store as a transition system *)
Inductive op :=
| OpCreate (threadRef : string) (type : ConversationKind) (scope : ScopeId)
    (channelName surface : option string) (uuid : string) (now : Z)
| OpTitle (sessionId title : string)
| OpAcquire (sessionId : string) (holder : option LeaseHolder) (uuid : string) (now : Z)
| OpRelease (l : Lease)
| OpForceRelease (sessionId : string)
| OpDelete (sessionId : string)
| OpAppend (l : Lease) (entry : NewEntry) (now : Z)
| OpAppendTape (l : Lease) (rec : Tape.new) (now : Z)
| OpAddParticipant (sessionId principalId : string) (title : option string) (history : bool) (now : Z)
| OpRemoveParticipant (sessionId principalId : string) (now : Z)
| OpView (sessionId principalId : string) (p : ViewPatch).

Definition exec (o : op) (st : Store) : Store :=
  match o with
  | OpCreate t ty sc c su u n => (getOrCreateByThread t ty sc c su u n st).2
  | OpTitle s t => updateTitle s t st
  | OpAcquire s h u n => (acquireLease s h u n st).2
  | OpRelease l => releaseLease l st
  | OpForceRelease s => forceReleaseLease s st
  | OpDelete s => deleteSession s st
  | OpAppend l e n => (append l e n st).2
  | OpAppendTape l r n => (appendTape l r n st).2
  | OpAddParticipant s p t h n => addParticipant s p t h n st
  | OpRemoveParticipant s p n => removeParticipant s p n st
  | OpView s p v => updateParticipantView s p v st
  end.

(** [randomUUID()] never repeats the id of a session the store knows. *)
Definition op_fresh (o : op) (st : Store) : Prop :=
  match o with
  | OpCreate _ _ _ _ _ uuid _ => JMap.get (entries st) uuid = None /\ uuid <> ""
  | _ => True
  end.

Inductive step : Store -> Store -> Prop :=
| step_op o st : op_fresh o st -> step st (exec o st).

Definition reachable (st : Store) : Prop := rtc step empty st.
End store.

(** ** The invariant *)
Section invariant.
Variable ttl : Z.

(** The log of a session: gapless sequence numbers from 0, each entry the child
    of the one before. *)
Definition log_ok (sid : string) (log : list SessionEntry.t) : Prop :=
  forall n e, log !! n = Some e ->
    SessionEntry.seq e = Z.of_nat n /\ SessionEntry.sessionId e = sid
    /\ SessionEntry.parentSeq e = if decide (n = O) then None else Some (Z.of_nat n - 1).

Definition logOf (sid : string) (st : Store) : list SessionEntry.t :=
  default [] (JMap.get (entries st) sid).

Definition viewOf (sid p : string) (st : Store) : option View.t :=
  JMap.get (windows st) sid ≫= fun w => JMap.get w p.

(** A view starts within the log; it is closed exactly when it has an end, which
    is within the log too. *)
Definition view_ok (n : nat) (v : View.t) : Prop :=
  0 <= View.validFromSeq v <= Z.of_nat n
  /\ match View.validTo v, View.validToSeq v with
     | None, None => True
     | Some _, Some q => View.validFromSeq v <= q <= Z.of_nat n
     | _, _ => False
     end.

Record inv (st : Store) : Prop := mk_inv {
  inv_log : forall sid, log_ok sid (logOf sid st);
  inv_view : forall sid p v, viewOf sid p st = Some v -> view_ok (length (logOf sid st)) v;
}.

Lemma log_ok_snoc sid log ty pl sc now :
  log_ok sid log ->
  log_ok sid (log ++ [SessionEntry.mk sid (Z.of_nat (length log))
     (if Z.of_nat (length log) === 0 then None else Some (Z.of_nat (length log) - 1)) ty pl sc now]).
Proof.
  intros Hl n e He. apply lookup_app_Some in He as [He|[Hn He]]; [by apply Hl|].
  apply list_lookup_singleton_Some in He as [Hn0 <-]. cbn.
  assert (n = length log) as -> by lia. repeat split.
  repeat (case_bool_decide || case_decide); try done; lia.
Qed.

Lemma log_ok_seq sid log e : log_ok sid log -> e ∈ log -> 0 <= SessionEntry.seq e < Z.of_nat (length log).
Proof.
  intros Hl (n & Hn)%list_elem_of_lookup. destruct (Hl n e Hn) as [-> _].
  apply lookup_lt_Some in Hn. lia.
Qed.

(** *** What each operation does to the logs and the views *)
Lemma logOf_set st sid sid' log ss tp bt ps ws ls :
  logOf sid' (mkStore ss (JMap.set (entries st) sid log) tp bt ps ws ls)
  = if decide (sid = sid') then log else logOf sid' st.
Proof. unfold logOf; cbn. rewrite JMap.get_set. by case_decide. Qed.

Lemma viewOf_withView st sid p sid' p' v :
  viewOf sid' p' (withView st sid p v)
  = if decide (sid = sid' /\ p = p') then Some v else viewOf sid' p' st.
Proof.
  unfold viewOf, withView; cbn. rewrite JMap.get_set.
  destruct (decide (sid = sid')) as [<-|Hs]; [|by rewrite decide_False by tauto].
  cbn. rewrite JMap.get_set. destruct (decide (p = p')) as [<-|Hp].
  - by rewrite decide_True.
  - rewrite decide_False by tauto. by destruct (JMap.get (windows st) sid).
Qed.

(** The log of a session after an operation: extended by one entry, emptied by a
    deletion, or the same. *)
Lemma exec_log o st sid :
  op_fresh o st -> 
  match o with
  | OpAppend l e now =>
      logOf sid (exec ttl o st) = logOf sid st
      \/ l_session l = sid /\ exists full, append ttl l e now st = (Ok full, exec ttl o st)
           /\ full = SessionEntry.mk sid (Z.of_nat (length (logOf sid st)))
                (if Z.of_nat (length (logOf sid st)) === 0 then None
                 else Some (Z.of_nat (length (logOf sid st)) - 1)) (n_type e) (n_payload e) (n_scopeLabel e) now
           /\ logOf sid (exec ttl o st) = logOf sid st ++ [full]
  | OpDelete s => logOf sid (exec ttl o st) = if decide (s = sid) then [] else logOf sid st
  | _ => logOf sid (exec ttl o st) = logOf sid st
  end.
Proof.
  intros Hf. destruct o as [thr ty sc c su u now|s t|s h u now|l|s|s|l e now|l rec now|s p t h now|s p now|s p v]; cbn [exec].
  - unfold getOrCreateByThread. destruct (_ ≫= _) as [[i s]|]; [done|]. cbn [snd].
    rewrite logOf_set. case_decide; [|done]. subst u. unfold logOf. destruct Hf as [-> _]. done.
  - unfold updateTitle. by destruct (JMap.get _ _).
  - unfold acquireLease. destruct (JMap.get _ _); [|done]. by destruct (_ <? _).
  - unfold releaseLease. destruct (JMap.get _ _); [|done]. by destruct (_ === _).
  - done.
  - unfold logOf, deleteSession; cbn. rewrite JMap.get_delete. by case_decide.
  - unfold append. destruct (JMap.get (leases st) _) as [held|]; [|by left].
    destruct (_ !== _); [by left|]. cbn zeta. cbn [entries renew withLeases].
    destruct (JMap.get (entries st) (l_session l)) as [log|] eqn:E; [|by left].
    destruct (decide (l_session l = sid)) as [<-|Hne].
    + assert (logOf (l_session l) st = log) as Hlog by (unfold logOf; by rewrite E).
      right. split; [done|]. eexists. split; [reflexivity|]. rewrite Hlog. split; [done|]. cbn [snd].
      rewrite (logOf_set (renew ttl st (l_session l) held now)). by rewrite decide_True.
    + left. cbn [snd]. rewrite (logOf_set (renew ttl st (l_session l) held now)).
      by rewrite decide_False.
  - unfold appendTape. destruct (JMap.get (leases st) _) as [held|]; [|done]. by destruct (_ !== _).
  - unfold addParticipant. repeat case_match; done.
  - unfold removeParticipant. repeat case_match; done.
  - unfold updateParticipantView. by case_match.
Qed.

(** The part of the log a view covers. *)
Definition span (v : View.t) : Z * option Z * option Z :=
  (View.validFromSeq v, View.validTo v, View.validToSeq v).

(** The operations that may change the span of one person's view. *)
Definition touches (sid p : string) (o : op) : bool :=
  match o with
  | OpDelete s => s === sid
  | OpAddParticipant s q _ _ _ | OpRemoveParticipant s q _ => (s === sid) && (q === p)
  | _ => false
  end.

Lemma exec_span o st sid p :
  touches sid p o = false -> span <$> viewOf sid p (exec ttl o st) = span <$> viewOf sid p st.
Proof.
  intros Ht. destruct o as [thr ty sc c su u now|s t|s h u now|l|s|s|l e now|l rec now|s q t h now|s q now|s q v];
    cbn [exec touches] in *.
  - unfold getOrCreateByThread. by destruct (_ ≫= _) as [[i s]|].
  - unfold updateTitle. by destruct (JMap.get _ _).
  - unfold acquireLease. destruct (JMap.get _ _); [|done]. by destruct (_ <? _).
  - unfold releaseLease. destruct (JMap.get _ _); [|done]. by destruct (_ === _).
  - done.
  - js_bool. unfold viewOf, deleteSession; cbn. rewrite JMap.get_delete. by rewrite decide_False.
  - unfold append. destruct (JMap.get (leases st) _); [|done]. destruct (_ !== _); [done|].
    cbn zeta. by destruct (JMap.get (entries _) _).
  - unfold appendTape. destruct (JMap.get (leases st) _); [|done]. by destruct (_ !== _).
  - apply andb_false_iff in Ht. unfold addParticipant.
    repeat case_match; rewrite viewOf_withView, decide_False; try done;
      intros [-> ->]; rewrite !bool_decide_eq_true_2 in Ht by done; by destruct Ht.
  - apply andb_false_iff in Ht. unfold removeParticipant.
    repeat case_match; try done. rewrite viewOf_withView, decide_False; try done;
      intros [-> ->]; rewrite !bool_decide_eq_true_2 in Ht by done; by destruct Ht.
  - unfold updateParticipantView. destruct (_ ≫= _) as [w|] eqn:E; [|done].
    rewrite viewOf_withView. case_decide as H; [|done]. destruct H as [-> ->].
    unfold viewOf. by rewrite E.
Qed.

Lemma view_ok_span n v v' : span v = span v' -> view_ok n v -> view_ok n v'.
Proof. unfold view_ok, span. intros [= -> -> ->]. done. Qed.

Lemma view_ok_grow n m v : (n <= m)%nat -> view_ok n v -> view_ok m v.
Proof.
  unfold view_ok. intros Hle [? Hv]. split; [lia|].
  destruct (View.validTo v), (View.validToSeq v); try done; lia.
Qed.

Lemma add_view sid p t h now st v :
  inv st -> viewOf sid p (addParticipant sid p t h now st) = Some v ->
  view_ok (length (logOf sid st)) v.
Proof.
  intros Hi. pose proof (inv_view _ Hi sid p) as Hv. unfold addParticipant. cbn zeta.
  cbn [windows entries]. fold (logOf sid st).
  assert (JMap.get (default [] (JMap.get (windows st) sid)) p = viewOf sid p st) as ->.
  { unfold viewOf. by destruct (JMap.get (windows st) sid). }
  destruct (viewOf sid p st) as [v0|]; [specialize (Hv v0 eq_refl); destruct (View.validTo v0) eqn:E0|];
    rewrite viewOf_withView, decide_True by done; intros [= <-]; unfold view_ok in *; cbn.
  - destruct h; split; lia.
  - rewrite E0 in Hv. destruct Hv as [Hf Hq]. destruct (View.validToSeq v0); [done|]. destruct h; split; lia.
  - destruct h; split; lia.
Qed.

Lemma remove_view sid p now st v :
  inv st -> viewOf sid p (removeParticipant sid p now st) = Some v ->
  view_ok (length (logOf sid st)) v.
Proof.
  intros Hi. pose proof (inv_view _ Hi sid p) as Hv. unfold removeParticipant. fold (viewOf sid p st).
  destruct (viewOf sid p st) as [v0|] eqn:E; [|by rewrite E]. specialize (Hv v0 eq_refl).
  destruct (View.validTo v0) eqn:E0; [rewrite E; by intros [= <-]|].
  rewrite viewOf_withView, decide_True by done. intros [= <-]. unfold view_ok in *; cbn.
  fold (logOf sid st). rewrite E0 in Hv. lia.
Qed.

Lemma exec_inv o st : op_fresh o st -> inv st -> inv (exec ttl o st).
Proof.
  intros Hf Hi.
  assert (forall sid, log_ok sid (logOf sid (exec ttl o st))) as Hlog.
  { intros sid. pose proof (exec_log o st sid Hf) as Hl.
    destruct o; try (rewrite Hl; apply Hi).
    - rewrite Hl. case_decide; [done|apply Hi].
    - destruct Hl as [Hl|(<- & full & _ & Hfull & Hl)]; rewrite Hl; [apply Hi|].
      rewrite Hfull. apply log_ok_snoc, Hi. }
  split; [done|]. intros sid p v Hv.
  destruct (touches sid p o) eqn:Ht.
  - pose proof (exec_log o st sid Hf) as Hl. destruct o; cbn [touches] in Ht; try done; js_bool.
    + unfold viewOf in Hv. cbn in Hv. rewrite JMap.get_delete, decide_True in Hv by done. done.
    + rewrite Hl. by eapply add_view.
    + rewrite Hl. by eapply remove_view.
  - pose proof (exec_span o st sid p Ht) as Hs. rewrite Hv in Hs.
    destruct (viewOf sid p st) as [v0|] eqn:E; [|done]. cbn in Hs. injection Hs as Hs1 Hs2 Hs3.
    eapply view_ok_span; [|eapply view_ok_grow; [|exact (inv_view _ Hi _ _ _ E)]].
    + unfold span. congruence.
    + pose proof (exec_log o st sid Hf) as Hl. destruct o; try (by rewrite Hl); cbn [touches] in Ht.
      * rewrite Hl. js_bool. by rewrite decide_False.
      * destruct Hl as [->|(_ & full & _ & _ & ->)]; [done|]. rewrite length_app. lia.
Qed.

Lemma session_inv_empty : inv empty.
Proof. split; [by intros sid n e|by intros sid p v]. Qed.

Lemma session_reachable_inv st : reachable ttl st -> inv st.
Proof.
  unfold reachable. intros Hr. refine (rtc_ind_r (fun s => inv s) empty _ _ st Hr).
  - apply session_inv_empty.
  - intros y z _ [o s Hf] Hi. by apply exec_inv.
Qed.

(** *** Sequences of operations that keep one person's membership *)
Inductive quiet (sid p : string) : Store -> Store -> Prop :=
| quiet_op o st : op_fresh o st -> touches sid p o = false -> quiet sid p st (exec ttl o st).

Lemma quiet_log sid p st st' :
  quiet sid p st st' -> exists ext, logOf sid st' = logOf sid st ++ ext.
Proof.
  intros [o s Hf Ht]. pose proof (exec_log o s sid Hf) as Hl.
  destruct o; try (exists []; by rewrite app_nil_r); cbn [touches] in Ht.
  - exists []. rewrite app_nil_r, Hl. js_bool. by rewrite decide_False.
  - destruct Hl as [->|(_ & full & _ & _ & ->)]; [exists []; by rewrite app_nil_r|eauto].
Qed.

Lemma quiet_rtc sid p st st' :
  inv st -> rtc (quiet sid p) st st' ->
  inv st' /\ (exists ext, logOf sid st' = logOf sid st ++ ext)
  /\ span <$> viewOf sid p st' = span <$> viewOf sid p st.
Proof.
  intros Hi Hr. induction Hr as [st|st st1 st2 Hq _ IH].
  { split; [done|]. split; [exists []; by rewrite app_nil_r|done]. }
  destruct (quiet_log _ _ _ _ Hq) as (ext1 & E1).
  destruct Hq as [o s Hf Ht]. destruct IH as (Hi2 & (ext2 & E2) & Hs); [by apply exec_inv|].
  split; [done|]. split.
  - exists (ext1 ++ ext2). by rewrite E2, E1, app_assoc.
  - rewrite Hs. by apply exec_span.
Qed.

(** Entries appended after a view was closed fall outside it. *)
Lemma filter_inView_closed sid log ext v q :
  log_ok sid (log ++ ext) -> View.validToSeq v = Some q -> q <= Z.of_nat (length log) ->
  List.filter (inView v) (log ++ ext) = List.filter (inView v) log.
Proof.
  intros Hl Hq Hle. rewrite List.filter_app. rewrite <- (app_nil_r (List.filter (inView v) log)) at 2.
  f_equal. enough (forall e, e ∈ ext -> inView v e = false) as Hno.
  { clear -Hno. induction ext as [|e ext IH]; cbn; [done|]. rewrite (Hno e) by (by left).
    apply IH. intros. apply Hno. by right. }
  intros e (n & Hn)%list_elem_of_lookup. unfold inView. rewrite Hq.
  destruct (Hl (length log + n)%nat e) as [-> _].
  { rewrite lookup_app_r by lia. by replace (length log + n - length log)%nat with n by lia. }
  apply andb_false_iff. right. apply Z.ltb_ge. lia.
Qed.

Lemma filter_inView_open sid log v n :
  log_ok sid log -> View.validToSeq v = None -> View.validFromSeq v = Z.of_nat n ->
  List.filter (inView v) log = drop n log.
Proof.
  intros Hl Hq Hn.
  enough (forall log' k, (forall i e, log' !! i = Some e -> SessionEntry.seq e = Z.of_nat (k + i)) ->
    List.filter (inView v) log' = drop (n - k) log') as Hgen.
  { rewrite (Hgen log O); [by rewrite Nat.sub_0_r|]. intros i e He. by destruct (Hl i e He). }
  induction log' as [|e log' IH]; intros k Hk; cbn [List.filter]; [by rewrite drop_nil|].
  rewrite (IH (S k)).
  2: { intros i e' He'. replace (S k + i)%nat with (k + S i)%nat by lia. by apply Hk. }
  unfold inView at 1. rewrite Hq, Hn, (Hk O e eq_refl), andb_true_r, Nat.add_0_r.
  destruct (Z.of_nat n <=? Z.of_nat k) eqn:E; js_bool.
  - replace (n - k)%nat with O by lia. replace (n - S k)%nat with O by lia. by rewrite !drop_0.
  - replace (n - k)%nat with (S (n - S k)) by lia. done.
Qed.
End invariant.

(** ** Properties *)
Section properties.
Variable ttl : Z.

(** In every reachable store the log of each session is gapless and linked:
    the entry at position [n] has sequence number [n], the session's id, and the
    entry before it as parent. *)
Theorem session_log_gapless st sid n e :
  reachable ttl st -> logOf sid st !! n = Some e ->
  SessionEntry.seq e = Z.of_nat n /\ SessionEntry.sessionId e = sid
  /\ SessionEntry.parentSeq e = if decide (n = O) then None else Some (Z.of_nat n - 1).
Proof. intros Hi%session_reachable_inv. apply (inv_log _ Hi). Qed.

(** C3: once a person is removed from a session, what they can read is frozen:
    whatever happens next, short of adding them again or deleting the session,
    they see exactly the entries they saw at the moment of removal. *)
Theorem removed_participant_sees_no_more st st' sid p now :
  reachable ttl st -> rtc (quiet ttl sid p) (removeParticipant sid p now st) st' ->
  visibleEntries sid p st' = visibleEntries sid p st.
Proof.
  intros Hi%session_reachable_inv Hq.
  pose proof (exec_inv ttl (OpRemoveParticipant sid p now) st I Hi) as Hi1. cbn [exec] in Hi1.
  pose proof (exec_log ttl (OpRemoveParticipant sid p now) st sid I) as Hlog. cbn [exec] in Hlog.
  destruct (quiet_rtc ttl _ _ _ _ Hi1 Hq) as (Hi2 & (ext & Hext) & Hspan).
  unfold visibleEntries. fold (viewOf sid p st') (viewOf sid p st) (logOf sid st') (logOf sid st).
  unfold removeParticipant in Hspan, Hlog, Hext. fold (viewOf sid p st) in Hspan, Hlog, Hext.
  rewrite Hlog in Hext. pose proof (inv_log _ Hi2 sid) as Hok. rewrite Hext in Hok.
  destruct (viewOf sid p st) as [v|] eqn:Ev.
  2: { rewrite Ev in Hspan. by destruct (viewOf sid p st'). }
  pose proof (inv_view _ Hi _ _ _ Ev) as [Hfrom Hto].
  destruct (View.validTo v) as [t|] eqn:Et.
  - rewrite Ev in Hspan. destruct (viewOf sid p st') as [v'|]; [|done]. cbn in Hspan.
    injection Hspan as Hf Hs Hq'. destruct (View.validToSeq v) as [q|] eqn:Eq; [|done].
    rewrite Hext. rewrite (filter_inView_closed sid _ _ v' q Hok) by (done || lia).
    apply List.filter_ext. intros e. unfold inView. by rewrite Hf, Hq', Eq.
  - rewrite viewOf_withView, decide_True in Hspan by done.
    destruct (viewOf sid p st') as [v'|]; [|done]. cbn in Hspan. fold (logOf sid st) in Hspan.
    injection Hspan as Hf Hs Hq'. destruct (View.validToSeq v) as [q|] eqn:Eq; [done|].
    rewrite Hext, (filter_inView_closed sid _ _ v' _ Hok Hq') by lia.
    apply List.filter_ext_in. intros e He%list_elem_of_In. unfold inView. rewrite Hf, Hq', Eq.
    apply (log_ok_seq sid) in He; [|apply Hi]. f_equal. apply Z.ltb_lt. lia.
Qed.

(** A person added to a session without its history sees exactly the entries
    appended from then on, for as long as their membership is not changed. *)
Theorem added_participant_sees_from_now st st' sid p title now :
  reachable ttl st -> viewOf sid p st = None ->
  rtc (quiet ttl sid p) (addParticipant sid p title false now st) st' ->
  visibleEntries sid p st' = drop (length (logOf sid st)) (logOf sid st').
Proof.
  intros Hi%session_reachable_inv Hno Hq.
  pose proof (exec_inv ttl (OpAddParticipant sid p title false now) st I Hi) as Hi1.
  cbn [exec] in Hi1.
  destruct (quiet_rtc ttl _ _ _ _ Hi1 Hq) as (Hi2 & _ & Hspan).
  assert (exists v, viewOf sid p (addParticipant sid p title false now st) = Some v
    /\ View.validFromSeq v = Z.of_nat (length (logOf sid st)) /\ View.validToSeq v = None) as (v & Hv & Hf & Ht).
  { unfold addParticipant. cbn zeta. cbn [windows entries].
    assert (JMap.get (default [] (JMap.get (windows st) sid)) p = None) as ->.
    { unfold viewOf in Hno. by destruct (JMap.get (windows st) sid). }
    eexists. rewrite viewOf_withView, decide_True by done. done. }
  rewrite Hv in Hspan. unfold visibleEntries. fold (viewOf sid p st') (logOf sid st').
  destruct (viewOf sid p st') as [v'|]; [|done]. cbn in Hspan. injection Hspan as Hf' _ Ht'.
  apply (filter_inView_open sid); [apply Hi2|congruence|congruence].
Qed.

(** The log is append-only under a lease: [append] extends the log of its
    session by one entry when it shows the current lease token, and otherwise
    throws and changes nothing; no other operation changes any log, but for the
    deletion of the session. *)
Theorem log_changes_only_by_lease o st sid :
  reachable ttl st -> op_fresh o st ->
  logOf sid (exec ttl o st) = logOf sid st
  \/ o = OpDelete sid
  \/ exists l e now full held, o = OpAppend l e now /\ l_session l = sid
       /\ JMap.get (leases st) sid = Some held /\ Held.token held = l_token l
       /\ logOf sid (exec ttl o st) = logOf sid st ++ [full].
Proof.
  intros _ Hf. pose proof (exec_log ttl o st sid Hf) as Hl. destruct o; try (by left).
  - case_decide; [subst; by right; left|by left].
  - destruct Hl as [?|(Hs & full & Happ & _ & Hext)]; [by left|]. right; right.
    unfold append in Happ. destruct (JMap.get (leases st) (l_session l)) as [held|] eqn:Eh; [|done].
    destruct (Held.token held !== l_token l) eqn:Et; [done|].
    apply negb_false_iff, bool_decide_eq_true in Et. subst sid. by exists l, entry, now, full, held.
Qed.

(** C10: while a lease is unexpired, no operation other than its own release, a
    forced release or the deletion of the session takes it away: a second
    acquirer is refused and told until when it is held, and the token stays. *)
Theorem lease_exclusive o st sid held now holder uuid :
  JMap.get (leases st) sid = Some held -> now < Held.expiresAt held ->
  acquireLease ttl sid holder uuid now st
    = (mkAttempt None (Held.holder held) (Some (Held.acquiredAt held)) (Some (Held.expiresAt held)), st)
  /\ (match o with
      | OpForceRelease s | OpDelete s => s <> sid
      | OpRelease l => ~ (l_session l = sid /\ l_token l = Held.token held)
      | OpAcquire s _ _ t => s = sid -> t < Held.expiresAt held
      | _ => True
      end ->
      exists held', JMap.get (leases (exec ttl o st)) sid = Some held' /\ Held.token held' = Held.token held).
Proof.
  intros Hh Hnow. split.
  { unfold acquireLease. rewrite Hh. by rewrite (proj2 (Z.ltb_lt _ _) Hnow). }
  intros Ho. destruct o as [thr ty sc c su u t|s t|s h u t|l|s|s|l e t|l rec t|s p ti h t|s p t|s p v]; cbn [exec].
  - unfold getOrCreateByThread. destruct (_ ≫= _) as [[i s]|]; by exists held.
  - unfold updateTitle. destruct (JMap.get (sessions st) s); by exists held.
  - unfold acquireLease. destruct (decide (s = sid)) as [->|Hne].
    + rewrite Hh, (proj2 (Z.ltb_lt _ _) (Ho eq_refl)). by exists held.
    + exists held. repeat case_match; cbn; rewrite ?JMap.get_set_ne by done; done.
  - unfold releaseLease. destruct (JMap.get (leases st) (l_session l)) as [h|] eqn:E; [|by exists held].
    case_bool_decide as Ht; [|by exists held]. exists held. cbn. rewrite JMap.get_delete, decide_False; [done|].
    intros Es. rewrite Es in E. apply Ho. split; [done|]. congruence.
  - exists held. unfold forceReleaseLease; cbn. rewrite JMap.get_delete. by rewrite decide_False.
  - exists held. unfold deleteSession; cbn. rewrite JMap.get_delete. by rewrite decide_False.
  - unfold append. destruct (JMap.get (leases st) (l_session l)) as [h|] eqn:E; [|by exists held].
    destruct (_ !== _); [by exists held|]. cbn zeta.
    destruct (JMap.get (entries _) _); cbn [snd leases renew withLeases]; rewrite JMap.get_set;
      (destruct (decide (l_session l = sid)) as [Es|]; [|by exists held]); eexists; (split; [done|]); cbn; congruence.
  - unfold appendTape. destruct (JMap.get (leases st) (l_session l)) as [h|] eqn:E; [|by exists held].
    destruct (_ !== _); [by exists held|]. cbn [snd leases renew withLeases]. rewrite JMap.get_set.
    destruct (decide (l_session l = sid)) as [Es|]; [|by exists held]. eexists; split; [done|]. cbn; congruence.
  - unfold addParticipant. exists held. repeat case_match; done.
  - unfold removeParticipant. exists held. repeat case_match; done.
  - unfold updateParticipantView. exists held. by case_match.
Qed.

(** Deleting a session leaves nothing of it: the session, its log, tape,
    views and lease are gone, its thread starts a new session, and every other
    session is untouched. *)
Theorem delete_session_complete st sid :
  let st' := deleteSession sid st in
  get sid st' = None /\ JMap.get (entries st') sid = None /\ JMap.get (tape st') sid = None
  /\ JMap.get (leases st') sid = None /\ participantsOf sid st' = []
  /\ (forall p, visibleEntries sid p st' = [])
  /\ (forall s, get sid st = Some s -> getByThread (Session.threadRef s) st' = None)
  /\ (forall other, other <> sid ->
        get other st' = get other st /\ logOf other st' = logOf other st
        /\ JMap.get (leases st') other = JMap.get (leases st) other
        /\ forall p, visibleEntries other p st' = visibleEntries other p st).
Proof.
  unfold deleteSession, get, participantsOf, visibleEntries, getByThread, logOf.
  cbn [sessions entries tape byThread windows leases].
  repeat split; intros; rewrite ?JMap.get_delete, ?decide_True by done; try done;
    try (by rewrite ?decide_False).
  rewrite H. cbn. by rewrite JMap.get_delete, decide_True.
Qed.
End properties.

(** *** Witnesses *)
Section witnesses.
Let create := OpCreate "t1" kind_dm "personal:alice" None None "s1" 1.
Let st1 := exec 100 create empty.
Let st2 := exec 100 (OpAcquire "s1" (Some h_turn) "tok" 2) st1.
Let e1 := mkNewEntry "user" (JStr "hello") "personal:alice".
Let st3 := exec 100 (OpAddParticipant "s1" "alice" None true 3) st2.
Let st4 := exec 100 (OpAppend (mkLease "s1" "tok") e1 4) st3.
Let later := OpAppend (mkLease "s1" "tok") e1 9.

Let reach1 : reachable 100 st1.
Proof. refine (rtc_once _ _ (step_op 100 create empty _)). split; [reflexivity|discriminate]. Defined.
Let reach2 : reachable 100 st2.
Proof. exact (rtc_r _ _ _ reach1 (step_op 100 (OpAcquire "s1" (Some h_turn) "tok" 2) st1 I)). Defined.
Let reach3 : reachable 100 st3.
Proof. exact (rtc_r _ _ _ reach2 (step_op 100 (OpAddParticipant "s1" "alice" None true 3) st2 I)). Defined.
Let reach4 : reachable 100 st4.
Proof. exact (rtc_r _ _ _ reach3 (step_op 100 (OpAppend (mkLease "s1" "tok") e1 4) st3 I)). Defined.
Let first := SessionEntry.mk "s1" 0 None "user" (JStr "hello") "personal:alice" 4.

Lemma session_log_gapless_witness :
  SessionEntry.seq first = 0 /\ SessionEntry.sessionId first = "s1" /\ SessionEntry.parentSeq first = None.
Proof. exact (session_log_gapless 100 st4 "s1" O first reach4 eq_refl). Defined.

Lemma removed_participant_sees_no_more_witness :
  visibleEntries "s1" "alice" (exec 100 later (removeParticipant "s1" "alice" 5 st4)) = [first].
Proof.
  exact (removed_participant_sees_no_more 100 st4
    (exec 100 later (removeParticipant "s1" "alice" 5 st4)) "s1" "alice" 5 reach4
    (rtc_once _ _ (quiet_op 100 "s1" "alice" later _ I eq_refl))).
Defined.

Lemma added_participant_sees_from_now_witness :
  visibleEntries "s1" "bob" (exec 100 later (addParticipant "s1" "bob" None false 6 st4))
  = drop 1 (logOf "s1" (exec 100 later (addParticipant "s1" "bob" None false 6 st4))).
Proof.
  exact (added_participant_sees_from_now 100 st4
    (exec 100 later (addParticipant "s1" "bob" None false 6 st4)) "s1" "bob" None 6 reach4 eq_refl
    (rtc_once _ _ (quiet_op 100 "s1" "bob" later _ I eq_refl))).
Defined.

Lemma log_changes_only_by_lease_witness :
  logOf "s1" (exec 100 later st4) = logOf "s1" st4
  \/ later = OpDelete "s1"
  \/ exists l e now full held, later = OpAppend l e now /\ l_session l = "s1"
       /\ JMap.get (leases st4) "s1" = Some held /\ Held.token held = l_token l
       /\ logOf "s1" (exec 100 later st4) = logOf "s1" st4 ++ [full].
Proof. exact (log_changes_only_by_lease 100 later st4 "s1" reach4 I). Defined.

Lemma lease_exclusive_witness :
  (acquireLease 100 "s1" None "other" 50 st2).1
  = mkAttempt None (Some h_turn) (Some 2) (Some 102).
Proof.
  exact (f_equal fst (proj1 (lease_exclusive 100 create st2 "s1" (Held.mk "tok" 102 2 (Some h_turn))
           50 None "other" eq_refl eq_refl))).
Defined.
End witnesses.
