(* ===== verification/TapeFold.v ===== *)
(** * The tape: the messages a harness is resumed with

    [src/harness/tape-fold.ts].  The tape of a session is a list of records:
    messages as the model saw them, context events and annotations.  It is
    filtered for the people present, folded into a list of messages, checked, and
    repaired when a restart cut off tool calls.  Messages are untyped values
    ([json]) here as in the source, which probes them field by field. *)

From Stdlib Require Import ZArith Lia Ascii.
From S2P Require Import Prelude Collections Scopes Sessions.
Open Scope Z_scope.

(** [context-compaction.ts] *)
Definition INTERRUPTED_TOOL_RESULT : string :=
  "[interrupted — the platform restarted while this tool call was running and its outcome was not recorded. Check what actually happened before redoing anything with side effects.]".

(** ** Probing messages *)
Definition hasRole (r : string) (m : json) : bool := json_is_str r (json_field "role" m).
Definition toolCallId (m : json) : option string := json_str (json_field "toolCallId" m).
Definition contentBlocks (m : json) : option (list json) := json_arr (json_field "content" m).

(** [{ type: "text", text }] *)
Definition textBlock (text : string) : json := JObj [("type", JStr "text"); ("text", JStr text)].

(** The stand-in for a tool result that is not there. *)
Definition interruptedResult (id : string) (name : json) (at_ : Z) : json :=
  JObj [("role", JStr "toolResult"); ("toolCallId", JStr id); ("toolName", name);
        ("content", JArr [textBlock INTERRUPTED_TOOL_RESULT]); ("isError", JBool true); ("timestamp", JNum at_)].

Definition withPayload (r : Tape.t) (payload : json) : Tape.t :=
  let n := Tape.rec r in
  Tape.mk (Tape.mkNew (Tape.kind n) payload (Tape.scopeLabel n) (Tape.harness n) (Tape.meta n)
             (Tape.entrySeq n) (Tape.coversEntrySeq n))
    (Tape.sessionId r) (Tape.seq r) (Tape.createdAt r).

Definition tapeKind (r : Tape.t) : TapeKind := Tape.kind (Tape.rec r).
Definition tapePayload (r : Tape.t) : json := Tape.payload (Tape.rec r).
Definition tapeLabel (r : Tape.t) : ScopeId := Tape.scopeLabel (Tape.rec r).

Definition allEntitled (audience : list Principal.t) (label sessionScopeId orgScopeId : ScopeId) : bool :=
  forallb (fun p => principalEntitledToScope p label sessionScopeId orgScopeId) audience.

(** One round of the loop of [filterTapeForAudience]: what is pushed for a record. *)
Definition filterRow (audience : list Principal.t) (sessionScopeId orgScopeId : ScopeId) (r : Tape.t)
    : list Tape.t :=
  if (tapeKind r !== t_message) || allEntitled audience (tapeLabel r) sessionScopeId orgScopeId then [r]
  else
    let msg := tapePayload r in
    match hasRole "toolResult" msg, toolCallId msg with
    | true, Some id =>
        let name := match json_field "toolName" msg with JStr n => JStr n | _ => JStr "tool" end in
        [withPayload r (interruptedResult id name (Tape.createdAt r))]
    | _, _ => []
    end.

Definition filterTapeForAudience (rows : list Tape.t) (audience : list Principal.t)
    (sessionScopeId orgScopeId : ScopeId) : list Tape.t :=
  match audience with
  | [] => []
  | _ => concat (map (filterRow audience sessionScopeId orgScopeId) rows)
  end.

(** ** Context events *)
Inductive TapeEvent :=
| ev_compaction (text : json)
| ev_legacy_import (messages : json)
| ev_legacy_patch (messages : json)
| ev_interrupt.

Definition contextEvent (row : Tape.t) : option TapeEvent :=
  if tapeKind row !== t_context_event then None else
  let p := tapePayload row in
  match json_field "event" p with
  | JStr e =>
      if e === "compaction" then Some (ev_compaction (json_field "text" p))
      else if e === "legacy_import" then Some (ev_legacy_import (json_field "messages" p))
      else if e === "legacy_patch" then Some (ev_legacy_patch (json_field "messages" p))
      else if e === "interrupt" then Some ev_interrupt
      else None
  | _ => None
  end.

Definition isImport (row : Tape.t) : bool :=
  match contextEvent row with Some (ev_legacy_import _) => true | _ => false end.

(** [rows.findLast] and [rows.findLastIndex] *)
Definition lastImportLacksScopes (rows : list Tape.t) : bool :=
  match List.find isImport (reverse rows) with
  | Some r => match json_field "scopes" (tapePayload r) with JArr _ => false | _ => true end
  | None => false
  end.

(** What the check asks of one record after the last import. *)
Definition eventEntitled (entitled : ScopeId -> bool) (r : Tape.t) : bool :=
  match contextEvent r with
  | None | Some ev_interrupt => true
  | Some ev =>
      if negb (entitled (tapeLabel r)) then false else
      match ev with
      | ev_legacy_import _ | ev_legacy_patch _ =>
          match json_field "scopes" (tapePayload r) with
          | JArr scopes => forallb (fun s => match s with JStr s => entitled s | _ => false end) scopes
          | _ => false
          end
      | _ => true
      end
  end.

(** The records from the last import on; all of them when there is none. *)
Fixpoint fromLastImport (rows : list Tape.t) : list Tape.t :=
  match rows with
  | [] => []
  | r :: rest => if existsb isImport rest then fromLastImport rest else rows
  end.

Definition tapeEventsEntitled (rows : list Tape.t) (audience : list Principal.t)
    (sessionScopeId orgScopeId : ScopeId) : bool :=
  match audience with
  | [] => false
  | _ =>
      forallb (eventEntitled (fun s => allEntitled audience s sessionScopeId orgScopeId)) (fromLastImport rows)
  end.

(** ** Dangling tool calls *)
(** The tool calls of an assistant message: id and name. *)
Definition callOf (block : json) : option (string * json) :=
  if json_is_str "toolCall" (json_field "type" block) then
    match json_field "id" block with
    | JStr id => Some (id, json_or (json_field "name" block) (JStr "tool"))
    | _ => None
    end
  else None.

Definition callsOf (m : json) : list (string * json) :=
  if hasRole "assistant" m then
    match contentBlocks m with Some blocks => omap callOf blocks | None => [] end
  else [].

Definition answerOf (m : json) : option string := if hasRole "toolResult" m then toolCallId m else None.

Definition missingCalls (out : list json) : list (string * json) :=
  let answered := omap answerOf out in
  List.filter (fun c => negb (bool_decide (c.1 ∈ answered))) (concat (map callsOf out)).

Definition healDanglingCalls (out : list json) (at_ : Z) : list json :=
  out ++ map (fun c => interruptedResult c.1 c.2 at_) (missingCalls out).

Definition healFoldInterrupt (messages : list json) (at_ : Z) : list json := healDanglingCalls messages at_.

(** ** The fold *)
Record boundary := mkBoundary { b_pos : nat; b_entrySeq : Z }.
Record Foldable := mkFoldable { out : list json; boundaries : list boundary }.

Definition summaryMessage (text : json) (at_ : Z) : json :=
  JObj [("role", JStr "user");
        ("content", JArr [textBlock ("[Earlier conversation summary]" +:+ String "010"%char (json_to_string text))]);
        ("timestamp", JNum at_)].

Definition markBoundary (covers : option Z) (f : Foldable) : list boundary :=
  match covers with
  | Some q => [mkBoundary (length (out f)) q]
  | None => []
  end.

(** [ev.messages ?? []], spread *)
Definition eventMessages (messages : json) : outcome (list json) :=
  match messages with JUndefined | JNull => Ok [] | _ => json_spread messages end.

Definition foldCompaction (text : json) (covers : option Z) (at_ : Z) (f : Foldable) : Foldable :=
  let cut := match covers with
             | Some q => List.find (fun b => b_entrySeq b <=? q) (reverse (boundaries f))
             | None => None
             end in
  match cut with
  | Some b =>
      mkFoldable (summaryMessage text at_ :: drop (b_pos b) (out f))
        (map (fun x => mkBoundary (b_pos x - b_pos b + 1) (b_entrySeq x))
           (List.filter (fun x => (b_pos b <=? b_pos x)%nat) (boundaries f)))
  | None =>
      mkFoldable (summaryMessage text at_ :: out f)
        (map (fun x => mkBoundary (b_pos x + 1) (b_entrySeq x)) (boundaries f))
  end.

Definition foldRow (f : Foldable) (row : Tape.t) : outcome Foldable :=
  let n := Tape.rec row in
  match tapeKind row with
  | t_annotation =>
      if json_is_true (json_field "turnEnd" (tapePayload row)) then
        match Tape.entrySeq n with
        | Some q => Ok (mkFoldable (out f) (boundaries f ++ [mkBoundary (length (out f)) q]))
        | None => Ok f
        end
      else Ok f
  | _ =>
      match contextEvent row with
      | Some (ev_legacy_import messages) =>
          let! ms := eventMessages messages in
          let g := mkFoldable ms [] in Ok (mkFoldable ms (markBoundary (Tape.coversEntrySeq n) g))
      | Some (ev_legacy_patch messages) =>
          let! ms := eventMessages messages in
          let g := mkFoldable (out f ++ ms) (boundaries f) in
          Ok (mkFoldable (out g) (boundaries g ++ markBoundary (Tape.coversEntrySeq n) g))
      | Some (ev_compaction text) => Ok (foldCompaction text (Tape.coversEntrySeq n) (Tape.createdAt row) f)
      | Some ev_interrupt => Ok (mkFoldable (healDanglingCalls (out f) (Tape.createdAt row)) (boundaries f))
      | None =>
          match tapeKind row, tapePayload row with
          | t_message, (JUndefined | JNull) => Ok f
          | t_message, payload => Ok (mkFoldable (out f ++ [payload]) (boundaries f))
          | _, _ => Ok f
          end
      end
  end.

Fixpoint foldRows (f : Foldable) (rows : list Tape.t) : outcome Foldable :=
  match rows with
  | [] => Ok f
  | row :: rest => let! g := foldRow f row in foldRows g rest
  end.

Definition foldTape (rows : list Tape.t) : outcome (list json) :=
  let! f := foldRows (mkFoldable [] []) rows in Ok (out f).

(** ** The check *)
Section lint.
(** [JSON.stringify(v)] as a template literal renders it. *)
Variable jsonStringify : json -> string.

Record lintState := mkLint { problems : list string; openCalls : list string; seenCallIds : list string }.

Definition atIndex (i : nat) (text : string) : string := "#" +:+ Str.showZ (Z.of_nat i) +:+ ": " +:+ text.

Definition report (st : lintState) (text : string) : lintState :=
  mkLint (problems st ++ [text]) (openCalls st) (seenCallIds st).

Definition imageWithoutBytes (block : json) : bool :=
  json_is_str "image" (json_field "type" block)
  && match json_field "data" block with JStr _ => false | _ => true end.

Definition lintImages (i : nat) (blocks : list json) (st : lintState) : lintState :=
  foldl (fun st b => if imageWithoutBytes b then report st (atIndex i "image block without bytes") else st) st blocks.

Definition lintCall (i : nat) (st : lintState) (id : string) : lintState :=
  let st := if bool_decide (id ∈ seenCallIds st)
            then report st (atIndex i ("duplicate tool call id " +:+ id)) else st in
  mkLint (problems st) (Arr.add (openCalls st) id) (Arr.add (seenCallIds st) id).

Definition lintMessage (i : nat) (st : lintState) (m : json) : lintState :=
  if negb (hasRole "user" m) && negb (hasRole "assistant" m) && negb (hasRole "toolResult" m) then
    report st (atIndex i ("unknown role " +:+ jsonStringify (json_field "role" m)))
  else
  let st := match contentBlocks m with Some blocks => lintImages i blocks st | None => st end in
  match hasRole "assistant" m, contentBlocks m with
  | true, Some blocks => foldl (lintCall i) st (map fst (omap callOf blocks))
  | _, _ =>
      if hasRole "toolResult" m then
        let unmatched := report st (atIndex i ("toolResult without a preceding open call ("
                                               +:+ json_to_string (json_field "toolCallId" m) +:+ ")")) in
        match toolCallId m with
        | Some id =>
            if bool_decide (id ∈ openCalls st)
            then mkLint (problems st) (List.filter (fun x => x !== id) (openCalls st)) (seenCallIds st)
            else unmatched
        | None => unmatched
        end
      else if hasRole "user" m && negb (openCalls st === []) then
        let n := Str.showZ (Z.of_nat (length (openCalls st))) in
        let st := report st (atIndex i ("user message while " +:+ n +:+ " tool call(s) await results")) in
        mkLint (problems st) [] (seenCallIds st)
      else st
  end.

Fixpoint lintMessages (i : nat) (st : lintState) (ms : list json) : lintState :=
  match ms with
  | [] => st
  | m :: rest => lintMessages (S i) (lintMessage i st m) rest
  end.

Definition lintFirst (messages : list json) : list string :=
  match messages with
  | first :: _ =>
      if json_truthy first && negb (hasRole "user" first)
      then [atIndex 0 ("first message must be user-role, got " +:+ jsonStringify (json_field "role" first))]
      else []
  | [] => []
  end.

(** [lintFold(messages).problems]; [ok] is that there are none. *)
Definition lintFold (messages : list json) : list string :=
  let st := lintMessages 0 (mkLint (lintFirst messages) [] []) messages in
  problems st ++
  (if openCalls st === [] then []
   else ["end: " +:+ Str.showZ (Z.of_nat (length (openCalls st))) +:+ " dangling tool call(s)"]).

Definition lintOk (messages : list json) : bool := lintFold messages === [].

(** [folded] is the precomputed fold, when the caller has one. *)
Definition tapeNeedsInterruptHeal (rows : list Tape.t) (folded : option (list json)) : outcome bool :=
  let! fold := match folded with Some f => Ok f | None => foldTape rows end in
  let ps := lintFold fold in
  Ok (negb (ps === []) && forallb (fun p => Str.startsWith p "end:") ps).

Inductive TapeMode := tape_shadow | tape_serve.
#[global] Instance TapeMode_eq_dec : EqDecision TapeMode.
Proof. solve_decision. Defined.

Record SeedPlan := mkPlan {
  seed : option (list json); skip_foreign : bool; lint : option (list string); fold_ : option (list json)
}.

Definition planTapeSeed (rows : list Tape.t) (harness : string) (mode : option TapeMode)
    (folded : option (list json)) : outcome SeedPlan :=
  if existsb (fun r => (tapeKind r === t_message)
                       && match Tape.harness (Tape.rec r) with Some h => h !== harness | None => false end) rows
  then Ok (mkPlan None true None None)
  else
    let! fold := match folded with Some f => Ok f | None => foldTape rows end in
    let problems := lintFold fold in
    Ok (mkPlan (if (mode === Some tape_serve) && (problems === []) && negb (fold === []) then Some fold else None)
          false (Some problems) (Some fold)).

(** ** What a well-formed conversation is *)
Definition callIds (m : json) : list string := map fst (callsOf m).

Definition imagesHaveBytes (m : json) : Prop :=
  forall blocks b, contentBlocks m = Some blocks -> b ∈ blocks -> imageWithoutBytes b = false.

(** [admits m open seen open' seen']: a message that may come next when the calls
    [open] await results and the ids [seen] have been used, and what is open and
    used after it. *)
Inductive admits (m : json) : list string -> list string -> list string -> list string -> Prop :=
| ad_user seen : hasRole "user" m = true -> imagesHaveBytes m -> admits m [] seen [] seen
| ad_assistant open seen :
    hasRole "assistant" m = true -> imagesHaveBytes m ->
    NoDup (callIds m) -> (forall id, id ∈ callIds m -> id ∉ seen) ->
    admits m open seen (open ++ callIds m) (seen ++ callIds m)
| ad_result open seen id :
    answerOf m = Some id -> imagesHaveBytes m -> id ∈ open ->
    admits m open seen (List.filter (fun x => x !== id) open) seen.

(** A whole exchange, from one state to another. *)
Inductive talk : list string -> list string -> list json -> list string -> list string -> Prop :=
| talk_nil open seen : talk open seen [] open seen
| talk_cons m ms open seen open1 seen1 open' seen' :
    admits m open seen open1 seen1 -> talk open1 seen1 ms open' seen' -> talk open seen (m :: ms) open' seen'.

(** It starts with a user message, and in the end no call awaits its result. *)
Definition wellFormed (messages : list json) : Prop :=
  match messages with first :: _ => hasRole "user" first = true | [] => True end
  /\ exists seen, talk [] [] messages [] seen.

Lemma hasRole_excl r r' m : hasRole r m = true -> hasRole r' m = true -> r = r'.
Proof. unfold hasRole, json_is_str. destruct (json_field "role" m); try done. intros. js_bool. congruence. Qed.

Lemma hasRole_ne r r' m : r <> r' -> hasRole r m = true -> hasRole r' m = false.
Proof. intros Hne H. destruct (hasRole r' m) eqn:E; [|done]. destruct Hne. by eapply hasRole_excl. Qed.

Lemma lintImages_spec i blocks st :
  exists more, lintImages i blocks st = mkLint (problems st ++ more) (openCalls st) (seenCallIds st)
    /\ (more = [] <-> forall b, b ∈ blocks -> imageWithoutBytes b = false)
    /\ forall p, p ∈ more -> exists t, p = atIndex i t.
Proof.
  unfold lintImages. revert st. induction blocks as [|b blocks IH]; intros st; cbn [foldl].
  { exists []. rewrite app_nil_r. split; [by destruct st|]. split; [|by intros p ?%not_elem_of_nil].
    split; [by intros _ b ?%not_elem_of_nil|done]. }
  destruct (imageWithoutBytes b) eqn:Eb.
  - destruct (IH (report st (atIndex i "image block without bytes"))) as (more & -> & _ & Hp).
    exists (atIndex i "image block without bytes" :: more). cbn. rewrite <- app_assoc. split; [done|].
    split; [|intros p [->|?]%elem_of_cons; eauto]. split; [done|]. intros H.
    by rewrite (H b (list_elem_of_here _ _)) in Eb.
  - destruct (IH st) as (more & -> & Hm & Hp). exists more. split; [done|]. split; [|done]. rewrite Hm.
    split; [intros H x [->|?]%elem_of_cons; [done|by apply H]|]. intros H x Hx. apply H. by right.
Qed.

Lemma lintCalls_spec i ids st :
  (forall x, x ∈ openCalls st -> x ∈ seenCallIds st) ->
  exists more open seen, foldl (lintCall i) st ids = mkLint (problems st ++ more) open seen
    /\ (forall p, p ∈ more -> exists t, p = atIndex i t)
    /\ (forall x, x ∈ open -> x ∈ seen)
    /\ (more = [] <-> NoDup ids /\ forall x, x ∈ ids -> x ∉ seenCallIds st)
    /\ (more = [] -> open = openCalls st ++ ids /\ seen = seenCallIds st ++ ids).
Proof.
  revert st. induction ids as [|id ids IH]; intros st Hos; cbn [foldl].
  { exists [], (openCalls st), (seenCallIds st). rewrite !app_nil_r. split; [by destruct st|].
    split; [by intros p ?%not_elem_of_nil|]. split; [done|]. split; [|done]. split; [|done].
    intros _. split; [constructor|by intros x ?%not_elem_of_nil]. }
  destruct (IH (lintCall i st id)) as (more & open & seen & E & Hp & Hsub & Hiff & Heq).
  { unfold lintCall. cbn. intros x [Hx| ->]%Arr.elem_of_add; apply Arr.elem_of_add; [left|by right].
    revert Hx. case_bool_decide; cbn; apply Hos. }
  rewrite E. unfold lintCall in Hiff, Heq |- *. case_bool_decide as Hin; cbn in *.
  - exists (atIndex i ("duplicate tool call id " +:+ id) :: more), open, seen. rewrite <- app_assoc.
    split; [done|]. split; [intros p [->|?]%elem_of_cons; eauto|]. split; [done|].
    split; [|done]. split; [done|]. intros [_ H]. destruct (H id (list_elem_of_here _ _) Hin).
  - exists more, open, seen. split; [done|]. split; [done|]. split; [done|].
    assert (id ∉ openCalls st) as Hno by (intros ?%Hos; done).
    assert (Arr.add (openCalls st) id = openCalls st ++ [id]) as Eo by (by apply Arr.add_new).
    assert (Arr.add (seenCallIds st) id = seenCallIds st ++ [id]) as Es by (by apply Arr.add_new).
    split.
    + rewrite Hiff, Es, NoDup_cons. split.
      * intros [Hnd Hd]. split; [split; [|done]|].
        -- intros Hi. apply (Hd id Hi), elem_of_app. right. by apply list_elem_of_singleton.
        -- intros x [->|Hx]%elem_of_cons; [done|]. intros ?. apply (Hd x Hx), elem_of_app. by left.
      * intros [[Hi Hnd] Hd]. split; [done|]. intros x Hx [?|?%list_elem_of_singleton]%elem_of_app; [|by subst].
        apply (Hd x); [by right|done].
    + intros Hm. destruct (Heq Hm) as [-> ->]. rewrite Eo, Es, <- !app_assoc. done.
Qed.

Lemma callIds_assistant m blocks :
  hasRole "assistant" m = true -> contentBlocks m = Some blocks -> callIds m = map fst (omap callOf blocks).
Proof. intros Hr Hb. unfold callIds, callsOf. by rewrite Hr, Hb. Qed.

Lemma callIds_none m : contentBlocks m = None -> callIds m = [].
Proof. intros Hb. unfold callIds, callsOf. rewrite Hb. by destruct (hasRole _ _). Qed.

Lemma answerOf_result m id : answerOf m = Some id -> hasRole "toolResult" m = true /\ toolCallId m = Some id.
Proof. unfold answerOf. by destruct (hasRole "toolResult" m). Qed.

Lemma admits_det m o s o1 s1 o2 s2 : admits m o s o1 s1 -> admits m o s o2 s2 -> o1 = o2 /\ s1 = s2.
Proof.
  intros H1 H2. inversion H1; subst; inversion H2; subst; try done;
    repeat match goal with H : answerOf _ = Some _ |- _ => apply answerOf_result in H as [??] end;
    try (match goal with H : hasRole ?a m = true, H' : hasRole ?b m = true |- _ =>
           pose proof (hasRole_excl _ _ _ H H'); done end).
  simplify_eq. done.
Qed.

(** A round of the check: what it reports, and that it reports nothing exactly
    for the messages that may come next. *)
Definition round (i : nat) (st : lintState) (m : json) (st' : lintState) : Prop :=
  exists more open seen, st' = mkLint (problems st ++ more) open seen
    /\ (forall p, p ∈ more -> exists t, p = atIndex i t)
    /\ (forall x, x ∈ open -> x ∈ seen)
    /\ (more = [] -> admits m (openCalls st) (seenCallIds st) open seen)
    /\ ((exists o s, admits m (openCalls st) (seenCallIds st) o s) -> more = []).

(** A message that may not come next is reported. *)
Lemma round_report i st m mi t open :
  (forall p, p ∈ mi -> exists t, p = atIndex i t) -> (forall x, x ∈ open -> x ∈ seenCallIds st) ->
  (forall o s, ~ admits m (openCalls st) (seenCallIds st) o s) ->
  round i st m (mkLint ((problems st ++ mi) ++ [atIndex i t]) open (seenCallIds st)).
Proof.
  intros Hmi Hos Hno. exists (mi ++ [atIndex i t]), open, (seenCallIds st). rewrite app_assoc.
  split; [done|]. split; [intros p [?|Hp%list_elem_of_singleton]%elem_of_app; eauto|]. split; [done|].
  split; [by intros [_ ?]%app_nil|]. intros (o & s & Ha). by apply Hno in Ha.
Qed.

(** The part of the round that looks at images. *)
Lemma images_spec i st m :
  exists more, match contentBlocks m with Some blocks => lintImages i blocks st | None => st end
      = mkLint (problems st ++ more) (openCalls st) (seenCallIds st)
    /\ (forall p, p ∈ more -> exists t, p = atIndex i t) /\ (more = [] <-> imagesHaveBytes m).
Proof.
  unfold imagesHaveBytes. destruct (contentBlocks m) as [blocks|].
  - destruct (lintImages_spec i blocks st) as (more & -> & Hm & Hp). exists more. split; [done|]. split; [done|].
    rewrite Hm. split; [intros H bs b [= <-]; by apply H|]. intros H b. by apply H.
  - exists []. rewrite app_nil_r. split; [by destruct st|]. split; [by intros p ?%not_elem_of_nil|done].
Qed.

Lemma admits_images m o s o' s' : admits m o s o' s' -> imagesHaveBytes m.
Proof. by destruct 1. Qed.

Lemma admits_role m o s o' s' : admits m o s o' s' ->
  hasRole "user" m = true /\ o = [] \/ hasRole "assistant" m = true /\ (NoDup (callIds m) /\ forall id, id ∈ callIds m -> id ∉ s)
  \/ hasRole "toolResult" m = true /\ exists id, toolCallId m = Some id /\ id ∈ o.
Proof. destruct 1 as [? ? ?|? ? ? ? ? ?|? ? ? Ha ? ?]; [tauto|tauto|]. apply answerOf_result in Ha as [? ?]. eauto 6. Qed.

Section rounds.
Variables (i : nat) (st : lintState) (m : json) (mi : list string).
Hypothesis open_seen : forall x, x ∈ openCalls st -> x ∈ seenCallIds st.
Hypothesis images_at : forall p, p ∈ mi -> exists t, p = atIndex i t.
Hypothesis images_ok : mi = [] <-> imagesHaveBytes m.
Let st1 := mkLint (problems st ++ mi) (openCalls st) (seenCallIds st).

Lemma round_assistant :
  hasRole "assistant" m = true -> round i st m (foldl (lintCall i) st1 (callIds m)).
Proof.
  intros Ea. destruct (lintCalls_spec i (callIds m) st1 open_seen)
    as (mc & open & seen & -> & Hp & Hsub & Hiff & Heq). cbn in *.
  exists (mi ++ mc), open, seen. rewrite app_assoc. split; [done|].
  split; [intros p [?|?]%elem_of_app; eauto|]. split; [done|]. split.
  - intros [Emi Emc]%app_nil. destruct (Heq Emc) as [-> ->]. apply Hiff in Emc as [? ?].
    constructor; [done|by apply images_ok|done..].
  - intros (o & s & Ha). pose proof (admits_images _ _ _ _ _ Ha) as Hi. apply images_ok in Hi as ->. apply Hiff.
    apply admits_role in Ha as [[Hr _]|[[_ H]|[Hr _]]]; [|done|]; by apply (hasRole_excl _ _ _ Ea) in Hr.
Qed.

Lemma round_result :
  hasRole "toolResult" m = true ->
  round i st m
    (let unmatched t := report st1 (atIndex i t) in
     match toolCallId m with
     | Some id => if bool_decide (id ∈ openCalls st1)
                  then mkLint (problems st1) (List.filter (fun x => x !== id) (openCalls st1)) (seenCallIds st1)
                  else unmatched ("toolResult without a preceding open call ("
                                  +:+ json_to_string (json_field "toolCallId" m) +:+ ")")
     | None => unmatched ("toolResult without a preceding open call ("
                          +:+ json_to_string (json_field "toolCallId" m) +:+ ")")
     end).
Proof.
  intros Et.
  assert ((forall id, toolCallId m = Some id -> id ∉ openCalls st) ->
    forall o s, ~ admits m (openCalls st) (seenCallIds st) o s) as Hno.
  { intros Hid o s [[Hr _]|[[Hr _]|(_ & id & ? & ?)]]%admits_role;
      [by apply (hasRole_excl _ _ _ Et) in Hr..|by eapply Hid]. }
  cbn zeta. destruct (toolCallId m) as [id|] eqn:Eid.
  - cbn [openCalls st1]. case_bool_decide as Hin.
    + exists mi, (List.filter (fun x => x !== id) (openCalls st)), (seenCallIds st). split; [done|]. split; [done|].
      split; [intros x [_ ?]%Arr.elem_of_filter; by apply open_seen|].
      split; [intros Hmi%images_ok; apply ad_result; [unfold answerOf; by rewrite Et|done..]|].
      intros (o & s & Ha). by eapply images_ok, admits_images.
    + apply (round_report i st m mi); [done..|]. apply Hno. by intros ? [= <-].
  - apply (round_report i st m mi); [done..|]. by apply Hno.
Qed.

Lemma round_user :
  hasRole "user" m = true ->
  round i st m
    (if negb (openCalls st1 === []) then
       mkLint (problems (report st1 (atIndex i ("user message while " +:+ Str.showZ (Z.of_nat (length (openCalls st1)))
                                                +:+ " tool call(s) await results")))) [] (seenCallIds st1)
     else st1).
Proof.
  intros Eu. cbn [openCalls st1]. case_bool_decide as Hopen; cbn [negb].
  - exists mi, (openCalls st), (seenCallIds st). split; [done|]. split; [done|]. split; [done|]. split.
    + intros Hmi%images_ok. rewrite Hopen. by constructor.
    + intros (o & s & Ha). by eapply images_ok, admits_images.
  - apply (round_report i st m mi); [done|by intros x ?%not_elem_of_nil|].
    intros o s [[_ ?]|[[Hr _]|[Hr _]]]%admits_role; [done|by apply (hasRole_excl _ _ _ Eu) in Hr..].
Qed.
End rounds.

Lemma lintMessage_round i st m :
  (forall x, x ∈ openCalls st -> x ∈ seenCallIds st) -> round i st m (lintMessage i st m).
Proof.
  intros Hos. unfold lintMessage. destruct (negb _ && _ && _) eqn:Eroles.
  { unfold report. rewrite <- (app_nil_r (problems st)) at 1. apply round_report; [by intros p ?%not_elem_of_nil|done|].
    apply andb_true_iff in Eroles as [[Eu Ea]%andb_true_iff Et]. apply negb_true_iff in Eu, Ea, Et.
    intros o s [[? _]|[[? _]|[? _]]]%admits_role; congruence. }
  destruct (images_spec i st m) as (mi & -> & Hmi & Himg).
  destruct (hasRole "assistant" m) eqn:Ea.
  - pose proof (hasRole_ne "assistant" "toolResult" m ltac:(done) Ea) as Et. pose proof (hasRole_ne "assistant" "user" m ltac:(done) Ea) as Eu.
    pose proof (round_assistant i st m mi Hos Hmi Himg Ea) as H. destruct (contentBlocks m) as [blocks|] eqn:Eb.
    + by rewrite (callIds_assistant m blocks) in H.
    + rewrite Et, Eu. by rewrite callIds_none in H.
  - destruct (hasRole "toolResult" m) eqn:Et.
    + pose proof (round_result i st m mi Hos Hmi Himg Et) as H. by destruct (contentBlocks m).
    + destruct (hasRole "user" m) eqn:Eu; [|done].
      pose proof (round_user i st m mi Hos Hmi Himg Eu) as H. by destruct (contentBlocks m).
Qed.

Lemma talk_det o s ms o1 s1 o2 s2 : talk o s ms o1 s1 -> talk o s ms o2 s2 -> o1 = o2 /\ s1 = s2.
Proof.
  intros H. revert o2 s2. induction H as [|m ms o s oa sa o1 s1 Ha Ht IH]; intros o2 s2 H2; inversion H2; subst; [done|].
  match goal with H : admits m o s _ _ |- _ => destruct (admits_det _ _ _ _ _ _ _ Ha H) as [-> ->] end. by apply IH.
Qed.

Lemma talk_app o s ms1 o1 s1 ms2 o2 s2 : talk o s ms1 o1 s1 -> talk o1 s1 ms2 o2 s2 -> talk o s (ms1 ++ ms2) o2 s2.
Proof. induction 1; cbn; [done|]. intros. econstructor; eauto. Qed.

Lemma lintMessages_spec i st ms :
  (forall x, x ∈ openCalls st -> x ∈ seenCallIds st) ->
  exists more open seen, lintMessages i st ms = mkLint (problems st ++ more) open seen
    /\ (forall p, p ∈ more -> exists j t, p = atIndex j t)
    /\ (more = [] -> talk (openCalls st) (seenCallIds st) ms open seen)
    /\ ((exists o s, talk (openCalls st) (seenCallIds st) ms o s) -> more = []).
Proof.
  revert i st. induction ms as [|m ms IH]; intros i st Hos; cbn [lintMessages].
  { exists [], (openCalls st), (seenCallIds st). rewrite app_nil_r. split; [by destruct st|].
    split; [by intros p ?%not_elem_of_nil|]. split; [constructor|done]. }
  destruct (lintMessage_round i st m Hos) as (m1 & o1 & s1 & -> & Hp1 & Hos1 & Ha1 & Hb1).
  destruct (IH (S i) (mkLint (problems st ++ m1) o1 s1) Hos1) as (m2 & o2 & s2 & -> & Hp2 & Ha2 & Hb2). cbn in *.
  exists (m1 ++ m2), o2, s2. rewrite app_assoc. split; [done|].
  split; [intros p [[t ->]%Hp1|?%Hp2]%elem_of_app; eauto|]. split.
  - intros [E1 E2]%app_nil. econstructor; eauto.
  - intros (o & s & Ht). inversion Ht as [|? ? ? ? oa sa ? ? Ha Ht']; subst. rewrite (Hb1 ltac:(eauto)) in *. cbn.
    destruct (admits_det _ _ _ _ _ _ _ Ha (Ha1 eq_refl)) as [-> ->]. eauto.
Qed.

Lemma hasRole_truthy r m : hasRole r m = true -> json_truthy m = true.
Proof. by destruct m. Qed.

Lemma lintFold_parts ms :
  exists more open seen, lintFold ms = (lintFirst ms ++ more) ++
      (if open === [] then [] else ["end: " +:+ Str.showZ (Z.of_nat (length open)) +:+ " dangling tool call(s)"])
    /\ (forall p, p ∈ more -> exists j t, p = atIndex j t)
    /\ (more = [] -> talk [] [] ms open seen) /\ ((exists o s, talk [] [] ms o s) -> more = []).
Proof.
  unfold lintFold. destruct (lintMessages_spec 0 (mkLint (lintFirst ms) [] []) ms) as (more & open & seen & -> & H).
  { by intros x ?%not_elem_of_nil. }
  exists more, open, seen. done.
Qed.

Lemma lintFirst_nil ms o s o' s' :
  talk o s ms o' s' -> lintFirst ms = [] <-> match ms with first :: _ => hasRole "user" first = true | [] => True end.
Proof.
  intros H. destruct H as [|m ms ? ? ? ? ? ? Ha _]; [done|]. unfold lintFirst. split.
  - destruct (hasRole "user" m) eqn:E; [done|].
    apply admits_role in Ha as [[? _]|[[Hr _]|[Hr _]]]; [congruence|by rewrite (hasRole_truthy _ _ Hr)..].
  - intros ->. by rewrite andb_false_r.
Qed.

Lemma lintFold_wellFormed ms : lintFold ms = [] <-> wellFormed ms.
Proof.
  destruct (lintFold_parts ms) as (more & open & seen & -> & _ & Ha & Hb). unfold wellFormed. split.
  - intros [[Hf Hm]%app_nil Ho]%app_nil. specialize (Ha Hm). case_bool_decide as Eo; [|done]. subst open.
    split; [by eapply lintFirst_nil|eauto].
  - intros [Hf [s Ht]]. specialize (Hb ltac:(eauto)). subst more. destruct (talk_det _ _ _ _ _ _ _ Ht (Ha eq_refl)) as [<- <-].
    rewrite (proj2 (lintFirst_nil _ _ _ _ _ Ht) Hf). done.
Qed.

(** ** Healing *)
Definition allCalls (ms : list json) : list string := concat (map callIds ms).
Definition allAnswers (ms : list json) : list string := omap answerOf ms.

Definition unanswered (ms : list json) : list string :=
  List.filter (fun c => negb (bool_decide (c ∈ allAnswers ms))) (allCalls ms).

Lemma missingCalls_ids ms : map fst (missingCalls ms) = unanswered ms.
Proof.
  unfold missingCalls, unanswered, allAnswers, allCalls. generalize (omap answerOf ms) as an. intros an.
  assert (concat (map callIds ms) = map fst (concat (map callsOf ms))) as ->.
  { rewrite concat_map, map_map. done. }
  induction (concat (map callsOf ms)) as [|c l IH]; cbn; [done|]. destruct (negb _); cbn; by rewrite IH.
Qed.

(** What the open calls and the used ids are after a well-formed exchange. *)
Record settled (ms : list json) (open seen : list string) : Prop := mkSettled {
  st_seen : seen = allCalls ms;
  st_open : open = unanswered ms;
  st_nodup : NoDup (allCalls ms);
  st_answers : forall x, x ∈ allAnswers ms -> x ∈ allCalls ms;
}.

Lemma allCalls_snoc ms m : allCalls (ms ++ [m]) = allCalls ms ++ callIds m.
Proof. unfold allCalls. rewrite map_app, concat_app. cbn. by rewrite app_nil_r. Qed.

Lemma allAnswers_snoc ms m : allAnswers (ms ++ [m]) = allAnswers ms ++ match answerOf m with Some a => [a] | None => [] end.
Proof. unfold allAnswers. rewrite omap_app. cbn. by destruct (answerOf m). Qed.

Lemma answerOf_other m r : r <> "toolResult" -> hasRole r m = true -> answerOf m = None.
Proof. intros Hr H. unfold answerOf. by rewrite (hasRole_ne r "toolResult"). Qed.

Lemma callIds_other m r : r <> "assistant" -> hasRole r m = true -> callIds m = [].
Proof. intros Hr H. unfold callIds, callsOf. by rewrite (hasRole_ne r "assistant"). Qed.

Lemma settled_step ms m open seen open' seen' :
  settled ms open seen -> admits m open seen open' seen' -> settled (ms ++ [m]) open' seen'.
Proof.
  intros [Hs Ho Hn Ha] Hm.
  destruct Hm as [seen Hr Hi|open seen Hr Hi Hnd Hfresh|open seen id Hid Hi Hin].
  - split; unfold unanswered; rewrite allCalls_snoc, ?allAnswers_snoc, (callIds_other m "user"), ?(answerOf_other m "user"), !app_nil_r; done.
  - assert (answerOf m = None) as Hno by (by apply (answerOf_other m "assistant")).
    split; unfold unanswered; rewrite allCalls_snoc, ?allAnswers_snoc, ?Hno, ?app_nil_r.
    + by rewrite Hs.
    + rewrite List.filter_app, Ho. f_equal. symmetry. apply Arr.filter_all. intros x Hx. apply negb_true_iff, bool_decide_eq_false.
      intros ?%Ha. apply (Hfresh x Hx). by rewrite Hs.
    + apply NoDup_app. split; [done|]. split; [|done]. intros x Hx Hc. apply (Hfresh x Hc). by rewrite Hs.
    + intros x ?%Ha. apply elem_of_app. by left.
  - pose proof (answerOf_result _ _ Hid) as [Hr _].
    split; unfold unanswered; rewrite allCalls_snoc, ?allAnswers_snoc, (callIds_other m "toolResult"), ?Hid, ?app_nil_r; try done.
    + rewrite Ho. unfold unanswered. rewrite Arr.filter_filter. apply Arr.filter_ext. intros x _.
      apply eq_true_iff_eq. rewrite andb_true_iff, !negb_true_iff, !bool_decide_eq_false, elem_of_app, list_elem_of_singleton. tauto.
    + intros x [?%Ha|Hx%list_elem_of_singleton]%elem_of_app; [done|]. subst x open. by apply Arr.elem_of_filter in Hin as [_ ?].
Qed.

Lemma talk_settled ms : forall p o s o' s', settled p o s -> talk o s ms o' s' -> settled (p ++ ms) o' s'.
Proof.
  induction ms as [|m ms IH]; intros p o s o' s' Hp Ht; inversion Ht; subst; [by rewrite app_nil_r|].
  rewrite cons_middle, app_assoc. eapply IH; [|done]. by eapply settled_step.
Qed.

Lemma settled_nil : settled [] [] [].
Proof. by split; try constructor. Qed.

(** Results for exactly the open calls close them. *)
Lemma talk_heal l at_ seen :
  NoDup (map fst l) -> talk (map fst l) seen (map (fun c => interruptedResult c.1 c.2 at_) l) [] seen.
Proof.
  induction l as [|[id name] l IH]; cbn [map]; [constructor|]. intros [Hid Hnd]%NoDup_cons. cbn [fst snd] in *.
  apply (talk_cons _ _ _ _ (List.filter (fun x => x !== id) (id :: map fst l)) seen).
  - apply ad_result; [done| |by left]. intros blocks b [= <-] ->%list_elem_of_singleton. done.
  - cbn. rewrite bool_decide_eq_true_2 by done. cbn. rewrite Arr.filter_all; [by apply IH|].
    intros x Hx. apply negb_true_iff, bool_decide_eq_false. by intros ->.
Qed.

(** Healing repairs what a restart cut off.  When the check finds nothing
    wrong with a conversation but unanswered tool calls at its end, healing it
    makes it pass the check and only appends to it; and a conversation that
    passes the check is left as it is. *)
Theorem heal_repairs_fold (rows : list Tape.t) (folded : list json) (at_ : Z) :
  foldTape rows = Ok folded ->
  (tapeNeedsInterruptHeal rows None = Ok true -> lintOk (healFoldInterrupt folded at_) = true
     /\ exists results, healFoldInterrupt folded at_ = folded ++ results
        /\ forall m, m ∈ results -> hasRole "toolResult" m = true)
  /\ (lintOk folded = true -> healFoldInterrupt folded at_ = folded).
Proof.
  intros Hfold. unfold tapeNeedsInterruptHeal, lintOk, healFoldInterrupt, healDanglingCalls. rewrite Hfold. cbn [obind].
  destruct (lintFold_parts folded) as (more & open & seen & E & Hmore & Ha & Hb). split.
  - intros [= [Hne Hall]%andb_true_iff]. rewrite E in Hne, Hall. rewrite !forallb_app, !andb_true_iff in Hall.
    destruct Hall as [[Hf Hm] _].
    assert (more = []) as ->.
    { destruct more as [|p more]; [done|]. destruct (Hmore p (list_elem_of_here _ _)) as (j & t & ->). done. }
    specialize (Ha eq_refl). assert (lintFirst folded = []) as Hfirst.
    { unfold lintFirst in *. destruct folded as [|x l]; [done|]. by destruct (json_truthy x && _). }
    rewrite Hfirst in Hne. cbn in Hne.
    destruct (talk_settled folded [] [] [] open seen settled_nil Ha) as [Hs Ho Hn _]. cbn [app] in *.
    split; [|eexists; split; [done|]; intros m (c & -> & _)%list_elem_of_fmap; done].
    apply bool_decide_eq_true, lintFold_wellFormed. split.
    + apply (lintFirst_nil _ _ _ _ _ Ha) in Hfirst. destruct folded as [|x l]; [|done].
      cbn in Ho. subst open. by case_bool_decide.
    + exists seen. eapply talk_app; [exact Ha|]. rewrite Ho, <- missingCalls_ids. apply talk_heal.
      rewrite missingCalls_ids. apply Arr.NoDup_filter, Hn.
  - intros Hok%bool_decide_eq_true. rewrite E in Hok. apply app_nil in Hok as [[_ Hm]%app_nil Ho].
    destruct (talk_settled folded [] [] [] open seen settled_nil (Ha Hm)) as [_ Hop _ _]. cbn [app] in *.
    case_bool_decide as Eo; [|done]. rewrite Eo, <- missingCalls_ids in Hop. destruct (missingCalls folded); [|done].
    by rewrite app_nil_r.
Qed.

(** C31: the check is exact.  It passes precisely the conversations that are well
    formed: a user message first, only the three roles, every image with its
    bytes, fresh ids for tool calls, a result only for an open call, no user
    message while calls are open and none open at the end.  And a session is
    resumed from its tape exactly when the mode is to serve, no message comes
    from another harness, and the fold is well formed and not empty; what is
    served is then the fold. *)
Theorem tape_check_exact (rows : list Tape.t) (harness : string) (mode : option TapeMode) (ms : list json) :
  (lintOk ms = true <-> wellFormed ms)
  /\ ((exists plan, planTapeSeed rows harness mode None = Ok plan /\ seed plan = Some ms)
      <-> mode = Some tape_serve /\ foldTape rows = Ok ms /\ ms <> [] /\ wellFormed ms
          /\ forall r h, r ∈ rows -> tapeKind r = t_message -> Tape.harness (Tape.rec r) = Some h -> h = harness).
Proof.
  unfold lintOk. split; [by rewrite bool_decide_eq_true, lintFold_wellFormed|].
  unfold planTapeSeed. destruct (existsb _ rows) eqn:E.
  - split; [by intros (? & [= <-] & ?)|]. intros (_ & _ & _ & _ & H).
    apply Arr.existsb_elem in E as (r & Hr & E). js_bool. destruct (Tape.harness (Tape.rec r)) as [h|] eqn:Eh; [|done].
    js_bool. destruct_and?; js_bool. naive_solver.
  - rewrite Arr.existsb_false in E. split.
    + destruct (foldTape rows) as [f|e]; cbn; [|by intros (? & ? & ?)]. intros (? & [= <-] & Hs). cbn in Hs.
      destruct (_ && _) eqn:Ec; [|done]. injection Hs as ->. js_bool. destruct_and?; js_bool.
      split; [done|]. split; [done|]. split; [done|]. split; [by apply lintFold_wellFormed|].
      intros r h Hr Hk Hh. specialize (E r Hr). rewrite Hk, Hh, bool_decide_eq_true_2 in E by done. cbn [andb] in E. by js_bool.
    + intros (-> & -> & Hne & Hw & _). cbn. eexists. split; [done|]. cbn. apply lintFold_wellFormed in Hw. rewrite Hw.
      by rewrite !bool_decide_eq_true_2, bool_decide_eq_false_2 by done.
Qed.
End lint.

(** ** Images *)
Definition ELIDED_IMAGE_TEXT : string :=
  "[image removed: this conversation's images no longer fit the model's request-size limit; ask for it to be re-shared if needed]".

Module Image.
Record t := mk { data : string; mimeType : string; sizeBytes : Z }.
End Image.

Inductive Loaded := loaded (image : Image.t) | over_budget | not_loaded.

Definition isImage (b : json) : bool := json_is_str "image" (json_field "type" b).
Definition hasData (b : json) : bool := match json_field "data" b with JStr _ => true | _ => false end.
Definition artifactRef (b : json) : option string := json_str (json_field "artifactRef" b).

(** The artifact a stripped image block refers to. *)
Definition stripped (b : json) : option string :=
  if isImage b && negb (hasData b) then artifactRef b else None.

Definition isOmitted (b : json) : bool :=
  isImage b && negb (hasData b) && bool_decide (artifactRef b = None) && json_is_true (json_field "omitted" b).

(** [{ ...rest, data, mimeType }]: overwritten fields keep their place, new ones
    come last. *)
Definition setField (k : string) (v : json) (fields : list (string * json)) : list (string * json) :=
  if existsb (fun p => p.1 === k) fields
  then map (fun p => if p.1 === k then (k, v) else p) fields else fields ++ [(k, v)].

Definition inlineImage (block : json) (image : Image.t) : json :=
  match block with
  | JObj fields =>
      let rest := List.filter (fun p => (p.1 !== "artifactRef") && (p.1 !== "omitted")) fields in
      JObj (setField "mimeType" (JStr (Image.mimeType image)) (setField "data" (JStr (Image.data image)) rest))
  | _ => block
  end.

(** What happens to a stripped block. *)
Inductive Swap := swap_image (image : Image.t) | swap_elide | swap_none.

Definition swapBlock (block : json) (s : Swap) : json :=
  match s with
  | swap_image image => inlineImage block image
  | swap_elide => textBlock ELIDED_IMAGE_TEXT
  | swap_none => block
  end.

Record imageState := mkImages { cached : jmap string Loaded; remainingBytes : Z }.

Section images.
(** [load] is the caller's; here it does not throw, as the caller catches. *)
Variable load : string -> Z -> Loaded.

(** One round of the loop over the stripped blocks, from the last one up. *)
Definition decideImage (st : imageState) (block : json) (ref : string) : Swap * imageState :=
  let budgetSpent := remainingBytes st <=? 0 in
  let '(found, cache) :=
    if budgetSpent then (not_loaded, cached st)
    else match JMap.get (cached st) ref with
         | Some l => (l, cached st)
         | None => let l := load ref (remainingBytes st) in (l, JMap.set (cached st) ref l)
         end in
  let tooBig := match found with
                | loaded image => remainingBytes st <? Image.sizeBytes image
                | over_budget => true
                | not_loaded => false
                end in
  match found with
  | loaded image =>
      if (0 <? Image.sizeBytes image) && (Image.sizeBytes image <=? remainingBytes st)
         && json_is_str (Image.mimeType image) (json_field "mimeType" block)
      then (swap_image image, mkImages cache (remainingBytes st - Image.sizeBytes image))
      else ((if budgetSpent || tooBig then swap_elide else swap_none), mkImages cache (remainingBytes st))
  | _ => ((if budgetSpent || tooBig then swap_elide else swap_none), mkImages cache (remainingBytes st))
  end.

(** The blocks of a message from the last one up, with what becomes of each. *)
Definition swapOne (b : json) (acc : list (json * Swap) * imageState) : list (json * Swap) * imageState :=
  match stripped b with
  | Some ref => let '(s, st) := decideImage acc.2 b ref in ((b, s) :: acc.1, st)
  | None => ((b, if isOmitted b then swap_elide else swap_none) :: acc.1, acc.2)
  end.

Definition swapBlocks (blocks : list json) (st : imageState) : list (json * Swap) * imageState :=
  foldr swapOne ([], st) blocks.

(** The messages from the last one up: the swaps of those with an array of blocks. *)
Definition swapMessage (m : json) (acc : list (json * option (list (json * Swap))) * imageState)
    : list (json * option (list (json * Swap))) * imageState :=
  match contentBlocks m with
  | Some blocks => let '(swaps, st) := swapBlocks blocks acc.2 in ((m, Some swaps) :: acc.1, st)
  | None => ((m, None) :: acc.1, acc.2)
  end.

Definition swapMessages (messages : list json) (st : imageState)
    : list (json * option (list (json * Swap))) * imageState :=
  foldr swapMessage ([], st) messages.

Definition isSwap (s : Swap) : bool := match s with swap_none => false | _ => true end.

Definition setContent (m : json) (content : list json) : json :=
  match m with JObj fields => JObj (setField "content" (JArr content) fields) | _ => m end.

Definition rebuild (p : json * option (list (json * Swap))) : json :=
  match p.2 with
  | Some swaps =>
      if existsb (fun s => isSwap s.2) swaps
      then setContent p.1 (map (fun s => swapBlock s.1 s.2) swaps) else p.1
  | None => p.1
  end.

Definition rehydrateFoldImages (messages : list json) (maxBytes : Z) : list json :=
  map rebuild (swapMessages messages (mkImages [] maxBytes)).1.

(** The bytes of the images that were put back. *)
Definition swapBytes (s : Swap) : Z := match s with swap_image image => Image.sizeBytes image | _ => 0 end.
Definition messageBytes (p : json * option (list (json * Swap))) : Z :=
  match p.2 with Some swaps => foldr (fun s n => swapBytes s.2 + n) 0 swaps | None => 0 end.
Definition inlinedBytes (l : list (json * option (list (json * Swap)))) : Z :=
  foldr (fun p n => messageBytes p + n) 0 l.

Lemma decideImage_bytes st block ref s st' :
  decideImage st block ref = (s, st') -> 0 <= remainingBytes st ->
  0 <= remainingBytes st' /\ remainingBytes st' + swapBytes s = remainingBytes st /\ 0 <= swapBytes s.
Proof.
  unfold decideImage. destruct (if _ <=? 0 then _ else _) as [found cache].
  destruct found as [image| |].
  - destruct (_ && _ && _) eqn:E.
    + js_bool. intros [= <- <-] _. cbn. lia.
    + destruct (_ || _); intros [= <- <-] ?; cbn; lia.
  - destruct (_ || _); intros [= <- <-] ?; cbn; lia.
  - destruct (_ || _); intros [= <- <-] ?; cbn; lia.
Qed.

Lemma swapBlocks_spec blocks st swaps st' :
  swapBlocks blocks st = (swaps, st') -> 0 <= remainingBytes st ->
  map fst swaps = blocks /\ 0 <= remainingBytes st' /\ 0 <= foldr (fun s n => swapBytes s.2 + n) 0 swaps
  /\ remainingBytes st' + foldr (fun s n => swapBytes s.2 + n) 0 swaps = remainingBytes st
  /\ forall b s, (b, s) ∈ swaps -> isSwap s = true -> isImage b = true /\ hasData b = false.
Proof.
  unfold swapBlocks. revert swaps st'. induction blocks as [|b blocks IH]; intros swaps st' H Hst; cbn [foldr] in H.
  { injection H as <- <-. cbn. split_and!; try done; [lia|]. by intros b s ?%not_elem_of_nil. }
  destruct (foldr swapOne ([], st) blocks) as [acc st1]. destruct (IH acc st1 eq_refl Hst) as (Hm & Hr & H0 & Hs & Hi).
  unfold swapOne in H. cbn [fst snd] in H. unfold stripped in H. destruct (isImage b && negb (hasData b)) eqn:Ei.
  - apply andb_true_iff in Ei as [Ei Ed%negb_true_iff].
    destruct (artifactRef b) as [ref|].
    + destruct (decideImage st1 b ref) as [s st2] eqn:Ed2. injection H as <- <-.
      apply decideImage_bytes in Ed2 as (? & ? & ?); [|done]. cbn. rewrite Hm. split_and!; try done; try lia.
      intros b' s' [[= -> ->]|?]%elem_of_cons; eauto.
    + injection H as <- <-. cbn. rewrite Hm. split_and!; try done; try (destruct (isOmitted b); cbn; lia).
      intros b' s' [[= -> ->]|?]%elem_of_cons; eauto.
  - injection H as <- <-. cbn. assert (isOmitted b = false) as -> by (unfold isOmitted; by rewrite Ei).
    rewrite Hm. split_and!; try done. intros b' s' [[= -> ->]|?]%elem_of_cons; [done|eauto].
Qed.

Lemma swapMessages_spec messages st l st' :
  swapMessages messages st = (l, st') -> 0 <= remainingBytes st ->
  map fst l = messages /\ 0 <= remainingBytes st' /\ 0 <= inlinedBytes l
  /\ remainingBytes st' + inlinedBytes l = remainingBytes st
  /\ forall m swaps, (m, Some swaps) ∈ l -> contentBlocks m = Some (map fst swaps)
      /\ forall b s, (b, s) ∈ swaps -> isSwap s = true -> isImage b = true /\ hasData b = false.
Proof.
  unfold swapMessages. revert l st'. induction messages as [|m messages IH]; intros l st' H Hst; cbn [foldr] in H.
  { injection H as <- <-. cbn. split_and!; try done; [lia|]. by intros m s ?%not_elem_of_nil. }
  destruct (foldr swapMessage ([], st) messages) as [acc st1].
  destruct (IH acc st1 eq_refl Hst) as (Hm & Hr & H0 & Hs & Hi).
  unfold swapMessage in H. cbn [fst snd] in H. destruct (contentBlocks m) as [blocks|] eqn:Eb.
  - destruct (swapBlocks blocks st1) as [swaps st2] eqn:Es. injection H as <- <-.
    destruct (swapBlocks_spec _ _ _ _ Es Hr) as (Hf & ? & ? & ? & Hsw). cbn. rewrite Hm.
    unfold inlinedBytes, messageBytes in *. cbn in *. split_and!; try done; try lia.
    intros m' s' [[= -> ->]|?]%elem_of_cons; [by rewrite Eb, Hf|by apply Hi].
  - injection H as <- <-. cbn. rewrite Hm. split_and!; try done. intros m' s' [[=]|?]%elem_of_cons. by apply Hi.
Qed.
End images.

(** ** Facts about the audience filter of the tape *)
(** The payloads of the message records. *)
Definition talkOf (rows : list Tape.t) : list json := map tapePayload (List.filter (fun r => tapeKind r === t_message) rows).

(** A record whose result was withheld from the audience. *)
Definition standIn (r r' : Tape.t) : Prop :=
  exists id name, answerOf (tapePayload r) = Some id /\ r' = withPayload r (interruptedResult id (JStr name) (Tape.createdAt r))
    /\ (json_field "toolName" (tapePayload r) = JStr name \/ name = "tool").

Lemma filterRow_cases audience sess orgS r :
  filterRow audience sess orgS r = [r]
    /\ (tapeKind r <> t_message \/ allEntitled audience (tapeLabel r) sess orgS = true)
  \/ (exists r', filterRow audience sess orgS r = [r'] /\ standIn r r' /\ tapeKind r = t_message)
  \/ filterRow audience sess orgS r = [] /\ tapeKind r = t_message /\ answerOf (tapePayload r) = None.
Proof.
  unfold filterRow. case_bool_decide as Ek; cbn [negb orb]; [|by left; auto].
  destruct (allEntitled _ _ _ _) eqn:Ea; [by left; auto|]. unfold standIn, answerOf.
  destruct (hasRole "toolResult" (tapePayload r)) eqn:Er; [|by right; right].
  destruct (toolCallId (tapePayload r)) as [id|] eqn:Ei; [|by right; right].
  right; left. eexists. split; [done|]. split; [|done]. exists id.
  destruct (json_field "toolName" (tapePayload r)) eqn:En; eexists; split_and!; try done; eauto.
Qed.

Lemma filterRow_answers audience sess orgS r :
  omap answerOf (talkOf (filterRow audience sess orgS r)) = omap answerOf (talkOf [r]).
Proof.
  destruct (filterRow_cases audience sess orgS r) as [[-> _]|[(r' & -> & (id & name & Ha & -> & _) & Hk)|(-> & Hk & Ha)]];
    [done| |]; unfold talkOf; cbn [List.filter].
  - unfold tapeKind in *. cbn. rewrite Hk, bool_decide_eq_true_2 by done. cbn. by rewrite Ha.
  - rewrite Hk, bool_decide_eq_true_2 by done. cbn. by rewrite Ha.
Qed.

Lemma talkOf_app l1 l2 : talkOf (l1 ++ l2) = talkOf l1 ++ talkOf l2.
Proof. unfold talkOf. by rewrite List.filter_app, map_app. Qed.

(** ** Facts about folding *)
(** The marks point into the messages, in order. *)
Definition marksOk (f : Foldable) : Prop :=
  StronglySorted (fun a b => (b_pos a <= b_pos b)%nat) (boundaries f)
  /\ forall b, b ∈ boundaries f -> (b_pos b <= length (out f))%nat.

Lemma marksOk_grow f ms marks :
  marksOk f -> marks = [] \/ (exists q, marks = [mkBoundary (length (out f ++ ms)) q]) ->
  marksOk (mkFoldable (out f ++ ms) (boundaries f ++ marks)).
Proof.
  intros [Hs Hb] Hm. split; cbn.
  - destruct Hm as [->|(q & ->)]; [by rewrite app_nil_r|]. apply Arr.sorted_snoc; [done|]. intros y Hy. cbn.
    rewrite length_app. specialize (Hb y Hy). lia.
  - intros b [Hi|Hi]%elem_of_app; [rewrite length_app; specialize (Hb b Hi); lia|].
    destruct Hm as [->|(q & ->)]; [by apply not_elem_of_nil in Hi|]. apply list_elem_of_singleton in Hi. by subst b.
Qed.

Lemma marksOk_compaction text covers at_ f : marksOk f -> marksOk (foldCompaction text covers at_ f).
Proof.
  intros [Hs Hb]. unfold foldCompaction. destruct (match covers with Some q => _ | None => None end) as [c|].
  - split; cbn.
    + eapply Arr.sorted_map; [|by apply Arr.sorted_filter]. cbn. lia.
    + intros b (x & -> & [Hp Hx]%Arr.elem_of_filter)%list_elem_of_fmap. cbn. specialize (Hb x Hx).
      rewrite length_drop. apply Nat.leb_le in Hp. lia.
  - split; cbn.
    + eapply Arr.sorted_map; [|done]. cbn. lia.
    + intros b (x & -> & Hx)%list_elem_of_fmap. cbn. specialize (Hb x Hx). lia.
Qed.

Lemma markBoundary_shape covers f :
  markBoundary covers f = [] \/ exists q, markBoundary covers f = [mkBoundary (length (out f)) q].
Proof. destruct covers; cbn; eauto. Qed.

Lemma marksOk_nil : marksOk (mkFoldable [] []).
Proof. split; [constructor|by intros ? ?%not_elem_of_nil]. Qed.

Lemma foldRow_marks f row g : marksOk f -> foldRow f row = Ok g -> marksOk g.
Proof.
  intros Hf. assert (forall ms, marksOk (mkFoldable (out f ++ ms) (boundaries f))) as Hgrow.
  { intros ms. rewrite <- (app_nil_r (boundaries f)). apply marksOk_grow; [done|by left]. }
  unfold foldRow. destruct (tapeKind row) eqn:Ek.
  3: { destruct (json_is_true _); [|by intros [= <-]]. destruct (Tape.entrySeq _) as [q|]; [|by intros [= <-]].
       intros [= <-]. pose proof (marksOk_grow f [] [mkBoundary (length (out f)) q] Hf) as H.
       rewrite app_nil_r in H. apply H. right. by exists q. }
  all: destruct (contextEvent row) as [[text|messages|messages|]|].
  all: try (intros [= <-]; by apply marksOk_compaction).
  all: try (intros [= <-]; by apply Hgrow).
  all: try (destruct (eventMessages messages) as [ms|e]; cbn [obind]; [|done]; intros [= <-]).
  all: try by apply marksOk_grow, markBoundary_shape.
  all: try (apply (marksOk_grow (mkFoldable [] []) ms); [apply marksOk_nil|apply markBoundary_shape]).
  all: destruct (tapePayload row); intros [= <-]; try done; apply Hgrow.
Qed.

Lemma foldRows_marks rows : forall f g, marksOk f -> foldRows f rows = Ok g -> marksOk g.
Proof.
  induction rows as [|row rows IH]; cbn; intros f g Hf; [by intros [= <-]|].
  destruct (foldRow f row) as [f'|] eqn:E; cbn; [|done]. apply IH. by eapply foldRow_marks.
Qed.

Lemma foldRows_app rows1 rows2 f : foldRows f (rows1 ++ rows2) = let! g := foldRows f rows1 in foldRows g rows2.
Proof. revert f. induction rows1 as [|r rows1 IH]; intros f; cbn; [done|]. destruct (foldRow f r); cbn; [apply IH|done]. Qed.

(** ** Properties *)
(** Images fit.  The images put back into a conversation never exceed the
    byte budget together; no message is lost, added or moved; and the only blocks
    that change are images that had no bytes. *)
Theorem rehydrated_images_fit (load : string -> Z -> Loaded) (messages : list json) (maxBytes : Z) :
  0 <= maxBytes ->
  exists swaps, rehydrateFoldImages load messages maxBytes = map rebuild swaps
    /\ map fst swaps = messages
    /\ 0 <= inlinedBytes swaps <= maxBytes
    /\ forall m blocks, (m, Some blocks) ∈ swaps ->
         contentBlocks m = Some (map fst blocks)
         /\ forall b s, (b, s) ∈ blocks -> swapBlock b s <> b -> isImage b = true /\ hasData b = false.
Proof.
  intros Hmax. unfold rehydrateFoldImages.
  destruct (swapMessages load messages (mkImages [] maxBytes)) as [l st] eqn:E.
  destruct (swapMessages_spec _ _ _ _ _ E Hmax) as (Hf & Hr & H0 & Hb & Hi). cbn in Hb. exists l.
  split_and!; try done; [lia|]. intros m blocks [Hc Hs]%Hi. split; [done|].
  intros b s Hin Hne. apply (Hs b s Hin). by destruct s.
Qed.

Lemma rehydrated_images_fit_witness :
  exists swaps, rehydrateFoldImages (fun _ _ => loaded (Image.mk "d" "image/png" 7))
      [JObj [("role", JStr "user"); ("content", JArr
        [JObj [("type", JStr "image"); ("artifactRef", JStr "a"); ("mimeType", JStr "image/png")]])]] 7
      = map rebuild swaps /\ 0 <= inlinedBytes swaps <= 7.
Proof.
  destruct (rehydrated_images_fit (fun _ _ => loaded (Image.mk "d" "image/png" 7))
    [JObj [("role", JStr "user"); ("content", JArr
        [JObj [("type", JStr "image"); ("artifactRef", JStr "a"); ("mimeType", JStr "image/png")]])]] 7
    ltac:(lia)) as (swaps & E & _ & Hb & _).
  exists swaps. split; [exact E|exact Hb].
Defined.

(** Records that everybody present may see: those that are not messages, and the
    messages under a label all are entitled to. *)
Definition visibleRow (audience : list Principal.t) (sess orgS : ScopeId) (r : Tape.t) : bool :=
  (tapeKind r !== t_message) || allEntitled audience (tapeLabel r) sess orgS.

Lemma filterRow_visible audience sess orgS r : visibleRow audience sess orgS r = true -> filterRow audience sess orgS r = [r].
Proof. unfold visibleRow, filterRow. by intros ->. Qed.

Lemma visible_kept audience sess orgS rows :
  List.filter (visibleRow audience sess orgS) rows `sublist_of` concat (map (filterRow audience sess orgS) rows).
Proof.
  induction rows as [|r rows IH]; cbn; [done|]. destruct (visibleRow audience sess orgS r) eqn:E.
  - rewrite (filterRow_visible _ _ _ _ E). by apply sublist_skip.
  - by apply sublist_inserts_l.
Qed.

Lemma filtered_rows audience sess orgS rows :
  let shown := concat (map (filterRow audience sess orgS) rows) in
  Forall (fun r' => tapeKind r' <> t_message \/ allEntitled audience (tapeLabel r') sess orgS = true
                    \/ exists r, r ∈ rows /\ standIn r r') shown
  /\ map Tape.seq shown `sublist_of` map Tape.seq rows
  /\ List.filter (fun r => tapeKind r !== t_message) shown = List.filter (fun r => tapeKind r !== t_message) rows
  /\ omap answerOf (talkOf shown) = omap answerOf (talkOf rows).
Proof.
  cbv zeta.
  induction rows as [|r rows IH]; cbn [map concat]; [by split_and!|].
  destruct IH as (IH1 & IH2 & IH3 & IH4). pose proof (filterRow_answers audience sess orgS r) as Ha.
  rewrite map_app, List.filter_app, !talkOf_app, omap_app, IH3, IH4, Ha.
  assert (talkOf (r :: rows) = talkOf [r] ++ talkOf rows) as -> by apply (talkOf_app [r] rows). rewrite omap_app.
  assert (Forall (fun r' => tapeKind r' <> t_message \/ allEntitled audience (tapeLabel r') sess orgS = true
                    \/ exists r0, r0 ∈ r :: rows /\ standIn r0 r')
            (concat (map (filterRow audience sess orgS) rows))) as Hrest.
  { eapply Forall_impl; [exact IH1|]. cbn. intros x [?|[?|(y & ? & ?)]]; [by left|by right; left|].
    right; right. exists y. split; [by right|done]. }
  destruct (filterRow_cases audience sess orgS r) as [[-> Hv]|[(r' & -> & Hs & Hk)|(-> & Hk & _)]].
  - split_and!; try done; [constructor; [tauto|done]|by apply sublist_skip|by cbn; destruct (negb _)].
  - pose proof Hs as (id & name & _ & Er & _). split_and!; try done.
    + constructor; [|done]. right; right. exists r. split; [by left|done].
    + rewrite Er. by apply sublist_skip.
    + subst r'. unfold tapeKind in *. cbn. by rewrite Hk.
  - split_and!; try done; [by apply sublist_cons|]. cbn. by rewrite Hk.
Qed.

(** C27: the filtered tape is safe and whole.  For the people present, every
    message record of the result carries a label all of them are entitled to, or
    is the stand-in for a tool result, with nothing of its content; every record
    they may see, message or not, is kept as it is, once and in its place; the order
    is kept; the same calls are answered in the same order, so that no call loses its
    result.  Nobody present, nothing shown. *)
Theorem tape_filter_safe (rows : list Tape.t) (p : Principal.t) (ps : list Principal.t) (sess orgS : ScopeId) :
  let shown := filterTapeForAudience rows (p :: ps) sess orgS in
  Forall (fun r' => tapeKind r' <> t_message \/ allEntitled (p :: ps) (tapeLabel r') sess orgS = true
                    \/ exists r, r ∈ rows /\ standIn r r') shown
  /\ List.filter (visibleRow (p :: ps) sess orgS) rows `sublist_of` shown
  /\ map Tape.seq shown `sublist_of` map Tape.seq rows
  /\ List.filter (fun r => tapeKind r !== t_message) shown = List.filter (fun r => tapeKind r !== t_message) rows
  /\ omap answerOf (talkOf shown) = omap answerOf (talkOf rows)
  /\ filterTapeForAudience rows [] sess orgS = [].
Proof.
  cbn [filterTapeForAudience]. destruct (filtered_rows (p :: ps) sess orgS rows) as (H1 & H2 & H3 & H4).
  split_and!; [done|apply visible_kept|done..].
Qed.

(** A compaction replaces exactly what it covers.  The fold of a tape that
    ends in a summary covering the log up to entry [q] is the summary followed by
    the messages after the last mark that lies at or below [q]: the messages kept
    start at such a mark (or nothing is dropped), and no such mark lies later. *)
Theorem compaction_cut (rows : list Tape.t) (f : Foldable) (row : Tape.t) (text : json) (q : Z) :
  foldRows (mkFoldable [] []) rows = Ok f ->
  contextEvent row = Some (ev_compaction text) -> Tape.coversEntrySeq (Tape.rec row) = Some q ->
  exists dropped kept, out f = dropped ++ kept
    /\ foldTape (rows ++ [row]) = Ok (summaryMessage text (Tape.createdAt row) :: kept)
    /\ (dropped = [] \/ exists b, b ∈ boundaries f /\ b_entrySeq b <= q /\ b_pos b = length dropped)
    /\ forall b, b ∈ boundaries f -> b_entrySeq b <= q -> (b_pos b <= length dropped)%nat.
Proof.
  intros Hf Hev Hq. destruct (foldRows_marks _ _ _ marksOk_nil Hf) as [Hs Hb].
  assert (tapeKind row = t_context_event) as Hk.
  { unfold contextEvent in Hev. by case_bool_decide. }
  unfold foldTape. rewrite foldRows_app, Hf. cbn [obind foldRows]. unfold foldRow. rewrite Hk, Hev, Hq. cbn [obind].
  unfold foldCompaction. destruct (List.find _ _) as [c|] eqn:Ec; cbn [out].
  - apply Arr.find_reverse_split in Ec as (l1 & l2 & El & Hc%Z.leb_le & Hl2).
    assert (c ∈ boundaries f) as Hin by (rewrite El; apply elem_of_app; right; left).
    exists (take (b_pos c) (out f)), (drop (b_pos c) (out f)). specialize (Hb c Hin) as Hlen.
    rewrite take_drop, length_take_le by done. split_and!; try done; [right; by exists c|].
    intros b Hbin Hbq. rewrite El in Hbin. apply elem_of_app in Hbin as [Hbin|[->|Hbin]%elem_of_cons]; [|done|].
    + rewrite El in Hs. apply (Arr.sorted_before _ _ _ _ Hs b Hbin).
    + apply Hl2, Z.leb_gt in Hbin. lia.
  - exists [], (out f). split_and!; try done; [by left|]. intros b Hbin Hbq.
    assert ((b_entrySeq b <=? q) = false) as H%Z.leb_gt; [|lia].
    apply (Arr.find_none (fun b => b_entrySeq b <=? q) (reverse (boundaries f))); [done|]. by apply elem_of_reverse.
Qed.

Lemma compaction_cut_witness :
  let message n := Tape.mk (Tape.mkNew t_message (JNum n) "org:acme" None JUndefined None None) "s" n n in
  let mark := Tape.mk (Tape.mkNew t_annotation (JObj [("turnEnd", JBool true)]) "org:acme" None JUndefined (Some 4) None) "s" 3 3 in
  let summary := Tape.mk (Tape.mkNew t_context_event (JObj [("event", JStr "compaction"); ("text", JStr "sum")])
                   "org:acme" None JUndefined None (Some 4)) "s" 5 5 in
  exists dropped kept, [JNum 1; JNum 4] = dropped ++ kept
    /\ foldTape ([message 1; mark; message 4] ++ [summary]) = Ok (summaryMessage (JStr "sum") 5 :: kept).
Proof.
  intros message mark summary.
  destruct (compaction_cut [message 1; mark; message 4] (mkFoldable [JNum 1; JNum 4] [mkBoundary 1 4])
              summary (JStr "sum") 4 ltac:(vm_compute; reflexivity) ltac:(vm_compute; reflexivity)
              ltac:(reflexivity)) as (dropped & kept & E & F & _).
  exists dropped, kept. split; [exact E|exact F].
Defined.

Lemma heal_repairs_fold_witness :
  let call := JObj [("role", JStr "assistant"); ("content", JArr [JObj [("type", JStr "toolCall"); ("id", JStr "c")]])] in
  let hello := JObj [("role", JStr "user"); ("content", JStr "hello")] in
  let rows := map (fun m => Tape.mk (Tape.mkNew t_message m "org:acme" None JUndefined None None) "s" 1 1) [hello; call] in
  lintOk json_to_string (healFoldInterrupt [hello; call] 9) = true.
Proof.
  intros call hello rows.
  apply (heal_repairs_fold json_to_string rows [hello; call] 9); vm_compute; reflexivity.
Defined.

Lemma tape_check_exact_witness :
  let hello := JObj [("role", JStr "user"); ("content", JStr "hello")] in
  let row := Tape.mk (Tape.mkNew t_message hello "org:acme" None JUndefined None None) "s" 1 1 in
  exists plan, planTapeSeed json_to_string [row] "pi" (Some tape_serve) None = Ok plan /\ seed plan = Some [hello].
Proof.
  intros hello row.
  destruct (tape_check_exact json_to_string [row] "pi" (Some tape_serve) [hello]) as [Hl Hs].
  apply Hs. split_and!; try done.
  - apply Hl. vm_compute. reflexivity.
  - intros r h Hr. apply list_elem_of_singleton in Hr. subst r. discriminate.
Defined.
