(* ===== verification/Compaction.v ===== *)
(** * Compaction of the context

    [src/harness/context-compaction.ts] and [src/core/orchestrator/compaction.ts]:
    when the log of a session outgrows the model's context, its older part is
    replaced, for the model, by a summary.  The summary is itself an entry of the
    log, under one scope label, and a record of the tape.

    The thresholds are computed in double precision ([Numbers]).  The counter of
    tokens is a parameter; the cache in front of it is modelled with its eviction,
    and [estimateEntryTokens_ok] lets the rest of the file use the plain count. *)

From Stdlib Require Import ZArith Lia Ascii.
From S2P Require Import Prelude Collections Numbers Scopes Sessions TapeFold.
Open Scope Z_scope.

(** ** Text *)
(** [util/text.ts]; the surrogates they look for do not occur in the model. *)
Definition headSlice (s : string) (n : Z) : string :=
  if n <=? 0 then "" else if Z.of_nat (String.length s) <=? n then s else Str.take (Z.to_nat n) s.

Definition tailSlice (s : string) (n : Z) : string :=
  if n <=? 0 then "" else if Z.of_nat (String.length s) <=? n then s
  else Str.drop (String.length s - Z.to_nat n) s.

Definition CONTEXT_SUMMARY_KIND : string := "context_summary".
Definition MAX_COMPACT_ENTRY_CHARS : Z := 16000.
Definition COMPACT_ENTRY_TAIL_CHARS : Z := 2000.

Definition capCompactLine (s : string) : string :=
  if Z.of_nat (String.length s) <=? MAX_COMPACT_ENTRY_CHARS then s else
  let notice := "…[truncated — " +:+ Str.showZ (Z.of_nat (String.length s)) +:+ " chars]…" in
  headSlice s (MAX_COMPACT_ENTRY_CHARS - COMPACT_ENTRY_TAIL_CHARS - Z.of_nat (String.length notice))
  +:+ notice +:+ tailSlice s COMPACT_ENTRY_TAIL_CHARS.

(** ** Summaries *)
Record ContextSummary := mkSummary { throughSeq : Z; summaryText : string }.

Definition contextSummaryPayload (entry : SessionEntry.t) : option ContextSummary :=
  let payload := SessionEntry.payload entry in
  if (SessionEntry.type entry === "system") && json_is_str CONTEXT_SUMMARY_KIND (json_field "kind" payload) then
    match json_field "throughSeq" payload, json_field "text" payload with
    | JNum q, JStr text => Some (mkSummary q text)
    | _, _ => None
    end
  else None.

Definition createContextSummaryPayload (q : Z) (text : string) : list (string * json) :=
  [("kind", JStr CONTEXT_SUMMARY_KIND); ("throughSeq", JNum q); ("text", JStr text)].

Definition isSummary (e : SessionEntry.t) : bool :=
  match contextSummaryPayload e with Some _ => true | None => false end.

(** [only]: the single element, null otherwise *)
Definition only {A} (xs : list A) : option A := match xs with [x] => Some x | _ => None end.

Definition labelsOfKind (k : ScopeKind.t) (labels : list ScopeId) : list ScopeId :=
  List.filter (fun label => (parseScopeId label).1 === Some k) labels.

Definition compactedScopeLabel (entries : list SessionEntry.t) (sessionScopeId orgScopeId : ScopeId)
    : option ScopeId :=
  let labels := Arr.dedup (map SessionEntry.scopeLabel entries) in
  let personal := labelsOfKind ScopeKind.personal labels in
  if personal !== [] then only personal else
  let team := labelsOfKind ScopeKind.team labels in
  if team !== [] then only team else
  let nonFloor := List.filter (fun label => (label !== orgScopeId) && (label !== sessionScopeId)) labels in
  if nonFloor !== [] then only nonFloor else
  Some (if bool_decide (sessionScopeId ∈ labels) then sessionScopeId else orgScopeId).

(** ** What the model sees of a log *)
Definition replayable (e : SessionEntry.t) : bool :=
  (SessionEntry.type e !== "thinking") && (SessionEntry.type e !== "text") && (SessionEntry.type e !== "soul")
  && negb (json_is_str "turn_failure" (json_field "kind" (SessionEntry.payload e))).

Definition securityTainted (e : SessionEntry.t) : bool :=
  json_is_true (json_field "securityTainted" (SessionEntry.payload e)).

(** [latest] is one of the replayable entries, so it is among the visible ones
    exactly when it passes the same test. *)
Definition forModelContext (includeSecurityTainted : bool) (entries : list SessionEntry.t)
    : list SessionEntry.t :=
  let shown e := includeSecurityTainted || negb (securityTainted e) in
  let replay := List.filter replayable entries in
  let visible := List.filter shown replay in
  match List.find isSummary (reverse replay) ≫= fun l => s ← contextSummaryPayload l; Some (l, s) with
  | None => visible
  | Some (latest, s) =>
      (if shown latest then [latest] else [])
      ++ List.filter (fun e => negb (isSummary e) && (throughSeq s <? SessionEntry.seq e)) visible
  end.

(** ** Counting tokens *)
Definition CHUNK_CHARS : Z := 4000.
Definition SAMPLE_CAP_CHARS : Z := 64000.

Definition ENTRY_TOKEN_CACHE_MAX : Z := 50000.

Section compaction.
(** The length of what the tokenizer makes of the NFKC form of a text, and
    [JSON.stringify]. *)
Variable encodeLength : string -> Z.
Variable jsonStringify : json -> string.

(** [util/tokens.ts]; the fuel is the length of the text, of which every round
    takes a non-empty piece. *)
Fixpoint countChunks (fuel : nat) (s : string) : Z :=
  match fuel, s with
  | S fuel, String _ _ => encodeLength (Str.take (Z.to_nat CHUNK_CHARS) s) + countChunks fuel (Str.drop (Z.to_nat CHUNK_CHARS) s)
  | _, _ => 0
  end.

Definition countTokens (text : string) : Z :=
  let sample := if SAMPLE_CAP_CHARS <? Z.of_nat (String.length text) then Str.take (Z.to_nat SAMPLE_CAP_CHARS) text else text in
  let n := countChunks (String.length sample) sample in
  if String.length sample === String.length text then n
  else - ((- (n * Z.of_nat (String.length text))) / Z.of_nat (String.length sample)).

Definition entryText (entry : SessionEntry.t) : string :=
  let payload := SessionEntry.payload entry in
  match json_field "text" payload with
  | JStr text => text
  | _ => jsonStringify (json_or payload (JObj []))
  end.

Definition entryTokenKey (entry : SessionEntry.t) : string :=
  SessionEntry.sessionId entry +:+ ":" +:+ Str.showZ (SessionEntry.seq entry) +:+ ":"
  +:+ Str.showZ (Z.of_nat (String.length (entryText entry))).

Definition estimateEntryTokens (cache : jmap string Z) (entry : SessionEntry.t) : Z * jmap string Z :=
  let key := entryTokenKey entry in
  match JMap.get cache key with
  | Some hit => (hit, cache)
  | None =>
      let n := countTokens (entryText entry) in
      let cache := if ENTRY_TOKEN_CACHE_MAX <=? Z.of_nat (length cache)
                   then match cache with p :: _ => JMap.delete cache p.1 | [] => cache end else cache in
      (n, JMap.set cache key n)
  end.

(** The estimate without the cache. *)
Definition entryTokens (entry : SessionEntry.t) : Z := countTokens (entryText entry).

Definition estimateHistoryTokens (history : list SessionEntry.t) : Z :=
  foldl (fun total entry => total + entryTokens entry) 0 history.

Fixpoint recentLoop (rev_history : list SessionEntry.t) (count tokens maxCount maxTokens : Z) : Z :=
  match rev_history with
  | [] => count
  | e :: rest =>
      if maxCount <=? count then count else
      let next := tokens + entryTokens e in
      if (1 <=? count) && (maxTokens <? next) then count
      else recentLoop rest (count + 1) next maxCount maxTokens
  end.

Definition recentEntryCountWithinBudget (history : list SessionEntry.t) (maxCount maxTokens : Z) : Z :=
  recentLoop (reverse history) 0 0 maxCount maxTokens.

(** ** The transcript handed to the summariser *)
Definition callIdOf (e : SessionEntry.t) : option string :=
  match json_field "callId" (SessionEntry.payload e) with
  | JStr cid => if Str.truthy cid then Some cid else None
  | _ => None
  end.

Definition resultIds (history : list SessionEntry.t) : list string :=
  omap (fun e => if SessionEntry.type e === "tool_result" then callIdOf e else None) history.

Definition compactLines (results : list string) (entry : SessionEntry.t) : list string :=
  match contextSummaryPayload entry with
  | Some s =>
      [capCompactLine ("Prior summary through seq " +:+ Str.showZ (throughSeq s) +:+ ": " +:+ summaryText s)]
  | None =>
      let op := SessionEntry.payload entry in
      let ov := (SessionEntry.type entry === "user") && json_is_true (json_field "overheard" op) in
      let text := Str.trim (json_to_string (json_or (json_field "text" op) (JStr ""))) in
      let ovFiles := match json_field "files" op with
                     | JArr files => if ov then List.filter Str.truthy (map json_to_string files) else []
                     | _ => []
                     end in
      let name := match json_field "name" op with JStr n => if Str.truthy n then n else "someone" | _ => "someone" end in
      let seq := Str.showZ (SessionEntry.seq entry) in
      let label := if ov then "overheard#" +:+ seq +:+ " (" +:+ name +:+ ")"
                   else SessionEntry.type entry +:+ "#" +:+ seq in
      let files := "(files: " +:+ Str.join ", " ovFiles +:+ ")" in
      (if Str.truthy text then
         [capCompactLine (label +:+ ": " +:+ text +:+ if ovFiles !== [] then " " +:+ files else "")]
       else if ov && (ovFiles !== []) then [capCompactLine (label +:+ ": (shared file) " +:+ files)]
       else if negb ov then
         [capCompactLine (label +:+ ":" +:+ (if json_is_true (json_field "isError" op) then " [isError]" else "")
                          +:+ " " +:+ jsonStringify (json_or op (JObj [])))]
       else [])
      ++ (if SessionEntry.type entry === "tool_call" then
            match callIdOf entry with
            | Some cid => if bool_decide (cid ∈ results) then []
                          else ["tool_result#" +:+ seq +:+ ": " +:+ INTERRUPTED_TOOL_RESULT]
            | None => []
            end
          else [])
  end.

Definition compactTranscript (history : list SessionEntry.t) : string :=
  Str.join (String "010"%char "") (concat (map (compactLines (resultIds history)) history)).

(** ** Plans *)
Definition COMPACT_SOFT_FRACTION : Num.t := Num.n0_7.
Definition COMPACT_HARD_FRACTION : Num.t := Num.n0_9.

Definition overBudgetFraction (history : list SessionEntry.t) (maxEntries maxTokens : Z) (fraction : Num.t) : bool :=
  Num.gt (Num.of_Z (Z.of_nat (length history))) (Num.mul (Num.of_Z maxEntries) fraction)
  || Num.gt (Num.of_Z (estimateHistoryTokens history)) (Num.mul (Num.of_Z maxTokens) fraction).

Record CompactionPlan := mkCPlan {
  toSummarize : list SessionEntry.t; kept : list SessionEntry.t; reuse : option SessionEntry.t
}.

(** The loop that leaves a call at the end of the batch to the entries kept,
    unless its result is in the batch. *)
Fixpoint backOff (afterSummary : list SessionEntry.t) (overflowCount : nat) : nat :=
  match overflowCount with
  | O => O
  | S n =>
      match afterSummary !! n with
      | Some last =>
          if SessionEntry.type last !== "tool_call" then S n else
          match callIdOf last with
          | None => S n
          | Some cid => if bool_decide (cid ∈ resultIds (take (S n) afterSummary)) then S n else backOff afterSummary n
          end
      | None => S n
      end
  end.

(** The last summary of a history and the entries after it. *)
Definition latestSummary (history : list SessionEntry.t) : option (SessionEntry.t * ContextSummary) :=
  List.find isSummary (reverse history) ≫= fun l => s ← contextSummaryPayload l; Some (l, s).

Definition entriesAfter (latest : option (SessionEntry.t * ContextSummary)) (history : list SessionEntry.t)
    : list SessionEntry.t :=
  List.filter (fun e => negb (isSummary e)
                        && match latest with Some (_, s) => throughSeq s <? SessionEntry.seq e | None => true end) history.

(** [reuseBudget]: entries and tokens.  The number of entries [maxEntries] only
    serves as a default for arguments that all callers give. *)
Definition planCompaction (history : list SessionEntry.t) (maxTokens : Z) (keepRecentTokenFraction : Num.t)
    (keepRecentEntries : Z) (reuseBudget : Z * Z) : option CompactionPlan :=
  let latest := latestSummary history in
  let afterSummary := entriesAfter latest history in
  let keepRecent := Z.max 1 keepRecentEntries in
  let keepRecentTokens := Num.floor (Num.mul (Num.of_Z maxTokens) keepRecentTokenFraction) in
  let overflowing :=
    let keptCount := recentEntryCountWithinBudget afterSummary keepRecent keepRecentTokens in
    let overflowCount := backOff afterSummary (Z.to_nat (Z.max 0 (Z.of_nat (length afterSummary) - keptCount))) in
    let overflow := take overflowCount afterSummary in
    let batch := match latest with Some (l, _) => l :: overflow | None => overflow end in
    match overflow with
    | [] => None
    | _ => Some (mkCPlan batch (drop overflowCount afterSummary) None)
    end in
  match latest with
  | Some (l, _) =>
      if (Z.of_nat (length afterSummary) + 1 <=? reuseBudget.1)
         && (estimateHistoryTokens (l :: afterSummary) <=? reuseBudget.2)
      then Some (mkCPlan [] (l :: afterSummary) (Some l))
      else overflowing
  | None => overflowing
  end.

Definition compactionThroughSeq (entries : list SessionEntry.t) : Z :=
  foldl (fun max e => Z.max max (match contextSummaryPayload e with
                                 | Some s => throughSeq s | None => SessionEntry.seq e end)) (-1) entries.

Definition deterministicCompactSummary (history : list SessionEntry.t) : string :=
  "Compacted " +:+ Str.showZ (Z.of_nat (length history)) +:+ " prior entr"
  +:+ (if Z.of_nat (length history) =? 1 then "y" else "ies") +:+ " through seq "
  +:+ Str.showZ (compactionThroughSeq history) +:+ "." +:+ String "010"%char ""
  +:+ headSlice (compactTranscript history) 8000.

(** ** Compacting a session ([core/orchestrator/compaction.ts]) *)
Definition MAX_CONTEXT_ENTRIES : Z := 400.
Definition MAX_CONTEXT_TOKENS : Z := 120000.
Definition KEEP_RECENT_TOKEN_FRACTION : Num.t := Num.n0_6.

(** What is used of [OrchestratorDeps]; [compactHistory] asks a model for the
    summary, and its failure is the turn's. *)
Record Deps := mkDeps {
  d_maxContextEntries : option Z; d_maxContextTokens : option Z;
  contextTokenBudget : option (option string -> option string -> option Z);
  recognizes : option (string -> bool);
  compactHistory : option (list SessionEntry.t -> outcome string);
}.

Record Summarized := mkSummarized {
  sm_text : string; summaryLabel : ScopeId; sm_throughSeq : Z; sm_securityTainted : bool
}.

Section orchestrated.
Variable deps : Deps.
Variable leaseTtlMs : Z.

Definition maxContextEntries : Z := default MAX_CONTEXT_ENTRIES (d_maxContextEntries deps).

Definition tokenBudgetFor (scopeLabel model : option string) : Z :=
  match d_maxContextTokens deps with
  | Some n => n
  | None => default MAX_CONTEXT_TOKENS (f ← contextTokenBudget deps; f scopeLabel model)
  end.

(** [entries.filter((e) => e !== summary)] for the first summary *)
Fixpoint withoutFirst {A} (p : A -> bool) (l : list A) : list A :=
  match l with
  | [] => []
  | x :: l => if p x then l else x :: withoutFirst p l
  end.

Definition boundRecent (entries : list SessionEntry.t) (maxContextTokens : Z) : list SessionEntry.t :=
  let summary := List.find isSummary entries in
  let rest := match summary with Some _ => withoutFirst isSummary entries | None => entries end in
  let n := match summary with
           | Some s => recentEntryCountWithinBudget rest (maxContextEntries - 1) (maxContextTokens - entryTokens s)
           | None => recentEntryCountWithinBudget rest maxContextEntries maxContextTokens
           end in
  let kept := drop (Z.to_nat (Z.of_nat (length rest) - n)) rest in
  match summary with Some s => s :: kept | None => kept end.

Definition isManagedGroupScope (scope : string) : bool :=
  let '(k, ref) := parseScopeId scope in
  (k === Some ScopeKind.group) && match recognizes deps with Some f => f ref | None => false end.

Definition keepRecentEntries : Z :=
  Z.max 1 (Num.floor (Num.mul (Num.of_Z maxContextEntries) COMPACT_SOFT_FRACTION) - 1).
Definition keepRecentTokenFraction : Num.t :=
  Num.min KEEP_RECENT_TOKEN_FRACTION (Num.sub COMPACT_SOFT_FRACTION Num.n0_1).

Definition sessionPlan (visibleHistory : list SessionEntry.t) (scopeId : ScopeId) (model : option string)
    : option CompactionPlan :=
  let maxContextTokens := tokenBudgetFor (Some scopeId) model in
  planCompaction visibleHistory maxContextTokens keepRecentTokenFraction keepRecentEntries
    (keepRecentEntries + 1, Num.floor (Num.mul (Num.of_Z maxContextTokens) keepRecentTokenFraction)).

(** The recording of the model call goes to the gateway and the budget. *)
Definition summarizeForCompaction (visibleHistory : list SessionEntry.t) (scopeId orgScopeId : ScopeId)
    (model : option string) : outcome (option Summarized) :=
  if isManagedGroupScope scopeId then Ok None else
  match compactHistory deps with
  | None => Ok None
  | Some compact =>
      match sessionPlan visibleHistory scopeId model with
      | None => Ok None
      | Some plan =>
          match toSummarize plan with
          | [] => Ok None
          | batch =>
              match compactedScopeLabel batch scopeId orgScopeId with
              | None => Ok None
              | Some label =>
                  if Str.truthy label then
                    let! text := compact batch in
                    Ok (Some (mkSummarized text label (compactionThroughSeq batch) (existsb securityTainted batch)))
                  else Ok None
              end
          end
      end
  end.

Definition summaryEntry (z : Summarized) : NewEntry :=
  mkNewEntry "system"
    (JObj (createContextSummaryPayload (sm_throughSeq z) (sm_text z)
           ++ if sm_securityTainted z then [("securityTainted", JBool true)] else []))
    (summaryLabel z).

(** The store after the summary is written, and whether the tape has it too; a
    failure of the tape is swallowed.  Resetting the harness is its own affair. *)
Definition writeCompaction (sessionId : string) (lease : Lease) (z : Summarized) (now : Z) (st : Store)
    : outcome (SessionEntry.t * bool) * Store :=
  match append leaseTtlMs lease (summaryEntry z) now st with
  | (Throw e, st) => (Throw e, st)
  | (Ok summary, st) =>
      let seq := SessionEntry.seq summary in
      let event := Tape.mkNew t_context_event (JObj [("event", JStr "compaction"); ("text", JStr (sm_text z))])
                     (summaryLabel z) None JUndefined (Some seq) (Some (sm_throughSeq z)) in
      let '(r, st) := appendTape leaseTtlMs lease event now st in
      let mirrored := match r with Ok _ => true | Throw _ => false end in
      let mark := Tape.mkNew t_annotation (JObj [("turnEnd", JBool true)]) (summaryLabel z) None JUndefined
                    (Some seq) None in
      let st := if mirrored && (tapeCoverage sessionId st =? seq - 1)
                then (appendTape leaseTtlMs lease mark now st).2 else st in
      (Ok (summary, mirrored), st)
  end.

Definition applyCompaction (sessionId : string) (lease : Lease) (visibleHistory : list SessionEntry.t)
    (scopeId orgScopeId : ScopeId) (model : option string) (now : Z) (st : Store)
    : outcome (option (list SessionEntry.t * bool)) * Store :=
  match summarizeForCompaction visibleHistory scopeId orgScopeId model with
  | Throw e => (Throw e, st)
  | Ok None => (Ok None, st)
  | Ok (Some z) =>
      match writeCompaction sessionId lease z now st with
      | (Throw e, st) => (Throw e, st)
      | (Ok (summary, mirrored), st) =>
          let recent := List.filter (fun e => (sm_throughSeq z <? SessionEntry.seq e) && negb (isSummary e)) visibleHistory in
          let cut := Z.max 0 (Z.of_nat (length recent) - (maxContextEntries - 1)) in
          (Ok (Some (summary :: drop (Z.to_nat cut) recent, mirrored)), st)
      end
  end.

(** The history for the model and whether the tape missed the compaction. *)
Definition compactContextIfNeeded (sessionId : string) (lease : Lease) (visibleHistory : list SessionEntry.t)
    (scopeId orgScopeId : ScopeId) (model : option string) (now : Z) (st : Store)
    : outcome (list SessionEntry.t * bool) * Store :=
  let maxContextTokens := tokenBudgetFor (Some scopeId) model in
  if negb (overBudgetFraction visibleHistory maxContextEntries maxContextTokens COMPACT_HARD_FRACTION)
  then (Ok (visibleHistory, false), st)
  else
    match applyCompaction sessionId lease visibleHistory scopeId orgScopeId model now st with
    | (Throw e, st) => (Throw e, st)
    | (Ok (Some (history, mirrored)), st) => (Ok (history, negb mirrored), st)
    | (Ok None, st) => (Ok (boundRecent visibleHistory maxContextTokens, false), st)
    end.

(** Background compaction has two stretches: it summarises a snapshot, without
    the lease; and, when it has got the lease, writes the summary unless another
    one was written since. *)
Definition backgroundSummarize (sessionId : string) (scopeId orgScopeId : ScopeId) (includeSecurityTainted : bool)
    (st : Store) : outcome (option (Summarized * Z)) :=
  match get sessionId st with
  | None => Ok None
  | Some _ =>
      let maxContextTokens := tokenBudgetFor (Some scopeId) None in
      let entries := getEntries sessionId None None st in
      let history := forModelContext includeSecurityTainted entries in
      if negb (overBudgetFraction history maxContextEntries maxContextTokens COMPACT_SOFT_FRACTION) then Ok None else
      let snapshotSeq := match last entries with Some e => SessionEntry.seq e | None => -1 end in
      let! z := summarizeForCompaction history scopeId orgScopeId None in
      Ok (match z with Some z => Some (z, snapshotSeq) | None => None end)
  end.

Definition backgroundWrite (sessionId : string) (lease : Lease) (z : Summarized) (snapshotSeq now : Z) (st : Store)
    : Store :=
  let since := getEntries sessionId (Some (snapshotSeq + 1)) None st in
  let st := if existsb isSummary since then st else (writeCompaction sessionId lease z now st).2 in
  releaseLease lease st.
End orchestrated.

(** ** Facts about the cache *)
Lemma entryTokenKey_inj a b :
  entryTokenKey a = entryTokenKey b ->
  SessionEntry.sessionId a = SessionEntry.sessionId b /\ SessionEntry.seq a = SessionEntry.seq b.
Proof.
  assert (forall a x y, a +:+ ":" +:+ x +:+ ":" +:+ y = (a +:+ ":" +:+ x) +:+ ":" +:+ y) as E
    by (intros; by rewrite !Str.append_assoc).
  unfold entryTokenKey. rewrite !E. intros [H _]%Str.append_colon_inj; [|apply Str.showZ_no_colon..].
  apply Str.append_colon_inj in H as [? H]; [|apply Str.showZ_no_colon..]. split; [done|]. by apply (inj pretty).
Qed.

(** The cache has the right count for every entry of [known] it has a key of. *)
Definition cacheOk (known : list SessionEntry.t) (cache : jmap string Z) : Prop :=
  JMap.wf cache /\ Z.of_nat (length cache) <= ENTRY_TOKEN_CACHE_MAX
  /\ forall e n, e ∈ known -> JMap.get cache (entryTokenKey e) = Some n -> n = entryTokens e.

Definition oneEntryPerSeq (known : list SessionEntry.t) : Prop :=
  forall a b, a ∈ known -> b ∈ known -> SessionEntry.sessionId a = SessionEntry.sessionId b ->
    SessionEntry.seq a = SessionEntry.seq b -> a = b.

Lemma estimateEntryTokens_ok known cache e :
  oneEntryPerSeq known -> e ∈ known -> cacheOk known cache ->
  exists cache', estimateEntryTokens cache e = (entryTokens e, cache') /\ cacheOk known cache'.
Proof.
  intros Hu He (Hwf & Hlen & Hc). unfold estimateEntryTokens. destruct (JMap.get cache (entryTokenKey e)) as [n|] eqn:E.
  { exists cache. by rewrite (Hc e n He E). }
  eexists. split; [done|].
  set (room := if ENTRY_TOKEN_CACHE_MAX <=? Z.of_nat (length cache)
               then match cache with p :: _ => JMap.delete cache p.1 | [] => cache end else cache).
  assert (JMap.wf room /\ Z.of_nat (length room) + 1 <= ENTRY_TOKEN_CACHE_MAX
          /\ (forall k n, JMap.get room k = Some n -> JMap.get cache k = Some n)) as (Hr & Hl & Hg).
  { subst room. destruct (Z.leb_spec ENTRY_TOKEN_CACHE_MAX (Z.of_nat (length cache))) as [Hfull|Hroom].
    - destruct cache as [|[k v] cache]; [done|]. cbn [fst]. split; [by apply JMap.wf_delete|]. split.
      + cbn [JMap.delete List.filter fst]. rewrite bool_decide_eq_true_2 by done. cbn [negb].
        pose proof (List.filter_length_le (fun p => p.1 !== k) cache). cbn [length] in Hlen. lia.
      + intros k' n. rewrite JMap.get_delete. by case_decide.
    - split_and!; [done|lia|done]. }
  split; [by apply JMap.wf_set|]. split.
  - destruct (JMap.get room (entryTokenKey e)) eqn:Er; [apply Hg in Er; congruence|].
    rewrite JMap.set_new, length_app by done. cbn. lia.
  - intros e' n He'. rewrite JMap.get_set. case_decide as Ek; [|by intros ?%Hg; eapply Hc].
    intros [= <-]. apply entryTokenKey_inj in Ek as [? ?]. by rewrite (Hu e e').
Qed.

(** The estimates of a sequence of entries, the cache passed along. *)
Fixpoint estimateAll (cache : jmap string Z) (es : list SessionEntry.t) : list Z * jmap string Z :=
  match es with
  | [] => ([], cache)
  | e :: rest => let '(n, cache) := estimateEntryTokens cache e in
                 let '(ns, cache) := estimateAll cache rest in (n :: ns, cache)
  end.

Lemma estimateAll_ok known es : forall cache,
  oneEntryPerSeq known -> (forall e, e ∈ es -> e ∈ known) -> cacheOk known cache ->
  exists cache', estimateAll cache es = (map entryTokens es, cache') /\ cacheOk known cache'.
Proof.
  induction es as [|e es IH]; intros cache Hu Hes Hc; cbn [estimateAll map]; [by exists cache|].
  destruct (estimateEntryTokens_ok known cache e Hu (Hes e (list_elem_of_here _ _)) Hc) as (c1 & -> & Hc1).
  destruct (IH c1 Hu (fun x Hx => Hes x (list_elem_of_further _ _ _ Hx)) Hc1) as (c2 & -> & Hc2). by exists c2.
Qed.

(** Cached estimates are exact.  For any sequence of estimates over entries
    of which no two share session and sequence number, as in a session store, the
    cache answers what counting the tokens of each entry anew would, and it never
    holds more than its maximum. *)
Theorem cached_estimates_exact (es : list SessionEntry.t) :
  oneEntryPerSeq es ->
  (estimateAll [] es).1 = map entryTokens es /\ Z.of_nat (length (estimateAll [] es).2) <= ENTRY_TOKEN_CACHE_MAX.
Proof.
  intros Hu. destruct (estimateAll_ok es es [] Hu (fun _ H => H)) as (c & -> & _ & Hl & _); [|done].
  split_and!; [constructor|done|done].
Qed.

(** ** Facts about the recent entries *)
Lemma recentLoop_bounds l : forall count tokens maxCount maxTokens,
  count <= recentLoop l count tokens maxCount maxTokens <= count + Z.of_nat (length l)
  /\ (count <= maxCount -> recentLoop l count tokens maxCount maxTokens <= maxCount).
Proof.
  induction l as [|e l IH]; intros count tokens maxCount maxTokens; cbn [recentLoop length]; [lia|].
  destruct (Z.leb_spec maxCount count); [lia|]. destruct (_ && _); [lia|].
  destruct (IH (count + 1) (tokens + entryTokens e) maxCount maxTokens). lia.
Qed.

Lemma recentCount_bounds l maxCount maxTokens :
  0 <= recentEntryCountWithinBudget l maxCount maxTokens <= Z.of_nat (length l)
  /\ (0 <= maxCount -> recentEntryCountWithinBudget l maxCount maxTokens <= maxCount).
Proof.
  unfold recentEntryCountWithinBudget. pose proof (recentLoop_bounds (reverse l) 0 0 maxCount maxTokens) as H.
  rewrite length_reverse in H. lia.
Qed.

(** One entry is always kept. *)
Lemma recentCount_pos l maxCount maxTokens :
  l <> [] -> 1 <= maxCount -> 1 <= recentEntryCountWithinBudget l maxCount maxTokens.
Proof.
  intros Hl Hm. unfold recentEntryCountWithinBudget. destruct (reverse l) as [|e r] eqn:E.
  { apply (f_equal reverse) in E. by rewrite reverse_involutive in E. }
  cbn [recentLoop]. destruct (Z.leb_spec maxCount 0); [lia|].
  replace (1 <=? 0) with false by done. cbn [andb].
  destruct (recentLoop_bounds r (0 + 1) (0 + entryTokens e) maxCount maxTokens). lia.
Qed.

(** ** Facts about plans *)
Lemma backOff_spec l n :
  (backOff l n <= n)%nat
  /\ forall k e cid, backOff l n = S k -> l !! k = Some e -> SessionEntry.type e = "tool_call" ->
      callIdOf e = Some cid -> cid ∈ resultIds (take (S k) l).
Proof.
  induction n as [|n [IH1 IH2]]; cbn [backOff]; [split; [lia|done]|].
  destruct (l !! n) as [last|] eqn:E; [|split; [lia|intros k e cid [= <-]; congruence]].
  case_bool_decide as Et; cbn [negb]; [|split; [lia|intros k e cid [= <-]; congruence]].
  destruct (callIdOf last) as [c|] eqn:Ec; [|split; [lia|intros k e cid [= <-]; congruence]].
  case_bool_decide as Ep; [|split; [lia|done]]. split; [lia|]. intros k e cid [= <-] He _ Hc. congruence.
Qed.

Lemma plan_shape history maxTokens fraction keep budget plan :
  planCompaction history maxTokens fraction keep budget = Some plan -> reuse plan = None ->
  exists n, let after := entriesAfter (latestSummary history) history in
    take n after <> [] /\ drop n after <> [] /\ kept plan = drop n after
    /\ toSummarize plan = match latestSummary history with Some (l, _) => [l] | None => [] end ++ take n after
    /\ forall e cid, last (take n after) = Some e -> SessionEntry.type e = "tool_call" ->
         callIdOf e = Some cid -> cid ∈ resultIds (take n after).
Proof.
  unfold planCompaction. set (after := entriesAfter _ history). cbn zeta.
  set (count := recentEntryCountWithinBudget after _ _). set (n := backOff after _).
  intros H Hr. assert (match take n after with
     | [] => None
     | _ => Some (mkCPlan (match latestSummary history with Some (l, _) => l :: take n after | None => take n after end)
                    (drop n after) None) end = Some plan) as Hp.
  { destruct (latestSummary history) as [[l s]|]; [|done]. destruct (_ && _); [|done]. by injection H as <-. }
  clear H. exists n. destruct (take n after) as [|x t] eqn:Et; [done|]. injection Hp as <-. cbn [kept toSummarize].
  split; [done|]. assert (after <> []) as Ha by (by destruct after; rewrite ?take_nil in Et).
  assert (1 <= count) as Hc by (apply recentCount_pos; [done|lia]).
  destruct (backOff_spec after (Z.to_nat (Z.max 0 (Z.of_nat (length after) - count)))) as [Hb Hpair]. fold n in Hb, Hpair.
  destruct (recentCount_bounds after (Z.max 1 keep) (Num.floor (Num.mul (Num.of_Z maxTokens) fraction))) as [Hb2 _].
  fold count in Hb2. assert (n < length after)%nat as Hn by (destruct after; cbn [length] in *; [done|lia]).
  split; [intros H; apply (f_equal length) in H; rewrite length_drop in H; cbn in H; lia|]. split; [done|].
  split; [by destruct (latestSummary history) as [[]|]|]. intros e cid He Hty Hcid. rewrite <- Et in *.
  destruct n as [|k] eqn:En; [done|]. apply (Hpair k e cid eq_refl); [|done..].
  rewrite last_lookup, length_take_le in He by lia. cbn in He. rewrite lookup_take in He. by destruct (decide (k < S k)%nat); [|lia].
Qed.

(** ** Facts about what the model sees *)
Definition seqOrder (a b : SessionEntry.t) : Prop := SessionEntry.seq a < SessionEntry.seq b.

Lemma log_sorted sid log : log_ok sid log -> StronglySorted seqOrder log.
Proof.
  induction log as [|e log IH] using rev_ind; [constructor|]. intros Hl. apply Arr.sorted_snoc.
  - apply IH. intros n x Hn. apply Hl. by apply lookup_app_l_Some.
  - intros y (n & Hn)%list_elem_of_lookup. unfold seqOrder.
    destruct (Hl n y) as [-> _]; [by apply lookup_app_l_Some|].
    destruct (Hl (length log) e) as [-> _]; [by apply list_lookup_middle|]. apply lookup_lt_Some in Hn. lia.
Qed.

(** The entries shown to the model, before the summary is taken into account. *)
Definition visibleOf (incl : bool) (log : list SessionEntry.t) : list SessionEntry.t :=
  List.filter (fun e => incl || negb (securityTainted e)) (List.filter replayable log).

Lemma isSummary_iff e : isSummary e = true <-> exists s, contextSummaryPayload e = Some s.
Proof. unfold isSummary. destruct (contextSummaryPayload e); naive_solver. Qed.

Lemma latestSummary_spec h :
  match latestSummary h with
  | Some (l, s) => l ∈ h /\ contextSummaryPayload l = Some s
  | None => forall e, e ∈ h -> isSummary e = false
  end.
Proof.
  unfold latestSummary. destruct (List.find isSummary (reverse h)) as [l|] eqn:E; cbn.
  - apply Arr.find_elem in E as [Hin [s Hs]%isSummary_iff]. rewrite Hs. cbn. by rewrite <- elem_of_reverse.
  - intros e He. apply (Arr.find_none _ _ _ E). by apply elem_of_reverse.
Qed.

Lemma find_reverse_app {A} (p : A -> bool) l1 l2 :
  (forall x, x ∈ l2 -> p x = false) -> List.find p (reverse (l1 ++ l2)) = List.find p (reverse l1).
Proof.
  induction l2 as [|x l2 IH] using rev_ind; intros H; [by rewrite app_nil_r|].
  rewrite app_assoc, reverse_snoc. cbn. rewrite H by (apply elem_of_app; right; left).
  apply IH. intros y Hy. apply H, elem_of_app. by left.
Qed.

Lemma latestSummary_none h : (forall e, e ∈ h -> isSummary e = false) -> latestSummary h = None.
Proof. intros H. unfold latestSummary. pose proof (find_reverse_app isSummary [] h H) as E. cbn [app] in E. by rewrite E. Qed.

(** The planner finds the entries of the log that follow the latest summary again
    in the history made from it; [Q] says which entries those are. *)
Lemma forModelContext_shape incl log :
  exists Q : SessionEntry.t -> bool, let h := forModelContext incl log in
    entriesAfter (latestSummary h) h = List.filter (fun e => negb (isSummary e) && Q e) (visibleOf incl log)
    /\ match latestSummary h with Some (_, s) => Q = (fun e => throughSeq s <? SessionEntry.seq e) | None => True end
    /\ (forall a b, Q a = true -> SessionEntry.seq a <= SessionEntry.seq b -> Q b = true)
    /\ forall e, e ∈ h -> incl || negb (securityTainted e) = true.
Proof.
  unfold forModelContext. fold (visibleOf incl log).
  assert (forall e, e ∈ visibleOf incl log -> incl || negb (securityTainted e) = true) as Hshown
    by (by intros e [? _]%Arr.elem_of_filter).
  pose proof (latestSummary_spec (List.filter replayable log)) as Hl. unfold latestSummary in Hl at 1.
  destruct (List.find isSummary _ ≫= _) as [[l s]|].
  - destruct Hl as [_ Hs]. set (T := List.filter _ (visibleOf incl log)).
    assert (forall e, e ∈ T -> isSummary e = false) as HT.
    { intros e [[He%negb_true_iff _]%andb_true_iff _]%Arr.elem_of_filter. done. }
    exists (fun e => throughSeq s <? SessionEntry.seq e). fold T.
    pose proof (latestSummary_none T HT) as HnT.
    destruct (incl || negb (securityTainted l)) eqn:Esh; cbn zeta; cbn [app].
    + assert (latestSummary (l :: T) = Some (l, s)) as ->.
      { unfold latestSummary. pose proof (find_reverse_app isSummary [l] T HT) as E. cbn [app] in E. rewrite E. cbn. unfold isSummary. rewrite Hs; cbn; by rewrite ?Hs. }
      split_and!; try done.
      * unfold entriesAfter. cbn [List.filter]. unfold isSummary at 1. rewrite Hs. cbn [negb andb]. apply Arr.filter_all.
        by intros e [? _]%Arr.elem_of_filter.
      * intros a b ?%Z.ltb_lt ?. apply Z.ltb_lt. lia.
      * intros e [->|[_ ?]%Arr.elem_of_filter]%elem_of_cons; [done|by apply Hshown].
    + rewrite HnT. split_and!; try done.
      * apply Arr.filter_all. intros e He. by rewrite HT.
      * intros a b ?%Z.ltb_lt ?. apply Z.ltb_lt. lia.
      * intros e [_ ?]%Arr.elem_of_filter. by apply Hshown.
  - exists (fun _ => true). cbn zeta.
    rewrite latestSummary_none by (intros e [_ He]%Arr.elem_of_filter; by apply Hl).
    split_and!; try done.
Qed.

Definition throughOf (e : SessionEntry.t) : Z :=
  match contextSummaryPayload e with Some s => throughSeq s | None => SessionEntry.seq e end.

Lemma foldl_max_spec es : forall m q,
  foldl (fun max e => Z.max max (throughOf e)) m es < q <-> m < q /\ forall e, e ∈ es -> throughOf e < q.
Proof.
  induction es as [|e es IH]; intros m q; cbn [foldl].
  - split; [by intros ?; split; [|intros e ?%not_elem_of_nil]|by intros [? _]].
  - rewrite IH. split.
    + intros [H1 H2]. split; [lia|]. intros x [->|Hx]%elem_of_cons; [lia|by apply H2].
    + intros [H1 H2]. split; [pose proof (H2 e (list_elem_of_here _ _)); lia|]. intros x Hx. apply H2. by right.
Qed.

Lemma through_lt es q : compactionThroughSeq es < q <-> -1 < q /\ forall e, e ∈ es -> throughOf e < q.
Proof. apply foldl_max_spec. Qed.

Lemma through_ge es e : e ∈ es -> throughOf e <= compactionThroughSeq es.
Proof.
  intros He. destruct (Z.le_gt_cases (throughOf e) (compactionThroughSeq es)) as [?|H]; [done|].
  apply through_lt in H as [_ H]. specialize (H e He). lia.
Qed.

(** What the model sees beyond the batch of a plan is what the plan keeps. *)
Lemma plan_keeps_rest incl log maxTokens fraction keep budget plan :
  StronglySorted seqOrder log -> (forall e, e ∈ log -> 0 <= SessionEntry.seq e) ->
  planCompaction (forModelContext incl log) maxTokens fraction keep budget = Some plan -> reuse plan = None ->
  List.filter (fun e => negb (isSummary e) && (compactionThroughSeq (toSummarize plan) <? SessionEntry.seq e))
    (visibleOf incl log) = kept plan.
Proof.
  intros Hsort H0 Hp Hr. destruct (forModelContext_shape incl log) as (Q & Hafter & HQ & Hup & _).
  destruct (plan_shape _ _ _ _ _ _ Hp Hr) as (n & Htk & _ & -> & Hts & _). cbn zeta in *. rewrite Hafter in *.
  set (after := List.filter _ (visibleOf incl log)) in *.
  assert (forall e, e ∈ after -> isSummary e = false /\ Q e = true /\ 0 <= SessionEntry.seq e) as Hin.
  { intros e [[?%negb_true_iff ?]%andb_true_iff [_ [_ He]%Arr.elem_of_filter]%Arr.elem_of_filter]%Arr.elem_of_filter. auto. }
  assert (forall e, isSummary e = false -> throughOf e = SessionEntry.seq e) as Hof.
  { intros e. unfold isSummary, throughOf. by destruct (contextSummaryPayload e). }
  assert (StronglySorted seqOrder (take n after ++ drop n after)) as Hs.
  { rewrite take_drop. by do 3 apply Arr.sorted_filter. }
  assert (forall x, x ∈ take n after -> SessionEntry.seq x <= compactionThroughSeq (toSummarize plan)) as Hge.
  { intros x Hx. rewrite <- Hof by (by eapply Hin, Arr.take_in).
    apply through_ge. rewrite Hts. apply elem_of_app. by right. }
  transitivity (List.filter (fun e => compactionThroughSeq (toSummarize plan) <? SessionEntry.seq e) after).
  - unfold after. rewrite Arr.filter_filter. apply Arr.filter_ext. intros e _. destruct (isSummary e); [done|]. cbn.
    destruct (Z.ltb_spec (compactionThroughSeq (toSummarize plan)) (SessionEntry.seq e)); [|by rewrite andb_false_r].
    rewrite andb_true_r. destruct (take n after) as [|x t] eqn:Et; [done|]. symmetry. apply (Hup x).
    + apply Hin. rewrite <- (take_drop n after), Et. left.
    + specialize (Hge x (list_elem_of_here _ _)). lia.
  - rewrite <- (take_drop n after) at 1. apply Arr.filter_split.
    + intros x Hx%Hge. by apply Z.ltb_ge.
    + intros y Hy. assert (y ∈ after) as (_ & HQy & ?)%Hin by (by eapply Arr.drop_in).
      apply Z.ltb_lt, through_lt. split; [lia|]. rewrite Hts. intros e [He|He]%elem_of_app.
      * pose proof (latestSummary_spec (forModelContext incl log)) as Hl.
        destruct (latestSummary _) as [[l s]|]; [|by apply not_elem_of_nil in He].
        apply list_elem_of_singleton in He as ->. unfold throughOf. destruct Hl as [_ ->]. rewrite HQ in HQy. by apply Z.ltb_lt.
      * rewrite Hof by (by eapply Hin, Arr.take_in).
        by apply (Arr.sorted_app _ _ _ Hs).
Qed.

(** ** Facts about a session's compaction *)
Lemma plan_batch_subset history maxTokens fraction keep budget plan :
  planCompaction history maxTokens fraction keep budget = Some plan -> toSummarize plan <> [] ->
  reuse plan = None /\ forall e, e ∈ toSummarize plan -> e ∈ history.
Proof.
  intros Hp Hne. assert (reuse plan = None) as Hr.
  { revert Hp. unfold planCompaction. destruct (latestSummary history) as [[l s]|]; [destruct (_ && _)|];
      try (intros [= <-]; done); destruct (take _ _); intros [= <-]; done. }
  split; [done|]. destruct (plan_shape _ _ _ _ _ _ Hp Hr) as (n & _ & _ & _ & Ht & _). cbn zeta in Ht.
  pose proof (latestSummary_spec history) as Hl. rewrite Ht. intros e [He|He]%elem_of_app.
  - destruct (latestSummary history) as [[l s]|]; [|by apply not_elem_of_nil in He].
    apply list_elem_of_singleton in He as ->. apply Hl.
  - apply Arr.take_in, Arr.elem_of_filter in He. by destruct He.
Qed.

Lemma summaryEntry_payload (z : Summarized) sid q par now :
  let n := summaryEntry z in
  let e := SessionEntry.mk sid q par (n_type n) (n_payload n) (n_scopeLabel n) now in
  contextSummaryPayload e = Some (mkSummary (sm_throughSeq z) (sm_text z))
  /\ replayable e = true /\ securityTainted e = sm_securityTainted z.
Proof. destruct z as [text label q' tainted]. by destruct tainted. Qed.

(** The model's view of a log with a new summary at its end. *)
Lemma forModelContext_snoc incl log e s :
  contextSummaryPayload e = Some s -> replayable e = true -> incl || negb (securityTainted e) = true ->
  forModelContext incl (log ++ [e])
  = e :: List.filter (fun x => negb (isSummary x) && (throughSeq s <? SessionEntry.seq x)) (visibleOf incl log).
Proof.
  intros Hs Hr Ht. assert (isSummary e = true) as Hi by (unfold isSummary; by rewrite Hs).
  unfold forModelContext, visibleOf. rewrite List.filter_app. cbn [List.filter]. rewrite Hr.
  rewrite reverse_snoc. cbn [List.find]. rewrite Hi. cbn. rewrite Hs. cbn. rewrite Ht. cbn. f_equal.
  rewrite List.filter_app. cbn. rewrite Ht, List.filter_app. cbn. rewrite Hi. cbn. by rewrite app_nil_r.
Qed.

Lemma getEntries_all sid st : log_ok sid (logOf sid st) -> getEntries sid None None st = logOf sid st.
Proof.
  intros Hl. unfold getEntries. fold (logOf sid st). apply Arr.filter_all. intros e He.
  apply Z.leb_le. by apply (log_ok_seq sid _ e Hl).
Qed.

Section writing.
Variable leaseTtlMs : Z.

Lemma append_ok lease entry now st e st' :
  append leaseTtlMs lease entry now st = (Ok e, st') ->
  logOf (l_session lease) st' = logOf (l_session lease) st ++ [e]
  /\ e = (let q := Z.of_nat (length (logOf (l_session lease) st)) in
          SessionEntry.mk (l_session lease) q (if q === 0 then None else Some (q - 1))
            (n_type entry) (n_payload entry) (n_scopeLabel entry) now)
  /\ exists held, JMap.get (leases st') (l_session lease) = Some held /\ Held.token held = l_token lease.
Proof.
  unfold append, logOf. destruct (JMap.get (leases st) (l_session lease)) as [held|]; [|done].
  case_bool_decide as Et; cbn [negb]; [|done]. cbn. destruct (JMap.get (entries st) (l_session lease)) as [log|] eqn:El; [|done].
  intros [= <- <-]. cbn. rewrite !JMap.get_set_eq. cbn. split_and!; [done|done|eauto].
Qed.

Lemma appendTape_ok lease rec now st held :
  JMap.get (leases st) (l_session lease) = Some held -> Held.token held = l_token lease ->
  exists r st', appendTape leaseTtlMs lease rec now st = (Ok r, st') /\ entries st' = entries st.
Proof.
  intros Hl Ht. unfold appendTape. rewrite Hl, bool_decide_eq_true_2 by done. cbn [negb]. by do 2 eexists.
Qed.

Lemma appendTape_entries lease rec now st : entries (appendTape leaseTtlMs lease rec now st).2 = entries st.
Proof. unfold appendTape. destruct (JMap.get (leases st) _); [|done]. by case_bool_decide. Qed.

Lemma writeCompaction_log sid lease z now st summary mirrored st' :
  writeCompaction leaseTtlMs sid lease z now st = (Ok (summary, mirrored), st') ->
  mirrored = true
  /\ logOf (l_session lease) st' = logOf (l_session lease) st ++ [summary]
  /\ summary = let q := Z.of_nat (length (logOf (l_session lease) st)) in
       SessionEntry.mk (l_session lease) q (if q === 0 then None else Some (q - 1))
         (n_type (summaryEntry z)) (n_payload (summaryEntry z)) (n_scopeLabel (summaryEntry z)) now.
Proof.
  unfold writeCompaction. destruct (append leaseTtlMs lease (summaryEntry z) now st) as [[e|x] st1] eqn:Ea; [|done].
  destruct (append_ok _ _ _ _ _ _ Ea) as (Hlog & Hpar & held & Hh & Ht).
  set (event := Tape.mkNew t_context_event _ _ _ _ _ _).
  destruct (appendTape_ok lease event now st1 held Hh Ht) as (r & st2 & -> & He). cbn [andb].
  intros [= <- <- <-]. split; [done|]. split; [|done]. rewrite <- Hlog. unfold logOf.
  destruct (_ =? _); [by rewrite appendTape_entries, He|by rewrite He].
Qed.
End writing.

Lemma writeCompaction_ok ttl sid lease z now st held :
  JMap.get (leases st) (l_session lease) = Some held -> Held.token held = l_token lease ->
  logOf (l_session lease) st <> [] ->
  exists summary st', writeCompaction ttl sid lease z now st = (Ok (summary, true), st').
Proof.
  intros Hh Ht Hl. unfold logOf in Hl. destruct (JMap.get (entries st) (l_session lease)) as [log|] eqn:El; [|done].
  destruct (append ttl lease (summaryEntry z) now st) as [[e|x] st1] eqn:Ea.
  - destruct (append_ok _ _ _ _ _ _ _ Ea) as (_ & _ & held1 & Hh1 & Ht1). unfold writeCompaction. rewrite Ea.
    set (event := Tape.mkNew t_context_event _ _ _ _ _ _).
    destruct (appendTape_ok ttl lease event now st1 held1 Hh1 Ht1) as (r & st2 & -> & _). by do 2 eexists.
  - revert Ea. unfold append. rewrite Hh, bool_decide_eq_true_2 by done. cbn [negb]. cbn. by rewrite El.
Qed.

Lemma releaseLease_log lease st sid : logOf sid (releaseLease lease st) = logOf sid st.
Proof. unfold releaseLease. destruct (JMap.get _ _); [|done]. by case_bool_decide. Qed.

(** What was appended since the log had the entries of [log]. *)
Lemma since_growth sid st log more :
  log_ok sid (logOf sid st) -> logOf sid st = log ++ more ->
  getEntries sid (Some (Z.of_nat (length log) - 1 + 1)) None st = more.
Proof.
  intros Hlog Hgrow. unfold getEntries. fold (logOf sid st). rewrite Hgrow in *. cbn [default]. apply Arr.filter_split.
  - intros e (n & Hn)%list_elem_of_lookup. apply Z.leb_gt.
    destruct (Hlog n e) as [-> _]; [by apply lookup_app_l_Some|]. apply lookup_lt_Some in Hn. cbn. lia.
  - intros e (n & Hn)%list_elem_of_lookup. apply Z.leb_le.
    destruct (Hlog (length log + n)%nat e) as [-> _]; [|cbn; lia]. rewrite lookup_app_r by lia.
    by replace (length log + n - length log)%nat with n by lia.
Qed.

Lemma summarize_plan deps history scopeId orgScopeId model z :
  summarizeForCompaction deps history scopeId orgScopeId model = Ok (Some z) ->
  exists plan, sessionPlan deps history scopeId model = Some plan /\ toSummarize plan <> []
    /\ compactedScopeLabel (toSummarize plan) scopeId orgScopeId = Some (summaryLabel z)
    /\ sm_throughSeq z = compactionThroughSeq (toSummarize plan)
    /\ sm_securityTainted z = existsb securityTainted (toSummarize plan).
Proof.
  unfold summarizeForCompaction. destruct (isManagedGroupScope deps scopeId); [done|].
  destruct (compactHistory deps) as [compact|]; [|done].
  destruct (sessionPlan deps history scopeId model) as [plan|]; [|done].
  destruct (toSummarize plan) as [|b batch] eqn:Eb; [done|].
  destruct (compactedScopeLabel (b :: batch) scopeId orgScopeId) as [label|] eqn:El; [|done].
  destruct (Str.truthy label); [|done]. destruct (compact (b :: batch)) as [text|]; cbn [obind]; [|done].
  intros [= <-]. exists plan. rewrite Eb. by split_and!.
Qed.

(** A summary written after the log has grown by entries that are no summaries. *)
Lemma write_transparent deps log more sid scopeId orgScopeId model incl z summary :
  let history := forModelContext incl log in
  log_ok sid (log ++ more) -> (forall e, e ∈ more -> isSummary e = false) ->
  summarizeForCompaction deps history scopeId orgScopeId model = Ok (Some z) ->
  contextSummaryPayload summary = Some (mkSummary (sm_throughSeq z) (sm_text z)) ->
  replayable summary = true -> securityTainted summary = sm_securityTainted z ->
  exists overflow rest, overflow <> [] /\ rest <> []
    /\ entriesAfter (latestSummary history) history = overflow ++ rest
    /\ forModelContext incl ((log ++ more) ++ [summary]) = summary :: rest ++ visibleOf incl more
    /\ forall e cid, last overflow = Some e -> SessionEntry.type e = "tool_call" -> callIdOf e = Some cid ->
         cid ∈ resultIds overflow.
Proof.
  intros history Hlog Hmore Hz Hs Hrep Hst. unfold history in *.
  destruct (summarize_plan _ _ _ _ _ _ Hz) as (plan & Hp & Hne & _ & Hq & Htaint).
  destruct (plan_batch_subset _ _ _ _ _ _ Hp Hne) as [Hr Hsub].
  destruct (plan_shape _ _ _ _ _ _ Hp Hr) as (n & Htk & Hdr & Hk & _ & Hpair). cbn zeta in *.
  pose proof (log_sorted _ _ Hlog) as Hsort.
  assert (log_ok sid log) as Hlog1 by (intros k e He; apply Hlog; by apply lookup_app_l_Some).
  eexists (take n _), (drop n _). rewrite take_drop. split_and!; try done.
  rewrite (forModelContext_snoc _ _ _ _ Hs Hrep).
  - cbn [throughSeq]. rewrite Hq, <- Hk. f_equal.
    pose proof (plan_keeps_rest incl log _ _ _ _ _ (log_sorted _ _ Hlog1)
             (fun e He => proj1 (log_ok_seq _ _ _ Hlog1 He)) Hp Hr) as Hkeep.
    unfold visibleOf in *. rewrite !List.filter_app, Hkeep. f_equal. apply Arr.filter_all.
    intros e [_ [_ He]%Arr.elem_of_filter]%Arr.elem_of_filter. rewrite (Hmore e He). cbn.
    destruct (kept plan) as [|y k]; [by rewrite <- Hk in Hdr|].
    pose proof (list_elem_of_here y k) as Hy. rewrite <- Hkeep in Hy.
    apply Arr.elem_of_filter in Hy as [Hy1 [_ [_ Hy2]%Arr.elem_of_filter]%Arr.elem_of_filter].
    pose proof (Arr.sorted_app _ _ _ Hsort y e Hy2 He) as Hye. unfold seqOrder in Hye. js_bool. apply Z.ltb_lt. lia.
  - rewrite Hst, Htaint. destruct incl; [done|]. apply negb_true_iff, Arr.existsb_false. intros e He%Hsub.
    destruct (forModelContext_shape false log) as (Q & _ & _ & _ & Hshown). by apply Hshown, negb_true_iff in He.
Qed.

Lemma background_summarized deps sid scopeId orgScopeId incl st z snapshotSeq :
  log_ok sid (logOf sid st) ->
  backgroundSummarize deps sid scopeId orgScopeId incl st = Ok (Some (z, snapshotSeq)) ->
  summarizeForCompaction deps (forModelContext incl (logOf sid st)) scopeId orgScopeId None = Ok (Some z)
  /\ snapshotSeq = Z.of_nat (length (logOf sid st)) - 1.
Proof.
  intros Hlog. unfold backgroundSummarize. destruct (get sid st); [|done]. rewrite getEntries_all by done.
  destruct (overBudgetFraction _ _ _ _); cbn [negb]; [|done].
  destruct (summarizeForCompaction _ _ _ _ _) as [[z'|]|]; cbn; [|done|done]. intros [= -> <-]. split; [done|].
  destruct (logOf sid st) as [|e log] eqn:E using rev_ind; [done|]. rewrite last_snoc.
  destruct (Hlog (length log) e) as [-> _]; [by apply list_lookup_middle|]. rewrite length_app. cbn. lia.
Qed.

(** C24: compaction in the background is transparent.  Between the snapshot that
    is summarised and the writing of the summary the log may grow by [more].  If a
    summary is among it, nothing is written.  Otherwise the model afterwards sees
    the new summary, then exactly the last entries of the snapshot it saw that
    were not summarised, then what it sees of [more].  At least one entry is
    summarised and one kept, and the summarised part does not end in a tool call
    whose result is not part of it. *)
Theorem compaction_transparent (deps : Deps) (ttl : Z) (st st1 : Store) (lease : Lease) (scopeId orgScopeId : ScopeId)
    (incl : bool) (z : Summarized) (snapshotSeq now : Z) (more : list SessionEntry.t) (held : Held.t) :
  let sid := l_session lease in
  let history := forModelContext incl (logOf sid st) in
  log_ok sid (logOf sid st1) -> logOf sid st1 = logOf sid st ++ more ->
  JMap.get (leases st1) sid = Some held -> Held.token held = l_token lease ->
  backgroundSummarize deps sid scopeId orgScopeId incl st = Ok (Some (z, snapshotSeq)) ->
  let log' := logOf sid (backgroundWrite ttl sid lease z snapshotSeq now st1) in
  if existsb isSummary more then log' = logOf sid st1
  else exists summary overflow rest, overflow <> [] /\ rest <> []
    /\ entriesAfter (latestSummary history) history = overflow ++ rest
    /\ contextSummaryPayload summary = Some (mkSummary (sm_throughSeq z) (sm_text z))
    /\ forModelContext incl log' = summary :: rest ++ visibleOf incl more
    /\ forall e cid, last overflow = Some e -> SessionEntry.type e = "tool_call" -> callIdOf e = Some cid ->
         cid ∈ resultIds overflow.
Proof.
  intros sid history Hlog Hgrow Hheld Htok Hbg log'.
  assert (log_ok sid (logOf sid st)) as Hlog0.
  { intros k e He. apply Hlog. rewrite Hgrow. by apply lookup_app_l_Some. }
  destruct (background_summarized _ _ _ _ _ _ _ _ Hlog0 Hbg) as [Hz ->]. subst log'. unfold backgroundWrite.
  rewrite (since_growth sid st1 (logOf sid st) more Hlog Hgrow), releaseLease_log. destruct (existsb isSummary more) eqn:Em; [done|].
  rewrite Arr.existsb_false in Em.
  assert (logOf sid st1 <> []) as Hne.
  { destruct (summarize_plan _ _ _ _ _ _ Hz) as (plan & Hp & Hne & _). intros E. rewrite Hgrow in E.
    apply app_nil in E as [E _]. rewrite E in Hp. by vm_compute in Hp. }
  destruct (writeCompaction_ok ttl sid lease z now st1 held Hheld Htok Hne) as (summary & st2 & Ew). rewrite Ew. cbn [snd].
  destruct (writeCompaction_log _ _ _ _ _ _ _ _ _ Ew) as (_ & Hl' & Hsum). fold sid in Hl', Hsum. rewrite Hl', Hgrow.
  destruct (summaryEntry_payload z sid (Z.of_nat (length (logOf sid st1)))
    (if Z.of_nat (length (logOf sid st1)) === 0 then None else Some (Z.of_nat (length (logOf sid st1)) - 1)) now) as (Hs & Hrep & Hst).
  cbn zeta in *. rewrite <- Hsum in Hs, Hrep, Hst. rewrite Hgrow in Hlog.
  destruct (write_transparent _ _ _ _ _ _ _ _ _ _ Hlog Em Hz Hs Hrep Hst) as (o & r & ? & ? & ? & ? & ?).
  exists summary, o, r. by split_and!.
Qed.

(** ** Facts about the bounds *)
#[local] Arguments Z.add : simpl never.
#[local] Arguments Z.sub : simpl never.

Fixpoint tokensOf (l : list SessionEntry.t) : Z := match l with [] => 0 | e :: l => entryTokens e + tokensOf l end.

Lemma tokensOf_app l1 l2 : tokensOf (l1 ++ l2) = tokensOf l1 + tokensOf l2.
Proof. induction l1 as [|e l1 IH]; cbn; lia. Qed.

Lemma tokensOf_reverse l : tokensOf (reverse l) = tokensOf l.
Proof. induction l as [|e l IH]; [done|]. rewrite reverse_cons, tokensOf_app, IH. cbn. lia. Qed.

Lemma estimateHistoryTokens_sum l : estimateHistoryTokens l = tokensOf l.
Proof.
  unfold estimateHistoryTokens. enough (forall n, foldl (fun t e => t + entryTokens e) n l = n + tokensOf l) as -> by lia.
  induction l as [|e l IH]; intros n; cbn [foldl]; [cbn; lia|]. rewrite IH. cbn. lia.
Qed.

(** Either at most one entry is counted or all that are fit. *)
Lemma recentLoop_tokens l : forall count tokens maxCount maxTokens,
  0 <= count -> count <= 1 \/ tokens <= maxTokens ->
  let r := recentLoop l count tokens maxCount maxTokens in
  r <= 1 \/ tokens + tokensOf (take (Z.to_nat (r - count)) l) <= maxTokens.
Proof.
  induction l as [|e l IH]; intros count tokens maxCount maxTokens H0 H; cbn zeta; cbn [recentLoop].
  { rewrite take_nil. cbn. lia. }
  assert (count <= 1 \/ tokens + tokensOf (take (Z.to_nat (count - count)) (e :: l)) <= maxTokens) as Hstop.
  { rewrite Z.sub_diag, Z2Nat.inj_0. cbn. lia. }
  destruct (maxCount <=? count); [done|]. destruct (_ && _) eqn:Ec; [done|].
  destruct (IH (count + 1) (tokens + entryTokens e) maxCount maxTokens) as [?|Hr]; [lia| |by left|].
  - apply andb_false_iff in Ec as [?%Z.leb_gt|?%Z.ltb_ge]; [left; lia|by right].
  - right. set (r := recentLoop l _ _ _ _) in *.
    destruct (recentLoop_bounds l (count + 1) (tokens + entryTokens e) maxCount maxTokens) as [Hb _]. fold r in Hb.
    replace (Z.to_nat (r - count)) with (S (Z.to_nat (r - (count + 1)))) by lia. cbn. lia.
Qed.

Lemma recent_tokens l maxCount maxTokens :
  let n := recentEntryCountWithinBudget l maxCount maxTokens in
  n <= 1 \/ estimateHistoryTokens (drop (Z.to_nat (Z.of_nat (length l) - n)) l) <= maxTokens.
Proof.
  cbn zeta. set (n := recentEntryCountWithinBudget l maxCount maxTokens).
  destruct (recentLoop_tokens (reverse l) 0 0 maxCount maxTokens) as [H|H]; [lia|by left; lia|by left|right].
  fold (recentEntryCountWithinBudget l maxCount maxTokens) in H. fold n in H.
  rewrite estimateHistoryTokens_sum, <- tokensOf_reverse.
  destruct (recentCount_bounds l maxCount maxTokens) as [Hb _]. fold n in Hb.
  rewrite take_reverse in H. replace (Z.to_nat (Z.of_nat (length l) - n)) with (length l - Z.to_nat (n - 0))%nat by lia. lia.
Qed.

Lemma boundRecent_fits deps h maxTokens :
  1 <= maxContextEntries deps -> Z.of_nat (length (boundRecent deps h maxTokens)) <= maxContextEntries deps.
Proof.
  intros Hmax. unfold boundRecent. destruct (List.find isSummary h) as [s|]; cbn [length]; rewrite length_drop.
  - pose proof (recentCount_bounds (withoutFirst isSummary h) (maxContextEntries deps - 1) (maxTokens - entryTokens s)). lia.
  - pose proof (recentCount_bounds h (maxContextEntries deps) maxTokens). lia.
Qed.

(** The context fits.  A history over the threshold is brought down to the
    maximal number of entries, whether it is summarised or only cut; when it is
    only cut, the entries it ends with also fit the token budget, unless there is
    just one of them.  A history under the threshold, and then the store too, is
    left as it is. *)
Theorem compacted_context_fits (deps : Deps) (ttl : Z) (sid : string) (lease : Lease) (h : list SessionEntry.t)
    (scopeId orgScopeId : ScopeId) (model : option string) (now : Z) (st st' : Store)
    (h' : list SessionEntry.t) (failed : bool) :
  1 <= maxContextEntries deps ->
  compactContextIfNeeded deps ttl sid lease h scopeId orgScopeId model now st = (Ok (h', failed), st') ->
  let budget := tokenBudgetFor deps (Some scopeId) model in
  (overBudgetFraction h (maxContextEntries deps) budget COMPACT_HARD_FRACTION = false /\ h' = h /\ st' = st)
  \/ (Z.of_nat (length h') <= maxContextEntries deps
      /\ (isSummary <$> head h' = Some true \/ Z.of_nat (length h') <= 1 \/ estimateHistoryTokens h' <= budget)).
Proof.
  intros Hmax. unfold compactContextIfNeeded. destruct (overBudgetFraction _ _ _ _); cbn [negb]; [|intros [= <- _ <-]; by left].
  unfold applyCompaction. destruct (summarizeForCompaction deps h scopeId orgScopeId model) as [[z|]|]; [| |done].
  - destruct (writeCompaction ttl sid lease z now st) as [[[summary mirrored]|] st1] eqn:Ew; [|done].
    intros [= <- _ _]. right. cbn [length head fmap option_fmap option_map]. rewrite length_drop. split; [lia|left].
    destruct (writeCompaction_log _ _ _ _ _ _ _ _ _ Ew) as (_ & _ & ->). unfold isSummary.
    by rewrite (proj1 (summaryEntry_payload z _ _ _ now)).
  - intros [= <- _ _]. right. split; [by apply boundRecent_fits|]. unfold boundRecent.
    destruct (List.find isSummary h) as [s|] eqn:Es.
    + left. cbn. apply Arr.find_elem in Es as [_ Es]. by rewrite Es.
    + right. destruct (recent_tokens h (maxContextEntries deps) (tokenBudgetFor deps (Some scopeId) model)) as [H|H]; [left|by right].
      rewrite length_drop. pose proof (recentCount_bounds h (maxContextEntries deps) (tokenBudgetFor deps (Some scopeId) model)). lia.
Qed.
End compaction.

(** ** The label of a summary *)
Lemma labelsOfKind_in k labels label :
  label ∈ labelsOfKind k labels <-> label ∈ labels /\ exists r, label = scopeId k r.
Proof.
  unfold labelsOfKind. rewrite Arr.elem_of_filter, bool_decide_eq_true. destruct (parseScopeId label) as [k' r] eqn:E. cbn.
  split.
  - intros [-> Hin]. split; [done|]. exists r. by apply parseScopeId_iff.
  - intros [Hin (r' & ->)]. rewrite parse_scopeId in E. by simplify_eq.
Qed.

Lemma only_Some {A} (xs : list A) x : only xs = Some x -> xs = [x].
Proof. destruct xs as [|y [|z xs]]; cbn; congruence. Qed.

(** A scope that people are entitled to only by being the floor of the session. *)
Definition plainScope (s : ScopeId) : Prop :=
  forall r, s <> scopeId ScopeKind.personal r /\ s <> scopeId ScopeKind.team r.

(** A summary leaks nothing.  When everybody in a non-empty audience may see
    all entries of a batch and the scopes of the session and the organisation are
    neither personal nor a team's, whoever may later see the summary by its label
    may see every entry it stands for, as long as people keep their teams.  A batch
    with content of two persons or two teams gets no label and is not
    summarised. *)
Theorem compacted_label_safe (batch : list SessionEntry.t) (sess orgS label : ScopeId)
    (p : Principal.t) (ps : list Principal.t) (q : Principal.t) :
  plainScope sess -> plainScope orgS ->
  (forall e, e ∈ batch -> allEntitled (p :: ps) (SessionEntry.scopeLabel e) sess orgS = true) ->
  compactedScopeLabel batch sess orgS = Some label ->
  (Principal.id p = Principal.id q ->
   forall t, t ∈ default [] (Principal.teamIds p) -> t ∈ default [] (Principal.teamIds q)) ->
  principalEntitledToScope q label sess orgS = true ->
  forall e, e ∈ batch -> principalEntitledToScope q (SessionEntry.scopeLabel e) sess orgS = true.
Proof.
  intros Hsess Horg Hall Hlabel Hteams Hq e He.
  assert (forall e, e ∈ batch -> SessionEntry.scopeLabel e ∈ Arr.dedup (map SessionEntry.scopeLabel batch)) as Hin.
  { intros x Hx. rewrite Arr.elem_of_dedup. by apply list_elem_of_fmap_2. }
  assert (forall l, l ∈ Arr.dedup (map SessionEntry.scopeLabel batch) ->
    l = orgS \/ l = sess \/ l = scopeId ScopeKind.personal (Principal.id p)
    \/ exists t, t ∈ default [] (Principal.teamIds p) /\ l = scopeId ScopeKind.team t) as Hp.
  { intros l Hl. rewrite Arr.elem_of_dedup in Hl. apply list_elem_of_fmap in Hl as (x & -> & Hx).
    apply principalEntitledToScope_iff. specialize (Hall x Hx). cbn in Hall. by apply andb_true_iff in Hall as [? _]. }
  rewrite principalEntitledToScope_iff in Hq |- *. specialize (Hin e He). specialize (Hp _ Hin) as Hpe.
  set (le := SessionEntry.scopeLabel e) in *. revert Hlabel. unfold compactedScopeLabel. cbn zeta.
  set (labels := Arr.dedup _) in *.
  case_bool_decide as Epers; cbn [negb].
  2: { intros Honly%only_Some.
       assert (label ∈ labelsOfKind ScopeKind.personal labels) as [Hl (r & ->)]%labelsOfKind_in by (rewrite Honly; left).
       assert (r = Principal.id p) as ->.
       { destruct (Hp _ Hl) as [E|[E|[E|(t & _ & E)]]]; [by destruct (Horg r) as [[] _]|by destruct (Hsess r) as [[] _]| |];
           by apply scopeId_inj in E as [? ?]. }
       assert (Principal.id p = Principal.id q) as Eid.
       { destruct Hq as [E|[E|[E|(t & _ & E)]]]; [by destruct (Horg (Principal.id p)) as [[] _]
           |by destruct (Hsess (Principal.id p)) as [[] _]| |]; by apply scopeId_inj in E as [? ?]. }
       rewrite <- Eid. destruct Hpe as [?|[?|[?|(t & Ht & ?)]]]; eauto 10. }
  assert (forall r, le <> scopeId ScopeKind.personal r) as Hnp.
  { intros r E. assert (le ∈ labelsOfKind ScopeKind.personal labels) as Hx by (apply labelsOfKind_in; eauto).
    rewrite Epers in Hx. by apply not_elem_of_nil in Hx. }
  destruct Hpe as [?|[?|[E|(t & Ht & Et)]]]; [by left|by right; left|by destruct (Hnp _ E)|].
  assert (le ∈ labelsOfKind ScopeKind.team labels) as Hx by (apply labelsOfKind_in; eauto).
  case_bool_decide as Eteam; cbn [negb]; [rewrite Eteam in Hx; by apply not_elem_of_nil in Hx|].
  intros Honly%only_Some. rewrite Honly in Hx. apply list_elem_of_singleton in Hx. rewrite Hx. exact Hq.
Qed.

(** Without those conditions the label may tell too much.  A batch that was not
    filtered for an audience, as in the background, may mix a person's content
    with that of a team she is not in; and when the session's scope is itself
    personal, its label stands for all of the content although every participant of
    the session is entitled to it. *)
Lemma compacted_label_leaks :
  let entry l := SessionEntry.mk "s" 0 None "user" JNull l 0 in
  let alice := Principal.mk "alice" internal None None in
  let bob := Principal.mk "bob" internal None None in
  let batch := [entry "personal:alice"; entry "team:finance"] in
  (compactedScopeLabel batch "channel:general" "org:acme" = Some "personal:alice"
   /\ principalEntitledToScope alice "personal:alice" "channel:general" "org:acme" = true
   /\ principalEntitledToScope alice "team:finance" "channel:general" "org:acme" = false)
  /\ (compactedScopeLabel batch "personal:alice" "org:acme" = Some "personal:alice"
      /\ principalEntitledToScope bob "personal:alice" "personal:alice" "org:acme" = true
      /\ principalEntitledToScope bob "team:finance" "personal:alice" "org:acme" = false).
Proof. vm_compute. by split_and!. Qed.

(** ** Witnesses *)
Lemma compacted_label_safe_witness :
  let entry l := SessionEntry.mk "s" 0 None "user" JNull l 0 in
  let alice := Principal.mk "alice" internal (Some ["finance"]) None in
  principalEntitledToScope alice (SessionEntry.scopeLabel (entry "team:finance")) "channel:general" "org:acme" = true.
Proof.
  intros entry alice.
  apply (compacted_label_safe [entry "personal:alice"; entry "team:finance"] "channel:general" "org:acme"
           "personal:alice" alice [] alice); try done.
  - intros e [->|[->|He]%elem_of_cons]%elem_of_cons; [reflexivity..|by apply not_elem_of_nil in He].
  - apply elem_of_cons. right. apply list_elem_of_singleton. reflexivity.
Defined.

Lemma cached_estimates_exact_witness :
  let entry q := SessionEntry.mk "s" q None "user" (JObj [("text", JStr "hello")]) "org:acme" 0 in
  (estimateAll (fun _ => 1) json_to_string [] [entry 0; entry 1; entry 0]).1 = [1; 1; 1].
Proof.
  intros entry.
  apply (cached_estimates_exact (fun _ => 1) json_to_string [entry 0; entry 1; entry 0]).
  intros a b Ha Hb _. repeat (apply elem_of_cons in Ha as [->|Ha]); repeat (apply elem_of_cons in Hb as [->|Hb]);
    try (by apply not_elem_of_nil in Ha); try (by apply not_elem_of_nil in Hb); cbn; congruence.
Defined.

(** Three messages in a session whose context holds two. *)
Definition demoLog (n : nat) : list SessionEntry.t :=
  map (fun q => SessionEntry.mk "s" (Z.of_nat q) (if decide (q = O) then None else Some (Z.of_nat q - 1)) "user"
                  (JObj [("text", JStr "hello")]) "org:acme" 0) (seq 0 n).

Definition demoStore : Store :=
  mkStore [("s", Session.mk "s" kind_channel "channel:c" "t" None 0 None None)] [("s", demoLog 3)] [] [] [] []
    [("s", Held.mk "token" 100 0 None)].

Definition demoDeps : Deps := mkDeps (Some 2) (Some 100) None None (Some (fun _ => Ok "sum")).

Lemma demoLog_ok : log_ok "s" (logOf "s" demoStore).
Proof. intros n e Hn. do 3 (destruct n as [|n]; [by injection Hn as <-|]). done. Qed.

Lemma compaction_transparent_witness :
  exists summary overflow rest, overflow <> [] /\ rest <> []
    /\ demoLog 3 = overflow ++ rest
    /\ forModelContext true (logOf "s" (backgroundWrite 10 "s" (mkLease "s" "token")
          (mkSummarized "sum" "org:acme" 1 false) 2 5 demoStore)) = summary :: rest ++ [].
Proof.
  destruct (compaction_transparent (fun _ => 1) json_to_string demoDeps 10 demoStore demoStore (mkLease "s" "token")
    "channel:c" "org:acme" true (mkSummarized "sum" "org:acme" 1 false) 2 5 [] (Held.mk "token" 100 0 None)
    demoLog_ok ltac:(reflexivity) ltac:(reflexivity) ltac:(reflexivity) ltac:(vm_compute; reflexivity))
    as (summary & overflow & rest & H1 & H2 & H3 & _ & H4 & _).
  exists summary, overflow, rest. split; [exact H1|]. split; [exact H2|]. split; [exact H3|exact H4].
Defined.

Lemma compacted_context_fits_witness :
  exists h' failed st', compactContextIfNeeded (fun _ => 1) json_to_string demoDeps 10 "s" (mkLease "s" "token")
    (demoLog 3) "channel:c" "org:acme" None 5 demoStore = (Ok (h', failed), st') /\ Z.of_nat (length h') <= 2.
Proof.
  destruct (compactContextIfNeeded (fun _ => 1) json_to_string demoDeps 10 "s" (mkLease "s" "token")
    (demoLog 3) "channel:c" "org:acme" None 5 demoStore) as [r st'] eqn:E.
  assert (exists h' failed, r = Ok (h', failed)) as (h' & failed & ->).
  { apply (f_equal fst) in E. vm_compute in E. subst r. by do 2 eexists. }
  exists h', failed, st'. split; [reflexivity|].
  destruct (compacted_context_fits (fun _ => 1) json_to_string demoDeps 10 "s" (mkLease "s" "token") (demoLog 3)
              "channel:c" "org:acme" None 5 demoStore st' h' failed ltac:(done) E) as [(H & _)|[H _]];
    [vm_compute in H; discriminate H|exact H].
Defined.
