(* ===== verification/Turns.v ===== *)
(** * Turns: where a turn comes from, and how it ends

    [src/core/turn-origin.ts] (the typed origin of a turn, the flags older
    surfaces still send, and the merge of the two), [src/core/turn-outcome.ts]
    (whether a finished turn waits for an approval) and the destination records
    of [src/types.ts] they carry. *)

From Stdlib Require Import ZArith Lia Ascii.
From S2P Require Import Prelude Collections Scopes.

(** ** Destinations *)
Inductive TaskStatus := task_pending | task_in_progress | task_completed | task_skipped | task_failed.
#[global] Instance TaskStatus_eq_dec : EqDecision TaskStatus.
Proof. solve_decision. Defined.

Module Task.
Record t := mk {
  id : string; sessionId : string; originRunId : string; title : string;
  status : TaskStatus; createdAt : Z; updatedAt : Z;
}.
End Task.

Module Destination.
Record t := mk {
  type : string;
  target : string;
  audienceScopeId : option ScopeId;
  onBehalfOf : option string;
  editRef : option string;
  taskList : option (list (string * string * TaskStatus));
  unfurlLinks : option bool;
  react : option (string * string);
  delete_ : option string;
  identity : option string;
  debugFooter : option string;
}.
#[global] Instance eq_dec : EqDecision t.
Proof. solve_decision. Defined.

(** [{ type, target }] *)
Definition to (type target : string) : t :=
  mk type target None None None None None None None None None.

(** [{ ...d, editRef }] *)
Definition with_editRef (d : t) (r : string) : t :=
  mk (type d) (target d) (audienceScopeId d) (onBehalfOf d) (Some r) (taskList d)
    (unfurlLinks d) (react d) (delete_ d) (identity d) (debugFooter d).
End Destination.

(** ** Origins *)
Module TurnOrigin.
Inductive t :=
| human (messageTs entryTs : option string)
| ambient (entryTs : option string) (live : option bool)
| automation (screenData : option string) (destination : option Destination.t)
    (useOwnerKeychain : option bool)
| direct.
#[global] Instance eq_dec : EqDecision t.
Proof. solve_decision. Defined.
End TurnOrigin.

(** The flags of a [TurnRequest] that predate the typed origin. *)
Record LegacyTurnOrigin := mkLegacy {
  triggerTs : option string;
  entryTs : option string;
  triggered : option bool;
  securityScreenData : option string;
  triggerDestination : option Destination.t;
  ownerKeychainUnion : option bool;
  unprompted : option bool;
  liveActor : option bool;
}.

Definition is_true (b : option bool) : bool := b === Some true.

(** [...(s ? { k: s } : {})] for a string: kept when truthy. *)
Definition keepTruthy (s : option string) : option string :=
  match s with Some t => if Str.truthy t then Some t else None | None => None end.

(** [...(b === true ? { k: true } : {})] *)
Definition keepTrue (b : bool) : option bool := if b then Some true else None.

(** [a ?? b] *)
Definition nullish {A : Type} (a b : option A) : option A :=
  match a with Some _ => a | None => b end.

Definition normalizeTurnOrigin (input : LegacyTurnOrigin) : TurnOrigin.t :=
  if is_true (triggered input) then
    TurnOrigin.automation (securityScreenData input) (triggerDestination input)
      (keepTrue (is_true (ownerKeychainUnion input)))
  else if is_true (unprompted input) then
    TurnOrigin.ambient (keepTruthy (entryTs input)) (keepTrue (is_true (liveActor input)))
  else if is_true (liveActor input) then
    TurnOrigin.human (keepTruthy (triggerTs input)) (keepTruthy (entryTs input))
  else TurnOrigin.direct.

Definition rank (o : TurnOrigin.t) : Z :=
  match o with
  | TurnOrigin.direct => 0
  | TurnOrigin.human _ _ => 1
  | TurnOrigin.ambient _ _ => 2
  | TurnOrigin.automation _ _ _ => 3
  end.

Definition typedData := "Typed automation data:" +:+ String "010"%char "".
Definition legacyData := String "010"%char (String "010"%char "Legacy automation data:") +:+ String "010"%char "".

Definition mergeScreenData (typed legacy : option string) : option string :=
  match typed with
  | None => legacy
  | Some t =>
      match legacy with
      | Some l => if t !== l then Some (typedData +:+ t +:+ legacyData +:+ l) else typed
      | None => typed
      end
  end.

#[global] Arguments mergeScreenData : simpl never.

Definition hasLegacy (input : LegacyTurnOrigin) : bool :=
  is_true (triggered input) || is_true (unprompted input) || is_true (liveActor input).

Definition resolveTurnOrigin (origin : option TurnOrigin.t) (input : LegacyTurnOrigin) : TurnOrigin.t :=
  match origin with
  | None => normalizeTurnOrigin input
  | Some typed =>
      if negb (hasLegacy input) then typed else
      let legacy := normalizeTurnOrigin input in
      if rank typed !== rank legacy then
        if (rank legacy <? rank typed)%Z then typed else legacy
      else
      match typed, legacy with
      | TurnOrigin.automation s d k, TurnOrigin.automation s' d' k' =>
          TurnOrigin.automation (mergeScreenData s s') (nullish d d')
            (keepTrue (is_true k || is_true k'))
      | TurnOrigin.human m e, TurnOrigin.human m' e' =>
          TurnOrigin.human (keepTruthy (nullish m m')) (keepTruthy (nullish e e'))
      | TurnOrigin.ambient e l, TurnOrigin.ambient e' l' =>
          TurnOrigin.ambient (keepTruthy (nullish e e')) (keepTrue (is_true l || is_true l'))
      | _, _ => typed
      end
  end.

Definition noLegacy : LegacyTurnOrigin := mkLegacy None None None None None None None None.

Definition turnOriginRequestFields (origin : TurnOrigin.t) : LegacyTurnOrigin :=
  match origin with
  | TurnOrigin.human messageTs entryTs =>
      mkLegacy (keepTruthy messageTs) (keepTruthy entryTs) None None None None None (Some true)
  | TurnOrigin.ambient entryTs live =>
      mkLegacy None (keepTruthy entryTs) None None None None (Some true) (keepTrue (is_true live))
  | TurnOrigin.automation screenData destination useOwnerKeychain =>
      mkLegacy None None (Some true) screenData destination (keepTrue (is_true useOwnerKeychain))
        None None
  | TurnOrigin.direct => noLegacy
  end.

(** ** Outcomes *)
Record TurnOutcomeInput := mkOutcomeInput {
  o_reply : option string;
  o_attachments : Z;
  o_issues : Z;
  pendingApprovals : list (option string);  (** the [kind] of each *)
  terminatedOnApproval : bool;
}.

Record TurnOutcome := mkOutcome {
  completed : bool; paused : bool; approvalsBlock : bool; awaitingApproval : bool
}.

Definition approvalBlocksInput (kind : option string) (approvalsBlock : bool) : bool :=
  (kind !== Some "input") && approvalsBlock.

Definition deriveTurnOutcome (i : TurnOutcomeInput) : TurnOutcome :=
  let completed := match o_reply i with Some r => Str.truthy (Str.trim r) | None => false end
                   || (0 <? o_attachments i)%Z || (0 <? o_issues i)%Z in
  let paused := negb (bool_decide (pendingApprovals i = [])) && negb completed in
  let block := paused || terminatedOnApproval i in
  mkOutcome completed paused block
    (block && existsb (fun kind => approvalBlocksInput kind block) (pendingApprovals i)).

Inductive AfterTurn := idle | awaiting_approval.

Definition sessionStateAfterTurn (o : TurnOutcome) : AfterTurn :=
  if awaitingApproval o then awaiting_approval else idle.

(** ** Facts *)

Lemma keepTruthy_idem s : keepTruthy (keepTruthy s) = keepTruthy s.
Proof. unfold keepTruthy. destruct s as [s|]; [|done]. destruct (Str.truthy s) eqn:E; [by rewrite E|done]. Qed.

Lemma is_true_keepTrue b : is_true (keepTrue b) = b.
Proof. by destruct b. Qed.

#[export] Hint Rewrite keepTruthy_idem is_true_keepTrue : brain.

(** What an origin carries once empty time stamps and false flags, which mean
    the same as absent ones, are dropped. *)
Definition canonicalOrigin (o : TurnOrigin.t) : TurnOrigin.t :=
  match o with
  | TurnOrigin.human m e => TurnOrigin.human (keepTruthy m) (keepTruthy e)
  | TurnOrigin.ambient e l => TurnOrigin.ambient (keepTruthy e) (keepTrue (is_true l))
  | TurnOrigin.automation s d k => TurnOrigin.automation s d (keepTrue (is_true k))
  | TurnOrigin.direct => TurnOrigin.direct
  end.

Lemma merge_same s : mergeScreenData s s = s.
Proof. destruct s as [s|]; [|done]. unfold mergeScreenData. by rewrite bool_decide_eq_true_2. Qed.

(** An origin survives the trip through the request flags: what
    [turnOriginRequestFields] writes, [normalizeTurnOrigin] reads back, up to
    empty time stamps and flags that are not true; and a request that carries
    both the typed origin and its flags resolves to that same origin. *)
Theorem turn_origin_roundtrip (o : TurnOrigin.t) :
  normalizeTurnOrigin (turnOriginRequestFields o) = canonicalOrigin o
  /\ canonicalOrigin (resolveTurnOrigin (Some o) (turnOriginRequestFields o)) = canonicalOrigin o.
Proof.
  split.
  - destruct o as [m e|e l|s d k|]; unfold normalizeTurnOrigin; cbn;
      autorewrite with brain; reflexivity.
  - destruct o as [m e|e l|s d k|].
    + destruct m as [[]|], e as [[]|]; reflexivity.
    + destruct e as [[]|], l as [[]|]; reflexivity.
    + change (canonicalOrigin (TurnOrigin.automation (mergeScreenData s s) (nullish d d)
                (keepTrue (is_true k || is_true (keepTrue (is_true (keepTrue (is_true k)))))))
              = TurnOrigin.automation s d (keepTrue (is_true k))).
      rewrite merge_same. cbn. autorewrite with brain. rewrite orb_diag. by destruct d.
    + reflexivity.
Qed.

Definition declared (origin : option TurnOrigin.t) (input : LegacyTurnOrigin) (o : TurnOrigin.t) : Prop :=
  origin = Some o \/ normalizeTurnOrigin input = o.

Lemma hasLegacy_direct input : hasLegacy input = false -> normalizeTurnOrigin input = TurnOrigin.direct.
Proof.
  unfold hasLegacy, normalizeTurnOrigin. intros [[-> ->]%orb_false_iff ->]%orb_false_iff. done.
Qed.

Lemma rank_nonneg o : (0 <= rank o)%Z.
Proof. destruct o; cbn; lia. Qed.

Lemma resolve_rank origin input :
  rank (resolveTurnOrigin origin input)
  = Z.max (from_option rank 0%Z origin) (rank (normalizeTurnOrigin input)).
Proof.
  pose proof (rank_nonneg (normalizeTurnOrigin input)) as Hn.
  unfold resolveTurnOrigin. destruct origin as [typed|]; cbn [from_option]; [|lia].
  pose proof (rank_nonneg typed).
  destruct (hasLegacy input) eqn:Hl; cbn [negb]; [|rewrite (hasLegacy_direct _ Hl); cbn; lia].
  case_bool_decide as Hr; cbn [negb].
  - rewrite <- Hr, Z.max_id. clear Hr.
    destruct typed, (normalizeTurnOrigin input); reflexivity.
  - destruct (_ <? _)%Z eqn:E; js_bool; lia.
Qed.

Lemma merge_keeps_typed t l : exists sd, mergeScreenData (Some t) l = Some sd /\ Str.includes sd t = true.
Proof.
  unfold mergeScreenData. destruct l as [l|]; [|eauto with brain].
  case_bool_decide; cbn [negb]; eauto with brain.
Qed.

Lemma merge_keeps_legacy t l : exists sd, mergeScreenData t (Some l) = Some sd /\ Str.includes sd l = true.
Proof.
  unfold mergeScreenData. destruct t as [t|]; [|eauto with brain].
  case_bool_decide; cbn [negb]; [subst|]; eauto 7 with brain.
Qed.

(** Mixing a typed origin with the older flags never makes a turn look less
    automated than either of them says: the kind of the resolved origin is the
    more restricted of the two, and text that either one declares as automation
    data to be screened is part of what the resolved origin has screened. *)
Theorem turn_origin_never_lowered (origin : option TurnOrigin.t) (input : LegacyTurnOrigin) :
  rank (resolveTurnOrigin origin input)
    = Z.max (from_option rank 0%Z origin) (rank (normalizeTurnOrigin input))
  /\ forall text d k, declared origin input (TurnOrigin.automation (Some text) d k) ->
     exists screened d' k',
       resolveTurnOrigin origin input = TurnOrigin.automation (Some screened) d' k'
       /\ Str.includes screened text = true.
Proof.
  split; [apply resolve_rank|]. intros text d k Hd.
  unfold resolveTurnOrigin. destruct origin as [typed|].
  2:{ destruct Hd as [|Hd]; [done|]. rewrite Hd. eauto 6 with brain. }
  destruct (hasLegacy input) eqn:Hl; cbn [negb].
  2:{ apply hasLegacy_direct in Hl. destruct Hd as [[= ->]|Hd]; [eauto 6 with brain|congruence]. }
  destruct Hd as [[= ->]|Hd]; [set (legacy := normalizeTurnOrigin input)|rewrite Hd].
  - destruct legacy as [| |s d' k'|]; cbn; eauto 6 with brain.
    destruct (merge_keeps_typed text s) as (sd & -> & ?). eauto.
  - destruct typed as [| |s d' k'|]; cbn; eauto 6 with brain.
    destruct (merge_keeps_legacy s text) as (sd & -> & ?). eauto.
Qed.

Lemma sessionStateAfterTurn_awaiting o :
  sessionStateAfterTurn o = awaiting_approval <-> awaitingApproval o = true.
Proof. unfold sessionStateAfterTurn. by destruct (awaitingApproval o). Qed.

(** After a turn the session waits for an approval exactly when a pending
    approval that is not a mere request for input is outstanding and the turn
    either stopped for it or produced nothing (no reply text, no attachment, no
    issue); otherwise it is idle. *)
Theorem awaiting_approval_exact (i : TurnOutcomeInput) :
  sessionStateAfterTurn (deriveTurnOutcome i) = awaiting_approval <->
  (exists kind, kind ∈ pendingApprovals i /\ kind <> Some "input")
  /\ (terminatedOnApproval i = true
      \/ ((forall r, o_reply i = Some r -> Str.trim r = "")
          /\ (o_attachments i <= 0)%Z /\ (o_issues i <= 0)%Z)).
Proof.
  rewrite sessionStateAfterTurn_awaiting. unfold deriveTurnOutcome. cbn.
  set (completed := _ || (0 <? o_attachments i)%Z || _).
  assert (completed = false <-> (forall r, o_reply i = Some r -> Str.trim r = "")
            /\ (o_attachments i <= 0)%Z /\ (o_issues i <= 0)%Z) as <-.
  { unfold completed. rewrite !orb_false_iff, !Z.ltb_ge.
    destruct (o_reply i) as [r|]; [|naive_solver].
    unfold Str.truthy. rewrite negb_false_iff, bool_decide_eq_true. naive_solver. }
  set (block := _ || terminatedOnApproval i).
  rewrite andb_true_iff, Arr.existsb_elem.
  assert (block = true <-> (pendingApprovals i <> [] /\ completed = false)
                           \/ terminatedOnApproval i = true) as Hblock.
  { unfold block. by rewrite orb_true_iff, andb_true_iff, !negb_true_iff, bool_decide_eq_false. }
  assert (forall kind, approvalBlocksInput kind block = true <-> kind <> Some "input" /\ block = true) as Hk.
  { intros kind. unfold approvalBlocksInput. by rewrite andb_true_iff, negb_true_iff, bool_decide_eq_false. }
  setoid_rewrite Hk. rewrite Hblock. split; [naive_solver|]. intros ((kind & Hin & Hne) & Hb).
  assert (pendingApprovals i <> []) by (intros E; rewrite E in Hin; set_solver).
  clearbody completed. split; [|exists kind]; destruct Hb; intuition.
Qed.
