(* ===== verification/Delivery.v ===== *)
(** * The delivery outbox

    [src/delivery/delivery-store.ts]: replies leave the system through an outbox
    keyed by an idempotency key, claimed by surfaces for a limited time and
    acknowledged once; and [src/delivery/run-result-delivery.ts]: what a finished
    run puts into it.  A method of the in-memory store has no [await], so it is
    one atomic transition; [Date.now()] and [randomUUID()] are arguments.
    Listeners are named, and their calls are recorded in [wakes]. *)

From Stdlib Require Import ZArith Lia Ascii.
From S2P Require Import Prelude Collections Scopes Turns Runs Sessions.
Open Scope Z_scope.

Module DeliveryProvenance.
Record t := mk {
  trigger : string;
  surface : string;
  fireKey : string;
  sourceScopeId : ScopeId;
  sourceThreadRef : string;
  sourceSessionId : option string;
  sourceUserSeq : option Z;
  sourceAssistantEntrySeq : option Z;
}.
End DeliveryProvenance.

Module Delivery.
Record t := mk {
  id : string;
  destination : Destination.t;
  text : string;
  attachments : option (list BlobAttachment.t);
  provenance : option DeliveryProvenance.t;
  idempotencyKey : string;
  createdAt : Z;
  deliveredAt : option Z;
  shadow : option bool;
  recipientThreadRef : option string;
  deliverLatencyMs : option Z;
  slackApiMs : option Z;
}.

(** The fields that are assigned in place. *)
Definition assign (d : t) (dest : Destination.t) (delivered : option Z)
    (thread : option string) (latency api : option Z) : t :=
  mk (id d) dest (text d) (attachments d) (provenance d) (idempotencyKey d) (createdAt d)
    delivered (shadow d) thread latency api.
End Delivery.

Module Outbox.
Record Store := mkStore {
  deliveries : jmap string Delivery.t;
  byKey : jmap string string;
  claimedUntil : jmap string Z;
  enqueueListeners : list string;
  wakes : list string;
}.

Definition empty : Store := mkStore [] [] [] [] [].

Definition write (st : Store) (d : Delivery.t) : Store :=
  mkStore (JMap.set (deliveries st) (Delivery.id d) d) (byKey st) (claimedUntil st)
    (enqueueListeners st) (wakes st).

(** [deliveries.set(d.id, d); byKey.set(d.idempotencyKey, d.id)] *)
Definition add (st : Store) (d : Delivery.t) : Store :=
  mkStore (JMap.set (deliveries st) (Delivery.id d) d)
    (JMap.set (byKey st) (Delivery.idempotencyKey d) (Delivery.id d)) (claimedUntil st)
    (enqueueListeners st) (wakes st).

Record EnqueueInput := mkEnqueue {
  destination : Destination.t;
  text : string;
  attachments : option (list BlobAttachment.t);
  provenance : option DeliveryProvenance.t;
  idempotencyKey : string;
  shadow : option bool;
}.

(** [...(l?.length ? { l } : {})] *)
Definition keepNonEmpty {A : Type} (l : option (list A)) : option (list A) :=
  match l with Some (_ :: _) => l | _ => None end.

Definition isShadow (d : Delivery.t) : bool := is_true (Delivery.shadow d).

(** The id of the delivery under a key, and the row it names. *)
Definition lookupKey (st : Store) (key : string) : option string :=
  keepTruthy (JMap.get (byKey st) key).

Definition newDelivery (input : EnqueueInput) (uuid : string) (now : Z) : Delivery.t :=
  Delivery.mk uuid (destination input) (text input) (keepNonEmpty (attachments input))
    (provenance input) (idempotencyKey input) now None
    (keepTrue (is_true (shadow input))) None None None.

Definition wakeListeners (st : Store) (d : Delivery.t) : Store :=
  if isShadow d then st else
  mkStore (deliveries st) (byKey st) (claimedUntil st) (enqueueListeners st)
    (wakes st ++ enqueueListeners st).

(** [deliveries.get(existingId)!] is [undefined] for a dangling id. *)
Definition enqueue (input : EnqueueInput) (uuid : string) (now : Z) (st : Store)
    : option Delivery.t * Store :=
  match lookupKey st (idempotencyKey input) with
  | Some existingId => (JMap.get (deliveries st) existingId, st)
  | None =>
      let delivery := newDelivery input uuid now in
      (Some delivery, wakeListeners (add st delivery) delivery)
  end.

Definition waiting (type : string) (d : Delivery.t) : bool :=
  (Delivery.deliveredAt d === None) && negb (isShadow d)
  && (Destination.type (Delivery.destination d) === type).

Definition pending (type : string) (st : Store) : list Delivery.t :=
  List.filter (waiting type) (JMap.values (deliveries st)).

Definition claimable (type : string) (now : Z) (st : Store) (d : Delivery.t) : bool :=
  waiting type d && (default 0 (JMap.get (claimedUntil st) (Delivery.id d)) <=? now).

Definition claimPending (type : string) (ttlMs now : Z) (st : Store) : list Delivery.t * Store :=
  let rows := List.filter (claimable type now st) (JMap.values (deliveries st)) in
  (rows, mkStore (deliveries st) (byKey st)
           (foldl (fun c d => JMap.set c (Delivery.id d) (now + ttlMs)) (claimedUntil st) rows)
           (enqueueListeners st) (wakes st)).

Definition limitOr (fallback : Z) (limit : option Z) : nat := Z.to_nat (Z.max 1 (default fallback limit)).

Definition listShadow (limit : option Z) (st : Store) : list Delivery.t :=
  take (limitOr 100 limit)
    (Arr.sort (Arr.by_key_desc Delivery.createdAt)
       (List.filter (fun d => isShadow d && (Delivery.deliveredAt d === None))
          (JMap.values (deliveries st)))).

Definition ack (id : string) (at_ : Z) (slackApiMs : option Z) (st : Store) : Store :=
  match JMap.get (deliveries st) id with
  | Some d =>
      if Delivery.deliveredAt d === None then
        write st (Delivery.assign d (Delivery.destination d) (Some at_) (Delivery.recipientThreadRef d)
                    (Some (Z.max 0 (at_ - Delivery.createdAt d)))
                    (nullish slackApiMs (Delivery.slackApiMs d)))
      else st
  | None => st
  end.

(** [if (d.deliveredAt === null) d.deliveredAt = at] *)
Definition markDelivered (d : Delivery.t) (at_ : Z) : Delivery.t :=
  Delivery.assign d (Delivery.destination d) (nullish (Delivery.deliveredAt d) (Some at_))
    (Delivery.recipientThreadRef d) (Delivery.deliverLatencyMs d) (Delivery.slackApiMs d).

Definition tombstone (key : string) (uuid : string) (at_ : Z) : Delivery.t :=
  Delivery.mk uuid (Destination.to "ack-tombstone" "") "" None None key at_ (Some at_) None None None None.

Definition ackByKey (key : string) (at_ : Z) (uuid : string) (st : Store) : Store :=
  match lookupKey st key with
  | Some existingId =>
      match JMap.get (deliveries st) existingId with
      | Some d => write st (markDelivered d at_)
      | None => st
      end
  | None => add st (tombstone key uuid at_)
  end.

Definition setEditRefByKey (key editRef : string) (st : Store) : Store :=
  match lookupKey st key ≫= JMap.get (deliveries st) with
  | Some d =>
      if Delivery.deliveredAt d === None then
        write st (Delivery.assign d (Destination.with_editRef (Delivery.destination d) editRef)
                    (Delivery.deliveredAt d) (Delivery.recipientThreadRef d)
                    (Delivery.deliverLatencyMs d) (Delivery.slackApiMs d))
      else st
  | None => st
  end.

Definition get (id : string) (st : Store) : option Delivery.t := JMap.get (deliveries st) id.

Definition recordRecipientThread (id threadRef : string) (at_ : Z) (st : Store) : Store :=
  match JMap.get (deliveries st) id with
  | Some d =>
      if Destination.type (Delivery.destination d) !== "principal" then st else
      let d' := Delivery.assign d (Delivery.destination d) (Delivery.deliveredAt d) (Some threadRef)
                  (Delivery.deliverLatencyMs d) (Delivery.slackApiMs d) in
      write st (markDelivered d' at_)
  | None => st
  end.

Definition lastByAge (limit : option Z) (p : Delivery.t -> bool) (st : Store) : list Delivery.t :=
  Arr.slice_last (limitOr 20 limit)
    (Arr.sort (Arr.by_key Delivery.createdAt) (List.filter p (JMap.values (deliveries st)))).

Definition listByRecipientThread (threadRef : string) (limit : option Z) (st : Store) : list Delivery.t :=
  lastByAge limit (fun d => (Delivery.recipientThreadRef d === Some threadRef)
                            && (Destination.type (Delivery.destination d) === "principal")) st.

Definition fromSource (sessionId threadRef : string) (d : Delivery.t) : bool :=
  ((Delivery.provenance d ≫= DeliveryProvenance.sourceSessionId) === Some sessionId)
  || ((DeliveryProvenance.sourceThreadRef <$> Delivery.provenance d) === Some threadRef).

Definition listBySourceSession (sessionId threadRef : string) (limit : option Z) (st : Store)
    : list Delivery.t := lastByAge limit (fromSource sessionId threadRef) st.

(** The session a sent delivery is counted for: by its session id when it
    carries one, else by its thread. *)
Definition countedFor (sources : list (string * string)) (d : Delivery.t) : option string :=
  if isShadow d then None else
  p ← Delivery.provenance d;
  match keepTruthy (DeliveryProvenance.sourceSessionId p) with
  | Some sid => if bool_decide (sid ∈ map fst sources) then Some sid else None
  | None =>
      ref ← keepTruthy (Some (DeliveryProvenance.sourceThreadRef p));
      keepTruthy (JMap.get (foldl (fun m s => JMap.set m s.2 s.1) [] sources) ref)
  end.

Definition bump (counts : jmap string Z) (id : string) : jmap string Z :=
  JMap.set counts id (default 0 (JMap.get counts id) + 1).

Definition sentCountsBySourceSessions (sources : list (string * string)) (st : Store) : jmap string Z :=
  foldl (fun counts d => match countedFor sources d with Some id => bump counts id | None => counts end)
    [] (JMap.values (deliveries st)).

Definition cronOf (wanted : list string) (d : Delivery.t) : option (string * string) :=
  if isShadow d then None else
  p ← Delivery.provenance d;
  ref ← keepTruthy (Some (DeliveryProvenance.sourceThreadRef p));
  cronId ← keepTruthy (cronIdOf (Some ref));
  if bool_decide (cronId ∈ wanted)
  then Some (cronId, default ref (DeliveryProvenance.sourceSessionId p)) else None.

Definition sentRunCountsByCron (cronIds : list string) (st : Store) : jmap string Z :=
  let runs := foldl (fun (runs : jmap string (list string)) d =>
                match cronOf cronIds d with
                | Some (c, src) => JMap.set runs c (Arr.add (default [] (JMap.get runs c)) src)
                | None => runs
                end) [] (JMap.values (deliveries st)) in
  map (fun e => (e.1, Z.of_nat (length e.2))) runs.

Definition onEnqueue (listener : string) (st : Store) : Store :=
  mkStore (deliveries st) (byKey st) (claimedUntil st) (Arr.add (enqueueListeners st) listener) (wakes st).

Definition offEnqueue (listener : string) (st : Store) : Store :=
  mkStore (deliveries st) (byKey st) (claimedUntil st)
    (List.filter (fun l => l !== listener) (enqueueListeners st)) (wakes st).

(** ** Sequences of calls *)
Inductive op :=
| Enqueue (input : EnqueueInput) (uuid : string)
| Claim (type : string) (ttlMs : Z)
| Ack (id : string) (at_ : Z) (slackApiMs : option Z)
| AckByKey (key : string) (at_ : Z) (uuid : string)
| SetEditRef (key editRef : string)
| RecordThread (id threadRef : string) (at_ : Z)
| OnEnqueue (listener : string)
| OffEnqueue (listener : string).

Definition exec (now : Z) (o : op) (st : Store) : Store :=
  match o with
  | Enqueue input uuid => (enqueue input uuid now st).2
  | Claim type ttlMs => (claimPending type ttlMs now st).2
  | Ack id at_ api => ack id at_ api st
  | AckByKey key at_ uuid => ackByKey key at_ uuid st
  | SetEditRef key editRef => setEditRefByKey key editRef st
  | RecordThread id threadRef at_ => recordRecipientThread id threadRef at_ st
  | OnEnqueue l => onEnqueue l st
  | OffEnqueue l => offEnqueue l st
  end.

(** [randomUUID()] is a non-empty string that no delivery has yet. *)
Definition fresh (st : Store) (o : op) : Prop :=
  match o with
  | Enqueue _ uuid | AckByKey _ _ uuid => uuid <> "" /\ JMap.get (deliveries st) uuid = None
  | _ => True
  end.

(** A step taken while the clock shows [now]. *)
Inductive stepAt (now : Z) : Store -> Store -> Prop :=
| step_op o st : fresh st o -> stepAt now st (exec now o st).

Definition step (st st' : Store) : Prop := exists now, stepAt now st st'.
Definition stepBefore (limit : Z) (st st' : Store) : Prop := exists now, now < limit /\ stepAt now st st'.
Definition reachable (st : Store) : Prop := rtc step empty st.

(** ** How a row may change *)
Record evolves (d d' : Delivery.t) : Prop := mkEvolves {
  ev_id : Delivery.id d' = Delivery.id d;
  ev_key : Delivery.idempotencyKey d' = Delivery.idempotencyKey d;
  ev_shadow : Delivery.shadow d' = Delivery.shadow d;
  ev_type : Destination.type (Delivery.destination d') = Destination.type (Delivery.destination d);
  ev_text : Delivery.text d' = Delivery.text d;
  ev_delivered : forall t, Delivery.deliveredAt d = Some t -> Delivery.deliveredAt d' = Some t;
}.

#[global] Instance evolves_preorder : PreOrder evolves.
Proof.
  split; [intros d; by split|].
  intros d1 d2 d3 [] []. split; try congruence; auto.
Qed.

Inductive change (st st' : Store) : Prop :=
| ch_none : deliveries st' = deliveries st -> byKey st' = byKey st -> change st st'
| ch_row d d' : JMap.get (deliveries st) (Delivery.id d) = Some d -> evolves d d' ->
    deliveries st' = JMap.set (deliveries st) (Delivery.id d) d' -> byKey st' = byKey st ->
    change st st'
| ch_add d : lookupKey st (Delivery.idempotencyKey d) = None ->
    JMap.get (deliveries st) (Delivery.id d) = None -> Delivery.id d <> "" ->
    deliveries st' = JMap.set (deliveries st) (Delivery.id d) d ->
    byKey st' = JMap.set (byKey st) (Delivery.idempotencyKey d) (Delivery.id d) -> change st st'.

Record inv (st : Store) : Prop := mkInv {
  inv_wf : JMap.wf (deliveries st);
  inv_id : forall i d, JMap.get (deliveries st) i = Some d ->
    Delivery.id d = i /\ i <> "" /\ JMap.get (byKey st) (Delivery.idempotencyKey d) = Some i;
  inv_key : forall k i, JMap.get (byKey st) k = Some i ->
    exists d, JMap.get (deliveries st) i = Some d /\ Delivery.idempotencyKey d = k;
}.

Lemma lookupKey_inv st k : inv st -> lookupKey st k = JMap.get (byKey st) k.
Proof.
  intros Hi. unfold lookupKey. destruct (JMap.get (byKey st) k) as [i|] eqn:E; [|done].
  destruct (inv_key _ Hi _ _ E) as (d & Hd & _). apply (inv_id _ Hi) in Hd as (_ & Hne & _).
  cbn. unfold Str.truthy. by rewrite bool_decide_eq_false_2.
Qed.

Lemma lookupKey_row st k i :
  inv st -> lookupKey st k = Some i ->
  exists d, JMap.get (deliveries st) i = Some d /\ Delivery.idempotencyKey d = k /\ Delivery.id d = i.
Proof.
  intros Hi Hk. rewrite (lookupKey_inv _ _ Hi) in Hk.
  destruct (inv_key _ Hi _ _ Hk) as (d & Hd & ?). exists d. split; [done|].
  by destruct (inv_id _ Hi _ _ Hd).
Qed.

Lemma evolves_assign d dest delivered thread latency api :
  Destination.type dest = Destination.type (Delivery.destination d) ->
  (forall t, Delivery.deliveredAt d = Some t -> delivered = Some t) ->
  evolves d (Delivery.assign d dest delivered thread latency api).
Proof. intros. by split. Qed.

Lemma change_write st d d' :
  JMap.get (deliveries st) (Delivery.id d) = Some d -> evolves d d' -> change st (write st d').
Proof. intros Hd He. apply (ch_row _ _ d d' Hd He); [|done]. cbn. by rewrite (ev_id _ _ He). Qed.

Lemma change_mark st d d1 at_ :
  JMap.get (deliveries st) (Delivery.id d) = Some d -> evolves d d1 ->
  change st (write st (markDelivered d1 at_)).
Proof.
  intros Hd He. apply (change_write st d); [done|]. etrans; [exact He|].
  apply evolves_assign; [done|]. by intros t ->.
Qed.

#[local] Hint Resolve evolves_assign : brain.

Lemma outbox_exec_change now o st : inv st -> fresh st o -> change st (exec now o st).
Proof.
  intros Hi Hf. destruct o as [input uuid|type ttl|i at_ api|key at_ uuid|key r|i ref at_|l|l];
    cbn [exec]; try (by apply ch_none).
  - unfold enqueue. destruct (lookupKey _ _) eqn:E; [by apply ch_none|]. destruct Hf as [Hne Hn].
    cbn [snd]. unfold wakeListeners. apply (ch_add _ _ (newDelivery input uuid now));
      [done..| |]; by destruct (isShadow _).
  - unfold ack. destruct (JMap.get _ _) as [d|] eqn:E; [|by apply ch_none].
    case_bool_decide; [|by apply ch_none].
    destruct (inv_id _ Hi _ _ E) as [<- _]. apply (change_write st d); [done|].
    apply evolves_assign; [done|congruence].
  - unfold ackByKey. destruct (lookupKey _ _) as [i|] eqn:E.
    + destruct (lookupKey_row _ _ _ Hi E) as (d & Hd & _ & <-). rewrite Hd.
      by apply (change_mark st d).
    + destruct Hf. by apply (ch_add _ _ (tombstone key uuid at_)).
  - unfold setEditRefByKey. destruct (lookupKey _ _) as [i|] eqn:E; cbn; [|by apply ch_none].
    destruct (lookupKey_row _ _ _ Hi E) as (d & Hd & _ & <-). rewrite Hd.
    case_bool_decide; [|by apply ch_none]. apply (change_write st d); [done|].
    by apply evolves_assign.
  - unfold recordRecipientThread. destruct (JMap.get _ _) as [d|] eqn:E; [|by apply ch_none].
    destruct (_ !== _); [by apply ch_none|].
    destruct (inv_id _ Hi _ _ E) as [<- _]. apply (change_mark st d); [done|].
    by apply evolves_assign.
Qed.

Lemma change_inv st st' : inv st -> change st st' -> inv st'.
Proof.
  intros Hi Hc. destruct Hc as [Ed Ek|d d' Hd He Ed Ek|d Hk Hd Hne Ed Ek].
  - split; rewrite ?Ed, ?Ek; apply Hi.
  - destruct (inv_id _ Hi _ _ Hd) as (_ & Hne & Hkey). split; rewrite ?Ed, ?Ek.
    + apply JMap.wf_set, Hi.
    + intros i x. rewrite JMap.get_set. case_decide; [|apply Hi].
      intros [= <-]. subst i. by rewrite (ev_id _ _ He), (ev_key _ _ He).
    + intros k i Hg. destruct (inv_key _ Hi _ _ Hg) as (x & Hx & Hxk).
      rewrite JMap.get_set. case_decide; [|by exists x]. subst i.
      exists d'. split; [done|]. rewrite (ev_key _ _ He). congruence.
  - rewrite (lookupKey_inv _ _ Hi) in Hk. split; rewrite ?Ed, ?Ek.
    + apply JMap.wf_set, Hi.
    + intros i x. rewrite JMap.get_set. case_decide as Hdi.
      * intros [= <-]. subst i. by rewrite JMap.get_set_eq.
      * intros Hx. destruct (inv_id _ Hi _ _ Hx) as (-> & ? & Hxk). rewrite JMap.get_set_ne; [done|].
        intros E. rewrite E in Hk. congruence.
    + intros k i. rewrite JMap.get_set. case_decide as Hkk.
      * intros [= <-]. exists d. by rewrite JMap.get_set_eq.
      * intros Hg. destruct (inv_key _ Hi _ _ Hg) as (x & Hx & Hxk). exists x.
        split; [|done]. rewrite JMap.get_set_ne; [done|]. intros <-. congruence.
Qed.

Lemma change_row st st' i d :
  change st st' -> JMap.get (deliveries st) i = Some d ->
  exists d', JMap.get (deliveries st') i = Some d' /\ evolves d d'.
Proof.
  intros Hc Hd. destruct Hc as [Ed _|x d' Hx He Ed _|x _ Hx _ Ed _]; rewrite Ed.
  - by exists d.
  - rewrite JMap.get_set. case_decide; [|by exists d]. exists d'. split; [done|]. congruence.
  - rewrite JMap.get_set. case_decide; [congruence|]. by exists d.
Qed.

Lemma outbox_inv_empty : inv empty.
Proof. split; [constructor|done..]. Qed.

Lemma step_change st st' : inv st -> step st st' -> change st st'.
Proof. intros Hi (now & Hs). destruct Hs as [o st Hf]. by apply outbox_exec_change. Qed.

Lemma outbox_step_inv st st' : inv st -> step st st' -> inv st'.
Proof. eauto using change_inv, step_change. Qed.

Lemma outbox_steps_inv st st' : inv st -> rtc step st st' -> inv st'.
Proof. intros Hi H. induction H; eauto using outbox_step_inv. Qed.

Lemma outbox_reachable_inv st : reachable st -> inv st.
Proof. apply outbox_steps_inv, outbox_inv_empty. Qed.

Lemma steps_row st st' i d :
  inv st -> rtc step st st' -> JMap.get (deliveries st) i = Some d ->
  exists d', JMap.get (deliveries st') i = Some d' /\ evolves d d'.
Proof.
  intros Hi H. revert d. induction H as [st|st st1 st2 Hs _ IH]; intros d Hd; [by exists d|].
  destruct (change_row st st1 i d) as (d1 & Hd1 & He1); [|done|].
  - by apply step_change.
  - destruct (IH (outbox_step_inv _ _ Hi Hs) d1 Hd1) as (d2 & ? & ?). exists d2. split; [done|]. by etrans.
Qed.

(** Every row is found again under its id. *)
Lemma elem_row st d : inv st -> d ∈ JMap.values (deliveries st) ->
  JMap.get (deliveries st) (Delivery.id d) = Some d.
Proof.
  intros Hi (i & Hd)%JMap.elem_of_values; [|apply Hi]. by destruct (inv_id _ Hi _ _ Hd) as [-> _].
Qed.

Lemma row_elem st i d : inv st -> JMap.get (deliveries st) i = Some d -> d ∈ JMap.values (deliveries st).
Proof. intros Hi Hd. apply JMap.elem_of_values; [apply Hi|]. by exists i. Qed.

(** A key has one row. *)
Lemma key_unique st d d' : inv st -> d ∈ JMap.values (deliveries st) -> d' ∈ JMap.values (deliveries st) ->
  Delivery.idempotencyKey d = Delivery.idempotencyKey d' -> d = d'.
Proof.
  intros Hi H1%elem_row H2%elem_row Hk; [|done..].
  pose proof (inv_id _ Hi _ _ H1) as (_ & _ & E1). pose proof (inv_id _ Hi _ _ H2) as (_ & _ & E2).
  congruence.
Qed.

(** ** Claims *)
Lemma get_foldl_claims (rows : list Delivery.t) (v : Z) c i :
  JMap.get (foldl (fun c d => JMap.set c (Delivery.id d) v) c rows) i
  = if decide (i ∈ map Delivery.id rows) then Some v else JMap.get c i.
Proof.
  revert c. induction rows as [|d rows IH]; intros c; cbn; [by case_decide; [set_solver|]|].
  rewrite IH, JMap.get_set. repeat case_decide; set_solver.
Qed.

Lemma claimPending_elem type ttl now st d :
  d ∈ (claimPending type ttl now st).1 <->
  d ∈ JMap.values (deliveries st) /\ waiting type d = true
  /\ default 0 (JMap.get (claimedUntil st) (Delivery.id d)) <= now.
Proof.
  unfold claimPending, claimable. cbn [fst].
  rewrite Arr.elem_of_filter, andb_true_iff, Z.leb_le. tauto.
Qed.

Lemma exec_claims now o st i v :
  JMap.get (claimedUntil st) i = Some v -> now < v ->
  inv st -> JMap.get (claimedUntil (exec now o st)) i = Some v.
Proof.
  intros Hv Hlt Hi. destruct o as [input uuid|type ttl|j at_ api|key at_ uuid|key r|j ref at_|l|l]; cbn [exec].
  - unfold enqueue. destruct (lookupKey _ _); [done|]. unfold wakeListeners. cbn. by destruct (isShadow _).
  - cbn. rewrite get_foldl_claims. case_decide as Hin; [|done]. exfalso.
    apply list_elem_of_fmap in Hin as (d & -> & Hd).
    apply (claimPending_elem type ttl now st d) in Hd as (_ & _ & Hle). rewrite Hv in Hle. cbn in Hle. lia.
  - unfold ack. destruct (JMap.get (deliveries st) j); [|done]. by destruct (_ === _).
  - unfold ackByKey. destruct (lookupKey st key) as [j|]; [|done]. by destruct (JMap.get (deliveries st) j).
  - unfold setEditRefByKey. destruct (_ ≫= _); [|done]. by destruct (_ === _).
  - unfold recordRecipientThread. destruct (JMap.get (deliveries st) j); [|done]. by destruct (_ !== _).
  - done.
  - done.
Qed.

Lemma before_step limit st st' : stepBefore limit st st' -> step st st'.
Proof. intros (now & _ & H). by exists now. Qed.

Lemma before_steps limit st st' : rtc (stepBefore limit) st st' -> rtc step st st'.
Proof. apply rtc_subrel, before_step. Qed.

Lemma before_claims limit st st' i :
  inv st -> JMap.get (claimedUntil st) i = Some limit -> rtc (stepBefore limit) st st' ->
  JMap.get (claimedUntil st') i = Some limit.
Proof.
  intros Hi Hc H. induction H as [|st st1 st2 Hs _ IH]; [done|].
  apply IH; [eauto using outbox_step_inv, before_step|].
  destruct Hs as (now & Hlt & Hs). destruct Hs as [o st Hf]. by apply exec_claims.
Qed.

Lemma claim_inv type ttl now st : inv st -> inv (claimPending type ttl now st).2.
Proof. intros Hi. apply (change_inv st); [done|]. by apply ch_none. Qed.

Lemma claim_row type ttl now st d :
  inv st -> d ∈ (claimPending type ttl now st).1 ->
  JMap.get (deliveries st) (Delivery.id d) = Some d /\ waiting type d = true
  /\ JMap.get (claimedUntil (claimPending type ttl now st).2) (Delivery.id d) = Some (now + ttl).
Proof.
  intros Hi Hd. pose proof (claimPending_elem type ttl now st d) as [H _].
  destruct (H Hd) as (Hin & Hw & _). split; [by apply elem_row|]. split; [done|].
  cbn. rewrite get_foldl_claims, decide_True; [done|].
  apply (list_elem_of_fmap_2 Delivery.id _ d), Hd.
Qed.

Lemma evolves_waiting type d d' :
  evolves d d' -> Delivery.deliveredAt d' = None -> waiting type d = true -> waiting type d' = true.
Proof.
  intros [] Hn. unfold waiting, isShadow. rewrite ev_shadow0, ev_type0, Hn.
  rewrite (bool_decide_eq_true_2 (None = None)) by done. by intros [[_ ->]%andb_true_iff ->]%andb_true_iff.
Qed.

(** ** Properties *)

(** A message sent twice under one idempotency key is one delivery: no two
    rows share a key, and once a key has been enqueued every later enqueue of it
    returns that first delivery, with the first text, and changes nothing. *)
Theorem outbox_once_per_key (st st' : Store) (input input' : EnqueueInput) (uuid uuid' : string)
    (now now' : Z) (first : Delivery.t) :
  reachable st -> fresh st (Enqueue input uuid) ->
  (enqueue input uuid now st).1 = Some first ->
  rtc step (enqueue input uuid now st).2 st' ->
  idempotencyKey input' = idempotencyKey input ->
  (exists d, enqueue input' uuid' now' st' = (Some d, st')
             /\ Delivery.id d = Delivery.id first /\ Delivery.text d = Delivery.text first)
  /\ forall d d', d ∈ JMap.values (deliveries st') -> d' ∈ JMap.values (deliveries st') ->
       Delivery.idempotencyKey d = Delivery.idempotencyKey d' -> d = d'.
Proof.
  intros Hr Hf Hfirst Hs Hk. apply outbox_reachable_inv in Hr.
  assert (inv (enqueue input uuid now st).2) as Hi1.
  { apply (outbox_step_inv st); [done|]. exists now. by apply (step_op now (Enqueue input uuid)). }
  assert (JMap.get (deliveries (enqueue input uuid now st).2) (Delivery.id first) = Some first
          /\ Delivery.idempotencyKey first = idempotencyKey input) as [Hg Hfk].
  { revert Hfirst. unfold enqueue. destruct (lookupKey st (idempotencyKey input)) as [i|] eqn:E; cbn.
    - destruct (lookupKey_row _ _ _ Hr E) as (d & Hd & ? & <-). intros [= <-]%(eq_trans (eq_sym Hd)). done.
    - intros [= <-]. split; [|done]. unfold wakeListeners. destruct (isShadow _); cbn; apply JMap.get_set_eq. }
  assert (inv st') as Hi' by (by eapply outbox_steps_inv).
  destruct (steps_row _ _ _ _ Hi1 Hs Hg) as (d & Hd & He).
  pose proof (inv_id _ Hi' _ _ Hd) as (Hid & _ & Hdk).
  split; [|by intros; eapply key_unique]. exists d. split; [|by destruct He].
  unfold enqueue. rewrite (lookupKey_inv _ _ Hi'), Hk, <- Hfk, <- (ev_key _ _ He), Hdk. by rewrite Hd.
Qed.

(** What has been acknowledged under its key is never sent again, whichever
    came first: after [ackByKey] no later call hands out a delivery with that
    key, not even when the message is enqueued only after the acknowledgement. *)
Theorem acked_key_never_claimed (st st' : Store) (key uuid type : string) (at_ ttl now : Z) (d : Delivery.t) :
  reachable st -> fresh st (AckByKey key at_ uuid) ->
  rtc step (ackByKey key at_ uuid st) st' ->
  d ∈ (claimPending type ttl now st').1 \/ d ∈ pending type st' ->
  Delivery.idempotencyKey d <> key.
Proof.
  intros Hr Hf Hs Hd Hk. apply outbox_reachable_inv in Hr.
  assert (inv (ackByKey key at_ uuid st)) as Hi1.
  { apply (outbox_step_inv st); [done|]. exists 0. by apply (step_op 0 (AckByKey key at_ uuid)). }
  assert (exists i x, JMap.get (deliveries (ackByKey key at_ uuid st)) i = Some x
            /\ Delivery.idempotencyKey x = key /\ is_Some (Delivery.deliveredAt x)) as (i & x & Hx & Hxk & t & Ht).
  { unfold ackByKey. destruct (lookupKey st key) as [i|] eqn:E.
    - destruct (lookupKey_row _ _ _ Hr E) as (x & Hx & ? & <-). rewrite Hx.
      exists (Delivery.id x), (markDelivered x at_). cbn. rewrite JMap.get_set_eq.
      split_and!; [done..|]. destruct (Delivery.deliveredAt x); eauto.
    - exists uuid, (tombstone key uuid at_). cbn. rewrite JMap.get_set_eq. eauto. }
  assert (inv st') as Hi' by (by eapply outbox_steps_inv).
  destruct (steps_row _ _ _ _ Hi1 Hs Hx) as (x' & Hx' & He).
  assert (d ∈ JMap.values (deliveries st') /\ Delivery.deliveredAt d = None) as [Hin Hnone].
  { unfold pending in Hd. rewrite claimPending_elem, Arr.elem_of_filter in Hd.
    unfold waiting in Hd. destruct Hd as [(? & Hw & _)|(Hw & ?)]; js_bool; done. }
  assert (d = x') as ->.
  { eapply key_unique; [done|done|by eapply row_elem|]. rewrite (ev_key _ _ He). congruence. }
  rewrite (ev_delivered _ _ He t Ht) in Hnone. done.
Qed.

(** A claimed delivery belongs to its claimer until the claim lapses, and is
    not lost after that: before [now + ttl] no call hands it out again, whatever
    else happens; from then on the next claim of its surface gets it, unless it
    has been delivered. *)
Theorem claim_exclusive_until_lapse (st st' : Store) (type type' : string)
    (ttl now ttl' now' : Z) (d : Delivery.t) :
  reachable st -> d ∈ (claimPending type ttl now st).1 ->
  rtc (stepBefore (now + ttl)) (claimPending type ttl now st).2 st' ->
  (now' < now + ttl ->
   forall d', d' ∈ (claimPending type' ttl' now' st').1 -> Delivery.id d' <> Delivery.id d)
  /\ (now + ttl <= now' ->
      exists d', get (Delivery.id d) st' = Some d'
        /\ (Delivery.deliveredAt d' = None -> d' ∈ (claimPending type ttl' now' st').1)).
Proof.
  intros Hr Hd Hs. apply outbox_reachable_inv in Hr.
  destruct (claim_row _ _ _ _ _ Hr Hd) as (Hg & Hw & Hc).
  pose proof (claim_inv type ttl now st Hr) as Hi1.
  pose proof (before_claims _ _ _ _ Hi1 Hc Hs) as Hc'.
  split.
  - intros Hlt d' Hd' E. apply claimPending_elem in Hd' as (_ & _ & Hle).
    rewrite E, Hc' in Hle. cbn in Hle. lia.
  - intros Hge. destruct (steps_row _ st' (Delivery.id d) d Hi1 (before_steps _ _ _ Hs) Hg) as (d' & Hd' & He).
    exists d'. split; [done|]. intros Hn.
    assert (inv st') as Hi' by (eapply outbox_steps_inv; [done|by eapply before_steps]).
    apply claimPending_elem. split; [by eapply row_elem|]. split; [by eapply evolves_waiting|].
    rewrite (ev_id _ _ He), Hc'. done.
Qed.
End Outbox.

(** ** What a finished run delivers *)
Module RunResult.

(** The part of the queued request that decides about the delivery. *)
Record RunRequest := mkRequest {
  surface : option string;
  deliveryTarget : option string;
  addressed : option bool;
  surfaceTools : option bool;
  origin : option TurnOrigin.t;
  legacyOrigin : LegacyTurnOrigin;
}.

Record RunResultDelivery := mkResultDelivery {
  destination : Destination.t;
  text : string;
  attachments : option (list BlobAttachment.t);
  idempotencyKey : string;
}.

Definition SECURITY_QUARANTINE_REFUSAL_TEXT : string :=
  "I couldn't act because my security screen flagged part of this message or its conversation context. Please retry without the flagged context, or ask an admin to review the quarantine.".

Definition isAmbient (o : TurnOrigin.t) : bool :=
  match o with TurnOrigin.ambient _ _ => true | _ => false end.

Definition statusIs (r : option TurnResult.t) (st : TurnStatus.t) : bool :=
  match r with Some r => TurnResult.status r === st | None => false end.

Definition resultAttachments (r : option TurnResult.t) : option (list BlobAttachment.t) :=
  Outbox.keepNonEmpty (r ≫= TurnResult.attachments).

Definition hasAttachments (r : option TurnResult.t) : bool :=
  match resultAttachments r with Some _ => true | None => false end.

Definition runKey (run : Run RunRequest) : string := "run:" +:+ id run.

Definition runResultDelivery (run : Run RunRequest) (taskList : list Task.t) : option RunResultDelivery :=
  let req := request run in
  match keepTruthy (deliveryTarget req), keepTruthy (surface req) with
  | Some target, Some surf =>
      let editRef := deliveryState run ≫= keepTruthy in
      let destination :=
        Destination.mk surf target None None editRef
          (match taskList with
           | [] => None
           | _ => Some (map (fun t => (Task.id t, Task.title t, Task.status t)) taskList)
           end) None None None None None in
      let key := runKey run in
      if (surf === "slack") && statusIs (result run) TurnStatus.refused
         && match result run with Some r => TurnResult.security_quarantine r | None => false end
         && is_true (addressed req)
      then Some (mkResultDelivery destination SECURITY_QUARANTINE_REFUSAL_TEXT None key)
      else if is_true (surfaceTools req) && negb (statusIs (result run) TurnStatus.failed)
              && negb (hasAttachments (result run))
      then None
      else if status run === failed then
        if isAmbient (resolveTurnOrigin (origin req) (legacyOrigin req)) then None else
        let reason := default "unknown error" (result run ≫= TurnResult.reason) in
        Some (mkResultDelivery destination ("⚠️ I couldn't finish that turn: " +:+ reason) None key)
      else if statusIs (result run) TurnStatus.ok
              && (match keepTruthy (result run ≫= TurnResult.reply) with Some _ => true | None => false end
                  || hasAttachments (result run))
      then Some (mkResultDelivery destination (default "" (result run ≫= TurnResult.reply))
                   (resultAttachments (result run)) key)
      else None
  | _, _ => None
  end.





Definition wanted (tasks : string -> list Task.t) (run : Run RunRequest)
    : option (string * string * Destination.t) :=
  d ← runResultDelivery run (tasks (id run));
  Some (idempotencyKey d, text d, destination d).

















(** What a run delivers, and to whom: nothing without a surface and a
    target; a failed run that nobody asked for stays silent and any other failed
    one says so; the text of a run that succeeded is its reply.  A run whose
    surface tools answer for it delivers only failures and attachments, the
    refusal of an addressed Slack message for security reasons aside. *)
Theorem run_result_delivery_spec (run : Run RunRequest) (taskList : list Task.t) (d : RunResultDelivery) :
  runResultDelivery run taskList = Some d ->
  keepTruthy (surface (request run)) = Some (Destination.type (destination d))
  /\ keepTruthy (deliveryTarget (request run)) = Some (Destination.target (destination d))
  /\ idempotencyKey d = runKey run
  /\ ((statusIs (result run) TurnStatus.refused = true /\ is_true (addressed (request run)) = true
       /\ text d = SECURITY_QUARANTINE_REFUSAL_TEXT)
      \/ (status run = failed
          /\ isAmbient (resolveTurnOrigin (origin (request run)) (legacyOrigin (request run))) = false
          /\ attachments d = None)
      \/ (status run <> failed /\ statusIs (result run) TurnStatus.ok = true
          /\ text d = default "" (result run ≫= TurnResult.reply)
          /\ (is_true (surfaceTools (request run)) = true -> attachments d <> None))).
Proof.
  unfold runResultDelivery.
  destruct (keepTruthy (deliveryTarget (request run))), (keepTruthy (surface (request run))) as [surf|]; try done.
  destruct (_ && _ && _ && _) eqn:Eq.
  { intros [= <-]. cbn. js_bool. naive_solver. }
  clear Eq. destruct (is_true (surfaceTools _) && _ && _) eqn:Et; [done|].
  case_bool_decide as Hst.
  { destruct (isAmbient _); [done|]. intros [= <-]. cbn. naive_solver. }
  destruct (statusIs _ TurnStatus.ok && _) eqn:Eo; [|done]. intros [= <-]. cbn.
  apply andb_true_iff in Eo as [Hok _]. split_and!; [done..|]. right. right. split_and!; [done..|].
  intros Htools. rewrite Htools in Et. cbn in Et.
  assert (statusIs (result run) TurnStatus.failed = false) as Hf.
  { unfold statusIs in *. destruct (result run); [|done]. js_bool. rewrite Hok. by apply bool_decide_eq_false. }
  rewrite Hf in Et. unfold hasAttachments in Et. by destruct (resultAttachments (result run)).
Qed.
End RunResult.

(** *** Witnesses *)
Section witnesses.
Import Outbox.
Let slack := Destination.to "slack" "C1".
Let input := mkEnqueue slack "hello" None None "k1" None.
Let st1 := (enqueue input "d1" 10 empty).2.
Let st2 := (claimPending "slack" 100 20 st1).2.
Let row := newDelivery input "d1" 10.

Let st1_reachable : Outbox.reachable st1.
Proof.
  refine (rtc_once _ _ (ex_intro _ 10 (step_op 10 (Enqueue input "d1") empty _))).
  split; [discriminate|reflexivity].
Defined.

Lemma outbox_once_per_key_witness :
  exists d, enqueue (mkEnqueue slack "again" None None "k1" None) "d2" 30 st2 = (Some d, st2)
            /\ Delivery.id d = "d1" /\ Delivery.text d = "hello".
Proof.
  refine (proj1 (outbox_once_per_key empty st2 input (mkEnqueue slack "again" None None "k1" None)
            "d1" "d2" 10 30 row (rtc_refl _ _) _ eq_refl _ eq_refl)).
  - split; [discriminate|reflexivity].
  - refine (rtc_once _ _ (ex_intro _ 20 (step_op 20 (Claim "slack" 100) st1 I))).
Defined.

Lemma acked_key_never_claimed_witness :
  let st := (enqueue input "d1" 10 (ackByKey "k1" 5 "t1" empty)).2 in
  ~ (exists d, d ∈ pending "slack" st /\ Delivery.idempotencyKey d = "k1").
Proof.
  intros st (d & Hd & Hk).
  refine (acked_key_never_claimed empty st "k1" "t1" "slack" 5 100 20 d (rtc_refl _ _) _ _ (or_intror Hd) Hk).
  - split; [discriminate|reflexivity].
  - refine (rtc_once _ _ (ex_intro _ 10 (step_op 10 (Enqueue input "d1") _ _))).
    split; [discriminate|reflexivity].
Defined.

Lemma claim_exclusive_until_lapse_witness :
  exists d', get "d1" st2 = Some d' /\ d' ∈ (claimPending "slack" 100 120 st2).1.
Proof.
  destruct (proj2 (claim_exclusive_until_lapse st1 st2 "slack" "slack" 100 20 100 120 row st1_reachable
                     ltac:(left) (rtc_refl _ _)) ltac:(lia)) as (d' & Hd & Hc).
  exists d'. split; [exact Hd|]. apply Hc. injection Hd as <-. reflexivity.
Defined.

Import RunResult.
Let req := RunResult.mkRequest (Some "slack") (Some "C1") None None None noLegacy.
Let rin := Runs.mkEnqueue "thread-1" req None None.
Let s1 := (Runs.enqueue rin "r1" 10 Runs.empty).2.
Let s2 := (Runs.claim "w1" 1000 "tok" 20 s1).2.
Let okResult := TurnResult.mk TurnStatus.ok None (Some "hi") None false None.
Let s3 := (Runs.complete "r1" "tok" okResult 30 s2).2.
Let finished := default (newRun rin "r1" 10) (Runs.get "r1" s3).



Lemma run_result_delivery_spec_witness :
  exists d, runResultDelivery finished [] = Some d /\ idempotencyKey d = "run:r1".
Proof.
  destruct (runResultDelivery finished []) as [d|] eqn:E; [|discriminate E].
  exists d. split; [reflexivity|].
  exact (proj1 (proj2 (proj2 (run_result_delivery_spec finished [] d E)))).
Defined.
End witnesses.
