(* ===== verification/DurableMap.v ===== *)
(** * Durable maps: the storage interface of the smaller stores

    [src/persistence/durable-map.ts].  [DurableMap] is the interface the clients
    are written against, as a type class of operations; [DurableMapLaws] is what
    it promises; [Memory] is [createMemoryMap], with the instance that keeps the
    promise.  The PostgreSQL implementation is outside the model. *)

From Stdlib Require Import ZArith Lia.
From S2P Require Import Prelude Collections.

(** A patch or an update is the function it applies to the stored value. *)
Class DurableMap (M : Type -> Type) := {
  dm_empty {T} : M T;
  dm_get {T} : string -> M T -> option T;
  dm_entries {T} : M T -> list (string * T);
  dm_all {T} : M T -> list T;
  dm_put {T} : string -> T -> M T -> M T;
  dm_putIfAbsent {T} : string -> T -> M T -> T * M T;
  dm_insertIfAbsent {T} : string -> T -> M T -> bool * M T;
  dm_update {T} : string -> (T -> T) -> M T -> option T * M T;
  dm_deleteIf {T} : string -> (T -> bool) -> M T -> bool * M T;
  dm_delete {T} : string -> M T -> M T;
  dm_take {T} : string -> M T -> option T * M T;
}.

(** Every operation is determined by the partial function from ids to values. *)
Class DurableMapLaws (M : Type -> Type) `{DurableMap M} := {
  dm_get_empty {T} i : dm_get i (dm_empty : M T) = None;
  dm_get_put {T} i j (v : T) (m : M T) :
    dm_get j (dm_put i v m) = if decide (i = j) then Some v else dm_get j m;
  dm_get_delete {T} i j (m : M T) :
    dm_get j (dm_delete i m) = if decide (i = j) then None else dm_get j m;
  dm_entries_get {T} i (v : T) (m : M T) : (i, v) ∈ dm_entries m <-> dm_get i m = Some v;
  dm_entries_sorted {T} (m : M T) :
    StronglySorted (fun a b => Str.ltb a b = true) (map fst (dm_entries m));
  dm_all_entries {T} (m : M T) : dm_all m = map snd (dm_entries m);
  dm_putIfAbsent_spec {T} i (v : T) (m : M T) :
    dm_putIfAbsent i v m = match dm_get i m with Some w => (w, m) | None => (v, dm_put i v m) end;
  dm_insertIfAbsent_spec {T} i (v : T) (m : M T) :
    dm_insertIfAbsent i v m = match dm_get i m with Some _ => (false, m) | None => (true, dm_put i v m) end;
  dm_update_spec {T} i (f : T -> T) (m : M T) :
    dm_update i f m = match dm_get i m with Some v => (Some (f v), dm_put i (f v) m) | None => (None, m) end;
  dm_deleteIf_spec {T} i (p : T -> bool) (m : M T) :
    dm_deleteIf i p m = match dm_get i m with
                        | Some v => if p v then (true, dm_delete i m) else (false, m)
                        | None => (false, m)
                        end;
  dm_take_spec {T} i (m : M T) : dm_take i m = (dm_get i m, dm_delete i m);
}.

(** ** The in-memory map *)
Module Memory.

(** A [Map] has each key once. *)
Record t (T : Type) := mk { entries_of : jmap string T; entries_wf : JMap.wf entries_of }.
Arguments mk {T} entries_of entries_wf.
Arguments entries_of {T} m : rename.
Arguments entries_wf {T} m : rename.

Section ops.
Context {T : Type}.
Implicit Types (m : t T).

Definition byKeyLeb (a b : string * T) : bool := Str.leb a.1 b.1.

Definition sortedEntries m : list (string * T) := Arr.sort byKeyLeb (entries_of m).

Definition empty : t T := mk [] JMap.wf_nil.
Definition all m : list T := map snd (sortedEntries m).
Definition get (i : string) m : option T := JMap.get (entries_of m) i.

Definition put (i : string) (v : T) m : t T :=
  mk (JMap.set (entries_of m) i v) (JMap.wf_set _ _ _ (entries_wf m)).

Definition delete (i : string) m : t T :=
  mk (JMap.delete (entries_of m) i) (JMap.wf_delete _ _ (entries_wf m)).

Definition putIfAbsent (i : string) (v : T) m : T * t T :=
  match get i m with
  | Some existing => (existing, m)
  | None => (v, put i v m)
  end.

Definition insertIfAbsent (i : string) (v : T) m : bool * t T :=
  if JMap.has (entries_of m) i then (false, m) else (true, put i v m).

Definition update (i : string) (f : T -> T) m : option T * t T :=
  match get i m with
  | None => (None, m)
  | Some v => let next := f v in (Some next, put i next m)
  end.

Definition deleteIf (i : string) (predicate : T -> bool) m : bool * t T :=
  match get i m with
  | None => (false, m)
  | Some value => if negb (predicate value) then (false, m) else (true, delete i m)
  end.

Definition take (i : string) m : option T * t T := let v := get i m in (v, delete i m).

(** The keys of the sorted entries: distinct, hence strictly increasing. *)
Lemma sorted_keys_strict (l : list (string * T)) :
  JMap.wf l -> StronglySorted (fun a b => Str.ltb a b = true) (map fst (Arr.sort byKeyLeb l)).
Proof.
  intros Hwf. assert (NoDup (map fst (Arr.sort byKeyLeb l))) as Hnd.
  { rewrite (Arr.sort_perm byKeyLeb l). exact Hwf. }
  assert (StronglySorted (fun a b => byKeyLeb a b = true) (Arr.sort byKeyLeb l)) as Hs.
  { apply Arr.sort_sorted; unfold byKeyLeb; intros *; [apply Str.leb_total|apply Str.leb_trans]. }
  induction Hs as [|[k v] s Hs IH Hall]; cbn; [constructor|].
  cbn in Hnd. apply NoDup_cons in Hnd as [Hk Hnd]. constructor; [by apply IH|].
  apply Forall_map, Forall_forall. intros [k' v'] Hin. cbn.
  rewrite Forall_forall in Hall. specialize (Hall _ Hin). unfold byKeyLeb, Str.leb in Hall. cbn in Hall.
  apply negb_true_iff in Hall. destruct (Str.ltb k k') eqn:E; [done|].
  exfalso. apply Hk. rewrite (Str.ltb_total _ _ E Hall).
  by apply (list_elem_of_fmap_2 fst s (k', v')).
Qed.
End ops.
End Memory.

#[global] Instance memory_map : DurableMap Memory.t := {
  dm_empty T := Memory.empty;
  dm_get T := Memory.get;
  dm_entries T := Memory.sortedEntries;
  dm_all T := Memory.all;
  dm_put T := Memory.put;
  dm_putIfAbsent T := Memory.putIfAbsent;
  dm_insertIfAbsent T := Memory.insertIfAbsent;
  dm_update T := Memory.update;
  dm_deleteIf T := Memory.deleteIf;
  dm_delete T := Memory.delete;
  dm_take T := Memory.take;
}.

#[global] Instance memory_map_laws : DurableMapLaws Memory.t.
Proof.
  split; cbn; intros.
  - done.
  - apply JMap.get_set.
  - apply JMap.get_delete.
  - unfold Memory.sortedEntries, Memory.get. rewrite Arr.elem_of_sort.
    symmetry. apply JMap.get_iff, Memory.entries_wf.
  - apply Memory.sorted_keys_strict, Memory.entries_wf.
  - done.
  - done.
  - unfold Memory.insertIfAbsent, JMap.has, Memory.get. by destruct (JMap.get _ _).
  - done.
  - unfold Memory.deleteIf. destruct (Memory.get i m) as [v|]; [|done]. by destruct (p v).
  - done.
Qed.

(** ** Facts about any durable map *)
Section facts.
Context {M : Type -> Type} `{DurableMapLaws M} {T : Type}.
Implicit Types (m : M T).

Lemma dm_get_put_eq i (v : T) m : dm_get i (dm_put i v m) = Some v.
Proof. rewrite dm_get_put. by case_decide. Qed.

Lemma dm_get_put_ne i j (v : T) m : i <> j -> dm_get j (dm_put i v m) = dm_get j m.
Proof. intros. rewrite dm_get_put. by case_decide. Qed.

Lemma dm_get_update i j (f : T -> T) m :
  dm_get j (dm_update i f m).2 = if decide (i = j) then f <$> dm_get j m else dm_get j m.
Proof.
  rewrite dm_update_spec. destruct (dm_get i m) as [v|] eqn:E; cbn.
  - rewrite dm_get_put. case_decide; [|done]. subst j. by rewrite E.
  - case_decide; [|done]. subst j. by rewrite E.
Qed.

Lemma dm_all_get v m : v ∈ dm_all m <-> exists i, dm_get i m = Some v.
Proof.
  rewrite dm_all_entries, list_elem_of_fmap. setoid_rewrite <- dm_entries_get. split.
  - intros ([i w] & -> & Hi). by exists i.
  - intros (i & Hi). by exists (i, v).
Qed.
End facts.

Lemma strict_sorted_ext {T} (l1 l2 : list (string * T)) :
  StronglySorted (fun a b => Str.ltb a b = true) (map fst l1) ->
  StronglySorted (fun a b => Str.ltb a b = true) (map fst l2) ->
  (forall x, x ∈ l1 <-> x ∈ l2) -> l1 = l2.
Proof.
  revert l2. induction l1 as [|[k v] l1 IH]; intros [|[k' v'] l2] H1 H2 Hx.
  - done.
  - exfalso. apply (not_elem_of_nil (k', v')), Hx. by left.
  - exfalso. apply (not_elem_of_nil (k, v)), Hx. by left.
  - cbn in H1, H2. inversion_clear H1 as [|? ? Hs1 Ha1]. inversion_clear H2 as [|? ? Hs2 Ha2].
    rewrite Forall_map in Ha1, Ha2. rewrite Forall_forall in Ha1, Ha2.
    assert ((k, v) = (k', v')) as [= <- <-].
    { destruct (proj1 (elem_of_cons _ _ _) (proj1 (Hx (k, v)) ltac:(by left))) as [|Hin]; [done|].
      destruct (proj1 (elem_of_cons _ _ _) (proj2 (Hx (k', v')) ltac:(by left))) as [|Hin']; [done|].
      pose proof (Str.ltb_trans _ _ _ (Ha1 _ Hin') (Ha2 _ Hin)) as E. cbn in E.
      by rewrite Str.ltb_irrefl in E. }
    f_equal. apply IH; [done..|]. intros [j w].
    specialize (Hx (j, w)). rewrite !elem_of_cons in Hx. split; intros Hin.
    + destruct (proj1 Hx (or_intror Hin)) as [[= -> ->]|]; [|done].
      specialize (Ha1 _ Hin). cbn in Ha1. by rewrite Str.ltb_irrefl in Ha1.
    + destruct (proj2 Hx (or_intror Hin)) as [[= -> ->]|]; [|done].
      specialize (Ha2 _ Hin). cbn in Ha2. by rewrite Str.ltb_irrefl in Ha2.
Qed.

(** The enumerations of a durable map are determined by its lookups: two maps
    that answer every [get] alike, even from two implementations of the
    interface, list the same values in the same order, whatever sequence of
    writes produced them. *)
Theorem durable_map_enumeration_canonical {M M' : Type -> Type} `{DurableMapLaws M} `{DurableMapLaws M'}
    {T : Type} (m : M T) (m' : M' T) :
  (forall i, dm_get i m = dm_get i m') -> dm_entries m = dm_entries m' /\ dm_all m = dm_all m'.
Proof.
  intros Hget. assert (dm_entries m = dm_entries m') as E.
  { apply strict_sorted_ext; [apply dm_entries_sorted..|].
    intros [i v]. by rewrite !dm_entries_get, Hget. }
  split; [done|]. by rewrite !dm_all_entries, E.
Qed.

Lemma durable_map_enumeration_canonical_witness :
  let m := Memory.put "a" 1%Z (Memory.put "b" 2%Z Memory.empty) in
  let m' := Memory.put "b" 2%Z (Memory.delete "b" (Memory.put "a" 1%Z (Memory.put "b" 3%Z Memory.empty))) in
  Memory.entries_of m <> Memory.entries_of m' /\ dm_entries m = dm_entries m'.
Proof.
  split; [vm_compute; discriminate|].
  apply durable_map_enumeration_canonical. intros i.
  change (JMap.get [("b", 2%Z); ("a", 1%Z)] i = JMap.get [("a", 1%Z); ("b", 2%Z)] i).
  cbn. repeat case_bool_decide; simplify_eq; reflexivity.
Defined.
