(* ===== verification/Directory.v ===== *)
(** * The directory: people, channels and groups, and who may see what

    [src/directory/directory-store.ts] (the in-memory store; a method has no
    [await], so it is one atomic transition) and [src/directory/visibility.ts]. *)

From Stdlib Require Import ZArith Lia Ascii.
From S2P Require Import Prelude Collections Scopes.

Module DirectoryMember.
Record t := mk {
  principalId : string; displayName : string; type : PrincipalType; slackId : option string;
}.
End DirectoryMember.

Module DirectoryChannel.
Record t := mk { channelId : string; name : string; isPrivate : option bool }.
End DirectoryChannel.

Definition channelIsPrivate (c : DirectoryChannel.t) : bool := DirectoryChannel.isPrivate c === Some true.

Definition groupParticipantsKey (participants : list string) : string :=
  Str.join "," (Arr.sort Str.leb (Arr.dedup (List.filter Str.truthy participants))).

Definition MAX_CANDIDATES : nat := 10.

(** [s.replace(/^[@#]/, "")] *)
Definition stripSigil (s : string) : string :=
  match s with
  | String c s' => if (c === "@"%char) || (c === "#"%char) then s' else s
  | EmptyString => s
  end.

Definition normDirectoryQuery (s : string) : string := stripSigil (Str.toLowerCase (Str.trim s)).

Inductive Resolution (T : Type) :=
| res_one (item : T)
| res_ambiguous (items : list T)
| res_none.
Arguments res_one {T} item.
Arguments res_ambiguous {T} items.
Arguments res_none {T}.

Section pick.
Context {T : Type} (id label : T -> string).

Definition pickMatch (items : list T) (query : string) : Resolution T :=
  let q := normDirectoryQuery query in
  if negb (Str.truthy q) then res_none else
  match List.find (fun t => Str.toLowerCase (id t) === q) items with
  | Some t => res_one t
  | None =>
      let exact := List.filter (fun t => normDirectoryQuery (label t) === q) items in
      match exact with
      | [] =>
          let prefix := List.filter (fun t => Str.startsWith (normDirectoryQuery (label t)) q) items in
          let pool := match prefix with
                      | [] => List.filter (fun t => Str.includes (normDirectoryQuery (label t)) q) items
                      | _ => prefix
                      end in
          match pool with
          | [] => res_none
          | [t] => res_one t
          | _ => res_ambiguous (take MAX_CANDIDATES pool)
          end
      | [t] => res_one t
      | _ => res_ambiguous (take MAX_CANDIDATES exact)
      end
  end.
End pick.

Abbreviation members_by := (jmap string (list string)) (only parsing).

Record Directory := mkDirectory {
  members : list DirectoryMember.t;
  channels : list DirectoryChannel.t;
  channelMembers : option members_by;
  groupMembers : option members_by;
  groupsSynced : bool;
  workspaceUrl : option string;
}.

Definition emptyDirectory : Directory := mkDirectory [] [] None None false None.

Definition setWorkspaceUrl (url : string) (d : Directory) : Directory :=
  mkDirectory (members d) (channels d) (channelMembers d) (groupMembers d) (groupsSynced d) (Some url).

Definition meta (d : Directory) : option string := workspaceUrl d.

Definition replace (next : list DirectoryMember.t) (d : Directory) : Directory :=
  mkDirectory (List.filter (fun m => Str.truthy (DirectoryMember.principalId m)
                                     && (DirectoryMember.type m === internal)) next)
    (channels d) (channelMembers d) (groupMembers d) (groupsSynced d) (workspaceUrl d).

(** The loop that groups [(container, principal)] pairs, skipping empty ids. *)
Definition groupBy (pairs : list (string * string)) : members_by :=
  foldl (fun m p =>
           if negb (Str.truthy p.1) || negb (Str.truthy p.2) then m
           else JMap.set m p.1 (Arr.add (default [] (JMap.get m p.1)) p.2)) [] pairs.

Definition replaceChannels (next : list DirectoryChannel.t) (nextMembers : option (list (string * string)))
    (d : Directory) : Directory :=
  mkDirectory (members d)
    (List.filter (fun c => Str.truthy (DirectoryChannel.channelId c) && Str.truthy (DirectoryChannel.name c)) next)
    (match nextMembers with Some pairs => Some (groupBy pairs) | None => channelMembers d end)
    (groupMembers d) (groupsSynced d) (workspaceUrl d).

(** [memberships?.get(container)?.has(principal) ?? false] *)
Definition hasMember (memberships : option members_by) (container principal : string) : bool :=
  match memberships ≫= (fun m => JMap.get m container) with
  | Some set => bool_decide (principal ∈ set)
  | None => false
  end.

Definition channelMember (channelId principalId : string) (d : Directory) : bool :=
  hasMember (channelMembers d) channelId principalId.

Definition findChannel (channelId : string) (d : Directory) : option DirectoryChannel.t :=
  List.find (fun c => DirectoryChannel.channelId c === channelId) (channels d).

Definition channelMembership (channelId principalId : string) (d : Directory) : option bool :=
  match channelMembers d, findChannel channelId d with
  | Some _, Some channel =>
      let member := channelMember channelId principalId d in
      if member || channelIsPrivate channel then Some member else None
  | _, _ => None
  end.

Definition channelPrivacy (channelId : string) (d : Directory) : option bool :=
  channelIsPrivate <$> findChannel channelId d.

Definition replaceGroups (next : list (string * string)) (d : Directory) : Directory :=
  mkDirectory (members d) (channels d) (channelMembers d) (Some (groupBy next)) true (workspaceUrl d).

Definition upsertGroup (groupId : string) (principalIds : list string) (d : Directory) : Directory :=
  let ids := List.filter Str.truthy principalIds in
  if negb (Str.truthy groupId) || bool_decide (ids = []) then d else
  mkDirectory (members d) (channels d) (channelMembers d)
    (Some (JMap.set (default [] (groupMembers d)) groupId (Arr.dedup ids))) (groupsSynced d) (workspaceUrl d).

Definition resolveGroupByParticipants (participants : list string) (d : Directory) : option string :=
  let key := groupParticipantsKey participants in
  if negb (Str.truthy key) then None else
  fst <$> List.find (fun g => groupParticipantsKey g.2 === key) (default [] (groupMembers d)).

Definition groupMember (groupId principalId : string) (d : Directory) : bool :=
  hasMember (groupMembers d) groupId principalId.

Definition groupMembership (groupId principalId : string) (d : Directory) : option bool :=
  match groupMembers d with
  | Some _ => if groupsSynced d then Some (groupMember groupId principalId d) else None
  | None => None
  end.

Definition listGroupsFor (principalId : string) (d : Directory) : list string :=
  map fst (List.filter (fun g => bool_decide (principalId ∈ g.2)) (default [] (groupMembers d))).

Definition listChannelsFor (principalId : string) (d : Directory) : list DirectoryChannel.t :=
  List.filter (fun c => negb (channelIsPrivate c) || channelMember (DirectoryChannel.channelId c) principalId d)
    (channels d).

Definition getMember (principalId : string) (d : Directory) : option DirectoryMember.t :=
  List.find (fun m => samePerson (Some (DirectoryMember.principalId m)) (Some principalId)) (members d).

Definition resolve (query : string) (d : Directory) : Resolution DirectoryMember.t :=
  match List.find (fun x => match DirectoryMember.slackId x with
                            | Some s => Str.truthy s && (s === Str.trim query)
                            | None => false
                            end) (members d) with
  | Some m => res_one m
  | None => pickMatch DirectoryMember.principalId DirectoryMember.displayName (members d) query
  end.

Definition resolveChannel (query : string) (d : Directory) : Resolution DirectoryChannel.t :=
  pickMatch DirectoryChannel.channelId DirectoryChannel.name (channels d) query.

(** ** [visibility.ts] *)
Inductive VisibilityTarget :=
| target_dm (ownerId : string)
| target_group (groupId : string)
| target_channel (channelId : string) (isPrivate : option bool).

(** What the visibility check asks of a directory. *)
Record VisibilityDirectory := mkVisibility {
  v_channelMember : string -> string -> bool;
  v_groupMember : string -> string -> bool;
  v_listChannelsFor : option (string -> list DirectoryChannel.t);
}.

Definition isVisible (dir : VisibilityDirectory) (actorId : string) (target : VisibilityTarget) : bool :=
  match target with
  | target_dm ownerId => samePerson (Some actorId) (Some ownerId)
  | target_group groupId => v_groupMember dir groupId actorId
  | target_channel channelId (Some true) => v_channelMember dir channelId actorId
  | target_channel _ (Some false) => true
  | target_channel channelId None =>
      match v_listChannelsFor dir with
      | None => false
      | Some list => existsb (fun c => DirectoryChannel.channelId c === channelId) (list actorId)
      end
  end.

(** The store seen through that interface. *)
Definition visibilityOf (d : Directory) : VisibilityDirectory :=
  mkVisibility (fun c p => channelMember c p d) (fun g p => groupMember g p d)
    (Some (fun p => listChannelsFor p d)).

(** ** Facts about the participant key *)
(** Sorting forgets the order: equal sets of distinct strings sort alike. *)
Lemma sort_perm_eq l l' : l ≡ₚ l' -> Arr.sort Str.leb l = Arr.sort Str.leb l'.
Proof.
  intros Hp. apply (StronglySorted_unique (fun a b => Str.leb a b = true)).
  - apply Arr.sort_sorted; [apply Str.leb_total|apply Str.leb_trans].
  - apply Arr.sort_sorted; [apply Str.leb_total|apply Str.leb_trans].
  - by rewrite !Arr.sort_perm.
Qed.

Definition commaFree (l : list string) : Prop := forall s, s ∈ l -> Str.includesChar "," s = false.

Lemma participants_sorted_elem l s :
  s ∈ Arr.sort Str.leb (Arr.dedup (List.filter Str.truthy l)) <-> s ∈ l /\ s <> "".
Proof.
  rewrite Arr.elem_of_sort, Arr.elem_of_dedup, Arr.elem_of_filter. unfold Str.truthy.
  rewrite negb_true_iff, bool_decide_eq_false. tauto.
Qed.

Lemma join_nil_iff l : Forall (fun s => s <> "") l -> Str.join "," l = "" <-> l = [].
Proof.
  intros Hall. destruct Hall as [|s l Hs Hall]; [done|]. split; [|done].
  destruct l; cbn; [done|]. by destruct s.
Qed.

Lemma participants_nonempty l :
  Forall (fun s => s <> "") (Arr.sort Str.leb (Arr.dedup (List.filter Str.truthy l))).
Proof. apply Forall_forall. intros s [_ ?]%participants_sorted_elem. done. Qed.

(** Two lists of comma free ids have one key exactly when they name the same
    set of non-empty ids. *)
Lemma groupParticipantsKey_iff l l' :
  commaFree l -> commaFree l' ->
  groupParticipantsKey l = groupParticipantsKey l' <-> (forall s, s <> "" -> s ∈ l <-> s ∈ l').
Proof.
  intros Hc Hc'. unfold groupParticipantsKey.
  set (k := Arr.sort Str.leb (Arr.dedup (List.filter Str.truthy l))).
  set (k' := Arr.sort Str.leb (Arr.dedup (List.filter Str.truthy l'))).
  assert (forall m, commaFree m ->
    Forall (fun s => Str.includesChar "," s = false)
      (Arr.sort Str.leb (Arr.dedup (List.filter Str.truthy m)))) as Hfree.
  { intros m Hm. apply Forall_forall. intros s [? _]%participants_sorted_elem. by apply Hm. }
  split.
  - intros E s Hs. assert (k = k') as Hk.
    { destruct (decide (k = [])) as [Hn|Hn].
      - rewrite Hn in E. cbn in E. symmetry in E. apply join_nil_iff in E; [congruence|].
        apply participants_nonempty.
      - destruct (decide (k' = [])) as [Hn'|Hn'].
        + rewrite Hn' in E. cbn in E. apply join_nil_iff in E; [congruence|]. apply participants_nonempty.
        + rewrite <- (Str.split_join "," k Hn (Hfree l Hc)), <- (Str.split_join "," k' Hn' (Hfree l' Hc')). congruence. }
    pose proof (participants_sorted_elem l s) as H1. pose proof (participants_sorted_elem l' s) as H2.
    fold k in H1. fold k' in H2. rewrite Hk in H1. tauto.
  - intros Hset. f_equal. apply sort_perm_eq. apply NoDup_Permutation; [apply Arr.NoDup_dedup..|].
    intros s. rewrite !Arr.elem_of_dedup, !Arr.elem_of_filter. unfold Str.truthy.
    rewrite negb_true_iff, bool_decide_eq_false. specialize (Hset s). tauto.
Qed.

(** ** Facts about memberships *)
Lemma groupBy_loop pairs (m : members_by) c p :
  hasMember (Some (foldl (fun m p =>
     if negb (Str.truthy p.1) || negb (Str.truthy p.2) then m
     else JMap.set m p.1 (Arr.add (default [] (JMap.get m p.1)) p.2)) m pairs)) c p = true <->
  hasMember (Some m) c p = true \/ ((c, p) ∈ pairs /\ c <> "" /\ p <> "").
Proof.
  revert m. induction pairs as [|[c' p'] pairs IH]; intros m; cbn [foldl].
  - split; [by left|intros [?|[? _]]; [done|set_solver]].
  - rewrite IH, elem_of_cons. clear IH. unfold Str.truthy at 1 2. cbn [fst snd].
    destruct (decide (c' = "")) as [->|Hc]; [cbn; naive_solver|].
    destruct (decide (p' = "")) as [->|Hp]; [rewrite orb_comm; cbn; naive_solver|].
    rewrite !bool_decide_eq_false_2 by done. cbn [negb orb].
    assert (hasMember (Some (JMap.set m c' (Arr.add (default [] (JMap.get m c')) p'))) c p = true
            <-> hasMember (Some m) c p = true \/ (c = c' /\ p = p')) as ->; [|naive_solver].
    unfold hasMember. cbn. rewrite JMap.get_set. case_decide as E.
    + subst c'. rewrite bool_decide_eq_true, Arr.elem_of_add.
      destruct (JMap.get m c) as [set|]; cbn; [rewrite bool_decide_eq_true|]; set_solver.
    + naive_solver.
Qed.

Lemma groupBy_spec pairs c p :
  hasMember (Some (groupBy pairs)) c p = true <-> (c, p) ∈ pairs /\ c <> "" /\ p <> "".
Proof. unfold groupBy. rewrite groupBy_loop. cbn. naive_solver. Qed.

(** What a person may see is what the last sync says.  After a channel sync
    a channel is visible to exactly the people it names as members, or to
    everyone when it is public, and only when the sync listed it; after a group
    sync a group is visible to exactly its listed members; someone else's direct
    conversation never is. *)
Theorem visibility_follows_sync (d : Directory) (chans : list DirectoryChannel.t)
    (pairs : list (string * string)) (actor : string) :
  let byChannel := visibilityOf (replaceChannels chans (Some pairs) d) in
  let byGroup := visibilityOf (replaceGroups pairs d) in
  (forall c, isVisible byChannel actor (target_channel c None) = true <->
     exists ch, ch ∈ chans /\ DirectoryChannel.channelId ch = c /\ c <> "" /\ DirectoryChannel.name ch <> ""
       /\ (channelIsPrivate ch = false \/ ((c, actor) ∈ pairs /\ actor <> "")))
  /\ (forall g, isVisible byGroup actor (target_group g) = true <->
        (g, actor) ∈ pairs /\ g <> "" /\ actor <> "")
  /\ (forall owner, isVisible byGroup actor (target_dm owner) = true ->
        personKey (Some actor) = personKey (Some owner)).
Proof.
  split_and!; cbn [isVisible visibilityOf v_groupMember v_listChannelsFor].
  - intros c. rewrite Arr.existsb_elem. unfold listChannelsFor, channelMember. cbn [replaceChannels channels channelMembers].
    setoid_rewrite Arr.elem_of_filter. setoid_rewrite Arr.elem_of_filter.
    setoid_rewrite bool_decide_eq_true. setoid_rewrite orb_true_iff. setoid_rewrite groupBy_spec.
    setoid_rewrite andb_true_iff. setoid_rewrite Str.truthy_iff. setoid_rewrite negb_true_iff.
    split; intros (ch & H); exists ch; naive_solver.
  - intros g. unfold groupMember. cbn [replaceGroups groupMembers]. apply groupBy_spec.
  - intros owner H%samePerson_iff. tauto.
Qed.

(** A group conversation is found by its exact set of participants: when
    ids hold no comma, the group returned has precisely the given non-empty
    participants as members, and when none is returned no known group has. *)
Theorem group_resolution_exact (participants : list string) (d : Directory) :
  commaFree participants ->
  (forall g, g ∈ default [] (groupMembers d) -> commaFree g.2) ->
  match resolveGroupByParticipants participants d with
  | Some groupId => exists set, (groupId, set) ∈ default [] (groupMembers d)
                      /\ forall s, s <> "" -> s ∈ set <-> s ∈ participants
  | None => (forall s, s ∈ participants -> s = "")
            \/ forall g, g ∈ default [] (groupMembers d) ->
                 ~ (forall s, s <> "" -> s ∈ g.2 <-> s ∈ participants)
  end.
Proof.
  intros Hc Hg. unfold resolveGroupByParticipants.
  destruct (Str.truthy (groupParticipantsKey participants)) eqn:Ek; cbn [negb].
  - destruct (List.find _ _) as [[g set]|] eqn:E; cbn.
    + apply Arr.find_elem in E as [Hin Heq]. js_bool. exists set. split; [done|].
      apply groupParticipantsKey_iff; [by apply (Hg _ Hin)|done|done].
    + right. intros g Hin Hset. pose proof (Arr.find_none _ _ _ E Hin) as Hf. cbn beta in Hf. js_bool. apply Hf.
      apply groupParticipantsKey_iff; [by apply (Hg _ Hin)|done|done].
  - left. unfold Str.truthy in Ek. js_bool. unfold groupParticipantsKey in Ek.
    apply join_nil_iff in Ek; [|apply participants_nonempty].
    intros s Hs. destruct (decide (s = "")) as [|Hne]; [done|].
    pose proof (proj2 (participants_sorted_elem participants s) (conj Hs Hne)) as Hin.
    rewrite Ek in Hin. set_solver.
Qed.

(** ** Facts about name resolution *)
(** How an item may match the query. *)
Definition matches {T} (id label : T -> string) (q : string) (t : T) : bool :=
  (Str.toLowerCase (id t) === q) || Str.includes (normDirectoryQuery (label t)) q.

Definition resolution_ok {T} (ok : T -> Prop) (items : list T) (r : Resolution T) : Prop :=
  match r with
  | res_one t => t ∈ items /\ ok t
  | res_ambiguous l => (2 <= length l <= MAX_CANDIDATES)%nat /\ forall t, t ∈ l -> t ∈ items /\ ok t
  | res_none => forall t, t ∈ items -> ~ ok t
  end.

Lemma take_candidates {T} (p : T -> bool) (ok : T -> Prop) items pool :
  pool = List.filter p items -> (forall t, p t = true -> ok t) -> (2 <= length pool)%nat ->
  resolution_ok ok items (res_ambiguous (take MAX_CANDIDATES pool)).
Proof.
  intros -> Hok Hl. cbn. rewrite length_take. split; [unfold MAX_CANDIDATES; lia|].
  intros t Ht. assert (t ∈ List.filter p items) as Hin.
  { rewrite <- (take_drop MAX_CANDIDATES (List.filter p items)). apply elem_of_app. by left. }
  apply Arr.elem_of_filter in Hin as [? ?]. auto.
Qed.

Lemma pool_ok {T} (p : T -> bool) (ok : T -> Prop) items pool :
  List.filter p items = pool -> pool <> [] -> (forall t, p t = true -> ok t) ->
  resolution_ok ok items
    match pool with
    | [] => res_none | [t] => res_one t | _ => res_ambiguous (take MAX_CANDIDATES pool)
    end.
Proof.
  intros E Hne Hok. destruct pool as [|t [|t' pool]]; [done| |].
  - assert (t ∈ List.filter p items) as [? ?]%Arr.elem_of_filter by (rewrite E; by left). cbn. auto.
  - apply (take_candidates p); [done|done|]. cbn. lia.
Qed.

Lemma filter_nil {T} (p : T -> bool) items : List.filter p items = [] -> forall t, t ∈ items -> p t = false.
Proof.
  intros E t Ht. apply not_true_iff_false. intros Hp.
  assert (t ∈ List.filter p items) as Hin by (by apply Arr.elem_of_filter). rewrite E in Hin. set_solver.
Qed.

Lemma pickMatch_ok {T} (id label : T -> string) items query :
  normDirectoryQuery query <> "" ->
  resolution_ok (fun t => matches id label (normDirectoryQuery query) t = true) items
    (pickMatch id label items query).
Proof.
  intros Hq. unfold pickMatch. apply Str.truthy_iff in Hq as ->. cbn [negb].
  set (q := normDirectoryQuery query). unfold matches.
  destruct (List.find _ _) as [t|] eqn:Ef.
  { apply Arr.find_elem in Ef as [? Hp]. cbn beta in Hp. split; [done|]. by rewrite Hp. }
  set (exact := fun t => normDirectoryQuery (label t) === q).
  set (ok := fun t => (Str.toLowerCase (id t) === q) || Str.includes (normDirectoryQuery (label t)) q = true).
  cbv zeta. destruct (List.filter exact items) as [|t l] eqn:Ex.
  2:{ refine (pool_ok exact ok items (t :: l) Ex ltac:(done) _). intros u Hu. unfold exact in Hu. unfold ok.
      js_bool. by rewrite Hu, Str.includes_refl, orb_true_r. }
  set (pre := fun t => Str.startsWith (normDirectoryQuery (label t)) q).
  destruct (List.filter pre items) as [|t l] eqn:Ep.
  2:{ refine (pool_ok pre ok items (t :: l) Ep ltac:(done) _). intros u Hu. unfold ok.
      by rewrite (Str.includes_prefix _ _ Hu), orb_true_r. }
  set (inc := fun t => Str.includes (normDirectoryQuery (label t)) q).
  destruct (List.filter inc items) as [|t l] eqn:Ei.
  - intros t Ht. pose proof (filter_nil _ _ Ei t Ht) as H1. pose proof (Arr.find_none _ _ _ Ef Ht) as H2.
    cbn beta in H2. unfold inc in H1. unfold ok. by rewrite H1, H2.
  - refine (pool_ok inc ok items (t :: l) Ei ltac:(done) _). intros u Hu. unfold ok, inc in *.
    by rewrite Hu, orb_true_r.
Qed.

(** Looking a person up by what someone typed never invents a recipient: a
    single answer is a known member that matches the query by Slack id, by id or
    by name; an ambiguous one lists two to ten such members; and no member is
    found exactly when none matches. *)
Theorem recipient_resolution_sound (query : string) (d : Directory) :
  normDirectoryQuery query <> "" ->
  resolution_ok (fun m => DirectoryMember.slackId m = Some (Str.trim query)
       \/ matches DirectoryMember.principalId DirectoryMember.displayName (normDirectoryQuery query) m = true)
    (members d) (resolve query d).
Proof.
  intros Hq. unfold resolve. destruct (List.find _ (members d)) as [m|] eqn:E.
  - apply Arr.find_elem in E as [Hin Hs]. split; [done|]. left.
    destruct (DirectoryMember.slackId m); [|done]. js_bool. by f_equal.
  - pose proof (pickMatch_ok DirectoryMember.principalId DirectoryMember.displayName (members d) query Hq) as H.
    destruct (pickMatch _ _ _ _) as [m|l|]; cbn in *.
    + tauto.
    + destruct H as [? H]. split; [done|]. intros t Ht. destruct (H t Ht). auto.
    + intros t Ht [Hs|Hm]; [|by apply (H t Ht)].
      pose proof (Arr.find_none _ _ _ E Ht) as Hn. cbn in Hn. rewrite Hs in Hn.
      rewrite (bool_decide_eq_true_2 (_ = _)), andb_true_r in Hn by done.
      destruct (Str.truthy (Str.trim query)) eqn:Et; [done|]. apply Hq.
      unfold Str.truthy in Et. js_bool. unfold normDirectoryQuery. rewrite <- Str.trim_lower.
      destruct query; [done|]. rewrite Str.trim_lower, Et. done.
Qed.

(** *** Witnesses *)
Section witnesses.
Let ada := DirectoryMember.mk "ada@x.io" "Ada L" internal (Some "U1").
Let dir := upsertGroup "G1" ["b"; "a"; ""; "b"] (replace [ada] emptyDirectory).

Lemma group_resolution_exact_witness :
  exists set, ("G1", set) ∈ default [] (groupMembers dir) /\ forall s, s <> "" -> s ∈ set <-> s ∈ ["a"; "b"].
Proof.
  refine (group_resolution_exact ["a"; "b"] dir _ _).
  - intros s Hs. repeat (apply elem_of_cons in Hs as [->|Hs]; [reflexivity|]). by apply not_elem_of_nil in Hs.
  - intros g Hg. apply elem_of_cons in Hg as [->|Hg]; [|by apply not_elem_of_nil in Hg].
    intros s Hs. repeat (apply elem_of_cons in Hs as [->|Hs]; [reflexivity|]). by apply not_elem_of_nil in Hs.
Defined.

Lemma recipient_resolution_sound_witness : resolve "@ada" dir = res_one ada /\ ada ∈ members dir.
Proof. split; [reflexivity|]. exact (proj1 (recipient_resolution_sound "@ada" dir ltac:(discriminate))). Defined.
End witnesses.
