(* ===== verification/Identity.v ===== *)
(** * Identity: who is internal

    [src/identity/identity-service.ts].  A person is internal unless the surface
    says they are an external guest or a deactivation record exists for them; a
    record is made by an administrator or by the directory sync.  The service
    keeps the records in a cache in front of a durable map; a method is run to
    its end before the next one starts, [Date.now()] is an argument. *)

From Stdlib Require Import ZArith Lia.
From S2P Require Import Prelude Collections Scopes DurableMap.
Open Scope Z_scope.

Inductive DeactivationSource := manual | directory_sync.
#[global] Instance DeactivationSource_eq_dec : EqDecision DeactivationSource.
Proof. solve_decision. Defined.

Record DeactivationRecord := mkDeactivation {
  r_principalId : string; source : DeactivationSource; at_ : Z
}.

Record ActorAssertion := mkActor {
  externalId : string; isExternalGuest : option bool; isBot : option bool;
  a_teamIds : option (list string); a_displayName : option string;
}.

Section service.
Context {M : Type -> Type} `{DurableMapLaws M}.

Record Service := mkService {
  store : M DeactivationRecord;
  deactivated : jmap string DeactivationRecord;
  hydrated : bool;
  refreshedAt : Z;
}.

(** [createIdentityService(backing)] *)
Definition create (backing : M DeactivationRecord) : Service := mkService backing [] false 0.

Definition REFRESH_TTL_MS : Z := 10000.

Definition key (id : string) : string := personKey (Some id).

Definition classify (id : string) (guestFlag : option bool) (s : Service) : Principal.t :=
  let type := if JMap.has (deactivated s) (key id) || (guestFlag === Some true) then guest else internal in
  Principal.mk id type None None.

Definition deactivate (id : string) (src : DeactivationSource) (now : Z) (s : Service) : Service :=
  let k := key id in
  let stop := match JMap.get (deactivated s) k with
              | Some existing => (source existing === manual) || (source existing === src)
              | None => false
              end in
  if stop then s else
  let record := mkDeactivation id src now in
  mkService (dm_put k record (store s)) (JMap.set (deactivated s) k record) (hydrated s) (refreshedAt s).

Definition reactivate (id : string) (s : Service) : Service :=
  let k := key id in
  mkService (dm_delete k (store s)) (JMap.delete (deactivated s) k) (hydrated s) (refreshedAt s).

Record DirectorySyncOutcome := mkSyncOutcome { out_deactivated : list string; out_reactivated : list string }.

Definition syncRemoved (now : Z) (acc : list string * Service) (id : string) : list string * Service :=
  if JMap.has (deactivated acc.2) (key id) then acc
  else (acc.1 ++ [id], deactivate id directory_sync now acc.2).

Definition syncPresent (acc : list string * Service) (id : string) : list string * Service :=
  if (source <$> JMap.get (deactivated acc.2) (key id)) !== Some directory_sync then acc
  else (acc.1 ++ [id], reactivate id acc.2).

Definition recordDirectorySync (removedIds presentIds : list string) (now : Z) (s : Service)
    : DirectorySyncOutcome * Service :=
  let '(gone, s1) := foldl (syncRemoved now) ([], s) removedIds in
  let '(back, s2) := foldl syncPresent ([], s1) presentIds in
  (mkSyncOutcome gone back, s2).

(** [if (!deactivated.has(key)) deactivated.set(key, r)] *)
Definition hydrateOne (c : jmap string DeactivationRecord) (r : DeactivationRecord) :=
  if JMap.has c (key (r_principalId r)) then c else JMap.set c (key (r_principalId r)) r.

Definition hydrate (s : Service) : Service :=
  if hydrated s then s else
  mkService (store s) (foldl hydrateOne (deactivated s) (dm_all (store s))) true (refreshedAt s).

Definition refresh (now : Z) (s : Service) : Service :=
  if now - refreshedAt s <? REFRESH_TTL_MS then s else
  mkService (store s) (foldl (fun c r => JMap.set c (key (r_principalId r)) r) [] (dm_all (store s)))
    (hydrated s) now.

Definition resolve (actor : ActorAssertion) (s : Service) : Principal.t :=
  let p := classify (externalId actor) (isExternalGuest actor) s in
  Principal.mk (Principal.id p) (Principal.type p) (a_teamIds actor)
    (match a_displayName actor with Some d => if Str.truthy d then Some d else None | None => None end).

Definition isInternal (p : Principal.t) : bool := Principal.type p === internal.

Definition audienceIsAllInternal (audience : list Principal.t) : bool :=
  negb (bool_decide (audience = [])) && forallb isInternal audience.

(** ** Sequences of calls *)
Inductive op :=
| Deactivate (id : string) (src : DeactivationSource)
| Reactivate (id : string)
| Sync (removedIds presentIds : list string)
| Refresh.

Definition exec (s : Service) (o : Z * op) : Service :=
  match o.2 with
  | Deactivate id src => deactivate id src o.1 s
  | Reactivate id => reactivate id s
  | Sync removed present => (recordDirectorySync removed present o.1 s).2
  | Refresh => refresh o.1 s
  end.

(** ** The cache mirrors the store *)
Record coherent (s : Service) : Prop := mkCoherent {
  co_cache : forall k, JMap.get (deactivated s) k = dm_get k (store s);
  co_key : forall k r, dm_get k (store s) = Some r -> key (r_principalId r) = k;
}.

Definition well_keyed (m : M DeactivationRecord) : Prop :=
  forall k r, dm_get k m = Some r -> key (r_principalId r) = k.

(** Filing every record of the store under its own key rebuilds the store. *)
Lemma get_foldl_file (l : list DeactivationRecord) c k :
  JMap.get (foldl (fun c r => JMap.set c (key (r_principalId r)) r) c l) k
  = match List.find (fun r => key (r_principalId r) === k) (reverse l) with
    | Some r => Some r
    | None => JMap.get c k
    end.
Proof.
  revert c. induction l as [|r l IH]; intros c; [done|].
  cbn [foldl]. rewrite IH, reverse_cons.
  assert (forall l1 (l2 : list DeactivationRecord) p,
    List.find p (l1 ++ l2) = match List.find p l1 with Some x => Some x | None => List.find p l2 end) as Happ.
  { induction l1 as [|x l1 IHl]; intros l2 p; cbn; [done|]. destruct (p x); [done|]. apply IHl. }
  rewrite Happ. destruct (List.find _ (reverse l)); [done|]. cbn.
  rewrite JMap.get_set. case_bool_decide; case_decide; congruence.
Qed.

Lemma find_record m l k :
  well_keyed m -> (forall r, r ∈ l <-> r ∈ dm_all m) ->
  List.find (fun r => key (r_principalId r) === k) l = dm_get k m.
Proof.
  intros Hk Hl. destruct (List.find _ l) as [r|] eqn:E.
  - apply Arr.find_elem in E as [Hin <-%bool_decide_eq_true]. apply Hl, dm_all_get in Hin as (i & Hi).
    by rewrite (Hk _ _ Hi).
  - destruct (dm_get k m) as [r|] eqn:Eg; [|done].
    assert (r ∈ l) as Hin by (apply Hl, dm_all_get; eauto).
    pose proof (Arr.find_none _ _ _ E Hin) as Hn. cbn beta in Hn.
    apply bool_decide_eq_false in Hn. by apply Hk in Eg.
Qed.

Lemma refresh_coherent now s : coherent s -> coherent (refresh now s).
Proof.
  intros [Hc Hk]. unfold refresh. destruct (_ <? _); [done|]. split; [|done]. intros k. cbn.
  rewrite get_foldl_file, (find_record (store s)); [by destruct (dm_get _ _)|done|].
  intros r. by rewrite elem_of_reverse.
Qed.

Lemma foldl_hydrate (l : list DeactivationRecord) c k :
  JMap.get (foldl hydrateOne c l) k
  = match JMap.get c k with
    | Some r => Some r
    | None => List.find (fun r => key (r_principalId r) === k) l
    end.
Proof.
  revert c. induction l as [|r l IH]; intros c; cbn; [by destruct (JMap.get c k)|].
  rewrite IH. unfold hydrateOne, JMap.has.
  destruct (JMap.get c (key (r_principalId r))) eqn:Er.
  - destruct (JMap.get c k) eqn:Ek; [done|]. case_bool_decide; [congruence|done].
  - rewrite JMap.get_set. case_decide as E.
    + subst k. rewrite Er. by rewrite bool_decide_eq_true_2.
    + destruct (JMap.get c k); [done|]. by rewrite bool_decide_eq_false_2.
Qed.

Lemma hydrate_coherent backing : well_keyed backing -> coherent (hydrate (create backing)).
Proof.
  intros Hk. split; [|done]. intros k. cbn. rewrite foldl_hydrate. cbn.
  by apply find_record.
Qed.

Lemma deactivate_coherent id src now s : coherent s -> coherent (deactivate id src now s).
Proof.
  intros [Hc Hk]. unfold deactivate. destruct (match _ with Some _ => _ | None => _ end); [done|].
  split; cbn.
  - intros k. rewrite JMap.get_set, dm_get_put. by case_decide.
  - intros k r. rewrite dm_get_put. case_decide; [intros [= <-]; done|apply Hk].
Qed.

Lemma reactivate_coherent id s : coherent s -> coherent (reactivate id s).
Proof.
  intros [Hc Hk]. split; cbn.
  - intros k. rewrite JMap.get_delete, dm_get_delete. by case_decide.
  - intros k r. rewrite dm_get_delete. case_decide; [done|apply Hk].
Qed.

(** The source of the record the cache holds for a person. *)
Definition recorded (s : Service) (k : string) : option DeactivationSource :=
  source <$> JMap.get (deactivated s) k.

Lemma classify_recorded id s :
  Principal.type (classify id None s) = guest <-> recorded s (key id) <> None.
Proof.
  unfold classify, recorded, JMap.has. rewrite (bool_decide_eq_false_2 (None = Some true)) by done.
  destruct (JMap.get (deactivated s) (key id)); cbn; naive_solver.
Qed.

Lemma recorded_deactivate id src now s k :
  recorded (deactivate id src now s) k
  = if decide (key id = k)
    then match recorded s k with Some manual => Some manual | _ => Some src end
    else recorded s k.
Proof.
  unfold recorded, deactivate. case_decide as E.
  - subst k. destruct (JMap.get (deactivated s) (key id)) as [r|] eqn:Er; cbn.
    + destruct (source r) eqn:Es, src; repeat case_bool_decide; try done; cbn;
        rewrite ?Er, ?JMap.get_set_eq; cbn; by rewrite ?Es.
    + by rewrite JMap.get_set_eq.
  - destruct (match _ with Some _ => _ | None => _ end); [done|]. cbn. by rewrite JMap.get_set_ne.
Qed.

Lemma recorded_reactivate id s k :
  recorded (reactivate id s) k = if decide (key id = k) then None else recorded s k.
Proof. unfold recorded, reactivate. cbn. rewrite JMap.get_delete. by case_decide. Qed.

Lemma recorded_removed now removed acc k :
  recorded (foldl (syncRemoved now) acc removed).2 k
  = match recorded acc.2 k with
    | Some src => Some src
    | None => if decide (k ∈ map key removed) then Some directory_sync else None
    end.
Proof.
  revert acc. induction removed as [|id removed IH]; intros acc; cbn [foldl map].
  - rewrite decide_False by set_solver. by destruct (recorded acc.2 k).
  - rewrite IH. unfold syncRemoved. unfold JMap.has.
    destruct (JMap.get (deactivated acc.2) (key id)) as [r|] eqn:Er.
    + destruct (recorded acc.2 k) eqn:Ek; [done|].
      assert (k <> key id) by (intros ->; unfold recorded in Ek; by rewrite Er in Ek).
      repeat case_decide; set_solver.
    + cbn [snd]. rewrite recorded_deactivate. destruct (decide (key id = k)) as [E|E].
      * subst k. unfold recorded. rewrite Er. cbn. by rewrite decide_True by set_solver.
      * destruct (recorded acc.2 k); [done|]. repeat case_decide; set_solver.
Qed.

Lemma recorded_present present acc k :
  recorded (foldl syncPresent acc present).2 k
  = if decide (k ∈ map key present)
    then match recorded acc.2 k with Some directory_sync => None | r => r end
    else recorded acc.2 k.
Proof.
  revert acc. induction present as [|id present IH]; intros acc; cbn [foldl map].
  - by rewrite decide_False by set_solver.
  - rewrite IH. unfold syncPresent. fold (recorded acc.2 (key id)). case_bool_decide as Hs; cbn [negb].
    + cbn [snd]. rewrite recorded_reactivate. destruct (decide (key id = k)) as [E|E].
      * subst k. rewrite Hs, (decide_True (P := key id ∈ key id :: _)) by set_solver. by case_decide.
      * repeat case_decide; set_solver.
    + destruct (decide (k = key id)) as [->|Hne].
      * rewrite (decide_True (P := key id ∈ key id :: _)) by set_solver.
        destruct (recorded acc.2 (key id)) as [[]|]; repeat case_decide; done.
      * repeat case_decide; set_solver.
Qed.

(** What a directory sync does to each person, exactly: a manual
    deactivation is left alone; a person deactivated by an earlier sync comes
    back when listed as present; anyone else becomes a guest when listed as
    removed and not as present.  No one else's classification changes. *)
Theorem directory_sync_exact (removed present : list string) (now : Z) (s : Service) (id : string) :
  let s' := (recordDirectorySync removed present now s).2 in
  let listed l := bool_decide (key id ∈ map key l) in
  recorded s' (key id)
    = match recorded s (key id) with
      | Some manual => Some manual
      | Some directory_sync => if listed present then None else Some directory_sync
      | None => if listed removed && negb (listed present) then Some directory_sync else None
      end
  /\ (Principal.type (classify id None s') = guest <-> recorded s' (key id) <> None).
Proof.
  split; [|apply classify_recorded]. unfold recordDirectorySync.
  pose proof (recorded_removed now removed ([], s) (key id)) as Hr.
  destruct (foldl (syncRemoved now) ([], s) removed) as [gone s1].
  pose proof (recorded_present present ([], s1) (key id)) as Hp.
  destruct (foldl syncPresent ([], s1) present) as [back s2]. cbn in *. rewrite Hp, Hr.
  destruct (recorded s (key id)) as [[]|]; repeat (case_decide || case_bool_decide); done.
Qed.

Lemma removed_coherent now removed acc : coherent acc.2 -> coherent (foldl (syncRemoved now) acc removed).2.
Proof.
  revert acc. induction removed as [|id l IH]; intros acc Hc; [done|]. apply IH. unfold syncRemoved.
  destruct (JMap.has _ _); [done|]. by apply deactivate_coherent.
Qed.

Lemma present_coherent present acc : coherent acc.2 -> coherent (foldl syncPresent acc present).2.
Proof.
  revert acc. induction present as [|id l IH]; intros acc Hc; [done|]. apply IH. unfold syncPresent.
  destruct (_ !== _); [done|]. by apply reactivate_coherent.
Qed.

Lemma exec_coherent s o : coherent s -> coherent (exec s o).
Proof.
  intros Hc. destruct o as [now [id src|id|removed present|]]; cbn.
  - by apply deactivate_coherent.
  - by apply reactivate_coherent.
  - unfold recordDirectorySync.
    pose proof (removed_coherent now removed ([], s) Hc) as H1.
    destruct (foldl (syncRemoved now) ([], s) removed) as [gone s1].
    pose proof (present_coherent present ([], s1) H1) as H2.
    by destruct (foldl syncPresent ([], s1) present) as [back s2].
  - by apply refresh_coherent.
Qed.

Lemma recorded_refresh now s k : coherent s -> recorded (refresh now s) k = recorded s k.
Proof.
  intros Hc. unfold recorded. pose proof (refresh_coherent now s Hc) as Hr.
  rewrite (co_cache _ Hc), (co_cache _ Hr). unfold refresh. by destruct (_ <? _).
Qed.

(** An operation other than a reactivation of the person. *)
Definition leaves (k : string) (o : Z * op) : Prop :=
  match o.2 with Reactivate id => key id <> k | _ => True end.

Lemma exec_manual s o k :
  coherent s -> leaves k o -> recorded s k = Some manual -> recorded (exec s o) k = Some manual.
Proof.
  intros Hc Hl Hm. destruct o as [now [id src|id|removed present|]]; cbn [exec leaves snd fst] in *.
  - rewrite recorded_deactivate. by rewrite Hm; case_decide.
  - rewrite recorded_reactivate. by rewrite decide_False.
  - unfold recordDirectorySync.
    pose proof (recorded_removed now removed ([], s) k) as Hr.
    destruct (foldl (syncRemoved now) ([], s) removed) as [gone s1].
    pose proof (recorded_present present ([], s1) k) as Hp.
    destruct (foldl syncPresent ([], s1) present) as [back s2]. cbn in *. rewrite Hp, Hr, Hm. by case_decide.
  - by rewrite recorded_refresh.
Qed.

Lemma execs_manual s ops k :
  coherent s -> Forall (leaves k) ops -> recorded s k = Some manual ->
  coherent (foldl exec s ops) /\ recorded (foldl exec s ops) k = Some manual.
Proof.
  intros Hc Hall. revert s Hc. induction Hall as [|o ops Ho _ IH]; intros s Hc Hm; [done|].
  cbn. apply IH; [by apply exec_coherent|by apply exec_manual].
Qed.

(** A person an administrator has deactivated stays out.  Whatever follows
    (directory syncs that list them as present, refreshes of the cache, other
    people coming and going), until they are reactivated themselves, every id of
    that person is classified as a guest, and still is after a restart that
    reloads the records from the store. *)
Theorem manual_deactivation_sticks (s : Service) (id id' : string) (now : Z) (ops : list (Z * op))
    (guestFlag : option bool) :
  coherent s -> key id' = key id -> Forall (leaves (key id)) ops ->
  let s' := foldl exec (deactivate id manual now s) ops in
  Principal.type (classify id' guestFlag s') = guest
  /\ Principal.type (classify id' guestFlag (hydrate (create (store s')))) = guest.
Proof.
  intros Hc Hk Hl s'.
  destruct (execs_manual (deactivate id manual now s) ops (key id)) as [Hc' Hm]; [by apply deactivate_coherent|done| |].
  { rewrite recorded_deactivate, decide_True by done. by destruct (recorded s (key id)) as [[]|]. }
  fold s' in Hc', Hm.
  assert (forall x, recorded x (key id) = Some manual -> Principal.type (classify id' guestFlag x) = guest) as Hg.
  { intros x Hx. unfold classify, recorded, JMap.has in *. rewrite Hk. cbn.
    by destruct (JMap.get (deactivated x) (key id)). }
  split; apply Hg; [done|]. pose proof (hydrate_coherent (store s') (co_key _ Hc')) as Hh.
  unfold recorded in *. rewrite (co_cache _ Hh), <- (co_cache _ Hc') in *. done.
Qed.
End service.

Lemma manual_deactivation_sticks_witness :
  let s : Service := deactivate "Ada@x.io" manual 1 (create (dm_empty : Memory.t _)) in
  Principal.type (classify "ada@x.io " None (exec s (2, Sync [] ["ada@x.io"]))) = guest.
Proof.
  refine (proj1 (manual_deactivation_sticks (create (dm_empty : Memory.t _)) "Ada@x.io" "ada@x.io " 1
                   [(2, Sync [] ["ada@x.io"])] None _ eq_refl _)).
  - split; [reflexivity|]. intros k r. discriminate.
  - constructor; [exact I|constructor].
Defined.

Lemma directory_sync_exact_witness :
  let s : Service := create (dm_empty : Memory.t _) in
  Principal.type (classify "bob" None (recordDirectorySync ["bob"; "eve"] ["eve"] 1 s).2) = guest
  /\ recorded (recordDirectorySync ["bob"; "eve"] ["eve"] 1 s).2 "eve" = None.
Proof.
  split.
  - apply (proj2 (directory_sync_exact (M := Memory.t) ["bob"; "eve"] ["eve"] 1 (create dm_empty) "bob")).
    vm_compute. discriminate.
  - exact (proj1 (directory_sync_exact (M := Memory.t) ["bob"; "eve"] ["eve"] 1 (create dm_empty) "eve")).
Defined.
