(* ===== verification/Regex.v ===== *)
(** * Regular expressions as the source uses them

    A backtracking matcher in continuation passing style, after the pattern
    semantics of ECMAScript: ordered alternatives, greedy and lazy repetition
    with the check against empty iterations, capture groups, back references and
    the multi-line anchors.  The loop of a repetition is bounded by the length of
    the remaining text, which is enough since every iteration consumes a
    character.  Not covered, since the transcribed patterns do not need it: look
    around, and the reset of captures that lie inside a repetition. *)

From Stdlib Require Import ZArith Lia Ascii.
From S2P Require Import Prelude Collections.

Module Re.

Inductive t :=
| Eps
| Chr (p : ascii -> bool)
| Seq (a b : t)
| Alt (a b : t)
| Star (greedy : bool) (r : t)
| Group (n : nat) (r : t)
| Backref (n : nat)
| Bol  (** [^] with the flag [m] *)
| Eol  (** [$] with the flag [m] *)
| Start  (** [^] without it *)
| End_.  (** [$] without it *)

Record state := mkState {
  prev : option ascii;
  rest : string;
  pos : nat;
  caps : list (nat * string);
}.

Definition isNewline (c : ascii) : bool := (c === "010"%char) || (c === "013"%char).

Definition atBol (s : state) : bool :=
  match prev s with None => true | Some c => isNewline c end.

Definition atEol (s : state) : bool :=
  match rest s with EmptyString => true | String c _ => isNewline c end.

Definition advance (c : ascii) (rest' : string) (s : state) : state :=
  mkState (Some c) rest' (S (pos s)) (caps s).

(** Consume a literal text. *)
Fixpoint literal (lit : string) (s : state) (text : string) : option state :=
  match lit, text with
  | EmptyString, _ => Some (mkState (prev s) text (pos s) (caps s))
  | String c lit', String d text' =>
      if c === d then literal lit' (advance d text' s) text' else None
  | String _ _, EmptyString => None
  end.

Definition cap (n : nat) (l : list (nat * string)) : string := default "" (JMap.get l n).

Definition orElse {A : Type} (a : option A) (b : unit -> option A) : option A :=
  match a with Some _ => a | None => b tt end.

Fixpoint exec (r : t) (s : state) (k : state -> option state) {struct r} : option state :=
  match r with
  | Eps => k s
  | Chr p =>
      match rest s with
      | String c rest' => if p c then k (advance c rest' s) else None
      | EmptyString => None
      end
  | Seq a b => exec a s (fun s' => exec b s' k)
  | Alt a b => orElse (exec a s k) (fun _ => exec b s k)
  | Star greedy r =>
      (fix loop (n : nat) (s : state) {struct n} : option state :=
         match n with
         | O => k s
         | S n' =>
             let again (_ : unit) :=
               exec r s (fun s' => if bool_decide (pos s' = pos s) then None else loop n' s') in
             if greedy then orElse (again tt) (fun _ => k s) else orElse (k s) again
         end) (S (String.length (rest s))) s
  | Group n r =>
      exec r s (fun s' =>
        k (mkState (prev s') (rest s') (pos s')
             (JMap.set (caps s') n (Str.take (pos s' - pos s) (rest s)))))
  | Backref n =>
      match literal (cap n (caps s)) s (rest s) with Some s' => k s' | None => None end
  | Bol => if atBol s then k s else None
  | Eol => if atEol s then k s else None
  | Start => match prev s with None => k s | Some _ => None end
  | End_ => match rest s with EmptyString => k s | String _ _ => None end
  end.

(** A match at a position: its text and captures. *)
Definition matchAt (r : t) (before : option ascii) (text : string) : option (string * list (nat * string)) :=
  match exec r (mkState before text 0 []) Some with
  | Some s => Some (Str.take (pos s) text, caps s)
  | None => None
  end.

(** [text.replace(/r/g, f)], from left to right; a match of [n] characters skips
    them, an empty one goes on after the next character. *)
Fixpoint replaceFrom (r : t) (f : string -> list (nat * string) -> outcome string)
    (before : option ascii) (skip : nat) (text : string) : outcome string :=
  match text with
  | EmptyString =>
      match matchAt r before EmptyString with
      | Some (m, c) => f m c
      | None => Ok EmptyString
      end
  | String c text' =>
      match skip with
      | S skip' => replaceFrom r f (Some c) skip' text'
      | O =>
          match matchAt r before text with
          | None => let! out := replaceFrom r f (Some c) O text' in Ok (String c out)
          | Some (m, l) =>
              let! sub := f m l in
              match String.length m with
              | O => let! out := replaceFrom r f (Some c) O text' in Ok (sub +:+ String c out)
              | S n => let! out := replaceFrom r f (Some c) n text' in Ok (sub +:+ out)
              end
          end
      end
  end.

Definition replaceAll (r : t) (f : string -> list (nat * string) -> outcome string) (text : string)
    : outcome string := replaceFrom r f None O text.

(** [[...text.matchAll(/r/g)]] *)
Fixpoint matchesFrom (r : t) (before : option ascii) (skip : nat) (text : string)
    : list (string * list (nat * string)) :=
  match text with
  | EmptyString => match matchAt r before EmptyString with Some m => [m] | None => [] end
  | String c text' =>
      match skip with
      | S skip' => matchesFrom r (Some c) skip' text'
      | O =>
          match matchAt r before text with
          | None => matchesFrom r (Some c) O text'
          | Some m => m :: matchesFrom r (Some c) (pred (String.length m.1)) text'
          end
      end
  end.

Definition matchAll (r : t) (text : string) : list (string * list (nat * string)) := matchesFrom r None O text.

(** [/r/.test(text)] *)
Definition test (r : t) (text : string) : bool :=
  match matchAll r text with [] => false | _ => true end.

(** ** Notation for transcribing patterns *)
Definition lit (c : ascii) : t := Chr (fun d => d === c).
Fixpoint word (s : string) : t :=
  match s with EmptyString => Eps | String c s' => Seq (lit c) (word s') end.
Definition opt (r : t) : t := Alt r Eps.
Definition plus (r : t) : t := Seq r (Star true r).
Definition any : t := Chr (fun _ => true).
Definition notNewline : t := Chr (fun c => negb (isNewline c)).
Fixpoint seq (l : list t) : t := match l with [] => Eps | r :: l' => Seq r (seq l') end.
Fixpoint alt (l : list t) : t := match l with [] => Eps | [r] => r | r :: l' => Alt r (alt l') end.

Definition inRange (lo hi c : ascii) : bool := (N_of_ascii lo <=? N_of_ascii c)%N && (N_of_ascii c <=? N_of_ascii hi)%N.
Definition isDigit (c : ascii) : bool := inRange "0" "9" c.
Definition isAlpha (c : ascii) : bool := inRange "a" "z" c || inRange "A" "Z" c.
(** [\w] *)
Definition isWord (c : ascii) : bool := isAlpha c || isDigit c || (c === "_"%char).
(** [[A-Za-z_]] *)
Definition isIdentStart (c : ascii) : bool := isAlpha c || (c === "_"%char).

Definition oneOf (chars : string) (c : ascii) : bool := Str.includesChar c chars.
End Re.

Example re_lazy :
  Re.matchAll (Re.seq [Re.lit "a"; Re.Group 1 (Re.Star false Re.any); Re.lit "b"]) "xaXbYb"
  = [("aXb", [(1%nat, "X")])].
Proof. reflexivity. Qed.

Example re_greedy :
  Re.matchAll (Re.seq [Re.lit "a"; Re.Group 1 (Re.Star true Re.any); Re.lit "b"]) "xaXbYb"
  = [("aXbYb", [(1%nat, "XbY")])].
Proof. reflexivity. Qed.
