(* ===== verification/Shell.v ===== *)
(** * Reading shell commands

    The shell scanner of [src/policy/command-policy.ts]: how a command line is
    split into simple commands, which texts it would hand to another shell
    ([bash -c], [eval], pipes into a shell, here strings, command substitution,
    variables), and the text the policy rules are matched against.

    A scan is a loop over positions that consumes at least one character per
    round; here it is a recursion on the remaining text, with the number of
    characters a round has consumed beyond the first as the count to skip.
    [String.fromCodePoint] throws above 0x10FFFF, so everything that decodes
    escapes may throw; its result above 255 is outside the strings of the model
    and is the parameter [wideChar], about which nothing is assumed. *)

From Stdlib Require Import ZArith Lia Ascii.
From S2P Require Import Prelude Collections Regex.

(** The quoting characters. *)
Definition dq : ascii := ascii_of_nat 34.
Definition sq : ascii := "'"%char.
Definition bt : ascii := "`"%char.
Definition bs : ascii := "\"%char.
Definition nl : ascii := "010"%char.
Definition isQuote (c : ascii) : bool := (c === sq) || (c === dq) || (c === bt).

(** The first character of a text, as [charAt] compares it. *)
Definition headIs (c : ascii) (s : string) : bool :=
  match s with String d _ => d === c | EmptyString => false end.

Definition snoc (s : string) (c : ascii) : string := s +:+ String c EmptyString.

(** [f(x).map] in the presence of throwing calls. *)
Fixpoint omapM {A B : Type} (f : A -> outcome B) (l : list A) : outcome (list B) :=
  match l with
  | [] => Ok []
  | x :: l' => let! y := f x in let! ys := omapM f l' in Ok (y :: ys)
  end.

Section shell.
Variable wideChar : Z -> string.

(** ** [decodeAnsiC] *)
Definition fromCodePoint (n : Z) : outcome string :=
  if (1114111 <? n)%Z then Throw "Invalid code point" else
  Ok (if (n <? 256)%Z then String (ascii_of_N (Z.to_N n)) EmptyString else wideChar n).

Definition hexDigit (c : ascii) : option Z :=
  let n := Z.of_N (N_of_ascii c) in
  if Re.isDigit c then Some (n - 48)%Z
  else if Re.inRange "a" "f" c then Some (n - 87)%Z
  else if Re.inRange "A" "F" c then Some (n - 55)%Z
  else None.

Definition isHex (c : ascii) : bool := match hexDigit c with Some _ => true | None => false end.
Definition isOctal (c : ascii) : bool := Re.inRange "0" "7" c.

(** [Number.parseInt(digits, base)] of a text of digits. *)
Fixpoint parseDigits (base acc : Z) (s : string) : Z :=
  match s with
  | EmptyString => acc
  | String c s' => parseDigits base (acc * base + default 0%Z (hexDigit c))%Z s'
  end.

Fixpoint times (n : nat) (r : Re.t) : Re.t :=
  match n with O => Re.Eps | S n' => Re.Seq r (times n' r) end.

Definition hex := Re.Chr isHex.
Definition oct := Re.Chr isOctal.

Definition reX := Re.seq [Re.lit bs; Re.lit "x"; Re.Group 1 (Re.Seq hex (Re.opt hex))].
Definition reU4 := Re.seq [Re.lit bs; Re.lit "u"; Re.Group 1 (times 4 hex)].
Definition reU8 := Re.seq [Re.lit bs; Re.lit "U"; Re.Group 1 (times 8 hex)].
Definition reOct := Re.seq [Re.lit bs; Re.Group 1 (Re.Seq oct (Re.opt (Re.Seq oct (Re.opt oct))))].
Definition escapes : string := String bs (String sq (String dq "abefnrtv")).
Definition reEsc := Re.seq [Re.lit bs; Re.Group 1 (Re.Chr (Re.oneOf escapes))].

Definition escapeTable : list (string * ascii) :=
  [("a", "007"%char); ("b", "008"%char); ("e", "027"%char); ("f", "012"%char);
   ("n", "010"%char); ("r", "013"%char); ("t", "009"%char); ("v", "011"%char)].

Definition escapeChar (e : string) : string :=
  match JMap.get escapeTable e with Some c => String c "" | None => e end.

Definition codePoint (base : Z) (_ : string) (caps : list (nat * string)) : outcome string :=
  fromCodePoint (parseDigits base 0 (Re.cap 1 caps)).

Definition decodeAnsiC (value : string) : outcome string :=
  let! v := Re.replaceAll reX (codePoint 16) value in
  let! v := Re.replaceAll reU4 (codePoint 16) v in
  let! v := Re.replaceAll reU8 (codePoint 16) v in
  let! v := Re.replaceAll reOct (codePoint 8) v in
  Re.replaceAll reEsc (fun _ caps => Ok (escapeChar (Re.cap 1 caps))) v.

(** ** [scanShell] *)
Record ShellScan := mkScan { commands : list (list string); nested : list string }.

(** [commandSubstitution]: the offset of the closing parenthesis in the text
    after [$(].  [skip] is set where the loop increments [j] once more. *)
Fixpoint substitutionEnd (s : string) (skip : bool) (depth : nat) (quote : option ascii) (j : nat)
    : option nat :=
  match s with
  | EmptyString => None
  | String c s' =>
      if skip then substitutionEnd s' false depth quote (S j)
      else if c === bs then substitutionEnd s' true depth quote (S j)
      else match quote with
      | Some q => substitutionEnd s' false depth (if c === q then None else quote) (S j)
      | None =>
          if (c === sq) || (c === dq) then substitutionEnd s' false depth (Some c) (S j)
          else if (c === "$"%char) && headIs "(" s' then substitutionEnd s' true (S depth) quote (S j)
          else if c === ")"%char then
            match depth with
            | S (S d) => substitutionEnd s' false (S d) quote (S j)
            | _ => Some j
            end
          else substitutionEnd s' false depth quote (S j)
      end
  end.

(** For a text that starts with [$(]: the body and the characters consumed. *)
Definition commandSubstitution (afterDollar : string) : option (string * nat) :=
  match afterDollar with
  | String _ s => match substitutionEnd s false 1 None 0 with
                  | Some j => Some (Str.take j s, (j + 3)%nat)
                  | None => None
                  end
  | EmptyString => None
  end.

Definition meta : string := ";|&(){}".
Definition isMeta (c : ascii) : bool := Re.oneOf meta c.

Inductive mode := Out | InWord | InDq.

Record scanState := mkScanState {
  st_mode : mode;
  st_word : string;
  st_started : bool;
  st_words : list string;
  st_scan : ShellScan;
}.

(** [flush()] *)
Definition flush (st : scanState) : scanState :=
  match st_words st with
  | [] => st
  | ws => mkScanState (st_mode st) (st_word st) (st_started st) []
            (mkScan (commands (st_scan st) ++ [ws]) (nested (st_scan st)))
  end.

(** [if (wordStarted) words.push(word)] *)
Definition endWord (st : scanState) : scanState :=
  mkScanState Out "" false
    (if st_started st then st_words st ++ [st_word st] else st_words st) (st_scan st).

Definition inWord (st : scanState) (m : mode) (word : string) (started : bool) (body : option string) : scanState :=
  mkScanState m word started (st_words st)
    (match body with
     | Some b => mkScan (commands (st_scan st)) (nested (st_scan st) ++ [b])
     | None => st_scan st
     end).

(** A command substitution, or a back quoted one, in a word or in double quotes:
    the text goes to [nested] and nothing to the word.  [s] follows [c]. *)
Definition substitute (st : scanState) (m : mode) (c : ascii) (s : string) : scanState * nat :=
  if c === bt then
    match Str.indexOf bt s with
    | None => (inWord st m (st_word st) true None, 0%nat)
    | Some e => (inWord st m (st_word st) true (Some (Str.take e s)), S e)
    end
  else
    match commandSubstitution s with
    | None => (inWord st m (snoc (st_word st) c) true None, 0%nat)
    | Some (body, n) => (inWord st m (st_word st) true (Some body), pred n)
    end.

(** One round of the inner loop, at [c] with [s] after it: the new state and how
    many characters of [s] it has consumed too. *)
Definition wordChar (st : scanState) (c : ascii) (s : string) : outcome (scanState * nat) :=
  let word := st_word st in
  if c === bs then
    match s with
    | EmptyString => Ok (inWord st InWord word (st_started st) None, 0%nat)
    | String d _ => if d === nl then Ok (inWord st InWord word (st_started st) None, 1%nat)
                    else Ok (inWord st InWord (snoc word d) true None, 1%nat)
    end
  else if c === sq then
    match Str.indexOf sq s with
    | None => Ok (inWord st InWord (word +:+ s) true None, String.length s)
    | Some e => Ok (inWord st InWord (word +:+ Str.take e s) true None, S e)
    end
  else if (c === "$"%char) && headIs sq s then
    let s' := Str.drop 1 s in
    match Str.indexOf sq s' with
    | None => Ok (inWord st InWord (word +:+ s') true None, String.length s)
    | Some e => let! text := decodeAnsiC (Str.take e s') in
                Ok (inWord st InWord (word +:+ text) true None, S (S e))
    end
  else if c === dq then Ok (inWord st InDq word true None, 0%nat)
  else if ((c === "$"%char) && headIs "(" s) || (c === bt) then Ok (substitute st InWord c s)
  else Ok (inWord st InWord (snoc word c) true None, 0%nat).

(** One round of the loop inside double quotes. *)
Definition dqChar (st : scanState) (c : ascii) (s : string) : scanState * nat :=
  let word := st_word st in
  if c === dq then (inWord st InWord word (st_started st) None, 0%nat)
  else match c === bs, s with
  | true, String d _ => (inWord st InDq (snoc word d) (st_started st) None, 1%nat)
  | _, _ =>
      if ((c === "$"%char) && headIs "(" s) || (c === bt) then substitute st InDq c s
      else (inWord st InDq (snoc word c) (st_started st) None, 0%nat)
  end.

(** One round of the outer loop between words. *)
Definition outChar (st : scanState) (c : ascii) (s : string) : outcome (scanState * nat) :=
  if Str.js_space c then Ok (if c === nl then flush st else st, 0%nat)
  else if (c === "#"%char) && bool_decide (st_words st = []) then
    Ok (st, match Str.indexOf nl s with Some e => e | None => String.length s end)
  else if isMeta c then Ok (flush st, 0%nat)
  else wordChar (mkScanState InWord "" false (st_words st) (st_scan st)) c s.

(** [/[<>]$/.test(word)] *)
Definition endsInRedirect (word : string) : bool := Str.endsWith word "<" || Str.endsWith word ">".

Definition scanChar (st : scanState) (c : ascii) (s : string) : outcome (scanState * nat) :=
  match st_mode st with
  | Out => outChar st c s
  | InDq => Ok (dqChar st c s)
  | InWord =>
      if Str.js_space c || (isMeta c && negb ((c === "&"%char) && endsInRedirect (st_word st)))
      then outChar (endWord st) c s
      else wordChar st c s
  end.

Fixpoint scanFrom (st : scanState) (skip : nat) (s : string) : outcome ShellScan :=
  match s with
  | EmptyString =>
      let st := match st_mode st with Out => st | _ => endWord st end in
      Ok (st_scan (flush st))
  | String c s' =>
      match skip with
      | S skip' => scanFrom st skip' s'
      | O => let! next := scanChar st c s' in scanFrom next.1 next.2 s'
      end
  end.

Definition scanShell (input : string) : outcome ShellScan :=
  scanFrom (mkScanState Out "" false [] (mkScan [] [])) 0 input.

(** ** Words of a simple command *)
Definition isIdent (s : string) : bool :=
  match s with
  | String c s' => Re.isIdentStart c && forallb Re.isWord (String.list_ascii_of_string s')
  | EmptyString => false
  end.

(** [/^[A-Za-z_]\w*=/.test(word)] *)
Definition isAssignment (word : string) : bool :=
  match Str.indexOf "=" word with
  | Some n => isIdent (Str.take n word)
  | None => false
  end.

Definition keywords : list string := ["if"; "then"; "elif"; "else"; "while"; "until"; "do"; "!"].
Definition redirections : list string := [">"; ">>"; "<"; "<<"; "<>"; ">&"; "<&"].

Fixpoint dropDigits (s : string) : string :=
  match s with
  | String c s' => if Re.isDigit c then dropDigits s' else s
  | EmptyString => s
  end.

(** [/^\d*(?:>>?|<<?|<>|>&|<&).+/.test(word)]: whichever operator is tried, the
    text after the digits is [<] or [>] and one more character of the line. *)
Definition hasRedirectPrefix (word : string) : bool :=
  match dropDigits word with
  | String c (String d _) => ((c === ">"%char) || (c === "<"%char)) && negb (Re.isNewline d)
  | _ => false
  end.

Fixpoint commandStart (words : list string) : nat :=
  match words with
  | [] => 0
  | word :: rest =>
      if isAssignment word || bool_decide (word ∈ keywords) then S (commandStart rest)
      else if bool_decide (dropDigits word ∈ redirections) then
        match rest with [] => 2 | _ :: rest' => S (S (commandStart rest')) end
      else if hasRedirectPrefix word then S (commandStart rest)
      else 0
  end.

(** [word.replace(/=.*/, "")] *)
Fixpoint dropLine (s : string) : string :=
  match s with
  | String c s' => if Re.isNewline c then s else dropLine s'
  | EmptyString => s
  end.

Definition optionName (word : string) : string :=
  match Str.indexOf "=" word with
  | Some n => Str.take n word +:+ dropLine (Str.drop n word)
  | None => word
  end.

(** [optionCommand(words, 0, valueOptions)]: past the end when the last option
    lacks its value. *)
Fixpoint optionCommand (words : list string) (valueOptions : list string) : nat :=
  match words with
  | [] => 0
  | word :: rest =>
      if word === "--" then 1
      else if negb (Str.startsWith word "-") || (word === "-") then 0
      else if bool_decide (optionName word ∈ valueOptions) && negb (Str.includesChar "=" word) then
        match rest with [] => 2 | _ :: rest' => S (S (optionCommand rest' valueOptions)) end
      else S (optionCommand rest valueOptions)
  end.

Definition executableOf (word : string) : string := List.last (Str.split "/" word) "".

(** [args.findIndex] for [env -S]. *)
Definition isSplitOption (arg : string) : bool :=
  (arg === "-S") || Str.startsWith arg "-S" || (arg === "--split-string")
  || Str.startsWith arg "--split-string=".

Fixpoint findIndex {A : Type} (p : A -> bool) (l : list A) : option nat :=
  match l with
  | [] => None
  | x :: l' => if p x then Some O else S <$> findIndex p l'
  end.

Definition splitStringPayload (args : list string) (split : nat) : option string * list string :=
  let arg := default "" (args !! split) in
  let compact := Str.startsWith arg "-S" && (2 <? String.length arg)%nat in
  let eq := Str.indexOf "=" arg in
  let value := match eq with
               | Some n => Some (Str.drop (S n) arg)
               | None => if compact then Some (Str.drop 2 arg) else args !! S split
               end in
  let used := if bool_decide (is_Some eq) || compact then 1 else 2 in
  (value, drop (split + used) args).

(** The text that [env -S] would run, if the option is given. *)
Definition envSplitText (args : list string) : option (option string) :=
  match findIndex isSplitOption args with
  | None => None
  | Some split =>
      let '(value, rest) := splitStringPayload args split in
      Some (match value with Some v => Some (Str.join " " (v :: rest)) | None => None end)
  end.

Definition envSplitWords (args : list string) : outcome (option (list string)) :=
  match envSplitText args with
  | None => Ok None
  | Some None => Ok (Some [])
  | Some (Some text) =>
      let! scan := scanShell text in
      Ok (Some (match commands scan with [] => [] | c :: _ => c end))
  end.

(** ** Wrappers that run the rest of their arguments *)
Definition sudoOptions : list string :=
  ["-u"; "--user"; "-g"; "--group"; "-h"; "--host"; "-p"; "--prompt"; "-C"; "--chdir";
   "-T"; "--command-timeout"; "-R"; "--chroot"; "-t"; "--type"].
Definition xargsOptions : list string :=
  ["-a"; "--arg-file"; "-d"; "--delimiter"; "-E"; "--eof"; "-I"; "--replace"; "-L"; "--max-lines";
   "-n"; "--max-args"; "-P"; "--max-procs"; "-s"; "--max-chars"].
Definition stdbufOptions : list string := ["-i"; "--input"; "-o"; "--output"; "-e"; "--error"].
Definition envOptions : list string := ["-u"; "--unset"; "-C"; "--chdir"; "-S"; "--split-string"].

(** The wrappers every one of the readers below knows, with the index at which
    the wrapped command starts. *)
Definition wrapperNext (executable : string) (args : list string) : option nat :=
  if executable === "exec" then Some (optionCommand args ["-a"])
  else if executable === "sudo" then Some (optionCommand args sudoOptions)
  else if executable === "nice" then Some (optionCommand args ["-n"; "--adjustment"])
  else if executable === "timeout" then
    Some (optionCommand args ["-s"; "--signal"; "-k"; "--kill-after"] + 1)
  else if executable === "time" then Some (optionCommand args ["-o"; "--output"; "-f"; "--format"])
  else if executable === "nohup" then Some (optionCommand args [])
  else None.

(** [while (next < args.length && isAssignment(args[next])) next++] *)
Fixpoint skipAssignments (args : list string) : list string :=
  match args with
  | [] => []
  | a :: rest => if isAssignment a then skipAssignments rest else args
  end.

Definition afterEnv (valueOptions : list string) (args : list string) : list string :=
  skipAssignments (drop (optionCommand args valueOptions) args).

Definition shells : list string := ["bash"; "sh"; "dash"; "zsh"; "ksh"].
Definition shellValueOptions : list string := ["-O"; "-o"; "--rcfile"; "--init-file"].
Definition stdinScripts : list string := ["-"; "/dev/stdin"; "/dev/fd/0"; "/proc/self/fd/0"].

(** [/^-[^-]*c/.test(arg)] *)
Fixpoint cBeforeDash (s : string) : bool :=
  match s with
  | EmptyString => false
  | String c s' => (c === "c"%char) || (negb (c === "-"%char) && cBeforeDash s')
  end.

Definition isCommandOption (arg : string) : bool :=
  match arg with
  | String c s => (c === "-"%char) && cBeforeDash s
  | EmptyString => false
  end.

Definition stackOverflow {A : Type} : outcome A := Throw "Maximum call stack size exceeded".

(** The loop over the arguments of a shell: does it read its script from
    standard input? *)
Fixpoint shellReadsStdin (args : list string) : bool :=
  match args with
  | [] => true
  | arg :: rest =>
      if isCommandOption arg then false
      else if arg === "-s" then true
      else if bool_decide (arg ∈ shellValueOptions) then
        match rest with [] => true | _ :: rest' => shellReadsStdin rest' end
      else if arg === "--" then
        match rest with [] => true | next :: _ => bool_decide (next ∈ stdinScripts) end
      else if negb (Str.startsWith arg "-") || (arg === "-") then bool_decide (arg ∈ stdinScripts)
      else shellReadsStdin rest
  end.

Fixpoint segmentConsumesShellStdin (fuel : nat) (words : list string) : outcome bool :=
  match fuel with
  | O => stackOverflow
  | S fuel =>
      match drop (commandStart words) words with
      | [] => Ok false
      | executableWord :: args =>
          let executable := executableOf executableWord in
          if bool_decide (executable ∈ shells) then Ok (shellReadsStdin args)
          else if executable === "env" then
            let! split := envSplitWords args in
            match split with
            | Some ws => segmentConsumesShellStdin fuel ws
            | None => segmentConsumesShellStdin fuel (afterEnv envOptions args)
            end
          else if executable === "command" then
            segmentConsumesShellStdin fuel (drop (optionCommand args []) args)
          else match wrapperNext executable args with
          | Some next => segmentConsumesShellStdin fuel (drop next args)
          | None =>
              if executable === "stdbuf"
              then segmentConsumesShellStdin fuel (drop (optionCommand args stdbufOptions) args)
              else Ok false
          end
      end
  end.

(** The loop over the options of [command]; [None] for [-v] and [-V]. *)
Fixpoint afterCommand (args : list string) : option (list string) :=
  match args with
  | [] => Some []
  | a :: rest =>
      if a === "--" then Some rest
      else if (a === "-v") || (a === "-V") then None
      else if a !== "-p" then Some args
      else afterCommand rest
  end.

(** [/^-[neE]+$/] *)
Definition isEchoOption (arg : string) : bool :=
  match arg with
  | String c (String d s) => (c === "-"%char)
      && forallb (Re.oneOf "neE") (String.list_ascii_of_string (String d s))
  | _ => false
  end.

Definition echoFlag (decode : bool) (c : ascii) : bool :=
  if c === "e"%char then true else if c === "E"%char then false else decode.

Fixpoint echoArgs (decode : bool) (args : list string) : bool * list string :=
  match args with
  | [] => (decode, [])
  | a :: rest =>
      if isEchoOption a
      then echoArgs (foldl echoFlag decode (String.list_ascii_of_string (Str.drop 1 a))) rest
      else (decode, args)
  end.

(** The replacement of [%s], [%b] and [%%] in a [printf] format. *)
Fixpoint printfFormat (format : string) (values : list string) : outcome (string * list string) :=
  match format with
  | EmptyString => Ok ("", values)
  | String c tl =>
      match tl with
      | EmptyString => Ok (format, values)
      | String d rest =>
          if (c === "%"%char) && (d === "%"%char) then
            let! out := printfFormat rest values in Ok (String "%" out.1, out.2)
          else if (c === "%"%char) && ((d === "s"%char) || (d === "b"%char)) then
            let value := default "" (head values) in
            let! text := if d === "b"%char then decodeAnsiC value else Ok value in
            let! out := printfFormat rest (tail values) in Ok (text +:+ out.1, out.2)
          else let! out := printfFormat tl values in Ok (String c out.1, out.2)
      end
  end.

Definition textProducer (executable : string) (args : list string) : outcome (option string) :=
  let args := match args with "--" :: rest => rest | _ => args end in
  if executable === "echo" then
    let '(decode, args) := echoArgs false args in
    let payload := Str.join " " args in
    if decode then let! p := decodeAnsiC payload in Ok (Some p) else Ok (Some payload)
  else
    match executable === "printf", args with
    | true, format :: values =>
        let! decoded := decodeAnsiC format in
        let! rendered := printfFormat decoded values in
        Ok (Some (Str.join (String nl "") (rendered.1 :: rendered.2 ++ [Str.join " " args])))
    | _, _ => Ok None
    end.

Fixpoint literalProducerPayload (fuel : nat) (words : list string) : outcome (option string) :=
  match fuel with
  | O => stackOverflow
  | S fuel =>
      match drop (commandStart words) words with
      | [] => Ok None
      | executableWord :: args =>
          let executable := executableOf executableWord in
          if executable === "command" then
            match afterCommand args with
            | Some rest => literalProducerPayload fuel rest
            | None => Ok None
            end
          else if executable === "builtin" then
            match args with
            | a :: rest => if a === "--" then literalProducerPayload fuel rest
                           else if Str.startsWith a "-" then Ok None
                           else literalProducerPayload fuel args
            | [] => literalProducerPayload fuel []
            end
          else if executable === "env" then
            let! split := envSplitWords args in
            match split with
            | Some ws => literalProducerPayload fuel ws
            | None => literalProducerPayload fuel (afterEnv ["-u"; "--unset"; "-C"; "--chdir"] args)
            end
          else match wrapperNext executable args with
          | Some next => literalProducerPayload fuel (drop next args)
          | None =>
              if executable === "stdbuf"
              then literalProducerPayload fuel (drop (optionCommand args stdbufOptions) args)
              else textProducer executable args
          end
      end
  end.

(** Recursion depth that the words of a command can ask for: a call either
    drops words or rescans the text of one of them. *)
Definition callDepth (words : list string) : nat :=
  S (foldr (fun w n => (S (String.length w) + n)%nat) 0%nat words).

(** ** [shellPipelines] *)
Record pipeState := mkPipe {
  p_pipelines : list (list string); p_pipeline : list string; p_segment : string; p_quote : option ascii
}.

Definition finishSegment (st : pipeState) : pipeState :=
  let segment := Str.trim (p_segment st) in
  mkPipe (p_pipelines st) (if Str.truthy segment then p_pipeline st ++ [segment] else p_pipeline st)
    "" (p_quote st).

Definition finishPipeline (st : pipeState) : pipeState :=
  let st := finishSegment st in
  mkPipe (if (1 <? length (p_pipeline st))%nat then p_pipelines st ++ [p_pipeline st] else p_pipelines st)
    [] "" (p_quote st).

Definition keepChar (st : pipeState) (c : ascii) (quote : option ascii) : pipeState :=
  mkPipe (p_pipelines st) (p_pipeline st) (snoc (p_segment st) c) quote.

(** What to do with the next character: read it, or skip it as part of the
    segment or as part of an operator. *)
Inductive pipeSkip := skip_no | skip_keep | skip_drop.

Definition pipeChar (st : pipeState) (c : ascii) (s : string) : pipeState * pipeSkip :=
  if c === bs then (keepChar st c (p_quote st), skip_keep)
  else match p_quote st with
  | Some q => (keepChar st c (if c === q then None else p_quote st), skip_no)
  | None =>
      if isQuote c then (keepChar st c (Some c), skip_no)
      else if ((c === "|"%char) || (c === "&"%char)) && headIs c s then (finishPipeline st, skip_drop)
      else if c === "|"%char then
        (finishSegment st, if headIs "&" s then skip_drop else skip_no)
      else if (c === ";"%char) || (c === nl) || (c === "&"%char) then (finishPipeline st, skip_no)
      else (keepChar st c None, skip_no)
  end.

Fixpoint pipesFrom (st : pipeState) (skip : pipeSkip) (s : string) : list (list string) :=
  match s with
  | EmptyString => p_pipelines (finishPipeline st)
  | String c s' =>
      match skip with
      | skip_keep => pipesFrom (keepChar st c (p_quote st)) skip_no s'
      | skip_drop => pipesFrom st skip_no s'
      | skip_no => let '(st', skip') := pipeChar st c s' in pipesFrom st' skip' s'
      end
  end.

Definition shellPipelines (input : string) : list (list string) :=
  pipesFrom (mkPipe [] [] "" None) skip_no input.

Definition pipedPayload (producerText consumerText : string) : outcome (list string) :=
  let! consumer := scanShell consumerText in
  match commands consumer with
  | [] => Ok []
  | first :: _ =>
      let! reads := segmentConsumesShellStdin (callDepth first) first in
      if negb reads then Ok [] else
      let! producers := scanShell producerText in
      match last (commands producers) with
      | None => Ok []
      | Some producer =>
          let! payload := literalProducerPayload (callDepth producer) producer in
          Ok (match payload with Some p => if Str.truthy p then [p] else [] | None => [] end)
      end
  end.

Fixpoint pipelinePayloads (pipeline : list string) : outcome (list string) :=
  match pipeline with
  | producer :: ((consumer :: _) as rest) =>
      let! here := pipedPayload producer consumer in
      let! more := pipelinePayloads rest in
      Ok (here ++ more)
  | _ => Ok []
  end.

Definition pipedShellPayloads (input : string) : outcome (list string) :=
  let! l := omapM pipelinePayloads (shellPipelines input) in Ok (concat l).

(** ** Here strings *)
Fixpoint spaceHereStrings (quote : option ascii) (skip : nat) (keep : bool) (s : string) : string :=
  match s with
  | EmptyString => EmptyString
  | String c s' =>
      match skip with
      | S skip' => if keep then String c (spaceHereStrings quote skip' keep s')
                   else spaceHereStrings quote skip' keep s'
      | O =>
          if c === bs then String c (spaceHereStrings quote 1 true s')
          else match quote with
          | Some q => String c (spaceHereStrings (if c === q then None else quote) 0 false s')
          | None =>
              if isQuote c then String c (spaceHereStrings (Some c) 0 false s')
              else if Str.startsWith s "<<<" then " <<< " +:+ spaceHereStrings None 2 false s'
              else String c (spaceHereStrings None 0 false s')
          end
      end
  end.

Definition hereStringPayload (words : list string) : outcome (list string) :=
  match findIndex (fun w => w === "<<<") words with
  | Some (S r) =>
      let before := take (S r) words in
      let! reads := segmentConsumesShellStdin (callDepth before) before in
      Ok (if reads then match words !! S (S r) with
                        | Some p => if Str.truthy p then [p] else []
                        | None => []
                        end else [])
  | _ => Ok []
  end.

Definition hereStringShellPayloads (input : string) : outcome (list string) :=
  let! scan := scanShell (spaceHereStrings None 0 false input) in
  let! l := omapM hereStringPayload (commands scan) in Ok (concat l).

(** ** Variables *)
Fixpoint executableIndex (fuel : nat) (words : list string) (offset : nat) : option nat :=
  match fuel with
  | O => None
  | S fuel =>
      let start := commandStart words in
      match drop start words with
      | [] => None
      | executableWord :: args =>
          let executable := executableOf executableWord in
          let next :=
            if executable === "command" then Some (optionCommand args [])
            else if executable === "env" then
              Some (length args - length (afterEnv envOptions args))%nat
            else match wrapperNext executable args with
            | Some n => Some n
            | None => if executable === "stdbuf" then Some (optionCommand args stdbufOptions) else None
            end in
          match next with
          | None => Some (offset + start)%nat
          | Some next => executableIndex fuel (drop next args) (offset + start + 1 + next)
          end
      end
  end.

(** A whole word of the form [name=value] whose value is one or more of [\w./-]. *)
Definition simpleAssignment (word : string) : option (string * string) :=
  match Str.indexOf "=" word with
  | None => None
  | Some n =>
      let name := Str.take n word in
      let value := Str.drop (S n) word in
      if isIdent name && Str.truthy value
         && forallb (fun c => Re.isWord c || Re.oneOf "./-" c) (String.list_ascii_of_string value)
      then Some (name, value) else None
  end.

(** A whole word of the form [$name] or [${name}]. *)
Definition variableName (word : string) : option string :=
  match word with
  | String "$" (String "{" s) =>
      if Str.endsWith s "}" then
        let name := Str.take (String.length s - 1) s in if isIdent name then Some name else None
      else None
  | String "$" s => if isIdent s then Some s else None
  | _ => None
  end.

Definition assignSimple (values : jmap string string) (word : string) : jmap string string :=
  match simpleAssignment word with Some (n, v) => JMap.set values n v | None => values end.

Fixpoint variablePayloads (values : jmap string string) (cmds : list (list string)) : list string :=
  match cmds with
  | [] => []
  | words :: cmds' =>
      if (length words <=? commandStart words)%nat
      then variablePayloads (foldl assignSimple values words) cmds'
      else
        let found :=
          index ← executableIndex (S (length words)) words 0;
          name ← variableName (default "" (words !! index));
          value ← JMap.get values name;
          if Str.truthy value
          then Some (Str.join " " (take index words ++ value :: drop (S index) words)) else None in
        match found with
        | Some p => p :: variablePayloads values cmds'
        | None => variablePayloads values cmds'
        end
  end.

Definition simpleVariablePayloads (input : string) : outcome (list string) :=
  let! scan := scanShell input in Ok (variablePayloads [] (commands scan)).

(** ** Commands given to another shell *)
Fixpoint shellCommandText (args : list string) : list string :=
  match args with
  | [] => []
  | a :: rest =>
      if (a === "--") || negb (Str.startsWith a "-") then []
      else if bool_decide (a ∈ shellValueOptions) then
        match rest with [] => [] | _ :: rest' => shellCommandText rest' end
      else if isCommandOption a then match rest with [] => [] | text :: _ => [text] end
      else shellCommandText rest
  end.

(** [fuel] bounds the calls; each drops at least one word. *)
Fixpoint segmentPayloads (fuel : nat) (words : list string) : list string :=
  match fuel with
  | O => []
  | S fuel =>
      match drop (commandStart words) words with
      | [] => []
      | executableWord :: args =>
          let executable := executableOf executableWord in
          if bool_decide (executable ∈ shells) then shellCommandText args
          else if executable === "eval" then
            match args with [] => [] | _ => [Str.join " " args] end
          else if executable === "env" then
            match envSplitText args with
            | Some (Some text) => [text]
            | Some None => []
            | None => segmentPayloads fuel (afterEnv envOptions args)
            end
          else if executable === "command" then
            match afterCommand args with Some rest => segmentPayloads fuel rest | None => [] end
          else if executable === "coproc" then segmentPayloads fuel args
          else if executable === "xargs" then
            segmentPayloads fuel (drop (optionCommand args xargsOptions) args)
          else match wrapperNext executable args with
          | Some next => segmentPayloads fuel (drop next args)
          | None => []
          end
      end
  end.

Definition segmentShellPayloads (words : list string) : list string :=
  segmentPayloads (S (length words)) words.

Definition executedShellPayloads (input : string) : outcome (list string) :=
  let! scan := scanShell input in
  let! piped := pipedShellPayloads input in
  let! here := hereStringShellPayloads input in
  let! vars := simpleVariablePayloads input in
  Ok (nested scan ++ concat (map segmentShellPayloads (commands scan)) ++ piped ++ here ++ vars).
End shell.

Example scan_two :
  scanShell (fun _ => "") "FOO=1 ls -l 'a b'; bash -c 'rm x' | cat"
  = Ok (mkScan [["FOO=1"; "ls"; "-l"; "a b"]; ["bash"; "-c"; "rm x"]; ["cat"]] []).
Proof. reflexivity. Qed.

Example scan_nested :
  scanShell (fun _ => "") "echo $(rm -r \) x) `id` $'\x41' # done"
  = Ok (mkScan [["echo"; ""; ""; "A"; "#"; "done"]] ["rm -r \) x"; "id"]).
Proof. reflexivity. Qed.

Example piped_payload :
  executedShellPayloads (fun _ => "") "printf 'rm %s' -rf | sudo -u root bash; sh <<< 'id'; X=rm; $X -r a"
  = Ok [String "r" ("m -rf" +:+ String nl "rm %s -rf"); "id"; "rm -r a"].
Proof. vm_compute. reflexivity. Qed.

Example wrapped_payload :
  executedShellPayloads (fun _ => "") "env A=1 nice -n 5 timeout 3 bash -lc 'rm -rf x'; eval ls -l"
  = Ok ["rm -rf x"; "ls -l"].
Proof. vm_compute. reflexivity. Qed.

(** ** What the payload reader finds *)
Lemma commandStart_plain w ws : commandStart [w] = 0%nat -> commandStart (w :: ws) = 0%nat.
Proof. cbn. destruct (_ || _); [done|]. destruct (bool_decide _); [done|]. by destruct (hasRedirectPrefix w). Qed.

Lemma optionCommand_plain w ws opts : Str.startsWith w "-" = false -> optionCommand (w :: ws) opts = 0%nat.
Proof. intros Hw. cbn. rewrite Hw. case_bool_decide; [subst; done|done]. Qed.

Lemma skipAssignments_length args : (length (skipAssignments args) <= length args)%nat.
Proof. induction args as [|a args IH]; cbn; [lia|]. destruct (isAssignment a); cbn; lia. Qed.

Lemma afterEnv_length opts args : (length (afterEnv opts args) <= length args)%nat.
Proof. unfold afterEnv. etrans; [apply skipAssignments_length|]. rewrite length_drop. lia. Qed.

Lemma afterCommand_length args rest : afterCommand args = Some rest -> (length rest <= length args)%nat.
Proof.
  induction args as [|a args IH]; cbn; [intros [= <-]; cbn; lia|].
  destruct (_ === _); [intros [= <-]; lia|]. destruct (_ || _); [done|].
  destruct (_ !== _); [intros [= <-]; cbn; lia|]. intros H%IH. lia.
Qed.

Lemma drop_cons_length {A} n (l : list A) x l' : drop n l = x :: l' -> (length l' < length l)%nat.
Proof. intros H. apply (f_equal length) in H. rewrite length_drop in H. cbn in H. lia. Qed.

(** More calls than there are words are never needed. *)
Lemma segmentPayloads_fuel n m ws :
  (length ws < n)%nat -> (length ws < m)%nat -> segmentPayloads n ws = segmentPayloads m ws.
Proof.
  revert m ws. induction n as [|n IH]; intros [|m] ws Hn Hm; [lia..|].
  cbn [segmentPayloads]. destruct (drop (commandStart ws) ws) as [|w args] eqn:E; [done|].
  apply drop_cons_length in E.
  assert (forall l, (length l <= length args)%nat -> segmentPayloads n l = segmentPayloads m l) as Hrec
    by (intros l Hl; apply IH; lia).
  assert (forall k, segmentPayloads n (drop k args) = segmentPayloads m (drop k args)) as Hdrop
    by (intros k; apply Hrec; rewrite length_drop; lia).
  destruct (bool_decide _); [done|]. destruct (_ === _); [done|].
  destruct (_ === _); [destruct (envSplitText args) as [[|]|]; [done..|apply Hrec, afterEnv_length]|].
  destruct (_ === _).
  { destruct (afterCommand args) eqn:Ec; [|done]. by apply Hrec, afterCommand_length. }
  destruct (_ === _); [by apply Hrec|]. destruct (_ === _); [apply Hdrop|].
  destruct (wrapperNext _ _); [apply Hdrop|done].
Qed.

Lemma segmentPayloads_enough n ws :
  (length ws < n)%nat -> segmentPayloads n ws = segmentShellPayloads ws.
Proof. intros H. apply segmentPayloads_fuel; lia. Qed.

Lemma segmentShellPayloads_assign a ws :
  isAssignment a = true -> segmentShellPayloads (a :: ws) = segmentShellPayloads ws.
Proof.
  intros Ha. rewrite <- (segmentPayloads_enough (S (S (length ws))) ws) by lia.
  unfold segmentShellPayloads. cbn [length]. cbn [segmentPayloads commandStart]. rewrite Ha. done.
Qed.

Lemma segmentShellPayloads_skip ws : segmentShellPayloads (skipAssignments ws) = segmentShellPayloads ws.
Proof.
  induction ws as [|a ws IH]; [done|]. cbn [skipAssignments].
  destruct (isAssignment a) eqn:E; [|done]. by rewrite IH, segmentShellPayloads_assign.
Qed.

(** Words that [shellCommandText] steps over one by one. *)
Definition plainShellOption (o : string) : Prop :=
  Str.startsWith o "-" = true /\ o <> "--" /\ isCommandOption o = false /\ o ∉ shellValueOptions.

Definition notOption (ws : list string) : Prop :=
  match ws with w :: _ => Str.startsWith w "-" = false | [] => True end.

Definition simpleWrappers : list string :=
  ["exec"; "nohup"; "sudo"; "nice"; "time"; "command"; "coproc"; "xargs"].

(** [runsScript words script]: running the simple command [words] makes some
    shell execute the text [script]. *)
Inductive runsScript : list string -> string -> Prop :=
| rs_shell exe opts c script rest :
    commandStart [exe] = 0%nat -> executableOf exe ∈ shells ->
    Forall plainShellOption opts -> isCommandOption c = true ->
    runsScript (exe :: opts ++ c :: script :: rest) script
| rs_eval exe args :
    commandStart [exe] = 0%nat -> executableOf exe = "eval" -> args <> [] ->
    runsScript (exe :: args) (Str.join " " args)
| rs_assign a ws script : isAssignment a = true -> runsScript ws script -> runsScript (a :: ws) script
| rs_wrap w ws script :
    commandStart [w] = 0%nat -> executableOf w ∈ simpleWrappers -> notOption ws ->
    runsScript ws script -> runsScript (w :: ws) script
| rs_sudo_option w o v ws script :
    commandStart [w] = 0%nat -> executableOf w = "sudo" -> o ∈ sudoOptions -> notOption ws ->
    runsScript ws script -> runsScript (w :: o :: v :: ws) script
| rs_timeout w duration ws script :
    commandStart [w] = 0%nat -> executableOf w = "timeout" -> Str.startsWith duration "-" = false ->
    runsScript ws script -> runsScript (w :: duration :: ws) script
| rs_env w ws script :
    commandStart [w] = 0%nat -> executableOf w = "env" -> notOption ws ->
    existsb isSplitOption ws = false ->
    runsScript ws script -> runsScript (w :: ws) script.

Lemma optionCommand_notOption ws opts : notOption ws -> optionCommand ws opts = 0%nat.
Proof. destruct ws as [|w ws]; [done|]. apply optionCommand_plain. Qed.

Lemma afterCommand_notOption ws : notOption ws -> afterCommand ws = Some ws.
Proof.
  destruct ws as [|w ws]; [done|]. cbn. intros Hw.
  repeat case_bool_decide; subst; done.
Qed.

Lemma isCommandOption_facts c :
  isCommandOption c = true -> c <> "--" /\ Str.startsWith c "-" = true /\ c ∉ shellValueOptions.
Proof.
  intros H. split_and!.
  - by intros ->.
  - destruct c as [|a s]; cbn in *; [done|]. js_bool. apply (Str.startsWith_append "-" s).
  - intros Hin. unfold shellValueOptions in Hin.
    repeat (apply elem_of_cons in Hin as [->|Hin]; [done|]). by apply not_elem_of_nil in Hin.
Qed.

Lemma shellCommandText_finds opts c script rest :
  Forall plainShellOption opts -> isCommandOption c = true ->
  shellCommandText (opts ++ c :: script :: rest) = [script].
Proof.
  intros Ho Hc. induction Ho as [|o opts (H1 & H2 & H3 & H4) _ IH]; cbn.
  - destruct (isCommandOption_facts c Hc) as (H1 & H2 & H3).
    by rewrite (bool_decide_eq_false_2 _ H1), H2, (bool_decide_eq_false_2 _ H3), Hc.
  - by rewrite (bool_decide_eq_false_2 _ H2), H1, (bool_decide_eq_false_2 _ H4), H3.
Qed.

Lemma findIndex_none {A} (p : A -> bool) l : existsb p l = false -> findIndex p l = None.
Proof. induction l as [|x l IH]; cbn; [done|]. intros [-> H]%orb_false_iff. by rewrite IH. Qed.

(** One wrapper off: how the reader goes on after the word [w]. *)
Lemma segment_unfold w args :
  commandStart [w] = 0%nat ->
  segmentShellPayloads (w :: args)
  = let executable := executableOf w in
    if bool_decide (executable ∈ shells) then shellCommandText args
    else if executable === "eval" then match args with [] => [] | _ => [Str.join " " args] end
    else if executable === "env" then
      match envSplitText args with
      | Some (Some text) => [text]
      | Some None => []
      | None => segmentShellPayloads (afterEnv envOptions args)
      end
    else if executable === "command" then
      match afterCommand args with Some rest => segmentShellPayloads rest | None => [] end
    else if executable === "coproc" then segmentShellPayloads args
    else if executable === "xargs" then
      segmentShellPayloads (drop (optionCommand args xargsOptions) args)
    else match wrapperNext executable args with
    | Some next => segmentShellPayloads (drop next args)
    | None => []
    end.
Proof.
  intros Hw. unfold segmentShellPayloads at 1. cbn [length segmentPayloads].
  rewrite (commandStart_plain _ args Hw). cbn [drop].
  assert (forall l, (length l <= length args)%nat ->
    segmentPayloads (S (length args)) l = segmentShellPayloads l) as Hrec
    by (intros l Hl; apply segmentPayloads_enough; lia).
  repeat (destruct (bool_decide _); [try done|]).
  - destruct (envSplitText args) as [[|]|]; [done..|]. apply Hrec, afterEnv_length.
  - destruct (afterCommand args) eqn:E; [|done]. by apply Hrec, afterCommand_length.
  - apply Hrec. rewrite length_drop. lia.
  - destruct (wrapperNext _ _); [|done]. apply Hrec. rewrite length_drop. lia.
Qed.

Lemma segment_simple w ws :
  commandStart [w] = 0%nat -> executableOf w ∈ simpleWrappers -> notOption ws ->
  segmentShellPayloads (w :: ws) = segmentShellPayloads ws.
Proof.
  intros Hw Hin Hn. rewrite (segment_unfold _ _ Hw). cbv zeta.
  unfold simpleWrappers in Hin. repeat (apply elem_of_cons in Hin as [->|Hin]);
    [| | | | | | | |by apply not_elem_of_nil in Hin];
    unfold wrapperNext; rewrite ?(afterCommand_notOption _ Hn), ?(optionCommand_notOption _ _ Hn); reflexivity.
Qed.

(** A script is found however it is wrapped: behind any nesting of variable
    assignments, [env], [sudo] with or without an option, [timeout], [exec],
    [nohup], [nice], [time], [command], [coproc] and [xargs], with any options of
    the shell before [-c], and for [eval]. *)
Lemma wrapped_script_found (words : list string) (script : string) :
  runsScript words script -> script ∈ segmentShellPayloads words.
Proof.
  induction 1 as [exe opts c script rest Hs Hx Ho Hc|exe args Hs Hx Ha|a ws script Ha _ IH
    |w ws script Hs Hx Hn _ IH|w o v ws script Hs Hx Ho Hn _ IH|w d ws script Hs Hx Hd _ IH
    |w ws script Hs Hx Hn He _ IH].
  - rewrite (segment_unfold _ _ Hs). cbv zeta. rewrite (bool_decide_eq_true_2 _ Hx).
    rewrite (shellCommandText_finds _ _ _ _ Ho Hc). by left.
  - rewrite (segment_unfold _ _ Hs), Hx. cbv zeta. destruct args; [done|]. by left.
  - by rewrite (segmentShellPayloads_assign _ _ Ha).
  - by rewrite (segment_simple _ _ Hs Hx Hn).
  - rewrite (segment_unfold _ _ Hs), Hx. unfold wrapperNext.
    assert (optionCommand (o :: v :: ws) sudoOptions = 2%nat) as E.
    { unfold sudoOptions in Ho. repeat (apply elem_of_cons in Ho as [->|Ho]); [..|by apply not_elem_of_nil in Ho];
        cbn; by rewrite (optionCommand_notOption _ _ Hn). }
    cbn -[optionCommand sudoOptions segmentShellPayloads]. rewrite E. exact IH.
  - rewrite (segment_unfold _ _ Hs), Hx. unfold wrapperNext.
    cbn -[optionCommand segmentShellPayloads]. rewrite !(optionCommand_plain _ _ _ Hd). exact IH.
  - rewrite (segment_unfold _ _ Hs), Hx. unfold envSplitText. rewrite (findIndex_none _ _ He).
    cbn -[afterEnv segmentShellPayloads]. unfold afterEnv.
    rewrite (optionCommand_notOption _ _ Hn). cbn [drop]. by rewrite segmentShellPayloads_skip.
Qed.

Lemma executed_finds wideChar input l :
  executedShellPayloads wideChar input = Ok l ->
  exists scan, scanShell wideChar input = Ok scan
    /\ (forall text, text ∈ nested scan -> text ∈ l)
    /\ (forall words script, words ∈ commands scan -> runsScript words script -> script ∈ l).
Proof.
  unfold executedShellPayloads. destruct (scanShell wideChar input) as [scan|] eqn:E; cbn; [|done].
  destruct (pipedShellPayloads wideChar input); cbn; [|done].
  destruct (hereStringShellPayloads wideChar input); cbn; [|done].
  destruct (simpleVariablePayloads wideChar input); cbn; [|done].
  intros [= <-]. exists scan. split; [done|]. split.
  - intros text Ht. apply elem_of_app. by left.
  - intros words script Hw Hs%wrapped_script_found. apply elem_of_app. right. apply elem_of_app. left.
    apply list_elem_of_In, in_concat. exists (segmentShellPayloads words).
    split; [|by apply list_elem_of_In]. apply in_map. by apply list_elem_of_In.
Qed.

(** The scanner reads a quoted script as one word. *)
Lemma scan_skip wideChar st s t : scanFrom wideChar st (String.length s) (s +:+ t) = scanFrom wideChar st 0 t.
Proof. induction s as [|c s IH]; [done|]. exact IH. Qed.

Lemma scan_quoted_script wideChar script :
  Str.includesChar sq script = false ->
  scanShell wideChar ("bash -c '" +:+ script +:+ "'") = Ok (mkScan [["bash"; "-c"; script]] []).
Proof.
  intros Hq. unfold scanShell.
  set (st := mkScanState InWord "" false ["bash"; "-c"] (mkScan [] [])).
  change (scanFrom wideChar _ 0 ("bash -c '" +:+ script +:+ "'"))
    with (obind (wordChar wideChar st sq (script +:+ String sq ""))
            (fun next => scanFrom wideChar next.1 next.2 (script +:+ String sq ""))).
  assert (wordChar wideChar st sq (script +:+ String sq "")
          = Ok (inWord st InWord script true None, S (String.length script))) as ->.
  { unfold wordChar. cbn -[Str.indexOf sq]. 
    rewrite (Str.indexOf_append sq script "" Hq). by rewrite Str.take_append. }
  cbn [obind fst snd].
  replace (S (String.length script)) with (String.length (script +:+ String sq "")).
  2:{ clear. induction script as [|c s IH]; cbn; [done|]. by rewrite IH. }
  rewrite <- (Str.append_nil_r (script +:+ String sq "")) at 2. by rewrite scan_skip.
Qed.
