(* ===== verification/CommandPolicy.v ===== *)
(** * The command policy

    [src/policy/command-policy.ts] and [src/util/safe-regex.ts]: the rules a
    shell command is checked against before it runs, how the organisation's floor
    and a scope's own rules compose, and the text the rules see.

    The engine behind [new RegExp] is a parameter: [newRegExp pattern flags]
    either throws or gives the function from a text to its first match. *)

From Stdlib Require Import ZArith Lia Ascii.
From S2P Require Import Prelude Collections Regex Shell.

(** ** Rules *)
Inductive CommandDecision := allow | deny | require_approval.
#[global] Instance CommandDecision_eq_dec : EqDecision CommandDecision.
Proof. solve_decision. Defined.

Module CommandRule.
Record t := mk { pattern : string; decision : CommandDecision; reason : option string }.
End CommandRule.

Inductive CommandPolicyMode := denylist | allowlist.
#[global] Instance CommandPolicyMode_eq_dec : EqDecision CommandPolicyMode.
Proof. solve_decision. Defined.

Module CommandPolicy.
Record t := mk { mode : CommandPolicyMode; rules : list CommandRule.t }.
End CommandPolicy.

Record CommandEvaluation := mkEvaluation {
  decision : CommandDecision; reason : option string; matched : option string; approvalKey : option string
}.

Definition ORG_FLOOR_RULES : list CommandRule.t :=
  [CommandRule.mk "\brm\b[^\n]*(?:-[a-zA-Z]*r|--recursive)" require_approval (Some "recursive delete");
   CommandRule.mk "\bgit\s+push\b.*(?:--force\b|(?:^|\s)-[a-zA-Z]*f\b)" require_approval (Some "force push");
   CommandRule.mk "\b(drop|truncate)\s+table\b" require_approval (Some "destructive SQL");
   CommandRule.mk "\bmkfs\b|:\(\)\s*\{" deny (Some "destructive / fork bomb");
   CommandRule.mk "\bcurl\b.*\|\s*(sh|bash)\b" require_approval (Some "pipe-to-shell")].

Definition defaultOrgPolicy : CommandPolicy.t := CommandPolicy.mk denylist ORG_FLOOR_RULES.

Definition composePolicy (orgFloor : CommandPolicy.t) (scope : option CommandPolicy.t) : CommandPolicy.t :=
  match scope with
  | None => orgFloor
  | Some scope =>
      CommandPolicy.mk
        (if CommandPolicy.mode orgFloor === allowlist then allowlist else CommandPolicy.mode scope)
        (CommandPolicy.rules orgFloor ++ CommandPolicy.rules scope)
  end.

(** ** [compileSafeRegex] *)
Definition MAX_PATTERN_CHARS : nat := 256.

(** [/\\[1-9]|\\k<|\(\?[=!<]/] *)
Definition unsupported : Re.t :=
  Re.alt [Re.seq [Re.lit bs; Re.Chr (Re.inRange "1" "9")];
          Re.seq [Re.lit bs; Re.lit "k"; Re.lit "<"];
          Re.seq [Re.lit "("; Re.lit "?"; Re.Chr (Re.oneOf "=!<")]].

Record group := mkGroup { quantified : bool; alternation : bool }.

Record patternState := mkPattern {
  groups : list group;  (** innermost first *)
  escaped : bool;
  inClass : bool;
  previousQuantifier : bool;
  closed : option group;
}.

Definition updateTop (f : group -> group) (gs : list group) : list group :=
  match gs with g :: gs' => f g :: gs' | [] => [] end.

Definition isQuantifier (prev : option ascii) (ch : ascii) : bool :=
  (ch === "*"%char) || (ch === "+"%char) || ((ch === "?"%char) && (prev !== Some "("%char)) || (ch === "{"%char).

(** One round of the loop; [None] is the thrown error. *)
Definition patternChar (st : patternState) (prev : option ascii) (ch : ascii) : option patternState :=
  if escaped st then Some (mkPattern (groups st) false (inClass st) false None)
  else if ch === bs then Some (mkPattern (groups st) true (inClass st) (previousQuantifier st) (closed st))
  else if ch === "["%char then Some (mkPattern (groups st) false true false None)
  else if (ch === "]"%char) && inClass st then
    Some (mkPattern (groups st) false false (previousQuantifier st) (closed st))
  else if inClass st then Some st
  else if ch === "("%char then Some (mkPattern (mkGroup false false :: groups st) false false false None)
  else if ch === "|"%char then
    Some (mkPattern (updateTop (fun g => mkGroup (quantified g) true) (groups st)) false false false None)
  else if ch === ")"%char then
    match groups st with
    | g :: gs => Some (mkPattern gs false false false (Some g))
    | [] => Some (mkPattern [] false false false (Some (mkGroup false false)))
    end
  else if isQuantifier prev ch then
    if previousQuantifier st
       || match closed st with Some g => quantified g || alternation g | None => false end
    then None
    else Some (mkPattern (updateTop (fun g => mkGroup true (alternation g)) (groups st)) false false true None)
  else Some (mkPattern (groups st) false false false None).

Fixpoint patternFrom (st : patternState) (prev : option ascii) (s : string) : bool :=
  match s with
  | EmptyString => true
  | String ch s' =>
      match patternChar st prev ch with
      | Some st' => patternFrom st' (Some ch) s'
      | None => false
      end
  end.

Section policy.
Variable newRegExp : string -> string -> outcome (string -> option string).
Variable wideChar : Z -> string.

Definition compileSafeRegex (pattern flags : string) : outcome (string -> option string) :=
  if negb (Str.truthy pattern) || (MAX_PATTERN_CHARS <? String.length pattern)%nat
  then Throw "pattern must be 1-256 characters"
  else if Re.test unsupported pattern then Throw "backreferences and lookarounds are not supported"
  else if negb (patternFrom (mkPattern [] false false false None) None pattern)
  then Throw "nested or ambiguous repetition is not supported"
  else newRegExp pattern flags.

(** ** [parseCommandPolicy] *)
Definition parseDecision (j : json) : option CommandDecision :=
  match j with
  | JStr s => if s === "allow" then Some allow else if s === "deny" then Some deny
              else if s === "require_approval" then Some require_approval else None
  | _ => None
  end.

Definition parseMode (j : json) : option CommandPolicyMode :=
  match j with
  | JStr s => if s === "denylist" then Some denylist else if s === "allowlist" then Some allowlist else None
  | _ => None
  end.

Definition quoted (s : string) : string := String dq (s +:+ String dq "").

Definition ruleError (i : Z) (rest : string) : string := "rules[" +:+ Str.showZ i +:+ "]" +:+ rest.

(** One element of [rules]: the rule or the error. *)
Definition parseRule (i : Z) (raw : json) : CommandRule.t + string :=
  match raw with
  | JObj _ | JArr _ =>
      match json_field "pattern" raw with
      | JStr p =>
          if negb (Str.truthy p) then inr (ruleError i ".pattern must be a non-empty string") else
          match compileSafeRegex p "i" with
          | Throw e => inr (ruleError i (".pattern is not a valid regex: " +:+ e))
          | Ok _ =>
              match parseDecision (json_field "decision" raw) with
              | None => inr (ruleError i (".decision must be " +:+ quoted "allow" +:+ ", " +:+ quoted "deny"
                                      +:+ ", or " +:+ quoted "require_approval"))
              | Some d =>
                  match json_field "reason" raw with
                  | JUndefined => inl (CommandRule.mk p d None)
                  | JStr r => inl (CommandRule.mk p d (Some r))
                  | _ => inr (ruleError i ".reason must be a string")
                  end
              end
          end
      | _ => inr (ruleError i ".pattern must be a non-empty string")
      end
  | _ => inr (ruleError i " must be an object")
  end.

Fixpoint parseRules (i : Z) (raws : list json) : list CommandRule.t + string :=
  match raws with
  | [] => inl []
  | raw :: raws' =>
      match parseRule i raw with
      | inr e => inr e
      | inl r => match parseRules (i + 1)%Z raws' with inl rs => inl (r :: rs) | inr e => inr e end
      end
  end.

Definition parseCommandPolicy (input : json) : CommandPolicy.t + string :=
  match input with
  | JObj _ =>
      match parseMode (json_field "mode" input) with
      | None => inr ("mode must be " +:+ quoted "denylist" +:+ " or " +:+ quoted "allowlist")
      | Some mode =>
          match json_field "rules" input with
          | JArr raws =>
              match parseRules 0 raws with
              | inl rules => inl (CommandPolicy.mk mode rules)
              | inr e => inr e
              end
          | _ => inr "rules must be an array"
          end
      end
  | _ => inr "command policy must be an object"
  end.

(** ** The text the rules see *)
Definition notLf : Re.t := Re.Chr (fun c => negb (c === nl)).
Definition space : Re.t := Re.Chr Str.js_space.
Definition notSpace : Re.t := Re.Chr (fun c => negb (Str.js_space c)).
Definition none_of (chars : string) : Re.t := Re.Chr (fun c => negb (Re.oneOf chars c)).

(** [(?:^|[|;&]\s* )(?:\S*\/)?(?:ba|da|k|z)?sh((?:\s+[^|;&]* )?)] *)
Definition shellWord : Re.t :=
  Re.seq [Re.Alt Re.Start (Re.Seq (Re.Chr (Re.oneOf "|;&")) (Re.Star true space));
          Re.opt (Re.Seq (Re.Star true notSpace) (Re.lit "/"));
          Re.opt (Re.alt [Re.word "ba"; Re.word "da"; Re.word "k"; Re.word "z"]);
          Re.word "sh";
          Re.Group 1 (Re.opt (Re.Seq (Re.plus space) (Re.Star true (none_of "|;&"))))].

(** [(?:^|\s)-[^-\s]*c(?:\s|$)] *)
Definition dashC : Re.t :=
  Re.seq [Re.Alt Re.Start space; Re.lit "-";
          Re.Star true (Re.Chr (fun c => negb (c === "-"%char) && negb (Str.js_space c)));
          Re.lit "c"; Re.Alt space Re.End_].

Definition heredocRunsShell (commandLine : string) : bool :=
  existsb (fun m => negb (Re.test dashC (Re.cap 1 m.2))) (Re.matchAll shellWord commandLine).

Definition heredoc : Re.t :=
  Re.seq [Re.Bol; Re.Group 1 (Re.Star true notLf); Re.lit "<"; Re.lit "<"; Re.opt (Re.lit "-");
          Re.Star true space;
          Re.Group 2 (Re.opt (Re.Chr (fun c => (c === dq) || (c === sq))));
          Re.Group 3 (Re.Seq (Re.Chr Re.isIdentStart) (Re.Star true (Re.Chr Re.isWord)));
          Re.Backref 2; Re.Group 4 (Re.Star true notLf); Re.lit nl;
          Re.Group 5 (Re.Star false Re.any);
          Re.Bol; Re.Star true space; Re.Backref 3; Re.Star true space; Re.Eol].

Definition stripHeredoc (full : string) (caps : list (nat * string)) : string :=
  let line := Re.cap 1 caps +:+ Re.cap 4 caps in
  if Str.includesChar ">" line && negb (heredocRunsShell line) then "" else full.

Definition stripWrittenHeredocs (command : string) : outcome string :=
  Re.replaceAll heredoc (fun full caps => Ok (stripHeredoc full caps)) command.

Definition isBare (c : ascii) : bool := Re.isWord c || Re.oneOf "@%+=:,./-" c.

Definition unquoteBareWord (inner : string) : option string :=
  if forallb isBare (String.list_ascii_of_string inner) then Some inner else None.

(** [m.slice(1, -1)] *)
Definition inside (m : string) : string := Str.take (String.length m - 2) (Str.drop 1 m).

Definition quotedBy (q : ascii) : Re.t :=
  Re.Star true (Re.Alt (Re.Chr (fun c => negb (c === q) && negb (c === bs)))
                       (Re.Seq (Re.lit bs) Re.notNewline)).

Definition reDouble : Re.t := Re.seq [Re.lit dq; quotedBy dq; Re.lit dq].
Definition reAnsi : Re.t := Re.seq [Re.lit "$"; Re.lit sq; Re.Group 1 (quotedBy sq); Re.lit sq].
Definition reSingle : Re.t :=
  Re.seq [Re.lit sq; Re.Star true (Re.Chr (fun c => negb (c === sq))); Re.lit sq].
Definition reEscaped : Re.t := Re.seq [Re.lit bs; Re.Group 1 (Re.Chr isBare)].
Definition reSubstitution : Re.t :=
  Re.Alt (Re.seq [Re.lit "$"; Re.lit "("; Re.Star true (Re.Chr (fun c => negb (c === ")"%char))); Re.lit ")"])
         (Re.seq [Re.lit bt; Re.Star true (Re.Chr (fun c => negb (c === bt))); Re.lit bt]).

Definition emptyQuotes (q : ascii) : string := String q (String q "").

Definition unquoteDouble (m : string) : string :=
  match Re.matchAll reSubstitution m with
  | [] => default (emptyQuotes dq) (unquoteBareWord (inside m))
  | subs => Str.join " " (map fst subs)
  end.

Definition baseText (stripped : string) : outcome string :=
  let! t := Re.replaceAll reDouble (fun m _ => Ok (unquoteDouble m)) stripped in
  let! t := Re.replaceAll reAnsi (fun _ caps =>
              let! d := decodeAnsiC wideChar (Re.cap 1 caps) in
              Ok (default (emptyQuotes sq) (unquoteBareWord d))) t in
  let! t := Re.replaceAll reSingle (fun m _ => Ok (default (emptyQuotes sq) (unquoteBareWord (inside m)))) t in
  Re.replaceAll reEscaped (fun _ caps => Ok (Re.cap 1 caps)) t.

(** [scannableCommandAtDepth(command, 8 - levels)] *)
Fixpoint scannableAt (levels : nat) (command : string) : outcome string :=
  let! stripped := stripWrittenHeredocs command in
  let! base := baseText stripped in
  match levels with
  | O => Ok base
  | S levels' =>
      let! executed := executedShellPayloads wideChar stripped in
      match executed with
      | [] => Ok base
      | _ => let! subs := omapM (scannableAt levels') executed in
             Ok (Str.join (String nl "") (base :: subs))
      end
  end.

Definition scannableCommand (command : string) : outcome string := scannableAt 8 command.

(** ** Evaluation *)
Definition keepTruthyReason (r : option string) : option string :=
  match r with Some s => if Str.truthy s then Some s else None | None => None end.

Fixpoint firstMatch (scannable : string) (rules : list CommandRule.t) : option CommandEvaluation :=
  match rules with
  | [] => None
  | rule :: rules' =>
      match compileSafeRegex (CommandRule.pattern rule) "i" with
      | Throw _ => firstMatch scannable rules'
      | Ok re =>
          match re scannable with
          | Some hit => Some (mkEvaluation (CommandRule.decision rule) (keepTruthyReason (CommandRule.reason rule))
                                (Some hit) (Some (CommandRule.pattern rule)))
          | None => firstMatch scannable rules'
          end
      end
  end.

Definition notInAllowlist : CommandEvaluation := mkEvaluation deny (Some "not in allowlist") None None.
Definition allowed : CommandEvaluation := mkEvaluation allow None None None.

Definition evaluateCommand (command : string) (policy : CommandPolicy.t) : outcome CommandEvaluation :=
  let! scannable := scannableCommand command in
  match firstMatch scannable (CommandPolicy.rules policy) with
  | Some m => Ok m
  | None => if CommandPolicy.mode policy === allowlist then Ok notInAllowlist else Ok allowed
  end.

Definition evaluateCommandWithLayer (command : string) (policy : CommandPolicy.t)
    (layerRules : list CommandRule.t) : outcome CommandEvaluation :=
  let! scannable := scannableCommand command in
  match firstMatch scannable (CommandPolicy.rules policy) with
  | Some m => Ok m
  | None =>
      if CommandPolicy.mode policy === allowlist then Ok notInAllowlist else
      match firstMatch scannable layerRules with
      | Some m => Ok m
      | None => Ok allowed
      end
  end.
End policy.

Example scannable_wrapped :
  scannableCommand (fun _ => "") "sudo bash -c 'rm -rf x' && echo 'a b'"
  = Ok ("sudo bash -c '' && echo ''" +:+ String nl "rm -rf x").
Proof. vm_compute. reflexivity. Qed.

Example scannable_heredoc :
  scannableCommand (fun _ => "") ("cat <<EOF > f" +:+ String nl ("rm -rf x" +:+ String nl ("EOF" +:+ String nl "ls")))
  = Ok (String nl "ls").
Proof. vm_compute. reflexivity. Qed.

(** ** Properties of the evaluation *)
Section properties.
Variable newRegExp : string -> string -> outcome (string -> option string).
Variable wideChar : Z -> string.
Implicit Types (rules : list CommandRule.t) (p : CommandPolicy.t).


Lemma firstMatch_app t rules rules' :
  firstMatch newRegExp t (rules ++ rules')
  = match firstMatch newRegExp t rules with Some e => Some e | None => firstMatch newRegExp t rules' end.
Proof.
  induction rules as [|r rules IH]; cbn; [done|].
  destruct (compileSafeRegex _ _ _) as [re|]; [|done]. by destruct (re t).
Qed.

Lemma firstMatch_elem t rules e :
  firstMatch newRegExp t rules = Some e ->
  is_Some (matched e) /\ exists r, r ∈ rules /\ decision e = CommandRule.decision r
                                 /\ approvalKey e = Some (CommandRule.pattern r).
Proof.
  induction rules as [|r rules IH]; cbn; [done|].
  destruct (compileSafeRegex _ _ _) as [re|].
  - destruct (re t).
    + intros [= <-]. cbn. split; [eauto|]. exists r. split; [by left|done].
    + intros H%IH. destruct H as (? & r' & ? & ?). split; [done|]. exists r'. split; [by right|done].
  - intros H%IH. destruct H as (? & r' & ? & ?). split; [done|]. exists r'. split; [by right|done].
Qed.

Lemma obind_Ok {A B} (m : outcome A) (f : A -> outcome B) b :
  obind m f = Ok b -> exists a, m = Ok a /\ f a = Ok b.
Proof. destruct m as [a|]; cbn; [eauto|done]. Qed.

(** C4: a scope cannot get round the organisation's rules.  A command the floor
    has a rule for is decided by that rule whatever the scope adds; an allow list
    stays one; and a command the floor has no rule for is decided by a rule of
    the scope or, failing that, exactly as strictly as the stricter of the two
    modes says. *)
Theorem org_floor_binds (command : string) (floor scope : CommandPolicy.t) (e : CommandEvaluation) :
  evaluateCommand newRegExp wideChar command floor = Ok e ->
  let composed := composePolicy floor (Some scope) in
  (CommandPolicy.mode floor = allowlist -> CommandPolicy.mode composed = allowlist)
  /\ (is_Some (matched e) -> evaluateCommand newRegExp wideChar command composed = Ok e)
  /\ (matched e = None -> exists e', evaluateCommand newRegExp wideChar command composed = Ok e'
        /\ ((exists r, r ∈ CommandPolicy.rules scope /\ decision e' = CommandRule.decision r
                       /\ approvalKey e' = Some (CommandRule.pattern r))
            \/ e' = if bool_decide (CommandPolicy.mode floor = allowlist \/ CommandPolicy.mode scope = allowlist)
                    then notInAllowlist else allowed)).
Proof.
  intros (t & Ht & He)%obind_Ok. split; [|split].
  - cbn. by intros ->.
  - intros [m Hm]. unfold evaluateCommand. rewrite Ht. cbn.
    rewrite firstMatch_app. destruct (firstMatch newRegExp t (CommandPolicy.rules floor)); [done|].
    destruct (_ === _) in He; by simplify_eq.
  - intros Hm. unfold evaluateCommand. rewrite Ht. cbn.
    rewrite firstMatch_app. destruct (firstMatch newRegExp t (CommandPolicy.rules floor)) as [x|] eqn:E.
    { apply firstMatch_elem in E as [[m Hx] _]. congruence. }
    destruct (firstMatch newRegExp t (CommandPolicy.rules scope)) as [x|] eqn:E'.
    { exists x. split; [done|]. left. by apply firstMatch_elem in E' as [_ ?]. }
    destruct (CommandPolicy.mode floor), (CommandPolicy.mode scope); cbn; eexists; (split; [reflexivity|]); right;
      repeat case_bool_decide; naive_solver.
Qed.

Definition strictness (d : CommandDecision) : Z :=
  match d with allow => 0 | require_approval => 1 | deny => 2 end.

(** Rules contributed by a deployment layer that only deny or ask for
    approval never loosen the administrator's policy: with them every command is
    decided at least as strictly, and a command some rule or the allow list of
    the policy decides is decided the same way. *)
Theorem layer_never_loosens (command : string) (policy : CommandPolicy.t) (layer : list CommandRule.t)
    (e : CommandEvaluation) :
  (forall r, r ∈ layer -> CommandRule.decision r <> allow) ->
  evaluateCommand newRegExp wideChar command policy = Ok e ->
  exists e', evaluateCommandWithLayer newRegExp wideChar command policy layer = Ok e'
    /\ (strictness (decision e) <= strictness (decision e'))%Z
    /\ (is_Some (matched e) \/ CommandPolicy.mode policy = allowlist -> e' = e).
Proof.
  intros Hl (t & Ht & He)%obind_Ok. unfold evaluateCommandWithLayer.
  rewrite Ht. cbn. destruct (firstMatch newRegExp t (CommandPolicy.rules policy)) as [x|] eqn:E.
  { simplify_eq. by exists e. }
  case_bool_decide as Hm; simplify_eq; [by eexists|].
  destruct (firstMatch newRegExp t layer) as [x|] eqn:E'.
  - exists x. apply firstMatch_elem in E' as [_ (r & Hr & Hd & _)]. split; [done|]. split.
    + rewrite Hd. specialize (Hl r Hr). destruct (CommandRule.decision r); cbn; [done|lia..].
    + intros [[? ?]|?]; done.
  - exists allowed. split; [done|]. split; [cbn; lia|]. done.
Qed.

(** ** Parsing *)
Definition decisionJson (d : CommandDecision) : json :=
  JStr (match d with allow => "allow" | deny => "deny" | require_approval => "require_approval" end).

Definition ruleJson (r : CommandRule.t) : json :=
  JObj ([("pattern", JStr (CommandRule.pattern r)); ("decision", decisionJson (CommandRule.decision r))]
        ++ match CommandRule.reason r with Some s => [("reason", JStr s)] | None => [] end).

Definition policyJson (p : CommandPolicy.t) : json :=
  JObj [("mode", JStr (match CommandPolicy.mode p with denylist => "denylist" | allowlist => "allowlist" end));
        ("rules", JArr (map ruleJson (CommandPolicy.rules p)))].

(** A pattern the store accepts. *)
Definition compiles (pattern : string) : Prop :=
  match compileSafeRegex newRegExp pattern "i" with Ok _ => True | Throw _ => False end.

Lemma compiles_nonempty pattern : compiles pattern -> pattern <> "".
Proof. intros H ->. exact H. Qed.

Lemma parseRule_json i r : compiles (CommandRule.pattern r) -> parseRule newRegExp i (ruleJson r) = inl r.
Proof.
  intros Hc. pose proof (compiles_nonempty _ Hc) as Hne. unfold compiles in Hc.
  destruct r as [p d o]. cbn [CommandRule.pattern] in *. unfold parseRule, ruleJson.
  cbn [CommandRule.pattern CommandRule.decision CommandRule.reason app].
  change (json_field "pattern" _) with (JStr p).
  change (json_field "decision" _) with (decisionJson d).
  cbv beta iota. apply Str.truthy_iff in Hne as ->. cbn [negb].
  destruct (compileSafeRegex newRegExp p "i"); [|done].
  destruct d, o; reflexivity.
Qed.

Lemma parseRule_sound i raw r : parseRule newRegExp i raw = inl r -> compiles (CommandRule.pattern r).
Proof.
  unfold parseRule, compiles. destruct raw; try done;
    (destruct (json_field "pattern" _) as [| | | |p| |]; try done;
     destruct (Str.truthy p); cbn [negb]; [|done];
     destruct (compileSafeRegex newRegExp p "i") eqn:E; [|done];
     destruct (parseDecision _); [|done];
     destruct (json_field "reason" _); intros; simplify_eq; cbn; by rewrite E).
Qed.

Lemma parseRules_json rules i :
  Forall (fun r => compiles (CommandRule.pattern r)) rules ->
  parseRules newRegExp i (map ruleJson rules) = inl rules.
Proof.
  intros H. revert i. induction H as [|r rules Hr _ IH]; intros i; [done|].
  cbn [map parseRules]. by rewrite (parseRule_json i r Hr), IH.
Qed.

Lemma parseRules_sound raws i rules :
  parseRules newRegExp i raws = inl rules -> Forall (fun r => compiles (CommandRule.pattern r)) rules.
Proof.
  revert i rules. induction raws as [|raw raws IH]; intros i rules; cbn [parseRules].
  - intros [= <-]. constructor.
  - destruct (parseRule newRegExp i raw) as [r|] eqn:E; [|done].
    destruct (parseRules newRegExp (i + 1) raws) as [rs|] eqn:E'; [|done].
    intros [= <-]. constructor; [by eapply parseRule_sound|by eapply IH].
Qed.

(** The policies that can be stored are exactly those whose every pattern
    compiles: such a policy is read back from its JSON unchanged, and whatever
    JSON is accepted gives one, so no rule of an accepted policy is ever skipped
    as invalid. *)
Theorem policy_parse_exact (p : CommandPolicy.t) (j : json) :
  (Forall (fun r => compiles (CommandRule.pattern r)) (CommandPolicy.rules p) ->
     parseCommandPolicy newRegExp (policyJson p) = inl p)
  /\ (parseCommandPolicy newRegExp j = inl p ->
       Forall (fun r => compiles (CommandRule.pattern r)) (CommandPolicy.rules p)).
Proof.
  split.
  - intros H. unfold parseCommandPolicy, policyJson.
    change (json_field "rules" _) with (JArr (map ruleJson (CommandPolicy.rules p))).
    cbv beta iota. rewrite (parseRules_json _ 0 H). destruct p as [[] rules]; reflexivity.
  - unfold parseCommandPolicy. destruct j; try done. destruct (parseMode _); [|done].
    destruct (json_field "rules" _); try done.
    destruct (parseRules newRegExp 0 l) as [rs|] eqn:E; [|done]. intros [= <-].
    by eapply parseRules_sound.
Qed.

(** ** What the rules get to see *)
Lemma join_includes sep l x : x ∈ l -> Str.includes (Str.join sep l) x = true.
Proof.
  induction l as [|y l IH]; [by intros ?%not_elem_of_nil|].
  intros [->|Hx]%elem_of_cons; destruct l as [|z l]; cbn [Str.join]; auto with brain.
  by apply not_elem_of_nil in Hx.
Qed.

Lemma omapM_elem {A B} (f : A -> outcome B) l ys x :
  omapM f l = Ok ys -> x ∈ l -> exists y, f x = Ok y /\ y ∈ ys.
Proof.
  revert ys. induction l as [|z l IH]; intros ys; [by intros _ ?%not_elem_of_nil|]. cbn.
  intros (y & Hy & (ys' & Hys & [= <-])%obind_Ok)%obind_Ok [->|Hx]%elem_of_cons.
  - exists y. split; [done|by left].
  - destruct (IH _ Hys Hx) as (y' & ? & ?). exists y'. split; [done|by right].
Qed.

Lemma scannable_payload n command stripped l t (p : string) :
  stripWrittenHeredocs command = Ok stripped -> executedShellPayloads wideChar stripped = Ok l -> p ∈ l ->
  scannableAt wideChar (S n) command = Ok t ->
  exists t', scannableAt wideChar n p = Ok t' /\ Str.includes t t' = true.
Proof.
  intros Hs Hl Hp. cbn [scannableAt]. rewrite Hs. cbn [obind]. destruct (baseText wideChar stripped) as [base|]; [|done].
  cbn [obind]. rewrite Hl. cbn [obind]. destruct l as [|x l]; [by apply not_elem_of_nil in Hp|].
  intros (subs & Hsubs & [= <-])%obind_Ok. destruct (omapM_elem _ _ _ _ Hsubs Hp) as (t' & Ht' & Hin).
  exists t'. split; [done|]. apply (join_includes (String nl "") (base :: subs)). by right.
Qed.

(** C29: the rules see through wrapping.  When a command is read (here documents
    that are only written to files aside), every text it would substitute, and
    every script it would hand to a shell, behind any nesting of assignments,
    [env], [sudo], [timeout], [exec], [nohup], [nice], [time], [command],
    [coproc] and [xargs], or through [eval], is read in turn, and what it reads
    as is part of the text the rules are matched against. *)
Theorem executed_text_is_scanned (levels : nat) (command t : string) :
  scannableAt wideChar (S levels) command = Ok t ->
  exists stripped scan, stripWrittenHeredocs command = Ok stripped
    /\ scanShell wideChar stripped = Ok scan
    /\ forall script,
         (script ∈ nested scan \/ exists words, words ∈ commands scan /\ runsScript words script) ->
         exists t', scannableAt wideChar levels script = Ok t' /\ Str.includes t t' = true.
Proof.
  intros Ht. pose proof Ht as Ht'. cbn [scannableAt] in Ht'.
  apply obind_Ok in Ht' as (stripped & Hs & (base & _ & (l & Hl & _)%obind_Ok)%obind_Ok).
  destruct (executed_finds _ _ _ Hl) as (scan & Hscan & Hn & Hc).
  exists stripped, scan. split; [done|]. split; [done|]. intros script Hin.
  eapply scannable_payload; [done|done| |done].
  destruct Hin as [?|(words & ? & ?)]; eauto.
Qed.

(** A script with a [-S] among its own arguments is not found behind [env], and
    no script is found behind [stdbuf]: both commands run [rm], and the text the
    rules are matched against does not show it. *)
Theorem script_hidden_behind_env_or_stdbuf :
  scannableCommand wideChar "env bash -c 'rm -rf x' -S" = Ok "env bash -c '' -S"
  /\ scannableCommand wideChar "stdbuf -oL bash -c 'rm -rf x'" = Ok "stdbuf -oL bash -c ''"
  /\ scannableCommand wideChar "nice bash -c 'rm -rf x'" = Ok ("nice bash -c ''" +:+ String nl "rm -rf x").
Proof. by vm_compute. Qed.
End properties.

(** *** Witnesses: an engine that looks for the pattern as a literal text *)
Section witnesses.
Let literalEngine (pattern flags : string) : outcome (string -> option string) :=
  Ok (fun text => if Str.includes text pattern then Some pattern else None).
Let noWide (_ : Z) : string := "".
Let floor := CommandPolicy.mk denylist [CommandRule.mk "rm -rf" require_approval None].
Let scope := CommandPolicy.mk denylist [CommandRule.mk "rm" allow None].
Let hit := mkEvaluation require_approval None (Some "rm -rf") (Some "rm -rf").

Lemma org_floor_binds_witness :
  evaluateCommand literalEngine noWide "bash -c 'rm -rf x'" (composePolicy floor (Some scope)) = Ok hit.
Proof.
  refine (proj1 (proj2 (org_floor_binds literalEngine noWide "bash -c 'rm -rf x'" floor scope hit _)) _).
  - vm_compute. reflexivity.
  - eexists. reflexivity.
Defined.

Lemma layer_never_loosens_witness :
  exists e', evaluateCommandWithLayer literalEngine noWide "rm -rf x" floor [CommandRule.mk "x" deny None] = Ok e'
    /\ e' = hit.
Proof.
  destruct (layer_never_loosens literalEngine noWide "rm -rf x" floor [CommandRule.mk "x" deny None] hit)
    as (e' & He & _ & Hsame).
  - intros r ->%list_elem_of_singleton. discriminate.
  - vm_compute. reflexivity.
  - exists e'. split; [exact He|]. apply Hsame. left. eexists. reflexivity.
Defined.

Lemma policy_parse_exact_witness : parseCommandPolicy literalEngine (policyJson floor) = inl floor.
Proof.
  refine (proj1 (policy_parse_exact literalEngine floor JNull) _).
  constructor; [exact I|constructor].
Defined.

Lemma executed_text_is_scanned_witness :
  exists t', scannableAt noWide 7 "rm -rf x" = Ok t'
    /\ Str.includes ("sudo bash -c ''" +:+ String nl "rm -rf x") t' = true.
Proof.
  destruct (executed_text_is_scanned noWide 7 "sudo bash -c 'rm -rf x'" ("sudo bash -c ''" +:+ String nl "rm -rf x"))
    as (stripped & scan & Hs & Hc & H); [vm_compute; reflexivity|].
  apply H. right. exists ["sudo"; "bash"; "-c"; "rm -rf x"].
  assert (stripped = "sudo bash -c 'rm -rf x'") as -> by (vm_compute in Hs; congruence).
  vm_compute in Hc. injection Hc as <-. split; [left|].
  apply rs_wrap; [reflexivity|do 2 right; left|reflexivity|].
  apply (rs_shell "bash" [] "-c" "rm -rf x" []); [reflexivity|left|constructor|reflexivity].
Defined.
End witnesses.
