(* ===== verification/Totality.v ===== *)
(** * Reading a command always ends

    The readers of [Shell] call themselves on the words of wrapped commands, and
    behind [env -S] on words that are scanned anew, so they carry fuel.  This file
    shows that the fuel is enough: the words that come out of a rescan weigh less
    than the words that went in.  What is left of the error paths of
    [src/policy/command-policy.ts] is the [RangeError] of [String.fromCodePoint],
    so that every command gets a decision or that error. *)

From Stdlib Require Import ZArith Lia Ascii.
From S2P Require Import Prelude Collections Regex Shell CommandPolicy.

(** ** How long a match is at least *)
Fixpoint minLen (r : Re.t) : nat :=
  match r with
  | Re.Chr _ => 1
  | Re.Seq a b => minLen a + minLen b
  | Re.Alt a b => Nat.min (minLen a) (minLen b)
  | Re.Group _ r => minLen r
  | _ => 0
  end.

Definition onwards (s s' : Re.state) (n : nat) : Prop :=
  (Re.pos s + n <= Re.pos s')%nat
  /\ (Re.pos s' + String.length (Re.rest s') = Re.pos s + String.length (Re.rest s))%nat.

Lemma onwards_refl s : onwards s s 0.
Proof. split; lia. Qed.

Lemma onwards_trans s1 s2 s3 n m k : onwards s1 s2 n -> onwards s2 s3 m -> (k <= n + m)%nat -> onwards s1 s3 k.
Proof. unfold onwards. lia. Qed.

Lemma literal_onwards l s text s' :
  Re.literal l s text = Some s' -> text = Re.rest s -> onwards s s' 0.
Proof.
  revert s text. induction l as [|c l IH]; intros s text H ->.
  - injection H as <-. split; cbn; lia.
  - cbn in H. destruct (Re.rest s) as [|d text] eqn:E; [done|]. case_bool_decide; [|done].
    specialize (IH _ _ H eq_refl). destruct IH as [H1 H2]. cbn in H1, H2. split; [lia|]. rewrite E. cbn. lia.
Qed.

(** The loop of a repetition, whatever its bound. *)
Definition starLoop (greedy : bool) (r : Re.t) (k : Re.state -> option Re.state) : nat -> Re.state -> option Re.state :=
  fix loop n s :=
    match n with
    | O => k s
    | S n' =>
        let again (_ : unit) :=
          Re.exec r s (fun s' => if bool_decide (Re.pos s' = Re.pos s) then None else loop n' s') in
        if greedy then Re.orElse (again tt) (fun _ => k s) else Re.orElse (k s) again
    end.

Lemma starLoop_onwards greedy r k s' :
  (forall s k s', Re.exec r s k = Some s' -> exists s1, k s1 = Some s' /\ onwards s s1 (minLen r)) ->
  forall n s, starLoop greedy r k n s = Some s' -> exists s1, k s1 = Some s' /\ onwards s s1 0.
Proof.
  intros IH. induction n as [|n IHn]; intros s H; [exists s; split; [done|apply onwards_refl]|].
  cbn in H. unfold Re.orElse in H.
  assert (k s = Some s' -> exists s1, k s1 = Some s' /\ onwards s s1 0) as Hstop
    by (intros Hk; exists s; split; [done|apply onwards_refl]).
  assert (Re.exec r s (fun s' => if bool_decide (Re.pos s' = Re.pos s) then None else starLoop greedy r k n s') = Some s'
    -> exists s1, k s1 = Some s' /\ onwards s s1 0) as Hagain.
  { intros (s1 & Hq & H1)%IH. case_bool_decide; [done|]. apply IHn in Hq as (s2 & Hq & H2).
    exists s2. split; [done|]. eapply onwards_trans; [done..|lia]. }
  fold (starLoop greedy r k) in H. destruct greedy.
  - destruct (Re.exec r s _) eqn:E; [by apply Hagain|by apply Hstop].
  - destruct (k s) eqn:E; [by apply Hstop|by apply Hagain].
Qed.

(** Whatever the matcher answers comes from the continuation, called further on. *)
Lemma exec_onwards r : forall s k s',
  Re.exec r s k = Some s' -> exists s1, k s1 = Some s' /\ onwards s s1 (minLen r).
Proof.
  induction r as [|p|a IHa b IHb|a IHa b IHb|greedy r IH|n r IH|n| | | |]; intros s k s' H; cbn [Re.exec] in H.
  - exists s. split; [done|apply onwards_refl].
  - destruct (Re.rest s) as [|c rest] eqn:E; [done|]. destruct (p c); [|done].
    exists (Re.advance c rest s). split; [done|]. split; cbn; [lia|]. rewrite E. cbn. lia.
  - apply IHa in H as (s1 & H & H1). apply IHb in H as (s2 & H & H2). exists s2. split; [done|].
    eapply onwards_trans; [done..|cbn; lia].
  - unfold Re.orElse in H. destruct (Re.exec a s k) eqn:Ea.
    + injection H as ->. apply IHa in Ea as (s1 & ? & ?). exists s1. split; [done|].
      eapply (onwards_trans s s1 s1); [done|apply onwards_refl|cbn; lia].
    + apply IHb in H as (s1 & ? & ?). exists s1. split; [done|].
      eapply (onwards_trans s s1 s1); [done|apply onwards_refl|cbn; lia].
  - exact (starLoop_onwards greedy r k s' IH (S (String.length (Re.rest s))) s H).
  - apply IH in H as (s1 & H & H1). eexists. split; [done|]. destruct H1. split; cbn; lia.
  - destruct (Re.literal _ _ _) eqn:E; [|done]. apply literal_onwards in E; [|done]. eauto.
  - destruct (Re.atBol s); [|done]. exists s. split; [done|apply onwards_refl].
  - destruct (Re.atEol s); [|done]. exists s. split; [done|apply onwards_refl].
  - destruct (Re.prev s); [done|]. exists s. split; [done|apply onwards_refl].
  - destruct (Re.rest s) eqn:E; [|done]. exists s. split; [done|apply onwards_refl].
Qed.

Lemma matchAt_length r before text m l :
  Re.matchAt r before text = Some (m, l) -> (minLen r <= String.length m <= String.length text)%nat.
Proof.
  unfold Re.matchAt. destruct (Re.exec _ _ _) as [s|] eqn:E; [|done]. intros [= <- _].
  apply exec_onwards in E as (s1 & [= <-] & H1 & H2). cbn in H1, H2. rewrite Str.take_length. lia.
Qed.

(** A replacement that never makes a match longer never makes the text longer. *)
Definition shrinking (r : Re.t) (f : string -> list (nat * string) -> outcome string) : Prop :=
  forall before text m l sub, Re.matchAt r before text = Some (m, l) -> f m l = Ok sub ->
    (String.length sub <= String.length m)%nat.

Lemma replaceFrom_length r f before skip text out :
  shrinking r f -> Re.replaceFrom r f before skip text = Ok out ->
  (String.length out <= String.length text - skip)%nat.
Proof.
  intros Hf. revert before skip out. induction text as [|c text IH]; intros before skip out H; cbn [Re.replaceFrom] in H.
  - destruct (Re.matchAt r before "") as [[m l]|] eqn:Em; [|injection H as <-; cbn; lia].
    pose proof (Hf _ _ _ _ _ Em H). apply matchAt_length in Em. cbn in *. lia.
  - destruct skip as [|skip]; [|apply IH in H; cbn; lia].
    destruct (Re.matchAt r before (String c text)) as [[m l]|] eqn:Em.
    + destruct (f m l) as [sub|] eqn:Ef; [|done]. pose proof (Hf _ _ _ _ _ Em Ef).
      apply matchAt_length in Em. cbn [obind] in H.
      destruct (String.length m) as [|n] eqn:El;
        (destruct (Re.replaceFrom r f (Some c) _ text) as [rest|] eqn:Er; [|done]);
        injection H as <-; apply IH in Er; rewrite Str.append_length; cbn in *; lia.
    + destruct (Re.replaceFrom r f (Some c) 0 text) as [rest|] eqn:Er; [|done].
      injection H as <-. apply IH in Er. cbn. lia.
Qed.

(** ** Which errors there can be *)
Definition badCodePoint : string := "Invalid code point".

Definition tame {A : Type} (m : outcome A) : Prop :=
  match m with Ok _ => True | Throw e => e = badCodePoint end.

Lemma tame_bind {A B : Type} (m : outcome A) (f : A -> outcome B) :
  tame m -> (forall a, m = Ok a -> tame (f a)) -> tame (obind m f).
Proof. destruct m as [a|e]; cbn; [|done]. intros _ H. by apply H. Qed.

Lemma tame_omapM {A B : Type} (f : A -> outcome B) (l : list A) :
  (forall x, tame (f x)) -> tame (omapM f l).
Proof.
  intros Hf. induction l as [|x l IH]; [done|]. cbn. apply tame_bind; [done|]. intros y _.
  by apply tame_bind.
Qed.

Lemma tame_replaceFrom r f before skip text :
  (forall m l, tame (f m l)) -> tame (Re.replaceFrom r f before skip text).
Proof.
  intros Hf. revert before skip. induction text as [|c text IH]; intros before skip; cbn [Re.replaceFrom].
  - destruct (Re.matchAt r before "") as [[m l]|]; [apply Hf|done].
  - destruct skip as [|skip]; [|apply IH].
    destruct (Re.matchAt r before (String c text)) as [[m l]|].
    + apply tame_bind; [apply Hf|]. intros sub _.
      destruct (String.length m); (apply tame_bind; [apply IH|done]).
    + apply tame_bind; [apply IH|done].
Qed.

Section total.
Variable wideChar : Z -> string.

Lemma tame_codePoint base m l : tame (codePoint wideChar base m l).
Proof. unfold codePoint, fromCodePoint. by destruct (_ <? _)%Z. Qed.

Lemma tame_decodeAnsiC value : tame (decodeAnsiC wideChar value).
Proof.
  unfold decodeAnsiC, Re.replaceAll.
  repeat (apply tame_bind; [by auto using tame_replaceFrom, tame_codePoint|intros ? _]).
  by apply tame_replaceFrom.
Qed.

(** A code point is one or two code units of a JavaScript string. *)
Hypothesis wideChar_short : forall n, (String.length (wideChar n) <= 2)%nat.

Lemma shrinking_codePoint r base : (2 <= minLen r)%nat -> shrinking r (codePoint wideChar base).
Proof.
  intros Hr before text m l sub Hm%matchAt_length Hf. unfold codePoint, fromCodePoint in Hf.
  destruct (1114111 <? _)%Z; [done|]. injection Hf as <-. destruct (_ <? 256)%Z; cbn; [lia|].
  etrans; [apply wideChar_short|lia].
Qed.

Lemma shrinking_escape : shrinking reEsc (fun _ caps => Ok (escapeChar (Re.cap 1 caps))).
Proof.
  intros before text m l sub Hm [= <-]. unfold Re.matchAt, reEsc in Hm.
  cbn -[Re.oneOf escapes bs] in Hm.
  destruct text as [|c [|d text]]; cbn -[Re.oneOf escapes bs] in Hm; [done|by destruct (c === bs)|].
  destruct (c === bs); [|done]. destruct (Re.oneOf escapes d); [|done].
  injection Hm as <- <-. unfold Re.cap, escapeChar. cbn -[escapeTable JMap.get].
  destruct (JMap.get escapeTable _); cbn; [lia|]. rewrite bool_decide_eq_true_2 by done. cbn. lia.
Qed.

Lemma decodeAnsiC_length value out :
  decodeAnsiC wideChar value = Ok out -> (String.length out <= String.length value)%nat.
Proof.
  unfold decodeAnsiC, Re.replaceAll.
  destruct (Re.replaceFrom reX _ None 0 value) as [v1|] eqn:E1; [|done]. cbn [obind].
  destruct (Re.replaceFrom reU4 _ None 0 v1) as [v2|] eqn:E2; [|done]. cbn [obind].
  destruct (Re.replaceFrom reU8 _ None 0 v2) as [v3|] eqn:E3; [|done]. cbn [obind].
  destruct (Re.replaceFrom reOct _ None 0 v3) as [v4|] eqn:E4; [|done]. cbn [obind]. intros E5.
  apply replaceFrom_length in E1, E2, E3, E4, E5;
    [lia|apply shrinking_escape|apply shrinking_codePoint; cbn; lia..].
Qed.

(** ** The weight of the words of a command *)
Fixpoint weight (ws : list string) : nat :=
  match ws with [] => 0 | w :: ws' => S (String.length w) + weight ws' end.

Lemma callDepth_weight ws : callDepth ws = S (weight ws).
Proof. done. Qed.

Lemma weight_app l k : weight (l ++ k) = (weight l + weight k)%nat.
Proof. induction l as [|w l IH]; cbn; [done|]. rewrite IH. lia. Qed.

Lemma weight_drop n l : (weight (drop n l) <= weight l)%nat.
Proof. revert l. induction n as [|n IH]; intros [|w l]; cbn; [lia..|]. specialize (IH l). lia. Qed.

Lemma weight_take n l : (weight (take n l) <= weight l)%nat.
Proof. revert l. induction n as [|n IH]; intros [|w l]; cbn; [lia..|]. specialize (IH l). lia. Qed.

Lemma weight_join l : l <> [] -> S (String.length (Str.join " " l)) = weight l.
Proof.
  induction l as [|w l IH]; [done|]. intros _. destruct l as [|w' l]; [cbn; lia|].
  change (Str.join " " (w :: w' :: l)) with (w +:+ " " +:+ Str.join " " (w' :: l)).
  rewrite !Str.append_length. specialize (IH ltac:(done)). cbn [String.length]. cbn [weight] in *. lia.
Qed.

(** What the words read so far, the current word and [n] characters to come can weigh. *)
Definition load (st : scanState) : nat := (weight (st_words st) + String.length (st_word st))%nat.

Lemma length_snoc s c : String.length (snoc s c) = S (String.length s).
Proof. unfold snoc. rewrite Str.append_length. cbn. lia. Qed.

(** A round of the scanner adds to the words no more than it reads, and it
    only ever closes commands that are in the load. *)
Definition loads (st st' : scanState) (room : nat) : Prop :=
  (load st' <= load st + room)%nat
  /\ forall c, c ∈ commands (st_scan st') -> c ∈ commands (st_scan st) \/ (weight c <= load st + room)%nat.

Lemma loads_inWord st m word started body room :
  (String.length word <= String.length (st_word st) + room)%nat -> loads st (inWord st m word started body) room.
Proof. intros H. unfold loads, load. cbn. split; [lia|]. destruct body; cbn; by left. Qed.

Lemma loads_weaken st st' n m : loads st st' n -> (n <= m)%nat -> loads st st' m.
Proof. intros [H1 H2] Hm. split; [lia|]. intros c [?|?]%H2; [by left|right; lia]. Qed.

Lemma loads_flush st : loads st (flush st) 0.
Proof.
  unfold flush, loads, load. destruct (st_words st) as [|w ws] eqn:E; cbn; [split; [rewrite E; cbn; lia|by left]|].
  split; [lia|]. intros c [?|Hc%list_elem_of_singleton]%elem_of_app; [by left|right]. subst c. cbn. lia.
Qed.

Lemma loads_substitute st m c s : loads st (substitute st m c s).1 1.
Proof.
  unfold substitute. destruct (c === bt).
  - destruct (Str.indexOf bt s); apply loads_inWord; lia.
  - destruct (commandSubstitution s) as [[body n]|]; apply loads_inWord; [lia|]. rewrite length_snoc. lia.
Qed.

Lemma loads_wordChar st c s st' k :
  wordChar wideChar st c s = Ok (st', k) -> loads st st' (S (Nat.min k (String.length s))).
Proof.
  unfold wordChar. destruct (c === bs).
  { destruct s as [|d s]; [intros [= <- <-]; apply loads_inWord; lia|].
    destruct (d === nl); intros [= <- <-]; apply loads_inWord; rewrite ?length_snoc; cbn; lia. }
  destruct (c === sq).
  { destruct (Str.indexOf sq s); intros [= <- <-]; apply loads_inWord; rewrite Str.append_length, ?Str.take_length; lia. }
  destruct (_ && headIs sq s).
  { destruct (Str.indexOf sq _) as [e|].
    - destruct (decodeAnsiC wideChar _) as [text|] eqn:E; [|done]. apply decodeAnsiC_length in E.
      intros [= <- <-]. apply loads_inWord. rewrite Str.append_length.
      rewrite Str.take_length, Str.drop_length in E. lia.
    - intros [= <- <-]. apply loads_inWord. rewrite Str.append_length. destruct s; cbn; lia. }
  destruct (c === dq); [intros [= <- <-]; apply loads_inWord; lia|].
  destruct (_ || _).
  - intros [= H]. pose proof (loads_substitute st InWord c s) as Hs. rewrite H in Hs.
    eapply loads_weaken; [exact Hs|lia].
  - intros [= <- <-]. apply loads_inWord. rewrite length_snoc. lia.
Qed.

Lemma loads_refl st : loads st st 0.
Proof. split; [lia|by left]. Qed.

Lemma loads_trans st1 st2 st3 n m : loads st1 st2 n -> loads st2 st3 m -> loads st1 st3 (n + m).
Proof.
  intros [H1 H2] [H3 H4]. split; [lia|]. intros c [[?|?]%H2|?]%H4; [by left|right; lia..].
Qed.

Lemma loads_endWord st : loads st (endWord st) 1.
Proof.
  unfold endWord, loads, load. cbn. split; [|by left].
  destruct (st_started st); rewrite ?weight_app; cbn; lia.
Qed.

(** A separator between words. *)
Lemma loads_separator st c s st' k :
  Str.js_space c = true \/ isMeta c = true -> outChar wideChar st c s = Ok (st', k) -> loads st st' 0.
Proof.
  intros Hsep. unfold outChar. destruct (Str.js_space c).
  { intros [= <- _]. destruct (c === nl); [apply loads_flush|apply loads_refl]. }
  destruct Hsep as [|Hm]; [done|]. destruct (_ && bool_decide _); [intros [= <- _]; apply loads_refl|].
  rewrite Hm. intros [= <- _]. apply loads_flush.
Qed.

Lemma loads_outChar st c s st' k :
  outChar wideChar st c s = Ok (st', k) -> loads st st' (S (Nat.min k (String.length s))).
Proof.
  intros H. destruct (Str.js_space c) eqn:Es.
  { apply loads_separator in H; [|by left]. eapply loads_weaken; [done|lia]. }
  destruct (isMeta c) eqn:Em.
  { apply loads_separator in H; [|by right]. eapply loads_weaken; [done|lia]. }
  revert H. unfold outChar. rewrite Es, Em. destruct (_ && bool_decide _).
  { intros [= <- _]. eapply loads_weaken; [apply loads_refl|lia]. }
  intros [H1 H2]%loads_wordChar. unfold load in H1, H2. cbn in H1, H2. unfold loads, load. split; [lia|].
  intros c' [?|?]%H2; [by left|right; lia].
Qed.

Lemma loads_scanChar st c s st' k :
  scanChar wideChar st c s = Ok (st', k) -> loads st st' (S (Nat.min k (String.length s))).
Proof.
  unfold scanChar. destruct (st_mode st); [apply loads_outChar| |].
  - destruct (Str.js_space c || _) eqn:E; [|apply loads_wordChar]. intros H.
    eapply loads_weaken; [eapply loads_trans; [apply loads_endWord|]|].
    + eapply loads_separator; [|exact H]. destruct (Str.js_space c); [by left|right].
      cbn in E. by apply andb_true_iff in E as [? _].
    + lia.
  - intros [= H]. unfold dqChar in H. destruct (c === dq); [injection H as <- <-; apply loads_inWord; lia|].
    destruct (c === bs), s as [|d s];
      try (injection H as <- <-; apply loads_inWord; rewrite ?length_snoc; cbn; lia).
    all: destruct (_ || _); [|injection H as <- <-; apply loads_inWord; rewrite ?length_snoc; cbn; lia].
    all: pose proof (loads_substitute st InDq c) as Hs.
    all: match type of H with substitute _ _ _ ?t = _ => specialize (Hs t); rewrite H in Hs end.
    all: eapply loads_weaken; [exact Hs|lia].
Qed.

Lemma scanFrom_weight st skip s r c :
  scanFrom wideChar st skip s = Ok r -> c ∈ commands r ->
  c ∈ commands (st_scan st) \/ (weight c <= S (load st + (String.length s - skip)))%nat.
Proof.
  revert st skip. induction s as [|a s IH]; intros st skip H Hc; cbn [scanFrom] in H.
  - injection H as <-.
    assert (loads st (flush (match st_mode st with Out => st | _ => endWord st end)) 1) as [_ Hl].
    { apply (loads_trans _ (match st_mode st with Out => st | _ => endWord st end) _ 1 0); [|apply loads_flush].
      destruct (st_mode st); [eapply loads_weaken; [apply loads_refl|lia]|apply loads_endWord..]. }
    apply Hl in Hc as [?|?]; [by left|right; cbn [String.length]; lia].
  - destruct skip as [|skip]; [|apply IH in H; [|done]; cbn [String.length]; destruct H; [by left|right; lia]].
    destruct (scanChar wideChar st a s) as [[st' k]|] eqn:E; [|done]. cbn in H.
    apply loads_scanChar in E as [E1 E2]. apply IH in H as [[?|?]%E2|?]; [by left|right; cbn [String.length]; lia|right; cbn [String.length]; lia|done].
Qed.

Lemma scanShell_weight text scan c :
  scanShell wideChar text = Ok scan -> c ∈ commands scan -> (weight c <= S (String.length text))%nat.
Proof.
  intros H Hc. destruct (scanFrom_weight _ _ _ _ _ H Hc) as [Hn|Hn]; [by apply not_elem_of_nil in Hn|].
  unfold load in Hn. cbn in Hn. lia.
Qed.

Lemma tame_scanShell text : tame (scanShell wideChar text).
Proof.
  unfold scanShell. generalize (mkScanState Out "" false [] (mkScan [] [])) as st. generalize 0%nat as skip.
  induction text as [|c text IH]; intros skip st; cbn [scanFrom]; [done|].
  destruct skip; [|apply IH]. apply tame_bind; [|intros; apply IH].
  assert (forall st, tame (wordChar wideChar st c text)) as Hw.
  { intros st1. unfold wordChar. repeat js_case; try done. apply tame_bind; [apply tame_decodeAnsiC|done]. }
  assert (forall st, tame (outChar wideChar st c text)) as Ho.
  { intros st1. unfold outChar. destruct (Str.js_space c); [done|]. destruct (_ && _); [done|].
    destruct (isMeta c); [done|apply Hw]. }
  unfold scanChar. destruct (st_mode st); [apply Ho| |done]. destruct (_ || _); [apply Ho|apply Hw].
Qed.

(** ** The recursive readers *)
Lemma findIndex_lookup {A : Type} (p : A -> bool) (l : list A) (n : nat) :
  findIndex p l = Some n -> exists x, l !! n = Some x.
Proof.
  revert n. induction l as [|x l IH]; intros n; cbn; [done|]. destruct (p x); [intros [= <-]; by exists x|].
  destruct (findIndex p l) as [k|]; [|done]. intros [= <-]. by apply IH.
Qed.

Lemma weight_lookup l n x : l !! n = Some x -> (S (String.length x) + weight (drop (S n) l) <= weight l)%nat.
Proof.
  revert n. induction l as [|w l IH]; intros n; [done|]. destruct n as [|n]; intros H.
  - injection H as ->. cbn. rewrite drop_0. lia.
  - specialize (IH n H). change (drop (S (S n)) (w :: l)) with (drop (S n) l). cbn [weight]. lia.
Qed.

#[local] Arguments Str.drop : simpl never.
#[local] Arguments Str.join : simpl never.

(** The text of [env -S] weighs no more than the arguments it comes from. *)
Lemma envSplitText_weight args text :
  envSplitText args = Some (Some text) -> (S (String.length text) <= weight args)%nat.
Proof.
  unfold envSplitText. destruct (findIndex _ args) as [n|] eqn:En; [|done].
  apply findIndex_lookup in En as (arg & En). unfold splitStringPayload. cbv zeta. rewrite En. cbn [default from_option id].
  pose proof (weight_lookup _ _ _ En) as Ha.
  assert (forall v k, (String.length v <= String.length arg)%nat ->
    (S (String.length (Str.join " " (v :: drop (n + S k) args))) <= weight args)%nat) as Hown.
  { intros v k Hv. rewrite weight_join by done. cbn [weight].
    rewrite Nat.add_succ_r, <- Nat.add_succ_l, <- drop_drop. pose proof (weight_drop k (drop (S n) args)). lia. }
  destruct (Str.indexOf "=" arg) as [e|].
  { rewrite bool_decide_eq_true_2 by (by eexists). intros [= <-]. apply (Hown _ 0%nat). rewrite Str.drop_length. lia. }
  rewrite bool_decide_eq_false_2 by (intros [? ?]; done). cbn [orb].
  destruct (Str.startsWith arg "-S" && _).
  { intros [= <-]. apply (Hown _ 0%nat). rewrite Str.drop_length. lia. }
  destruct (args !! S n) as [v|] eqn:Ev; [|done]. intros [= <-]. rewrite weight_join by done. cbn [weight].
  apply weight_lookup in Ev. replace (n + 2)%nat with (S (S n)) by lia. lia.
Qed.

Lemma envSplitWords_weight args ws :
  envSplitWords wideChar args = Ok (Some ws) -> (weight ws <= weight args)%nat.
Proof.
  unfold envSplitWords. destruct (envSplitText args) as [[text|]|] eqn:Et; [|intros [= <-]; cbn; lia|done].
  apply envSplitText_weight in Et. destruct (scanShell wideChar text) as [scan|] eqn:Es; [|done].
  intros [= <-]. destruct (commands scan) as [|c cs] eqn:Ec; [cbn; lia|].
  assert (weight c <= S (String.length text))%nat; [|lia]. eapply scanShell_weight; [done|]. rewrite Ec. by left.
Qed.

Lemma tame_envSplitWords args : tame (envSplitWords wideChar args).
Proof.
  unfold envSplitWords. destruct (envSplitText args) as [[text|]|]; [|done..].
  apply tame_bind; [apply tame_scanShell|done].
Qed.

Lemma weight_afterEnv opts args : (weight (afterEnv opts args) <= weight args)%nat.
Proof.
  unfold afterEnv. etrans; [|apply (weight_drop (optionCommand args opts))].
  induction (drop _ args) as [|a l IH]; cbn; [lia|]. destruct (isAssignment a); cbn; lia.
Qed.

Lemma weight_afterCommand args rest : afterCommand args = Some rest -> (weight rest <= weight args)%nat.
Proof.
  induction args as [|a args IH]; cbn; [intros [= <-]; cbn; lia|].
  destruct (_ === _); [intros [= <-]; lia|]. destruct (_ || _); [done|].
  destruct (_ !== _); [intros [= <-]; cbn; lia|]. intros H%IH. lia.
Qed.

Lemma weight_drop_cons n l x l' : drop n l = x :: l' -> (weight l' < weight l)%nat.
Proof. intros H. pose proof (weight_drop n l) as Hw. rewrite H in Hw. cbn in Hw. lia. Qed.

Lemma tame_segmentConsumesShellStdin n ws :
  (weight ws < n)%nat -> tame (segmentConsumesShellStdin wideChar n ws).
Proof.
  revert ws. induction n as [|n IH]; intros ws Hn; [lia|]. cbn [segmentConsumesShellStdin].
  destruct (drop (commandStart ws) ws) as [|w args] eqn:E; [done|]. apply weight_drop_cons in E.
  assert (forall l, (weight l <= weight args)%nat -> tame (segmentConsumesShellStdin wideChar n l)) as Hrec
    by (intros l Hl; apply IH; lia).
  assert (forall k, tame (segmentConsumesShellStdin wideChar n (drop k args))) as Hdrop
    by (intros k; apply Hrec, weight_drop).
  destruct (bool_decide _); [done|]. destruct (_ === _).
  { apply tame_bind; [apply tame_envSplitWords|]. intros [l|] Hl; apply Hrec; [by apply envSplitWords_weight|].
    apply weight_afterEnv. }
  destruct (_ === _); [apply Hdrop|]. destruct (wrapperNext _ _); [apply Hdrop|].
  destruct (_ === _); [apply Hdrop|done].
Qed.

Lemma tame_printfFormat format values : tame (printfFormat wideChar format values).
Proof.
  assert (forall n format values, (String.length format <= n)%nat -> tame (printfFormat wideChar format values)) as H.
  2:{ by eapply H. }
  clear format values. intros n. induction n as [|n IH]; intros [|c [|d rest]] values Hn; cbn in Hn; try done; try lia.
  cbn [printfFormat]. destruct (_ && _); [apply tame_bind; [apply IH; lia|done]|].
  destruct (_ && _).
  - apply tame_bind; [destruct (_ === _); [apply tame_decodeAnsiC|done]|]. intros text _.
    apply tame_bind; [apply IH; lia|done].
  - apply tame_bind; [apply (IH (String d rest)); cbn; lia|done].
Qed.

Lemma tame_textProducer executable args : tame (textProducer wideChar executable args).
Proof.
  unfold textProducer. generalize (match args with "--" :: rest => rest | _ => args end) as l. intros l.
  destruct (_ === _).
  - destruct (echoArgs false l) as [decode l']. destruct decode; [|done].
    apply tame_bind; [apply tame_decodeAnsiC|done].
  - destruct (_ === _), l as [|format values]; try done. apply tame_bind; [apply tame_decodeAnsiC|]. intros d _.
    apply tame_bind; [apply tame_printfFormat|done].
Qed.

Lemma tame_literalProducerPayload n ws :
  (weight ws < n)%nat -> tame (literalProducerPayload wideChar n ws).
Proof.
  revert ws. induction n as [|n IH]; intros ws Hn; [lia|]. cbn [literalProducerPayload].
  destruct (drop (commandStart ws) ws) as [|w args] eqn:E; [done|]. apply weight_drop_cons in E.
  assert (forall l, (weight l <= weight args)%nat -> tame (literalProducerPayload wideChar n l)) as Hrec
    by (intros l Hl; apply IH; lia).
  assert (forall k, tame (literalProducerPayload wideChar n (drop k args))) as Hdrop
    by (intros k; apply Hrec, weight_drop).
  destruct (_ === _).
  { destruct (afterCommand args) eqn:Ea; [|done]. by apply Hrec, weight_afterCommand. }
  destruct (_ === _).
  { destruct args as [|a rest]; [by apply Hrec|]. destruct (_ === _); [apply Hrec; cbn; lia|].
    destruct (Str.startsWith a "-"); [done|]. by apply Hrec. }
  destruct (_ === _).
  { apply tame_bind; [apply tame_envSplitWords|]. intros [l|] Hl; apply Hrec; [by apply envSplitWords_weight|].
    apply weight_afterEnv. }
  destruct (wrapperNext _ _); [apply Hdrop|]. destruct (_ === _); [apply Hdrop|apply tame_textProducer].
Qed.

Lemma tame_pipedShellPayloads input : tame (pipedShellPayloads wideChar input).
Proof.
  unfold pipedShellPayloads. apply tame_bind; [|done]. apply tame_omapM. intros pipeline.
  induction pipeline as [|producer [|consumer rest] IH]; [done..|]. cbn [pipelinePayloads].
  apply tame_bind; [|intros here _; apply tame_bind; [exact IH|done]].
  unfold pipedPayload. apply tame_bind; [apply tame_scanShell|]. intros scan _.
  destruct (commands scan) as [|first cs]; [done|].
  apply tame_bind; [apply tame_segmentConsumesShellStdin; rewrite callDepth_weight; lia|]. intros [] _; [|done].
  apply tame_bind; [apply tame_scanShell|]. intros producers _. destruct (last _); [|done].
  apply tame_bind; [apply tame_literalProducerPayload; rewrite callDepth_weight; lia|done].
Qed.

Lemma tame_hereStringShellPayloads input : tame (hereStringShellPayloads wideChar input).
Proof.
  unfold hereStringShellPayloads. apply tame_bind; [apply tame_scanShell|]. intros scan _.
  apply tame_bind; [|done]. apply tame_omapM. intros words. unfold hereStringPayload.
  destruct (findIndex _ words) as [[|r]|]; [done| |done].
  apply tame_bind; [apply tame_segmentConsumesShellStdin; rewrite callDepth_weight; lia|done].
Qed.

Lemma tame_executedShellPayloads input : tame (executedShellPayloads wideChar input).
Proof.
  unfold executedShellPayloads. apply tame_bind; [apply tame_scanShell|]. intros scan _.
  apply tame_bind; [apply tame_pipedShellPayloads|]. intros piped _.
  apply tame_bind; [apply tame_hereStringShellPayloads|]. intros here _.
  apply tame_bind; [|done]. apply tame_bind; [apply tame_scanShell|done].
Qed.

Lemma tame_baseText stripped : tame (baseText wideChar stripped).
Proof.
  unfold baseText. apply tame_bind; [by apply tame_replaceFrom|intros ? _].
  apply tame_bind; [|intros ? _; apply tame_bind; [by apply tame_replaceFrom|intros; by apply tame_replaceFrom]].
  apply tame_replaceFrom. intros m l. apply tame_bind; [apply tame_decodeAnsiC|done].
Qed.

Lemma tame_scannableAt levels command : tame (scannableAt wideChar levels command).
Proof.
  revert command. induction levels as [|levels IH]; intros command; cbn [scannableAt];
    (apply tame_bind; [by apply tame_replaceFrom|intros stripped _]);
    (apply tame_bind; [apply tame_baseText|intros base _]); [done|].
  apply tame_bind; [apply tame_executedShellPayloads|]. intros executed _. destruct executed as [|x l]; [done|].
  apply tame_bind; [by apply tame_omapM|done].
Qed.

(** C30: reading a command for the policy always ends.  Whatever wrappers,
    pipelines, here strings and nested scripts a command has, and whatever the
    rules, the evaluation answers with a decision; the only other outcome is the
    [RangeError] of an escape that names no code point. *)
Theorem command_evaluation_total (newRegExp : string -> string -> outcome (string -> option string))
    (command : string) (policy : CommandPolicy.t) (layerRules : list CommandRule.t) :
  ((exists d, evaluateCommand newRegExp wideChar command policy = Ok d)
   \/ evaluateCommand newRegExp wideChar command policy = Throw badCodePoint)
  /\ ((exists d, evaluateCommandWithLayer newRegExp wideChar command policy layerRules = Ok d)
      \/ evaluateCommandWithLayer newRegExp wideChar command policy layerRules = Throw badCodePoint).
Proof.
  pose proof (tame_scannableAt 8 command) as H. unfold evaluateCommand, evaluateCommandWithLayer, scannableCommand.
  destruct (scannableAt wideChar 8 command) as [t|e]; cbn in *; [|subst e; auto].
  destruct (firstMatch _ _ _); [split; left; by eexists|]. destruct (_ === _); [split; left; by eexists|].
  destruct (firstMatch _ _ _); split; left; by eexists.
Qed.
End total.

(** The search for the word that names the command needs no more calls than
    there are words either. *)
Lemma executableIndex_fuel n m ws offset :
  (length ws < n)%nat -> (length ws < m)%nat -> executableIndex n ws offset = executableIndex m ws offset.
Proof.
  revert m ws offset. induction n as [|n IH]; intros [|m] ws offset Hn Hm; [lia..|].
  cbn [executableIndex]. destruct (drop (commandStart ws) ws) as [|w args] eqn:E; [done|].
  apply drop_cons_length in E.
  assert (forall k o, executableIndex n (drop k args) o = executableIndex m (drop k args) o) as Hdrop
    by (intros k o; apply IH; rewrite length_drop; lia).
  match goal with |- match ?next with _ => _ end = _ => destruct next end; [apply Hdrop|done].
Qed.

(** *** Witnesses: an escape beyond the code points, behind two wrappers *)
Lemma command_evaluation_total_witness :
  let engine (pattern flags : string) := Ok (fun text => if Str.includes text pattern then Some pattern else None) in
  evaluateCommand engine (fun _ => "?") "env -S 'env -S id' | bash" (CommandPolicy.mk denylist []) = Ok allowed
  /\ ((exists d, evaluateCommand engine (fun _ => "?") "echo $'\U00110000'" (CommandPolicy.mk denylist []) = Ok d)
      \/ evaluateCommand engine (fun _ => "?") "echo $'\U00110000'" (CommandPolicy.mk denylist []) = Throw badCodePoint)
  /\ evaluateCommand engine (fun _ => "?") "echo $'\U00110000'" (CommandPolicy.mk denylist []) = Throw badCodePoint.
Proof.
  intros engine. split; [vm_compute; reflexivity|]. split; [|vm_compute; reflexivity].
  exact (proj1 (command_evaluation_total (fun _ => "?") ltac:(intros; cbn; lia) engine
                  "echo $'\U00110000'" (CommandPolicy.mk denylist []) [])).
Defined.
