(* ===== verification/Membership.v ===== *)
(** * Who may read, write and manage a scope

    [src/resolution/scope-membership.ts], against the directory, identity,
    managed-group and session services it is given, each of which may be missing
    and may fail: a rejected promise is [Throw], and [.catch(() => v)] is
    [catch_with v].  [src/resolution/scope-reach.ts]: which channel a person may
    act in from elsewhere, on the directory store itself. *)

From Stdlib Require Import ZArith Lia.
From S2P Require Import Prelude Collections Scopes Directory.

Definition catch_with {A : Type} (fallback : A) (r : outcome A) : A :=
  match r with Ok a => a | Throw _ => fallback end.

(** ** The services *)
Record ManagedGroups := mkManaged {
  recognizes : string -> bool;
  membership : string -> string -> outcome (option bool);
  managedMembers : string -> outcome (option (list string));
}.

Record DirectoryDeps := mkDirectoryDeps {
  d_channelMember : string -> string -> outcome bool;
  d_groupMember : string -> string -> outcome bool;
  d_channelMembership : option (string -> string -> outcome (option bool));
  d_groupMembership : option (string -> string -> outcome (option bool));
  d_channelPrivacy : option (string -> outcome (option bool));
  d_list : option (outcome (list (string * option string)));  (** ids and display names *)
}.

Record ScopeMembershipDeps := mkDeps {
  managedGroups : option ManagedGroups;
  directory : option DirectoryDeps;
  identity : option (string -> option string * option (list string));  (** [type], [teamIds] *)
  sessions : option (string -> outcome (list ScopeId));
}.

(** The two kinds of shared scope. *)
Inductive SharedKind := shared_channel | shared_group.

Section membership.
Variable deps : ScopeMembershipDeps.

Definition classifiedType (principalId : string) : option string :=
  classify ← identity deps; (classify principalId).1.

Definition classifiedTeams (principalId : string) : option (list string) :=
  classify ← identity deps; (classify principalId).2.

Definition activePrincipal (principalId : string) : bool :=
  match classifiedType principalId with None => true | Some t => t === "internal" end.

(** [deps.managedGroups?.recognizes(ref)] for a group. *)
Definition managedGroup (kind : SharedKind) (ref : string) : option ManagedGroups :=
  match kind with
  | shared_group => m ← managedGroups deps; if recognizes m ref then Some m else None
  | shared_channel => None
  end.

Definition managedMember (m : ManagedGroups) (ref principalId : string) : bool :=
  catch_with (Some false) (membership m ref principalId) === Some true.

(** [direct?.call(...).catch(() => false)] *)
Definition directMember (kind : SharedKind) (ref principalId : string) : bool :=
  match directory deps with
  | None => false
  | Some d => catch_with false (match kind with
                                | shared_channel => d_channelMember d ref principalId
                                | shared_group => d_groupMember d ref principalId
                                end)
  end.

Definition channelPrivacyOf (ref : string) : option bool :=
  d ← directory deps; f ← d_channelPrivacy d; catch_with None (f ref).

Definition currentSharedScopeMember (kind : SharedKind) (ref principalId : string) : bool :=
  if negb (activePrincipal principalId) then false else
  match managedGroup kind ref with
  | Some m => managedMember m ref principalId
  | None => directMember kind ref principalId
  end.

Definition triState (kind : SharedKind) : option (string -> string -> outcome (option bool)) :=
  d ← directory deps;
  match kind with shared_channel => d_channelMembership d | shared_group => d_groupMembership d end.

Definition sharedScopeMembership (kind : SharedKind) (ref principalId : string) : option bool :=
  if negb (activePrincipal principalId) then Some false else
  match managedGroup kind ref with
  | Some m => Some (managedMember m ref principalId)
  | None =>
      match triState kind with
      | Some f => catch_with None (f ref principalId)
      | None =>
          if directMember kind ref principalId then Some true
          else match kind with
               | shared_channel => if channelPrivacyOf ref !== None then Some false else None
               | shared_group => None
               end
      end
  end.

Definition memberOfSharedScope (kind : SharedKind) (ref principalId : string) (fullScope : ScopeId) : bool :=
  match sharedScopeMembership kind ref principalId with
  | Some current => current
  | None =>
      match sessions deps with
      | None => false
      | Some list => bool_decide (fullScope ∈ catch_with [] (list principalId))
      end
  end.

Definition sharedKind (kind : option ScopeKind.t) : option SharedKind :=
  match kind with
  | Some ScopeKind.channel => Some shared_channel
  | Some ScopeKind.group => Some shared_group
  | _ => None
  end.

Definition isCurrentSharedScopeMember (principalId : string) (scope : ScopeId) : bool :=
  if negb (Str.truthy principalId) then false else
  let '(kind, ref) := parseScopeId scope in
  match sharedKind kind with
  | Some k => currentSharedScopeMember k ref principalId
  | None => false
  end.

(** The inner [principal]: [None] for someone who is not internal. *)
Definition memberPrincipal (id : string) (displayName : option string) : option Principal.t :=
  if negb (activePrincipal id) then None else
  Some (Principal.mk id internal (classifiedTeams id)
          (match displayName with Some d => if Str.truthy d then Some d else None | None => None end)).

Fixpoint includedMembers (isMember : string -> outcome bool) (candidates : list (string * option string))
    : outcome (list Principal.t) :=
  match candidates with
  | [] => Ok []
  | (id, name) :: rest =>
      let! member := isMember id in
      let! others := includedMembers isMember rest in
      Ok (match (if member then memberPrincipal id name else None) with
          | Some p => p :: others
          | None => others
          end)
  end.

Definition currentScopeMembers (scope : ScopeId) : outcome (option (list Principal.t)) :=
  let '(kind, ref) := parseScopeId scope in
  match sharedKind kind with
  | None => Ok None
  | Some k =>
      match managedGroup k ref with
      | Some m =>
          let! memberIds := managedMembers m ref in
          Ok (Some (omap (fun id => memberPrincipal id None) (default [] memberIds)))
      | None =>
          match directory deps with
          | None => Ok None
          | Some d =>
              match d_list d with
              | None => Ok None
              | Some candidates =>
                  let! listable :=
                    match k with
                    | shared_group => Ok true
                    | shared_channel =>
                        match d_channelPrivacy d with
                        | None => Ok false
                        | Some privacy => let! p := privacy ref in Ok (p === Some true)
                        end
                    end in
                  if negb listable then Ok None else
                  let! candidates := candidates in
                  let! l := includedMembers (match k with
                                             | shared_channel => d_channelMember d ref
                                             | shared_group => d_groupMember d ref
                                             end) candidates in
                  Ok (Some l)
              end
          end
      end
  end.

Definition inTeam (ref principalId : string) : bool :=
  match classifiedTeams principalId with Some ts => bool_decide (ref ∈ ts) | None => false end.

Definition canReadScope (principalId : string) (targetScope : ScopeId) : bool :=
  if negb (Str.truthy principalId) then false else
  let '(kind, ref) := parseScopeId targetScope in
  match kind with
  | Some ScopeKind.org => classifiedType principalId === Some "internal"
  | Some ScopeKind.personal => samePerson (Some ref) (Some principalId)
  | Some ScopeKind.team => inTeam ref principalId
  | Some ScopeKind.group => memberOfSharedScope shared_group ref principalId targetScope
  | Some ScopeKind.channel =>
      if memberOfSharedScope shared_channel ref principalId targetScope then true
      else if channelPrivacyOf ref === Some false then activePrincipal principalId
      else false
  | None => false
  end.

Definition canWriteScope (principalId : string) (targetScope : ScopeId) : bool :=
  if negb (Str.truthy principalId) || negb (activePrincipal principalId) then false else
  let '(kind, ref) := parseScopeId targetScope in
  match kind with
  | Some ScopeKind.org => true
  | Some ScopeKind.personal => samePerson (Some ref) (Some principalId)
  | Some ScopeKind.team => inTeam ref principalId
  | Some ScopeKind.channel => currentSharedScopeMember shared_channel ref principalId
  | Some ScopeKind.group => currentSharedScopeMember shared_group ref principalId
  | None => false
  end.

Definition membershipControlsScope (scope : ScopeId) : bool :=
  let '(kind, ref) := parseScopeId scope in
  match kind with
  | Some ScopeKind.group => true
  | Some ScopeKind.channel => channelPrivacyOf ref === Some true
  | _ => false
  end.

Definition canManageScope (principalId : string) (scope : ScopeId) : bool :=
  if negb (Str.truthy principalId) || negb (activePrincipal principalId) then false else
  let '(kind, ref) := parseScopeId scope in
  match kind with
  | Some ScopeKind.personal => samePerson (Some ref) (Some principalId)
  | Some ScopeKind.group => currentSharedScopeMember shared_group ref principalId
  | Some ScopeKind.channel =>
      if channelPrivacyOf ref !== Some true then false
      else currentSharedScopeMember shared_channel ref principalId
  | _ => false
  end.

Definition managesArtifactHome (homeScopeId : ScopeId) (createdBy principalId : string) : bool :=
  if negb (Str.truthy principalId) || negb (activePrincipal principalId) then false else
  if canManageScope principalId homeScopeId then true else
  let '(kind, ref) := parseScopeId homeScopeId in
  if negb (samePerson (Some createdBy) (Some principalId)) then false else
  match kind with
  | Some ScopeKind.personal => true
  | Some ScopeKind.channel => channelPrivacyOf ref === Some false
  | _ => false
  end.

(** ** Properties *)

Lemma inactive_shared kind ref p : activePrincipal p = false ->
  currentSharedScopeMember kind ref p = false
  /\ forall scope, memberOfSharedScope kind ref p scope = false.
Proof.
  intros Ha. unfold currentSharedScopeMember, memberOfSharedScope, sharedScopeMembership.
  by rewrite Ha.
Qed.

(** C8: someone who is not internal has no say in what others share.  Whatever
    the directory, the managed groups and past conversations say about them, a
    person the identity service classifies as anything but internal writes and
    manages nothing, and reads nothing but their own personal scope and the
    scopes of teams the identity service puts them in. *)
Theorem outsiders_shut_out (principalId : string) (scope : ScopeId) (createdBy t : string) :
  classifiedType principalId = Some t -> t <> "internal" ->
  canWriteScope principalId scope = false
  /\ canManageScope principalId scope = false
  /\ managesArtifactHome scope createdBy principalId = false
  /\ (canReadScope principalId scope = true ->
      exists ref, (scope = scopeId ScopeKind.personal ref /\ samePerson (Some ref) (Some principalId) = true)
                  \/ (scope = scopeId ScopeKind.team ref /\ inTeam ref principalId = true)).
Proof.
  intros Ht Hne. assert (activePrincipal principalId = false) as Ha.
  { unfold activePrincipal. rewrite Ht. by apply bool_decide_eq_false. }
  unfold canWriteScope, canManageScope, managesArtifactHome, canReadScope. rewrite Ha.
  destruct (Str.truthy principalId); cbn [negb orb]; split_and!; try done.
  destruct (parseScopeId scope) as [[[]|] ref] eqn:E; try done;
    (apply parseScopeId_Some in E || idtac).
  - intros H. exists ref. auto.
  - destruct (inactive_shared shared_channel ref principalId Ha) as [_ ->].
    destruct (_ === _); [congruence|done].
  - intros H. exists ref. auto.
  - rewrite Ht. intros H. js_bool.
  - by destruct (inactive_shared shared_group ref principalId Ha) as [_ ->].
Qed.

(** Managing a scope is the strongest of the rights it comes with: who may
    manage a scope may write to it and, if it is shared, is a current member of a
    scope whose membership is controlled; and who manages the artifacts kept in
    a scope either manages the scope or made the artifact themselves in their own
    scope or a public channel. *)
Theorem manage_implies_write (principalId : string) (scope : ScopeId) :
  (canManageScope principalId scope = true ->
     canWriteScope principalId scope = true
     /\ (isCurrentSharedScopeMember principalId scope = true /\ membershipControlsScope scope = true
         \/ exists ref, scope = scopeId ScopeKind.personal ref /\ samePerson (Some ref) (Some principalId) = true))
  /\ (forall createdBy, managesArtifactHome scope createdBy principalId = true ->
        canManageScope principalId scope = true
        \/ (samePerson (Some createdBy) (Some principalId) = true
            /\ exists ref, scope = scopeId ScopeKind.personal ref
                 \/ (scope = scopeId ScopeKind.channel ref /\ channelPrivacyOf ref = Some false))).
Proof.
  unfold managesArtifactHome, canManageScope, canWriteScope, isCurrentSharedScopeMember, membershipControlsScope.
  destruct (Str.truthy principalId); cbn [negb orb]; [|done].
  destruct (activePrincipal principalId) eqn:Ha; cbn [negb]; [|done].
  destruct (parseScopeId scope) as [[[]|] ref] eqn:E; cbn [sharedKind]; try apply parseScopeId_Some in E;
    (split; [try done|intros createdBy]).
  - intros Hs. split; [done|]. right. eauto.
  - destruct (samePerson (Some ref) _); [by left|]. destruct (samePerson (Some createdBy) _); [|done].
    right. eauto.
  - case_bool_decide as Hp; cbn [negb]; [|done]. intros Hm. auto.
  - destruct (if _ !== _ then _ else _); [by left|]. destruct (samePerson (Some createdBy) _); [|done].
    cbn [negb]. case_bool_decide; [|done]. right. split; [done|]. exists ref. auto.
  - by destruct (samePerson _ _).
  - by destruct (samePerson _ _).
  - intros Hm. auto.
  - destruct (currentSharedScopeMember _ _ _); [by left|]. by destruct (samePerson _ _).
  - by destruct (samePerson _ _).
Qed.

(** A group the workspace manages is governed by its own membership alone:
    when the group is recognised, exactly the active people its membership
    confirms can read, write and manage it.  No directory entry and no past
    conversation opens it, and when the membership cannot be read nobody gets in. *)
Theorem managed_group_authoritative (m : ManagedGroups) (groupId principalId : string) :
  managedGroups deps = Some m -> recognizes m groupId = true -> principalId <> "" ->
  let scope := scopeId ScopeKind.group groupId in
  let member := activePrincipal principalId && (membership m groupId principalId === Ok (Some true)) in
  canReadScope principalId scope = member
  /\ canWriteScope principalId scope = member
  /\ canManageScope principalId scope = member.
Proof.
  intros Hm Hr Hp scope member.
  assert (managedGroup shared_group groupId = Some m) as Hg.
  { unfold managedGroup. rewrite Hm. cbn. by rewrite Hr. }
  assert (managedMember m groupId principalId = (membership m groupId principalId === Ok (Some true))) as Hmm.
  { unfold managedMember. destruct (membership m groupId principalId) as [o|]; cbn;
      apply bool_decide_ext; naive_solver. }
  unfold canReadScope, canWriteScope, canManageScope, scope. rewrite parse_scopeId.
  apply Str.truthy_iff in Hp as ->. cbn [negb orb].
  unfold memberOfSharedScope, sharedScopeMembership, currentSharedScopeMember, member.
  rewrite Hg, Hmm. destruct (activePrincipal principalId); done.
Qed.
End membership.

(** ** [scope-reach.ts] *)
Inductive ReachResolution :=
| reach_ok (scope : ScopeId) (channelId channelName : string) (isPrivate : bool)
| reach_error (message : string).

Definition q (s : string) : string :=
  String (Ascii.ascii_of_nat 34) (s +:+ String (Ascii.ascii_of_nat 34) "").

Definition resolveReachableChannel (query actorId : string) (d : Directory) : ReachResolution :=
  match resolveChannel query d with
  | res_none => reach_error ("I can't see a channel matching " +:+ q query +:+ " — either I'm not in it, or it hasn't synced yet (the channel list refreshes when messages arrive).")
  | res_ambiguous candidates =>
      let names := Str.join ", " (map (fun c => "#" +:+ DirectoryChannel.name c) candidates) in
      reach_error (q query +:+ " matches more than one channel — name one of: " +:+ names +:+ ".")
  | res_one channel =>
      let isPrivate := channelIsPrivate channel in
      let channelId := DirectoryChannel.channelId channel in
      if negb (isVisible (visibilityOf d) actorId (target_channel channelId (Some isPrivate))) then
        reach_error
          (match getMember actorId d with
           | Some _ => "#" +:+ DirectoryChannel.name channel +:+ " is private and I can't confirm you're a member, so I can't go there from here."
           | None => "I can't confirm your identity in this workspace — your login may not be linked to Slack — so I can't check whether you're in #" +:+ DirectoryChannel.name channel +:+ ". Connecting / signing in with Slack should fix it."
           end)
      else reach_ok (scopeId ScopeKind.channel channelId) channelId (DirectoryChannel.name channel) isPrivate
  end.

(** A person reaches a private channel from elsewhere only as a member of it,
    and only channels the directory knows. *)
Lemma reach_needs_membership query actorId d scope channelId name isPrivate :
  resolveReachableChannel query actorId d = reach_ok scope channelId name isPrivate ->
  scope = scopeId ScopeKind.channel channelId
  /\ (exists c, c ∈ channels d /\ DirectoryChannel.channelId c = channelId
       /\ DirectoryChannel.name c = name /\ channelIsPrivate c = isPrivate)
  /\ (isPrivate = true -> channelMember channelId actorId d = true).
Proof.
  unfold resolveReachableChannel.
  destruct (decide (normDirectoryQuery query = "")) as [Hq|Hq].
  { unfold resolveChannel, pickMatch. by rewrite Hq. }
  pose proof (pickMatch_ok DirectoryChannel.channelId DirectoryChannel.name (channels d) query Hq) as Hok.
  unfold resolveChannel. destruct (pickMatch _ _ _ _) as [c| |]; [|done..]. destruct Hok as [Hin _].
  destruct (isVisible _ _ _) eqn:Ev; cbn [negb]; [|done]. intros [= <- <- <- <-].
  split; [done|]. split; [by exists c|]. intros Hp. rewrite Hp in Ev. exact Ev.
Qed.

(** *** Witnesses: a directory store behind the interface *)
Section witnesses.
Let dir := upsertGroup "G1" ["ada"] (replaceChannels [DirectoryChannel.mk "C1" "eng" (Some true)]
             (Some [("C1", "ada")]) emptyDirectory).
Let storeDeps := mkDirectoryDeps
  (fun c p => Ok (channelMember c p dir)) (fun g p => Ok (groupMember g p dir))
  (Some (fun c p => Ok (channelMembership c p dir))) (Some (fun g p => Ok (groupMembership g p dir)))
  (Some (fun c => Ok (channelPrivacy c dir))) None.
Let managed := mkManaged (fun g => g === "G9") (fun _ p => Ok (Some (p === "bob"))) (fun _ => Ok None).
Let services := mkDeps (Some managed) (Some storeDeps)
  (Some (fun p => (Some (if p === "eve" then "guest" else "internal"), None))) None.

Lemma outsiders_shut_out_witness :
  canWriteScope services "eve" "channel:C1" = false /\ canReadScope services "ada" "channel:C1" = true.
Proof.
  split; [|reflexivity].
  exact (proj1 (outsiders_shut_out services "eve" "channel:C1" "eve" "guest" eq_refl ltac:(discriminate))).
Defined.

Lemma manage_implies_write_witness : canWriteScope services "ada" "channel:C1" = true.
Proof. exact (proj1 (proj1 (manage_implies_write services "ada" "channel:C1") eq_refl)). Defined.

Lemma managed_group_authoritative_witness :
  canReadScope services "bob" (scopeId ScopeKind.group "G9") = true
  /\ canReadScope services "ada" (scopeId ScopeKind.group "G9") = false.
Proof.
  split.
  - exact (proj1 (managed_group_authoritative services managed "G9" "bob" eq_refl eq_refl ltac:(discriminate))).
  - exact (proj1 (managed_group_authoritative services managed "G9" "ada" eq_refl eq_refl ltac:(discriminate))).
Defined.
End witnesses.
