(* ===== verification/Egress.v ===== *)
(** * Network access: host rules and the audience floor

    [src/resolution/egress-policy.ts] (host rules), [src/resolution/audience-floor.ts]
    (the rules a turn runs under, from the rules of everyone who can see it) and
    [src/resolution/publish-audience.ts] (who a published artifact is shared with).

    The URL parser of the platform is a parameter: [urlHostname text] is
    [new URL(text).hostname], or throws. *)

From Stdlib Require Import ZArith Lia Ascii.
From S2P Require Import Prelude Collections Scopes Regex.

Module EgressPolicy.
Record t := mk {
  allowedHosts : list string;
  denyPrivateNetworks : option bool;
  privateNetworkAllowedHosts : option (list string);
  deniedHosts : option (list string);
}.

(** [{ allowedHosts, deniedHosts }] *)
Definition hosts (allowed denied : list string) : t := mk allowed None None (Some denied).
End EgressPolicy.

(** [s.replace(/^\*\./, "")] *)
Definition dropWildcard (s : string) : string := if Str.startsWith s "*." then Str.drop 2 s else s.

(** [s.replace(/\.$/, "")] *)
Definition dropFinalDot (s : string) : string :=
  if Str.endsWith s "." then Str.take (String.length s - 1) s else s.

(** [s.replace(/^\[(.* )\]$/, "$1")], on a text of one line. *)
Definition dropBrackets (s : string) : string :=
  if Str.startsWith s "[" && Str.endsWith s "]" && (2 <=? String.length s)%nat
     && forallb (fun c => negb (Re.isNewline c)) (String.list_ascii_of_string s)
  then Str.take (String.length s - 2) (Str.drop 1 s) else s.

Definition countColons (s : string) : nat := length (List.filter (fun c => c === ":"%char) (String.list_ascii_of_string s)).

Section egress.
Variable urlHostname : string -> outcome string.

Definition normalizeHost (host : string) : string :=
  let s := dropBrackets (dropFinalDot (dropWildcard (Str.toLowerCase (Str.trim host)))) in
  if negb (Str.truthy s) then "" else
  let isIPv6 := (2 <=? countColons s)%nat in
  match urlHostname ("https://" +:+ (if isIPv6 then "[" +:+ s +:+ "]" else s)) with
  | Ok hostname => dropFinalDot (dropBrackets hostname)
  | Throw _ => s
  end.

(** ** [parseEgressPolicy] *)
(** [/\s|\*|:\/\/|[/?#@]/.test(candidate)] *)
Definition notHostName (candidate : string) : bool :=
  existsb (fun c => Str.js_space c || Re.oneOf "*/?#@" c) (String.list_ascii_of_string candidate)
  || Str.includes candidate "://".

Definition isAlnum (c : ascii) : bool := Re.isAlpha c || Re.isDigit c.

(** One label: [[a-z0-9](?:[a-z0-9-]{0,61}[a-z0-9])?] with the flag [i]. *)
Definition isLabel (l : string) : bool :=
  let cs := String.list_ascii_of_string l in
  forallb (fun c => isAlnum c || (c === "-"%char)) cs
  && match head cs, last cs with Some a, Some b => isAlnum a && isAlnum b | _, _ => false end
  && (length cs <=? 63)%nat.

Definition isHostName (s : string) : bool := forallb isLabel (Str.split "." s).

Definition parseHost (name : string) (hosts : list string) (item : json) : list string + string :=
  match item with
  | JStr item =>
      let candidate := Str.trim item in
      if negb (Str.truthy candidate) then inl hosts
      else if notHostName candidate then
        inr (candidate +:+ " is not a host name; omit schemes, wildcards, ports, paths, and credentials")
      else
        let colonCount := countColons candidate in
        if bool_decide (colonCount = 1%nat) then inr (candidate +:+ " includes a port; enter a host name only")
        else
          let normalized := normalizeHost candidate in
          if negb (Str.truthy normalized) || ((colonCount <? 2)%nat && negb (isHostName normalized))
          then inr (candidate +:+ " is not a valid host name")
          else if bool_decide (normalized ∈ hosts)
          then inr (name +:+ " contains duplicate host " +:+ normalized)
          else inl (hosts ++ [normalized])
  | _ => inr (name +:+ " must contain only host names")
  end.

Fixpoint parseHosts (name : string) (hosts : list string) (raw : list json) : list string + string :=
  match raw with
  | [] => inl hosts
  | item :: raw' =>
      match parseHost name hosts item with
      | inl hosts' => parseHosts name hosts' raw'
      | inr e => inr e
      end
  end.

(** [value.list ?? []] and the check that it is an array. *)
Definition parseList (name : string) (raw : json) : list string + string :=
  match raw with
  | JUndefined | JNull => parseHosts name [] []
  | JArr l => parseHosts name [] l
  | _ => inr (name +:+ " must be an array of host names")
  end.

Definition parseEgressPolicy (input : json) : EgressPolicy.t + string :=
  match input with
  | JObj _ =>
      match parseList "allowedHosts" (json_field "allowedHosts" input) with
      | inr e => inr e
      | inl allowed =>
          match parseList "deniedHosts" (json_field "deniedHosts" input) with
          | inr e => inr e
          | inl denied =>
              match List.find (fun host => bool_decide (host ∈ denied)) allowed with
              | Some overlap => inr (overlap +:+ " cannot appear in both allowedHosts and deniedHosts")
              | None => inl (EgressPolicy.hosts allowed denied)
              end
          end
      end
  | _ => inr "egress requires { allowedHosts, deniedHosts }"
  end.

(** ** Deciding about a host *)
Definition hostMatches (requestHost ruleHost : string) : bool :=
  let h := normalizeHost requestHost in
  let r := normalizeHost ruleHost in
  if negb (Str.truthy h) || negb (Str.truthy r) then false
  else (h === r) || Str.endsWith h ("." +:+ r).

Definition isHostDenied (host : string) (deniedHosts : option (list string)) : bool :=
  match deniedHosts with
  | None => false
  | Some l => existsb (fun d => Str.truthy d && hostMatches host d) l
  end.

Inductive EgressVerdict := verdict_ok | verdict_denied | verdict_not_allowlisted.
#[global] Instance EgressVerdict_eq_dec : EqDecision EgressVerdict.
Proof using. solve_decision. Defined.

Record EgressDecision := mkEgressDecision { allow : bool; verdict : EgressVerdict }.

Definition egressDecision (host : string) (policy : option EgressPolicy.t) : EgressDecision :=
  match policy with
  | None => mkEgressDecision true verdict_ok
  | Some policy =>
      if isHostDenied host (EgressPolicy.deniedHosts policy) then mkEgressDecision false verdict_denied
      else
        let allow := EgressPolicy.allowedHosts policy in
        if negb (bool_decide (allow = [])) && negb (existsb (fun rule => hostMatches host rule) allow)
        then mkEgressDecision false verdict_not_allowlisted
        else mkEgressDecision true verdict_ok
  end.

(** [egressClaimAllowingControlPlane] of [turn-helpers.ts]; [None] is no claim. *)
Definition egressClaimAllowingControlPlane (egress : EgressPolicy.t) (apiBaseUrl : string) (denyPrivate : bool)
    : option EgressPolicy.t :=
  let allowedHosts := EgressPolicy.allowedHosts egress in
  let deniedHosts := default [] (EgressPolicy.deniedHosts egress) in
  if bool_decide (allowedHosts = []) && bool_decide (deniedHosts = []) && negb denyPrivate then None else
  let coreHost := if Str.truthy apiBaseUrl
                  then match urlHostname apiBaseUrl with Ok h => h | Throw _ => "" end else "" in
  let safeDenied := if Str.truthy coreHost
                    then List.filter (fun d => negb (hostMatches coreHost d)) deniedHosts else deniedHosts in
  let allowedWithCore :=
    if Str.truthy coreHost && negb (bool_decide (allowedHosts = [])) && negb (bool_decide (coreHost ∈ allowedHosts))
    then allowedHosts ++ [coreHost] else allowedHosts in
  let claim := EgressPolicy.mk allowedWithCore
                 (if denyPrivate then Some true else None)
                 (if denyPrivate && Str.truthy coreHost then Some [coreHost] else None)
                 (match safeDenied with [] => None | _ => Some safeDenied end) in
  if negb (bool_decide (allowedWithCore = [])) || negb (bool_decide (safeDenied = [])) || denyPrivate
  then Some claim else None.

Lemma egressDecision_allow host policy :
  allow (egressDecision host (Some policy)) = true <->
  isHostDenied host (EgressPolicy.deniedHosts policy) = false
  /\ (EgressPolicy.allowedHosts policy = []
      \/ exists rule, rule ∈ EgressPolicy.allowedHosts policy /\ hostMatches host rule = true).
Proof.
  unfold egressDecision. destruct (isHostDenied _ _); [cbn; naive_solver|].
  case_bool_decide as Ha; cbn [negb andb]; [cbn; tauto|].
  destruct (existsb _ _) eqn:E; cbn [negb allow].
  - apply Arr.existsb_elem in E. tauto.
  - pose proof (proj1 (Arr.existsb_false _ _) E) as Hf. cbn beta in Hf.
    split; [done|]. intros [_ [?|(r & Hr & Hm)]]; [done|]. rewrite (Hf r Hr) in Hm. done.
Qed.

Lemma isHostDenied_iff host l :
  isHostDenied host (Some l) = true <-> exists d, d ∈ l /\ d <> "" /\ hostMatches host d = true.
Proof.
  cbn. rewrite Arr.existsb_elem. setoid_rewrite andb_true_iff. setoid_rewrite Str.truthy_iff. done.
Qed.

Lemma hostMatches_refl h : normalizeHost h <> "" -> hostMatches h h = true.
Proof.
  intros Hn. unfold hostMatches. apply Str.truthy_iff in Hn as ->. cbn [negb orb].
  by rewrite bool_decide_eq_true_2.
Qed.

(** A turn's network rules never cut it off from the control plane: when a
    claim is issued, the host of the control plane is reachable under it,
    whatever the allowed and denied hosts were, and every other denied host that
    does not cover the control plane stays denied. *)
Theorem control_plane_stays_reachable (egress claim : EgressPolicy.t) (apiBaseUrl coreHost : string)
    (denyPrivate : bool) :
  egressClaimAllowingControlPlane egress apiBaseUrl denyPrivate = Some claim ->
  apiBaseUrl <> "" -> urlHostname apiBaseUrl = Ok coreHost -> coreHost <> "" -> normalizeHost coreHost <> "" ->
  allow (egressDecision coreHost (Some claim)) = true
  /\ forall d, d ∈ default [] (EgressPolicy.deniedHosts egress) -> hostMatches coreHost d = false ->
       d ∈ default [] (EgressPolicy.deniedHosts claim).
Proof.
  intros Hc Hurl Hcore Hne Hnorm. unfold egressClaimAllowingControlPlane in Hc.
  apply Str.truthy_iff in Hurl, Hne. rewrite Hurl, Hcore, Hne in Hc. cbn [andb] in Hc.
  set (denied := default [] (EgressPolicy.deniedHosts egress)) in *.
  set (safe := List.filter (fun d => negb (hostMatches coreHost d)) denied) in *.
  destruct (_ && _ && _) in Hc; [done|]. destruct (_ || _ || _) in Hc; [|done].
  injection Hc as <-.
  assert (default [] (match safe with [] => None | _ => Some safe end) = safe) as Hdef by (by destruct safe).
  split.
  - apply egressDecision_allow. cbn [EgressPolicy.deniedHosts EgressPolicy.allowedHosts]. split.
    + apply not_true_iff_false. intros Hd.
      assert (isHostDenied coreHost (Some safe) = true) as Hs by (by destruct safe).
      apply isHostDenied_iff in Hs as (d & Hin & _ & Hm). unfold safe in Hin.
      apply Arr.elem_of_filter in Hin as [Hf _]. by rewrite Hm in Hf.
    + case_bool_decide as Ha; cbn [negb andb]; [by left|]. right. exists coreHost.
      split; [|by apply hostMatches_refl]. case_bool_decide; cbn [negb]; [done|].
      apply elem_of_app. right. by left.
  - intros d Hd Hm. cbn [EgressPolicy.deniedHosts]. rewrite Hdef. apply Arr.elem_of_filter. by rewrite Hm.
Qed.

(** ** The audience floor *)
Section floor.
(** [config.getEgress(scope)] *)
Variable getEgress : ScopeId -> option EgressPolicy.t.

Definition principalScopes (p : Principal.t) (orgScope : ScopeId) (contextScope : option ScopeId) : list ScopeId :=
  Arr.dedup (List.filter Str.truthy
    (orgScope :: match contextScope with Some c => [c] | None => [] end
     ++ scopeId ScopeKind.personal (Principal.id p)
     :: map (scopeId ScopeKind.team) (default [] (Principal.teamIds p)))).

Definition collectHosts (hosts : EgressPolicy.t -> list string) (scopes : list ScopeId) : list string :=
  foldl (fun acc s => foldl Arr.add acc (match getEgress s with Some e => hosts e | None => [] end)) [] scopes.

Definition principalEgressHosts (p : Principal.t) (orgScope : ScopeId) (contextScope : option ScopeId) : list string :=
  collectHosts EgressPolicy.allowedHosts (principalScopes p orgScope contextScope).

Definition principalDeniedHosts (p : Principal.t) (orgScope : ScopeId) (contextScope : option ScopeId) : list string :=
  collectHosts (fun e => default [] (EgressPolicy.deniedHosts e)) (principalScopes p orgScope contextScope).

Definition audienceEgressFloor (audience : list Principal.t) (orgScope : ScopeId) (contextScope : option ScopeId)
    : list string :=
  match map (fun p => principalEgressHosts p orgScope contextScope) audience with
  | [] => []
  | first :: rest => List.filter (fun h => forallb (fun s => bool_decide (h ∈ s)) rest) first
  end.

Definition audienceDeniedFloor (audience : list Principal.t) (orgScope : ScopeId) (contextScope : option ScopeId)
    : list string :=
  foldl (fun out p => foldl Arr.add out (principalDeniedHosts p orgScope contextScope)) [] audience.

(** The egress policy of a turn ([resolve] in [resolution-service.ts]). *)
Definition turnEgress (audience : list Principal.t) (orgScope scope : ScopeId) : EgressPolicy.t :=
  EgressPolicy.hosts (audienceEgressFloor audience orgScope (Some scope))
    (audienceDeniedFloor audience orgScope (Some scope)).

(** ** Facts *)
Lemma elem_of_foldl_sets {A} (f : A -> list string) (l : list A) acc h :
  h ∈ foldl (fun acc s => foldl Arr.add acc (f s)) acc l <-> h ∈ acc \/ exists s, s ∈ l /\ h ∈ f s.
Proof.
  revert acc. induction l as [|x l IH]; intros acc; cbn.
  - split; [by left|intros [?|(s & Hs & _)]; [done|by apply not_elem_of_nil in Hs]].
  - rewrite IH, Arr.elem_of_foldl_add. setoid_rewrite elem_of_cons. naive_solver.
Qed.

Lemma elem_of_collectHosts hosts scopes h :
  h ∈ collectHosts hosts scopes <-> exists s e, s ∈ scopes /\ getEgress s = Some e /\ h ∈ hosts e.
Proof.
  unfold collectHosts. rewrite elem_of_foldl_sets. split.
  - intros [?%not_elem_of_nil|(s & Hs & Hh)]; [done|]. destruct (getEgress s) as [e|] eqn:E; [eauto|].
    by apply not_elem_of_nil in Hh.
  - intros (s & e & Hs & He & Hh). right. exists s. by rewrite He.
Qed.

Lemma elem_of_egressFloor audience orgScope context h :
  h ∈ audienceEgressFloor audience orgScope context <->
  audience <> [] /\ forall p, p ∈ audience -> h ∈ principalEgressHosts p orgScope context.
Proof.
  unfold audienceEgressFloor. destruct audience as [|p ps]; cbn [map].
  - split; [by intros ?%not_elem_of_nil|by intros []].
  - rewrite Arr.elem_of_filter, Arr.forallb_elem. setoid_rewrite list_elem_of_fmap.
    setoid_rewrite bool_decide_eq_true. setoid_rewrite elem_of_cons. split.
    + intros [Hrest Hp]. split; [done|]. intros x [->|Hx]; [done|]. apply Hrest. eauto.
    + intros [_ H]. split; [|apply H; by left]. intros s (x & -> & Hx). apply H. by right.
Qed.

Lemma elem_of_deniedFloor audience orgScope context h :
  h ∈ audienceDeniedFloor audience orgScope context <->
  exists p, p ∈ audience /\ h ∈ principalDeniedHosts p orgScope context.
Proof.
  unfold audienceDeniedFloor. rewrite elem_of_foldl_sets. split.
  - by intros [?%not_elem_of_nil|?].
  - by right.
Qed.

(** What anyone in the room may not reach, the turn may not reach: a host
    that a rule of the organisation, of the conversation, or of the person or a
    team of any member of the audience denies is refused, whoever else is in the
    audience; and while the members have allowed hosts in common, a host is
    reached only under a rule each one of them has. *)
Theorem audience_denials_bind (audience : list Principal.t) (orgScope scope : ScopeId) (host : string) :
  (forall p d, p ∈ audience -> d ∈ principalDeniedHosts p orgScope (Some scope) -> d <> "" ->
     hostMatches host d = true ->
     egressDecision host (Some (turnEgress audience orgScope scope)) = mkEgressDecision false verdict_denied)
  /\ (audienceEgressFloor audience orgScope (Some scope) <> [] ->
      allow (egressDecision host (Some (turnEgress audience orgScope scope))) = true ->
      exists rule, hostMatches host rule = true
        /\ forall p, p ∈ audience -> rule ∈ principalEgressHosts p orgScope (Some scope)).
Proof.
  split.
  - intros p d Hp Hd Hne Hm. unfold egressDecision, turnEgress. cbn [EgressPolicy.hosts EgressPolicy.deniedHosts].
    assert (isHostDenied host (Some (audienceDeniedFloor audience orgScope (Some scope))) = true) as ->; [|done].
    apply isHostDenied_iff. exists d. split; [|done]. apply elem_of_deniedFloor. eauto.
  - intros Hfloor [_ [Ha|(rule & Hr & Hm)]]%egressDecision_allow; [done|].
    exists rule. split; [done|]. by apply elem_of_egressFloor in Hr as [_ ?].
Qed.

End floor.

(** ** Facts about parsing *)
Lemma parseHosts_ok name raw hosts out :
  parseHosts name hosts raw = inl out -> NoDup hosts -> Forall (fun h => h <> "") hosts ->
  NoDup out /\ Forall (fun h => h <> "") out.
Proof.
  revert hosts. induction raw as [|item raw IH]; intros hosts; cbn; [by intros [= ->]|].
  destruct (parseHost name hosts item) as [hosts'|] eqn:E; [|done]. intros Hp Hnd Hne.
  apply (IH hosts' Hp); clear IH Hp; revert E; unfold parseHost; destruct item; try done;
    (destruct (Str.truthy (Str.trim s)); cbn [negb]; [|by intros [= <-]]);
    (destruct (notHostName _); [done|]); (destruct (bool_decide _); [done|]);
    (destruct (Str.truthy (normalizeHost (Str.trim s))) eqn:Et; cbn [negb orb]; [|done]);
    (destruct (_ && _); [done|]); case_bool_decide as Hin; try done; intros [= <-].
  - apply NoDup_app. repeat split; [done| |apply NoDup_singleton]. set_solver.
  - apply Forall_app. split; [done|]. constructor; [by apply Str.truthy_iff|constructor].
Qed.

(** Network rules that are accepted are clean: each list holds every host
    once and no empty one, and no host is both allowed and denied. *)
Theorem egress_parse_clean (input : json) (p : EgressPolicy.t) :
  parseEgressPolicy input = inl p ->
  exists denied, EgressPolicy.deniedHosts p = Some denied
    /\ NoDup (EgressPolicy.allowedHosts p) /\ NoDup denied
    /\ (forall h, h ∈ EgressPolicy.allowedHosts p -> (h ∉ denied) /\ h <> "")
    /\ (forall h, h ∈ denied -> h <> "").
Proof.
  unfold parseEgressPolicy. destruct input; try done.
  destruct (parseList "allowedHosts" _) as [allowed|] eqn:Ea; [|done].
  destruct (parseList "deniedHosts" _) as [denied|] eqn:Ed; [|done].
  assert (forall name raw out, parseList name raw = inl out ->
    NoDup out /\ Forall (fun h => h <> "") out) as Hok.
  { intros name raw out. unfold parseList. destruct raw; try done;
      intros H; (eapply parseHosts_ok; [exact H|constructor..]). }
  apply Hok in Ea as [Ha Hae]. apply Hok in Ed as [Hd Hde]. rewrite Forall_forall in Hae, Hde.
  destruct (List.find _ allowed) eqn:Ef; [done|]. intros [= <-]. exists denied. cbn. split_and!; try done.
  - intros h Hh. split; [|by apply Hae]. pose proof (Arr.find_none _ _ _ Ef Hh) as Hn. cbn beta in Hn.
    by apply bool_decide_eq_false in Hn.
Qed.
End egress.

(** The floor of the allowed hosts is an intersection, and an empty list of
    allowed hosts means no restriction: alone, Ada may reach nothing but
    [a.example]; with Bob in the room, who may reach nothing but [b.example], the
    turn may reach any host. *)
Theorem empty_floor_opens_network :
  let url text := Ok (Str.drop 8 text) in
  let rules s := if s === "personal:ada" then Some (EgressPolicy.hosts ["a.example"] [])
                 else if s === "personal:bob" then Some (EgressPolicy.hosts ["b.example"] []) else None in
  let ada := Principal.mk "ada" internal None None in
  let bob := Principal.mk "bob" internal None None in
  let reach audience host := egressDecision url host (Some (turnEgress rules audience "org:o" "channel:c")) in
  reach [ada] "evil.example" = mkEgressDecision false verdict_not_allowlisted
  /\ reach [bob] "evil.example" = mkEgressDecision false verdict_not_allowlisted
  /\ reach [ada; bob] "evil.example" = mkEgressDecision true verdict_ok.
Proof. by vm_compute. Qed.

(** ** [publish-audience.ts] *)
Inductive PublishAudienceKind := pub_org | pub_members | pub_owner.
#[global] Instance PublishAudienceKind_eq_dec : EqDecision PublishAudienceKind.
Proof. solve_decision. Defined.

Record PublishAudience := mkPublish {
  pub_kind : PublishAudienceKind; grantees : list ScopeId; memberCount : option Z;
  incomplete : option bool; pub_reason : string;
}.

Record DefaultPublishAudienceArgs := mkPublishArgs {
  a_kind : ConversationKind; a_isPrivate : option bool; a_isMpim : option bool;
  a_members : option (list Principal.t); a_orgScopeId : ScopeId; a_ownerId : string;
}.

Definition ownerOnly (reason : string) : PublishAudience := mkPublish pub_owner [] None None reason.

(** The loop over the members: the ids seen and the grantees so far. *)
Definition addGrantee (ownerId : string) (acc : list string * list ScopeId) (m : Principal.t)
    : list string * list ScopeId :=
  if Principal.type m !== internal then acc
  else if Principal.id m === ownerId then acc
  else if bool_decide (Principal.id m ∈ acc.1) then acc
  else (acc.1 ++ [Principal.id m], acc.2 ++ [scopeId ScopeKind.personal (Principal.id m)]).

Definition defaultPublishAudience (a : DefaultPublishAudienceArgs) : PublishAudience :=
  if a_kind a === kind_dm then ownerOnly "owner-only (direct message)"
  else if (a_kind a === kind_group) || (a_isMpim a === Some true) then
    ownerOnly "owner-only (group DM — auto-share deferred)"
  else match a_isPrivate a with
  | Some false => mkPublish pub_org [a_orgScopeId a] None None "everyone in the org"
  | None =>
      mkPublish pub_owner [] None (Some true)
        "owner-only (couldn't read the channel's public/private status — leaving reach unchanged; share manually if needed)"
  | Some true =>
      match a_members a with
      | None =>
          mkPublish pub_owner [] None (Some true)
            "owner-only (couldn't enumerate the channel's members to auto-share — share manually)"
      | Some members =>
          let grantees := (foldl (addGrantee (a_ownerId a)) ([], []) members).2 in
          match grantees with
          | [] => ownerOnly "owner-only (no other current members)"
          | _ =>
              let n := Z.of_nat (length grantees) in
              mkPublish pub_members grantees (Some n) None
                (Str.showZ n +:+ " channel member" +:+ (if n === 1%Z then "" else "s"))
          end
      end
  end.

Lemma addGrantee_spec owner members acc :
  acc.2 = map (scopeId ScopeKind.personal) acc.1 -> NoDup acc.1 ->
  let out := foldl (addGrantee owner) acc members in
  out.2 = map (scopeId ScopeKind.personal) out.1 /\ NoDup out.1
  /\ forall i, i ∈ out.1 <-> i ∈ acc.1 \/ (i <> owner /\ exists m, m ∈ members /\ Principal.id m = i /\ Principal.type m = internal).
Proof.
  revert acc. induction members as [|m members IH]; intros acc Hmap Hnd; cbn [foldl].
  { split_and!; [done..|]. intros i. split; [by left|]. intros [?|(_ & m & Hm & _)]; [done|by apply not_elem_of_nil in Hm]. }
  assert (forall out : list string * list ScopeId, addGrantee owner acc m = out ->
    out.2 = map (scopeId ScopeKind.personal) out.1 /\ NoDup out.1
    /\ forall i, i ∈ out.1 <-> i ∈ acc.1 \/ (i <> owner /\ Principal.id m = i /\ Principal.type m = internal)) as Hstep.
  { intros out <-. unfold addGrantee.
    case_bool_decide as Ht; cbn [negb].
    2:{ split_and!; [done..|]. intros i. split; [by left|]. by intros [?|(_ & _ & ?)]. }
    case_bool_decide as Ho.
    { split_and!; [done..|]. intros i. split; [by left|]. intros [?|(? & <- & _)]; done. }
    case_bool_decide as Hs; cbn [fst snd].
    { split_and!; [done..|]. intros i. split; [by left|]. intros [?|(_ & <- & _)]; done. }
    split_and!.
    - by rewrite map_app, Hmap.
    - apply NoDup_app. repeat split; [done| |apply NoDup_singleton]. intros x Hx ->%list_elem_of_singleton. done.
    - intros i. rewrite elem_of_app, list_elem_of_singleton. split.
      + intros [?| ->]; [by left|by right].
      + intros [?|(_ & <- & _)]; [by left|by right]. }
  destruct (Hstep _ eq_refl) as (H1 & H2 & H3). destruct (IH _ H1 H2) as (G1 & G2 & G3).
  split_and!; [done..|]. intros i. rewrite G3, H3. setoid_rewrite elem_of_cons. split.
  - intros [[?|(? & <- & ?)]|(? & x & ? & ?)]; [by left|right; split; [done|]; eauto..].
  - intros [?|(? & x & [->|?] & ?)]; [by left; left|left; right; tauto|right; eauto].
Qed.

(** Publishing never shares further than the room.  The whole organisation
    gets access only from a channel known to be public; a private channel shares
    with exactly its other internal members, each once; and a direct message, a
    group conversation, or a channel whose privacy or members are unknown shares
    with nobody. *)
Theorem publish_audience_exact (a : DefaultPublishAudienceArgs) (s : ScopeId) :
  s ∈ grantees (defaultPublishAudience a) <->
  a_kind a = kind_channel /\ a_isMpim a <> Some true /\
  ((a_isPrivate a = Some false /\ s = a_orgScopeId a)
   \/ (a_isPrivate a = Some true /\ exists members m, a_members a = Some members /\ m ∈ members
        /\ Principal.type m = internal /\ Principal.id m <> a_ownerId a
        /\ s = scopeId ScopeKind.personal (Principal.id m))).
Proof.
  unfold defaultPublishAudience.
  destruct (a_kind a) eqn:Ek;
    [split; [by intros ?%not_elem_of_nil|naive_solver]| |split; [by intros ?%not_elem_of_nil|naive_solver]].
  change (kind_channel === kind_dm) with false. change (kind_channel === kind_group) with false. cbn [orb].
  case_bool_decide as Hm; cbn [ownerOnly grantees].
  { split; [by intros ?%not_elem_of_nil|naive_solver]. }
  destruct (a_isPrivate a) as [[]|]; cbn [grantees].
  - destruct (a_members a) as [members|]; cbn [grantees];
      [|split; [by intros ?%not_elem_of_nil|naive_solver]].
    pose proof (addGrantee_spec (a_ownerId a) members ([], []) eq_refl ltac:(constructor)) as (H1 & _ & H3).
    set (out := foldl (addGrantee (a_ownerId a)) ([], []) members) in *.
    assert (forall r, r = grantees (match out.2 with
      | [] => ownerOnly "owner-only (no other current members)"
      | _ => mkPublish pub_members out.2 (Some (Z.of_nat (length out.2))) None
               (Str.showZ (Z.of_nat (length out.2)) +:+ " channel member"
                +:+ (if Z.of_nat (length out.2) === 1%Z then "" else "s")) end) -> r = out.2) as Hr
      by (intros r ->; by destruct out.2).
    rewrite (Hr _ eq_refl), H1, list_elem_of_fmap. setoid_rewrite H3. split.
    + intros (i & -> & [?%not_elem_of_nil|(Hne & m & Hin & <- & Ht)]); [done|]. split_and!; [done..|]. right. eauto 10.
    + intros (_ & _ & [[? _]|(_ & ms & m & [= <-] & Hin & Ht & Hne & ->)]); [done|].
      exists (Principal.id m). split; [done|]. right. eauto.
  - rewrite list_elem_of_singleton. naive_solver.
  - split; [by intros ?%not_elem_of_nil|naive_solver].
Qed.

(** *** Witnesses: a parser that takes the text after [https://] *)
Section witnesses.
Let url (text : string) : outcome string := Ok (Str.drop 8 text).
Let rules (s : ScopeId) : option EgressPolicy.t :=
  if s === "team:t1" then Some (EgressPolicy.hosts [] ["evil.example"]) else None.
Let ada := Principal.mk "ada" internal (Some ["t1"]) None.
Let bob := Principal.mk "bob" internal None None.

Lemma audience_denials_bind_witness :
  egressDecision url "api.evil.example" (Some (turnEgress rules [bob; ada] "org:o" "channel:c"))
  = mkEgressDecision false verdict_denied.
Proof.
  refine (proj1 (audience_denials_bind url rules [bob; ada] "org:o" "channel:c" "api.evil.example")
            ada "evil.example" _ _ _ _).
  - right. left.
  - vm_compute. left.
  - discriminate.
  - vm_compute. reflexivity.
Defined.

Let egress := EgressPolicy.hosts ["a.example"] ["core.example"; "b.example"].
Let claim := EgressPolicy.mk ["a.example"; "core.example"] None None (Some ["b.example"]).

Lemma control_plane_stays_reachable_witness : allow (egressDecision url "core.example" (Some claim)) = true.
Proof.
  refine (proj1 (control_plane_stays_reachable url egress claim "https://core.example" "core.example" false
                   _ _ _ _ _)); [vm_compute; reflexivity|discriminate|reflexivity|discriminate|vm_compute; discriminate].
Defined.

Lemma egress_parse_clean_witness :
  exists denied, EgressPolicy.deniedHosts (EgressPolicy.hosts ["a.example"] ["b.example"]) = Some denied
    /\ NoDup denied.
Proof.
  destruct (egress_parse_clean url (JObj [("allowedHosts", JArr [JStr " A.example"]); ("deniedHosts", JArr [JStr "b.example"])])
    (EgressPolicy.hosts ["a.example"] ["b.example"])) as (denied & H1 & _ & H2 & _).
  - vm_compute. reflexivity.
  - exists denied. split; [exact H1|exact H2].
Defined.
End witnesses.
