(* ===== verification/Posture.v ===== *)
(** * The security posture

    [src/security/security-posture.ts]: how strict a turn is run, how the
    screener's answer is read, and what it is asked to screen.  The JSON parser
    and printer of the platform are parameters: [jsonParse text] is
    [JSON.parse(text)] or throws, [jsonStringify] prints the list of sources and
    contents. *)

From Stdlib Require Import ZArith Lia Ascii.
From S2P Require Import Prelude Collections Shell.
Open Scope Z_scope.

Inductive SecurityPosture := dangerous | auto_ | strict.
#[global] Instance SecurityPosture_eq_dec : EqDecision SecurityPosture.
Proof. solve_decision. Defined.

Definition posture_string (p : SecurityPosture) : string :=
  match p with dangerous => "dangerous" | auto_ => "auto" | strict => "strict" end.

Definition SECURITY_POSTURES : list SecurityPosture := [dangerous; auto_; strict].

Inductive InboundScreening := screening_off | screening_external.
Inductive ToolApprovalBehavior := approvals_none | approvals_all.

Record ResolvedSecurityPolicy := mkSecurity {
  inboundScreening : InboundScreening; toolApprovals : ToolApprovalBehavior
}.

Definition resolveSecurityPolicy (posture : SecurityPosture) : ResolvedSecurityPolicy :=
  match posture with
  | dangerous => mkSecurity screening_off approvals_none
  | auto_ => mkSecurity screening_external approvals_none
  | strict => mkSecurity screening_off approvals_all
  end.

Definition POSTURE_RANK (p : SecurityPosture) : Z :=
  match p with dangerous => 0 | auto_ => 1 | strict => 2 end.

Definition parseSecurityPosture (value : json) : option SecurityPosture :=
  match value with
  | JStr s =>
      let normalized := Str.toLowerCase (Str.trim s) in
      List.find (fun p => posture_string p === normalized) SECURITY_POSTURES
  | _ => None
  end.

Definition composeSecurityPosture (orgFloor : SecurityPosture) (scope : option SecurityPosture) : SecurityPosture :=
  match scope with
  | None => orgFloor
  | Some s => if POSTURE_RANK s <=? POSTURE_RANK orgFloor then orgFloor else s
  end.

(** ** The screener's verdict *)
Inductive ScreenDecision := screen_auto | screen_strict.
#[global] Instance ScreenDecision_eq_dec : EqDecision ScreenDecision.
Proof. solve_decision. Defined.

Record SecurityScreenVerdict := mkVerdict {
  decision : ScreenDecision; reason : option string; unscreened : option bool
}.

Record jsonScan := mkJsonScan { depth : nat; inStr : bool; esc : bool }.

(** The text of the first balanced object: [taken] is the text since its opening
    brace, in reverse. *)
Fixpoint firstObjectText (st : jsonScan) (taken : list ascii) (text : string) : option string :=
  match text with
  | EmptyString => None
  | String ch text' =>
      let keep := if (0 <? depth st)%nat then ch :: taken else taken in
      if inStr st then
        if esc st then firstObjectText (mkJsonScan (depth st) true false) keep text'
        else if ch === bs then firstObjectText (mkJsonScan (depth st) true true) keep text'
        else if ch === dq then firstObjectText (mkJsonScan (depth st) false false) keep text'
        else firstObjectText st keep text'
      else if ch === dq then firstObjectText (mkJsonScan (depth st) true false) keep text'
      else if ch === "{"%char then
        firstObjectText (mkJsonScan (S (depth st)) false false)
          (if (0 <? depth st)%nat then keep else [ch]) text'
      else if (ch === "}"%char) && (0 <? depth st)%nat then
        if (depth st =? 1)%nat then Some (String.string_of_list_ascii (rev keep))
        else firstObjectText (mkJsonScan (pred (depth st)) false false) keep text'
      else firstObjectText st keep text'
  end.

Section posture.
Variable jsonParse : string -> outcome json.
Variable jsonStringify : list (string * string) -> string.

Definition firstJsonObject (text : string) : option json :=
  match firstObjectText (mkJsonScan 0 false false) [] text with
  | Some t => match jsonParse t with Ok j => Some j | Throw _ => None end
  | None => None
  end.

(** [.replace(/[\u0000-\u001f\u007f]/g, " ")] *)
Fixpoint blankControls (s : string) : string :=
  match s with
  | EmptyString => s
  | String c s' =>
      let n := N_of_ascii c in
      String (if ((n <=? 31) || (n =? 127))%N then " "%char else c) (blankControls s')
  end.

Definition invalidVerdict : SecurityScreenVerdict :=
  mkVerdict screen_strict (Some "invalid security screen verdict") None.

Definition verdictReason (parsed : json) : string :=
  match json_field "reason" parsed with
  | JStr r => Str.take 160 (Str.trim (blankControls r))
  | _ => ""
  end.
#[global] Arguments verdictReason : simpl never.

Definition parseSecurityScreenVerdict (output : option string) : option SecurityScreenVerdict :=
  match output with
  | None => None
  | Some output =>
      if negb (Str.truthy output) || negb (Str.truthy (Str.trim output)) then None else
      match firstJsonObject output with
      | None => None
      | Some parsed =>
          if negb (json_truthy parsed) then None else
          match json_field "decision" parsed with
          | JStr d =>
              if d === "auto" then Some (mkVerdict screen_auto None None)
              else if d !== "strict" then Some invalidVerdict
              else
                let reason := verdictReason parsed in
                Some (mkVerdict screen_strict (if Str.truthy reason then Some reason else None) None)
          | _ => Some invalidVerdict
          end
      end
  end.

(** ** What is screened *)
Record Overheard := mkOverheard { o_role : string; o_name : option string; o_text : string }.

Record SecurityScreenInput := mkScreenInput {
  surface : option string;
  text : string;
  triggered : option bool;
  unprompted : option bool;
  securityScreenData : option string;
  overheard : option (list Overheard);
  externalPromptData : option (list (string * string));
}.

Definition DATA_BEARING_SURFACES : list string := ["monitor"].
Definition MAX_SCREEN_CHARS : nat := Z.to_nat 16000.

Definition nonBlank (s : string) : bool := Str.truthy (Str.trim s).

Definition triggerPayload (input : SecurityScreenInput) : list (string * string) :=
  match surface input with
  | Some s =>
      if (triggered input === Some true) && Str.truthy s
         && ((securityScreenData input !== None) || bool_decide (s ∈ DATA_BEARING_SURFACES))
      then
        let content := default (text input) (securityScreenData input) in
        if nonBlank content then [(s, content)] else []
      else []
  | None => []
  end.

Definition overheardPayload (message : Overheard) : list (string * string) :=
  if (o_role message === "user") && nonBlank (o_text message)
  then [("overheard:" +:+ default "participant" (o_name message), o_text message)] else [].

Definition screenPayloads (input : SecurityScreenInput) : list (string * string) :=
  triggerPayload input
  ++ concat (map overheardPayload (default [] (overheard input)))
  ++ List.filter (fun d => nonBlank d.2) (default [] (externalPromptData input)).

Definition marker : string :=
  String nl ("...[security screen input truncated]..." +:+ String nl "").

(** [s.slice(-n)] for [n >= 1] *)
Definition takeLast (n : nat) (s : string) : string := Str.drop (String.length s - n) s.

Definition truncateMiddle (serialized : string) : string :=
  let half := ((MAX_SCREEN_CHARS - String.length marker) / 2)%nat in
  Str.take half serialized +:+ marker +:+ takeLast half serialized.
#[global] Arguments truncateMiddle : simpl never.

Definition securityScreenPayload (input : SecurityScreenInput) : option (string * bool) :=
  match screenPayloads input with
  | [] => None
  | payloads =>
      let serialized := jsonStringify payloads in
      if (String.length serialized <=? MAX_SCREEN_CHARS)%nat then Some (serialized, false)
      else Some (truncateMiddle serialized, true)
  end.

(** ** Properties *)

Lemma verdictReason_length parsed : (String.length (verdictReason parsed) <= 160)%nat.
Proof. unfold verdictReason. destruct (json_field "reason" parsed); first [rewrite Str.take_length; lia|cbn; lia]. Qed.

(** Postures only ever tighten on the way down, and the order of the levels
    is the order of their effect: the composed posture is the stricter of the
    organisation's and the scope's. *)
Theorem posture_composition_is_max (orgFloor : SecurityPosture) (scope : option SecurityPosture) :
  POSTURE_RANK (composeSecurityPosture orgFloor scope)
    = Z.max (POSTURE_RANK orgFloor) (from_option POSTURE_RANK 0 scope)
  /\ (composeSecurityPosture orgFloor scope = orgFloor \/ Some (composeSecurityPosture orgFloor scope) = scope)
  /\ forall p, parseSecurityPosture (JStr (posture_string p)) = Some p.
Proof.
  split_and!.
  - destruct orgFloor, scope as [[]|]; reflexivity.
  - destruct orgFloor, scope as [[]|]; cbn; auto.
  - intros []; reflexivity.
Qed.

(** The screener fails closed on anything it says.  Whenever its output
    holds a JSON value at all, the verdict is strict unless the decision is
    exactly "auto", whatever else was said, and a reason that is passed on is at
    most 160 characters long. *)
Theorem screen_verdict_fails_closed (output : string) (v : SecurityScreenVerdict) :
  parseSecurityScreenVerdict (Some output) = Some v ->
  exists parsed, firstJsonObject output = Some parsed
    /\ (decision v = screen_auto <-> json_field "decision" parsed = JStr "auto")
    /\ (forall r, reason v = Some r -> (String.length r <= 160)%nat).
Proof.
  unfold parseSecurityScreenVerdict. destruct (_ || _); [done|].
  destruct (firstJsonObject output) as [parsed|]; [|done]. destruct (json_truthy parsed); cbn [negb]; [|done].
  intros Hv. exists parsed. split; [done|].
  destruct (json_field "decision" parsed) as [| | | |d| |]; simplify_eq; cbn [decision reason invalidVerdict];
    try (split; [naive_solver|intros r [= <-]; cbn; lia]).
  revert Hv. case_bool_decide as Ha; [intros [= <-]; subst; cbn; naive_solver|].
  case_bool_decide as Hs; cbn [negb]; [|intros [= <-]; cbn; split; [naive_solver|intros r [= <-]; cbn; lia]].
  intros [= <-]. cbn [decision reason]. split; [naive_solver|].
  destruct (Str.truthy _); intros r [= <-].
  apply verdictReason_length.
Qed.

Lemma length_takeLast n s : (String.length (takeLast n s) <= n)%nat.
Proof. unfold takeLast. rewrite Str.drop_length. lia. Qed.

Lemma truncateMiddle_length s : (String.length (truncateMiddle s) <= MAX_SCREEN_CHARS)%nat.
Proof.
  unfold truncateMiddle. set (half := ((MAX_SCREEN_CHARS - String.length marker) / 2)%nat).
  rewrite !Str.append_length. pose proof (Str.take_length half s). pose proof (length_takeLast half s).
  assert (2 * half <= MAX_SCREEN_CHARS - String.length marker)%nat by apply Nat.Div0.mul_div_le.
  assert (String.length marker <= MAX_SCREEN_CHARS)%nat; [|lia].
  apply Nat.leb_le. vm_compute. reflexivity.
Qed.

(** The screener is asked about everything that did not come from the person
    asking, and never with more than it can take: it is called exactly when some
    such text is not blank, the content is at most 16000 characters, and unless
    it says it is truncated it is the whole list. *)
Theorem screen_payload_bounded (input : SecurityScreenInput) :
  (securityScreenPayload input = None <-> screenPayloads input = [])
  /\ forall content truncated, securityScreenPayload input = Some (content, truncated) ->
       (String.length content <= MAX_SCREEN_CHARS)%nat
       /\ (truncated = false -> content = jsonStringify (screenPayloads input)).
Proof.
  unfold securityScreenPayload. destruct (screenPayloads input) as [|p ps]; [done|].
  set (s := jsonStringify (p :: ps)). split; [destruct (_ <=? _)%nat; done|].
  intros content truncated. destruct (_ <=? _)%nat eqn:E.
  - intros [= <- <-]. apply Nat.leb_le in E. done.
  - intros [= <- <-]. split; [apply truncateMiddle_length|done].
Qed.

(** Every non-blank piece of foreign text is among them. *)
Lemma screenPayloads_complete input :
  (forall d, d ∈ default [] (externalPromptData input) -> nonBlank d.2 = true -> d ∈ screenPayloads input)
  /\ (forall m, m ∈ default [] (overheard input) -> o_role m = "user" -> nonBlank (o_text m) = true ->
      ("overheard:" +:+ default "participant" (o_name m), o_text m) ∈ screenPayloads input).
Proof.
  unfold screenPayloads. split.
  - intros d Hd Hb. rewrite !elem_of_app. right. right. by apply Arr.elem_of_filter.
  - intros m Hm Hr Hb. rewrite !elem_of_app. right. left.
    apply list_elem_of_In, in_concat. exists (overheardPayload m). split; [by apply in_map, list_elem_of_In|].
    unfold overheardPayload. rewrite (bool_decide_eq_true_2 _ Hr), Hb. by left.
Qed.
End posture.

Lemma screen_verdict_fails_closed_witness :
  let parse (_ : string) := Ok (JObj [("decision", JStr "dangerous")]) in
  decision invalidVerdict <> screen_auto
  /\ parseSecurityScreenVerdict parse (Some "so: {}") = Some invalidVerdict.
Proof.
  intros parse. assert (parseSecurityScreenVerdict parse (Some "so: {}") = Some invalidVerdict) as H by reflexivity.
  destruct (screen_verdict_fails_closed parse "so: {}" invalidVerdict H) as (parsed & Hp & Hd & _).
  split; [|exact H]. rewrite Hd. vm_compute in Hp. injection Hp as <-. discriminate.
Defined.
