(* ===== verification/Reach.v ===== *)
(** * Reaching people: whom a message may be sent to

    [src/reach/reach.ts]: turning "a teammate", "a channel" or "a group" into a
    destination on the authority of one person, and putting the message into the
    outbox.  The directory is the interface [ReachDirectory]; opening a group is
    an action of the surface, so a resolution also returns the group it has
    opened and registered, if any. *)

From Stdlib Require Import ZArith Lia Ascii.
From S2P Require Import Prelude Collections Scopes Turns Runs Delivery Directory.
Open Scope Z_scope.

Inductive OpenResult := opened (groupId : string) | open_error (error : string) | open_nothing.

Record ReachDirectory := mkReach {
  resolveRecipient : string -> Resolution DirectoryMember.t;
  r_resolveChannel : string -> Resolution DirectoryChannel.t;
  r_channelMember : string -> string -> bool;
  resolveGroup : list string -> option string;
  r_groupMember : string -> string -> bool;
  directoryMember : string -> bool;
  openGroup : option (list string -> OpenResult);
  registerGroup : bool;  (** whether the directory can register a group *)
}.

Definition visibility (dir : ReachDirectory) : VisibilityDirectory :=
  mkVisibility (r_channelMember dir) (r_groupMember dir) None.

Definition principalDestination (target onBehalfOf : string) : Destination.t :=
  Destination.mk "principal" target (Some (scopeId ScopeKind.personal target)) (Some onBehalfOf)
    None None None None None None None.

(** [{ type, target, audienceScopeId }] *)
Definition roomDestination (type : string) (kind : ScopeKind.t) (target : string) : Destination.t :=
  Destination.mk type target (Some (scopeId kind target)) None None None None None None None None.

Definition MAX_GROUP_DM_PARTICIPANTS : nat := 8.

Inductive ReachError :=
| bad_request | group_too_large | identity_unverified | not_a_member | recipient_not_found
| ambiguous_recipient (candidates : list (string * string))
| channel_not_found | ambiguous_channel (candidates : list (string * string))
| group_not_found | group_open_failed.

(** The HTTP status that goes with an error. *)
Definition status (e : ReachError) : Z :=
  match e with
  | bad_request | group_too_large => 400
  | identity_unverified | not_a_member => 403
  | recipient_not_found | channel_not_found | group_not_found => 404
  | ambiguous_recipient _ | ambiguous_channel _ => 409
  | group_open_failed => 502
  end.

(** The [recipient], [channel] or [group] field of a success. *)
Inductive Reached :=
| to_recipient (principalId displayName : string)
| to_channel (channelId name : string)
| to_group (groupId : string).

Inductive ReachResolution :=
| reached (destination : Destination.t) (to : Reached)
| refused (error : ReachError) (message : string).

Record ReachTarget := mkTarget {
  recipient : option string; channel : option string; participants : option (list string)
}.

(** [result?.group?.groupId] and [result?.note] of the surface's answer. *)
Definition openGroupViaSurface (pull : list string -> option (option string * option string))
    (people : list string) : OpenResult :=
  match pull people with
  | None => open_nothing
  | Some (groupId, note) =>
      match keepTruthy groupId with
      | Some g => opened g
      | None => match keepTruthy note with Some n => open_error n | None => open_nothing end
      end
  end.

Section resolve.
Variable dir : ReachDirectory.

Definition membershipDenial (authorityId : string) (isChannel : bool) : ReachResolution :=
  if negb (directoryMember dir authorityId) then
    refused identity_unverified
      "I can't confirm your membership here — your account isn't in this workspace's directory, so your login may not be linked to Slack (or it hasn't synced yet). Connecting / signing in with Slack should link it."
  else refused not_a_member (if isChannel then "I can only post to a private channel you're in"
                             else "I can only post to a group DM you're in").

Definition groupTooLarge : ReachResolution :=
  refused group_too_large "a group DM holds at most 8 people including you — use a channel instead".

Definition quote (s : string) : string :=
  String (Ascii.ascii_of_nat 34) (s +:+ String (Ascii.ascii_of_nat 34) "").

Definition recipientNotFound (query : string) : ReachResolution :=
  refused recipient_not_found ("no internal teammate matches " +:+ quote query).

Definition recipientAmbiguous (query : string) (candidates : list DirectoryMember.t) : ReachResolution :=
  refused (ambiguous_recipient (map (fun c => (DirectoryMember.principalId c, DirectoryMember.displayName c)) candidates))
    (quote query +:+ " matches multiple teammates — pass an exact name or id").

(** The loop over the queries: the ids they name, or the first refusal. *)
Fixpoint nameParticipants (asked : list string) : list string + ReachResolution :=
  match asked with
  | [] => inl []
  | query :: asked' =>
      match resolveRecipient dir query with
      | res_none => inr (recipientNotFound query)
      | res_ambiguous c => inr (recipientAmbiguous query c)
      | res_one m =>
          match nameParticipants asked' with
          | inl named => inl (DirectoryMember.principalId m :: named)
          | inr e => inr e
          end
      end
  end.

Definition groupDestination (gid : string) : ReachResolution :=
  reached (roomDestination "group" ScopeKind.group gid) (to_group gid).

Definition reachGroup (wanted : list string) (authorityId : string) (mayOpenGroup : bool)
    : ReachResolution * option (string * list string) :=
  if bool_decide (wanted = []) then
    (refused bad_request "participants must list the group DM's other members (at least one)", None)
  else
  let asked := Arr.dedup wanted in
  if (MAX_GROUP_DM_PARTICIPANTS <? length asked)%nat then (groupTooLarge, None) else
  match nameParticipants asked with
  | inr e => (e, None)
  | inl named =>
      let people := Arr.dedup (named ++ [authorityId]) in
      if (length people <? 2)%nat then
        (refused bad_request "a group DM needs someone besides you — name a `recipient` instead for a 1:1 DM", None)
      else if (MAX_GROUP_DM_PARTICIPANTS <? length people)%nat then (groupTooLarge, None)
      else
      match resolveGroup dir people with
      | Some groupId =>
          if negb (isVisible (visibility dir) authorityId (target_group groupId))
          then (membershipDenial authorityId false, None)
          else (groupDestination groupId, None)
      | None =>
          match mayOpenGroup, openGroup dir with
          | true, Some open =>
              if negb (directoryMember dir authorityId) then (membershipDenial authorityId false, None) else
              match open people with
              | opened groupId =>
                  (groupDestination groupId, if registerGroup dir then Some (groupId, people) else None)
              | open_error e => (refused group_open_failed e, None)
              | open_nothing =>
                  (refused group_open_failed "I couldn't open a group DM with those people just now — try again in a moment", None)
              end
          | _, Some _ =>
              (refused group_not_found "no group DM I'm in has exactly those participants — post to it once with /v1/reach, which opens it, then address it here", None)
          | _, None =>
              (refused group_not_found "no group DM I'm in has exactly those participants (it may not have synced yet)", None)
          end
      end
  end.

Definition isSome {A : Type} (o : option A) : bool := match o with Some _ => true | None => false end.

Definition resolveReachTarget (target : ReachTarget) (authorityId : string) (mayOpenGroup : bool)
    : ReachResolution * option (string * list string) :=
  let wants := [isSome (recipient target); isSome (channel target); isSome (participants target)] in
  if (1 <? length (List.filter (fun b => b) wants))%nat then
    (refused bad_request "specify exactly one of recipient (a teammate), channel, or participants (a group DM)", None)
  else
  match recipient target, channel target, participants target with
  | Some query, _, _ =>
      match resolveRecipient dir query with
      | res_none => (recipientNotFound query, None)
      | res_ambiguous c => (recipientAmbiguous query c, None)
      | res_one m => 
          (reached (principalDestination (DirectoryMember.principalId m) authorityId)
             (to_recipient (DirectoryMember.principalId m) (DirectoryMember.displayName m)), None)
      end
  | None, Some query, _ =>
      match r_resolveChannel dir query with
      | res_none => (refused channel_not_found ("no channel I'm in matches " +:+ quote query), None)
      | res_ambiguous c =>
          (refused (ambiguous_channel (map (fun c => (DirectoryChannel.channelId c, DirectoryChannel.name c)) c))
             (quote query +:+ " matches multiple channels — pass an exact name or id"), None)
      | res_one c =>
          let cid := DirectoryChannel.channelId c in
          if negb (isVisible (visibility dir) authorityId (target_channel cid (Some (channelIsPrivate c))))
          then (membershipDenial authorityId true, None)
          else (reached (roomDestination "slack" ScopeKind.channel cid) (to_channel cid (DirectoryChannel.name c)), None)
      end
  | None, None, Some wanted => reachGroup wanted authorityId mayOpenGroup
  | None, None, None =>
      (refused bad_request "name a recipient (a teammate), a channel, or a group DM's participants", None)
  end.
End resolve.

(** ** Sending *)
Definition attributeRelay (text : string) (senderDisplayName : option string) : string :=
  match keepTruthy (Str.trim <$> senderDisplayName) with
  | Some who => who +:+ " asked me to pass on:" +:+ String "010"%char text
  | None => text
  end.

Definition isThirdPartyRelay (d : Destination.t) (attributeAs : option string) : bool :=
  match attributeAs with
  | None => false
  | Some _ =>
      if Destination.type d === "group" then true
      else if Destination.type d !== "principal" then false
      else Destination.onBehalfOf d !== Some (Destination.target d)
  end.

(** [{ ...destination, <field> }] for each of the decorations. *)
Definition withSlackUnfurlOption (d : Destination.t) (unfurlLinks : option bool) : Destination.t :=
  match unfurlLinks with
  | None => d
  | Some _ => Destination.mk (Destination.type d) (Destination.target d) (Destination.audienceScopeId d)
                (Destination.onBehalfOf d) (Destination.editRef d) (Destination.taskList d) unfurlLinks
                (Destination.react d) (Destination.delete_ d) (Destination.identity d) (Destination.debugFooter d)
  end.

Definition withReact (d : Destination.t) (react : option (string * string)) : Destination.t :=
  match react with
  | None => d
  | Some _ => Destination.mk (Destination.type d) (Destination.target d) (Destination.audienceScopeId d)
                (Destination.onBehalfOf d) (Destination.editRef d) (Destination.taskList d)
                (Destination.unfurlLinks d) react (Destination.delete_ d) (Destination.identity d)
                (Destination.debugFooter d)
  end.

Definition withDelete (d : Destination.t) (del : option string) : Destination.t :=
  match del with
  | None => d
  | Some _ => Destination.mk (Destination.type d) (Destination.target d) (Destination.audienceScopeId d)
                (Destination.onBehalfOf d) (Destination.editRef d) (Destination.taskList d)
                (Destination.unfurlLinks d) (Destination.react d) del (Destination.identity d)
                (Destination.debugFooter d)
  end.

Definition withEdit (d : Destination.t) (editRef : option string) : Destination.t :=
  match keepTruthy editRef with None => d | Some r => Destination.with_editRef d r end.

Record ReachEnqueueInput := mkReachEnqueue {
  e_destination : Destination.t;
  e_text : string;
  e_attachments : option (list BlobAttachment.t);
  e_idempotencyKey : string;
  e_provenance : option DeliveryProvenance.t;
  attributeAs : option string;
  e_shadow : option bool;
}.

Definition reachInput (input : ReachEnqueueInput) : Outbox.EnqueueInput :=
  let d := e_destination input in
  if isSome (Destination.react d) || isSome (Destination.delete_ d) then
    Outbox.mkEnqueue d "" None (e_provenance input) (e_idempotencyKey input)
      (keepTrue (is_true (e_shadow input)))
  else
    let text := if isThirdPartyRelay d (attributeAs input)
                then attributeRelay (e_text input) (attributeAs input) else e_text input in
    Outbox.mkEnqueue d text (Outbox.keepNonEmpty (e_attachments input)) (e_provenance input)
      (e_idempotencyKey input) (keepTrue (is_true (e_shadow input))).

Definition reachEnqueue (input : ReachEnqueueInput) (uuid : string) (now : Z) (st : Outbox.Store)
    : option Delivery.t * Outbox.Store := Outbox.enqueue (reachInput input) uuid now st.

(** ** Properties *)
(** On whose authority a destination may be used. *)
Inductive authorised (dir : ReachDirectory) (authorityId : string) (mayOpen : bool) : Destination.t -> Prop :=
| au_person query m :
    resolveRecipient dir query = res_one m ->
    authorised dir authorityId mayOpen (principalDestination (DirectoryMember.principalId m) authorityId)
| au_channel query c :
    r_resolveChannel dir query = res_one c ->
    (channelIsPrivate c = true -> r_channelMember dir (DirectoryChannel.channelId c) authorityId = true) ->
    authorised dir authorityId mayOpen (roomDestination "slack" ScopeKind.channel (DirectoryChannel.channelId c))
| au_group people groupId :
    authorityId ∈ people -> (2 <= length people <= MAX_GROUP_DM_PARTICIPANTS)%nat ->
    resolveGroup dir people = Some groupId -> r_groupMember dir groupId authorityId = true ->
    authorised dir authorityId mayOpen (roomDestination "group" ScopeKind.group groupId)
| au_opened people open groupId :
    authorityId ∈ people -> (2 <= length people <= MAX_GROUP_DM_PARTICIPANTS)%nat ->
    resolveGroup dir people = None -> mayOpen = true -> directoryMember dir authorityId = true ->
    openGroup dir = Some open -> open people = opened groupId ->
    authorised dir authorityId mayOpen (roomDestination "group" ScopeKind.group groupId).

Lemma reachGroup_authorised dir wanted authorityId mayOpen d to reg :
  reachGroup dir wanted authorityId mayOpen = (reached d to, reg) -> authorised dir authorityId mayOpen d.
Proof.
  unfold reachGroup. case_bool_decide; [done|]. destruct (_ <? _)%nat; [done|].
  destruct (nameParticipants dir _) as [named|e] eqn:En.
  2:{ intros [= -> _]. exfalso. revert En. generalize (Arr.dedup wanted) as l. intros l. 
      induction l as [|x l IH]; cbn; [done|]. destruct (resolveRecipient dir x); try done.
      destruct (nameParticipants dir l); [done|]. intros [= ->]. by apply IH. }
  set (people := Arr.dedup (named ++ [authorityId])).
  assert (authorityId ∈ people) as Hin by (apply Arr.elem_of_dedup, elem_of_app; right; by left).
  destruct (_ <? 2)%nat eqn:E2; [done|]. destruct (_ <? length people)%nat eqn:E8; [done|].
  apply Nat.ltb_ge in E2, E8.
  destruct (resolveGroup dir people) as [g|] eqn:Eg.
  - destruct (isVisible _ _ _) eqn:Ev; cbn [negb].
    + intros [= <- _ _]. by eapply au_group.
    + unfold membershipDenial. by destruct (negb _).
  - destruct mayOpen; [|by destruct (openGroup dir)]. destruct (openGroup dir) as [open|] eqn:Eo; [|done].
    destruct (directoryMember dir authorityId) eqn:Ed; cbn [negb].
    + destruct (open people) as [g| |] eqn:Ep; [|done..]. intros [= <- _ _]. by eapply au_opened.
    + unfold membershipDenial. by destruct (negb _).
Qed.

(** A message goes out only where its author may speak: to a known person,
    in the author's name; to a channel, which the author is a member of when it
    is private; to a group of at most eight that the author belongs to, or that
    is opened, when that is allowed, with the author in it and known to the
    directory.  The audience of the destination is always the room itself. *)
Theorem reach_is_authorised (dir : ReachDirectory) (target : ReachTarget) (authorityId : string)
    (mayOpen : bool) (d : Destination.t) (to : Reached) (reg : option (string * list string)) :
  resolveReachTarget dir target authorityId mayOpen = (reached d to, reg) ->
  authorised dir authorityId mayOpen d
  /\ exists kind, Destination.audienceScopeId d = Some (scopeId kind (Destination.target d)).
Proof.
  intros H. assert (authorised dir authorityId mayOpen d) as Ha.
  { revert H. unfold resolveReachTarget. destruct (_ <? _)%nat; [done|].
    destruct (recipient target) as [r|].
    { destruct (resolveRecipient dir r) as [m| |] eqn:E; [|done..]. intros [= <- _ _]. by eapply au_person. }
    destruct (channel target) as [c|].
    { destruct (r_resolveChannel dir c) as [ch| |] eqn:E; [|done..].
      destruct (isVisible _ _ _) eqn:Ev; cbn [negb].
      - intros [= <- _ _]. eapply au_channel; [done|]. intros Hp. rewrite Hp in Ev. exact Ev.
      - unfold membershipDenial. by destruct (negb _). }
    destruct (participants target); [apply reachGroup_authorised|done]. }
  split; [done|]. destruct Ha; eauto.
Qed.

(** A message passed on for somebody is marked as such and one that only
    reacts or deletes carries no text: the delivery that is queued names the
    person it comes from exactly when it goes to a group or to someone other than
    that person, and is otherwise the text as written. *)
Theorem relay_is_attributed (input : ReachEnqueueInput) (uuid : string) (now : Z) (st st' : Outbox.Store)
    (d : Delivery.t) :
  JMap.get (Outbox.byKey st) (e_idempotencyKey input) = None ->
  reachEnqueue input uuid now st = (Some d, st') ->
  let dest := e_destination input in
  Delivery.destination d = dest
  /\ (isSome (Destination.react dest) || isSome (Destination.delete_ dest) = true -> Delivery.text d = "")
  /\ (isSome (Destination.react dest) || isSome (Destination.delete_ dest) = false ->
      Delivery.text d = if isThirdPartyRelay dest (attributeAs input)
                        then attributeRelay (e_text input) (attributeAs input) else e_text input)
  /\ (forall who, attributeAs input = Some who -> Str.trim who <> "" ->
      isThirdPartyRelay dest (attributeAs input) = true ->
      Str.startsWith (attributeRelay (e_text input) (attributeAs input)) (Str.trim who) = true).
Proof.
  intros Hk Hq dest. unfold reachEnqueue, Outbox.enqueue, Outbox.lookupKey in Hq.
  assert (Outbox.idempotencyKey (reachInput input) = e_idempotencyKey input) as Hkey
    by (unfold reachInput; by destruct (_ || _)).
  rewrite Hkey, Hk in Hq. cbn [keepTruthy] in Hq. injection Hq as <- _.
  unfold reachInput. fold dest. split_and!.
  - by destruct (_ || _).
  - by intros ->.
  - by intros ->.
  - intros who Hw Hne _. unfold attributeRelay. rewrite Hw. cbn.
    apply Str.truthy_iff in Hne as ->. apply Str.startsWith_append.
Qed.

(** *** Witnesses *)
Section witnesses.
Let ada := DirectoryMember.mk "ada@x.io" "Ada L" internal None.
Let store := replaceChannels [DirectoryChannel.mk "C1" "eng" (Some true)] (Some [("C1", "bob@x.io")])
  (replace [ada] emptyDirectory).
Let dir := mkReach (fun s => resolve s store) (fun s => resolveChannel s store)
  (fun c p => channelMember c p store) (fun l => resolveGroupByParticipants l store)
  (fun g p => groupMember g p store) (fun p => isSome (getMember p store)) None false.

Lemma reach_is_authorised_witness :
  authorised dir "bob@x.io" false (roomDestination "slack" ScopeKind.channel "C1")
  /\ resolveReachTarget dir (mkTarget None (Some "#eng") None) "ada@x.io" false
     = (refused not_a_member "I can only post to a private channel you're in", None).
Proof.
  split; [|reflexivity].
  exact (proj1 (reach_is_authorised dir (mkTarget None (Some "#eng") None) "bob@x.io" false _ _ None eq_refl)).
Defined.

Let input := mkReachEnqueue (principalDestination "ada@x.io" "bob@x.io") "lunch?" None "k1" None (Some "Bob") None.

Lemma relay_is_attributed_witness :
  Delivery.text (Outbox.newDelivery (reachInput input) "d1" 5) = "Bob asked me to pass on:" +:+ String "010"%char "lunch?".
Proof.
  exact (proj1 (proj2 (proj2 (relay_is_attributed input "d1" 5 Outbox.empty _ _ eq_refl eq_refl))) eq_refl).
Defined.
End witnesses.
