(* ===== verification/Idempotency.v ===== *)
(** * Doing something once

    [src/idempotency/idempotency-store.ts]: [once(key, fn)] runs [fn] unless the
    key is being worked on or was committed within the retention time.  The
    method awaits the backing store and [fn], so calls interleave: a call is a
    small program counter, every stretch of code between two awaits is one step,
    and a system of any number of calls is a step relation.  The backing store is
    shared with other processes and with the asynchronous pruning of
    [pruneIfDue], so it may change arbitrarily between steps.  The hop from the
    end of [isCommitted] to the line of [once] that awaits it runs no other code
    that could tell the difference (a second call of the same key answers [false]
    on either side of it), so it is part of the step.  The query [committed],
    which fills the cache from the shared records without holding the key, is not
    one of the steps. *)

From Stdlib Require Import ZArith Lia.
From S2P Require Import Prelude Collections DurableMap.
Open Scope Z_scope.

Record IdempotencyRecord := mkRecord { r_key : string; r_at : Z }.

(** Where a call of [once] is. *)
Inductive pc :=
| Checking (key : string) (cutoff : Z)  (** awaiting [backing.get] in [isCommitted] *)
| Running (key : string) (cutoff : Z)  (** awaiting [fn()]; the cutoff of its check *)
| Putting (key : string) (at_ cutoff : Z)  (** awaiting [backing.put] *)
| Returned (result : outcome bool).

Section store.
Context {M : Type -> Type} `{DurableMapLaws M}.
Variables (retentionMs pruneIntervalMs : Z).

Record Store := mkStore {
  backing : option (M IdempotencyRecord);
  done_ : jmap string Z;
  inflight : list string;
  lastPruneAt : Z;
  calls : jmap nat pc;
  clock : Z;  (** the latest time a step has read *)
  commits : list (string * Z);  (** the completed runs, latest first *)
}.

Definition initial (b : option (M IdempotencyRecord)) (now : Z) : Store := mkStore b [] [] now [] now [].

(** The synchronous part of [pruneIfDue]. *)
Definition pruneDone (done : jmap string Z) (cutoff : Z) : jmap string Z :=
  List.filter (fun e => negb (e.2 <? cutoff)) done.

Definition pruneIfDue (t : Z) (lastPrune : Z) (done : jmap string Z) : Z * jmap string Z :=
  if t - lastPrune <? pruneIntervalMs then (lastPrune, done)
  else (t, pruneDone done (t - retentionMs)).

Definition removeKey (k : string) (l : list string) : list string := List.filter (fun x => x !== k) l.

(** [finally { inflight.delete(key) }] and the return of the call. *)
Definition finish (c : nat) (key : string) (result : outcome bool) (now : Z) (s : Store) : Store :=
  mkStore (backing s) (done_ s) (removeKey key (inflight s)) (lastPruneAt s)
    (JMap.set (calls s) c (Returned result)) now (commits s).

(** The first part of [isCommitted]: the cache. *)
Definition cachedCommit (key : string) (cutoff : Z) (s : Store) : bool :=
  match JMap.get (done_ s) key with Some cached => cutoff <=? cached | None => false end.

(** [once(key, fn)] up to its first await. *)
Definition onceStart (c : nat) (key : string) (now : Z) (s : Store) : Store :=
  if bool_decide (key ∈ inflight s) then
    mkStore (backing s) (done_ s) (inflight s) (lastPruneAt s)
      (JMap.set (calls s) c (Returned (Ok false))) now (commits s)
  else
    let s1 := mkStore (backing s) (done_ s) (inflight s ++ [key]) (lastPruneAt s) (calls s) now (commits s) in
    let cutoff := now - retentionMs in
    if cachedCommit key cutoff s then finish c key (Ok false) now s1
    else mkStore (backing s1) (done_ s1) (inflight s1) (lastPruneAt s1)
           (JMap.set (calls s1) c (Checking key cutoff)) now (commits s1).

(** [const record = await backing.get(key)] and what follows, up to [fn()]. *)
Definition onceRead (c : nat) (key : string) (cutoff now : Z) (s : Store) : Store :=
  let found := match backing s with Some b => dm_get key b | None => None end in
  let fresh := match found with
               | Some record => if cutoff <=? r_at record then Some record else None
               | None => None
               end in
  match fresh with
  | Some record =>
      finish c key (Ok false) now
        (mkStore (backing s) (JMap.set (done_ s) (r_key record) (r_at record)) (inflight s) (lastPruneAt s)
           (calls s) now (commits s))
  | None =>
      mkStore (backing s) (done_ s) (inflight s) (lastPruneAt s)
        (JMap.set (calls s) c (Running key cutoff)) now (commits s)
  end.

(** [fn()] has returned: [const at = now()] and the call of [put]. *)
Definition onceRan (c : nat) (key : string) (cutoff now : Z) (s : Store) : Store :=
  mkStore (match backing s with Some b => Some (dm_put key (mkRecord key now) b) | None => None end) (done_ s) (inflight s) (lastPruneAt s)
    (JMap.set (calls s) c (Putting key now cutoff)) now (commits s).

(** [put] has returned: the commit. *)
Definition oncePut (c : nat) (key : string) (at_ now : Z) (s : Store) : Store :=
  let '(lastPrune, done) := pruneIfDue at_ (lastPruneAt s) (JMap.set (done_ s) key at_) in
  finish c key (Ok true) now
    (mkStore (backing s) done (inflight s) lastPrune (calls s) now ((key, at_) :: commits s)).

(** Every record is filed under its own key, as [put] files them. *)
Definition well_keyed (b : option (M IdempotencyRecord)) : Prop :=
  forall m k r, b = Some m -> dm_get k m = Some r -> r_key r = k.

Inductive step (s : Store) : Store -> Prop :=
| st_start c key now :
    JMap.get (calls s) c = None -> clock s <= now -> step s (onceStart c key now s)
| st_read c key cutoff now :
    JMap.get (calls s) c = Some (Checking key cutoff) -> clock s <= now ->
    step s (onceRead c key cutoff now s)
| st_ran c key cutoff now :
    JMap.get (calls s) c = Some (Running key cutoff) -> clock s <= now ->
    step s (onceRan c key cutoff now s)
| st_put c key at_ cutoff now :
    JMap.get (calls s) c = Some (Putting key at_ cutoff) -> clock s <= now ->
    step s (oncePut c key at_ now s)
| st_throw c key now e p :  (** an awaited call rejects *)
    JMap.get (calls s) c = Some p ->
    (exists cutoff, p = Checking key cutoff \/ p = Running key cutoff \/ exists at_, p = Putting key at_ cutoff) ->
    clock s <= now -> step s (finish c key (Throw e) now s)
| st_backing b : (** other processes and pruning *)
    well_keyed b ->
    step s (mkStore b (done_ s) (inflight s) (lastPruneAt s) (calls s) (clock s) (commits s)).

Definition reachable (b : option (M IdempotencyRecord)) (now : Z) (s : Store) : Prop :=
  rtc step (initial b now) s.

(** ** The invariant *)
(** The key a call holds, and the cutoff of its check. *)
Definition holds (p : pc) : option (string * Z) :=
  match p with
  | Checking key cutoff | Running key cutoff | Putting key _ cutoff => Some (key, cutoff)
  | Returned _ => None
  end.

Definition holder (s : Store) (key : string) (c : nat) (cutoff : Z) : Prop :=
  exists p, JMap.get (calls s) c = Some p /\ holds p = Some (key, cutoff).

Record inv (s : Store) : Prop := mkInv {
  inv_mutex : forall key c c' o o', holder s key c o -> holder s key c' o' -> c = c';
  inv_inflight : forall key, key ∈ inflight s <-> exists c o, holder s key c o;
  inv_cutoff : forall key c o, holder s key c o -> forall a, (key, a) ∈ commits s -> a < o;
  inv_at : forall c key a o, JMap.get (calls s) c = Some (Putting key a o) -> o + retentionMs <= a <= clock s;
  inv_old : forall key c o, holder s key c o -> o + retentionMs <= clock s;
  inv_done : forall key a, (key, a) ∈ commits s ->
    a <= clock s /\ ((exists a', JMap.get (done_ s) key = Some a' /\ a <= a') \/ a < clock s - retentionMs);
  inv_wf : JMap.wf (done_ s);
  inv_keyed : well_keyed (backing s);
  inv_spaced : forall i j key a a', (i < j)%nat -> commits s !! i = Some (key, a) -> commits s !! j = Some (key, a') ->
    a' + retentionMs < a;
}.

Hypothesis retention_pos : 0 <= retentionMs.

Lemma holder_set s c p key c' o done infl lp cl co b :
  holder (mkStore b done infl lp (JMap.set (calls s) c p) cl co) key c' o <->
  (c' = c /\ holds p = Some (key, o)) \/ (c' <> c /\ holder s key c' o).
Proof.
  unfold holder. cbn [calls]. rewrite JMap.get_set. case_decide as E.
  - subst c'. split.
    + intros (q & [= <-] & Hq). by left.
    + intros [[_ Hq]|[? _]]; [by exists p|done].
  - split.
    + intros Hq. right. split; [congruence|done].
    + intros [[-> _]|[_ Hq]]; done.
Qed.

Lemma holder_same s s' key c o : calls s' = calls s -> holder s' key c o <-> holder s key c o.
Proof. unfold holder. by intros ->. Qed.

Lemma elem_removeKey k j l : j ∈ removeKey k l <-> j ∈ l /\ j <> k.
Proof. unfold removeKey. rewrite Arr.elem_of_filter, negb_true_iff, bool_decide_eq_false. tauto. Qed.

(** Time passes: what holds of the commits keeps holding. *)
Lemma inv_done_later s now : inv s -> clock s <= now -> forall key a, (key, a) ∈ commits s ->
  a <= now /\ ((exists a', JMap.get (done_ s) key = Some a' /\ a <= a') \/ a < now - retentionMs).
Proof. intros Hi Hn key a Ha. destruct (inv_done _ Hi _ _ Ha) as [? [?|?]]; split; [lia|by left|lia|right; lia]. Qed.

(** A call that leaves its critical section. *)
Lemma inv_finish s c key o result now done :
  inv s -> holder s key c o -> clock s <= now -> JMap.wf done ->
  (forall k a, (k, a) ∈ commits s ->
     (exists a', JMap.get done k = Some a' /\ a <= a') \/ a < now - retentionMs) ->
  inv (finish c key result now (mkStore (backing s) done (inflight s) (lastPruneAt s) (calls s) now (commits s))).
Proof.
  intros Hi Hh Hn Hwf Hdone. unfold finish. cbn [backing done_ inflight lastPruneAt calls commits].
  assert (forall k c' o', holder (mkStore (backing s) done (removeKey key (inflight s)) (lastPruneAt s)
            (JMap.set (calls s) c (Returned result)) now (commits s)) k c' o' <->
          c' <> c /\ holder s k c' o') as Hold.
  { intros k c' o'. rewrite holder_set. cbn. naive_solver. }
  split; cbn [inflight commits calls clock done_ backing].
  - intros k c1 c2 o1 o2 [_ H1]%Hold [_ H2]%Hold. by eapply (inv_mutex _ Hi).
  - intros k. rewrite elem_removeKey, (inv_inflight _ Hi). setoid_rewrite Hold. split.
    + intros [(c' & o' & Hk) Hne]. exists c', o'. split; [|done]. intros ->.
      destruct Hh as (p & Hp & Hhp), Hk as (p' & Hp' & Hhp'). congruence.
    + intros (c' & o' & Hc & Hk). split; [eauto|]. intros ->. apply Hc. by eapply (inv_mutex _ Hi).
  - intros k c' o' [_ Hk]%Hold. by apply (inv_cutoff _ Hi k c').
  - intros c' k a o'. rewrite JMap.get_set. case_decide; [done|]. intros Hp.
    pose proof (inv_at _ Hi _ _ _ _ Hp). lia.
  - intros k c' o' [_ Hk]%Hold. pose proof (inv_old _ Hi _ _ _ Hk). lia.
  - intros k a Ha. split; [pose proof (proj1 (inv_done _ Hi _ _ Ha)); lia|]. by apply Hdone.
  - done.
  - apply Hi.
  - apply Hi.
Qed.

(** A call that moves on inside it. *)
Lemma inv_move s c p p' key o now b :
  inv s -> JMap.get (calls s) c = Some p -> holds p = Some (key, o) -> holds p' = Some (key, o) ->
  clock s <= now -> well_keyed b ->
  (forall k a o', p' = Putting k a o' -> o' + retentionMs <= a <= now) ->
  inv (mkStore b (done_ s) (inflight s) (lastPruneAt s) (JMap.set (calls s) c p') now (commits s)).
Proof.
  intros Hi Hp Hh Hh' Hn Hb Hat.
  assert (forall k c' o', holder (mkStore b (done_ s) (inflight s) (lastPruneAt s)
            (JMap.set (calls s) c p') now (commits s)) k c' o' <-> holder s k c' o') as Hold.
  { intros k c' o'. rewrite holder_set. split.
    - intros [[-> Hq]|[_ ?]]; [|done]. exists p. split; [done|]. congruence.
    - intros Hq. destruct (decide (c' = c)) as [->|]; [left|by right].
      destruct Hq as (p0 & Hp0 & Hq0). split; [done|]. congruence. }
  split; cbn [inflight commits calls clock done_ backing].
  - intros k c1 c2 o1 o2 H1%Hold H2%Hold. by eapply (inv_mutex _ Hi).
  - intros k. rewrite (inv_inflight _ Hi). by setoid_rewrite Hold.
  - intros k c' o' Hk%Hold. by apply (inv_cutoff _ Hi k c').
  - intros c' k a o'. rewrite JMap.get_set. case_decide; [intros [= ->]; by eapply Hat|].
    intros Hq. pose proof (inv_at _ Hi _ _ _ _ Hq). lia.
  - intros k c' o' Hk%Hold. pose proof (inv_old _ Hi _ _ _ Hk). lia.
  - by apply inv_done_later.
  - apply Hi.
  - done.
  - apply Hi.
Qed.

(** A call that returns at once. *)
Lemma inv_idle s c result now l :
  inv s -> JMap.get (calls s) c = None -> clock s <= now -> (forall k, k ∈ l <-> k ∈ inflight s) ->
  inv (mkStore (backing s) (done_ s) l (lastPruneAt s) (JMap.set (calls s) c (Returned result)) now (commits s)).
Proof.
  intros Hi Hc Hn Hl.
  assert (forall k c' o', holder (mkStore (backing s) (done_ s) l (lastPruneAt s)
            (JMap.set (calls s) c (Returned result)) now (commits s)) k c' o' <-> holder s k c' o') as Hold.
  { intros k c' o'. rewrite holder_set. split; [intros [[_ [=]]|[_ ?]]; done|]. intros Hk. right. split; [|done].
    intros ->. destruct Hk as (p & Hp & _). congruence. }
  split; cbn [inflight commits calls clock done_ backing].
  - intros k c1 c2 o1 o2 H1%Hold H2%Hold. by eapply (inv_mutex _ Hi).
  - intros k. rewrite Hl, (inv_inflight _ Hi). by setoid_rewrite Hold.
  - intros k c' o' Hk%Hold. by apply (inv_cutoff _ Hi k c').
  - intros c' k a o'. rewrite JMap.get_set. case_decide; [done|].
    intros Hq. pose proof (inv_at _ Hi _ _ _ _ Hq). lia.
  - intros k c' o' Hk%Hold. pose proof (inv_old _ Hi _ _ _ Hk). lia.
  - by apply inv_done_later.
  - apply Hi.
  - apply Hi.
  - apply Hi.
Qed.

(** A call that enters its critical section. *)
Lemma inv_enter s c key now :
  inv s -> JMap.get (calls s) c = None -> clock s <= now -> key ∉ inflight s ->
  cachedCommit key (now - retentionMs) s = false ->
  inv (mkStore (backing s) (done_ s) (inflight s ++ [key]) (lastPruneAt s)
         (JMap.set (calls s) c (Checking key (now - retentionMs))) now (commits s)).
Proof.
  intros Hi Hc Hn Hk Hcache.
  assert (forall k c' o', holder (mkStore (backing s) (done_ s) (inflight s ++ [key]) (lastPruneAt s)
            (JMap.set (calls s) c (Checking key (now - retentionMs))) now (commits s)) k c' o' <->
            (c' = c /\ k = key /\ o' = now - retentionMs) \/ holder s k c' o') as Hold.
  { intros k c' o'. rewrite holder_set. cbn. split.
    - intros [[-> [= -> ->]]|[_ ?]]; [by left|by right].
    - intros [(-> & -> & ->)|Hh]; [by left|]. right. split; [|done]. intros ->.
      destruct Hh as (p & Hp & _). congruence. }
  assert (forall c' o', ~ holder s key c' o') as Hfree.
  { intros c' o' Hh. apply Hk, (inv_inflight _ Hi). eauto. }
  split; cbn [inflight commits calls clock done_ backing].
  - intros k c1 c2 o1 o2 [(-> & -> & _)|H1]%Hold [(-> & E & _)|H2]%Hold; try done.
    + by apply Hfree in H2.
    + subst k. by apply Hfree in H1.
    + by eapply (inv_mutex _ Hi).
  - intros k. rewrite elem_of_app, list_elem_of_singleton, (inv_inflight _ Hi). setoid_rewrite Hold. split.
    + intros [(c' & o' & ?)|<-]; eauto 8.
    + intros (c' & o' & [(_ & -> & _)|?]); eauto.
  - intros k c' o' [(-> & -> & ->)|Hh]%Hold a Ha; [|by eapply (inv_cutoff _ Hi)].
    destruct (inv_done _ Hi _ _ Ha) as [_ [(a' & Ha' & Hle)|?]]; [|lia].
    unfold cachedCommit in Hcache. rewrite Ha' in Hcache. apply Z.leb_gt in Hcache. lia.
  - intros c' k a o'. rewrite JMap.get_set. case_decide; [done|].
    intros Hq. pose proof (inv_at _ Hi _ _ _ _ Hq). lia.
  - intros k c' o' [(-> & -> & ->)|Hh]%Hold; [lia|]. pose proof (inv_old _ Hi _ _ _ Hh). lia.
  - by apply inv_done_later.
  - apply Hi.
  - apply Hi.
  - apply Hi.
Qed.

Lemma get_pruneDone done cutoff k :
  JMap.wf done ->
  JMap.get (pruneDone done cutoff) k
  = match JMap.get done k with Some a => if a <? cutoff then None else Some a | None => None end.
Proof.
  unfold JMap.wf, pruneDone. induction done as [|[j a] m IH]; cbn; [done|].
  intros [Hj Hm]%NoDup_cons. specialize (IH Hm). case_bool_decide as E.
  - subst j. destruct (a <? cutoff); cbn.
    + rewrite IH. by rewrite (proj2 (JMap.get_None m k) Hj).
    + by rewrite bool_decide_eq_true_2.
  - destruct (a <? cutoff); cbn; [done|]. by rewrite bool_decide_eq_false_2.
Qed.

Lemma wf_pruneDone done cutoff : JMap.wf done -> JMap.wf (pruneDone done cutoff).
Proof.
  unfold JMap.wf, JMap.keys, pruneDone. induction done as [|[j a] m IH]; cbn; [done|].
  intros [Hj Hm]%NoDup_cons. destruct (negb _); cbn; [|by apply IH]. apply NoDup_cons. split; [|by apply IH].
  intros ([k v] & -> & Hin)%list_elem_of_fmap. apply Hj. apply Arr.elem_of_filter in Hin as [_ Hin].
  by apply (list_elem_of_fmap_2 fst m (k, v)).
Qed.

(** The cache after a commit covers the new commit and every old one that was
    covered, except those that are past the retention. *)
Lemma pruneIfDue_covers s t now k a :
  JMap.wf (done_ s) -> t <= now ->
  (exists a', JMap.get (done_ s) k = Some a' /\ a <= a') ->
  (exists a', JMap.get (pruneIfDue t (lastPruneAt s) (done_ s)).2 k = Some a' /\ a <= a')
  \/ a < now - retentionMs.
Proof.
  intros Hwf Ht (a' & Ha' & Hle). unfold pruneIfDue. destruct (_ <? pruneIntervalMs); cbn; [eauto|].
  rewrite (get_pruneDone _ _ _ Hwf), Ha'. destruct (a' <? t - retentionMs) eqn:E; [|eauto].
  apply Z.ltb_lt in E. right. lia.
Qed.

Lemma wf_pruneIfDue t lp done : JMap.wf done -> JMap.wf (pruneIfDue t lp done).2.
Proof. intros. unfold pruneIfDue. destruct (_ <? _); cbn; [done|]. by apply wf_pruneDone. Qed.

(** A call that commits. *)
Lemma inv_commit s c key a o now :
  inv s -> JMap.get (calls s) c = Some (Putting key a o) -> clock s <= now -> inv (oncePut c key a now s).
Proof.
  intros Hi Hp Hn. unfold oncePut.
  set (done1 := JMap.set (done_ s) key a).
  assert (JMap.wf done1) as Hwf1 by apply JMap.wf_set, Hi.
  pose proof (wf_pruneIfDue a (lastPruneAt s) done1 Hwf1) as Hwf2.
  assert (holder s key c o) as Hh by (by exists (Putting key a o)).
  destruct (inv_at _ Hi _ _ _ _ Hp) as [Ho Ha].
  assert (forall k b, (k, b) ∈ (key, a) :: commits s ->
    (exists b', JMap.get (pruneIfDue a (lastPruneAt s) done1).2 k = Some b' /\ b <= b')
    \/ b < now - retentionMs) as Hcov.
  { intros k b Hin.
    assert ((exists b', JMap.get done1 k = Some b' /\ b <= b') \/ b < now - retentionMs) as [Hb|?]; [| |by right].
    - unfold done1. rewrite JMap.get_set. case_decide as E.
      + subst k. left. exists a. split; [done|]. apply elem_of_cons in Hin as [[= ->]|Hin]; [lia|].
        pose proof (inv_cutoff _ Hi _ _ _ Hh _ Hin). lia.
      + apply elem_of_cons in Hin as [[= -> ->]|Hin]; [done|].
        destruct (inv_done _ Hi _ _ Hin) as [_ [?|?]]; [by left|right; lia].
    - apply (pruneIfDue_covers (mkStore (backing s) done1 (inflight s) (lastPruneAt s) (calls s) now (commits s)));
        [done|lia|done]. }
  assert (inv (finish c key (Ok true) now (mkStore (backing s) (done_ s) (inflight s) (lastPruneAt s) (calls s) now (commits s)))) as Hf.
  { apply (inv_finish s c key o); [done|done|done|apply Hi|]. intros k b Hin.
    by destruct (inv_done_later _ _ Hi Hn _ _ Hin). }
  destruct (pruneIfDue a (lastPruneAt s) done1) as [lp done2]. cbn [snd] in *.
  unfold finish in *. cbn [backing done_ inflight lastPruneAt calls commits] in *.
  assert (forall k c' o', holder (mkStore (backing s) done2 (removeKey key (inflight s)) lp
            (JMap.set (calls s) c (Returned (Ok true))) now ((key, a) :: commits s)) k c' o' <->
          c' <> c /\ holder s k c' o') as Hold.
  { intros k c' o'. rewrite holder_set. cbn. naive_solver. }
  split; cbn [inflight commits calls clock done_ backing].
  - apply (inv_mutex _ Hf).
  - apply (inv_inflight _ Hf).
  - intros k c' o' [Hc Hk]%Hold b [[= -> ->]|Hb]%elem_of_cons; [|by eapply (inv_cutoff _ Hi)].
    destruct Hc. by eapply (inv_mutex _ Hi).
  - apply (inv_at _ Hf).
  - apply (inv_old _ Hf).
  - intros k b Hin. split; [|by apply Hcov]. apply elem_of_cons in Hin as [[= -> ->]|Hin]; [lia|].
    pose proof (proj1 (inv_done _ Hi _ _ Hin)). lia.
  - done.
  - apply Hi.
  - intros i j k b b' Hij Hbi Hbj. destruct j as [|j]; [lia|]. cbn in Hbj. destruct i as [|i]; cbn in Hbi.
    + injection Hbi as -> ->. apply list_elem_of_lookup_2 in Hbj.
      pose proof (inv_cutoff _ Hi _ _ _ Hh _ Hbj). lia.
    + apply (inv_spaced _ Hi i j k b b'); [lia|done..].
Qed.

Lemma well_keyed_put s key now : well_keyed (backing s) ->
  well_keyed (match backing s with Some b => Some (dm_put key (mkRecord key now) b) | None => None end).
Proof.
  intros Hk m k r E Hg. destruct (backing s) as [b|] eqn:Eb; [|done]. injection E as <-.
  rewrite dm_get_put in Hg. case_decide; [by simplify_eq|]. by eapply Hk.
Qed.

Lemma idempotency_step_inv s s' : inv s -> step s s' -> inv s'.
Proof.
  intros Hi Hs. destruct Hs as [c key now Hc Hn|c key o now Hc Hn|c key o now Hc Hn|c key a o now Hc Hn
    |c key now e p Hc Hp Hn|b Hb].
  - unfold onceStart. case_bool_decide as Hin; [by apply inv_idle|].
    destruct (cachedCommit key (now - retentionMs) s) eqn:Ec; cbn [backing done_ inflight lastPruneAt calls commits]; [|by apply inv_enter].
    unfold finish. cbn [backing done_ inflight lastPruneAt calls commits]. apply inv_idle; try done.
    intros k. rewrite elem_removeKey, elem_of_app, list_elem_of_singleton. split; [tauto|].
    intros Hk. split; [tauto|]. by intros ->.
  - assert (holder s key c o) as Hh by (by exists (Checking key o)). unfold onceRead.
    destruct (match backing s with Some b => dm_get key b | None => None end) as [r|] eqn:Er.
    + destruct (o <=? r_at r) eqn:Eo.
      * assert (r_key r = key) as ->.
        { destruct (backing s) as [b|] eqn:Eb; [|done]. by apply (inv_keyed _ Hi b key r). }
        apply (inv_finish s c key o); [done|done|done|apply JMap.wf_set, Hi|].
        intros k a Ha. rewrite JMap.get_set. case_decide as E.
        -- subst k. left. exists (r_at r). split; [done|].
           pose proof (inv_cutoff _ Hi _ _ _ Hh _ Ha). apply Z.leb_le in Eo. lia.
        -- by destruct (inv_done_later _ _ Hi Hn _ _ Ha).
      * apply (inv_move s c (Checking key o) _ key o); try done. apply Hi.
    + apply (inv_move s c (Checking key o) _ key o); try done. apply Hi.
  - apply (inv_move s c (Running key o) _ key o); try done.
    + apply well_keyed_put, Hi.
    + intros k a o' [= -> -> ->]. assert (holder s k c o') as Hh by (by exists (Running k o')).
      pose proof (inv_old _ Hi _ _ _ Hh). lia.
  - by eapply inv_commit.
  - destruct Hp as (o & Hp). assert (holder s key c o) as Hh.
    { exists p. split; [done|]. destruct Hp as [->|[->|(a & ->)]]; done. }
    apply (inv_finish s c key o); [done|done|done|apply Hi|]. intros k a Ha.
    by destruct (inv_done_later _ _ Hi Hn _ _ Ha).
  - split; cbn; try apply Hi. done.
Qed.

Lemma idempotency_reachable_inv b now s : well_keyed b -> reachable b now s -> inv s.
Proof.
  intros Hb Hr. refine (rtc_ind_r (fun s => inv s) (initial b now) _ _ s Hr).
  - split; cbn; try done.
    + intros k c c' o o' (p & [=] & _).
    + intros k. split; [by intros ?%not_elem_of_nil|]. intros (c & o & p & [=] & _).
    + intros k c o (p & [=] & _).
    + intros k c o (p & [=] & _).
    + intros k a Ha. by apply not_elem_of_nil in Ha.
    + constructor.
  - intros y z _ Hs Hi. by eapply idempotency_step_inv.
Qed.

(** C7: something done once is done once.  Whatever calls are under way at the
    same time, however they interleave at their awaits, and whatever other
    processes do to the shared records: no two calls work on one key at a time,
    and two completed runs of one key in this process are always more than the
    retention time apart. *)
Theorem once_is_once (b : option (M IdempotencyRecord)) (start : Z) (s : Store) :
  well_keyed b -> reachable b start s ->
  (forall c c' p p' key o o', JMap.get (calls s) c = Some p -> JMap.get (calls s) c' = Some p' ->
     holds p = Some (key, o) -> holds p' = Some (key, o') -> c = c')
  /\ (forall i j key a a', (i < j)%nat -> commits s !! i = Some (key, a) -> commits s !! j = Some (key, a') ->
       a' + retentionMs < a).
Proof.
  intros Hb Hr%idempotency_reachable_inv; [|done]. split.
  - intros c c' p p' key o o' Hc Hc' Hp Hp'. apply (inv_mutex _ Hr key c c' o o'); [by exists p|by exists p'].
  - apply (inv_spaced _ Hr).
Qed.

(** A key is never stuck and never silently dropped: when no call works on
    it, it is not in flight, so the next call for it takes it up, and either
    finds it committed within the retention time or goes on to check and run. *)
Lemma once_not_stuck (b : option (M IdempotencyRecord)) (start : Z) (s : Store) (c : nat) (key : string) (now : Z) :
  well_keyed b -> reachable b start s ->
  (forall c' p o, JMap.get (calls s) c' = Some p -> holds p <> Some (key, o)) ->
  let s' := onceStart c key now s in
  (JMap.get (calls s') c = Some (Returned (Ok false))
     /\ exists a, JMap.get (done_ s) key = Some a /\ now - retentionMs <= a)
  \/ JMap.get (calls s') c = Some (Checking key (now - retentionMs)).
Proof.
  intros Hb Hr%idempotency_reachable_inv Hfree s'; [|done]. unfold s', onceStart.
  rewrite bool_decide_eq_false_2.
  2:{ intros (c' & o & p & Hp & Hh)%(inv_inflight _ Hr). by apply (Hfree c' p o). }
  destruct (cachedCommit key (now - retentionMs) s) eqn:E.
  - left. unfold finish. cbn [calls]. rewrite JMap.get_set_eq. split; [done|].
    unfold cachedCommit in E. destruct (JMap.get (done_ s) key) as [a|]; [|done].
    exists a. apply Z.leb_le in E. done.
  - right. cbn [calls]. apply JMap.get_set_eq.
Qed.
End store.

(** *** Witnesses: a call runs to its end while another one is turned away, and
    the key runs again after the retention time *)
Definition w0 : Store (M := Memory.t) := initial None 0.
Definition w1 := onceStart 1000 1 "k" 10 w0.
Definition w2 := onceStart 1000 2 "k" 11 w1.
Definition w3 := onceRead 1 "k" (-990) 12 w2.
Definition w4 := onceRan 1 "k" (-990) 20 w3.
Definition w5 := oncePut 1000 60 1 "k" 20 21 w4.
Definition w6 := onceStart 1000 3 "k" 1021 w5.
Definition w7 := onceRead 3 "k" 21 1022 w6.
Definition w8 := onceRan 3 "k" 21 1030 w7.
Definition w9 := oncePut 1000 60 3 "k" 1030 1031 w8.

Lemma w2_reachable : reachable (M := Memory.t) 1000 60 None 0 w2.
Proof.
  refine (rtc_l _ _ _ _ (st_start 1000 60 w0 1%nat "k" 10 eq_refl _)
            (rtc_once _ _ (st_start 1000 60 w1 2%nat "k" 11 eq_refl _))); vm_compute; discriminate.
Qed.

Lemma w9_reachable : reachable (M := Memory.t) 1000 60 None 0 w9.
Proof.
  refine (rtc_r _ w8 _ _ (st_put 1000 60 w8 3%nat "k" 1030 21 1031 eq_refl _)); [|vm_compute; discriminate].
  refine (rtc_r _ w7 _ _ (st_ran 1000 60 w7 3%nat "k" 21 1030 eq_refl _)); [|vm_compute; discriminate].
  refine (rtc_r _ w6 _ _ (st_read 1000 60 w6 3%nat "k" 21 1022 eq_refl _)); [|vm_compute; discriminate].
  refine (rtc_r _ w5 _ _ (st_start 1000 60 w5 3%nat "k" 1021 eq_refl _)); [|vm_compute; discriminate].
  refine (rtc_r _ w4 _ _ (st_put 1000 60 w4 1%nat "k" 20 (-990) 21 eq_refl _)); [|vm_compute; discriminate].
  refine (rtc_r _ w3 _ _ (st_ran 1000 60 w3 1%nat "k" (-990) 20 eq_refl _)); [|vm_compute; discriminate].
  refine (rtc_r _ w2 _ _ (st_read 1000 60 w2 1%nat "k" (-990) 12 eq_refl _)); [|vm_compute; discriminate].
  exact w2_reachable.
Qed.

Lemma well_keyed_none : well_keyed (M := Memory.t) None.
Proof. by intros m k r [=]. Qed.

Lemma once_is_once_witness :
  JMap.get (calls w2) 2%nat = Some (Returned (Ok false))
  /\ (forall c, (exists p o, JMap.get (calls w2) c = Some p /\ holds p = Some ("k", o)) -> c = 1%nat)
  /\ commits w9 = [("k", 1030); ("k", 20)] /\ 20 + 1000 < 1030.
Proof.
  split; [reflexivity|]. split; [|split; [reflexivity|]].
  - intros c (p & o & Hc & Hp).
    exact (proj1 (once_is_once (M := Memory.t) 1000 60 ltac:(lia) None 0 w2 well_keyed_none w2_reachable)
             c 1%nat p (Checking "k" (-990)) "k" o (-990) Hc eq_refl Hp eq_refl).
  - exact (proj2 (once_is_once (M := Memory.t) 1000 60 ltac:(lia) None 0 w9 well_keyed_none w9_reachable)
             0%nat 1%nat "k" 1030 20 ltac:(lia) eq_refl eq_refl).
Defined.
