(* ===== verification/Schedule.v ===== *)
(** * Schedules

    [src/cron/schedule.ts]: what a schedule may be and when it fires next.  The
    calendar arithmetic is the library Croner's and the list of time zones that of
    the runtime; both are parameters, with the one promise the source relies on:
    the next run after a moment is later than it. *)

From Stdlib Require Import ZArith Lia Ascii.
From S2P Require Import Prelude Collections.
Open Scope Z_scope.

(** A number handed in: an integer, a number strictly between [n] and [n + 1], an
    infinity or NaN. *)
Inductive JsNum := num_int (n : Z) | num_between (n : Z) | num_infinite (negative : bool) | num_nan.

Module CronSchedule.
Record t := mk {
  cron : option string; timezone : option string; everyMs : option JsNum; firstFireAt : option JsNum;
}.
End CronSchedule.

Definition DEFAULT_CRON_TIMEZONE : string := "America/Los_Angeles".
Definition DAY_MS : Z := 24 * 60 * 60 * 1000.
Definition MIN_RECURRING_CRON_MS : Z := 60000.

(** [Number.isFinite(v) && Number.isSafeInteger(v)] *)
Definition safeInteger (v : JsNum) : option Z :=
  match v with
  | num_int n => if (- (2 ^ 53) <? n) && (n <? 2 ^ 53) then Some n else None
  | _ => None
  end.

(** [v >= n] *)
Definition num_ge (v : JsNum) (n : Z) : bool :=
  match v with
  | num_int m | num_between m => n <=? m
  | num_infinite negative => negb negative
  | num_nan => false
  end.

(** [v < n] *)
Definition num_lt (v : JsNum) (n : Z) : bool :=
  match v with
  | num_int m | num_between m => m <? n
  | num_infinite negative => negative
  | num_nan => false
  end.

Definition isCalendarSchedule (schedule : CronSchedule.t) : bool :=
  match CronSchedule.cron schedule with Some _ => true | None => false end.

Definition finiteEpochMs (value : option JsNum) (name : string) : outcome (option Z) :=
  match value with
  | None => Ok None
  | Some v =>
      match safeInteger v with
      | Some n => Ok (Some n)
      | None => Throw (name +:+ " must be a finite integer timestamp in ms")
      end
  end.

Definition finitePositiveMs (value : option JsNum) (name : string) : outcome (option Z) :=
  match value with
  | None => Ok None
  | Some v =>
      match safeInteger v with
      | Some n => if n <=? 0 then Throw (name +:+ " must be a positive integer number of ms") else Ok (Some n)
      | None => Throw (name +:+ " must be a positive integer number of ms")
      end
  end.

Definition normalizeCronExpression (input : string) : outcome string :=
  let cron := Str.collapse false (Str.trim input) in
  if negb (length (Str.split " " cron) =? 5)%nat then Throw "schedule.cron must be a 5-field cron expression"
  else Ok cron.

Definition quoted (s : string) : string := String "034"%char (s +:+ String "034"%char EmptyString).

Definition DAILY_HINT : string :=
  "schedule.everyMs >= 24h is almost always a clock-time schedule in disguise — it anchors to an "
  +:+ "arbitrary epoch, has no timezone, and drifts with DST. Use {cron,timezone} for daily/weekly/monthly "
  +:+ "runs (e.g. { cron: " +:+ quoted "30 7 * * 1-5" +:+ ", timezone: " +:+ quoted "America/Los_Angeles"
  +:+ " }). Reserve everyMs for "
  +:+ "genuine sub-day polling where wall-clock time does not matter.".

Section schedule.
(** Whether the runtime knows a time zone; and Croner: the parsing of a pattern
    for a zone, which may fail, and the next run after a moment. *)
Variable validTimezone : string -> bool.
Variable croner : string -> string -> outcome (Z -> option Z).

Definition normalizeTimezone (input : option string) (fallback : string) : outcome string :=
  let trimmed := match input with Some s => Str.trim s | None => "" end in
  let tz := Str.trim (if Str.truthy trimmed then trimmed else fallback) in
  if validTimezone tz then Ok tz else Throw ("invalid IANA timezone: " +:+ tz).

Definition calendarJob (schedule : CronSchedule.t) : outcome (Z -> option Z) :=
  match CronSchedule.cron schedule with
  | Some cron =>
      if Str.truthy cron then
        let! tz := normalizeTimezone (CronSchedule.timezone schedule) DEFAULT_CRON_TIMEZONE in croner cron tz
      else Throw "schedule.cron is required"
  | None => Throw "schedule.cron is required"
  end.

Definition nextCalendarFireAfter (schedule : CronSchedule.t) (after : Z) : outcome (option Z) :=
  let! next := calendarJob schedule in Ok (next after).

(** The calendar part of [normalizeSchedule]. *)
Definition normalizeCalendar (cron : string) (input : CronSchedule.t) (now : Z) (defaultTimezone : string)
    : outcome (CronSchedule.t * Z) :=
  if negb (Str.truthy (Str.trim cron)) then Throw "schedule.cron must be a non-empty string" else
  match CronSchedule.everyMs input, CronSchedule.firstFireAt input with
  | None, None =>
      let! c := normalizeCronExpression cron in
      let! tz := normalizeTimezone (CronSchedule.timezone input) defaultTimezone in
      let schedule := CronSchedule.mk (Some c) (Some tz) None None in
      let! next := nextCalendarFireAfter schedule now in
      match next with
      | Some nextFireAt => Ok (schedule, nextFireAt)
      | None => Throw "schedule.cron has no future fire time"
      end
  | _, _ => Throw "schedule.cron cannot be combined with everyMs or firstFireAt"
  end.

Definition normalizeSchedule (input : CronSchedule.t) (now : Z) (defaultTimezone : string)
    : outcome (CronSchedule.t * Z) :=
  match CronSchedule.cron input with
  | Some cron => normalizeCalendar cron input now defaultTimezone
  | None =>
      match CronSchedule.timezone input with
      | Some _ => Throw "schedule.timezone requires schedule.cron"
      | None =>
          if match CronSchedule.everyMs input with Some v => num_ge v DAY_MS | None => false end
          then Throw DAILY_HINT
          else
            let! everyMs := finitePositiveMs (CronSchedule.everyMs input) "schedule.everyMs" in
            let! first := finiteEpochMs (CronSchedule.firstFireAt input) "schedule.firstFireAt" in
            let firstFireAt := match first with
                               | Some f => f
                               | None => match everyMs with Some e => now + e | None => now end
                               end in
            Ok (CronSchedule.mk None None (num_int <$> everyMs) (Some (num_int firstFireAt)), firstFireAt)
      end
  end.

Definition validateUserSchedule (schedule : CronSchedule.t) : outcome unit :=
  match CronSchedule.everyMs schedule with
  | Some v => if num_lt v MIN_RECURRING_CRON_MS
              then Throw ("schedule.everyMs must be at least " +:+ Str.showZ MIN_RECURRING_CRON_MS +:+ "ms") else Ok tt
  | None => Ok tt
  end.

Definition recoverNextFireAt (schedule : CronSchedule.t) (createdAt : Z) (lastFiredAt nextFireAt : option Z)
    : outcome (option Z) :=
  match nextFireAt with
  | Some n => finiteEpochMs (Some (num_int n)) "nextFireAt"
  | None =>
      if isCalendarSchedule schedule then nextCalendarFireAfter schedule (default createdAt lastFiredAt) else
      match lastFiredAt with
      | None =>
          let! first := finiteEpochMs (CronSchedule.firstFireAt schedule) "schedule.firstFireAt" in
          Ok (Some (default createdAt first))
      | Some last =>
          let! everyMs := finitePositiveMs (CronSchedule.everyMs schedule) "schedule.everyMs" in
          Ok (match everyMs with Some e => Some (last + e) | None => None end)
      end
  end.

Definition advanceNextFireAt (schedule : CronSchedule.t) (firedAt : Z) : outcome (option Z) :=
  if isCalendarSchedule schedule then nextCalendarFireAfter schedule firedAt else
  let! everyMs := finitePositiveMs (CronSchedule.everyMs schedule) "schedule.everyMs" in
  Ok (match everyMs with Some e => Some (firedAt + e) | None => None end).

(** ** Facts about expressions and zones *)
Lemma normalizeCron_spec t c :
  normalizeCronExpression t = Ok c ->
  Str.trim c = c /\ length (Str.split " " c) = 5%nat /\ normalizeCronExpression c = Ok c.
Proof.
  unfold normalizeCronExpression. destruct (_ =? 5)%nat eqn:E; cbn [negb]; [|done]. intros [= <-].
  rewrite Str.trim_collapse, Str.collapse_idem, E. apply Nat.eqb_eq in E. done.
Qed.

(** The runtime has no time zone of that name. *)
Hypothesis no_empty_zone : validTimezone "" = false.

Lemma normalizeTimezone_spec input fallback tz :
  normalizeTimezone input fallback = Ok tz ->
  validTimezone tz = true /\ forall other, normalizeTimezone (Some tz) other = Ok tz.
Proof.
  unfold normalizeTimezone. set (t := Str.trim _). destruct (validTimezone t) eqn:E; [|done]. intros [= <-].
  split; [done|]. intros other. assert (Str.trim t = t) as Ht by apply Str.trim_idem. rewrite Ht.
  assert (Str.truthy t = true) as ->; [|by rewrite Ht, E].
  apply Str.truthy_iff. intros Et. rewrite Et in E. by rewrite no_empty_zone in E.
Qed.

(** ** Facts about the next time *)
(** Croner's promise. *)
Hypothesis croner_later : forall pattern tz f after next, croner pattern tz = Ok f -> f after = Some next -> after < next.

Lemma nextCalendar_later s after next : nextCalendarFireAfter s after = Ok (Some next) -> after < next.
Proof.
  unfold nextCalendarFireAfter, calendarJob. destruct (CronSchedule.cron s) as [c|]; [|done].
  destruct (Str.truthy c); [|done]. destruct (normalizeTimezone _ _) as [tz|]; cbn [obind]; [|done].
  destruct (croner c tz) as [f|] eqn:E; cbn; [|done]. intros [= H]. by eapply croner_later.
Qed.

Lemma finitePositiveMs_pos v name e : finitePositiveMs v name = Ok (Some e) -> 0 < e /\ v = Some (num_int e).
Proof.
  unfold finitePositiveMs. destruct v as [v|]; [|done]. destruct (safeInteger v) as [n|] eqn:E; [|done].
  destruct (Z.leb_spec n 0); [done|]. intros [= <-]. split; [done|].
  unfold safeInteger in E. destruct v as [m|m|?|]; try done. destruct (_ && _); [|done]. by injection E as ->.
Qed.

Lemma advance_later s firedAt next : advanceNextFireAt s firedAt = Ok (Some next) -> firedAt < next.
Proof.
  unfold advanceNextFireAt. destruct (isCalendarSchedule s); [apply nextCalendar_later|].
  destruct (finitePositiveMs _ _) as [[e|]|] eqn:E; cbn; [|done|done]. intros [= <-].
  apply finitePositiveMs_pos in E as [? _]. lia.
Qed.

(** What a schedule in normal form is, with the time of its first fire. *)
Definition normalForm (now : Z) (s : CronSchedule.t) (next : Z) : Prop :=
  match CronSchedule.cron s with
  | Some c =>
      length (Str.split " " c) = 5%nat /\ now < next
      /\ (exists tz, CronSchedule.timezone s = Some tz /\ validTimezone tz = true)
      /\ CronSchedule.everyMs s = None /\ CronSchedule.firstFireAt s = None
  | None =>
      CronSchedule.timezone s = None /\ CronSchedule.firstFireAt s = Some (num_int next)
      /\ (CronSchedule.everyMs s = None \/ exists e, CronSchedule.everyMs s = Some (num_int e) /\ 0 < e < DAY_MS)
  end.

Lemma normalizeCalendar_spec cron input now dtz s next :
  normalizeCalendar cron input now dtz = Ok (s, next) ->
  normalForm now s next
  /\ (forall other, normalizeSchedule s now other = Ok (s, next))
  /\ nextCalendarFireAfter s now = Ok (Some next) /\ isCalendarSchedule s = true.
Proof.
  unfold normalizeCalendar. destruct (Str.truthy (Str.trim cron)); cbn [negb]; [|done].
  destruct (CronSchedule.everyMs input), (CronSchedule.firstFireAt input); try done.
  destruct (normalizeCronExpression cron) as [c|] eqn:Ec; cbn [obind]; [|done].
  destruct (normalizeTimezone _ dtz) as [tz|] eqn:Etz; cbn [obind]; [|done].
  destruct (nextCalendarFireAfter _ now) as [[n|]|] eqn:En; cbn [obind]; [|done|done]. intros [= <- <-].
  apply normalizeCron_spec in Ec as (Htrim & H5 & Hagain). apply normalizeTimezone_spec in Etz as [Hv Htz].
  split; [split_and!; try done; [by eapply nextCalendar_later|by exists tz]|].
  split; [|by rewrite En]. intros other. cbn. unfold normalizeCalendar. cbn [CronSchedule.everyMs CronSchedule.firstFireAt CronSchedule.timezone].
  rewrite Htrim, Hagain. cbn [obind]. rewrite Htz. cbn [obind]. rewrite En. cbn [obind].
  assert (Str.truthy c = true) as ->; [|done]. apply Str.truthy_iff. intros ->. by cbn in H5.
Qed.

Lemma safeInteger_int v n : safeInteger v = Some n -> v = num_int n.
Proof. destruct v; cbn; try done. destruct (_ && _); [|done]. by intros [= ->]. Qed.

Lemma finiteEpochMs_spec v name n : finiteEpochMs v name = Ok (Some n) -> v = Some (num_int n).
Proof. unfold finiteEpochMs. destruct v as [v|]; [|done]. destruct (safeInteger v) eqn:E; [|done]. intros [= <-]. by rewrite (safeInteger_int _ _ E). Qed.

(** C34: normalised schedules are in normal form.  A schedule that is accepted is
    either a five-field expression with a known time zone, firing next strictly
    after now, or a one-off or interval of less than a day with its first time, and
    never both; normalising it again, with any default time zone, gives the same
    schedule and time; and what a store without the next time would recover for it
    is that time too. *)
Theorem schedule_normal_form (input : CronSchedule.t) (now : Z) (dtz : string) (s : CronSchedule.t) (next : Z) :
  normalizeSchedule input now dtz = Ok (s, next) ->
  normalForm now s next
  /\ (- 2 ^ 53 < next < 2 ^ 53 -> forall other, normalizeSchedule s now other = Ok (s, next))
  /\ (- 2 ^ 53 < next < 2 ^ 53 -> recoverNextFireAt s now None None = Ok (Some next)
      /\ recoverNextFireAt s now None (Some next) = Ok (Some next)).
Proof.
  intros Hn. assert (- 2 ^ 53 < next < 2 ^ 53 -> safeInteger (num_int next) = Some next) as Hsafe.
  { intros [H1 H2]. cbn. apply Z.ltb_lt in H1, H2. by rewrite H1, H2. }
  assert (- 2 ^ 53 < next < 2 ^ 53 -> recoverNextFireAt s now None (Some next) = Ok (Some next)) as Hrec.
  { intros Hr. unfold recoverNextFireAt, finiteEpochMs. by rewrite (Hsafe Hr). }
  unfold normalizeSchedule in Hn. destruct (CronSchedule.cron input) as [cron|] eqn:Ecron.
  { apply normalizeCalendar_spec in Hn as (H1 & H2 & H3 & H4). split_and!; auto. intros Hr. split; [|auto].
    unfold recoverNextFireAt. by rewrite H4. }
  destruct (CronSchedule.timezone input); [done|].
  destruct (match CronSchedule.everyMs input with Some _ => _ | None => _ end) eqn:Eday; [done|].
  destruct (finitePositiveMs _ _) as [every|] eqn:Ee; cbn [obind] in Hn; [|done].
  destruct (finiteEpochMs _ _) as [first|] eqn:Ef; cbn [obind] in Hn; [|done].
  assert (every = None \/ exists e, every = Some e /\ 0 < e < DAY_MS /\ finitePositiveMs (Some (num_int e)) "schedule.everyMs" = Ok (Some e)) as He.
  { destruct every as [e|]; [|by left]. right. exists e. pose proof (finitePositiveMs_pos _ _ _ Ee) as [? Hv].
    rewrite Hv in Ee, Eday. cbn [num_ge] in Eday. apply Z.leb_gt in Eday. split_and!; [done|lia..|exact Ee]. }
  injection Hn as <- Hnext. rewrite !Hnext in *. clear Hnext.
  split.
  - split_and!; try done. destruct He as [->|(e & -> & ? & _)]; cbn; [by left|right; eauto].
  - assert (- 2 ^ 53 < next < 2 ^ 53 -> finiteEpochMs (Some (num_int next)) "schedule.firstFireAt" = Ok (Some next)) as Hfirst.
    { intros Hr. unfold finiteEpochMs. by rewrite (Hsafe Hr). }
    split; intros Hr.
    + intros other. unfold normalizeSchedule. cbn [CronSchedule.cron CronSchedule.timezone CronSchedule.everyMs CronSchedule.firstFireAt].
      rewrite (Hfirst Hr). destruct He as [->|(e & -> & [_ Hd] & Hfp)]; cbn [fmap option_fmap option_map]; [done|].
      cbn [num_ge]. apply Z.leb_gt in Hd. rewrite Hd, Hfp. done.
    + split; [|by apply Hrec]. unfold recoverNextFireAt. cbn [isCalendarSchedule CronSchedule.cron CronSchedule.firstFireAt].
      by rewrite (Hfirst Hr).
Qed.

Lemma finiteEpochMs_accepts v name :
  (exists e, finiteEpochMs v name = Ok e) <-> v = None \/ exists n, v = Some (num_int n) /\ - 2 ^ 53 < n < 2 ^ 53.
Proof.
  destruct v as [[m|m|b|]|]; cbn; split; try (by intros [|(? & ? & ?)]); try (by intros [? ?]); try (by intros _; eauto).
  - destruct (_ && _) eqn:E; [|by intros [? ?]]. intros _. right. exists m. js_bool. split; [done|lia].
  - intros [|(n & [= <-] & H1 & H2)]; [done|]. apply Z.ltb_lt in H1, H2. rewrite H1, H2. by eexists.
Qed.

Lemma calendar_accepted input cron now dtz :
  (exists r, normalizeCalendar cron input now dtz = Ok r) <->
  CronSchedule.everyMs input = None /\ CronSchedule.firstFireAt input = None
  /\ exists c tz f next, Str.collapse false (Str.trim cron) = c /\ length (Str.split " " c) = 5%nat
      /\ normalizeTimezone (CronSchedule.timezone input) dtz = Ok tz /\ croner c tz = Ok f /\ f now = Some next.
Proof.
  unfold normalizeCalendar, nextCalendarFireAfter, calendarJob, normalizeCronExpression.
  cbn [CronSchedule.cron CronSchedule.timezone]. set (c := Str.collapse false (Str.trim cron)).
  assert (length (Str.split " " c) = 5%nat -> Str.truthy (Str.trim cron) = true /\ Str.truthy c = true) as Htruthy.
  { intros H5. subst c. destruct (Str.trim cron); [done|]. split; [done|]. apply Str.truthy_iff. intros E. by rewrite E in H5. }
  split.
  - intros [r Hr]. destruct (Str.truthy (Str.trim cron)); cbn [negb] in Hr; [|done].
    destruct (CronSchedule.everyMs input), (CronSchedule.firstFireAt input); try done.
    destruct (_ =? 5)%nat eqn:E5; cbn [negb obind] in Hr; [|done]. apply Nat.eqb_eq in E5.
    destruct (normalizeTimezone _ dtz) as [tz|] eqn:Etz; cbn [obind] in Hr; [|done].
    destruct (Htruthy E5) as [_ Hc]. rewrite Hc in Hr. apply normalizeTimezone_spec in Etz as Hz. destruct Hz as [_ Hz].
    rewrite Hz in Hr. cbn [obind] in Hr. destruct (croner c tz) as [f|] eqn:Ef; cbn [obind] in Hr; [|done].
    destruct (f now) as [n|] eqn:En; [|done]. split_and!; try done. exists c, tz, f, n. by split_and!.
  - intros (-> & -> & c' & tz & f & n & <- & H5 & Htz & Hf & Hn). destruct (Htruthy H5) as [-> Hc]. cbn [negb].
    apply Nat.eqb_eq in H5. rewrite H5. cbn [negb obind]. rewrite Htz. cbn [obind]. rewrite Hc.
    apply normalizeTimezone_spec in Htz as [_ ->]. cbn [obind]. rewrite Hf. cbn. rewrite Hn. by eexists.
Qed.

(** Exactly the sensible schedules are accepted.  An expression is accepted
    when nothing else but a time zone is given, it has five fields, the zone is
    known, Croner can parse it and it has a run after now; anything without an
    expression when it has no time zone, no interval or one of a positive whole
    number of milliseconds below a day, and no first time or a whole one in the
    safe range.  Everything else is refused with an error. *)
Theorem schedule_accepted_exactly (input : CronSchedule.t) (now : Z) (dtz : string) :
  (exists r, normalizeSchedule input now dtz = Ok r) <->
  match CronSchedule.cron input with
  | Some cron =>
      CronSchedule.everyMs input = None /\ CronSchedule.firstFireAt input = None
      /\ exists c tz f next, Str.collapse false (Str.trim cron) = c /\ length (Str.split " " c) = 5%nat
          /\ normalizeTimezone (CronSchedule.timezone input) dtz = Ok tz
          /\ croner c tz = Ok f /\ f now = Some next
  | None =>
      CronSchedule.timezone input = None
      /\ (CronSchedule.everyMs input = None \/ exists e, CronSchedule.everyMs input = Some (num_int e) /\ 0 < e < DAY_MS)
      /\ (CronSchedule.firstFireAt input = None
          \/ exists n, CronSchedule.firstFireAt input = Some (num_int n) /\ - 2 ^ 53 < n < 2 ^ 53)
  end.
Proof.
  unfold normalizeSchedule. destruct (CronSchedule.cron input) as [cron|]; [apply calendar_accepted|].
  pose proof (finiteEpochMs_accepts (CronSchedule.firstFireAt input) "schedule.firstFireAt") as Hfirst.
  destruct (CronSchedule.timezone input); [split; [by intros [? ?]|by intros [? _]]|].
  destruct (CronSchedule.everyMs input) as [v|]; [|cbn [finitePositiveMs obind]].
  - destruct v as [m|m|b|]; cbn [num_ge finitePositiveMs safeInteger].
    2-4: split; [|by intros (_ & [|(? & ? & ?)] & _)].
    2: by destruct (_ <=? _); intros [? ?].
    2: by destruct b; intros [? ?].
    2: by intros [? ?].
    destruct (Z.leb_spec DAY_MS m) as [Hd|Hd]; [split; [by intros [? ?]|intros (_ & [|(e & [= <-] & ?)] & _); [done|lia]]|].
    destruct (_ && _) eqn:E; cbn [obind].
    * destruct (Z.leb_spec m 0) as [H0|H0]; [split; [by intros [? ?]|intros (_ & [|(e & [= <-] & ?)] & _); [done|lia]]|].
      cbn [obind]. rewrite <- Hfirst. destruct (finiteEpochMs _ _) as [e|] eqn:Ee; cbn; split; try (by intros [? ?]).
      -- intros _. split_and!; eauto 10.
      -- by eexists.
      -- by intros (_ & _ & ? & ?).
    * split; [by intros [? ?]|]. intros (_ & [|(e & [= <-] & H1 & H2)] & _); [done|].
      apply andb_false_iff in E as [?%Z.ltb_ge|?%Z.ltb_ge]; unfold DAY_MS in *; lia.
  - rewrite <- Hfirst. destruct (finiteEpochMs _ _) as [e|]; cbn; split; try (by intros [? ?]).
    * intros _. split_and!; eauto.
    * by eexists.
    * by intros (_ & _ & ? & ?).
Qed.
End schedule.

(** A calendar that fires every day at midnight UTC. *)
Definition midnights (_ _ : string) : outcome (Z -> option Z) := Ok (fun t => Some ((t / DAY_MS + 1) * DAY_MS)).

Definition utcOnly (zone : string) : bool := zone === "UTC".

Lemma midnights_later pattern tz f after next : midnights pattern tz = Ok f -> f after = Some next -> after < next.
Proof.
  intros [= <-] [= <-]. unfold DAY_MS. pose proof (Z.mod_pos_bound after (24 * 60 * 60 * 1000)).
  rewrite (Z.div_mod after (24 * 60 * 60 * 1000)) at 1; lia.
Qed.

Lemma schedule_normal_form_witness :
  let s := CronSchedule.mk (Some "0 0 * * *") (Some "UTC") None None in
  normalForm utcOnly 5 s DAY_MS /\ recoverNextFireAt utcOnly midnights s 5 None None = Ok (Some DAY_MS).
Proof.
  intros s.
  destruct (schedule_normal_form utcOnly midnights ltac:(vm_compute; reflexivity) midnights_later
    (CronSchedule.mk (Some " 0  0 * * * ") None None None) 5 "UTC" s DAY_MS ltac:(vm_compute; reflexivity)) as (H1 & _ & H2).
  split; [exact H1|]. apply H2. unfold DAY_MS. lia.
Defined.

Lemma schedule_accepted_exactly_witness :
  exists r, normalizeSchedule utcOnly midnights (CronSchedule.mk None None (Some (num_int 60000)) None) 5 "UTC" = Ok r.
Proof.
  apply (schedule_accepted_exactly utcOnly midnights ltac:(vm_compute; reflexivity)
    (CronSchedule.mk None None (Some (num_int 60000)) None) 5 "UTC").
  split; [reflexivity|]. split; [right; exists 60000; split; [reflexivity|unfold DAY_MS; lia]|by left].
Defined.
