(* ===== verification/Cron.v ===== *)
(** * Scheduled jobs

    [Trigger] is [src/triggers/trigger-store.ts]: ownership and consent, shared by
    all triggers.  [Cron] is the record and [src/cron/cron-store.ts] over a durable
    map.  [Scheduler] is [src/cron/scheduler.ts]: firing what is due, claiming a
    slot before it is fired and giving it back when the run fails.  The run itself
    ([triggers/run-trigger.ts]) and the job queue are parameters of the handlers;
    the keys handed to the one and the jobs handed to the other are logs in the
    state. *)

From Stdlib Require Import ZArith Lia Ascii.
From S2P Require Import Prelude Collections Scopes DurableMap Runs Turns Schedule.
Open Scope Z_scope.

(** ** Triggers *)
Inductive ConsentStatus := consent_pending | consent_accepted | consent_declined.
#[global] Instance ConsentStatus_eq_dec : EqDecision ConsentStatus.
Proof. solve_decision. Defined.

Module RecipientConsent.
Record t := mk { recipientId : string; status : ConsentStatus; decidedAt : option Z }.
End RecipientConsent.

Module Trigger.

Definition consentRequiredRecipient (owner : string) (standing : bool) (destination : option Destination.t)
    : option string :=
  if negb standing then None else
  match destination with
  | Some d =>
      if (Destination.type d === "principal") && negb (samePerson (Some (Destination.target d)) (Some owner))
      then Some (Destination.target d) else None
  | None => None
  end.

Definition recipientConsentSatisfied (recipientConsent : option RecipientConsent.t)
    (requiredRecipient : option string) : bool :=
  match requiredRecipient with
  | Some r =>
      if Str.truthy r then
        match recipientConsent with
        | Some c => (RecipientConsent.status c === consent_accepted)
                    && samePerson (Some (RecipientConsent.recipientId c)) (Some r)
        | None => false
        end
      else match recipientConsent with Some c => RecipientConsent.status c === consent_accepted | None => true end
  | None => match recipientConsent with Some c => RecipientConsent.status c === consent_accepted | None => true end
  end.

Inductive ConsentRefusal := no_consent | not_recipient.

Definition decideRecipientConsent (current : option RecipientConsent.t) (actorId : string) (accept : bool) (now : Z)
    : RecipientConsent.t + ConsentRefusal :=
  match current with
  | None => inr no_consent
  | Some c =>
      if negb (samePerson (Some (RecipientConsent.recipientId c)) (Some actorId)) then inr not_recipient
      else inl (RecipientConsent.mk (RecipientConsent.recipientId c)
                  (if accept then consent_accepted else consent_declined) (Some now))
  end.

(** [!input.ownerConsentedAt] is also true of 0. *)
Definition assertNoEscalation (owner createdBy : string) (ownerConsentedAt : option Z) : outcome unit :=
  if negb (samePerson (Some owner) (Some createdBy))
     && match ownerConsentedAt with Some n => n =? 0 | None => true end
  then Throw "assigning a different owner requires that owner's consent" else Ok tt.

(** The fields of every object in the order of their names. *)
Fixpoint sortKeys (v : json) : json :=
  match v with
  | JArr l => JArr (map sortKeys l)
  | JObj fields =>
      JObj (Arr.sort (fun a b => Str.leb a.1 b.1) (map (fun p => (p.1, sortKeys p.2)) fields))
  | _ => v
  end.

Section content.
Variable jsonStringify : json -> string.

Definition contentPart (value : json) : string :=
  match value with JUndefined => "" | _ => jsonStringify (sortKeys value) end.
End content.

Section store.
Context {M : Type -> Type} `{DurableMap M}.

Definition createDeduped {T} (contentId : string) (build : string -> T) (backing : M T) : T * M T :=
  dm_putIfAbsent contentId (build contentId) backing.
End store.
End Trigger.

(** ** Crons *)
Module FireLog.
Record t := mk {
  fireKey : string; threadRef : string; firedAt : Z; scheduledAt : option Z; status : option TurnStatus.t;
  note : option string; reply : option string; sessionId : option string;
}.
End FireLog.

Inductive RunAs := as_owner | as_scopeFloor | as_scopeShared.

Module Cron.
Record t := mk {
  id : string; ownerScopeId : ScopeId; owner : string; createdBy : string; ownerConsentedAt : option Z;
  destination : option Destination.t; enabled : bool; createdAt : Z; lastFiredAt : option Z;
  recipientConsent : option RecipientConsent.t;
  schedule : CronSchedule.t; nextFireAt : option Z; title : option string; archived : bool;
  action : option string; message : option string; runAs : option RunAs; members : option (list Principal.t);
  fireLog : list FireLog.t;
}.

(** The spreads [{ ...cron, field }] of the store. *)
Definition withFired (c : t) (last next : option Z) : t :=
  mk (id c) (ownerScopeId c) (owner c) (createdBy c) (ownerConsentedAt c) (destination c) (enabled c) (createdAt c)
    last (recipientConsent c) (schedule c) next (title c) (archived c) (action c) (message c) (runAs c) (members c) (fireLog c).
Definition withEnabled (c : t) (e a : bool) : t :=
  mk (id c) (ownerScopeId c) (owner c) (createdBy c) (ownerConsentedAt c) (destination c) e (createdAt c)
    (lastFiredAt c) (recipientConsent c) (schedule c) (nextFireAt c) (title c) a (action c) (message c) (runAs c) (members c) (fireLog c).
Definition withDestination (c : t) (d : option Destination.t) : t :=
  mk (id c) (ownerScopeId c) (owner c) (createdBy c) (ownerConsentedAt c) d (enabled c) (createdAt c)
    (lastFiredAt c) (recipientConsent c) (schedule c) (nextFireAt c) (title c) (archived c) (action c) (message c) (runAs c) (members c) (fireLog c).
Definition withConsent (c : t) (r : RecipientConsent.t) : t :=
  mk (id c) (ownerScopeId c) (owner c) (createdBy c) (ownerConsentedAt c) (destination c) (enabled c) (createdAt c)
    (lastFiredAt c) (Some r) (schedule c) (nextFireAt c) (title c) (archived c) (action c) (message c) (runAs c) (members c) (fireLog c).
Definition withFireLog (c : t) (l : list FireLog.t) : t :=
  mk (id c) (ownerScopeId c) (owner c) (createdBy c) (ownerConsentedAt c) (destination c) (enabled c) (createdAt c)
    (lastFiredAt c) (recipientConsent c) (schedule c) (nextFireAt c) (title c) (archived c) (action c) (message c) (runAs c) (members c) l.
End Cron.

Record CreateCronInput := mkCronInput {
  ci_ownerScopeId : ScopeId; ci_owner : string; ci_createdBy : string; ci_destination : option Destination.t;
  ci_ownerConsentedAt : option Z; ci_recipientConsent : option RecipientConsent.t;
  ci_schedule : CronSchedule.t; ci_title : option string; ci_action : option string; ci_message : option string;
  ci_runAs : option RunAs; ci_members : option (list Principal.t);
}.

Record CronPatch := mkCronPatch {
  cp_title : option string; cp_action : option string; cp_message : option string;
  cp_schedule : option CronSchedule.t; cp_enabled : option bool; cp_archived : option bool;
  cp_destination : option Destination.t; cp_members : option (list Principal.t); cp_runAs : option RunAs;
}.

Definition normalizeTitle (title : option string) : option string :=
  match title with
  | None => None
  | Some t =>
      let trimmed := Str.collapse false (Str.trim t) in
      if negb (Str.truthy trimmed) then None
      else Some (if (80 <? String.length trimmed)%nat then Str.take 79 trimmed +:+ "..." else trimmed)
  end.

(** *** The parts the content id is made of, as JSON values *)
Definition jopt {A} (f : A -> json) (o : option A) : json := match o with Some a => f a | None => JUndefined end.

Definition jobj (fields : list (string * json)) : json :=
  JObj (List.filter (fun p => match p.2 with JUndefined => false | _ => true end) fields).

(** JSON has no other numbers than integers here: schedules with others are
    refused before. *)
Definition numJson (v : JsNum) : json := match v with num_int n => JNum n | _ => JNull end.

Definition scheduleJson (s : CronSchedule.t) : json :=
  jobj [("cron", jopt JStr (CronSchedule.cron s)); ("timezone", jopt JStr (CronSchedule.timezone s));
        ("everyMs", jopt numJson (CronSchedule.everyMs s)); ("firstFireAt", jopt numJson (CronSchedule.firstFireAt s))].

Definition taskStatusName (s : TaskStatus) : string :=
  match s with
  | task_pending => "pending" | task_in_progress => "in_progress" | task_completed => "completed"
  | task_skipped => "skipped" | task_failed => "failed"
  end.

Definition destinationJson (d : Destination.t) : json :=
  jobj [("type", JStr (Destination.type d)); ("target", JStr (Destination.target d));
        ("audienceScopeId", jopt JStr (Destination.audienceScopeId d)); ("onBehalfOf", jopt JStr (Destination.onBehalfOf d));
        ("editRef", jopt JStr (Destination.editRef d));
        ("taskList", jopt (fun l => JArr (map (fun t => JObj [("id", JStr t.1.1); ("title", JStr t.1.2);
           ("status", JStr (taskStatusName t.2))]) l)) (Destination.taskList d));
        ("unfurlLinks", jopt JBool (Destination.unfurlLinks d));
        ("react", jopt (fun r => JObj [("messageTs", JStr r.1); ("emoji", JStr r.2)]) (Destination.react d));
        ("delete", jopt (fun ts => JObj [("messageTs", JStr ts)]) (Destination.delete_ d));
        ("identity", jopt JStr (Destination.identity d)); ("debugFooter", jopt JStr (Destination.debugFooter d))].

Definition runAsName (r : RunAs) : string :=
  match r with as_owner => "owner" | as_scopeFloor => "scopeFloor" | as_scopeShared => "scopeShared" end.

Definition principalJson (p : Principal.t) : json :=
  jobj [("id", JStr (Principal.id p));
        ("type", JStr (match Principal.type p with internal => "internal" | guest => "guest" end));
        ("teamIds", jopt (fun l => JArr (map JStr l)) (Principal.teamIds p));
        ("displayName", jopt JStr (Principal.displayName p))].

Module FireJob.
Record t := mk { cronId : string; scheduledAt : Z }.
End FireJob.

(** What a run of a trigger reports. *)
Module TriggerOutcome.
Record t := mk {
  authzFailed : bool; ran : bool; status : option TurnStatus.t; note : option string; reply : option string;
  sessionId : option string;
}.
End TriggerOutcome.

Section store.
Context {M : Type -> Type} `{DurableMapLaws M}.
Variable validTimezone : string -> bool.
Variable croner : string -> string -> outcome (Z -> option Z).
Variable jsonStringify : json -> string.
(** A hash of the parts, shortened to a number of digits. *)
Variable hashId : list string -> nat -> string.

(** *** The store *)
Definition contentId (input : CreateCronInput) (title : option string) : string :=
  let part := Trigger.contentPart jsonStringify in
  hashId [part (JStr (ci_owner input)); part (JStr (ci_ownerScopeId input)); part (scheduleJson (ci_schedule input));
          part (jopt JStr (ci_action input)); part (jopt JStr (ci_message input));
          part (jopt destinationJson (ci_destination input));
          part (jopt (fun r => JStr (runAsName r)) (ci_runAs input));
          part (jopt (fun l => JArr (map principalJson l)) (ci_members input));
          part (jopt JStr title)] 16.

Definition create (input : CreateCronInput) (now : Z) (m : M Cron.t) : outcome (Cron.t * M Cron.t) :=
  let! _ := Trigger.assertNoEscalation (ci_owner input) (ci_createdBy input) (ci_ownerConsentedAt input) in
  let title := normalizeTitle (ci_title input) in
  let! s := normalizeSchedule validTimezone croner (ci_schedule input) now DEFAULT_CRON_TIMEZONE in
  let consented := match ci_ownerConsentedAt input with
                   | Some n => if n =? 0 then None else Some n | None => None end in
  Ok (Trigger.createDeduped (contentId input title) (fun i =>
        Cron.mk i (ci_ownerScopeId input) (ci_owner input) (ci_createdBy input) consented (ci_destination input)
          true now None (ci_recipientConsent input) s.1 (Some s.2) title false (ci_action input) (ci_message input)
          (ci_runAs input) (ci_members input) []) m).

Definition patched {A} (old : option A) (new : option A) : option A := match new with Some _ => new | None => old end.

Definition update (id : string) (patch : CronPatch) (now : Z) (m : M Cron.t) : outcome (option Cron.t * M Cron.t) :=
  let! s := match cp_schedule patch with
            | Some s => let! n := normalizeSchedule validTimezone croner s now DEFAULT_CRON_TIMEZONE in Ok (Some n)
            | None => Ok None
            end in
  Ok (dm_update id (fun c =>
    Cron.mk (Cron.id c) (Cron.ownerScopeId c) (Cron.owner c) (Cron.createdBy c) (Cron.ownerConsentedAt c)
      (patched (Cron.destination c) (cp_destination patch))
      (match cp_archived patch with Some true => false | _ => default (Cron.enabled c) (cp_enabled patch) end)
      (Cron.createdAt c) (Cron.lastFiredAt c) (Cron.recipientConsent c)
      (match s with Some n => n.1 | None => Cron.schedule c end)
      (match s with Some n => Some n.2 | None => Cron.nextFireAt c end)
      (match cp_title patch with Some t => normalizeTitle (Some t) | None => Cron.title c end)
      (default (Cron.archived c) (cp_archived patch))
      (patched (Cron.action c) (cp_action patch)) (patched (Cron.message c) (cp_message patch))
      (patched (Cron.runAs c) (cp_runAs patch)) (patched (Cron.members c) (cp_members patch)) (Cron.fireLog c)) m).

Definition setEnabled (id : string) (enabled : bool) (m : M Cron.t) : M Cron.t :=
  (dm_update id (fun c => Cron.withEnabled c enabled (if enabled then false else Cron.archived c)) m).2.

Definition setDestination (id : string) (destination : option Destination.t) (m : M Cron.t) : M Cron.t :=
  (dm_update id (fun c => Cron.withDestination c destination) m).2.

Definition setRecipientConsent (id : string) (consent : RecipientConsent.t) (m : M Cron.t) : M Cron.t :=
  (dm_update id (fun c => Cron.withConsent c consent) m).2.

(** [{ ...old, ...entry }] for entries of the log *)
Definition mergeEntry (old : option FireLog.t) (entry : FireLog.t) : FireLog.t :=
  match old with
  | None => entry
  | Some o =>
      FireLog.mk (FireLog.fireKey entry) (FireLog.threadRef entry) (FireLog.firedAt entry)
        (patched (FireLog.scheduledAt o) (FireLog.scheduledAt entry)) (patched (FireLog.status o) (FireLog.status entry))
        (patched (FireLog.note o) (FireLog.note entry)) (patched (FireLog.reply o) (FireLog.reply entry))
        (patched (FireLog.sessionId o) (FireLog.sessionId entry))
  end.

Definition addEntry (entry : FireLog.t) (c : Cron.t) : Cron.t :=
  let byKey := foldl (fun l e => JMap.set l (FireLog.fireKey e) e) [] (Cron.fireLog c) in
  let byKey := JMap.set byKey (FireLog.fireKey entry) (mergeEntry (JMap.get byKey (FireLog.fireKey entry)) entry) in
  Cron.withFireLog c (Arr.sort (Arr.by_key FireLog.firedAt) (JMap.values byKey)).

Definition recordFire (id : string) (entry : FireLog.t) (m : M Cron.t) : M Cron.t := (dm_update id (addEntry entry) m).2.

Definition nextSlot (c : Cron.t) : outcome (option Z) :=
  recoverNextFireAt validTimezone croner (Cron.schedule c) (Cron.createdAt c) (Cron.lastFiredAt c) (Cron.nextFireAt c).

Definition advance (schedule : CronSchedule.t) (at_ : Z) : outcome (option Z) :=
  advanceNextFireAt validTimezone croner schedule at_.

Definition markFired (id : string) (at_ : Z) (scheduledAt : option Z) (m : M Cron.t) : outcome (M Cron.t) :=
  match dm_get id m with
  | None => Ok m
  | Some c =>
      let advanceFrom := if isCalendarSchedule (Cron.schedule c) then default at_ scheduledAt else at_ in
      let! next := advance (Cron.schedule c) advanceFrom in
      Ok (dm_update id (fun c => Cron.withFired c (Some at_) next) m).2
  end.

(** The function given to the map's update: whether the slot was claimed, and the
    new record. *)
Definition claimTransform (scheduledAt at_ : Z) (c : Cron.t) : outcome (bool * Cron.t) :=
  if Cron.archived c || negb (Cron.enabled c) then Ok (false, c) else
  let! slot := nextSlot c in
  if slot !== Some scheduledAt then Ok (false, c) else
  let advanceFrom := if isCalendarSchedule (Cron.schedule c) then scheduledAt else at_ in
  let! next := advance (Cron.schedule c) advanceFrom in
  Ok (true, Cron.withFired c (Some at_) next).

(** When the function throws, the map is as it was. *)
Definition claimSlot (id : string) (scheduledAt at_ : Z) (m : M Cron.t) : outcome bool * M Cron.t :=
  match dm_get id m with
  | None => (Ok false, m)
  | Some c =>
      match claimTransform scheduledAt at_ c with
      | Throw e => (Throw e, m)
      | Ok (claimed, c') => (Ok claimed, (dm_update id (fun _ => c') m).2)
      end
  end.

Definition restore (scheduledAt at_ : Z) (priorLastFiredAt : option Z) (c : Cron.t) : Cron.t :=
  if Cron.lastFiredAt c !== Some at_ then c else Cron.withFired c priorLastFiredAt (Some scheduledAt).

Definition unclaimSlot (id : string) (scheduledAt at_ : Z) (priorLastFiredAt : option Z) (m : M Cron.t) : M Cron.t :=
  (dm_update id (restore scheduledAt at_ priorLastFiredAt) m).2.

Fixpoint dueAmong (l : list Cron.t) (now : Z) : outcome (list (Cron.t * Z)) :=
  match l with
  | [] => Ok []
  | c :: rest =>
      if Cron.archived c || negb (Cron.enabled c) then dueAmong rest now else
      let! slot := nextSlot c in
      let! others := dueAmong rest now in
      Ok (match slot with
          | Some s => if s <=? now then (Cron.withFired c (Cron.lastFiredAt c) (Some s), s) :: others else others
          | None => others
          end)
  end.

Definition due (now : Z) (m : M Cron.t) : outcome (list (Cron.t * Z)) := dueAmong (dm_all m) now.

(** *** The scheduler *)
Definition CRON_FIRE_REPLY_MAX_CHARS : nat := 2000.

Definition truncate (s : string) (maxChars : nat) : string :=
  if (String.length s <=? maxChars)%nat then s else Str.take (maxChars - 3) s +:+ "...".

Definition cronFireLogReply (s : string) : string :=
  if Str.includes s "[Cron runtime context]" || Str.includes s "[End cron runtime context]"
  then "[reply echoed cron runtime context; omitted]" else truncate s CRON_FIRE_REPLY_MAX_CHARS.

Definition cronFireThreadRef (cronId fireKey : string) : string := "cron:" +:+ cronId +:+ ":fire:" +:+ hashId [fireKey] 12.

(** The crons, the keys of the runs started and the jobs sent to the queue. *)
Record Sched := mkSched { s_crons : M Cron.t; started : list string; sent : list FireJob.t }.
Definition withCrons (st : Sched) (m : M Cron.t) : Sched := mkSched m (started st) (sent st).
Definition enqueueFire (job : FireJob.t) (st : Sched) : Sched := mkSched (s_crons st) (started st) (sent st ++ [job]).

(** The run of the trigger of a cron for a fire key: it is recorded as started,
    then it reports or throws. *)
Variable runTrigger : Cron.t -> string -> outcome TriggerOutcome.t.

Definition truthyNote (o : option string) : option string :=
  match o with Some s => if Str.truthy s then Some s else None | None => None end.

Definition oneShot (s : CronSchedule.t) : bool :=
  match CronSchedule.everyMs s, CronSchedule.cron s with None, None => true | _, _ => false end.

(** Whether the authorisation failed. *)
Definition fire (c : Cron.t) (t : Z) (fireKey : string) (scheduledAt : option Z) (st : Sched) : outcome bool * Sched :=
  let threadRef := cronFireThreadRef (Cron.id c) fireKey in
  let st := mkSched (s_crons st) (started st ++ [fireKey]) (sent st) in
  match runTrigger c fireKey with
  | Throw e =>
      let entry := FireLog.mk fireKey threadRef t scheduledAt (Some TurnStatus.failed)
                     (Some (truncate e CRON_FIRE_REPLY_MAX_CHARS)) None None in
      (Throw e, withCrons st (recordFire (Cron.id c) entry (s_crons st)))
  | Ok o =>
      let entry := FireLog.mk fireKey threadRef t scheduledAt (TriggerOutcome.status o)
                     ((fun n => truncate n CRON_FIRE_REPLY_MAX_CHARS) <$> truthyNote (TriggerOutcome.note o))
                     (cronFireLogReply <$> TriggerOutcome.reply o) (truthyNote (TriggerOutcome.sessionId o)) in
      let st := if TriggerOutcome.ran o || TriggerOutcome.authzFailed o
                then withCrons st (recordFire (Cron.id c) entry (s_crons st)) else st in
      if TriggerOutcome.authzFailed o then (Ok true, withCrons st (setEnabled (Cron.id c) false (s_crons st)))
      else
        (Ok false, if oneShot (Cron.schedule c) then withCrons st (setEnabled (Cron.id c) false (s_crons st)) else st)
  end.

Definition slotKey (c : Cron.t) (slot : Z) : string := "cron:" +:+ Cron.id c +:+ ":" +:+ Str.showZ slot.

(** [fireDue], cut off by the first error. *)
Fixpoint fireBatch (batch : list (Cron.t * Z)) (t : Z) (st : Sched) : outcome unit * Sched :=
  match batch with
  | [] => (Ok tt, st)
  | (c, slot) :: rest =>
      match fire c t (slotKey c slot) (Some slot) st with
      | (Throw e, st) => (Throw e, st)
      | (Ok true, st) => fireBatch rest t st
      | (Ok false, st) =>
          match markFired (Cron.id c) t (Some slot) (s_crons st) with
          | Throw e => (Throw e, st)
          | Ok m => fireBatch rest t (withCrons st m)
          end
      end
  end.

Definition fireDue (maxFiresPerTick : nat) (t : Z) (st : Sched) : outcome unit * Sched :=
  match due t (s_crons st) with
  | Throw e => (Throw e, st)
  | Ok l => fireBatch (take maxFiresPerTick l) t st
  end.

Definition enqueueNext (cronId : string) (st : Sched) : outcome unit * Sched :=
  match dm_get cronId (s_crons st) with
  | None => (Ok tt, st)
  | Some c =>
      if Cron.archived c || negb (Cron.enabled c) then (Ok tt, st) else
      match nextSlot c with
      | Throw e => (Throw e, st)
      | Ok (Some slot) => (Ok tt, enqueueFire (FireJob.mk cronId slot) st)
      | Ok None => (Ok tt, st)
      end
  end.

(** Handling a job from the queue; [t] is the time it is handled at. *)
Definition fireJob (job : FireJob.t) (t : Z) (st : Sched) : outcome unit * Sched :=
  match dm_get (FireJob.cronId job) (s_crons st) with
  | None => (Ok tt, st)
  | Some c =>
      if Cron.archived c || negb (Cron.enabled c) then (Ok tt, st) else
      match nextSlot c with
      | Throw e => (Throw e, st)
      | Ok slot =>
          if slot !== Some (FireJob.scheduledAt job) then (Ok tt, st) else
          let slot := FireJob.scheduledAt job in
          if t <? slot then (Ok tt, enqueueFire job st) else
          match claimSlot (FireJob.cronId job) slot t (s_crons st) with
          | (Throw e, m) => (Throw e, withCrons st m)
          | (Ok false, m) => (Ok tt, withCrons st m)
          | (Ok true, m) =>
              let unclaim st := withCrons st (unclaimSlot (FireJob.cronId job) slot t (Cron.lastFiredAt c) (s_crons st)) in
              match fire c t (slotKey c slot) (Some slot) (withCrons st m) with
              | (Throw e, st) => (Ok tt, unclaim st)
              | (Ok true, st) => (Ok tt, unclaim st)
              | (Ok false, st) => enqueueNext (FireJob.cronId job) st
              end
          end
      end
  end.

(** One round of the loop of [reconcile]; an error ends it and is logged. *)
Fixpoint reconcile (l : list Cron.t) (st : Sched) : Sched :=
  match l with
  | [] => st
  | c :: rest =>
      if Cron.archived c || negb (Cron.enabled c) then reconcile rest st else
      match nextSlot c with
      | Throw _ => st
      | Ok (Some slot) => reconcile rest (enqueueFire (FireJob.mk (Cron.id c) slot) st)
      | Ok None => reconcile rest st
      end
  end.

Definition runNow (cronId : string) (t : Z) (uuid : string) (st : Sched) : outcome unit * Sched :=
  match dm_get cronId (s_crons st) with
  | None => (Ok tt, st)
  | Some c =>
      if Cron.archived c || negb (Cron.enabled c) then (Ok tt, st) else
      match fire c t ("cron:" +:+ Cron.id c +:+ ":manual:" +:+ uuid) None st with
      | (Ok _, st) => (Ok tt, st)
      | (Throw e, st) => (Throw e, st)
      end
  end.

(** ** Facts about slots *)
Hypothesis croner_later : forall pattern tz f after next, croner pattern tz = Ok f -> f after = Some next -> after < next.

Lemma claimed_slot_later slot at_ c c' n :
  claimTransform slot at_ c = Ok (true, c') -> slot <= at_ -> nextSlot c' = Ok (Some n) -> slot < n.
Proof.
  unfold claimTransform. destruct (_ || _); [done|]. destruct (nextSlot c) as [s|]; cbn [obind]; [|done].
  case_bool_decide; cbn [negb]; [|done]. unfold advance.
  destruct (advanceNextFireAt _ _ _ _) as [next|] eqn:Ea; cbn [obind]; [|done]. intros [= <-] Hle.
  unfold nextSlot, recoverNextFireAt. cbn. destruct next as [k|].
  - pose proof (advance_later _ _ croner_later _ _ _ Ea) as Hk. cbn. destruct (_ && _); [|done]. intros [= <-].
    destruct (isCalendarSchedule (Cron.schedule c)); lia.
  - unfold advanceNextFireAt in Ea. destruct (isCalendarSchedule (Cron.schedule c)).
    + intros Hn%(nextCalendar_later _ _ croner_later). lia.
    + destruct (finitePositiveMs _ _) as [[e|]|]; cbn in *; done.
Qed.

(** What decides the next slot of a cron. *)
Definition sameSlot (c c' : Cron.t) : Prop :=
  Cron.schedule c = Cron.schedule c' /\ Cron.createdAt c = Cron.createdAt c'
  /\ Cron.lastFiredAt c = Cron.lastFiredAt c' /\ Cron.nextFireAt c = Cron.nextFireAt c'.

Lemma sameSlot_nextSlot c c' : sameSlot c c' -> nextSlot c = nextSlot c'.
Proof. intros (H1 & H2 & H3 & H4). unfold nextSlot. by rewrite H1, H2, H3, H4. Qed.

(** *** Sequences of store calls: all of them, by any number of schedulers and people.
    What happens to the slots of a cron is told by events. *)
Inductive cron_op :=
| op_create (input : CreateCronInput) (now : Z)
| op_update (id : string) (patch : CronPatch) (now : Z)
| op_delete (id : string)
| op_enable (id : string) (enabled : bool)
| op_destination (id : string) (d : option Destination.t)
| op_consent (id : string) (r : RecipientConsent.t)
| op_record (id : string) (entry : FireLog.t)
| op_mark (id : string) (at_ : Z) (scheduledAt : option Z)
| op_claim (id : string) (slot at_ : Z)
| op_unclaim (id : string) (slot at_ : Z) (prior : option Z).

Inductive slot_event :=
| claimed (slot : Z)
| given_back (slot : Z)  (** a claim was undone *)
| fired (from : Z)  (** the cron was marked as fired; the next slot was computed from here or later *)
| replanned.  (** the schedule was set anew, or the cron deleted *)

Definition committed {A} (m : M Cron.t) (r : outcome (A * M Cron.t)) : M Cron.t := match r with Ok (_, m') => m' | Throw _ => m end.

Definition exec (o : cron_op) (m : M Cron.t) : M Cron.t * list (string * slot_event) :=
  match o with
  | op_create input now => (committed m (create input now m), [])
  | op_update id patch now =>
      (committed m (update id patch now m), match cp_schedule patch with Some _ => [(id, replanned)] | None => [] end)
  | op_delete id => (dm_delete id m, [(id, replanned)])
  | op_enable id enabled => (setEnabled id enabled m, [])
  | op_destination id d => (setDestination id d m, [])
  | op_consent id r => (setRecipientConsent id r m, [])
  | op_record id entry => (recordFire id entry m, [])
  | op_mark id at_ scheduledAt =>
      match dm_get id m, markFired id at_ scheduledAt m with
      | Some c, Ok m' =>
          (m', [(id, fired (Z.min at_ (if isCalendarSchedule (Cron.schedule c) then default at_ scheduledAt else at_)))])
      | _, _ => (m, [])
      end
  | op_claim id slot at_ =>
      match claimSlot id slot at_ m with (Ok true, m') => (m', [(id, claimed slot)]) | (_, m') => (m', []) end
  | op_unclaim id slot at_ prior =>
      (unclaimSlot id slot at_ prior m,
       match dm_get id m with
       | Some c => if Cron.lastFiredAt c === Some at_ then [(id, given_back slot)] else []
       | None => []
       end)
  end.

(** A claim is made when its slot has come. *)
Definition timely (o : cron_op) : Prop := match o with op_claim _ slot at_ => slot <= at_ | _ => True end.

Fixpoint execAll (ops : list cron_op) (m : M Cron.t) : M Cron.t * list (string * slot_event) :=
  match ops with
  | [] => (m, [])
  | o :: rest => let '(m, c1) := exec o m in let '(m, c2) := execAll rest m in (m, c1 ++ c2)
  end.

Definition eventsOf (id : string) (l : list (string * slot_event)) : list slot_event :=
  map snd (List.filter (fun p => p.1 === id) l).

(** The earliest slot after an event. *)
Definition lowest (e : slot_event) : option Z :=
  match e with claimed s => Some (s + 1) | given_back s => Some s | fired q => Some (q + 1) | replanned => None end.

(** The cron is there, and its next slot is [q] or later. *)
Definition atLeast (id : string) (q : Z) (m : M Cron.t) : Prop :=
  exists c, dm_get id m = Some c /\ forall n, nextSlot c = Ok (Some n) -> q <= n.

Lemma update_sameSlot id (f : Cron.t -> Cron.t) m j q :
  (forall c, sameSlot (f c) c) -> atLeast j q m -> atLeast j q (dm_update id f m).2.
Proof.
  intros Hf (c & Hc & Hq). unfold atLeast. rewrite dm_get_update. case_decide as Ej; [|by exists c].
  subst j. rewrite Hc. cbn. exists (f c). split; [done|]. intros n. rewrite (sameSlot_nextSlot _ _ (Hf c)). apply Hq.
Qed.

Lemma claimTransform_slot slot at_ c c' : claimTransform slot at_ c = Ok (true, c') -> nextSlot c = Ok (Some slot).
Proof.
  unfold claimTransform. destruct (_ || _); [done|]. destruct (nextSlot c) as [sl|]; cbn; [|done].
  case_bool_decide as E; cbn; [|done]. by subst sl.
Qed.

Lemma claimTransform_no slot at_ c c' : claimTransform slot at_ c = Ok (false, c') -> c' = c.
Proof.
  unfold claimTransform. destruct (_ || _); [by intros [= <-]|]. destruct (nextSlot c) as [sl|]; cbn; [|done].
  case_bool_decide; cbn; [|by intros [= <-]]. by destruct (advance _ _).
Qed.

(** After a mark the next slot is later than the times it was computed from. *)
Lemma marked_later c at_ base next n : advance (Cron.schedule c) base = Ok next ->
  nextSlot (Cron.withFired c (Some at_) next) = Ok (Some n) -> Z.min at_ base < n.
Proof.
  unfold advance, nextSlot, recoverNextFireAt. cbn. intros Ea. destruct next as [k|].
  - pose proof (advance_later _ _ croner_later _ _ _ Ea) as Hk. cbn. destruct (_ && _); [|done]. intros [= <-]. lia.
  - unfold advanceNextFireAt in Ea. destruct (isCalendarSchedule (Cron.schedule c)).
    + intros Hn%(nextCalendar_later _ _ croner_later). lia.
    + destruct (finitePositiveMs _ _) as [[e|]|]; cbn in *; done.
Qed.

(** What an event says about the next slot, and what a call that is no event leaves. *)
Definition told (id : string) (m m' : M Cron.t) (l : list slot_event) : Prop :=
  match l with
  | [] => forall q, atLeast id q m -> atLeast id q m'
  | [e] => (forall q, lowest e = Some q -> atLeast id q m') /\ (forall s q, e = claimed s -> atLeast id q m -> q <= s)
  | _ => False
  end.

Lemma told_other id j m m' e : j <> id -> (forall q, atLeast id q m -> atLeast id q m') -> told id m m' (eventsOf id [(j, e)]).
Proof. intros Hj H'. unfold eventsOf. cbn. by rewrite bool_decide_eq_false_2. Qed.

Lemma told_one id m m' e : (forall q, lowest e = Some q -> atLeast id q m') -> (forall s q, e = claimed s -> atLeast id q m -> q <= s) ->
  told id m m' (eventsOf id [(id, e)]).
Proof. intros H1 H2. unfold eventsOf. cbn. by rewrite bool_decide_eq_true_2. Qed.

Lemma claim_told id slot at_ m : slot <= at_ ->
  forall j, told j m (exec (op_claim id slot at_) m).1 (eventsOf j (exec (op_claim id slot at_) m).2).
Proof.
  intros Ht j. cbn. unfold claimSlot. destruct (dm_get id m) as [c|] eqn:Ec; [|by intros q].
  destruct (claimTransform slot at_ c) as [[[] c']|] eqn:Etr; [| |by intros q]; cbn [fst snd].
  - destruct (decide (id = j)) as [<-|Hj].
    + apply told_one.
      * intros q [= <-]. exists c'. rewrite dm_get_update, decide_True, Ec by done. split; [done|].
        intros n Hn. pose proof (claimed_slot_later _ _ _ _ _ Etr Ht Hn). lia.
      * intros s q [= <-] (c1 & Hc1 & Hq). rewrite Ec in Hc1. injection Hc1 as <-. by apply Hq, (claimTransform_slot slot at_ c c').
    + apply told_other; [done|]. intros q (c1 & Hc1 & Hq). exists c1. by rewrite dm_get_update, decide_False.
  - apply claimTransform_no in Etr as ->. cbn. intros q (c1 & Hc1 & Hq). exists c1. rewrite dm_get_update. split; [|done].
    case_decide as Ej; [|done]. subst j. rewrite Hc1 in Ec |- *. by injection Ec as ->.
Qed.

Lemma unclaim_told id slot at_ prior m :
  forall j, told j m (exec (op_unclaim id slot at_ prior) m).1 (eventsOf j (exec (op_unclaim id slot at_ prior) m).2).
Proof.
  intros j. cbn. unfold unclaimSlot.
  assert (Hother : id <> j -> forall q, atLeast j q m -> atLeast j q (dm_update id (restore slot at_ prior) m).2).
  { intros Hj q (c1 & Hc1 & Hq). exists c1. by rewrite dm_get_update, decide_False. }
  destruct (dm_get id m) as [c|] eqn:Ec.
  - destruct (Cron.lastFiredAt c === Some at_) eqn:El.
    + destruct (decide (id = j)) as [<-|Hj]; [|by apply told_other, Hother]. apply told_one; [|done].
      intros q [= <-]. exists (restore slot at_ prior c). rewrite dm_get_update, decide_True, Ec by done. split; [done|].
      unfold restore. rewrite El. cbn. intros n. unfold nextSlot. cbn. destruct (_ && _); [|done]. by intros [= <-].
    + cbn. intros q Hq. destruct (decide (id = j)) as [<-|Hj]; [|by apply Hother]. destruct Hq as (c1 & Hc1 & Hq).
      exists c1. rewrite dm_get_update, decide_True, Hc1 by done. cbn. unfold restore. rewrite Hc1 in Ec. injection Ec as ->. by rewrite El.
  - cbn. intros q Hq. destruct (decide (id = j)) as [<-|Hj]; [|by apply Hother]. destruct Hq as (c1 & Hc1 & _). by rewrite Ec in Hc1.
Qed.

Lemma mark_told id at_ scheduledAt m :
  forall j, told j m (exec (op_mark id at_ scheduledAt) m).1 (eventsOf j (exec (op_mark id at_ scheduledAt) m).2).
Proof.
  intros j. cbn. unfold markFired. destruct (dm_get id m) as [c|] eqn:Ec; [|by intros q].
  destruct (advance _ _) as [next|] eqn:Ea; cbn [obind]; [|by intros q]. cbn [fst snd].
  destruct (decide (id = j)) as [<-|Hj].
  - apply told_one; [|done]. intros q [= <-]. exists (Cron.withFired c (Some at_) next).
    rewrite dm_get_update, decide_True, Ec by done. split; [done|]. intros n Hn. pose proof (marked_later _ _ _ _ _ Ea Hn). lia.
  - apply told_other; [done|]. intros q (c1 & Hc1 & Hq). exists c1. by rewrite dm_get_update, decide_False.
Qed.

Lemma update_told id patch now m :
  forall j, told j m (exec (op_update id patch now) m).1 (eventsOf j (exec (op_update id patch now) m).2).
Proof.
  intros j. cbn. unfold update. destruct (cp_schedule patch) as [sc|]; cbn [obind].
  - destruct (decide (id = j)) as [<-|Hj]; [by apply told_one|]. apply told_other; [done|]. intros q (c1 & Hc1 & Hq).
    destruct (normalizeSchedule _ _ _ _ _) as [n|]; cbn [obind committed]; [|by exists c1].
    rewrite (surjective_pairing (dm_update _ _ _)). exists c1. by rewrite dm_get_update, decide_False.
  - intros q Hq. unfold committed. match goal with |- context [dm_update id ?f m] =>
      rewrite (surjective_pairing (dm_update id f m)); apply (update_sameSlot id f); [by intros c|done] end.
Qed.

Lemma exec_told o m : timely o -> forall j, told j m (exec o m).1 (eventsOf j (exec o m).2).
Proof.
  assert (forall c, sameSlot c c) as Hrefl by done.
  destruct o as [input now|id patch now|id|id b|id d|id r|id e|id at_ sc|id slot at_|id slot at_ prior]; intros Ht j.
  - cbn. unfold create. destruct (Trigger.assertNoEscalation _ _ _); cbn [obind]; [|by intros q].
    destruct (normalizeSchedule _ _ _ _ _) as [n|]; cbn [obind]; [|by intros q]. unfold Trigger.createDeduped. rewrite dm_putIfAbsent_spec.
    destruct (dm_get (contentId _ _) m) eqn:Eg; cbn; [done|]. intros q (c1 & Hc1 & Hq). exists c1. split; [|done].
    rewrite dm_get_put. case_decide as Ej; [|done]. by rewrite Ej, Hc1 in Eg.
  - apply update_told.
  - cbn [exec fst snd]. destruct (decide (id = j)) as [<-|Hj]; [by apply told_one|]. apply told_other; [done|]. intros q (c1 & Hc1 & Hq).
    exists c1. by rewrite dm_get_delete, decide_False.
  - intros q. by apply update_sameSlot.
  - intros q. by apply update_sameSlot.
  - intros q. by apply update_sameSlot.
  - intros q. by apply update_sameSlot.
  - apply mark_told.
  - by apply claim_told.
  - apply unclaim_told.
Qed.

(** The events of a cron, each claim no earlier than the event before it allows. *)
Fixpoint sound (q : option Z) (l : list slot_event) : Prop :=
  match l with
  | [] => True
  | e :: l => (forall s k, e = claimed s -> q = Some k -> k <= s) /\ sound (lowest e) l
  end.

Lemma execAll_sound ops : forall m q id, Forall timely ops -> (forall k, q = Some k -> atLeast id k m) ->
  sound q (eventsOf id (execAll ops m).2).
Proof.
  induction ops as [|o ops IH]; intros m q id Hops Hq; cbn [execAll]; [done|]. apply Forall_cons in Hops as [Ho Hops].
  pose proof (exec_told o m Ho id) as Ht. destruct (exec o m) as [m1 l1]. cbn in Ht.
  specialize (IH m1). destruct (execAll ops m1) as [m2 l2]. cbn in IH |- *.
  unfold eventsOf in *. rewrite List.filter_app, map_app.
  destruct (map snd (List.filter _ l1)) as [|e [|]]; [|destruct Ht as [H1 H2]|done]; cbn.
  - apply IH; [done|]. intros k Hk. by apply Ht, Hq.
  - split; [|by apply IH]. intros s k Hs Hk. by eapply H2, Hq.
Qed.

Lemma sound_next pre q e mid b post : sound q (pre ++ e :: mid ++ claimed b :: post) ->
  Forall (fun x => exists s, x = claimed s) mid -> forall k, lowest e = Some k -> k <= b.
Proof.
  revert q. induction pre as [|x pre IH]; cbn; intros q [_ Hs] Hm; [|by eapply IH].
  revert e Hs. induction mid as [|x mid IH]; cbn; intros e [H1 H2] k Hk; [by eapply H1|].
  apply Forall_cons in Hm as [[s ->] Hm]. specialize (H1 s k eq_refl Hk). specialize (IH Hm _ H2 _ eq_refl). lia.
Qed.

(** C25: a slot is claimed at most once.  Along every sequence of store calls, by any
    number of schedulers and people, as long as slots are claimed when they have come:
    between two claims of a cron with nothing but claims in between the slots strictly
    increase.  So a slot is claimed a second time only after the claim was given back
    (then the next claim is of no earlier slot than the one given back), the cron was
    marked as fired (then it is later than the times the next slot was computed from),
    or its schedule was set anew or the cron deleted. *)
Theorem slots_claimed_once (ops : list cron_op) (m : M Cron.t) (id : string) (e : slot_event) (b : Z)
    (before between after : list slot_event) :
  Forall timely ops -> eventsOf id (execAll ops m).2 = before ++ e :: between ++ claimed b :: after ->
  Forall (fun x => exists s, x = claimed s) between ->
  match e with claimed a => a < b | given_back a => a <= b | fired q => q < b | replanned => True end.
Proof.
  intros Hops Hl Hm. pose proof (execAll_sound ops m None id Hops ltac:(done)) as Hs. rewrite Hl in Hs.
  pose proof (sound_next _ _ _ _ _ _ Hs Hm) as Hk. destruct e; try done; specialize (Hk _ eq_refl); lia.
Qed.

(** ** Facts about claiming and giving back *)
Lemma claimSlot_true id slot at_ m m' :
  claimSlot id slot at_ m = (Ok true, m') ->
  exists c next, dm_get id m = Some c /\ Cron.archived c = false /\ Cron.enabled c = true
    /\ nextSlot c = Ok (Some slot)
    /\ m' = (dm_update id (fun _ => Cron.withFired c (Some at_) next) m).2.
Proof.
  unfold claimSlot. destruct (dm_get id m) as [c|] eqn:Ec; [|done].
  destruct (claimTransform slot at_ c) as [[claimed c']|] eqn:Etr; [|done]. intros [= -> <-].
  revert Etr. unfold claimTransform. destruct (Cron.archived c || negb (Cron.enabled c)) eqn:Eg; [done|].
  apply orb_false_iff in Eg as [? ?%negb_false_iff]. destruct (nextSlot c) as [s|] eqn:En; cbn [obind]; [|done].
  case_bool_decide as Es; cbn [negb]; [|done]. destruct (advance _ _) as [next|]; cbn [obind]; [|done].
  intros [= <-]. exists c, next. subst s. by split_and!.
Qed.

Lemma withFired_slot c last slot :
  - 2 ^ 53 < slot < 2 ^ 53 -> nextSlot (Cron.withFired c last (Some slot)) = Ok (Some slot).
Proof. intros [H1 H2]. unfold nextSlot. cbn. apply Z.ltb_lt in H1, H2. by rewrite H1, H2. Qed.

(** Giving a claim back undoes it.  After a claim that succeeded and was given
    back with the previous time of firing, the cron is as before, its next slot
    written out; it has the claimed slot again, every other cron is untouched, and
    the slot can be claimed again by anyone. *)
Theorem unclaim_restores (id : string) (slot at_ at2 : Z) (m m' : M Cron.t) (c : Cron.t) :
  dm_get id m = Some c -> claimSlot id slot at_ m = (Ok true, m') -> - 2 ^ 53 < slot < 2 ^ 53 ->
  let m2 := unclaimSlot id slot at_ (Cron.lastFiredAt c) m' in
  dm_get id m2 = Some (Cron.withFired c (Cron.lastFiredAt c) (Some slot))
  /\ (forall j, j <> id -> dm_get j m2 = dm_get j m)
  /\ ((claimSlot id slot at2 m2).1 = Ok true <-> (claimSlot id slot at2 m).1 = Ok true).
Proof.
  intros Hc Hcl Hr m2. destruct (claimSlot_true _ _ _ _ _ Hcl) as (c0 & next & Hc0 & Ha & He & Hs & ->).
  rewrite Hc in Hc0. injection Hc0 as <-.
  assert (dm_get id m2 = Some (Cron.withFired c (Cron.lastFiredAt c) (Some slot))) as E.
  { subst m2. unfold unclaimSlot. rewrite dm_get_update, decide_True, dm_get_update, decide_True, Hc by done. cbn.
    unfold restore. cbn. by rewrite bool_decide_eq_true_2. }
  split; [done|]. split.
  - intros j Hj. subst m2. unfold unclaimSlot. by rewrite !dm_get_update, !decide_False by done.
  - unfold claimSlot. rewrite E, Hc. unfold claimTransform. cbn [Cron.withFired Cron.archived Cron.enabled Cron.schedule].
    rewrite Ha, He. cbn [orb negb]. rewrite withFired_slot, Hs by done. cbn [obind]. rewrite bool_decide_eq_true_2 by done. cbn [negb].
    by destruct (advance _ _).
Qed.

(** ** Facts about firing *)
Lemma fire_started c t key slot st :
  started (fire c t key slot st).2 = started st ++ [key] /\ sent (fire c t key slot st).2 = sent st
  /\ (fire c t key slot st).1
     = match runTrigger c key with Throw e => Throw e | Ok o => Ok (TriggerOutcome.authzFailed o) end.
Proof.
  unfold fire. destruct (runTrigger c key) as [o|e]; [|done].
  by destruct (TriggerOutcome.ran o || TriggerOutcome.authzFailed o), (TriggerOutcome.authzFailed o),
    (oneShot (Cron.schedule c)).
Qed.

(** What firing does to the cron itself: the log of fires apart, it is switched
    off when it was not authorised or fires only once. *)
Lemma fire_cron c t key slot st c0 :
  dm_get (Cron.id c) (s_crons st) = Some c0 ->
  exists c1, dm_get (Cron.id c) (s_crons (fire c t key slot st).2) = Some c1
    /\ sameSlot c1 c0
    /\ Cron.archived c1 = Cron.archived c0
    /\ Cron.enabled c1 = match runTrigger c key with
                         | Throw _ => Cron.enabled c0
                         | Ok o => Cron.enabled c0
                                   && negb (TriggerOutcome.authzFailed o || oneShot (Cron.schedule c))
                         end.
Proof.
  intros Hc. unfold fire, recordFire, setEnabled.
  destruct (runTrigger c key) as [o|e].
  2: { eexists. cbn [s_crons withCrons snd]. rewrite dm_get_update, decide_True, Hc by done. split; [done|]. by split_and!. }
  destruct (TriggerOutcome.ran o || TriggerOutcome.authzFailed o), (TriggerOutcome.authzFailed o), (oneShot (Cron.schedule c));
    cbn [s_crons withCrons snd orb negb]; rewrite ?andb_false_r, ?andb_true_r;
    (eexists; split; [rewrite ?dm_get_update, ?decide_True, ?dm_get_update, ?decide_True, Hc by done; reflexivity|by split_and!]).
Qed.

(** A cron whose run throws cuts the batch of the interval tick off: no cron after it
    is started, and it keeps its slot, so that it is due again at the next tick. *)
Lemma failing_cron_blocks_batch c slot rest t st e : runTrigger c (slotKey c slot) = Throw e ->
  let st' := (fireBatch ((c, slot) :: rest) t st).2 in
  (fireBatch ((c, slot) :: rest) t st).1 = Throw e /\ started st' = started st ++ [slotKey c slot]
  /\ (forall c0, dm_get (Cron.id c) (s_crons st) = Some c0 ->
      exists c1, dm_get (Cron.id c) (s_crons st') = Some c1 /\ nextSlot c1 = nextSlot c0
        /\ Cron.enabled c1 = Cron.enabled c0 /\ Cron.archived c1 = Cron.archived c0).
Proof.
  intros Hr st'. subst st'. cbn [fireBatch].
  pose proof (fire_started c t (slotKey c slot) (Some slot) st) as (H1 & _ & H3).
  pose proof (fire_cron c t (slotKey c slot) (Some slot) st) as H4. rewrite Hr in *.
  destruct (fire c t (slotKey c slot) (Some slot) st) as [r st1]. cbn in *. subst r. cbn. split_and!; [done|done|].
  intros c0 Hc. destruct (H4 c0 Hc) as (c1 & ? & Hs & ? & ?). exists c1. split_and!; try done. by apply sameSlot_nextSlot.
Qed.

(** The handling of a job past its guards. *)
Lemma fireJob_fires c slot t st next :
  dm_get (Cron.id c) (s_crons st) = Some c -> Cron.archived c = false -> Cron.enabled c = true ->
  nextSlot c = Ok (Some slot) -> slot <= t ->
  advance (Cron.schedule c) (if isCalendarSchedule (Cron.schedule c) then slot else t) = Ok next ->
  let m := (dm_update (Cron.id c) (fun _ => Cron.withFired c (Some t) next) (s_crons st)).2 in
  let '(r, st1) := fire c t (slotKey c slot) (Some slot) (withCrons st m) in
  fireJob (FireJob.mk (Cron.id c) slot) t st
  = match r with
    | Ok false => enqueueNext (Cron.id c) st1
    | _ => (Ok tt, withCrons st1 (unclaimSlot (Cron.id c) slot t (Cron.lastFiredAt c) (s_crons st1)))
    end.
Proof.
  intros Hc Ha He Hs Ht Hadv m. destruct (fire c t (slotKey c slot) (Some slot) (withCrons st m)) as [r st1] eqn:Ef.
  unfold fireJob. cbn [FireJob.cronId FireJob.scheduledAt]. rewrite Hc, Ha, He. cbn [orb negb]. rewrite Hs.
  rewrite bool_decide_eq_true_2 by done. cbn [negb]. destruct (Z.ltb_spec t slot); [lia|].
  unfold claimSlot. rewrite Hc. unfold claimTransform. rewrite Ha, He. cbn [orb negb]. rewrite Hs. cbn [obind].
  rewrite bool_decide_eq_true_2 by done. cbn [negb]. rewrite Hadv. cbn [obind]. fold m. rewrite Ef. by destruct r as [[]|].
Qed.

(** A job is handled exactly.  For an enabled cron whose slot has come, its
    trigger is started once, under the key of the slot.  If the run throws, the
    cron is still enabled and has the same slot, to be tried again; if it was not
    authorised, or was to fire only once, the cron is switched off; otherwise it
    was fired now, its next slot, if any, is later, and the job for it is sent. *)
Theorem fire_job_exact (c : Cron.t) (slot t : Z) (st : Sched) (next : option Z) :
  dm_get (Cron.id c) (s_crons st) = Some c -> Cron.archived c = false -> Cron.enabled c = true ->
  nextSlot c = Ok (Some slot) -> slot <= t -> - 2 ^ 53 < slot < 2 ^ 53 ->
  advance (Cron.schedule c) (if isCalendarSchedule (Cron.schedule c) then slot else t) = Ok next ->
  let st' := (fireJob (FireJob.mk (Cron.id c) slot) t st).2 in
  started st' = started st ++ [slotKey c slot]
  /\ exists c', dm_get (Cron.id c) (s_crons st') = Some c' /\
     match runTrigger c (slotKey c slot) with
     | Throw _ => Cron.enabled c' = true /\ nextSlot c' = Ok (Some slot) /\ sent st' = sent st
     | Ok o =>
         if TriggerOutcome.authzFailed o then Cron.enabled c' = false /\ sent st' = sent st
         else if oneShot (Cron.schedule c) then Cron.enabled c' = false /\ sent st' = sent st
         else Cron.enabled c' = true /\ Cron.lastFiredAt c' = Some t
              /\ forall n, nextSlot c' = Ok (Some n) -> slot < n /\ sent st' = sent st ++ [FireJob.mk (Cron.id c) n]
     end.
Proof.
  intros Hc Ha He Hs Ht Hr Hadv st'. subst st'.
  pose proof (fireJob_fires c slot t st next Hc Ha He Hs Ht Hadv) as E. cbn zeta in E.
  set (c0 := Cron.withFired c (Some t) next) in *. set (m := (dm_update (Cron.id c) (fun _ => c0) (s_crons st)).2) in *.
  assert (dm_get (Cron.id c) m = Some c0) as Hm by (subst m; by rewrite dm_get_update, decide_True, Hc by done).
  destruct (fire_started c t (slotKey c slot) (Some slot) (withCrons st m)) as (Hst & Hsent & Hout).
  destruct (fire_cron c t (slotKey c slot) (Some slot) (withCrons st m) c0 Hm) as (c1 & Hc1 & Hsame & Harch & Hen).
  destruct (fire c t (slotKey c slot) (Some slot) (withCrons st m)) as [r st1]. cbn [fst snd] in *. rewrite E. clear E.
  cbn in Hst, Hsent. rewrite Hout. clear Hout.
  assert (exists c', dm_get (Cron.id c) (unclaimSlot (Cron.id c) slot t (Cron.lastFiredAt c) (s_crons st1)) = Some c'
          /\ Cron.enabled c' = Cron.enabled c1 /\ nextSlot c' = Ok (Some slot)) as (c2 & Hc2 & He2 & Hs2).
  { unfold unclaimSlot. rewrite dm_get_update, decide_True, Hc1 by done. cbn. eexists. split; [done|].
    destruct Hsame as (_ & _ & Hl & _). unfold restore. rewrite Hl. cbn. rewrite bool_decide_eq_true_2 by done. cbn [negb].
    split; [done|by apply withFired_slot]. }
  change (Cron.enabled c0) with (Cron.enabled c) in Hen. rewrite He in Hen. cbn [andb] in Hen.
  destruct (runTrigger c (slotKey c slot)) as [o|e].
  2: { split; [done|]. exists c2. by rewrite He2, Hen. }
  destruct (TriggerOutcome.authzFailed o).
  { split; [done|]. exists c2. by rewrite He2, Hen. }
  cbn [orb] in Hen. unfold enqueueNext. rewrite Hc1, Harch. cbn [Cron.withFired Cron.archived c0]. rewrite Ha. cbn [orb].
  destruct (oneShot (Cron.schedule c)); cbn [negb] in Hen; rewrite Hen; cbn [negb]; [cbn; eauto|].
  assert (Cron.lastFiredAt c1 = Some t) as Hl1 by (by destruct Hsame as (_ & _ & -> & _)).
  assert (forall n, nextSlot c1 = Ok (Some n) -> slot < n) as Hlater.
  { intros n Hn. rewrite (sameSlot_nextSlot _ _ Hsame) in Hn. apply (claimed_slot_later slot t c c0 n); [|done|done].
    unfold claimTransform. rewrite Ha, He. cbn [orb negb]. rewrite Hs. cbn [obind]. rewrite bool_decide_eq_true_2 by done.
    cbn [negb]. by rewrite Hadv. }
  destruct (nextSlot c1) as [[n|]|x] eqn:En; cbn; (split; [done|]); exists c1; (split; [done|]); (split; [done|]); (split; [done|]);
    intros k; rewrite En; try done. intros [= <-]. split; [by apply Hlater|]. by rewrite Hsent.
Qed.

(** What is due is exact.  A cron is listed, with its slot, exactly when it is
    enabled, not archived, has a next slot and that slot has come. *)
Theorem due_exact (m : M Cron.t) (now : Z) (l : list (Cron.t * Z)) :
  due now m = Ok l ->
  forall c' slot, (c', slot) ∈ l <->
    exists id c, dm_get id m = Some c /\ Cron.archived c = false /\ Cron.enabled c = true
      /\ nextSlot c = Ok (Some slot) /\ slot <= now /\ c' = Cron.withFired c (Cron.lastFiredAt c) (Some slot).
Proof.
  clear runTrigger. intros Hd c' slot.
  transitivity (exists c, c ∈ dm_all m /\ Cron.archived c = false /\ Cron.enabled c = true
      /\ nextSlot c = Ok (Some slot) /\ slot <= now /\ c' = Cron.withFired c (Cron.lastFiredAt c) (Some slot)).
  2: { setoid_rewrite dm_all_get. naive_solver. }
  unfold due in Hd. revert l Hd. induction (dm_all m) as [|c rest IH]; intros l Hd; cbn [dueAmong] in Hd.
  { injection Hd as <-. split; [by intros ?%not_elem_of_nil|]. by intros (x & ?%not_elem_of_nil & _). }
  assert ((exists x, x ∈ c :: rest /\ Cron.archived x = false /\ Cron.enabled x = true
      /\ nextSlot x = Ok (Some slot) /\ slot <= now /\ c' = Cron.withFired x (Cron.lastFiredAt x) (Some slot))
    <-> (Cron.archived c = false /\ Cron.enabled c = true
      /\ nextSlot c = Ok (Some slot) /\ slot <= now /\ c' = Cron.withFired c (Cron.lastFiredAt c) (Some slot))
       \/ (exists x, x ∈ rest /\ Cron.archived x = false /\ Cron.enabled x = true
      /\ nextSlot x = Ok (Some slot) /\ slot <= now /\ c' = Cron.withFired x (Cron.lastFiredAt x) (Some slot))) as ->.
  { setoid_rewrite elem_of_cons. naive_solver. }
  destruct (Cron.archived c || negb (Cron.enabled c)) eqn:Eg.
  { rewrite (IH l Hd). apply orb_true_iff in Eg as [Eg|Eg%negb_true_iff]; rewrite Eg; naive_solver. }
  apply orb_false_iff in Eg as [Ha He%negb_false_iff]. destruct (nextSlot c) as [s|]; cbn [obind] in Hd; [|done].
  destruct (dueAmong rest now) as [others|]; cbn [obind] in Hd; [|done]. rewrite <- (IH others eq_refl).
  destruct s as [s|]; [destruct (Z.leb_spec s now)|]; injection Hd as <-.
  - rewrite elem_of_cons. split.
    + intros [[= -> ->]|?]; [left; by split_and!|by right].
    + intros [(_ & _ & [= ->] & _ & ->)|?]; [by left|by right].
  - split; [by right|]. intros [(_ & _ & [= ->] & ? & _)|?]; [lia|done].
  - split; [by right|]. by intros [(_ & _ & ? & _)|?].
Qed.

(** Nobody is signed up by others.  A cron is only created for an owner by the
    owner or with the owner's recorded consent; and the consent that a standing
    message to somebody else needs is only given by an acceptance of that person. *)
Theorem trigger_consent (input : CreateCronInput) (now : Z) (m m' : M Cron.t) (c : Cron.t)
    (current new : RecipientConsent.t) (actor recipient owner : string) (accept : bool) (d : option Destination.t) :
  create input now m = Ok (c, m') ->
  Trigger.consentRequiredRecipient owner true d = Some recipient -> recipient <> "" ->
  Trigger.decideRecipientConsent (Some current) actor accept now = inl new ->
  (samePerson (Some (ci_owner input)) (Some (ci_createdBy input)) = true
   \/ exists at_, ci_ownerConsentedAt input = Some at_ /\ at_ <> 0)
  /\ (Trigger.recipientConsentSatisfied (Some new) (Some recipient) = true ->
      accept = true /\ samePerson (Some actor) (Some recipient) = true /\ samePerson (Some actor) (Some owner) = false).
Proof.
  intros Hcr Hreq Hne Hdec. split.
  - revert Hcr. unfold create, Trigger.assertNoEscalation.
    destruct (samePerson _ _); [by left|]. destruct (ci_ownerConsentedAt input) as [n|]; [|done].
    destruct (Z.eqb_spec n 0); [done|]. intros _. right. by exists n.
  - revert Hdec. unfold Trigger.decideRecipientConsent, Trigger.recipientConsentSatisfied.
    destruct (samePerson (Some (RecipientConsent.recipientId current)) (Some actor)) eqn:Ea; cbn [negb]; [|done].
    intros [= <-]. apply Str.truthy_iff in Hne. rewrite Hne. cbn. intros [Hs Hr]%andb_true_iff.
    assert (samePerson (Some actor) (Some recipient) = true) as Har.
    { rewrite samePerson_sym in Ea. by eapply samePerson_trans. }
    split; [destruct accept; [done|by js_bool]|]. split; [done|].
    revert Hreq. unfold Trigger.consentRequiredRecipient. cbn [negb]. destruct d as [d|]; [|done].
    destruct (_ && _) eqn:Ed; [|done]. intros [= <-]. apply andb_true_iff in Ed as [_ Ed%negb_true_iff].
    destruct (samePerson (Some actor) (Some owner)) eqn:Eo; [|done]. rewrite samePerson_sym in Har.
    by rewrite (samePerson_trans _ _ _ Har Eo) in Ed.
Qed.
End store.

(** ** Witnesses *)
Definition demoCron : Cron.t :=
  Cron.mk "c" "personal:ann" "ann" "ann" None None true 0 None None
    (CronSchedule.mk None None (Some (num_int 60000)) (Some (num_int 100))) (Some 100) None false (Some "look") None None None [].

Definition demoCrons : Memory.t Cron.t := dm_put "c" demoCron dm_empty.

Definition demoHash (parts : list string) (n : nat) : string := Str.join "-" parts.

(** A claim is given back and made again; the next slot is later. *)
Definition demoOps : list cron_op :=
  [op_claim "c" 100 150; op_claim "c" 100 160; op_unclaim "c" 100 150 None; op_claim "c" 100 170; op_enable "c" true; op_claim "c" 60170 60200].

Lemma slots_claimed_once_witness :
  eventsOf "c" (execAll utcOnly midnights (fun _ => "") demoHash demoOps demoCrons).2 = [claimed 100; given_back 100; claimed 100; claimed 60170]
  /\ 100 < 60170.
Proof.
  split; [vm_compute; reflexivity|].
  apply (slots_claimed_once utcOnly midnights (fun _ => "") demoHash midnights_later demoOps demoCrons "c" (claimed 100) 60170
    [claimed 100; given_back 100] [] []); [repeat constructor; cbn; lia|vm_compute; reflexivity|constructor].
Defined.

Lemma unclaim_restores_witness :
  let m' := (claimSlot utcOnly midnights "c" 100 150 demoCrons).2 in
  dm_get "c" (unclaimSlot "c" 100 150 None m') = Some (Cron.withFired demoCron None (Some 100)).
Proof.
  intros m'.
  apply (unclaim_restores utcOnly midnights "c" 100 150 150 demoCrons m' demoCron); [reflexivity|vm_compute; reflexivity|lia].
Defined.

Lemma fire_job_exact_witness :
  let st := mkSched demoCrons [] [] in
  let run _ _ := Ok (TriggerOutcome.mk false true (Some TurnStatus.ok) None (Some "done") None) in
  started (fireJob utcOnly midnights demoHash run (FireJob.mk "c" 100) 150 st).2 = ["cron:c:100"].
Proof.
  intros st run.
  apply (fire_job_exact utcOnly midnights demoHash run midnights_later demoCron 100 150 st (Some 60150));
    try (vm_compute; reflexivity); lia.
Defined.

Lemma due_exact_witness :
  exists l, due utcOnly midnights 150 demoCrons = Ok l
    /\ (Cron.withFired demoCron None (Some 100), 100) ∈ l.
Proof.
  destruct (due utcOnly midnights 150 demoCrons) as [l|e] eqn:E; [|vm_compute in E; discriminate E].
  exists l. split; [reflexivity|].
  apply (due_exact utcOnly midnights demoCrons 150 l E). exists "c", demoCron.
  repeat split; try (vm_compute; reflexivity). lia.
Defined.

Lemma trigger_consent_witness :
  let input := mkCronInput "personal:ann" "ann" "ann" None None None
                 (CronSchedule.mk None None (Some (num_int 60000)) None) None (Some "look") None None None in
  let asked := RecipientConsent.mk "bob" consent_pending None in
  exists new, Trigger.decideRecipientConsent (Some asked) "bob" true 7 = inl new
    /\ samePerson (Some "bob") (Some "bob") = true.
Proof.
  intros input asked. exists (RecipientConsent.mk "bob" consent_accepted (Some 7)). split; [vm_compute; reflexivity|].
  destruct (create utcOnly midnights json_to_string demoHash input 7 demoCrons) as [[c m']|] eqn:E;
    [|vm_compute in E; discriminate E].
  apply (trigger_consent utcOnly midnights json_to_string demoHash input 7 demoCrons m' c asked
           (RecipientConsent.mk "bob" consent_accepted (Some 7)) "bob" "bob" "ann" true (Some (Destination.to "principal" "bob")) E);
    vm_compute; (reflexivity || discriminate).
Defined.
