(* ===== verification/Limits.v ===== *)
(** * Limits: requests per window and money per day

    [RateLimiter] is [src/ratelimit/rate-limiter.ts], [Budget] is
    [src/ratelimit/budget.ts], the in-memory versions.  The limiter counts in
    windows that start with a request; what that means for an arbitrary stretch of
    time is [rate_limit_bounds].  The budget forgets spending that has left its
    window; [budget_refines_history] shows that nobody can tell. *)

From Stdlib Require Import ZArith Lia.
From S2P Require Import Prelude Collections Numbers.
Open Scope Z_scope.

Module RateLimiter.
Record Window := mkWindow { windowStart : Z; count : Z }.
Inductive RateDecision := allowed | denied (retryAfterMs : Z).

Definition isAllowed (d : RateDecision) : bool := match d with allowed => true | denied _ => false end.

Section limiter.
Variable maxPerWindow : Z.
Variable windowMs : Z.

(** One check against the window of a principal. *)
Definition checkWindow (s : option Window) (t : Z) : RateDecision * option Window :=
  match s with
  | None => (allowed, Some (mkWindow t 1))
  | Some w =>
      if windowMs <=? t - windowStart w then (allowed, Some (mkWindow t 1))
      else if maxPerWindow <=? count w then (denied (windowMs - (t - windowStart w)), s)
      else (allowed, Some (mkWindow (windowStart w) (count w + 1)))
  end.

Definition check (principalId : string) (t : Z) (state : jmap string Window) : RateDecision * jmap string Window :=
  match checkWindow (JMap.get state principalId) t with
  | (allowed, Some w) => (allowed, JMap.set state principalId w)
  | (d, _) => (d, state)
  end.

(** A sequence of checks, with their answers. *)
Fixpoint checks (requests : list (string * Z)) (state : jmap string Window) : list (string * Z * RateDecision) :=
  match requests with
  | [] => []
  | (p, t) :: rest => let '(d, state) := check p t state in (p, t, d) :: checks rest state
  end.

(** The checks of one principal. *)
Fixpoint checksOf (times : list Z) (s : option Window) : list (Z * RateDecision) :=
  match times with
  | [] => []
  | t :: rest => let '(d, s) := checkWindow s t in (t, d) :: checksOf rest s
  end.

Definition of_ (p : string) (l : list (string * Z * RateDecision)) : list (Z * RateDecision) :=
  map (fun x => (x.1.2, x.2)) (List.filter (fun x => x.1.1 === p) l).

Definition timesOf (p : string) (requests : list (string * Z)) : list Z :=
  map snd (List.filter (fun x => x.1 === p) requests).

Lemma checkWindow_state s t d s' : checkWindow s t = (d, s') ->
  (d = allowed -> is_Some s') /\ (forall r, d = denied r -> s' = s).
Proof.
  unfold checkWindow. intros H. destruct s as [w|]; [|injection H as <- <-; split; [by eexists|done]].
  destruct (windowMs <=? t - windowStart w); [|destruct (maxPerWindow <=? count w)]; injection H as <- <-; (split; [by eexists|done]).
Qed.

(** Principals do not disturb each other. *)
Lemma checks_of p requests : forall state,
  of_ p (checks requests state) = checksOf (timesOf p requests) (JMap.get state p).
Proof.
  induction requests as [|[q t] rest IH]; intros state; [done|]. cbn [checks]. unfold check.
  destruct (checkWindow (JMap.get state q) t) as [d s'] eqn:E. destruct (checkWindow_state _ _ _ _ E) as [Ha Hd].
  assert (exists state', (match d, s' with allowed, Some w => (allowed, JMap.set state q w) | _, _ => (d, state) end) = (d, state')
            /\ JMap.get state' q = s' /\ forall p, p <> q -> JMap.get state' p = JMap.get state p) as (state' & Es & Hq & Hp).
  { destruct d as [|r]; [|exists state; by rewrite (Hd r)]. destruct (Ha eq_refl) as [w ->].
    exists (JMap.set state q w). split_and!; [done|apply JMap.get_set_eq|]. intros x Hx. by apply JMap.get_set_ne. }
  replace (match d with allowed => _ | denied _ => _ end) with (d, state') by (rewrite <- Es; by destruct d, s').
  unfold of_, timesOf. cbn [List.filter fst snd]. case_bool_decide as Eq; cbn [map fst snd checksOf].
  - subst q. rewrite E. f_equal. rewrite <- Hq. apply IH.
  - rewrite <- (Hp p) by congruence. apply IH.
Qed.

(** How many requests were allowed in a stretch of time. *)
Definition allowedIn (a b : Z) (l : list (Z * RateDecision)) : Z :=
  Z.of_nat (length (List.filter (fun x => isAllowed x.2 && (a <=? x.1) && (x.1 <? b)) l)).

Lemma allowedIn_cons a b t d l :
  allowedIn a b ((t, d) :: l) = (if isAllowed d && (a <=? t) && (t <? b) then 1 else 0) + allowedIn a b l.
Proof. unfold allowedIn. cbn [List.filter fst snd]. destruct (_ && _ && _); cbn [length]; lia. Qed.

Lemma allowedIn_app a b l1 l2 : allowedIn a b (l1 ++ l2) = allowedIn a b l1 + allowedIn a b l2.
Proof. unfold allowedIn. rewrite List.filter_app, length_app. lia. Qed.

Lemma allowedIn_nonneg a b l : 0 <= allowedIn a b l.
Proof. unfold allowedIn. lia. Qed.

Lemma allowedIn_mono a a' b l : a' <= a -> allowedIn a b l <= allowedIn a' b l.
Proof.
  intros Ha. induction l as [|[t d] l IH]; [done|]. rewrite !allowedIn_cons.
  destruct (isAllowed d), (Z.leb_spec a t), (Z.leb_spec a' t), (t <? b); cbn [andb]; lia.
Qed.

Definition rest (w : Window) : Z := Z.max 0 (maxPerWindow - count w).

(** Requests from the end of the stretch on do not count. *)
Lemma allowed_after a b times : forall s, Forall (Z.le b) times -> allowedIn a b (checksOf times s) = 0.
Proof.
  induction times as [|t times IH]; intros s Ht; cbn [checksOf]; [done|]. apply Forall_cons in Ht as [Ht Hts].
  destruct (checkWindow s t) as [d s']. rewrite allowedIn_cons, IH by done.
  destruct (Z.ltb_spec t b); [lia|]. by rewrite andb_false_r.
Qed.

(** A window that starts within the stretch is the last one that counts. *)
Lemma allowed_late_window a times : forall w,
  StronglySorted Z.le times -> a <= windowStart w ->
  allowedIn a (a + windowMs) (checksOf times (Some w)) <= rest w.
Proof.
  induction times as [|t times IH]; intros w Hs Hw; cbn [checksOf]; [unfold allowedIn, rest; cbn; lia|].
  inversion Hs as [|? ? Hs' Ht]; subst. unfold checkWindow. destruct (Z.leb_spec windowMs (t - windowStart w)) as [Hn|Hn].
  - rewrite allowedIn_cons, allowed_after by (eapply Forall_impl; [exact Ht|cbn; lia]).
    destruct (Z.ltb_spec t (a + windowMs)); [lia|]. rewrite andb_false_r. unfold rest. lia.
  - destruct (Z.leb_spec maxPerWindow (count w)) as [Hc|Hc]; rewrite allowedIn_cons.
    + cbn [isAllowed andb]. specialize (IH w Hs' Hw). lia.
    + specialize (IH (mkWindow (windowStart w) (count w + 1)) Hs' Hw). unfold rest in *. cbn [count windowStart] in *.
      destruct (_ && _ && _); lia.
Qed.

Definition perWindow : Z := Z.max 1 maxPerWindow.

(** One that started before may be followed by one that starts within. *)
Lemma allowed_early_window a times : forall w,
  StronglySorted Z.le times -> Forall (Z.le a) times ->
  allowedIn a (a + windowMs) (checksOf times (Some w)) <= rest w + perWindow.
Proof.
  induction times as [|t times IH]; intros w Hs Ha; cbn [checksOf]; [unfold allowedIn, rest, perWindow; cbn; lia|].
  inversion Hs as [|? ? Hs' Ht]; subst. apply Forall_cons in Ha as [Hat Ha]. unfold checkWindow.
  destruct (Z.leb_spec windowMs (t - windowStart w)) as [Hn|Hn].
  - rewrite allowedIn_cons. pose proof (allowed_late_window a times (mkWindow t 1) Hs' Hat) as Hl.
    unfold rest, perWindow in *. cbn [count] in *. destruct (_ && _ && _); lia.
  - destruct (Z.leb_spec maxPerWindow (count w)) as [Hc|Hc]; rewrite allowedIn_cons.
    + cbn [isAllowed andb]. specialize (IH w Hs' Ha). lia.
    + specialize (IH (mkWindow (windowStart w) (count w + 1)) Hs' Ha). unfold rest in *. cbn [count] in *.
      destruct (_ && _ && _); lia.
Qed.

Definition counted (s : option Window) : Prop := match s with Some w => 1 <= count w | None => True end.

Lemma checkWindow_counted s t d s' : counted s -> checkWindow s t = (d, s') -> counted s'.
Proof.
  unfold checkWindow, counted. destruct s as [w|]; [|intros _ [= <- <-]; cbn; lia].
  destruct (windowMs <=? t - windowStart w); [intros _ [= <- <-]; cbn; lia|].
  destruct (maxPerWindow <=? count w); intros ? [= <- <-]; cbn; lia.
Qed.

Lemma allowed_stretch a times : forall s,
  counted s -> StronglySorted Z.le times -> allowedIn a (a + windowMs) (checksOf times s) <= 2 * perWindow - 1.
Proof.
  induction times as [|t times IH]; intros s Hc Hs; [unfold allowedIn, perWindow; cbn; lia|].
  inversion Hs as [|? ? Hs' Ht]; subst. destruct (Z.le_gt_cases a t) as [Hat|Hat].
  - assert (Forall (Z.le a) (t :: times)) as Ha.
    { constructor; [done|]. eapply Forall_impl; [exact Ht|cbn; lia]. }
    destruct s as [w|].
    + pose proof (allowed_early_window a (t :: times) w Hs Ha) as H. cbn in Hc. unfold rest, perWindow in *. lia.
    + cbn [checksOf checkWindow]. rewrite allowedIn_cons.
      pose proof (allowed_late_window a times (mkWindow t 1) Hs' Hat) as H. unfold rest, perWindow in *. cbn [count] in H.
      destruct (_ && _ && _); lia.
  - cbn [checksOf]. destruct (checkWindow s t) as [d s'] eqn:E. rewrite allowedIn_cons.
    destruct (Z.leb_spec a t); [lia|]. rewrite andb_false_r. cbn [andb].
    apply IH; [by eapply checkWindow_counted|done].
Qed.

(** The window after a sequence of checks, and what it has counted. *)
Fixpoint windowAfter (times : list Z) (s : option Window) : option Window :=
  match times with
  | [] => s
  | t :: rest => windowAfter rest (checkWindow s t).2
  end.

Lemma checksOf_snoc times t : forall s,
  checksOf (times ++ [t]) s = checksOf times s ++ [(t, (checkWindow (windowAfter times s) t).1)].
Proof.
  induction times as [|u times IH]; intros s; cbn [checksOf app windowAfter].
  - by destruct (checkWindow s t).
  - destruct (checkWindow s u) as [d s']. cbn [snd]. by rewrite IH.
Qed.

Lemma windowAfter_snoc times t : forall s, windowAfter (times ++ [t]) s = (checkWindow (windowAfter times s) t).2.
Proof. induction times as [|u times IH]; intros s; cbn [app windowAfter]; [done|]. apply IH. Qed.

(** A window has counted no more than was allowed since it started. *)
Lemma window_counts times : StronglySorted Z.le times ->
  match windowAfter times None with
  | None => True
  | Some w => windowStart w ∈ times
      /\ forall b, Forall (fun t => t < b) times -> count w <= allowedIn (windowStart w) b (checksOf times None)
  end.
Proof.
  induction times as [|t times IH] using rev_ind; [done|]. intros Hs.
  assert (forall u, u ∈ times -> u <= t) as Hle by (intros u Hu; apply (Arr.sorted_app _ _ _ Hs); [done|left]).
  assert (t ∈ times ++ [t]) as Ht by (apply elem_of_app; right; left).
  specialize (IH (Arr.sorted_prefix _ _ _ Hs)). rewrite windowAfter_snoc, checksOf_snoc.
  destruct (windowAfter times None) as [w|]; cbn [checkWindow snd fst].
  2: { split; [done|]. intros b Hb. apply Forall_app in Hb as [_ Hb]. apply Forall_cons in Hb as [Hb _].
       rewrite allowedIn_app, allowedIn_cons. cbn [isAllowed windowStart count andb].
       destruct (Z.leb_spec t t), (Z.ltb_spec t b); try lia. pose proof (allowedIn_nonneg t b (checksOf times None)).
       cbn [andb]. pose proof (allowedIn_nonneg t b []). lia. }
  destruct IH as [Hin IH]. specialize (Hle _ Hin) as Hwt.
  destruct (windowMs <=? t - windowStart w); [|destruct (maxPerWindow <=? count w)]; cbn [fst snd windowStart count];
    (split; [by (done || (apply elem_of_app; left))|]); intros b Hb; apply Forall_app in Hb as [Hb1 Hb];
    apply Forall_cons in Hb as [Hb _]; rewrite allowedIn_app, allowedIn_cons; cbn [isAllowed andb]; specialize (IH b Hb1);
    change (allowedIn _ b []) with 0.
  - destruct (Z.leb_spec t t), (Z.ltb_spec t b); try lia. cbn [andb]. pose proof (allowedIn_nonneg t b (checksOf times None)). lia.
  - lia.
  - destruct (Z.leb_spec (windowStart w) t), (Z.ltb_spec t b); try lia. cbn [andb]. lia.
Qed.

(** What the limiter guarantees.  Whatever the requests of anybody, as long as
    the clock does not run backwards: in every stretch as long as the window a
    principal is allowed at most twice the limit less one; a request is refused only
    when the limit has been used up within the window's length before it; and the
    time to wait it is told is positive and at most a window. *)
Theorem rate_limit_bounds (requests : list (string * Z)) (p : string) (a : Z) :
  0 < windowMs -> StronglySorted Z.le (timesOf p requests) ->
  allowedIn a (a + windowMs) (of_ p (checks requests [])) <= 2 * Z.max 1 maxPerWindow - 1
  /\ forall before t r after, of_ p (checks requests []) = before ++ (t, denied r) :: after ->
       maxPerWindow <= allowedIn (t - windowMs + 1) (t + 1) before /\ 0 < r <= windowMs.
Proof.
  intros Hw Hs. rewrite checks_of. cbn [JMap.get]. split; [by apply allowed_stretch|].
  intros before t r after E.
  assert (exists ts us, timesOf p requests = ts ++ t :: us /\ before = checksOf ts None
          /\ denied r = (checkWindow (windowAfter ts None) t).1) as (ts & us & Ets & -> & Er).
  { revert E. generalize (timesOf p requests) as l, (@None Window) as s, before. clear.
    induction l as [|u l IH]; intros s before E; [by destruct before|]. cbn [checksOf] in E.
    destruct (checkWindow s u) as [d s'] eqn:Ec. destruct before as [|x before]; cbn [app] in E; injection E as E1 E.
    - simplify_eq. exists [], l. cbn. by rewrite Ec.
    - subst x. apply IH in E as (ts & us & -> & -> & Hr). exists (u :: ts), us. cbn [checksOf windowAfter app]. by rewrite Ec. }
  rewrite Ets in Hs. assert (StronglySorted Z.le ts) as Hts by (by apply Arr.sorted_prefix in Hs).
  assert (forall u, u ∈ ts -> u <= t) as Hle by (intros u Hu; apply (Arr.sorted_app _ _ _ Hs); [done|left]).
  pose proof (window_counts ts Hts) as Hc. destruct (windowAfter ts None) as [w|]; cbn [checkWindow fst] in Er; [|done].
  destruct Hc as [Hin Hc]. specialize (Hle _ Hin) as Hwt.
  destruct (Z.leb_spec windowMs (t - windowStart w)); [done|]. destruct (Z.leb_spec maxPerWindow (count w)); [|done].
  injection Er as ->. split; [|lia].
  etransitivity; [|apply (allowedIn_mono (windowStart w)); lia].
  etransitivity; [eassumption|]. apply Hc. apply Forall_forall. intros u Hu%Hle. lia.
Qed.
End limiter.
End RateLimiter.

(** ** Budgets *)
Module Budget.
Record Spend := mkSpend { at_ : Z; usd : Num.t }.

Definition DEFAULT_BUDGET_WINDOW_MS : Z := 86400000.
Definition orgKey : string := "@org".

Record BudgetCheck := mkBudgetCheck { ok : bool; spentUsd : Num.t; limit : Num.t }.

Definition estimateCostUsd (inputTokens : Z) (usdPerMTok : Num.t) : Num.t :=
  Num.mul (Num.div (Num.of_Z inputTokens) (Num.of_Z 1000000)) usdPerMTok.

Definition total (l : list Spend) : Num.t := foldl (fun s e => Num.add s (usd e)) (Num.of_Z 0) l.

Section tracker.
(** The options; absent limits are infinite. *)
Variables limitUsd orgLimitUsd : Num.t.
Variable windowMs : Z.

Definition recent (now : Z) (l : list Spend) : list Spend := List.filter (fun e => now - windowMs <=? at_ e) l.

Definition spentIn (principalId : string) (now : Z) (spend : jmap string (list Spend))
    : Num.t * jmap string (list Spend) :=
  let kept := recent now (default [] (JMap.get spend principalId)) in
  (total kept, JMap.set spend principalId kept).

Definition check (principalId : string) (now : Z) (spend : jmap string (list Spend))
    : BudgetCheck * jmap string (list Spend) :=
  let '(spentUsd, spend) := spentIn principalId now spend in
  if Num.ge spentUsd limitUsd then (mkBudgetCheck false spentUsd limitUsd, spend) else
  let '(orgSpent, spend) := spentIn orgKey now spend in
  (mkBudgetCheck (Num.lt orgSpent orgLimitUsd) orgSpent orgLimitUsd, spend).

Definition push (spend : jmap string (list Spend)) (key : string) (e : Spend) : jmap string (list Spend) :=
  JMap.set spend key (default [] (JMap.get spend key) ++ [e]).

Definition record (principalId : string) (costUsd : Num.t) (now : Z) (spend : jmap string (list Spend))
    : jmap string (list Spend) :=
  let e := mkSpend now costUsd in push (push spend principalId e) orgKey e.

(** *** The specification: nothing is ever forgotten *)
Inductive op := op_check (principalId : string) | op_record (principalId : string) (costUsd : Num.t).

(** The full history: who spent what when. *)
Definition history : Type := list (string * Spend).

(** What counts towards a key: what was spent under it, and everything for the
    organisation (twice, if its key is used as a principal). *)
Definition spentBy (key : string) (h : history) : list Spend :=
  concat (map (fun x => map (fun _ => x.2) (List.filter (fun k => k === key) [x.1; orgKey])) h).

Definition specCheck (principalId : string) (now : Z) (h : history) : BudgetCheck :=
  let mine := total (recent now (spentBy principalId h)) in
  if Num.ge mine limitUsd then mkBudgetCheck false mine limitUsd
  else let all := total (recent now (spentBy orgKey h)) in mkBudgetCheck (Num.lt all orgLimitUsd) all orgLimitUsd.

Fixpoint specRun (ops : list (Z * op)) (h : history) : list BudgetCheck :=
  match ops with
  | [] => []
  | (now, op_check p) :: rest => specCheck p now h :: specRun rest h
  | (now, op_record p c) :: rest => specRun rest (h ++ [(p, mkSpend now c)])
  end.

Fixpoint run (ops : list (Z * op)) (spend : jmap string (list Spend)) : list BudgetCheck :=
  match ops with
  | [] => []
  | (now, op_check p) :: rest => let '(r, spend) := check p now spend in r :: run rest spend
  | (now, op_record p c) :: rest => run rest (record p c now spend)
  end.

(** From [t] on the store and the history cannot be told apart. *)
Definition agree (t : Z) (h : history) (spend : jmap string (list Spend)) : Prop :=
  forall key now, t <= now -> recent now (default [] (JMap.get spend key)) = recent now (spentBy key h).

Lemma recent_recent now now' l : now <= now' -> recent now' (recent now l) = recent now' l.
Proof.
  intros Hn. unfold recent. rewrite Arr.filter_filter. apply Arr.filter_ext. intros e _.
  destruct (Z.leb_spec (now' - windowMs) (at_ e)), (Z.leb_spec (now - windowMs) (at_ e)); try done; lia.
Qed.

Lemma recent_app now l1 l2 : recent now (l1 ++ l2) = recent now l1 ++ recent now l2.
Proof. apply List.filter_app. Qed.

Lemma agree_later t t' h spend : t <= t' -> agree t h spend -> agree t' h spend.
Proof. intros Ht H key now Hn. apply H. lia. Qed.

Lemma spentIn_agree key now h spend n spend' :
  agree now h spend -> spentIn key now spend = (n, spend') ->
  n = total (recent now (spentBy key h)) /\ agree now h spend'.
Proof.
  unfold spentIn. intros Ha [= <- <-]. rewrite (Ha key now) by lia. split; [done|].
  intros k now' Hn. rewrite JMap.get_set. case_decide as Ek; [|by apply Ha]. subst k. cbn [from_option]. unfold id. by apply recent_recent.
Qed.

Lemma spentBy_snoc key h p e :
  spentBy key (h ++ [(p, e)]) = spentBy key h ++ map (fun _ => e) (List.filter (fun k => k === key) [p; orgKey]).
Proof. unfold spentBy. rewrite map_app, concat_app. cbn [map concat fst snd]. by rewrite app_nil_r. Qed.

Lemma push_get spend k e key :
  default [] (JMap.get (push spend k e) key)
  = default [] (JMap.get spend key) ++ (if k === key then [e] else []).
Proof.
  unfold push. rewrite JMap.get_set. case_decide as E.
  - subst k. by rewrite bool_decide_eq_true_2.
  - rewrite bool_decide_eq_false_2 by done. by rewrite app_nil_r.
Qed.

Lemma record_agree t p c now h spend : agree t h spend -> agree t (h ++ [(p, mkSpend now c)]) (record p c now spend).
Proof.
  intros Ha key now' Hn. unfold record. rewrite !push_get, spentBy_snoc, <- app_assoc, !recent_app, (Ha key now' Hn).
  f_equal. rewrite <- recent_app. f_equal. cbn [List.filter].
  by destruct (bool_decide (p = key)), (bool_decide (orgKey = key)).
Qed.

Lemma run_spec ops : forall t h spend,
  agree t h spend -> StronglySorted Z.le (map fst ops) -> Forall (Z.le t) (map fst ops) -> run ops spend = specRun ops h.
Proof.
  induction ops as [|[now [p|p c]] ops IH]; intros t h spend Ha Hs Ht; [done| |];
    cbn [map fst] in Hs, Ht; inversion Hs as [|? ? Hs' Hnow]; subst; apply Forall_cons in Ht as [Htn Ht]; cbn [run specRun].
  - unfold check, specCheck. apply (agree_later _ now) in Ha; [|done].
    destruct (spentIn p now spend) as [n spend1] eqn:E1. destruct (spentIn_agree _ _ _ _ _ _ Ha E1) as [-> Ha1].
    destruct (Num.ge _ _); [f_equal; by apply (IH now)|].
    destruct (spentIn orgKey now spend1) as [n2 spend2] eqn:E2. destruct (spentIn_agree _ _ _ _ _ _ Ha1 E2) as [-> Ha2].
    f_equal. by apply (IH now).
  - apply (IH t); [by apply record_agree|done|done].
Qed.

(** C28: forgetting is invisible.  The tracker, which drops spending that has left
    the window whenever it looks, answers every sequence of checks and records, at
    times that do not go backwards, exactly like a specification that keeps the
    whole history and sums over the window, down to the rounding. *)
Theorem budget_refines_history (ops : list (Z * op)) :
  StronglySorted Z.le (map fst ops) -> run ops [] = specRun ops [].
Proof.
  intros Hs. destruct ops as [|[t o] ops]; [done|].
  apply (run_spec _ t); [by intros key now _|done|].
  cbn [map fst] in *. inversion Hs; subst. constructor; [lia|done].
Qed.
End tracker.

Lemma budget_refines_history_witness :
  let ops := [(0, op_record "ann" (Num.of_Z 3)); (5, op_check "ann"); (20, op_check "ann")] in
  run (Num.of_Z 2) Num.infinity 10 ops [] = specRun (Num.of_Z 2) Num.infinity 10 ops []
  /\ map ok (run (Num.of_Z 2) Num.infinity 10 ops []) = [false; true].
Proof.
  intros ops. split; [|vm_compute; reflexivity].
  apply (budget_refines_history (Num.of_Z 2) Num.infinity 10 ops). repeat constructor; cbn; lia.
Defined.
End Budget.

Lemma rate_limit_bounds_witness :
  let requests := [("ann", 0); ("ann", 9); ("bob", 9); ("ann", 10); ("ann", 11); ("ann", 12)] in
  RateLimiter.allowedIn 9 19 (RateLimiter.of_ "ann" (RateLimiter.checks 2 10 requests [])) = 3
  /\ RateLimiter.allowedIn 9 (9 + 10) (RateLimiter.of_ "ann" (RateLimiter.checks 2 10 requests [])) <= 2 * Z.max 1 2 - 1.
Proof.
  intros requests. split; [vm_compute; reflexivity|].
  apply (RateLimiter.rate_limit_bounds 2 10 requests "ann" 9); [lia|repeat constructor; cbn; lia].
Defined.
