(* ===== verification/Tasks.v ===== *)
(** * Tasks

    [src/tasks/task-store.ts] and [src/tasks/memory-task-store.ts]: the tasks a run
    keeps on its list, and the log of what became of each.  The store hands out
    copies, so nobody changes a task but through it. *)

From Stdlib Require Import ZArith Lia.
From S2P Require Import Prelude Collections Scopes Turns.
Open Scope Z_scope.

Inductive TaskEventType := ev_created | ev_status_changed.

Module TaskEvent.
Record t := mk {
  id : string; taskId : string; runId : string; type : TaskEventType;
  fromStatus : option TaskStatus; toStatus : TaskStatus; createdAt : Z;
}.
End TaskEvent.

Record CreateTaskInput := mkTaskInput {
  t_id : option string; t_sessionId : string; t_originRunId : string; t_title : string; t_status : option TaskStatus;
}.

(** [TaskFilter]; an [OpenTaskFilter] has no statuses. *)
Record TaskFilter := mkFilter {
  f_sessionId : option string; f_originRunId : option string; f_statuses : option (list TaskStatus);
}.

Definition isOpenTask (status : TaskStatus) : bool :=
  (status === task_pending) || (status === task_in_progress).

Record Store := mkStore { tasks : jmap string Task.t; events : jmap string (list TaskEvent.t); nextEventId : Z }.

Definition empty : Store := mkStore [] [] 1.

Definition eventsOf (st : Store) (taskId : string) : list TaskEvent.t := default [] (JMap.get (events st) taskId).

Definition appendEvent (taskId runId : string) (fromStatus : option TaskStatus) (toStatus : TaskStatus) (at_ : Z)
    (st : Store) : Store :=
  let e := TaskEvent.mk (Str.showZ (nextEventId st)) taskId runId
             (match fromStatus with None => ev_created | Some _ => ev_status_changed end) fromStatus toStatus at_ in
  mkStore (tasks st) (JMap.set (events st) taskId (eventsOf st taskId ++ [e])) (nextEventId st + 1).

Definition matches (task : Task.t) (filter : TaskFilter) : bool :=
  match f_sessionId filter with Some s => Task.sessionId task === s | None => true end
  && match f_originRunId filter with Some r => Task.originRunId task === r | None => true end.

(** The order of [localeCompare] is the runtime's. *)
Definition byCreation (localeLeb : string -> string -> bool) (a b : Task.t) : bool :=
  (Task.createdAt a <? Task.createdAt b)
  || ((Task.createdAt a =? Task.createdAt b) && localeLeb (Task.id a) (Task.id b)).

Section store.
Variable localeLeb : string -> string -> bool.

Definition ordered (values : list Task.t) : list Task.t := Arr.sort (byCreation localeLeb) values.

Definition create (input : CreateTaskInput) (uuid : string) (now : Z) (st : Store) : outcome Task.t * Store :=
  let id := default uuid (t_id input) in
  if JMap.has (tasks st) id then (Throw ("task " +:+ id +:+ " already exists"), st) else
  let task := Task.mk id (t_sessionId input) (t_originRunId input) (t_title input)
                (default task_pending (t_status input)) now now in
  (Ok task, appendEvent id (t_originRunId input) None (Task.status task) now
              (mkStore (JMap.set (tasks st) id task) (events st) (nextEventId st))).

Definition get (id : string) (st : Store) : option Task.t := JMap.get (tasks st) id.

Definition list_ (filter : TaskFilter) (st : Store) : list Task.t :=
  ordered (List.filter (fun task => matches task filter
     && match f_statuses filter with Some l => bool_decide (Task.status task ∈ l) | None => true end)
     (JMap.values (tasks st))).

Definition listOpen (filter : TaskFilter) (st : Store) : list Task.t :=
  ordered (List.filter (fun task => matches task filter && isOpenTask (Task.status task)) (JMap.values (tasks st))).

Definition transitionStatus (id : string) (expectedStatus nextStatus : TaskStatus) (runId : string) (now : Z) (st : Store)
    : option Task.t * Store :=
  match JMap.get (tasks st) id with
  | None => (None, st)
  | Some task =>
      if Task.status task !== expectedStatus then (None, st) else
      let task := Task.mk (Task.id task) (Task.sessionId task) (Task.originRunId task) (Task.title task)
                    nextStatus (Task.createdAt task) now in
      (Some task, appendEvent id runId (Some expectedStatus) nextStatus now
                    (mkStore (JMap.set (tasks st) id task) (events st) (nextEventId st)))
  end.

Definition listEvents (taskId : string) (st : Store) : list TaskEvent.t := eventsOf st taskId.

(** ** Calls that change the store *)
Inductive op :=
| op_create (input : CreateTaskInput) (uuid : string) (now : Z)
| op_transition (id : string) (expected next : TaskStatus) (runId : string) (now : Z).

Definition exec (o : op) (st : Store) : Store :=
  match o with
  | op_create input uuid now => (create input uuid now st).2
  | op_transition id e n r now => (transitionStatus id e n r now st).2
  end.

Inductive reachable : Store -> Prop :=
| reachable_empty : reachable empty
| reachable_step o st : reachable st -> reachable (exec o st).

(** ** What the log of a task says *)
(** Each event takes up where the one before left off; the first is the creation. *)
Fixpoint chained (from : option TaskStatus) (l : list TaskEvent.t) : Prop :=
  match l with
  | [] => True
  | e :: rest =>
      TaskEvent.fromStatus e = from
      /\ TaskEvent.type e = (match from with None => ev_created | Some _ => ev_status_changed end)
      /\ chained (Some (TaskEvent.toStatus e)) rest
  end.

(** The status and the time of the last change, told by the log alone. *)
Definition replay (l : list TaskEvent.t) : option (TaskStatus * Z) :=
  (fun e => (TaskEvent.toStatus e, TaskEvent.createdAt e)) <$> last l.

Lemma replay_cons e l : exists p, replay (e :: l) = Some p.
Proof. revert e. induction l as [|x l IH]; intros e; [by eexists|]. apply (IH x). Qed.

Lemma chained_snoc from l e :
  chained from l ->
  TaskEvent.fromStatus e = (match replay l with Some (s, _) => Some s | None => from end) ->
  TaskEvent.type e = (match replay l with Some _ => ev_status_changed
                      | None => match from with None => ev_created | Some _ => ev_status_changed end end) ->
  chained from (l ++ [e]).
Proof.
  revert from. induction l as [|x l IH]; intros from Hc Hf Ht; [by split_and!|].
  destruct Hc as (H1 & H2 & H3). split_and!; [done|done|]. destruct l as [|y l]; [by split_and!|].
  change (replay (x :: y :: l)) with (replay (y :: l)) in Hf, Ht. destruct (replay_cons y l) as [p Hp].
  apply IH; [done| |]; rewrite Hp in *; by destruct p.
Qed.

Lemma replay_snoc l e : replay (l ++ [e]) = Some (TaskEvent.toStatus e, TaskEvent.createdAt e).
Proof. unfold replay. by rewrite last_snoc. Qed.

(** The ids of all events, from the first on. *)
Definition eventIds (st : Store) : list string := map TaskEvent.id (concat (JMap.values (events st))).

Record inv (st : Store) : Prop := mkInv {
  inv_task : forall id, match JMap.get (tasks st) id with
                        | Some t => Task.id t = id /\ replay (eventsOf st id) = Some (Task.status t, Task.updatedAt t)
                        | None => eventsOf st id = []
                        end;
  inv_chain : forall id, chained None (eventsOf st id) /\ Forall (fun e => TaskEvent.taskId e = id) (eventsOf st id);
  inv_ids : forall id, Forall (fun e => exists n, 0 < n < nextEventId st /\ TaskEvent.id e = Str.showZ n) (eventsOf st id);
  inv_next : 0 < nextEventId st;
  inv_unique : forall id id' n n' e e', eventsOf st id !! n = Some e -> eventsOf st id' !! n' = Some e' ->
                 TaskEvent.id e = TaskEvent.id e' -> id = id' /\ n = n';
}.

Lemma eventsOf_append id r f s now st id' :
  eventsOf (appendEvent id r f s now st) id'
  = eventsOf st id' ++ if decide (id = id')
                       then [TaskEvent.mk (Str.showZ (nextEventId st)) id r
                              (match f with None => ev_created | Some _ => ev_status_changed end) f s now]
                       else [].
Proof.
  unfold eventsOf, appendEvent. cbn. rewrite JMap.get_set. case_decide as E; [by subst id'|by rewrite app_nil_r].
Qed.

(** Setting a task and logging the change keeps the invariant. *)
Lemma inv_log st id r f s now t :
  inv st -> Task.id t = id -> Task.status t = s -> Task.updatedAt t = now ->
  f = (fst <$> replay (eventsOf st id)) ->
  inv (appendEvent id r f s now (mkStore (JMap.set (tasks st) id t) (events st) (nextEventId st))).
Proof.
  intros [Ht Hc Hi Hn Hu] <- <- <- Hf. set (id := Task.id t) in *.
  assert (forall id', eventsOf (appendEvent id r f (Task.status t) (Task.updatedAt t)
                        (mkStore (JMap.set (tasks st) id t) (events st) (nextEventId st))) id'
          = eventsOf st id' ++ if decide (id = id')
                       then [TaskEvent.mk (Str.showZ (nextEventId st)) id r
                              (match f with None => ev_created | Some _ => ev_status_changed end) f (Task.status t) (Task.updatedAt t)]
                       else []) as Hev by (intros; by rewrite eventsOf_append).
  split.
  - intros id'. cbn [tasks appendEvent]. rewrite JMap.get_set, Hev. case_decide as E.
    + subst id'. split; [done|]. by rewrite replay_snoc.
    + rewrite app_nil_r. apply Ht.
  - intros id'. rewrite Hev. case_decide as E; [|rewrite app_nil_r; apply Hc]. subst id'. destruct (Hc id) as [H1 H2].
    split; [|apply Forall_app; split; [done|by constructor]].
    apply chained_snoc; [done| |]; cbn; rewrite Hf; by destruct (replay (eventsOf st id)) as [[]|].
  - intros id'. rewrite Hev. cbn [nextEventId appendEvent]. apply Forall_app. split.
    + eapply Forall_impl; [apply Hi|]. cbn. intros e (n & ? & ?). exists n. split; [lia|done].
    + case_decide; [|constructor]. constructor; [|constructor]. exists (nextEventId st). split; [lia|done].
  - cbn. lia.
  - assert (forall id' n e, eventsOf st id' !! n = Some e -> TaskEvent.id e <> Str.showZ (nextEventId st)) as Hfresh.
    { intros id' n e He E. specialize (Hi id'). rewrite Forall_forall in Hi.
      destruct (Hi e (list_elem_of_lookup_2 _ _ _ He)) as (k & Hk & Hek). rewrite Hek in E. apply (inj pretty) in E. lia. }
    intros id1 id2 n1 n2 e1 e2. rewrite !Hev.
    intros [H1|[Hl1 H1]]%lookup_app_Some [H2|[Hl2 H2]]%lookup_app_Some Eid; [by eapply Hu| | |].
    + case_decide; [|done]. apply list_lookup_singleton_Some in H2 as [_ <-]. by destruct (Hfresh _ _ _ H1).
    + case_decide; [|done]. apply list_lookup_singleton_Some in H1 as [_ <-]. by destruct (Hfresh _ _ _ H2).
    + do 2 (case_decide; [|done]). subst id1 id2. apply list_lookup_singleton_Some in H1 as [? _].
      apply list_lookup_singleton_Some in H2 as [? _]. split; [done|lia].
Qed.

Lemma task_exec_inv o st : inv st -> inv (exec o st).
Proof.
  intros Hst. pose proof (inv_task _ Hst) as Ht. destruct o as [input uuid now|id expected next r now]; cbn [exec].
  - unfold create, JMap.has. specialize (Ht (default uuid (t_id input))).
    destruct (JMap.get (tasks st) (default uuid (t_id input))) eqn:E; [done|]. cbn [snd].
    apply inv_log; [done..|]. by rewrite Ht.
  - unfold transitionStatus. specialize (Ht id). destruct (JMap.get (tasks st) id) as [t|]; [|done].
    case_bool_decide as Es; cbn [negb snd]; [|done]. destruct Ht as [Hid Hr]. subst id expected.
    apply inv_log; [done..|]. by rewrite Hr.
Qed.

Lemma task_reachable_inv st : reachable st -> inv st.
Proof.
  induction 1 as [|o st _ IH]; [|by apply task_exec_inv]. by split; cbn; intros; repeat constructor.
Qed.

(** The log of a task is the truth about it.  In every reachable store a task
    exists exactly when it has events; its status and the time of its last change
    are what its log alone says; the log begins with the creation and every event
    takes up the status the one before left; and no two events, of any tasks, share
    an id. *)
Theorem task_log_is_truth (st : Store) (id : string) :
  reachable st ->
  ((exists t, get id st = Some t) <-> listEvents id st <> [])
  /\ (forall t, get id st = Some t -> replay (listEvents id st) = Some (Task.status t, Task.updatedAt t))
  /\ chained None (listEvents id st)
  /\ (forall id' n n' e e', listEvents id st !! n = Some e -> listEvents id' st !! n' = Some e' ->
        TaskEvent.id e = TaskEvent.id e' -> id = id' /\ n = n').
Proof.
  intros [Ht Hc _ _ Hu]%task_reachable_inv. unfold get, listEvents. specialize (Ht id). split_and!.
  - destruct (JMap.get (tasks st) id) as [t|]; split; [|by eexists|by intros [? ?]|by rewrite Ht].
    intros _ E. rewrite E in Ht. by destruct Ht.
  - intros t E. rewrite E in Ht. apply Ht.
  - apply Hc.
  - intros id'. apply Hu.
Qed.

(** A status changes by compare and swap.  A transition succeeds exactly when
    the task exists and still has the expected status; it then sets the status and
    the time and logs the change under the run that made it, and changes no other
    task; otherwise the store stays as it is. *)
Theorem transition_compare_and_swap (id : string) (expected next : TaskStatus) (runId : string) (now : Z) (st st' : Store)
    (r : option Task.t) :
  transitionStatus id expected next runId now st = (r, st') ->
  (is_Some r <-> exists t, get id st = Some t /\ Task.status t = expected)
  /\ (r = None -> st' = st)
  /\ (forall t', r = Some t' -> get id st' = Some t' /\ Task.status t' = next /\ Task.updatedAt t' = now
       /\ exists e, listEvents id st' = listEvents id st ++ [e] /\ TaskEvent.fromStatus e = Some expected
            /\ TaskEvent.toStatus e = next /\ TaskEvent.runId e = runId)
  /\ (forall j, j <> id -> get j st' = get j st /\ listEvents j st' = listEvents j st).
Proof.
  unfold transitionStatus, get, listEvents. destruct (JMap.get (tasks st) id) as [t|] eqn:E.
  2: { intros [= <- <-]. split_and!; try done. split; [by intros [? ?]|by intros (? & ? & ?)]. }
  case_bool_decide as Es; cbn [negb].
  2: { intros [= <- <-]. split_and!; try done. split; [by intros [? ?]|]. intros (t0 & [= <-] & ?). done. }
  intros [= <- <-]. split_and!.
  - split; [intros _; by exists t|by eexists].
  - done.
  - intros t' [= <-]. cbn [tasks appendEvent]. rewrite JMap.get_set_eq. split_and!; try done.
    rewrite eventsOf_append, decide_True by done. eexists. by split_and!.
  - intros j Hj. cbn [tasks appendEvent]. rewrite JMap.get_set_ne, eventsOf_append, decide_False by done.
    split; [done|]. by rewrite app_nil_r.
Qed.
End store.

(** ** Witnesses *)
Definition demoTasks : Store :=
  exec (op_transition "t" task_pending task_completed "r" 2)
    (exec (op_create (mkTaskInput (Some "t") "s" "r" "write" None) "u" 1) empty).

Lemma task_log_is_truth_witness :
  replay (listEvents "t" demoTasks) = Some (task_completed, 2) /\ chained None (listEvents "t" demoTasks).
Proof.
  destruct (task_log_is_truth demoTasks "t") as (_ & H & Hc & _); [repeat constructor|].
  split; [|exact Hc]. apply (H (Task.mk "t" "s" "r" "write" task_completed 1 2)). vm_compute. reflexivity.
Defined.

Lemma transition_compare_and_swap_witness :
  exists t, get "t" (transitionStatus "t" task_completed task_failed "r2" 3 demoTasks).2 = Some t /\ Task.status t = task_failed.
Proof.
  destruct (transitionStatus "t" task_completed task_failed "r2" 3 demoTasks) as [r st'] eqn:E.
  destruct (transition_compare_and_swap "t" task_completed task_failed "r2" 3 demoTasks st' r E) as (Hr & _ & Hs & _).
  destruct Hr as [_ Hr]. destruct Hr as [t Ht].
  - exists (Task.mk "t" "s" "r" "write" task_completed 1 2). split; vm_compute; reflexivity.
  - destruct (Hs t Ht) as (Hg & Hst & _). exists t. split; [exact Hg|exact Hst].
Defined.
