(* ===== verification/Auth.v ===== *)
(** * Tokens and signed requests

    [Tokens] is [src/auth/signed-token.ts], [src/auth/capability-token.ts] and
    [src/auth/portal-identity.ts]: claims signed under one of several secrets.
    [Replay] is [src/auth/replay-dedupe.ts] and [Source] is
    [src/auth/source-auth.ts]: requests signed by a surface, each accepted once.
    The cryptography (HMAC-SHA256, the JWS functions of the library jose), JSON and
    the runtime's time zones are parameters. *)

From Stdlib Require Import ZArith Lia Ascii.
From S2P Require Import Prelude Collections Scopes TapeFold.
Open Scope Z_scope.

(** ** Signed payloads and capabilities *)
Module Tokens.

(** What stands before and after the last occurrence of [c]. *)
Fixpoint splitLast (c : ascii) (s : string) : option (string * string) :=
  match s with
  | EmptyString => None
  | String d rest =>
      match splitLast c rest with
      | Some (a, b) => Some (String d a, b)
      | None => if d === c then Some ("", rest) else None
      end
  end.

Section tokens.
(** [signingKeyId]; the signing of a text under a key id and secret; its
    verification, which gives the text or fails; the reading of the key id. *)
Variable signingKeyId : string -> string.
Variable compactSign : string -> string -> string -> string.
Variable compactVerify : string -> string -> outcome string.
Variable headerKid : string -> outcome (option string).
(** The two renderings of an HMAC; the lenient base64url decoder. *)
Variable hmacBase64url hmacHex : string -> string -> string.
Variable fromBase64url : string -> string.
Variable jsonStringify : json -> string.
Variable jsonParse : string -> outcome json.
Variable validTimezone : string -> bool.

Definition mintSignedPayload (value : json) (secret : string) : string :=
  compactSign (jsonStringify value) (signingKeyId secret) secret.

Fixpoint legacyAmong (payload sig : string) (secrets : list string) : option json :=
  match secrets with
  | [] => None
  | secret :: rest =>
      if (hmacBase64url secret payload !== sig) && (hmacHex secret payload !== sig) then legacyAmong payload sig rest
      else match jsonParse (fromBase64url payload) with Ok v => Some v | Throw _ => None end
  end.

Definition verifyLegacyPayload (token : string) (secrets : list string) : option json :=
  match splitLast "." token with
  | Some (payload, sig) => if payload === "" then None else legacyAmong payload sig secrets
  | None => None
  end.

Fixpoint verifyAmong (token : string) (candidates : list string) : option json :=
  match candidates with
  | [] => None
  | secret :: rest =>
      match compactVerify token secret with
      | Ok payload => match jsonParse payload with Ok v => Some v | Throw _ => verifyAmong token rest end
      | Throw _ => verifyAmong token rest
      end
  end.

(** The secrets the key id names first. *)
Definition orderedSecrets (kid : option string) (secrets : list string) : list string :=
  match kid with
  | None => secrets
  | Some k => Arr.sort (fun a b => (signingKeyId a === k) || negb (signingKeyId b === k)) secrets
  end.

Definition verifySignedPayload (token : string) (secrets : list string) : option json :=
  if negb (length (Str.split "." token) =? 3)%nat then verifyLegacyPayload token secrets else
  match headerKid token with
  | Throw _ => None
  | Ok kid => verifyAmong token (orderedSecrets kid secrets)
  end.

Definition CAPABILITY_TTL_MS : Z := 60 * 60000.
Definition BLOB_TRANSFER_AUD : string := "blob-transfer".

(** [{ orgId, ...claims }] *)
Definition mintCapabilityToken (orgId : string) (claims : list (string * json)) (secret : string) : string :=
  mintSignedPayload (JObj (foldl (fun acc p => setField p.1 p.2 acc) [("orgId", JStr orgId)] claims)) secret.

Definition isValidCapabilityTimezone (timezone : json) : bool :=
  match timezone with
  | JStr tz =>
      negb ((String.length tz =? 0)%nat || (64 <? String.length tz)%nat || (Str.trim tz !== tz)) && validTimezone tz
  | _ => false
  end.

Definition given (v : json) : bool := match v with JUndefined => false | _ => true end.
Definition isStr (v : json) : bool := match v with JStr _ => true | _ => false end.
Definition isNum (v : json) : bool := match v with JNum _ => true | _ => false end.
Definition isArr (v : json) : bool := match v with JArr _ => true | _ => false end.
Definition isBool (v : json) : bool := match v with JBool _ => true | _ => false end.

(** The checks of [verifyCapabilityToken] up to the time. *)
Definition wellTyped (claims : json) : bool :=
  let f k := json_field k claims in
  json_truthy claims && isStr (f "actorId") && isStr (f "scopeId") && isNum (f "exp")
  && negb (given (f "timezone") && negb (isValidCapabilityTimezone (f "timezone")))
  && negb (given (f "scopeVersion") && negb (isStr (f "scopeVersion")))
  && negb (given (f "destinations") && negb (isArr (f "destinations")))
  && negb (given (f "credentials") && negb (isArr (f "credentials")))
  && negb (given (f "keychainMembers") && negb (isArr (f "keychainMembers")))
  && negb (given (f "memory") && negb (isArr (json_field "read" (f "memory"))))
  && negb (given (f "liveActor") && negb (isBool (f "liveActor")))
  && negb (given (f "liveAuthor") && negb (isBool (f "liveAuthor")))
  && negb (given (f "blob") && negb (json_is_str "read" (json_field "dir" (f "blob")))
           && negb (json_is_str "write" (json_field "dir" (f "blob"))))
  && negb (given (f "drop") && negb (isStr (f "drop"))).

Definition unexpired (claims : json) (now : Z) : bool :=
  match json_field "exp" claims with JNum e => negb (e <=? now) | _ => false end.

Definition verifyCapabilityToken (token : string) (secrets : list string) (now : Z) : option json :=
  match verifySignedPayload token secrets with
  | Some claims => if wellTyped claims && unexpired claims now then Some claims else None
  | None => None
  end.

(** [/^[0-9a-f]{32}$/] *)
Definition isHexDigit (c : ascii) : bool :=
  let n := N_of_ascii c in ((48 <=? n) && (n <=? 57))%N || ((97 <=? n) && (n <=? 102))%N.

Fixpoint allHex (s : string) : bool :=
  match s with EmptyString => true | String c rest => isHexDigit c && allHex rest end.

Definition isBlobId (s : string) : bool := (String.length s =? 32)%nat && allHex s.

Inductive BlobAccess := blob_read (id : string) | blob_write.

Definition verifyBlobTransferCapability (token : string) (secrets : list string) (expected : BlobAccess) (now : Z)
    : option json :=
  match verifyCapabilityToken token secrets now with
  | None => None
  | Some claims =>
      let grant := json_field "blob" claims in
      let dir := match expected with blob_read _ => "read" | blob_write => "write" end in
      if negb (json_is_str BLOB_TRANSFER_AUD (json_field "aud" claims)) || negb (json_truthy grant)
         || negb (json_is_str dir (json_field "dir" grant)) then None else
      let id := json_field "id" grant in
      if given id && negb (match id with JStr s => isBlobId s | _ => false end) then None else
      match expected with
      | blob_read want => if json_is_str want id then Some claims else None
      | blob_write => if given id then None else Some claims
      end
  end.

Definition verifyPortalIdentity (token secret : string) (nowMs : Z) : option json :=
  match verifySignedPayload token [secret] with
  | Some claims =>
      match json_truthy claims, json_field "p" claims, json_field "exp" claims with
      | true, JStr p, JNum e => if Str.truthy p && negb (e <? nowMs) then Some claims else None
      | _, _, _ => None
      end
  | None => None
  end.

(** ** Facts *)
Lemma verifyAmong_sound token candidates v :
  verifyAmong token candidates = Some v ->
  exists secret payload, secret ∈ candidates /\ compactVerify token secret = Ok payload /\ jsonParse payload = Ok v.
Proof.
  induction candidates as [|secret rest IH]; cbn; [done|].
  destruct (compactVerify token secret) as [payload|] eqn:Ev.
  - destruct (jsonParse payload) as [w|] eqn:Ep.
    + intros [= <-]. exists secret, payload. split_and!; [left|done|done].
    + intros (s & p & ? & ? & ?)%IH. exists s, p. split_and!; [by right|done|done].
  - intros (s & p & ? & ? & ?)%IH. exists s, p. split_and!; [by right|done|done].
Qed.

Lemma legacyAmong_sound payload sig secrets v :
  legacyAmong payload sig secrets = Some v ->
  exists secret, secret ∈ secrets /\ (hmacBase64url secret payload = sig \/ hmacHex secret payload = sig)
    /\ jsonParse (fromBase64url payload) = Ok v.
Proof.
  induction secrets as [|secret rest IH]; cbn; [done|].
  destruct ((hmacBase64url secret payload !== sig) && _) eqn:E.
  - intros (s & ? & ? & ?)%IH. exists s. split_and!; [by right|done|done].
  - apply andb_false_iff in E as [E|E]; js_bool; destruct (jsonParse _) eqn:Ep; try done; intros [= <-];
      exists secret; split_and!; auto; left.
Qed.

Lemma splitLast_spec c s a b : splitLast c s = Some (a, b) -> s = a +:+ String c b.
Proof.
  revert a. induction s as [|d s IH]; intros a; cbn; [done|]. destruct (splitLast c s) as [[x y]|].
  - intros [= <- <-]. by rewrite (IH x eq_refl).
  - case_bool_decide; [|done]. intros [= <- <-]. by subst d.
Qed.

Lemma elem_of_ordered kid secrets s : s ∈ orderedSecrets kid secrets <-> s ∈ secrets.
Proof. destruct kid; cbn; [apply Arr.elem_of_sort|done]. Qed.

Lemma json_is_str_iff (w : string) (v : json) : json_is_str w v = true <-> v = JStr w.
Proof. destruct v; cbn; split; try done; [intros H; by js_bool|]. intros [= ->]. by apply bool_decide_eq_true. Qed.

Lemma given_undefined (v : json) : given v = false <-> v = JUndefined.
Proof. by destruct v. Qed.

Lemma dir_truthy (g : json) (d : string) : json_field "dir" g = JStr d -> json_truthy g = true.
Proof. by destruct g. Qed.

(** When the claims of a token let it transfer a blob. *)
Lemma blob_let_through token secrets now claims access :
  verifyCapabilityToken token secrets now = Some claims ->
  verifyBlobTransferCapability token secrets access now = Some claims <->
  json_field "aud" claims = JStr BLOB_TRANSFER_AUD
  /\ match access with
     | blob_read id => json_field "dir" (json_field "blob" claims) = JStr "read"
         /\ json_field "id" (json_field "blob" claims) = JStr id /\ isBlobId id = true
     | blob_write => json_field "dir" (json_field "blob" claims) = JStr "write"
         /\ json_field "id" (json_field "blob" claims) = JUndefined
     end.
Proof.
  intros Hv. unfold verifyBlobTransferCapability. rewrite Hv. cbv zeta.
  set (g := json_field "blob" claims). set (dir := match access with blob_read _ => "read" | _ => "write" end).
  rewrite <-(json_is_str_iff BLOB_TRANSFER_AUD). destruct (json_is_str BLOB_TRANSFER_AUD _); cbn [negb orb]; [|by split; [|intros [? _]]].
  destruct (json_is_str dir (json_field "dir" g)) eqn:Ed; cbn [negb orb].
  - apply json_is_str_iff in Ed. rewrite (dir_truthy _ _ Ed); cbn [negb orb]. destruct access as [id|]; subst dir; rewrite Ed.
    + destruct (json_is_str id (json_field "id" g)) eqn:Ei.
      * apply json_is_str_iff in Ei. rewrite Ei. cbn. destruct (isBlobId id); by split; [|intros (_ & _ & _ & ?)].
      * destruct (given _ && _); (split; [done|]); intros (_ & _ & Hi & _); apply json_is_str_iff in Hi; congruence.
    + destruct (given (json_field "id" g)) eqn:Eg; cbn.
      * split; [by destruct (negb _)|]. intros (_ & _ & Hi). by rewrite Hi in Eg.
      * apply given_undefined in Eg. by rewrite Eg.
  - rewrite orb_true_r. split; [done|]. intros [_ H].
    destruct access; [destruct H as [H _]|destruct H as [H _]]; apply json_is_str_iff in H; subst dir; congruence.
Qed.

(** C32: only signed claims are believed.  Claims are accepted only if one of the
    secrets verifies the token they are read from, as a JWS or in the older format
    of a payload, a dot and its HMAC; they carry an actor, a scope and an expiry
    that has not come.  A blob transfer is let through exactly when the claims are
    for blob transfers and grant this very direction: a read the one blob its grant
    names, which is a well-formed id, a write by a grant that names none. *)
Theorem capability_authentic (token : string) (secrets : list string) (now : Z) (claims : json) (access : BlobAccess) :
  verifyCapabilityToken token secrets now = Some claims ->
  (exists secret, secret ∈ secrets
     /\ ((exists payload, compactVerify token secret = Ok payload /\ jsonParse payload = Ok claims)
         \/ (exists payload sig, token = payload +:+ "." +:+ sig
             /\ (hmacBase64url secret payload = sig \/ hmacHex secret payload = sig)
             /\ jsonParse (fromBase64url payload) = Ok claims)))
  /\ (exists actor scope e, json_field "actorId" claims = JStr actor /\ json_field "scopeId" claims = JStr scope
        /\ json_field "exp" claims = JNum e /\ now < e)
  /\ (verifyBlobTransferCapability token secrets access now = Some claims <->
      json_field "aud" claims = JStr BLOB_TRANSFER_AUD
      /\ match access with
         | blob_read id => json_field "dir" (json_field "blob" claims) = JStr "read"
             /\ json_field "id" (json_field "blob" claims) = JStr id /\ isBlobId id = true
         | blob_write => json_field "dir" (json_field "blob" claims) = JStr "write"
             /\ json_field "id" (json_field "blob" claims) = JUndefined
         end).
Proof.
  intros Hv. pose proof Hv as Hcap. unfold verifyCapabilityToken in Hv.
  destruct (verifySignedPayload token secrets) as [v|] eqn:Es; [|done].
  destruct (wellTyped v) eqn:Ew; [|done]. destruct (unexpired v now) eqn:Eu; cbn [andb] in Hv; [|done].
  injection Hv as ->. split_and!.
  - revert Es. unfold verifySignedPayload. destruct (_ =? 3)%nat; cbn [negb].
    + destruct (headerKid token) as [kid|]; [|done].
      intros (s & p & Hs & ? & ?)%verifyAmong_sound. exists s. split; [by apply elem_of_ordered in Hs|]. left. by exists p.
    + unfold verifyLegacyPayload. destruct (splitLast "." token) as [[p sig]|] eqn:Ed; [|done].
      case_bool_decide; [done|]. intros (s & Hs & Hm & Hp)%legacyAmong_sound. exists s. split; [done|]. right.
      exists p, sig. split; [by apply splitLast_spec|by split].
  - unfold wellTyped in Ew. unfold unexpired in Eu. rewrite !andb_true_iff in Ew.
    destruct Ew as [[[[[[[[[[[[[_ Ha] Hs] He] _] _] _] _] _] _] _] _] _] _].
    destruct (json_field "actorId" claims) as [| | | |a| |]; try done.
    destruct (json_field "scopeId" claims) as [| | | |s| |]; try done.
    destruct (json_field "exp" claims) as [| | |e| | |]; try done. exists a, s, e. split_and!; try done.
    apply negb_true_iff, Z.leb_gt in Eu. done.
  - by apply blob_let_through.
Qed.

Lemma verifyAmong_complete token candidates secret text v :
  secret ∈ candidates -> compactVerify token secret = Ok text -> jsonParse text = Ok v ->
  (forall s t, compactVerify token s = Ok t -> t = text) -> verifyAmong token candidates = Some v.
Proof.
  intros Hin Hv Hp Hall. induction candidates as [|s rest IH]; [by apply not_elem_of_nil in Hin|]. cbn.
  destruct (compactVerify token s) as [t|] eqn:E.
  - by rewrite (Hall s t E), Hp.
  - apply elem_of_cons in Hin as [<-|Hin]; [congruence|by apply IH].
Qed.

(** A minted capability is accepted until it expires.  With the functions of
    the library doing what they say for this token (it has three parts, its key id
    can be read, it verifies under the secret it was signed with and gives back the
    signed text and no other), the claims come back whole under any list of secrets
    that has the signing one, in any position, as long as they are well typed and
    not expired, and not at all afterwards. *)
Theorem capability_roundtrip (orgId : string) (claims : list (string * json)) (secret : string) (secrets : list string)
    (now : Z) (kid : option string) :
  let payload := JObj (foldl (fun acc p => setField p.1 p.2 acc) [("orgId", JStr orgId)] claims) in
  let token := mintCapabilityToken orgId claims secret in
  length (Str.split "." token) = 3%nat -> headerKid token = Ok kid ->
  compactVerify token secret = Ok (jsonStringify payload) ->
  (forall s t, compactVerify token s = Ok t -> t = jsonStringify payload) ->
  jsonParse (jsonStringify payload) = Ok payload ->
  secret ∈ secrets -> wellTyped payload = true ->
  verifyCapabilityToken token secrets now = if unexpired payload now then Some payload else None.
Proof.
  intros payload token H3 Hk Hv Hall Hp Hin Hw. unfold verifyCapabilityToken, verifySignedPayload.
  rewrite H3, Nat.eqb_refl. cbn [negb]. rewrite Hk.
  rewrite (verifyAmong_complete token _ secret (jsonStringify payload) payload); [|by apply elem_of_ordered|done..].
  by rewrite Hw.
Qed.
End tokens.
End Tokens.

(** ** Each event once *)
Module Replay.
Definition PRUNE_INTERVAL_MS : Z := 60000.

(** [None] for the time of the next pruning is minus infinity. *)
Record Seen := mkSeen { seen : jmap string Z; nextPruneAt : option Z }.

Definition empty : Seen := mkSeen [] None.

Definition pruneDue (t : Z) (st : Seen) : bool := match nextPruneAt st with Some n => n <=? t | None => true end.

Definition prune (t : Z) (st : Seen) : Seen :=
  if pruneDue t st
  then mkSeen (List.filter (fun p => negb (p.2 <? t)) (seen st)) (Some (t + PRUNE_INTERVAL_MS))
  else st.

Definition remembered (eventId : string) (t : Z) (st : Seen) : bool :=
  match JMap.get (seen st) eventId with Some existing => t <=? existing | None => false end.

Definition claim (eventId : string) (expiresAtMs t : Z) (st : Seen) : bool * Seen :=
  let st := prune t st in
  if remembered eventId t st then (false, st)
  else (true, mkSeen (JMap.set (seen st) eventId expiresAtMs) (nextPruneAt st)).

(** The event is remembered until [e], while the time is [t]. *)
Definition holds (eventId : string) (e t : Z) (st : Seen) : Prop :=
  JMap.wf (seen st) /\ (t <= e -> exists x, JMap.get (seen st) eventId = Some x /\ e <= x).

Lemma prune_get t st i x :
  JMap.wf (seen st) -> JMap.get (seen st) i = Some x -> t <= x -> JMap.get (seen (prune t st)) i = Some x.
Proof.
  intros Hwf Hg Hx. unfold prune. destruct (pruneDue t st); [|done]. cbn.
  apply JMap.elem_get; [by apply JMap.wf_filter|]. apply Arr.elem_of_filter. split; [|by apply JMap.get_elem].
  apply negb_true_iff, Z.ltb_ge. done.
Qed.

Lemma prune_wf t st : JMap.wf (seen st) -> JMap.wf (seen (prune t st)).
Proof. intros H. unfold prune. destruct (pruneDue t st); [|done]. by apply JMap.wf_filter. Qed.

Lemma claim_wf i x t st b st' : JMap.wf (seen st) -> claim i x t st = (b, st') -> JMap.wf (seen st').
Proof.
  intros H%(prune_wf t). unfold claim. destruct (remembered _ _ _); intros [= <- <-]; [done|].
  by apply JMap.wf_set.
Qed.

Lemma claim_holds i e j x t t' st b st' :
  holds i e t st -> t <= t' -> claim j x t' st = (b, st') -> holds i e t' st'.
Proof.
  intros [Hwf Hh] Ht Hc. split; [by eapply claim_wf|]. intros He.
  destruct Hh as (y & Hy & Hey); [lia|]. pose proof (prune_get t' st i y Hwf Hy ltac:(lia)) as Hp.
  revert Hc. unfold claim. destruct (remembered j t' (prune t' st)) eqn:Ej; intros [= <- <-]; [eauto|].
  cbn. rewrite JMap.get_set. case_decide as E; [|eauto]. subst j. unfold remembered in Ej. rewrite Hp in Ej. apply Z.leb_gt in Ej. lia.
Qed.

Lemma claim_true i e t st st' : JMap.wf (seen st) -> claim i e t st = (true, st') -> holds i e t st'.
Proof.
  intros Hwf Hc. split; [by eapply claim_wf|]. intros _. revert Hc. unfold claim.
  destruct (remembered _ _ _); intros [= <-]. cbn. rewrite JMap.get_set_eq. exists e. split; [done|lia].
Qed.

Lemma claim_refused i e x t t' st : holds i e t st -> t <= t' -> t' <= e -> (claim i x t' st).1 = false.
Proof.
  intros [Hwf Hh] Ht He. destruct Hh as (y & Hy & Hey); [lia|]. unfold claim, remembered.
  rewrite (prune_get t' st i y Hwf Hy) by lia. destruct (Z.leb_spec t' y); [done|lia].
Qed.
End Replay.

(** ** Signed requests *)
Module Source.
Definition SOURCE_AUTH_REPLAY_WINDOW_MS : Z := 5 * 60000.
Definition MIN_SIGNING_SECRET_LENGTH : nat := 32.

Definition isStrongSigningSecret (secret : option string) : bool :=
  match secret with Some s => (MIN_SIGNING_SECRET_LENGTH <=? String.length (Str.trim s))%nat | None => false end.

(** The time is in whole seconds; [None] is one that is not finite. *)
Record Request := mkRequest { signature : string; timestamp : option Z; body : string; eventId : string }.

Inductive SourceAuthResult := auth_ok | auth_refused (reason : string).

Section source.
Variable hmacHex : string -> string -> string.

Definition signRequest (secret : string) (timestampSec : Z) (canonical : string) : string :=
  "v0=" +:+ hmacHex secret ("v0:" +:+ Str.showZ timestampSec +:+ ":" +:+ canonical).

Definition verifySignature (secret : string) (req : Request) (now replayWindowMs : Z) : SourceAuthResult :=
  if negb (Str.truthy (signature req)) then auth_refused "missing signature (unsigned request)" else
  match timestamp req with
  | None => auth_refused "invalid timestamp"
  | Some ts =>
      if replayWindowMs <? Z.abs (now - ts * 1000) then auth_refused "stale timestamp (replay protection)"
      else if signRequest secret ts (body req) !== signature req then auth_refused "signature mismatch"
      else auth_ok
  end.

Variable signingSecret : string.
Variable replayWindowMs : Z.

Definition verify (req : Request) (t : Z) (st : Replay.Seen) : SourceAuthResult * Replay.Seen :=
  match verifySignature signingSecret req t replayWindowMs, timestamp req with
  | auth_ok, Some ts =>
      match Replay.claim (eventId req) (ts * 1000 + replayWindowMs) t st with
      | (true, st) => (auth_ok, st)
      | (false, st) => (auth_refused "duplicate event (already processed)", st)
      end
  | r, _ => (r, st)
  end.

(** The answers to a sequence of requests. *)
Fixpoint verifyAll (requests : list (Z * Request)) (st : Replay.Seen) : list (Request * SourceAuthResult) :=
  match requests with
  | [] => []
  | (t, req) :: rest => let '(r, st) := verify req t st in (req, r) :: verifyAll rest st
  end.

Lemma verifySignature_ok req t :
  verifySignature signingSecret req t replayWindowMs = auth_ok ->
  exists ts, timestamp req = Some ts /\ Z.abs (t - ts * 1000) <= replayWindowMs
    /\ signature req = signRequest signingSecret ts (body req).
Proof.
  unfold verifySignature. destruct (Str.truthy _); cbn [negb]; [|done]. destruct (timestamp req) as [ts|]; [|done].
  destruct (Z.ltb_spec replayWindowMs (Z.abs (t - ts * 1000))); [done|]. case_bool_decide as E; cbn [negb]; [|done].
  intros _. by exists ts.
Qed.

Lemma verify_accepted req t st st' :
  verify req t st = (auth_ok, st') ->
  exists ts, timestamp req = Some ts /\ Z.abs (t - ts * 1000) <= replayWindowMs
    /\ signature req = signRequest signingSecret ts (body req)
    /\ Replay.claim (eventId req) (ts * 1000 + replayWindowMs) t st = (true, st').
Proof.
  unfold verify. destruct (verifySignature _ _ _ _) eqn:E; [|by destruct (timestamp req)].
  apply verifySignature_ok in E as (ts & Hts & Ha & Hs). rewrite Hts.
  destruct (Replay.claim _ _ _ _) as [[] s] eqn:Ec; [|done]. intros [= <-]. by exists ts.
Qed.

Lemma verify_state req t st r st' :
  verify req t st = (r, st') -> st' = st \/ exists e b, Replay.claim (eventId req) e t st = (b, st').
Proof.
  unfold verify. destruct (verifySignature _ _ _ _), (timestamp req) as [ts|]; try (intros [= _ <-]; by left).
  destruct (Replay.claim _ _ _ _) as [[] s] eqn:Ec; intros [= _ <-]; right; eauto.
Qed.

(** Once accepted, a request is refused in everything that follows. *)
Lemma accepted_refused_later requests : forall i e t st,
  Replay.holds i e t st -> StronglySorted Z.le (map fst requests) -> Forall (Z.le t) (map fst requests) ->
  forall req, (req, auth_ok) ∈ verifyAll requests st -> eventId req = i ->
    forall ts, timestamp req = Some ts -> e < ts * 1000 + replayWindowMs.
Proof.
  induction requests as [|[t' req'] rest IH]; intros i e t st Hh Hs Ht req Hin Hi ts Hts; [by apply not_elem_of_nil in Hin|].
  cbn [map fst] in Hs, Ht. inversion Hs as [|? ? Hs' Hle]; subst. apply Forall_cons in Ht as [Htt Ht].
  cbn [verifyAll] in Hin. destruct (verify req' t' st) as [r st'] eqn:E. apply elem_of_cons in Hin as [[= <- <-]|Hin].
  - apply verify_accepted in E as (ts' & Hts' & Ha & _ & Hc). rewrite Hts in Hts'. injection Hts' as <-.
    destruct (Z.le_gt_cases t' e) as [Hte|Hte]; [|lia].
    pose proof (Replay.claim_refused _ _ (ts * 1000 + replayWindowMs) _ _ _ Hh Htt Hte) as Hf. by rewrite Hc in Hf.
  - refine (IH (eventId req) e t' st' _ Hs' Hle req Hin eq_refl ts Hts). destruct (verify_state _ _ _ _ _ E) as [->|(x & b & Hc)].
    + destruct Hh as [Hwf Hh]. split; [done|]. intros He. apply Hh. lia.
    + by eapply Replay.claim_holds.
Qed.

(** A signed request is accepted at most once.  Along any sequence of requests,
    at times that do not go backwards: an accepted request carries the MAC of its
    time and body under the secret; and when two accepted requests have the same
    event id, the later one was signed for a strictly later time, so that a request
    that is sent again is refused. *)
Theorem source_auth_once (requests : list (Z * Request)) (before after : list (Request * SourceAuthResult)) (req : Request) :
  StronglySorted Z.le (map fst requests) ->
  verifyAll requests Replay.empty = before ++ (req, auth_ok) :: after ->
  exists ts, timestamp req = Some ts /\ signature req = signRequest signingSecret ts (body req)
    /\ forall req' ts', (req', auth_ok) ∈ after -> eventId req' = eventId req -> timestamp req' = Some ts' -> ts < ts'.
Proof.
  assert (JMap.wf (Replay.seen Replay.empty)) as Hwf by constructor. revert Hwf before. generalize Replay.empty as st.
  induction requests as [|[t r] rest IH]; intros st Hwf before Hs E; [by destruct before|].
  cbn [map fst] in Hs. inversion Hs as [|? ? Hs' Hle]; subst. cbn [verifyAll] in E.
  destruct (verify r t st) as [res st'] eqn:Ev. destruct before as [|x before]; cbn [app] in E; injection E as E1 E.
  - simplify_eq. apply verify_accepted in Ev as (ts & Hts & _ & Hsig & Hc). exists ts. split_and!; [done|done|].
    intros req' ts' Hin Hid Hts'.
    pose proof (accepted_refused_later rest _ _ _ _ (Replay.claim_true _ _ _ _ _ Hwf Hc) Hs' Hle req' Hin Hid ts' Hts'). lia.
  - refine (IH st' _ before Hs' E).
    destruct (verify_state _ _ _ _ _ Ev) as [->|(y & b & Hc)]; [done|by eapply Replay.claim_wf].
Qed.
End source.
End Source.

(** ** Witnesses *)
Definition demoClaims : list (string * json) := [("actorId", JStr "ann"); ("scopeId", JStr "channel:c"); ("exp", JNum 100)].
Definition demoPayload : json := JObj (("orgId", JStr "acme") :: demoClaims).
Definition demoVerify (token secret : string) : outcome string :=
  if (token === "h.p.s") && (secret === "new") then Ok "text" else Throw "signature verification failed".
Definition demoParse (text : string) : outcome json := if text === "text" then Ok demoPayload else Throw "bad JSON".

Lemma capability_roundtrip_witness :
  Tokens.verifyCapabilityToken (fun s => s) demoVerify (fun _ => Ok (Some "old")) (fun _ _ => "") (fun _ _ => "") (fun s => s)
    demoParse (fun _ => true)
    (Tokens.mintCapabilityToken (fun s => s) (fun _ _ _ => "h.p.s") (fun _ => "text") "acme" demoClaims "new")
    ["old"; "new"] 50 = Some demoPayload.
Proof.
  rewrite (Tokens.capability_roundtrip (fun s => s) (fun _ _ _ => "h.p.s") demoVerify (fun _ => Ok (Some "old"))
    (fun _ _ => "") (fun _ _ => "") (fun s => s) (fun _ => "text") demoParse (fun _ => true) "acme" demoClaims "new"
    ["old"; "new"] 50 (Some "old")); try (vm_compute; reflexivity).
  - intros s t. unfold demoVerify. destruct (_ && _); [|discriminate]. intros H. injection H as H. symmetry. exact H.
  - right. left.
Defined.

Lemma capability_authentic_witness :
  exists claims secret, secret ∈ ["old"; "new"]
    /\ Tokens.verifyCapabilityToken (fun s => s) demoVerify (fun _ => Ok None) (fun _ _ => "") (fun _ _ => "") (fun s => s)
         demoParse (fun _ => true) "h.p.s" ["old"; "new"] 50 = Some claims.
Proof.
  exists demoPayload.
  destruct (Tokens.capability_authentic (fun s => s) demoVerify (fun _ => Ok None) (fun _ _ => "") (fun _ _ => "") (fun s => s)
    demoParse (fun _ => true) "h.p.s" ["old"; "new"] 50 demoPayload Tokens.blob_write ltac:(vm_compute; reflexivity))
    as [(secret & Hs & _) _].
  exists secret. split; [exact Hs|vm_compute; reflexivity].
Defined.

Lemma source_auth_once_witness :
  let mac secret text := secret +:+ text in
  let req := Source.mkRequest (Source.signRequest mac "k" 1 "hello") (Some 1) "hello" "e1" in
  Source.verifyAll mac "k" 300000 [(1000, req); (2000, req)] Replay.empty
    = [(req, Source.auth_ok); (req, Source.auth_refused "duplicate event (already processed)")]
  /\ exists ts, Source.timestamp req = Some ts.
Proof.
  intros mac req. split; [vm_compute; reflexivity|].
  destruct (Source.source_auth_once mac "k" 300000 [(1000, req); (2000, req)] []
    [(req, Source.auth_refused "duplicate event (already processed)")] req) as (ts & Hts & _).
  - repeat constructor; cbn; lia.
  - vm_compute. reflexivity.
  - exists ts. exact Hts.
Defined.
