(* ===== verification/Signals.v ===== *)
(** * Signals: wakes, steers and aborts of a live run

    [Wake] is [src/wake/wake.ts], [src/wake/engaged-registry.ts] and the sweep of
    [src/wake/sweep.ts] as [src/wiring.ts] wires it; [Poll] is the signal store and
    [startSignalPoll] of [src/runs/run-signal-store.ts], as a machine whose events
    are what the event loop may interleave; [Orphans] is the hand-over of signals
    that reach a run which has just ended ([signalRun] of [src/api/app-turn.ts],
    [replayOrphanedRunSignals] of [src/api/app-helpers.ts]); [Coalescer] is
    [createRefreshCoalescer] of [src/slack/message-gating.ts]. *)

From Stdlib Require Import ZArith Lia.
From S2P Require Import Prelude Collections Runs.
Open Scope nat_scope.

Section signal.
(** The surface request kept with a steer; nothing here looks into it. *)
Context {TurnRequest : Type}.

Record RunSignal := mkSignal {
  kind : string;
  text : option string;
  ts : option string;
  request : option TurnRequest;
}.
End signal.
Arguments RunSignal : clear implicits.

Module Wake.
Definition isHalt (text : string) : bool :=
  let t := Str.toLowerCase (Str.trim text) in
  (t === "stop") || (t === "stop.") || (t === "stop!").

Inductive WakeSituation := addressed | engagedUpdate | ambientUpdate | scheduled.
#[global] Instance WakeSituation_eq_dec : EqDecision WakeSituation.
Proof. solve_decision. Defined.

Record Wake := mkWake {
  situation : WakeSituation;
  wakeTs : string;
  wakeText : option string;
  isSelf : bool;
  halt : bool;
}.

Inductive WakeRoute :=
| engage
| steer (signal : string) (text : option string)
| drop (reason : string).
#[global] Instance WakeRoute_eq_dec : EqDecision WakeRoute.
Proof. solve_decision. Defined.

Definition routeWake (wake : Wake) (runIsLive liveRunGated : bool) : WakeRoute :=
  if isSelf wake then drop "self"
  else if negb runIsLive then
    if halt wake then drop "halt-nothing-running" else engage
  else if halt wake then steer "abort" None
  else if liveRunGated && (situation wake === addressed) then engage
  else
    match Str.trim <$> wakeText wake with
    | Some t => if Str.truthy t then steer "steer" (Some t) else drop "empty-mid-turn"
    | None => drop "empty-mid-turn"
    end.

(** The signal [app-turn.ts] sends for a steering route. *)
Definition signalOf {R : Type} (route : WakeRoute) (steerTs : option string) (req : R) : option (RunSignal R) :=
  match route with
  | steer k t =>
      Some (mkSignal k (match t with Some s => if Str.truthy s then Some s else None | None => None end)
              (match steerTs with Some s => if Str.truthy s then Some s else None | None => None end)
              (if k === "steer" then Some req else None))
  | _ => None
  end.

(** ** The engaged threads and their sweep *)

Definition engageThread (engaged : list string) (threadRef : string) : list string := Arr.add engaged threadRef.
Definition settle (engaged : list string) (threadRef : string) : list string :=
  List.filter (fun t => t !== threadRef) engaged.

(** One [sweepSession]: the engaged threads left, and what it adds to [fresh]. *)
Definition sweepSession (active : string -> bool) (engaged : list string) (threadRef : string) : list string * nat :=
  if active threadRef then (engaged, 0) else (settle engaged threadRef, 1).

Fixpoint sweepAll (active : string -> bool) (targets engaged : list string) (fresh : nat) : list string * nat :=
  match targets with
  | [] => (engaged, fresh)
  | t :: rest =>
      let '(engaged', n) := sweepSession active engaged t in sweepAll active rest engaged' (fresh + n)
  end.

(** [sweep]: the targets are read once, before the first of them is swept. *)
Definition sweep (active : string -> bool) (engaged : list string) : list string * (nat * nat) :=
  let '(engaged', fresh) := sweepAll active engaged engaged 0 in (engaged', (length engaged, fresh)).

Lemma sweepAll_spec active targets engaged fresh :
  sweepAll active targets engaged fresh =
  (List.filter (fun t => active t || negb (bool_decide (t ∈ targets))) engaged,
   fresh + length (List.filter (fun t => negb (active t)) targets)).
Proof.
  revert engaged fresh. induction targets as [|t rest IH]; intros engaged fresh.
  - cbn. rewrite Nat.add_0_r. f_equal. symmetry. apply Arr.filter_all. intros x _.
    rewrite bool_decide_eq_false_2; [apply orb_true_r|apply not_elem_of_nil].
  - cbn [sweepAll]. unfold sweepSession. destruct (active t) eqn:Et; rewrite IH; cbn [List.filter]; rewrite Et.
    + f_equal; [|cbn; lia]. apply Arr.filter_ext. intros x _. destruct (active x) eqn:Ex; [done|]. cbn.
      f_equal. apply bool_decide_ext. rewrite elem_of_cons. naive_solver congruence.
    + cbn. f_equal; [|lia]. unfold settle. rewrite Arr.filter_filter. apply Arr.filter_ext. intros x _.
      destruct (active x) eqn:Ex; cbn.
      * rewrite andb_true_r. apply negb_true_iff, bool_decide_eq_false_2. congruence.
      * rewrite <- negb_orb. f_equal. rewrite <- bool_decide_or. apply bool_decide_ext. by rewrite elem_of_cons.
Qed.

(** A sweep leaves exactly the engaged threads that have a live run, and counts the
    others. *)
Lemma wake_sweep_exact active engaged :
  sweep active engaged =
  (List.filter active engaged, (length engaged, length (List.filter (fun t => negb (active t)) engaged))).
Proof.
  unfold sweep. rewrite sweepAll_spec. f_equal. apply Arr.filter_ext. intros t Ht.
  rewrite bool_decide_eq_true_2 by done. apply orb_false_r.
Qed.
End Wake.

(** ** The poll of a run's signals *)
Module Poll.
Section poll.
Context {R : Type}.
Implicit Types (s : RunSignal R) (l : list (RunSignal R)).

Inductive call := onAbort | onSteer (text : string) (ts : option string).

(** The handler call a signal leads to; a legacy [followUp] row is a steer. *)
Definition dispatch (s : RunSignal R) : list call :=
  if kind s === "abort" then [onAbort]
  else if (kind s === "steer") || (kind s === "followUp") then
    match text s with
    | Some t => if Str.truthy t then [onSteer t (ts s)] else []
    | None => []
    end
  else [].

(** [draining] is [phase <> Idle]: the store is being asked, or the taken batch is
    being handled.  [sent] and [settled] are history: every signal of the run, and
    those taken out of a batch, with [true] when their handler was called and
    [false] when an earlier handler of their batch threw. *)
Inductive phase := Idle | Taking | Handling (batch : list (RunSignal R)).

Record poll := mkPoll {
  pending : list (RunSignal R);
  accepting : bool;
  at_ : phase;
  redrain : bool;
  sent : list (RunSignal R);
  settled : list (RunSignal R * bool);
}.

Definition with_phase (p : poll) (ph : phase) : poll :=
  mkPoll (pending p) (accepting p) ph (redrain p) (sent p) (settled p).
Definition with_redrain (p : poll) (b : bool) : poll :=
  mkPoll (pending p) (accepting p) (at_ p) b (sent p) (settled p).

Definition drain (forced : bool) (p : poll) : poll :=
  if negb (accepting p) && negb forced then p
  else match at_ p with
       | Idle => with_phase p Taking
       | _ => with_redrain p true
       end.

(** [startSignalPoll] on a store that may hold signals already. *)
Definition start (l : list (RunSignal R)) : poll := mkPoll l true Idle false l [].

(** [send]: the signal is queued, then the listener, until [stop] unsubscribes it, rings. *)
Definition send (s : RunSignal R) (p : poll) : poll :=
  let p := mkPoll (pending p ++ [s]) (accepting p) (at_ p) (redrain p) (sent p ++ [s]) (settled p) in
  if accepting p then drain false p else p.

(** [takePending]: the store hands over what is queued. *)
Definition takePending (p : poll) : poll :=
  mkPoll [] (accepting p) (Handling (pending p)) (redrain p) (sent p) (settled p).

(** One turn of the [for] loop; a handler that throws ends the loop. *)
Definition handle (ok : bool) (s : RunSignal R) (rest : list (RunSignal R)) (p : poll) : poll :=
  mkPoll (pending p) (accepting p) (Handling (if ok then rest else [])) (redrain p) (sent p)
    (settled p ++ (s, true) :: (if ok then [] else map (fun x => (x, false)) rest)).

(** The [finally] of the drain. *)
Definition finally_ (p : poll) : poll :=
  let p := with_phase p Idle in
  if redrain p then drain false (with_redrain p false) else p.

Definition stop (drainOnStop : bool) (p : poll) : poll :=
  let p := mkPoll (pending p) false (at_ p) (redrain p) (sent p) (settled p) in
  if drainOnStop then drain true p else p.

(** What the event loop may run next. *)
Inductive event :=
| Send (s : RunSignal R)
| Tick
| Taken
| TakeFailed
| Handled
| HandlerThrew
| Finally
| Stop (drainOnStop : bool).

Definition step (p : poll) (e : event) : option poll :=
  match e, at_ p with
  | Send s, _ => Some (send s p)
  | Tick, _ => if accepting p then Some (drain false p) else None
  | Taken, Taking => Some (takePending p)
  | TakeFailed, Taking => Some (with_phase p (Handling []))
  | Handled, Handling (s :: rest) => Some (handle true s rest p)
  | HandlerThrew, Handling (s :: rest) =>
      match dispatch s with [] => None | _ => Some (handle false s rest p) end
  | Finally, Handling [] => Some (finally_ p)
  | Stop d, _ => Some (stop d p)
  | _, _ => None
  end.

Fixpoint steps (p : poll) (es : list event) : option poll :=
  match es with
  | [] => Some p
  | e :: rest => match step p e with Some p' => steps p' rest | None => None end
  end.

Definition sends (es : list event) : list (RunSignal R) :=
  concat (map (fun e => match e with Send s => [s] | _ => [] end) es).

Definition failure (e : event) : bool := match e with TakeFailed | HandlerThrew => true | _ => false end.

Definition batch (p : poll) : list (RunSignal R) := match at_ p with Handling l => l | _ => [] end.
Definition idle (p : poll) : bool := match at_ p with Idle => true | _ => false end.

(** The calls made, in order. *)
Definition calls (p : poll) : list call :=
  concat (map (fun x : RunSignal R * bool => if x.2 then dispatch x.1 else []) (settled p)).

(** ** Every signal is taken once, in order *)

Definition accounted (p : poll) : Prop := sent p = map fst (settled p) ++ batch p ++ pending p.

Lemma drain_fixes f p :
  sent (drain f p) = sent p /\ settled (drain f p) = settled p /\ pending (drain f p) = pending p
  /\ batch (drain f p) = batch p /\ accepting (drain f p) = accepting p.
Proof. destruct p as [pe [] [| |b] r se st], f; done. Qed.

Lemma drain_accounted f p : accounted p -> accounted (drain f p).
Proof. unfold accounted. by destruct (drain_fixes f p) as (-> & -> & -> & -> & _). Qed.

Lemma send_accounted s p : accounted p -> accounted (send s p).
Proof.
  intros H. unfold send. cbn zeta. match goal with |- accounted (if _ then _ else ?q) => assert (accounted q) as Hq end.
  - unfold accounted, batch in *. cbn. rewrite H, <- !app_assoc. done.
  - case_match; [by apply drain_accounted|done].
Qed.

Lemma step_accounted p e p' : step p e = Some p' -> accounted p -> accounted p'.
Proof.
  intros Hs H. unfold step in Hs. destruct e as [s| | | | | | |d].
  - injection Hs as <-. by apply send_accounted.
  - case_match; [injection Hs as <-; by apply drain_accounted|done].
  - case_match; try done. injection Hs as <-. unfold accounted, batch in *. cbn. by rewrite H, app_nil_r, H0.
  - case_match; try done. injection Hs as <-. unfold accounted, batch in *. cbn. by rewrite H, H0.
  - case_match; try done. case_match; try done. injection Hs as <-. unfold accounted, batch in *. cbn.
    by rewrite H, H0, map_app, <- app_assoc.
  - do 3 (case_match; try done). injection Hs as <-. unfold accounted, batch in *. cbn.
    rewrite H, H0, map_app, map_cons, map_map, map_id, <- !app_assoc. done.
  - do 2 (case_match; try done). injection Hs as <-. unfold finally_.
    assert (accounted (with_phase p Idle)) as Hi by (unfold accounted, batch in *; cbn; by rewrite H, H0).
    case_match; [|done]. apply drain_accounted. exact Hi.
  - injection Hs as <-. unfold stop. destruct d; [apply drain_accounted|]; exact H.
Qed.

Lemma step_sent p e p' : step p e = Some p' -> sent p' = sent p ++ sends [e].
Proof.
  intros Hs. unfold step in Hs. destruct e as [s| | | | | | |d]; cbn; rewrite ?app_nil_r.
  - injection Hs as <-. unfold send. cbn zeta. case_match; [by rewrite (proj1 (drain_fixes _ _))|done].
  - case_match; [|done]. injection Hs as <-. by rewrite (proj1 (drain_fixes _ _)).
  - case_match; try done. by injection Hs as <-.
  - case_match; try done. by injection Hs as <-.
  - do 2 (case_match; try done). by injection Hs as <-.
  - do 3 (case_match; try done). by injection Hs as <-.
  - do 2 (case_match; try done). injection Hs as <-. unfold finally_.
    case_match; [|done]. by rewrite (proj1 (drain_fixes _ _)).
  - injection Hs as <-. unfold stop. destruct d; [by rewrite (proj1 (drain_fixes _ _))|done].
Qed.

Lemma steps_ind (P : poll -> list event -> Prop) p0 :
  P p0 [] -> (forall p es e p', steps p0 es = Some p -> P p es -> step p e = Some p' -> P p' (es ++ [e])) ->
  forall es p, steps p0 es = Some p -> P p es.
Proof.
  intros H0 Hstep es. induction es as [|e es IH] using rev_ind; intros p Hp.
  - by injection Hp as <-.
  - assert (exists q, steps p0 es = Some q /\ step q e = Some p) as (q & Hq & He).
    { clear IH Hstep H0. revert p0 Hp. induction es as [|x es IH]; cbn; intros p0 Hp.
      - case_match; [|done]. exists p0. split; [done|congruence].
      - case_match; [|done]. by apply IH. }
    eauto.
Qed.

Lemma sends_app es es' : sends (es ++ es') = sends es ++ sends es'.
Proof. unfold sends. by rewrite map_app, concat_app. Qed.

Lemma steps_accounted l es p : steps (start l) es = Some p ->
  accounted p /\ sent p = l ++ sends es.
Proof.
  revert es p. refine (steps_ind _ _ _ _).
  - split; [done|]. cbn. by rewrite app_nil_r.
  - intros p es e p' _ [Ha Hse] He. split; [by eapply step_accounted|].
    by rewrite (step_sent _ _ _ He), Hse, sends_app, app_assoc.
Qed.

Lemma step_no_failure p e p' : step p e = Some p' -> failure e = false ->
  Forall (fun x => x.2 = true) (settled p) -> Forall (fun x => x.2 = true) (settled p').
Proof.
  intros Hs Hf H. unfold step in Hs. destruct e as [s| | | | | | |d]; try done.
  - injection Hs as <-. unfold send. cbn zeta. case_match; [|done].
    by destruct (drain_fixes false (mkPoll (pending p ++ [s]) (accepting p) (at_ p) (redrain p) (sent p ++ [s])
      (settled p))) as (_ & -> & _).
  - case_match; [|done]. injection Hs as <-. by destruct (drain_fixes false p) as (_ & -> & _).
  - case_match; try done. by injection Hs as <-.
  - do 2 (case_match; try done). injection Hs as <-. cbn. apply Forall_app. auto with brain.
  - do 2 (case_match; try done). injection Hs as <-. unfold finally_. case_match; [|done].
    by destruct (drain_fixes false (with_redrain (with_phase p Idle) false)) as (_ & -> & _).
  - injection Hs as <-. unfold stop. cbn zeta. destruct d; [|done].
    by destruct (drain_fixes true (mkPoll (pending p) false (at_ p) (redrain p) (sent p) (settled p))) as (_ & -> & _).
Qed.

Lemma steps_no_failure l es p : steps (start l) es = Some p ->
  forallb (fun e => negb (failure e)) es = true -> Forall (fun x => x.2 = true) (settled p).
Proof.
  revert es p. refine (steps_ind _ _ _ _); [by intros; constructor|].
  intros p es e p' _ IH He. rewrite forallb_app. cbn. intros [H1 H2]%andb_true_iff.
  rewrite andb_true_r in H2. apply negb_true_iff in H2. eauto using step_no_failure.
Qed.

Lemma calls_all p : Forall (fun x => x.2 = true) (settled p) ->
  calls p = concat (map dispatch (map fst (settled p))).
Proof. unfold calls. induction 1 as [|[s b] l' Hb _ IH]; cbn in *; [done|]. by rewrite Hb, IH. Qed.

(** Whatever the event loop interleaves (signals that arrive during a drain,
    ticks, failing handlers, a failing store, [stop]), every signal ever queued for the
    run is settled, in the batch in hand or still pending, in the order they were
    sent and none twice; and when nothing fails the calls made so far, continued by
    those of the signals not yet handled, are the calls of the whole sequence. *)
Theorem signals_dispatched_in_order l es p : steps (start l) es = Some p ->
  l ++ sends es = map fst (settled p) ++ batch p ++ pending p
  /\ (forallb (fun e => negb (failure e)) es = true ->
      calls p ++ concat (map dispatch (batch p ++ pending p)) = concat (map dispatch (l ++ sends es))).
Proof.
  intros H. destruct (steps_accounted _ _ _ H) as [Ha Hs]. unfold accounted in Ha. rewrite Hs in Ha.
  split; [done|]. intros Hf. rewrite calls_all by eauto using steps_no_failure.
  by rewrite Ha, !map_app, !concat_app.
Qed.

(** ** Nothing is stranded *)

(** The drain in hand, run to its end by handlers that do not throw. *)
Fixpoint drive (n : nat) (p : poll) : poll :=
  match n with
  | 0 => p
  | S n =>
      match at_ p with
      | Idle => p
      | Taking => drive n (takePending p)
      | Handling [] => drive n (finally_ p)
      | Handling (s :: rest) => drive n (handle true s rest p)
      end
  end.

Definition enough (p : poll) : nat := length (batch p) + length (pending p) + 5.

Definition handled (l : list (RunSignal R)) : list (RunSignal R * bool) := map (fun s => (s, true)) l.

Lemma drive_idle n p : at_ p = Idle -> drive n p = p.
Proof. intros H. destruct n; cbn; [done|]. by rewrite H. Qed.

Lemma drive_batch b n pe ac rd se st :
  drive (length b + n) (mkPoll pe ac (Handling b) rd se st) =
  drive n (mkPoll pe ac (Handling []) rd se (st ++ handled b)).
Proof.
  revert st. induction b as [|s b IH]; intros st; cbn; [by rewrite app_nil_r|].
  unfold handle. cbn. rewrite IH, <- app_assoc. done.
Qed.

Lemma drive_empty n pe ac rd se st : ac && rd = false ->
  drive (S n) (mkPoll pe ac (Handling []) rd se st) = mkPoll pe ac Idle false se st.
Proof. destruct ac, rd; intros H; try done; cbn; by apply drive_idle. Qed.

Lemma drive_redrain n pe se st :
  drive (S n) (mkPoll pe true (Handling []) true se st) = drive n (mkPoll pe true Taking false se st).
Proof. done. Qed.

Lemma drive_taking n pe ac rd se st : length pe + 4 <= n ->
  drive n (mkPoll pe ac Taking rd se st) = mkPoll [] ac Idle false se (st ++ handled pe).
Proof.
  intros Hn. replace n with (S (length pe + S (S (S (n - length pe - 4))))) by lia.
  cbn [drive at_]. unfold takePending. cbn. rewrite drive_batch.
  destruct (ac && rd) eqn:E; [|by apply drive_empty].
  apply andb_true_iff in E as [-> ->]. rewrite drive_redrain.
  cbn. unfold takePending. cbn. by apply drive_idle.
Qed.

Lemma drive_handling n b pe ac rd se st : length b + length pe + 5 <= n ->
  drive n (mkPoll pe ac (Handling b) rd se st) =
  if ac && rd then mkPoll [] ac Idle false se (st ++ handled b ++ handled pe)
  else mkPoll pe ac Idle false se (st ++ handled b).
Proof.
  intros Hn. replace n with (length b + S (n - length b - 1)) by lia. rewrite drive_batch.
  destruct (ac && rd) eqn:E; [|by apply drive_empty].
  apply andb_true_iff in E as [-> ->]. rewrite drive_redrain.
  rewrite drive_taking by lia. by rewrite <- app_assoc.
Qed.

(** While the poll accepts signals, something is under way that will take what is
    pending. *)
Definition armed (p : poll) : Prop :=
  accepting p = true -> pending p = [] \/ at_ p = Taking \/ (redrain p = true /\ at_ p <> Idle).

Lemma drain_armed f p : accepting p = true -> armed (drain f p).
Proof. unfold armed, drain. intros ->. cbn. destruct (at_ p) eqn:E; cbn; rewrite ?E; naive_solver. Qed.

Definition takeFailed (e : event) : bool := match e with TakeFailed => true | _ => false end.

Lemma step_armed p e p' : step p e = Some p' -> takeFailed e = false -> armed p -> armed p'.
Proof.
  intros Hs Hf H. unfold step in Hs. destruct e as [s| | | | | | |d]; try done.
  - injection Hs as <-. unfold send. cbn zeta. case_match; [by apply drain_armed|].
    intros Ha. cbn in *. congruence.
  - case_match; [|done]. injection Hs as <-. by apply drain_armed.
  - case_match; try done. injection Hs as <-. intros _. by left.
  - do 2 (case_match; try done). injection Hs as <-. intros Ha. destruct (H Ha) as [?|[?|[??]]]; cbn; naive_solver congruence.
  - do 3 (case_match; try done). injection Hs as <-. intros Ha. destruct (H Ha) as [?|[?|[??]]]; cbn; naive_solver congruence.
  - do 2 (case_match; try done). injection Hs as <-. unfold finally_. case_match eqn:Er.
    + destruct (accepting p) eqn:Ea; [by apply drain_armed|]. intros Hx. exfalso.
      destruct (drain_fixes false (with_redrain (with_phase p Idle) false)) as (_ & _ & _ & _ & Hd).
      rewrite Hd in Hx. cbn in Hx. congruence.
    + intros Ha. cbn in *. destruct (H Ha) as [?|[?|[??]]]; naive_solver congruence.
  - injection Hs as <-. intros Ha. exfalso. unfold stop in Ha. cbn zeta in Ha. destruct d; [|done].
    destruct (drain_fixes true (mkPoll (pending p) false (at_ p) (redrain p) (sent p) (settled p))) as (_ & _ & _ & _ & Hd).
    rewrite Hd in Ha. done.
Qed.

Lemma steps_armed es p : steps (start []) es = Some p ->
  forallb (fun e => negb (takeFailed e)) es = true -> armed p.
Proof.
  revert es p. refine (steps_ind _ _ _ _); [by left|].
  intros p es e p' _ IH He. rewrite forallb_app. cbn. intros [H1 H2]%andb_true_iff.
  rewrite andb_true_r in H2. apply negb_true_iff in H2. eauto using step_armed.
Qed.

(** Everything sent has been settled, and the poll rests. *)
Definition all_settled (q : poll) : Prop := at_ q = Idle /\ pending q = [] /\ map fst (settled q) = sent q.

Lemma handled_fst l : map fst (handled l) = l.
Proof. unfold handled. by rewrite map_map, map_id. Qed.

Lemma drive_armed p : accounted p -> accepting p = true -> armed p -> all_settled (drive (enough p) p).
Proof.
  intros Hacc Ha Har. specialize (Har Ha). destruct p as [pe ac ph rd se st]. unfold enough, accounted in *. cbn in *. subst ac.
  unfold all_settled. destruct ph as [| |b]; cbn in *.
  - destruct Har as [->|[?|[_ ?]]]; [|done..]. rewrite drive_idle by done. cbn. rewrite Hacc. by rewrite app_nil_r.
  - rewrite drive_taking by lia. cbn. by rewrite map_app, handled_fst.
  - rewrite drive_handling by lia. destruct rd; cbn.
    + by rewrite !map_app, !handled_fst.
    + destruct Har as [->|[?|[? _]]]; [|done..]. split_and!; [done..|].
      by rewrite map_app, handled_fst, Hacc, app_nil_r.
Qed.

(** C33: a signal sent while the poll accepts signals is never stranded.  From any
    reachable state the next tick leads, in a number of steps bounded by what is in
    hand and pending, to a resting poll with every signal ever sent settled, whatever
    failed before; and as long as taking them from the store did not fail, the doorbell
    alone is enough and no tick is needed. *)
Theorem no_signal_stranded l es p : steps (start l) es = Some p -> accepting p = true ->
  all_settled (drive (enough p) (drain false p))
  /\ (l = [] -> forallb (fun e => negb (takeFailed e)) es = true -> all_settled (drive (enough p) p)).
Proof.
  intros H Ha. destruct (steps_accounted _ _ _ H) as [Hacc _].
  split; [|intros -> Hf; by apply drive_armed; eauto using steps_armed].
  replace (enough p) with (enough (drain false p)).
  - apply drive_armed; [by apply drain_accounted| |by apply drain_armed].
    by destruct (drain_fixes false p) as (_ & _ & _ & _ & ->).
  - unfold enough. by destruct (drain_fixes false p) as (_ & _ & -> & -> & _).
Qed.

(** ** Stopping *)

(** What stays in the store when the poll is stopped. *)
Definition leftover (drainOnStop : bool) (p : poll) : list (RunSignal R) :=
  match at_ p with
  | Taking => []
  | Idle => if drainOnStop then [] else pending p
  | Handling _ => pending p
  end.

Definition isStop (e : event) : bool := match e with Stop _ => true | _ => false end.

Lemma quiet es q q' : at_ q = Idle -> accepting q = false -> steps q es = Some q' ->
  forallb (fun e => negb (isStop e)) es = true ->
  settled q' = settled q /\ pending q' = pending q ++ sends es.
Proof.
  revert q. induction es as [|e es IH]; intros q Hi Ha Hs Hn.
  - injection Hs as <-. by rewrite app_nil_r.
  - cbn in Hs, Hn. apply andb_true_iff in Hn as [Hn1 Hn2]. destruct e; cbn in *; rewrite ?Hi, ?Ha in Hs; try done.
    unfold send in Hs. cbn in Hs. rewrite Ha in Hs. apply IH in Hs as [-> ->]; try done.
    cbn. by rewrite <- app_assoc.
Qed.

Lemma drive_stop d p :
  drive (enough p) (stop d p) =
  mkPoll (leftover d p) false Idle (match at_ p with Idle => if d then false else redrain p | _ => false end) (sent p)
    (settled p ++ handled (match at_ p with
                           | Taking => pending p
                           | Idle => if d then pending p else []
                           | Handling b => b
                           end)).
Proof.
  destruct p as [pe ac ph rd se st]. unfold enough, stop, leftover. cbn.
  destruct ph as [| |b], d; unfold drain; cbn -[drive]; unfold with_phase, with_redrain; cbn -[drive].
  - by rewrite drive_taking by lia.
  - rewrite drive_idle by done. by rewrite app_nil_r.
  - by rewrite drive_taking by lia.
  - by rewrite drive_taking by lia.
  - by rewrite drive_handling by lia.
  - by rewrite drive_handling by lia.
Qed.

(** [stop] returns: within a bounded number of steps the drain in hand ends and
    none follows.  The batch in hand is handled to its end; what is pending is left in the
    store, except by a drain that was already asking the store, or by the one
    [drainOnStop] starts, which it does only when no drain is in hand.  After that nothing
    is ever taken by this poll: later signals only queue up. *)
Theorem stop_settles d l before p : steps (start l) before = Some p ->
  let q := drive (enough p) (stop d p) in
  at_ q = Idle /\ pending q = leftover d p /\ accepting q = false
  /\ map fst (settled q) ++ leftover d p = l ++ sends before
  /\ (forall es q', steps q es = Some q' -> forallb (fun e => negb (isStop e)) es = true ->
       settled q' = settled q /\ pending q' = pending q ++ sends es).
Proof.
  intros H. destruct (steps_accounted _ _ _ H) as [Hacc Hse]. cbn zeta. rewrite drive_stop. split_and!; try done.
  - rewrite <- Hse. unfold accounted, leftover, batch in *. cbn. rewrite map_app, handled_fst, Hacc, <- app_assoc.
    destruct (at_ p), d; by rewrite ?app_nil_r.
  - intros es q' Hs Hn. by apply (quiet es _ q') in Hs.
Qed.
End poll.


(** Two signals, the second sent while the first is in hand; and a store that fails. *)
Definition demo : list (event (R:=nat)) :=
  [Send (mkSignal "steer" (Some "a") None (Some 1)); Taken; Send (mkSignal "abort" None None None)].
Definition demo_failing : list (event (R:=nat)) :=
  [Send (mkSignal "steer" (Some "a") None (Some 1)); TakeFailed; Finally].

Lemma no_signal_stranded_witness : exists p, steps (start []) demo_failing = Some p
  /\ pending p <> [] /\ all_settled (drive (enough p) (drain false p)).
Proof.
  eexists. split; [by vm_compute|]. split; [done|].
  refine (proj1 (no_signal_stranded [] demo_failing _ _ _)); by vm_compute.
Defined.

Lemma signals_dispatched_in_order_witness : exists p,
  steps (start []) (demo ++ [Handled; Finally; Taken; Handled; Finally]) = Some p
  /\ calls p ++ [] = [onSteer "a" None; onAbort].
Proof.
  eexists. split; [by vm_compute|].
  refine (proj2 (signals_dispatched_in_order [] (demo ++ [Handled; Finally; Taken; Handled; Finally]) _ _) _);
    by vm_compute.
Defined.

Lemma stop_settles_witness : exists p, steps (start []) demo = Some p
  /\ pending (drive (enough p) (stop false p)) = leftover false p /\ leftover false p <> [].
Proof.
  eexists. split; [by vm_compute|]. split; [|done].
  refine (proj1 (proj2 (stop_settles false [] demo _ _))). by vm_compute.
Defined.

(** A signal that arrives while an earlier one is being handled stays in the store
    when the poll is stopped, also with [drainOnStop]: the forced drain only asks for
    another one, and the [finally] that would start it is not forced. *)
Lemma drain_on_stop_skipped :
  let a := mkSignal "steer" (Some "a") None (Some 1) in
  let b := mkSignal "steer" (Some "b") None (Some 2) in
  exists p, steps (start []) [Send a; Taken; Send b; Stop true] = Some p
            /\ pending (drive (enough p) p) = [b] /\ at_ (drive (enough p) p) = Idle.
Proof. cbn zeta. eexists. split; [by vm_compute|by vm_compute]. Qed.
End Poll.

(** A wake that is routed into a live run always reaches a handler there: a halt as an
    abort, anything else as its trimmed text, with its request kept for a replay; what
    is dropped is the run's own message or a blank one. *)
Lemma wake_signal_dispatched {R} (w : Wake.Wake) live gated steerTs (req : R) :
  match Wake.signalOf (Wake.routeWake w live gated) steerTs req with
  | Some s =>
      live = true /\ Wake.isSelf w = false
      /\ (if Wake.halt w then Poll.dispatch s = [Poll.onAbort]
          else exists t, Wake.wakeText w = Some t /\ Str.trim t <> "" /\ request s = Some req
               /\ Poll.dispatch s = [Poll.onSteer (Str.trim t) (ts s)])
  | None =>
      Wake.routeWake w live gated = Wake.engage \/ Wake.isSelf w = true
      \/ (Wake.halt w = true /\ live = false)
      \/ Str.trim (default "" (Wake.wakeText w)) = ""
  end.
Proof.
  destruct w as [si wts [t|] [] []]; unfold Wake.routeWake; cbn; destruct live; cbn; auto;
    destruct (gated && (si === Wake.addressed)); cbn; auto.
  destruct (Str.truthy (Str.trim t)) eqn:E; cbn.
  - rewrite E. split_and!; [done..|]. exists t. split_and!; [done|by apply Str.truthy_iff|done|].
    unfold Poll.dispatch. cbn. by rewrite E.
  - right. right. right. by apply Str.truthy_false_iff.
Qed.

(** ** Signals for a run that ends meanwhile *)
Module Orphans.
Section orphans.
Context {R : Type}.

(** [replayOrphanedRunSignals] on the signals it took: what it reports, and the
    requests it submits as turns of their own; [turn] is the run id [app.turn]
    answers with, or its exception. *)
Fixpoint replay (turn : R -> outcome (option string)) (l : list (RunSignal R))
    : list (RunSignal R * option string) * list R :=
  match l with
  | [] => ([], [])
  | s :: rest =>
      let '(drained, submitted) := replay turn rest in
      if kind s === "abort" then (drained, submitted)
      else match request s with
           | None => ((s, None) :: drained, submitted)
           | Some r =>
               match turn r with
               | Ok (Some id) => ((s, if Str.truthy id then Some id else None) :: drained, r :: submitted)
               | _ => ((s, None) :: drained, r :: submitted)
               end
           end
  end.

Definition notAbort (s : RunSignal R) : bool := kind s !== "abort".

Lemma replay_spec turn l :
  map fst (fst (replay turn l)) = List.filter notAbort l
  /\ snd (replay turn l) = omap request (List.filter notAbort l).
Proof.
  unfold notAbort. induction l as [|s l [IH1 IH2]]; cbn; [done|]. destruct (replay turn l) as [dr su]. cbn in *.
  case_bool_decide as E; cbn; [done|]. destruct (request s) as [r|] eqn:Er; cbn; [|by rewrite IH1].
  destruct (turn r) as [[id|]|]; cbn; by rewrite IH1, IH2.
Qed.

(** The guards of [signalRun] before it sends; [run] is the stored run's status and
    whether the viewer may use it. *)
Definition admission (signalsAvailable : bool) (run : option (RunStatus * bool)) (s : RunSignal R) : option string :=
  if negb signalsAvailable then Some "signals_unavailable"
  else match run with
       | None => Some "not_found"
       | Some (status, usable) =>
           if negb usable then Some "not_found"
           else if isTerminal status then Some "terminal"
           else if (kind s === "steer") && negb (Str.truthy (Str.trim (default "" (text s)))) then Some "text_required"
           else None
       end.

(** A run and its signals, between the awaits of everybody who touches them.  [admitted]
    are the signals whose sender passed the guards and has not sent yet, [rechecks] the
    senders that have sent and not yet read the run again, [hooks] the terminal
    listeners that have not run.  [sent] and [taken] are history. *)
Record sys := mkSys {
  status : RunStatus;
  pending : list (RunSignal R);
  admitted : list (RunSignal R);
  rechecks : nat;
  hooks : nat;
  sent : list (RunSignal R);
  taken : list (RunSignal R);
}.

Definition take (x : sys) : sys :=
  mkSys (status x) [] (admitted x) (rechecks x) (hooks x) (sent x) (taken x ++ pending x).

Definition over (x : sys) : bool := isTerminal (status x).

Inductive event :=
| Admit (s : RunSignal R)       (* signalRun up to its send *)
| Send (i : nat)                (* the i-th admitted sender sends *)
| Recheck                       (* a sender reads the run again *)
| PollTakes                     (* the harness takes the pending signals *)
| Settle (st : RunStatus)       (* the run changes state *)
| Hook                          (* the terminal listener replays *)
| Sweep.                        (* the sweep of orphaned signals *)

Definition step (x : sys) (e : event) : option sys :=
  match e with
  | Admit s =>
      match admission true (Some (status x, true)) s with
      | None => Some (mkSys (status x) (pending x) (admitted x ++ [s]) (rechecks x) (hooks x) (sent x) (taken x))
      | Some _ => None
      end
  | Send i =>
      match admitted x !! i with
      | Some s => Some (mkSys (status x) (pending x ++ [s]) (base.delete i (admitted x)) (S (rechecks x)) (hooks x)
                          (sent x ++ [s]) (taken x))
      | None => None
      end
  | Recheck =>
      match rechecks x with
      | S n =>
          let x := mkSys (status x) (pending x) (admitted x) n (hooks x) (sent x) (taken x) in
          Some (if over x then take x else x)
      | 0 => None
      end
  | PollTakes => Some (take x)
  | Settle st =>
      if over x then None
      else Some (mkSys st (pending x) (admitted x) (rechecks x) (if isTerminal st then S (hooks x) else hooks x)
                   (sent x) (taken x))
  | Hook =>
      match hooks x with
      | S n => Some (take (mkSys (status x) (pending x) (admitted x) (rechecks x) n (sent x) (taken x)))
      | 0 => None
      end
  | Sweep => if over x then Some (take x) else None
  end.

Fixpoint steps (x : sys) (es : list event) : option sys :=
  match es with
  | [] => Some x
  | e :: rest => match step x e with Some x' => steps x' rest | None => None end
  end.

Definition start : sys := mkSys Runs.pending [] [] 0 0 [] [].

(** Nobody is between two awaits. *)
Definition quiescent (x : sys) : bool :=
  bool_decide (admitted x = [] /\ rechecks x = 0 /\ hooks x = 0).

Definition inv (x : sys) : Prop :=
  sent x = taken x ++ pending x
  /\ (over x = true -> pending x = [] \/ rechecks x <> 0 \/ hooks x <> 0).

Lemma orphans_step_inv x e x' : step x e = Some x' -> inv x -> inv x'.
Proof.
  intros Hs [H1 H2]. unfold step in Hs. destruct e as [s|i| | |st| |].
  - case_match; [done|]. by injection Hs as <-.
  - case_match; [|done]. injection Hs as <-. split; cbn; [by rewrite H1, app_assoc|]. intros _. right. by left.
  - case_match eqn:Er; [done|]. injection Hs as <-. unfold over in *. cbn. case_match eqn:Eo.
    + split; cbn; [by rewrite H1, app_nil_r|]. by left.
    + split; cbn; [done|]. unfold over. cbn. congruence.
  - injection Hs as <-. split; cbn; [by rewrite H1, app_nil_r|]. by left.
  - case_match; [done|]. injection Hs as <-. split; cbn; [done|]. unfold over. cbn. intros ->. right. by right.
  - case_match; [done|]. injection Hs as <-. split; cbn; [by rewrite H1, app_nil_r|]. by left.
  - case_match; [|done]. injection Hs as <-. split; cbn; [by rewrite H1, app_nil_r|]. by left.
Qed.

Lemma steps_inv es x x' : steps x es = Some x' -> inv x -> inv x'.
Proof.
  revert x. induction es as [|e es IH]; cbn; intros x Hs H; [by injection Hs as <-|].
  destruct (step x e) eqn:E; [|done]. eauto using orphans_step_inv.
Qed.

(** C26: a signal accepted for a run is taken exactly once, in the order sent, whoever
    takes it, and none is left behind: however the run's end interleaves with the
    guards, the send and the second look of any number of senders, once the run is over and
    nobody is between two awaits every signal sent has been taken, the late ones by a
    replay.  The replay reports every one of them that is no abort and submits its
    request as a turn, whatever the turns answer. *)
Theorem no_orphaned_signal es x : steps start es = Some x ->
  sent x = taken x ++ pending x
  /\ (over x = true -> quiescent x = true -> taken x = sent x)
  /\ (forall turn, let '(drained, submitted) := replay turn (pending x) in
      map fst drained = List.filter notAbort (pending x)
      /\ submitted = omap request (List.filter notAbort (pending x))).
Proof.
  intros H. apply steps_inv in H as [H1 H2]; [|by split; [|left]]. split_and!; [done| |].
  - intros Ho Hq. apply bool_decide_eq_true in Hq as (_ & Hr & Hh).
    destruct (H2 Ho) as [Hp|[?|?]]; [|done..]. by rewrite H1, Hp, app_nil_r.
  - intros turn. pose proof (replay_spec turn (pending x)). by destruct (replay turn (pending x)).
Qed.
End orphans.

(** The run ends between the send and the second look. *)
Lemma no_orphaned_signal_witness :
  let s := mkSignal "steer" (Some "a") None (Some 1) in
  exists x, steps start [Admit s; Settle done_; Hook; Send 0; Recheck] = Some x /\ taken x = sent x /\ sent x = [s].
Proof.
  cbn zeta. eexists. split; [by vm_compute|]. split; [|done].
  refine (proj1 (proj2 (no_orphaned_signal [Admit (mkSignal "steer" (Some "a") None (Some 1)); Settle done_; Hook;
    Send 0; Recheck] _ _)) _ _); by vm_compute.
Defined.
End Orphans.

(** ** Coalesced refreshes *)
Module Coalescer.
#[local] Arguments Nat.ltb : simpl never.
(** [active] is [completed] of the drain in hand, whose promise [waiters] (the times of
    the calls) hold.  [runs], [started] (when the run in hand was started) and
    [answered] (call, start of the last run, success) are history. *)
Record state := mkState {
  now : nat;
  requested : nat;
  active : option nat;
  started : nat;
  runs : nat;
  waiters : list nat;
  answered : list (nat * nat * bool);
}.

Definition init : state := mkState 0 0 None 0 0 [] [].

(** [refresh()]: the first run starts before it returns. *)
Definition refresh (s : state) : state :=
  let n := S (requested s) in
  match active s with
  | Some c => mkState (S (now s)) n (Some c) (started s) (runs s) (waiters s ++ [now s]) (answered s)
  | None => mkState (S (now s)) n (Some n) (now s) (S (runs s)) (waiters s ++ [now s]) (answered s)
  end.

(** The run in hand ends: another one starts when [requested] has moved, otherwise, or
    when it threw, the promise is settled for everybody who holds it.  (Nothing runs
    between the loop's last test and the one after the [finally], so that one never
    sees [requested] moved.) *)
Definition runDone (ok : bool) (s : state) : state :=
  match active s with
  | None => s
  | Some completed =>
      if ok && negb (completed =? requested s) then
        mkState (S (now s)) (requested s) (Some (requested s)) (now s) (S (runs s)) (waiters s) (answered s)
      else
        mkState (S (now s)) (requested s) None (started s) (runs s) []
          (answered s ++ map (fun w => (w, started s, ok)) (waiters s))
  end.

Inductive event := Refresh | RunDone (ok : bool).

Definition step (s : state) (e : event) : state :=
  match e with Refresh => refresh s | RunDone ok => runDone ok s end.

Definition reach (es : list event) : state := foldl step init es.

Definition late (s : state) : list nat := List.filter (fun w => started s <? w) (waiters s).

(** A successful answer comes from a run started no earlier than the call. *)
Definition fresh (x : nat * nat * bool) : Prop := x.2 = true -> x.1.1 <= x.1.2.

Definition inv (s : state) : Prop :=
  Forall fresh (answered s) /\ Forall (fun w => w < now s) (waiters s)
  /\ length (answered s) + length (waiters s) = requested s
  /\ match active s with
     | None => waiters s = [] /\ runs s <= requested s
     | Some c => c <= requested s /\ runs s <= c /\ started s < now s /\ length (late s) = requested s - c
     end.

Lemma late_none s : Forall (fun w => w < now s) (waiters s) ->
  List.filter (fun w => now s <? w) (waiters s) = [].
Proof.
  intros H. destruct (List.filter _ _) as [|w l] eqn:E; [done|]. exfalso.
  assert (w ∈ List.filter (fun w => now s <? w) (waiters s)) as [Hlt%Nat.ltb_lt Hin]%Arr.elem_of_filter
    by (rewrite E; left).
  rewrite Forall_forall in H. specialize (H _ Hin). cbn in H. lia.
Qed.

Lemma older (s : state) : Forall (fun w => w < now s) (waiters s) ->
  Forall (fun w => w < S (now s)) (waiters s).
Proof. intros H. eapply Forall_impl; [exact H|]. cbn. lia. Qed.

Lemma refresh_inv s : inv s -> inv (refresh s).
Proof.
  intros (Hf & Hw & Hl & Ha). unfold refresh, inv, late in *.
  destruct (active s) as [c|] eqn:E; cbn; rewrite length_app, Forall_app; cbn.
  - destruct Ha as (? & ? & ? & Hlate). split_and!; try lia; auto using older.
    rewrite List.filter_app, length_app, Hlate. cbn. destruct (Nat.ltb_spec (started s) (now s)); cbn; lia.
  - destruct Ha as [Hn ?]. rewrite Hn in *. cbn in *. rewrite Nat.ltb_irrefl. split_and!; cbn; auto with lia.
Qed.

Lemma runDone_inv ok s : inv s -> inv (runDone ok s).
Proof.
  intros (Hf & Hw & Hl & Ha). unfold runDone. destruct (active s) as [c|] eqn:E; [|by unfold inv; rewrite E].
  destruct Ha as (? & ? & ? & Hlate). destruct (ok && negb (c =? requested s)) eqn:Eb.
  - apply andb_true_iff in Eb as [_ Hne%negb_true_iff%Nat.eqb_neq].
    unfold inv, late. cbn. rewrite late_none by done. split_and!; cbn; try lia; auto using older.
  - unfold inv. cbn. rewrite length_app, length_map. split_and!; try lia; [|done..].
    apply Forall_app. split; [done|]. apply List.Forall_map, Forall_forall. intros w Hin Hok. cbn in *. subst ok.
    cbn in Eb. apply negb_false_iff, Nat.eqb_eq in Eb. destruct (Nat.le_gt_cases w (started s)) as [|Hgt]; [done|].
    assert (w ∈ late s) as Hla by (apply Arr.elem_of_filter; split; [by apply Nat.ltb_lt|done]).
    destruct (late s); [by apply elem_of_nil in Hla|]. cbn in Hlate. lia.
Qed.

Lemma reach_inv es : inv (reach es).
Proof.
  unfold reach. assert (inv init) as H by (repeat split; cbn; auto with brain).
  revert H. generalize init. induction es as [|[|ok] es IH]; intros s H; cbn; [done|..]; apply IH;
    auto using refresh_inv, runDone_inv.
Qed.

Lemma runDone_twice s : (active s = None -> waiters s = []) ->
  waiters (runDone true (runDone true s)) = [] /\ active (runDone true (runDone true s)) = None.
Proof.
  intros H. unfold runDone at 2 4. destruct (active s) as [c|] eqn:E; cbn.
  - destruct (negb (c =? requested s)); cbn; unfold runDone; cbn; [|done]. by rewrite Nat.eqb_refl.
  - unfold runDone. rewrite E. auto.
Qed.

(** A refresh that resolves did its work: whatever calls and ends of runs interleave,
    a call is answered with success only by a run that was started no earlier than the
    call; every call is answered once or still waits; runs never outnumber calls; and once
    no call comes any more, two successful runs answer everybody. *)
Theorem coalesced_refresh_fresh es :
  let s := reach es in
  Forall fresh (answered s)
  /\ length (answered s) + length (waiters s) = length (List.filter (fun e => match e with Refresh => true | _ => false end) es)
  /\ runs s <= requested s
  /\ let done2 := runDone true (runDone true s) in waiters done2 = [] /\ active done2 = None.
Proof.
  cbn zeta. destruct (reach_inv es) as (Hf & _ & Hl & Ha). split; [done|]. split; [|split].
  - rewrite Hl. clear. unfold reach. rewrite <- (Nat.add_0_l (length _)). change 0 with (requested init) at 1.
    generalize init. induction es as [|e es IH]; intros s; cbn; [lia|]. rewrite IH.
    destruct e as [|ok]; cbn; unfold refresh, runDone; repeat case_match; cbn; lia.
  - destruct (active (reach es)); lia.
  - apply runDone_twice. intros E. rewrite E in Ha. by destruct Ha.
Qed.
End Coalescer.
