(* ===== verification/Processes.v ===== *)
(** * Processes: background processes, their registry and their reaper

    [Registry] is the in-memory registry of [src/processes/process-registry.ts] and
    [reconcileProcesses] of [src/processes/reconcile.ts]; [Poll] is [pollProcess] of
    [src/sandbox/process-poll.ts]; [Reaper] is the sweep and the kill hook of
    [src/processes/process-reaper.ts]. *)

From Stdlib Require Import ZArith Lia.
From S2P Require Import Prelude Collections.
Open Scope Z_scope.

(** ** The registry *)
Module Registry.

Definition DECLARED_KINDS : list string := ["build"; "dev-server"; "background"].
Definition isDeclaredKind (kind : string) : bool := bool_decide (kind ∈ DECLARED_KINDS).

Inductive ProcessStatus := running | exited | reaped.
#[global] Instance ProcessStatus_eq_dec : EqDecision ProcessStatus.
Proof. solve_decision. Defined.

Record ProcessRecord := mkRecord {
  processId : string;
  scopeId : string;
  kind : string;
  command : string;
  startedAt : Z;
  expiresAt : Z;
  status : ProcessStatus;
  sessionRef : option string;
  runId : option string;
}.
#[global] Instance ProcessRecord_eq_dec : EqDecision ProcessRecord.
Proof. solve_decision. Defined.

Record NewProcessRecord := mkNew {
  n_processId : string;
  n_scopeId : string;
  n_kind : string;
  n_command : string;
  n_ttlMs : Z;
  n_sessionRef : option string;
  n_runId : option string;
}.

Definition ifTruthy (s : option string) : option string :=
  match s with Some t => if Str.truthy t then Some t else None | None => None end.

Definition newRecord (rec : NewProcessRecord) (now : Z) : outcome ProcessRecord :=
  if negb (isDeclaredKind (n_kind rec)) then Throw ("process kind not declared: " +:+ n_kind rec)
  else Ok (mkRecord (n_processId rec) (n_scopeId rec) (n_kind rec) (n_command rec) now (now + n_ttlMs rec) running
             (ifTruthy (n_sessionRef rec)) (ifTruthy (n_runId rec))).

Definition rows := jmap string ProcessRecord.

Definition register (rec : NewProcessRecord) (now : Z) (m : rows) : outcome (ProcessRecord * rows) :=
  let! row := newRecord rec now in Ok (row, JMap.set m (processId row) row).

Definition get (m : rows) (pid : string) : option ProcessRecord := JMap.get m pid.

Definition listByScope (m : rows) (scope : string) : list ProcessRecord :=
  List.filter (fun r => scopeId r === scope) (JMap.values m).

Definition isRunning (r : ProcessRecord) : bool := status r === running.

Definition liveByScope (m : rows) (scope : string) (now : Z) : list ProcessRecord :=
  List.filter (fun r => (scopeId r === scope) && isRunning r && (now <? expiresAt r)) (JMap.values m).

Definition listLive (m : rows) (now : Z) : list ProcessRecord :=
  List.filter (fun r => isRunning r && (now <? expiresAt r)) (JMap.values m).

Definition with_status (r : ProcessRecord) (st : ProcessStatus) : ProcessRecord :=
  mkRecord (processId r) (scopeId r) (kind r) (command r) (startedAt r) (expiresAt r) st (sessionRef r) (runId r).

Definition markStatus (pid : string) (st : ProcessStatus) (m : rows) : bool * rows :=
  match JMap.get m pid with
  | None => (false, m)
  | Some row => (true, JMap.set m pid (with_status row st))
  end.

Definition listExpired (m : rows) (now : Z) : list ProcessRecord :=
  List.filter (fun r => isRunning r && (expiresAt r <=? now)) (JMap.values m).

Definition delete (pid : string) (m : rows) : rows := JMap.delete m pid.

(** ** Reconciliation with what the sandbox reports *)

(** [byId]: of two reports on one process the later one counts. *)
Definition byId (live : list (string * bool)) : jmap string bool :=
  foldl (fun m p => JMap.set m p.1 p.2) [] live.

(** Still alive there: reported, and not as exited. *)
Definition backendAlive (live : list (string * bool)) (pid : string) : bool :=
  match JMap.get (byId live) pid with Some alive => alive | None => false end.

Fixpoint markGone (live : list (string * bool)) (records : list ProcessRecord) (m : rows) : rows :=
  match records with
  | [] => m
  | r :: rest =>
      markGone live rest (if backendAlive live (processId r) then m else snd (markStatus (processId r) exited m))
  end.

(** [listProcesses] of the sandbox: the processes it knows, with [true] for one that
    has not exited; it is asked only when the registry has a running process. *)
Definition reconcileProcesses (listProcesses : outcome (list (string * bool))) (scope : string) (m : rows)
    : outcome rows :=
  match List.filter isRunning (listByScope m scope) with
  | [] => Ok m
  | records => let! live := listProcesses in Ok (markGone live records m)
  end.

(** ** The invariant: a row is stored under its own id and has a declared kind *)

Definition wf_row (k : string) (r : ProcessRecord) : Prop := processId r = k /\ isDeclaredKind (kind r) = true.

Definition wf (m : rows) : Prop := JMap.wf m /\ (forall k r, JMap.get m k = Some r -> wf_row k r).

Lemma wf_empty : wf [].
Proof. split; [apply JMap.wf_nil|done]. Qed.

Lemma rows_wf_set k r m : wf m -> wf_row k r -> wf (JMap.set m k r).
Proof.
  intros [Hw Hr] H. split; [by apply JMap.wf_set|]. intros k' r'. rewrite JMap.get_set. case_decide; [|apply Hr].
  intros [= <-]. by subst.
Qed.

Lemma register_wf rec now m row m' : wf m -> register rec now m = Ok (row, m') -> wf m'.
Proof.
  intros Hm. unfold register, newRecord. destruct (isDeclaredKind (n_kind rec)) eqn:E; cbn; [|done].
  intros [= <- <-]. by apply rows_wf_set.
Qed.

Lemma markStatus_wf pid st m : wf m -> wf (snd (markStatus pid st m)).
Proof.
  intros Hm. unfold markStatus. destruct (JMap.get m pid) as [r|] eqn:E; cbn; [|done].
  destruct (proj2 Hm _ _ E). by apply rows_wf_set.
Qed.

Lemma delete_wf pid m : wf m -> wf (delete pid m).
Proof.
  intros [Hw Hr]. split; [by apply JMap.wf_delete|]. intros k r. unfold delete. rewrite JMap.get_delete.
  case_decide; [done|apply Hr].
Qed.

Lemma markStatus_get pid st m k :
  JMap.get (snd (markStatus pid st m)) k =
  if decide (pid = k) then (fun r => with_status r st) <$> JMap.get m k else JMap.get m k.
Proof.
  unfold markStatus. destruct (JMap.get m pid) as [r|] eqn:E; cbn.
  - rewrite JMap.get_set. case_decide; [subst; by rewrite E|done].
  - case_decide; [subst; by rewrite E|done].
Qed.

Lemma values_get m r : wf m -> r ∈ JMap.values m <-> JMap.get m (processId r) = Some r.
Proof.
  intros [Hw Hr]. rewrite JMap.elem_of_values by done. split; [|by eauto].
  intros [k Hk]. destruct (Hr _ _ Hk) as [-> _]. done.
Qed.

Lemma with_status_again r st : with_status (with_status r st) st = with_status r st.
Proof. done. Qed.

Lemma markGone_get live rs m k :
  JMap.get (markGone live rs m) k =
  if existsb (fun r => processId r === k) rs && negb (backendAlive live k)
  then (fun r => with_status r exited) <$> JMap.get m k else JMap.get m k.
Proof.
  revert m. induction rs as [|r rs IH]; intros m; cbn; [done|]. rewrite IH. clear IH.
  destruct (decide (processId r = k)) as [<-|Hne].
  - rewrite (bool_decide_eq_true_2 (_ = _)) by done. cbn. destruct (backendAlive live (processId r)); cbn.
    + by rewrite andb_false_r.
    + rewrite markStatus_get, decide_True by done. rewrite andb_true_r.
      case_match; [|done]. by destruct (JMap.get m (processId r)).
  - rewrite (bool_decide_eq_false_2 (_ = _)) by done. cbn.
    destruct (backendAlive live (processId r)); [done|]. by rewrite markStatus_get, decide_False.
Qed.

Lemma in_scope_running m scope k r : wf m -> JMap.get m k = Some r ->
  existsb (fun x => processId x === k) (List.filter isRunning (listByScope m scope)) =
  isRunning r && (scopeId r === scope).
Proof.
  intros Hm Hk. pose proof (proj2 Hm _ _ Hk) as [Hid _]. apply eq_true_iff_eq.
  rewrite Arr.existsb_elem. setoid_rewrite Arr.elem_of_filter. unfold listByScope. setoid_rewrite Arr.elem_of_filter.
  setoid_rewrite (values_get m _ Hm). split.
  - intros (x & (H1 & H2 & H3) & Hx). js_bool. assert (x = r) as -> by congruence. by rewrite H1, bool_decide_eq_true_2.
  - intros [H1 H2]%andb_true_iff. exists r. rewrite Hid. split_and!; try done. by apply bool_decide_eq_true_2.
Qed.

(** Reconciliation believes the sandbox, about one scope and about running
    processes only: a row changes exactly when it belongs to the scope, is marked running
    and the sandbox does not report it, or reports it as exited, and then only its status
    changes, to exited.  When the sandbox cannot be asked nothing changes. *)
Theorem reconcile_exact scope live m : wf m ->
  (forall m', reconcileProcesses (Ok live) scope m = Ok m' -> wf m' /\ forall k,
     JMap.get m' k =
     (fun r => if isRunning r && (scopeId r === scope) && negb (backendAlive live k) then with_status r exited else r)
     <$> JMap.get m k)
  /\ is_Some (match reconcileProcesses (Ok live) scope m with Ok m' => Some m' | Throw _ => None end)
  /\ (forall e m', reconcileProcesses (Throw e) scope m = Ok m' -> m' = m).
Proof.
  intros Hm. unfold reconcileProcesses. pose proof (in_scope_running m scope) as Hin.
  destruct (List.filter isRunning (listByScope m scope)) as [|r0 rs] eqn:E; cbn [obind].
  - split_and!; [|by eexists|by intros ? ? [= <-]]. intros m' [= <-]. split; [done|]. intros k.
    destruct (JMap.get m k) as [r|] eqn:Ek; cbn; [|done]. rewrite <- (Hin k r Hm Ek). done.
  - split_and!; [|by eexists|done]. intros m' [= <-]. split.
    + assert (forall l m, wf m -> wf (markGone live l m)) as Hw; [|exact (Hw (r0 :: rs) m Hm)].
      induction l as [|x l IH]; cbn; intros m1 H1; [done|]. apply IH. case_match; auto using markStatus_wf.
    + intros k. change (markGone _ rs _) with (markGone live (r0 :: rs) m). rewrite markGone_get.
      destruct (JMap.get m k) as [r|] eqn:Ek; [|by case_match]. rewrite (Hin k r Hm Ek). cbn. by case_match.
Qed.
End Registry.

(** ** Polling a process until it ends or the deadline passes *)
Module Poll.
Record ReadProcessResult := mkRead { chunks : string; cursor : Z; exited : bool }.

(** One turn of the loop: the clock before the read, the sandbox's answer to
    [sinceCursor] and [waitMs], and the clock after it. *)
Record observation := mkObs { startedAt : Z; read : Z -> Z -> outcome ReadProcessResult; after : Z }.

Record PollProcessResult := mkResult { r_output : string; r_cursor : Z; r_exited : bool }.

Section poll.
Variable waitMs : Z.
Variable collect : bool.
Variable until : ReadProcessResult -> string -> bool.

(** The loop over what it observes; [None] when the observations end before it does. *)
Fixpoint pollLoop (deadline : Z) (obs : list observation) (cur : Z) (output : string)
    : option (outcome PollProcessResult) :=
  match obs with
  | [] => None
  | o :: rest =>
      match read o cur (Z.max 0 (Z.min (deadline - startedAt o) waitMs)) with
      | Throw e => Some (Throw e)
      | Ok r =>
          let output := if collect then output +:+ chunks r else output in
          if exited r || until r output || (deadline <=? after o) then Some (Ok (mkResult output (cursor r) (exited r)))
          else pollLoop deadline rest (cursor r) output
      end
  end.

Definition pollProcess (now deadlineMs sinceCursor : Z) (obs : list observation) : option (outcome PollProcessResult) :=
  pollLoop (now + deadlineMs) obs sinceCursor "".

Lemma pollLoop_returns deadline obs cur output :
  existsb (fun o => deadline <=? after o) obs = true -> is_Some (pollLoop deadline obs cur output).
Proof.
  revert cur output. induction obs as [|o obs IH]; intros cur output; cbn; [done|].
  destruct (read _ _ _) as [r|]; [|by eexists]. intros Hd. case_match eqn:E; [by eexists|]. apply IH.
  apply orb_false_iff in E as [_ E]. by rewrite E in Hd.
Qed.

Lemma pollLoop_result deadline obs cur output res : pollLoop deadline obs cur output = Some (Ok res) ->
  exists o r, o ∈ obs /\ r_exited res = exited r /\ r_cursor res = cursor r
    /\ (exited r = true \/ until r (r_output res) = true \/ deadline <= after o).
Proof.
  revert cur output. induction obs as [|o obs IH]; intros cur output; cbn; [done|].
  destruct (read _ _ _) as [r|]; [|done]. case_match eqn:E.
  - intros [= <-]. exists o, r. split_and!; [left|done|done|]. cbn. apply orb_true_iff in E as [[E|E]%orb_true_iff|E];
      [by left|right; by left|right; right; by apply Z.leb_le].
  - intros H. destruct (IH _ _ H) as (o' & r' & Ho & Hr). exists o', r'. split; [by right|done].
Qed.
End poll.

(** [awaitProcessExit] *)
Definition awaitProcessExit (now graceMs : Z) (obs : list observation) : option (outcome bool) :=
  match pollProcess 1000 false (fun _ _ => false) now graceMs 0 obs with
  | Some (Ok res) => Some (Ok (r_exited res))
  | Some (Throw e) => Some (Throw e)
  | None => None
  end.
End Poll.

(** ** The reaper *)
Module Reaper.
Import Registry.

(** What the kill hook did, with the sandbox's answers. *)
Inductive op :=
| Signalled (signal : string) (answer : outcome unit)
| Awaited (graceMs : Z) (answer : outcome bool)
| TornDown (answer : outcome unit).

(** The sandbox: each answer may depend on everything done so far. *)
Record ProcessSandbox (Handle : Type) := mkSandbox {
  provision : string -> outcome Handle;
  signalProcess : Handle -> string -> string -> list op -> outcome unit;
  observe : Handle -> string -> list op -> Z * list Poll.observation;
  teardown : Handle -> list op -> outcome unit;
}.
Arguments provision {Handle} _ _.
Arguments signalProcess {Handle} _ _ _ _ _.
Arguments observe {Handle} _ _ _ _.
Arguments teardown {Handle} _ _ _.

(** [/^no such process/i] on the message of the exception. *)
Definition processIsGone (e : string) : bool := Str.startsWith (Str.toLowerCase e) "no such process".

Section hook.
Context {Handle : Type} (sandbox : ProcessSandbox Handle).
Variable termGraceMs killGraceMs : Z.

Definition await (h : Handle) (pid : string) (graceMs : Z) (done : list op) : option (outcome bool) :=
  let '(now, obs) := observe sandbox h pid done in Poll.awaitProcessExit now graceMs obs.

(** [signalProcess], then [awaitProcessExit]. *)
Definition signalAndAwait (h : Handle) (pid signal : string) (graceMs : Z) (done : list op)
    : option (outcome bool * list op) :=
  let a := signalProcess sandbox h pid signal done in
  let done := done ++ [Signalled signal a] in
  match a with
  | Throw e => Some (Throw e, done)
  | Ok _ =>
      match await h pid graceMs done with
      | Some b => Some (b, done ++ [Awaited graceMs b])
      | None => None
      end
  end.

(** The body of the [try]. *)
Definition terminate (h : Handle) (pid : string) : option (outcome unit * list op) :=
  match signalAndAwait h pid "TERM" termGraceMs [] with
  | None => None
  | Some (Throw e, done) => Some (Throw e, done)
  | Some (Ok true, done) => Some (Ok tt, done)
  | Some (Ok false, done) =>
      match signalAndAwait h pid "KILL" killGraceMs done with
      | None => None
      | Some (Throw e, done) => Some (Throw e, done)
      | Some (Ok true, done) => Some (Ok tt, done)
      | Some (Ok false, done) => Some (Throw ("process survived TERM+KILL: " +:+ pid), done)
      end
  end.

(** The hook of [createReaperKillHook]; [None] when an await never returns. *)
Definition killHook (rec : ProcessRecord) : option (outcome unit * list op) :=
  match provision sandbox (scopeId rec) with
  | Throw e => Some (Throw e, [])
  | Ok h =>
      match terminate h (processId rec) with
      | None => None
      | Some (r, done) =>
          let r := match r with
                   | Throw e => if processIsGone e then Ok tt else Throw e
                   | Ok _ => Ok tt
                   end in
          let t := teardown sandbox h done in
          Some (match t with Ok _ => r | Throw e => Throw e end, done ++ [TornDown t])
      end
  end.

(** The clock moves: while the process is observed, the longer grace passes. *)
Definition clockAdvances : Prop := forall h pid done,
  let '(now, obs) := observe sandbox h pid done in
  existsb (fun o => now + Z.max termGraceMs killGraceMs <=? Poll.after o) obs = true.

Lemma await_returns h pid g done : clockAdvances -> g <= Z.max termGraceMs killGraceMs -> is_Some (await h pid g done).
Proof.
  intros Hc Hg. specialize (Hc h pid done). unfold await. destruct (observe sandbox h pid done) as [now obs].
  unfold Poll.awaitProcessExit, Poll.pollProcess.
  assert (existsb (fun o => now + g <=? Poll.after o) obs = true) as Hc'.
  { apply Arr.existsb_elem in Hc as (o & Ho & Hle%Z.leb_le). apply Arr.existsb_elem. exists o. split; [done|].
    apply Z.leb_le. lia. }
  destruct (Poll.pollLoop_returns 1000 false (fun _ _ => false) (now + g) obs 0 "" Hc') as [[r|e] ->]; by eexists.
Qed.

Lemma signalAndAwait_returns h pid sig g done : clockAdvances -> g <= Z.max termGraceMs killGraceMs ->
  is_Some (signalAndAwait h pid sig g done).
Proof.
  intros Hc Hg. unfold signalAndAwait. destruct (signalProcess _ _ _ _ _); [|by eexists].
  match goal with |- context [await ?a ?b ?c ?d] => destruct (await_returns a b c d Hc Hg) as [x ->] end. by eexists.
Qed.

Lemma signalAndAwait_shape h pid sig g done r done' : signalAndAwait h pid sig g done = Some (r, done') ->
  (exists e, r = Throw e /\ done' = done ++ [Signalled sig (Throw e)])
  \/ done' = done ++ [Signalled sig (Ok tt); Awaited g r].
Proof.
  unfold signalAndAwait. destruct (signalProcess _ _ _ _ _) as [[]|e].
  - destruct (await _ _ _ _); [|done]. intros [= <- <-]. right. by rewrite <- app_assoc.
  - intros [= <- <-]. left. by exists e.
Qed.

Lemma terminate_returns h pid : clockAdvances -> is_Some (terminate h pid).
Proof.
  intros Hc. unfold terminate. destruct (signalAndAwait_returns h pid "TERM" termGraceMs [] Hc (Z.le_max_l _ _)) as [[[[]|e] d] ->];
    [by eexists| |by eexists].
  destruct (signalAndAwait_returns h pid "KILL" killGraceMs d Hc (Z.le_max_r _ _)) as [[[[]|e] d'] ->]; by eexists.
Qed.

Lemma terminate_no_teardown h pid r done : terminate h pid = Some (r, done) -> forall t, TornDown t ∉ done.
Proof.
  unfold terminate. destruct (signalAndAwait h pid "TERM" termGraceMs []) as [[r1 d1]|] eqn:E1; [|done].
  apply signalAndAwait_shape in E1. assert (forall t, TornDown t ∉ d1) as H1 by (destruct E1 as [(e & _ & ->)| ->]; set_solver).
  destruct r1 as [[]|e]; [by intros [= <- <-]| |by intros [= <- <-]].
  destruct (signalAndAwait h pid "KILL" killGraceMs d1) as [[r2 d2]|] eqn:E2; [|done].
  apply signalAndAwait_shape in E2. assert (forall t, TornDown t ∉ d2) as H2 by (destruct E2 as [(e & _ & ->)| ->]; set_solver).
  by destruct r2 as [[]|e]; intros [= <- <-].
Qed.

(** The process is known to be gone: it was seen to have exited, or an operation on it
    was refused because there is no such process. *)
Definition sawGone (o : op) : bool :=
  match o with
  | Awaited _ (Ok true) => true
  | Awaited _ (Throw e) | Signalled _ (Throw e) => processIsGone e
  | _ => false
  end.

Lemma terminate_shape h pid r done : terminate h pid = Some (r, done) ->
  (r = Ok tt -> existsb sawGone done = true)
  /\ (forall e, r = Throw e -> processIsGone e = true -> existsb sawGone done = true)
  /\ (forall a, Signalled "KILL" a ∈ done ->
       exists rest, done = Signalled "TERM" (Ok tt) :: Awaited termGraceMs (Ok false) :: Signalled "KILL" a :: rest).
Proof.
  unfold terminate. destruct (signalAndAwait h pid "TERM" termGraceMs []) as [[r1 d1]|] eqn:E1; [|done].
  apply signalAndAwait_shape in E1 as [(e & -> & ->)| ->]; cbn [app].
  - intros [= <- <-]. split_and!; [done| |].
    + intros e' [= <-] He. cbn. by rewrite He.
    + intros a Ha. exfalso. apply list_elem_of_singleton in Ha. discriminate.
  - destruct r1 as [[]|e].
    + intros [= <- <-]. split_and!; [done|done|]. intros a Ha. exfalso. set_solver.
    + destruct (signalAndAwait h pid "KILL" killGraceMs _) as [[r2 d2]|] eqn:E2; [|done].
      apply signalAndAwait_shape in E2 as [(e & -> & ->)| ->]; cbn [app].
      * intros [= <- <-]. split_and!; [done| |].
        -- intros e' [= <-] He. cbn. by rewrite He.
        -- intros a Ha. exists []. assert (a = Throw e) as -> by set_solver. done.
      * destruct r2 as [[]|e]; intros [= <- <-]; (split_and!; [try done|intros e' [= <-] He; cbn; by rewrite ?He|]);
          intros a Ha; eexists; assert (a = Ok tt) as -> by set_solver; done.
    + intros [= <- <-]. split_and!; [done| |].
      * intros e' [= <-] He. cbn. by rewrite He.
      * intros a Ha. exfalso. set_solver.
Qed.

(** The kill hook always returns once the clock moves.  A sandbox it got hold of is torn
    down exactly once and last, on every path; KILL is sent only after TERM was delivered
    and the process was seen still running at the end of its grace; and the hook succeeds
    only when the process was seen to have exited or the sandbox knows no such
    process: a failing teardown or any other error is raised. *)
Theorem kill_hook_sound rec : clockAdvances ->
  exists r done, killHook rec = Some (r, done)
  /\ match provision sandbox (scopeId rec) with
     | Throw e => r = Throw e /\ done = []
     | Ok _ => exists before t, done = before ++ [TornDown t] /\ (forall t', TornDown t' ∉ before)
                               /\ (forall e, t = Throw e -> r = Throw e)
     end
  /\ (r = Ok tt -> existsb sawGone done = true)
  /\ (forall a, Signalled "KILL" a ∈ done ->
       exists rest, done = Signalled "TERM" (Ok tt) :: Awaited termGraceMs (Ok false) :: Signalled "KILL" a :: rest).
Proof.
  intros Hc. unfold killHook. destruct (provision sandbox (scopeId rec)) as [h|e].
  - destruct (terminate_returns h (processId rec) Hc) as [[r done] Ht]. rewrite Ht.
    destruct (terminate_shape _ _ _ _ Ht) as (H1 & H2 & H3). pose proof (terminate_no_teardown _ _ _ _ Ht) as H4.
    eexists _, _. split; [done|]. split_and!.
    + exists done, (teardown sandbox h done). split_and!; [done|done|]. by intros e ->.
    + intros Hr. rewrite existsb_app. apply orb_true_iff. left. destruct (teardown sandbox h done); [|done].
      destruct r as [[]|e]; [by apply H1|]. destruct (processIsGone e) eqn:Eg; [by eapply H2|done].
    + intros a [Ha|Ha]%elem_of_app; [|set_solver]. destruct (H3 a Ha) as [rest ->]. by eexists.
  - eexists _, _. split_and!; [done..|]. intros a Ha. exfalso. set_solver.
Qed.
End hook.

(** ** The sweep *)

(** [kill] answers with the registry as it is after the await: others may have
    changed it meanwhile.  The result holds the records passed to [onReaped], whose
    failures are logged and ignored; [reaped] is their number. *)
Fixpoint sweepLoop (kill : option (ProcessRecord -> rows -> outcome unit * rows)) (expired : list ProcessRecord) (m : rows)
    : rows * list ProcessRecord :=
  match expired with
  | [] => (m, [])
  | rec :: rest =>
      let '(killed, m) := match kill with Some k => k rec m | None => (Ok tt, m) end in
      match killed with
      | Throw _ => sweepLoop kill rest m
      | Ok _ =>
          let '(flipped, m) := markStatus (processId rec) reaped m in
          let '(m, hooked) := sweepLoop kill rest m in
          (m, if flipped then rec :: hooked else hooked)
      end
  end.

Definition sweep (kill : option (ProcessRecord -> rows -> outcome unit * rows)) (now : Z) (m : rows)
    : rows * list ProcessRecord :=
  sweepLoop kill (listExpired m now) m.

(** A kill during which nobody touches the registry. *)
Definition quietly (kill : ProcessRecord -> outcome unit) : option (ProcessRecord -> rows -> outcome unit * rows) :=
  Some (fun r m => (kill r, m)).

Definition killed (kill : ProcessRecord -> outcome unit) (r : ProcessRecord) : bool :=
  match kill r with Ok _ => true | Throw _ => false end.

Lemma sweepLoop_get kill l m k :
  JMap.get (fst (sweepLoop (quietly kill) l m)) k =
  (fun r => if existsb (fun x => (processId x === k) && killed kill x) l then with_status r reaped else r)
  <$> JMap.get m k.
Proof.
  revert m. induction l as [|x l IH]; intros m; cbn [sweepLoop existsb quietly].
  - cbn. destruct (JMap.get m k); reflexivity.
  - change (Some _) with (quietly kill). unfold killed at 1. destruct (kill x) as [[]|e].
    + destruct (markStatus (processId x) reaped m) as [fl m1] eqn:Em.
      destruct (sweepLoop (quietly kill) l m1) as [m2 hk] eqn:Es. cbn. specialize (IH m1). rewrite Es in IH. cbn in IH.
      rewrite IH. replace m1 with (snd (markStatus (processId x) reaped m)) by by rewrite Em.
      rewrite markStatus_get. case_decide as Hk.
      * rewrite (bool_decide_eq_true_2 (_ = _)) by done. cbn. destruct (JMap.get m k); cbn; [|done]. by case_match.
      * by rewrite (bool_decide_eq_false_2 (_ = _)) by done.
    + rewrite IH. by rewrite andb_false_r.
Qed.

Lemma sweepLoop_hooked kill l m : (forall r, r ∈ l -> is_Some (JMap.get m (processId r))) ->
  snd (sweepLoop (quietly kill) l m) = List.filter (killed kill) l.
Proof.
  revert m. induction l as [|x l IH]; intros m Hin; cbn [sweepLoop List.filter quietly]; [done|].
  change (Some _) with (quietly kill). unfold killed at 1.
  destruct (kill x) as [[]|e]; [|apply IH; intros r Hr; apply Hin; by right].
  destruct (Hin x) as [rx Hx]; [left|]. destruct (markStatus (processId x) reaped m) as [fl m1] eqn:Em.
  assert (fl = true) as -> by (unfold markStatus in Em; rewrite Hx in Em; congruence).
  specialize (IH m1). destruct (sweepLoop (quietly kill) l m1) as [m2 hk]. cbn in *. rewrite IH; [done|].
  intros r Hr. replace m1 with (snd (markStatus (processId x) reaped m)) by by rewrite Em.
  rewrite markStatus_get. destruct (Hin r) as [r' Hr']; [by right|]. rewrite Hr'. case_decide; by eexists.
Qed.

Lemma sweepLoop_wf kill l m : wf m -> wf (fst (sweepLoop (quietly kill) l m)).
Proof.
  revert m. induction l as [|x l IH]; intros m Hm; cbn [sweepLoop quietly]; [done|].
  change (Some _) with (quietly kill). destruct (kill x); [|by apply IH].
  destruct (markStatus (processId x) reaped m) as [fl m1] eqn:Em. specialize (IH m1).
  destruct (sweepLoop (quietly kill) l m1) as [m2 hk]. apply IH.
  replace m1 with (snd (markStatus (processId x) reaped m)) by by rewrite Em. by apply markStatus_wf.
Qed.

Definition expiredAt (now : Z) (r : ProcessRecord) : bool := isRunning r && (expiresAt r <=? now).

Lemma expired_killed kill m now k r : wf m -> JMap.get m k = Some r ->
  existsb (fun x => (processId x === k) && killed kill x) (listExpired m now) = expiredAt now r && killed kill r.
Proof.
  intros Hm Hk. pose proof (proj2 Hm _ _ Hk) as [Hid _]. apply eq_true_iff_eq. unfold listExpired.
  rewrite Arr.existsb_elem. setoid_rewrite Arr.elem_of_filter. setoid_rewrite (values_get m _ Hm).
  fold (expiredAt now). split.
  - intros (x & (H1 & H2) & [H3%bool_decide_eq_true H4]%andb_true_iff). assert (x = r) as -> by congruence.
    unfold expiredAt. by rewrite H1, H4.
  - intros [H1 H2]%andb_true_iff. exists r. rewrite Hid, H2. split_and!; try done. rewrite andb_true_r.
    by apply bool_decide_eq_true_2.
Qed.

(** A sweep reaps exactly the running processes whose time is up and whose kill
    succeeded: their status becomes reaped and nothing else of them changes, every other row
    stays as it is, [onReaped] gets each of them once and in order, and a kill that fails
    stops neither the sweep nor the next attempt: its process is all that is still
    listed as expired. *)
Theorem sweep_exact kill now m : wf m ->
  let '(m', hooked) := sweep (quietly kill) now m in
  (forall k, JMap.get m' k =
     (fun r => if expiredAt now r && killed kill r then with_status r reaped else r) <$> JMap.get m k)
  /\ hooked = List.filter (killed kill) (listExpired m now)
  /\ wf m'
  /\ (forall r, r ∈ listExpired m' now <-> r ∈ listExpired m now /\ killed kill r = false).
Proof.
  intros Hm. destruct (sweep (quietly kill) now m) as [m' hooked] eqn:E. unfold sweep in E.
  assert (forall k, JMap.get m' k =
     (fun r => if expiredAt now r && killed kill r then with_status r reaped else r) <$> JMap.get m k) as Hget.
  { intros k. pose proof (sweepLoop_get kill (listExpired m now) m k) as H. rewrite E in H. cbn in H. rewrite H.
    destruct (JMap.get m k) as [r|] eqn:Ek; [|done]. cbn. by rewrite (expired_killed kill m now k r Hm Ek). }
  assert (wf m') as Hm'.
  { pose proof (sweepLoop_wf kill (listExpired m now) m Hm) as H. by rewrite E in H. }
  split_and!; [done| |done|].
  - pose proof (sweepLoop_hooked kill (listExpired m now) m) as H. rewrite E in H. apply H.
    intros r [_ Hr]%Arr.elem_of_filter. apply (values_get m r Hm) in Hr. by eexists.
  - intros r. unfold listExpired. rewrite !Arr.elem_of_filter, (values_get m' r Hm'), (values_get m r Hm), Hget.
    fold (expiredAt now r). split.
    + intros [H1 H2]. destruct (JMap.get m (processId r)) as [r0|]; [|done]. cbn in H2. injection H2 as H2.
      destruct (expiredAt now r0) eqn:E0; [|cbn in H2; congruence].
      destruct (killed kill r0) eqn:Ek; cbn in H2; [subst r; done|]. by subst r0.
    + intros [[H1 ->] H2]. cbn. by rewrite H1, H2.
Qed.
End Reaper.

(** ** Witnesses *)

Definition demo_row (pid : string) (expires : Z) : Registry.ProcessRecord :=
  Registry.mkRecord pid "channel:c" "build" "make" 0 expires Registry.running None None.

Definition demo_rows : Registry.rows := [("p1", demo_row "p1" 10); ("p2", demo_row "p2" 10); ("p3", demo_row "p3" 50)].

Lemma demo_rows_wf : Registry.wf demo_rows.
Proof.
  split; [by apply (bool_decide_unpack _); vm_compute|]. intros k r Hk. apply JMap.get_elem in Hk.
  repeat (apply elem_of_cons in Hk as [[= -> ->]|Hk]; [by vm_compute|]). by apply elem_of_nil in Hk.
Qed.

(** A kill that fails for one of the processes. *)
Definition demo_kill (r : Registry.ProcessRecord) : outcome unit :=
  if Registry.processId r === "p1" then Throw "boom" else Ok tt.

Lemma sweep_exact_witness : exists m' hooked, Reaper.sweep (Reaper.quietly demo_kill) 20 demo_rows = (m', hooked)
  /\ JMap.get m' "p2" = Some (Registry.with_status (demo_row "p2" 10) Registry.reaped)
  /\ hooked = [demo_row "p2" 10].
Proof.
  pose proof (Reaper.sweep_exact demo_kill 20 demo_rows demo_rows_wf) as H.
  destruct (Reaper.sweep _ _ _) as [m' hooked] eqn:E. destruct H as (H1 & H2 & _). exists m', hooked.
  split; [done|]. split; [rewrite H1; by vm_compute|]. rewrite H2. by vm_compute.
Defined.

Lemma reconcile_exact_witness : exists m',
  Registry.reconcileProcesses (Ok [("p1", true); ("p2", false)]) "channel:c" demo_rows = Ok m'
  /\ JMap.get m' "p1" = Some (demo_row "p1" 10)
  /\ JMap.get m' "p2" = Some (Registry.with_status (demo_row "p2" 10) Registry.exited).
Proof.
  eexists. split; [by vm_compute|].
  destruct (Registry.reconcile_exact "channel:c" [("p1", true); ("p2", false)] demo_rows demo_rows_wf) as [H _].
  match goal with |- JMap.get ?x _ = _ /\ _ => destruct (H x) as [_ Hg]; [by vm_compute|] end.
  split; rewrite Hg; by vm_compute.
Defined.

(** A sandbox whose process ignores TERM and dies of KILL. *)
Definition demo_sandbox : Reaper.ProcessSandbox unit :=
  Reaper.mkSandbox unit (fun _ => Ok tt) (fun _ _ _ _ => Ok tt)
    (fun _ _ done => (0, [Poll.mkObs 0 (fun _ _ => Ok (Poll.mkRead "" 0 (2 <=? Z.of_nat (length done)))) 5000]))
    (fun _ _ => Ok tt).

Lemma kill_hook_sound_witness : exists r done,
  Reaper.killHook demo_sandbox 5000 2000 (demo_row "p1" 10) = Some (r, done)
  /\ (r = Ok tt -> existsb Reaper.sawGone done = true) /\ r = Ok tt.
Proof.
  destruct (Reaper.kill_hook_sound demo_sandbox 5000 2000 (demo_row "p1" 10)) as (r & done & Hk & _ & Hg & _).
  - intros h pid done. reflexivity.
  - exists r, done. split; [done|]. split; [done|]. vm_compute in Hk. congruence.
Defined.
