(* ===== verification/Memory.v ===== *)
(** * Memory: the notebook of a scope

    [Notebook] is [src/memory/notebook.ts], [Policy] is [src/memory/policy.ts] and the
    rest is [src/memory/memory-service.ts]: facts are captured as dated bullets of a
    Markdown file, a fact that is already there is not captured again, and the oldest
    bullets go when there are too many.  The regular expressions of the source are
    simple enough to be written out as functions.  The workspace that keeps the file is
    an interface with its laws; the hash behind a revision is a parameter. *)

From Stdlib Require Import ZArith Lia Ascii.
From S2P Require Import Prelude Collections Scopes Regex.
Open Scope Z_scope.

(** ** Dates: the first ten characters of [toISOString] *)
Module IsoDate.
Definition MS_PER_DAY : Z := 86400000.
Definition MAX_TIME : Z := 8640000000000000.

(** Year, month and day of a number of days since 1970-01-01 in the proleptic
    Gregorian calendar, by counting in eras of 400 years that begin on 1 March. *)
Definition civil (days : Z) : Z * Z * Z :=
  let z := days + 719468 in
  let era := z / 146097 in
  let doe := z - era * 146097 in
  let yoe := (doe - doe / 1460 + doe / 36524 - doe / 146096) / 365 in
  let doy := doe - (365 * yoe + yoe / 4 - yoe / 100) in
  let mp := (5 * doy + 2) / 153 in
  let d := doy - (153 * mp + 2) / 5 + 1 in
  let m := if mp <? 10 then mp + 3 else mp - 9 in
  let y := yoe + era * 400 + (if m <=? 2 then 1 else 0) in
  (y, m, d).

(** The last decimal digit of a number. *)
Definition digit (n : Z) : ascii := ascii_of_N (48 + Z.to_N (n mod 10)).

Definition pad2 (n : Z) (rest : string) : string := String (digit (n / 10)) (String (digit n) rest).
Definition pad4 (n : Z) (rest : string) : string := pad2 (n / 100) (pad2 n rest).

Definition yearString (y : Z) (rest : string) : string :=
  if (0 <=? y) && (y <=? 9999) then pad4 y rest
  else String (if (y <? 0)%Z then "-"%char else "+"%char) (pad2 (Z.abs y / 10000) (pad4 (Z.abs y) rest)).

(** [new Date(at).toISOString().slice(0, 10)] *)
Definition dateStr (at_ : Z) : outcome string :=
  if MAX_TIME <? Z.abs at_ then Throw "Invalid time value"
  else
    let '(y, m, d) := civil (at_ / MS_PER_DAY) in
    Ok (Str.take 10 (yearString y (String "-"%char (pad2 m (String "-"%char (pad2 d "")))))).
End IsoDate.

(** ** The notebook *)
Module Notebook.
Definition nl : ascii := ascii_of_nat 10.
Definition lines (body : string) : list string := Str.split nl body.
Definition unlines (l : list string) : string := Str.join (String nl "") l.

Definition RECALL_MAX_CHARS : Z := 6000.

Definition isMark (c : ascii) : bool := (c === "-"%char) || (c === "*"%char).

Definition isBullet (line : string) : bool :=
  let t := Str.trimStart line in Str.startsWith t "- " || Str.startsWith t "* ".

(** [.replace(/^[-*]\s*/, "")] *)
Definition dropMark (s : string) : string :=
  match s with String c r => if isMark c then Str.trimStart r else s | _ => s end.

(** [.replace(/^[-*]\s+/, "")] *)
Definition dropMarkSpace (s : string) : string :=
  match s with
  | String c (String d r) => if isMark c && Str.js_space d then Str.trimStart r else s
  | _ => s
  end.

Definition bulletText (line : string) : string := Str.trim (dropMark (Str.trimStart line)).

(** The rest of [s] after one character of each class. *)
Fixpoint eat (classes : list (ascii -> bool)) (s : string) : option string :=
  match classes, s with
  | [], _ => Some s
  | p :: classes, String c s => if p c then eat classes s else None
  | _, _ => None
  end.

Definition isChar (c d : ascii) : bool := c === d.

(** [\(\d{4}-\d\d-\d\d\)] *)
Definition dateShape : list (ascii -> bool) :=
  let d := Re.isDigit in
  [isChar "("%char; d; d; d; d; isChar "-"%char; d; d; isChar "-"%char; d; d; isChar ")"%char].

(** What follows a date in parentheses at the start of [s]. *)
Definition afterDate (s : string) : option string := eat dateShape s.

Definition captureDate (text : string) : option string :=
  match afterDate text with Some _ => Some (Str.take 10 (Str.drop 1 text)) | None => None end.

Definition bullets (body : string) : list string := map bulletText (List.filter isBullet (lines body)).

Definition normalize (line : string) : string :=
  let s := dropMark line in
  let s := match afterDate s with Some rest => Str.trimStart rest | None => s end in
  Str.toLowerCase (Str.trim s).

Definition capTail (text : string) (maxChars : Z) : string :=
  let n := Z.of_nat (String.length text) in
  if maxChars <? n then Str.drop (Z.to_nat (n - maxChars)) text else text.
End Notebook.

(** ** Capturing facts *)
Module Capture.
Import Notebook.

Definition MEMORY_HEADER : string := "# Memory".
Definition MAX_FACTS : nat := 300.

(** A date at the start becomes text. *)
Definition demoteDate (text : string) : string :=
  match afterDate text with
  | Some rest => "on " +:+ Str.take 10 (Str.drop 1 text) +:+ ": " +:+ Str.trimStart rest
  | None => text
  end.

(** The longest prefix without [)], and what follows it. *)
Fixpoint untilParen (s : string) : string * string :=
  match s with
  | EmptyString => ("", "")
  | String c r => if c === ")"%char then ("", s) else let '(a, b) := untilParen r in (String c a, b)
  end.

(** [/^\s+\(said in ([^)]+)\)\s*$/i] *)
Definition saidHere (s : string) : option string :=
  let t := Str.trimStart s in
  if t === s then None
  else if Str.startsWith (Str.toLowerCase t) "(said in " then
    let '(source, rest) := untilParen (Str.drop 9 t) in
    match rest with
    | String _ after =>
        if Str.truthy source && negb (Str.truthy (Str.trimStart after)) then Some source else None
    | EmptyString => None
    end
  else None.

(** A source at the end becomes a claim: the leftmost match is replaced. *)
Fixpoint demoteSource (s : string) : string :=
  match saidHere s with
  | Some source => " [claimed source: " +:+ source +:+ "]"
  | None => match s with EmptyString => EmptyString | String c r => String c (demoteSource r) end
  end.

Definition cleanFact (trustedProvenance : bool) (f : string) : string :=
  let text := dropMarkSpace (Str.trim (Str.collapse false f)) in
  if trustedProvenance then text else demoteSource (demoteDate text).

Definition bullet (date f : string) : string := "- (" +:+ date +:+ ") " +:+ f.

(** The bullets to add, for facts whose key was not seen before. *)
Fixpoint fresh (date : string) (seen : list string) (clean : list string) : list string :=
  match clean with
  | [] => []
  | f :: rest =>
      let key := normalize f in
      if negb (Str.truthy key) || bool_decide (key ∈ seen) then fresh date seen rest
      else bullet date f :: fresh date (key :: seen) rest
  end.

(** The lines without the first [n] bullets. *)
Fixpoint dropBullets (n : nat) (l : list string) : list string :=
  match n, l with
  | 0%nat, _ | _, [] => l
  | S n', x :: r => if isBullet x then dropBullets n' r else x :: dropBullets n r
  end.

Definition capFacts (body : string) : string :=
  let ls := lines body in
  let overflow := (length (List.filter isBullet ls) - MAX_FACTS)%nat in
  if (0 <? overflow)%nat then unlines (dropBullets overflow ls) else body.

Definition seenKeys (existing : string) : list string := map normalize (List.filter isBullet (lines existing)).

Definition appendFacts (existing : string) (added : list string) : string :=
  if Str.truthy (Str.trim existing) then Str.trimEnd existing +:+ String nl "" +:+ unlines added
  else MEMORY_HEADER +:+ String nl (String nl "") +:+ unlines added.

Definition foldCapture (existing : string) (facts : list string) (at_ : Z) (trustedProvenance : bool)
    : outcome (string * nat) :=
  match List.filter Str.truthy (map (cleanFact trustedProvenance) facts) with
  | [] => Ok (existing, 0%nat)
  | clean =>
      let! date := IsoDate.dateStr at_ in
      match fresh date (seenKeys existing) clean with
      | [] => Ok (existing, 0%nat)
      | added => Ok (capFacts (appendFacts existing added), length added)
      end
  end.

Definition words (s : string) : list string := List.filter Str.truthy (Str.split " " (Str.collapse false s)).

Definition queryBullets (body q : string) (limit : nat) : list string :=
  match words (Str.toLowerCase q) with
  | [] => []
  | terms => take limit (List.filter (fun l => forallb (fun t => Str.includes (Str.toLowerCase l) t) terms) (bullets body))
  end.

Definition recallBody (body : string) : string :=
  let trimmed := Str.trim body in if Str.truthy trimmed then capTail trimmed RECALL_MAX_CHARS else "".

Definition normalizeReplace (content : string) : string :=
  let trimmed := Str.trimEnd content in if Str.truthy trimmed then trimmed +:+ String nl "" else "".
End Capture.

(** ** Facts about lines and bullets *)
Module Facts.
Import Notebook Capture.

#[local] Notation "'no_nl' s" := (Str.includesChar nl s = false) (at level 10, s at level 9).

Lemma collapse_no_nl prev s : no_nl (Str.collapse prev s).
Proof.
  revert prev. induction s as [|c s IH]; intros prev; cbn; [done|]. destruct (Str.js_space c) eqn:E.
  - destruct prev; [apply IH|]. cbn. apply IH.
  - cbn. rewrite IH, orb_false_r. apply bool_decide_eq_false_2. intros ->. by vm_compute in E.
Qed.

Lemma eat_no_nl cs s rest : eat cs s = Some rest -> no_nl s -> no_nl rest.
Proof.
  revert s. induction cs as [|p cs IH]; intros [|c s]; cbn; try done; [by intros [= <-]|by intros [= <-]|].
  destruct (p c); [|done]. intros H [_ Hs]%orb_false_iff. by eapply IH.
Qed.

Lemma untilParen_append s a b : untilParen s = (a, b) -> s = a +:+ b.
Proof.
  revert a b. induction s as [|c s IH]; cbn; [by intros a b [= <- <-]|]. intros a b. case_bool_decide.
  - by intros [= <- <-].
  - destruct (untilParen s) as [a' b'] eqn:E. intros [= <- <-]. cbn. f_equal. by apply IH.
Qed.

Lemma saidHere_no_nl s source : saidHere s = Some source -> no_nl s -> no_nl source.
Proof.
  unfold saidHere. intros H Hs. repeat case_match; try done. injection H as <-.
  match goal with E : untilParen _ = _ |- _ => apply untilParen_append in E; rename E into Eu end.
  assert (no_nl (Str.drop 9 (Str.trimStart s))) as Hd by by apply Str.includesChar_drop, Str.includesChar_trimStart.
  rewrite Eu, Str.includesChar_append in Hd. by apply orb_false_iff in Hd as [? _].
Qed.

Lemma demoteSource_no_nl s : no_nl s -> no_nl (demoteSource s).
Proof.
  induction s as [|c s IH]; intros Hs; [done|]. cbn [demoteSource].
  destruct (saidHere (String c s)) as [source|] eqn:E.
  - cbn. rewrite Str.includesChar_append. cbn. rewrite (saidHere_no_nl _ _ E Hs). done.
  - cbn in *. apply orb_false_iff in Hs as [H1 H2]. by rewrite H1, IH.
Qed.

Lemma demoteDate_no_nl s : no_nl s -> no_nl (demoteDate s).
Proof.
  intros Hs. unfold demoteDate. destruct (afterDate s) as [rest|] eqn:E; [|done].
  rewrite !Str.includesChar_append. rewrite (Str.includesChar_trimStart _ _ (eat_no_nl _ _ _ E Hs)).
  rewrite Str.includesChar_take; [done|]. by apply (Str.includesChar_drop _ 1).
Qed.

Lemma cleanFact_no_nl trusted f : no_nl (cleanFact trusted f).
Proof.
  unfold cleanFact. assert (no_nl (dropMarkSpace (Str.trim (Str.collapse false f)))) as H.
  { assert (no_nl (Str.trim (Str.collapse false f))) as H
      by by apply Str.includesChar_trimEnd, Str.includesChar_trimStart, collapse_no_nl.
    destruct (Str.trim (Str.collapse false f)) as [|c [|d r]]; try done. cbn [dropMarkSpace].
    destruct (isMark c && Str.js_space d); [|done]. cbn in H. apply orb_false_iff in H as [_ [_ H]%orb_false_iff].
    by apply Str.includesChar_trimStart. }
  destruct trusted; [done|]. by apply demoteSource_no_nl, demoteDate_no_nl.
Qed.

(** ** Dates *)

(** The moment lies in a year that is written with four digits. *)
Definition fourDigitYear (at_ : Z) : bool :=
  let '(y, _, _) := IsoDate.civil (at_ / IsoDate.MS_PER_DAY) in (0 <=? y) && (y <=? 9999).

Lemma digit_isDigit n : Re.isDigit (IsoDate.digit n) = true.
Proof.
  unfold IsoDate.digit. pose proof (Z.mod_pos_bound n 10 ltac:(lia)) as H.
  assert (n mod 10 = 0 \/ n mod 10 = 1 \/ n mod 10 = 2 \/ n mod 10 = 3 \/ n mod 10 = 4 \/ n mod 10 = 5 \/ n mod 10 = 6
          \/ n mod 10 = 7 \/ n mod 10 = 8 \/ n mod 10 = 9) as Hn by lia.
  by repeat destruct Hn as [-> | Hn]; [..|rewrite Hn].
Qed.

Lemma digit_not_nl n : (IsoDate.digit n === nl) = false.
Proof.
  apply bool_decide_eq_false_2. intros E. pose proof (digit_isDigit n) as H. rewrite E in H. by vm_compute in H.
Qed.

Lemma dateStr_shape at_ date rest : IsoDate.dateStr at_ = Ok date -> fourDigitYear at_ = true ->
  afterDate ("(" +:+ date +:+ ")" +:+ rest) = Some rest /\ no_nl date.
Proof.
  unfold IsoDate.dateStr, fourDigitYear. destruct (IsoDate.MAX_TIME <? Z.abs at_); [done|].
  destruct (IsoDate.civil (at_ / IsoDate.MS_PER_DAY)) as [[y m] d]. intros [= <-] Hy.
  unfold IsoDate.yearString. rewrite Hy. unfold IsoDate.pad4, IsoDate.pad2.
  cbn [Str.take]. unfold afterDate, dateShape. split.
  - cbn -[IsoDate.digit Re.isDigit]. unfold isChar. cbn -[IsoDate.digit Re.isDigit]. rewrite !digit_isDigit. done.
  - cbn -[IsoDate.digit]. by rewrite !digit_not_nl.
Qed.

(** ** What a capture adds *)

Definition bulletLines (body : string) : list string := List.filter isBullet (lines body).

Lemma bullet_isBullet date f : isBullet (bullet date f) = true.
Proof. done. Qed.

Lemma bullet_no_nl date f : no_nl date -> no_nl f -> no_nl (bullet date f).
Proof. intros Hd Hf. unfold bullet. by rewrite !Str.includesChar_append, Hd, Hf. Qed.

Lemma fresh_spec date seen clean : exists fs,
  fresh date seen clean = map (bullet date) fs /\ fs `sublist_of` clean /\ NoDup (map normalize fs)
  /\ (forall f, f ∈ fs -> normalize f <> "" /\ normalize f ∉ seen)
  /\ (forall f, f ∈ clean -> normalize f = "" \/ normalize f ∈ seen \/ normalize f ∈ map normalize fs).
Proof.
  revert seen. induction clean as [|f clean IH]; intros seen; cbn [fresh].
  - exists []. split_and!; try done; [constructor|set_solver|set_solver].
  - destruct (negb (Str.truthy (normalize f)) || bool_decide (normalize f ∈ seen)) eqn:E.
    + destruct (IH seen) as (fs & H1 & H2 & H3 & H4 & H5). exists fs. split_and!; try done; [by apply sublist_cons|].
      intros g [->|Hg]%elem_of_cons; [|by apply H5]. apply orb_true_iff in E as [E|E]; js_bool; [|by right; left].
      left. by apply Str.truthy_false_iff.
    + js_bool. destruct (IH (normalize f :: seen)) as (fs & H1 & H2 & H3 & H4 & H5). exists (f :: fs).
      split_and!.
      * by rewrite H1.
      * by apply sublist_skip.
      * rewrite map_cons. constructor; [|done]. rewrite list_elem_of_fmap. intros (g & Hg & Hin).
        destruct (H4 g Hin) as [_ Hn]. apply Hn. rewrite Hg. left.
      * intros g [->|Hg]%elem_of_cons; [split; [by apply Str.truthy_iff|done]|].
        destruct (H4 g Hg) as [? Hn]. split; [done|]. intros Hs. apply Hn. by right.
      * intros g [->|Hg]%elem_of_cons; [right; right; left|].
        destruct (H5 g Hg) as [?|[[->|?]%elem_of_cons|?]]; [by left|right; right; left|by right; left|right; right; by right].
Qed.

Lemma trim_blank s : Str.trim s = "" -> Str.trimEnd s = "".
Proof.
  unfold Str.trim. induction s as [|c s IH]; [done|]. cbn [Str.trimStart]. destruct (Str.js_space c) eqn:E; [|done].
  intros H. cbn. by rewrite (IH H), E.
Qed.

Lemma appendFacts_lines existing added : added <> [] -> Forall (fun l => no_nl l) added ->
  lines (appendFacts existing added)
  = (if Str.truthy (Str.trim existing) then lines (Str.trimEnd existing) else [MEMORY_HEADER; ""]) ++ added.
Proof.
  intros Hne Hall. unfold appendFacts, lines, unlines. destruct (Str.truthy (Str.trim existing)).
  - change (String nl "" +:+ ?x) with (String nl x). by rewrite Str.split_append, Str.split_join.
  - change (String nl (String nl "") +:+ ?x) with (String nl ("" +:+ String nl x)).
    by rewrite !Str.split_append, Str.split_join.
Qed.

Lemma filter_bullets fs date : List.filter isBullet (map (bullet date) fs) = map (bullet date) fs.
Proof. apply Arr.filter_all. intros x (f & -> & _)%list_elem_of_fmap. apply bullet_isBullet. Qed.

Lemma appendFacts_bullets existing added : added <> [] -> Forall (fun l => no_nl l) added ->
  List.filter isBullet added = added ->
  bulletLines (appendFacts existing added) = bulletLines (Str.trimEnd existing) ++ added.
Proof.
  intros Hne Hall Hb. unfold bulletLines. rewrite appendFacts_lines, List.filter_app, Hb by done.
  destruct (Str.truthy (Str.trim existing)) eqn:E; [done|].
  apply Str.truthy_false_iff, trim_blank in E. by rewrite E.
Qed.

Lemma dropBullets_filter n l : List.filter isBullet (dropBullets n l) = drop n (List.filter isBullet l).
Proof.
  revert n. induction l as [|x l IH]; intros [|n]; cbn; try done. destruct (isBullet x) eqn:E; cbn; [by rewrite IH|].
  by rewrite E, IH.
Qed.

Lemma dropBullets_in n l x : x ∈ dropBullets n l -> x ∈ l.
Proof.
  revert n. induction l as [|y l IH]; intros [|n]; cbn; try done. destruct (isBullet y).
  - intros H. right. by eapply IH.
  - intros [->|H]%elem_of_cons; [left|right; by eapply IH].
Qed.

Lemma capFacts_bullets body : bulletLines (capFacts body) = Arr.slice_last MAX_FACTS (bulletLines body).
Proof.
  unfold capFacts, Arr.slice_last. cbn zeta. fold (bulletLines body).
  destruct (Nat.ltb_spec 0 (length (bulletLines body) - MAX_FACTS)) as [H|H].
  - unfold bulletLines at 1. unfold lines at 1. unfold unlines. rewrite Str.split_join.
    + apply dropBullets_filter.
    + intros E. pose proof (dropBullets_filter (length (bulletLines body) - MAX_FACTS) (lines body)) as Hd.
      rewrite E in Hd. symmetry in Hd. apply (f_equal length) in Hd. rewrite length_drop in Hd.
      fold (bulletLines body) in Hd. cbn [length List.filter] in Hd. unfold MAX_FACTS in *. lia.
    + apply Forall_forall. intros x Hx%dropBullets_in. by eapply Str.split_elem.
  - replace (_ - _)%nat with 0%nat by lia. done.
Qed.

(** What [clean] is. *)
Definition cleaned (trusted : bool) (facts : list string) : list string :=
  List.filter Str.truthy (map (cleanFact trusted) facts).

Lemma cleaned_no_nl trusted facts f : f ∈ cleaned trusted facts -> no_nl f.
Proof. intros [_ (g & -> & _)%list_elem_of_fmap]%Arr.elem_of_filter. apply cleanFact_no_nl. Qed.

Lemma foldCapture_cases existing facts at_ trusted body n : foldCapture existing facts at_ trusted = Ok (body, n) ->
  (cleaned trusted facts = [] /\ body = existing /\ n = 0%nat)
  \/ exists date, IsoDate.dateStr at_ = Ok date
     /\ n = length (fresh date (seenKeys existing) (cleaned trusted facts))
     /\ body = match fresh date (seenKeys existing) (cleaned trusted facts) with
               | [] => existing
               | added => capFacts (appendFacts existing added)
               end.
Proof.
  unfold foldCapture. fold (cleaned trusted facts). destruct (cleaned trusted facts) as [|f l] eqn:E.
  - intros [= <- <-]. by left.
  - destruct (IsoDate.dateStr at_) as [date|]; cbn [obind]; [|done].
    destruct (fresh date (seenKeys existing) (f :: l)) as [|a added] eqn:Ea; intros [= <- <-]; right; exists date; rewrite Ea; done.
Qed.

Lemma added_bullets existing trusted facts date fs at_ : IsoDate.dateStr at_ = Ok date -> fourDigitYear at_ = true ->
  fs `sublist_of` cleaned trusted facts -> fs <> [] ->
  bulletLines (match map (bullet date) fs with [] => existing | added => capFacts (appendFacts existing added) end)
  = Arr.slice_last MAX_FACTS (bulletLines (Str.trimEnd existing) ++ map (bullet date) fs).
Proof.
  intros Hd Hy Hsub Hne. replace (match map (bullet date) fs with [] => existing | _ => _ end)
    with (capFacts (appendFacts existing (map (bullet date) fs))) by by destruct fs.
  rewrite capFacts_bullets, appendFacts_bullets; [done|by destruct fs| |apply filter_bullets].
  apply Forall_forall. intros x (f & -> & Hf)%list_elem_of_fmap.
  apply bullet_no_nl; [by apply (dateStr_shape at_ date "")|].
  eapply cleaned_no_nl. eapply elem_of_submseteq; [done|by apply sublist_submseteq].
Qed.

Lemma trimEnd_nl s : Str.trimEnd (s +:+ String nl "") = Str.trimEnd s.
Proof. induction s as [|c s IH]; [done|]. cbn [String.append Str.trimEnd]. by rewrite IH. Qed.

(** What a capture does, exactly.  The facts that are added are cleaned facts in their
    order, their keys are new and distinct, and every cleaned fact has an empty key, a
    key that was there or the key of an added one.  Without an addition the notebook is
    returned as it was; otherwise its bullets are the former ones followed by the added,
    of which the newest three hundred are kept. *)
Theorem capture_exact existing facts at_ trusted body n :
  foldCapture existing facts at_ trusted = Ok (body, n) -> fourDigitYear at_ = true ->
  exists date fs,
    (n <> 0%nat -> IsoDate.dateStr at_ = Ok date) /\ n = length fs
    /\ fs `sublist_of` cleaned trusted facts /\ NoDup (map normalize fs)
    /\ (forall f, f ∈ fs -> normalize f <> "" /\ normalize f ∉ seenKeys existing)
    /\ (forall f, f ∈ cleaned trusted facts ->
         normalize f = "" \/ normalize f ∈ seenKeys existing \/ normalize f ∈ map normalize fs)
    /\ (n = 0%nat -> body = existing)
    /\ (n <> 0%nat -> bulletLines body
         = Arr.slice_last MAX_FACTS (bulletLines (Str.trimEnd existing) ++ map (bullet date) fs))
    /\ (n <> 0%nat -> (length (bulletLines body) <= MAX_FACTS)%nat).
Proof.
  intros H Hy. apply foldCapture_cases in H as [(Hc & -> & ->)|(date & Hd & -> & ->)].
  - exists "", []. rewrite Hc. split_and!; try done; [constructor|set_solver|set_solver].
  - destruct (fresh_spec date (seenKeys existing) (cleaned trusted facts)) as (fs & Hf & Hsub & Hnd & Hnew & Hall).
    exists date, fs. rewrite Hf, length_map. split_and!; try done.
    + by destruct fs.
    + intros Hn. apply (added_bullets existing trusted facts date fs at_); try done. by destruct fs.
    + intros Hn. rewrite (added_bullets existing trusted facts date fs at_); try done; [|by destruct fs].
      rewrite Arr.slice_last_length. lia.
Qed.

(** ** Capturing the same facts again *)

(** A cleaned fact that starts neither like a bullet nor with a date. *)
Definition plain (f : string) : bool :=
  match f with
  | String c _ => negb (isMark c) && negb (Str.js_space c) && negb (bool_decide (is_Some (afterDate f)))
  | EmptyString => false
  end.

Lemma normalize_bullet at_ date f : IsoDate.dateStr at_ = Ok date -> fourDigitYear at_ = true -> plain f = true ->
  normalize (bullet date f) = normalize f.
Proof.
  intros Hd Hy Hp. unfold normalize.
  change (dropMark (bullet date f)) with ("(" +:+ date +:+ ")" +:+ (" " +:+ f)).
  rewrite (proj1 (dateStr_shape at_ date (" " +:+ f) Hd Hy)).
  destruct f as [|c f]; [done|]. cbn [plain] in Hp. js_bool.
  change (Str.trimStart (" " +:+ String c f)) with (Str.trimStart (String c f)). cbn [Str.trimStart dropMark].
  replace (isMark c) with false by done. replace (Str.js_space c) with false by done.
  destruct (afterDate (String c f)) as [r|] eqn:E; [|done]. exfalso.
  match goal with Hn : ~ is_Some _ |- _ => apply Hn; by eexists end.
Qed.

(** The notebook after a capture, and how many facts it added ([capture] of the service). *)
Definition afterCapture (existing : string) (facts : list string) (at_ : Z) (trusted : bool) : outcome (string * nat) :=
  let! r := foldCapture existing facts at_ trusted in
  Ok (if (0 <? r.2)%nat then r.1 +:+ String nl "" else existing, r.2).

(** A notebook as [replace] writes it. *)
Definition tidy (body : string) : Prop := body = "" \/ body = Str.trimEnd body +:+ String nl "".

Lemma normalizeReplace_tidy content : tidy (normalizeReplace content).
Proof.
  unfold normalizeReplace, tidy. destruct (Str.truthy (Str.trimEnd content)) eqn:E; [right|by left].
  f_equal. symmetry. rewrite trimEnd_nl. apply Str.trimEnd_idem.
Qed.

Lemma tidy_bullets body : tidy body -> bulletLines body = bulletLines (Str.trimEnd body).
Proof.
  intros [->|E]; [done|]. rewrite E at 1. unfold bulletLines, lines.
  rewrite Str.split_append, List.filter_app. cbn. by rewrite app_nil_r.
Qed.

Lemma fresh_none date seen clean :
  (forall f, f ∈ clean -> normalize f = "" \/ normalize f ∈ seen) -> fresh date seen clean = [].
Proof.
  intros H. destruct (fresh_spec date seen clean) as (fs & -> & Hsub & _ & Hnew & _). destruct fs as [|f fs]; [done|].
  exfalso. destruct (Hnew f) as [Hne Hni]; [left|].
  destruct (H f) as [?|?]; [|done..]. eapply elem_of_submseteq; [|by apply sublist_submseteq]. left.
Qed.

Lemma afterCapture_none existing facts at_ date trusted : IsoDate.dateStr at_ = Ok date ->
  (forall f, f ∈ cleaned trusted facts -> normalize f = "" \/ normalize f ∈ seenKeys existing) ->
  afterCapture existing facts at_ trusted = Ok (existing, 0%nat).
Proof.
  intros Hd H. unfold afterCapture, foldCapture. fold (cleaned trusted facts). apply (fresh_none date) in H.
  destruct (cleaned trusted facts); [done|]. rewrite Hd. cbn [obind]. by rewrite H.
Qed.

Lemma cleaned_length trusted facts : (length (cleaned trusted facts) <= length facts)%nat.
Proof. unfold cleaned. etransitivity; [apply List.filter_length_le|]. by rewrite length_map. Qed.

Lemma seenKeys_nl body : seenKeys (body +:+ String nl "") = seenKeys body.
Proof. unfold seenKeys, lines. by rewrite Str.split_append, List.filter_app, app_nil_r. Qed.

(** Capturing is idempotent.  In a tidy notebook with room for the facts, a second
    capture of the same facts, at any later time, adds nothing and leaves the notebook as
    the first one left it, for facts that start neither like a bullet nor with a date. *)
Theorem capture_idempotent existing facts at_ at2 date2 trusted body n :
  tidy existing -> fourDigitYear at_ = true -> IsoDate.dateStr at2 = Ok date2 ->
  forallb plain (cleaned trusted facts) = true ->
  (length (bulletLines existing) + length facts <= MAX_FACTS)%nat ->
  afterCapture existing facts at_ trusted = Ok (body, n) ->
  afterCapture body facts at2 trusted = Ok (body, 0%nat).
Proof.
  intros Ht Hy Hd2 Hpl Hroom Hc. unfold afterCapture in Hc.
  destruct (foldCapture existing facts at_ trusted) as [[b k]|] eqn:E; [|done]. cbn [obind fst snd] in Hc.
  apply foldCapture_cases in E as [(Hcl & -> & ->)|(date & Hd & -> & ->)].
  - injection Hc as <- <-. eapply afterCapture_none; [done|]. rewrite Hcl. set_solver.
  - destruct (fresh_spec date (seenKeys existing) (cleaned trusted facts)) as (fs & Hf & Hsub & Hnd & Hnew & Hall).
    rewrite Hf in Hc. destruct (decide (fs = [])) as [->|Hne].
    + injection Hc as <- <-. eapply afterCapture_none; [done|]. intros f Hin. specialize (Hall f Hin). set_solver.
    + rewrite length_map in Hc. destruct (Nat.ltb_spec 0 (length fs)); [|by destruct fs; cbn in *; [|lia]].
      injection Hc as <- _. eapply afterCapture_none; [done|]. intros f Hin.
      assert (seenKeys (match map (bullet date) fs with [] => existing | added => capFacts (appendFacts existing added) end
                +:+ String nl "") = seenKeys existing ++ map normalize fs) as ->.
      { rewrite seenKeys_nl. unfold seenKeys. fold (bulletLines existing). rewrite (tidy_bullets _ Ht).
        pose proof (added_bullets existing trusted facts date fs at_ Hd Hy Hsub Hne) as Hb. unfold bulletLines in Hb at 1.
        rewrite Hb, <- (tidy_bullets _ Ht).
        pose proof (sublist_length _ _ Hsub). pose proof (cleaned_length trusted facts).
        unfold Arr.slice_last. rewrite length_app, length_map.
        replace (_ - _)%nat with 0%nat by (unfold MAX_FACTS in *; lia). rewrite drop_0, map_app, map_map. f_equal.
        apply map_ext_in. intros g Hg. apply (normalize_bullet at_); [done|done|].
        apply Arr.forallb_elem with (x := g) in Hpl; [done|]. apply list_elem_of_In in Hg.
        eapply elem_of_submseteq; [done|by apply sublist_submseteq]. }
      specialize (Hall f Hin). rewrite elem_of_app. tauto.
Qed.

(** ** Provenance *)

Fixpoint lastChar (s : string) : option ascii :=
  match s with
  | EmptyString => None
  | String c r => match lastChar r with Some d => Some d | None => Some c end
  end.

Lemma lastChar_append a b : lastChar (a +:+ b) = match lastChar b with Some c => Some c | None => lastChar a end.
Proof. induction a as [|c a IH]; cbn; [by destruct (lastChar b)|]. rewrite IH. by destruct (lastChar b). Qed.

Lemma lastChar_trimStart s : lastChar s = Some "]"%char -> lastChar (Str.trimStart s) = Some "]"%char.
Proof.
  induction s as [|c s IH]; [done|]. cbn [Str.trimStart]. destruct (Str.js_space c) eqn:E; [|done].
  cbn. destruct (lastChar s) as [d|]; [done|]. intros [= ->]. by vm_compute in E.
Qed.

Lemma lastChar_drop n s : Str.drop n s <> "" -> lastChar (Str.drop n s) = lastChar s.
Proof.
  revert s. induction n as [|n IH]; intros [|c s]; cbn; try done. intros H. rewrite (IH s H).
  destruct (lastChar s) eqn:E; [done|]. exfalso. apply H. destruct s as [|d s]; [by destruct n|].
  cbn in E. by destruct (lastChar s).
Qed.

Lemma untilParen_head s a c r : untilParen s = (a, String c r) -> c = ")"%char.
Proof.
  revert a. induction s as [|d s IH]; cbn; [done|]. intros a. case_bool_decide.
  - by intros [= _ <- _].
  - destruct (untilParen s) as [a' b'] eqn:E. intros [= _ ->]. by eapply IH.
Qed.

Lemma saidHere_last s : lastChar s = Some "]"%char -> saidHere s = None.
Proof.
  intros H%lastChar_trimStart. unfold saidHere. case_bool_decide; [done|]. case_match; [|done].
  destruct (untilParen (Str.drop 9 (Str.trimStart s))) as [source [|c after]] eqn:E; [done|].
  pose proof (untilParen_head _ _ _ _ E) as ->. apply untilParen_append in E.
  assert (Str.drop 9 (Str.trimStart s) <> "") as Hne by (rewrite E; by destruct source).
  apply lastChar_drop in Hne. rewrite E, H, lastChar_append in Hne. cbn in Hne.
  destruct (lastChar after) as [d|] eqn:Ea; [|done]. injection Hne as ->.
  apply lastChar_trimStart in Ea. destruct (Str.trimStart after) eqn:Et; [done|]. by rewrite andb_false_r.
Qed.

Lemma demoteSource_last s : demoteSource s = s \/ lastChar (demoteSource s) = Some "]"%char.
Proof.
  induction s as [|c s IH]; [by left|]. cbn [demoteSource].
  destruct (saidHere (String c s)) as [source|]; [right; by rewrite !lastChar_append|].
  destruct IH as [-> |IH]; [by left|right]. cbn. by rewrite IH.
Qed.

Lemma demoteSource_clean s i : saidHere (Str.drop i (demoteSource s)) = None.
Proof.
  revert i. induction s as [|c s IH]; intros i; [by destruct i|]. cbn [demoteSource].
  destruct (saidHere (String c s)) as [source|] eqn:E.
  - set (x := " [claimed source: " +:+ source +:+ "]"). assert (lastChar x = Some "]"%char) as Hx
      by (unfold x; by rewrite !lastChar_append).
    destruct (decide (Str.drop i x = "")) as [-> |Hne]; [done|]. apply saidHere_last. by rewrite lastChar_drop.
  - destruct i as [|i]; cbn [Str.drop]; [|apply IH].
    destruct (demoteSource_last s) as [-> |Hl]; [done|]. apply saidHere_last. cbn. by rewrite Hl.
Qed.

Lemma eat_demoteSource cs s : Forall (fun p : ascii -> bool => p " "%char = false) cs ->
  eat cs s = None -> eat cs (demoteSource s) = None.
Proof.
  intros Hcs. revert s. induction Hcs as [|p cs Hp _ IH]; [by intros [|? ?]|]. intros [|c s]; [done|].
  cbn [demoteSource]. destruct (saidHere (String c s)) as [source|].
  - intros _. cbn. by rewrite Hp.
  - cbn [eat]. destruct (p c); [apply IH|done].
Qed.

(** A fact that is captured without trusted provenance cannot forge it: as cleaned,
    its text does not start with a date in parentheses, which only the service writes,
    and no part of it reads as a source at its end. *)
Theorem provenance_not_forged f :
  captureDate (cleanFact false f) = None /\ forall i, saidHere (Str.drop i (cleanFact false f)) = None.
Proof.
  unfold cleanFact. set (t := dropMarkSpace _). split; [|intros i; apply demoteSource_clean].
  unfold captureDate. assert (afterDate (demoteSource (demoteDate t)) = None) as ->; [|done].
  apply eat_demoteSource; [by repeat constructor|]. unfold demoteDate.
  destruct (afterDate t) eqn:E; [done|exact E].
Qed.
End Facts.

(** ** The service over a workspace *)

(** What the service asks of the store of workspace files. *)
Class Workspace (W : Type) := {
  ws_read : ScopeId -> string -> W -> option string;
  ws_write : ScopeId -> string -> string -> W -> W;
  ws_remove : ScopeId -> string -> W -> W;
}.

Class WorkspaceLaws (W : Type) `{Workspace W} := {
  ws_read_write s p d w s' p' :
    ws_read s' p' (ws_write s p d w) = if decide (s = s' /\ p = p') then Some d else ws_read s' p' w;
  ws_read_remove s p w s' p' :
    ws_read s' p' (ws_remove s p w) = if decide (s = s' /\ p = p') then None else ws_read s' p' w;
}.

(** Files in memory. *)
#[global] Instance files_workspace : Workspace (jmap (string * string) string) := {
  ws_read s p w := JMap.get w (s, p);
  ws_write s p d w := JMap.set w (s, p) d;
  ws_remove s p w := JMap.delete w (s, p);
}.

#[global] Instance files_workspace_laws : WorkspaceLaws (jmap (string * string) string).
Proof.
  split; intros; cbn; [rewrite JMap.get_set|rewrite JMap.get_delete]; repeat case_decide; naive_solver.
Qed.

Module Service.
Import Notebook Capture.
Definition MEMORY_FILE : string := "memory/MEMORY.md".

Section service.
Context {W : Type} `{Workspace W}.
(** [createHash("sha256")] of the content, in hexadecimal. *)
Variable revisionToken : string -> string.

Definition read (scope : ScopeId) (w : W) : string := default "" (ws_read scope MEMORY_FILE w).

Definition recall (scope : ScopeId) (w : W) : string := recallBody (read scope w).

Definition capture (scope : ScopeId) (facts : list string) (at_ : Z) (author : option string) (w : W) : outcome (nat * W) :=
  let trusted := match author with Some a => Str.startsWith a "cc:" | None => false end in
  let! r := foldCapture (read scope w) facts at_ trusted in
  if (r.2 =? 0)%nat then Ok (0%nat, w)
  else Ok (r.2, ws_write scope MEMORY_FILE (r.1 +:+ String nl "") w).

Definition query (scope : ScopeId) (q : string) (limit : nat) (w : W) : list string := queryBullets (read scope w) q limit.

Definition replace (scope : ScopeId) (content : string) (w : W) : W :=
  let next := normalizeReplace content in
  if Str.truthy next then ws_write scope MEMORY_FILE next w else ws_remove scope MEMORY_FILE w.

Definition readHead (scope : ScopeId) (w : W) : string * string :=
  let content := read scope w in (content, revisionToken content).

Definition replaceIfRevision (scope : ScopeId) (content revision : string) (w : W) : bool * W :=
  if revisionToken (read scope w) !== revision then (false, w) else (true, replace scope content w).

Definition isSystemActor (actorId : option string) : bool :=
  match actorId with Some a => Str.startsWith a "system:" | None => false end.

Definition ccTargetFor (origin : ScopeId) (actorId : option string) : option ScopeId :=
  match actorId with
  | None => None
  | Some a =>
      if negb (Str.truthy a) || isSystemActor actorId then None
      else
        let '(kind, _) := parseScopeId origin in
        if (kind !== Some ScopeKind.channel) && (kind !== Some ScopeKind.group) then None
        else
          let target := scopeId ScopeKind.personal a in
          if target === origin then None else Some target
  end.

(** [.replace(/[()\r\n]+/g, " ")]; the runs of blanks this leaves are collapsed next. *)
Fixpoint noParens (s : string) : string :=
  match s with
  | EmptyString => EmptyString
  | String c r =>
      String (if (c === "("%char) || (c === ")"%char) || (c === nl) || (c === ascii_of_nat 13) then " "%char else c) (noParens r)
  end.

Definition sourceOf (origin : ScopeId) (sourceLabel : option string) : string :=
  let clean := match sourceLabel with
               | Some l => Str.take 60 (Str.trim (Str.collapse false (noParens l)))
               | None => ""
               end in
  if Str.truthy clean then clean
  else if fst (parseScopeId origin) === Some ScopeKind.channel then "a channel" else "a group conversation".

Definition ccCaptureToPersonal (origin : ScopeId) (actorId : option string) (facts : list string) (at_ : Z)
    (sourceLabel : option string) (w : W) : outcome (nat * W) :=
  match ccTargetFor origin actorId, facts with
  | None, _ | _, [] => Ok (0%nat, w)
  | Some target, _ =>
      let tagged := map (fun f => f +:+ " (said in " +:+ sourceOf origin sourceLabel +:+ ")") facts in
      capture target tagged at_ (Some ("cc:" +:+ origin)) w
  end.

Context {HL : WorkspaceLaws W}.

Lemma replace_read scope content w scope' :
  read scope' (replace scope content w) = if decide (scope = scope') then normalizeReplace content else read scope' w.
Proof.
  unfold read, replace. cbn zeta. destruct (Str.truthy (normalizeReplace content)) eqn:E.
  - rewrite ws_read_write. repeat case_decide; naive_solver.
  - apply Str.truthy_false_iff in E. rewrite ws_read_remove, E. repeat case_decide; naive_solver.
Qed.

(** Replacing by revision is a compare-and-swap, for calls that do not overlap (between
    the reading and the writing of a file there is an await).  When different contents have
    different revisions, a replacement made with the revision of some content succeeds
    exactly while the notebook has that content; then it reads as the new content, without
    trailing blanks, and otherwise nothing changes; other scopes are never touched.  In
    particular of two edits made from one reading only the first succeeds, unless it
    changed nothing. *)
Theorem replace_if_revision_cas scope content expected w :
  (forall a b, revisionToken a = revisionToken b -> a = b) ->
  let '(ok, w') := replaceIfRevision scope content (revisionToken expected) w in
  ok = (read scope w === expected)
  /\ read scope w' = (if ok then normalizeReplace content else read scope w)
  /\ (forall other, other <> scope -> read other w' = read other w)
  /\ (ok = false -> w' = w)
  /\ (forall content2, ok = true ->
       fst (replaceIfRevision scope content2 (snd (readHead scope w)) w') = (normalizeReplace content === expected)).
Proof.
  intros Hinj. unfold replaceIfRevision at 1. case_bool_decide as E; cbn [negb].
  - apply Hinj in E. subst expected. split_and!; [by rewrite bool_decide_eq_true_2|..].
    + by rewrite replace_read, decide_True.
    + intros other Hne. by rewrite replace_read, decide_False.
    + done.
    + intros content2 _. unfold replaceIfRevision, readHead. cbn. rewrite replace_read, decide_True by done.
      case_bool_decide as E2; cbn; symmetry; [by apply bool_decide_eq_true_2, Hinj|].
      apply bool_decide_eq_false_2. congruence.
  - split_and!; try done. symmetry. apply bool_decide_eq_false_2. congruence.
Qed.

(** What a person says in a channel or group is noted for that person only: nothing else is
    written, for nobody else and by no system actor. *)
Lemma cc_capture_private origin actorId facts at_ label w n w' :
  ccCaptureToPersonal origin actorId facts at_ label w = Ok (n, w') ->
  w' = w \/ exists a, actorId = Some a /\ Str.truthy a = true /\ isSystemActor actorId = false
    /\ (fst (parseScopeId origin) = Some ScopeKind.channel \/ fst (parseScopeId origin) = Some ScopeKind.group)
    /\ forall scope path, (scope, path) <> (scopeId ScopeKind.personal a, MEMORY_FILE) ->
         ws_read scope path w' = ws_read scope path w.
Proof.
  unfold ccCaptureToPersonal. destruct (ccTargetFor origin actorId) as [target|] eqn:Et; [|intros [= _ <-]; by left].
  destruct facts as [|f facts]; [intros [= _ <-]; by left|]. unfold capture. set (fc := foldCapture _ _ _ _).
  destruct fc as [[body k]|]; cbn [obind fst snd]; [|done]. case_match; intros [= _ <-]; [by left|right].
  unfold ccTargetFor in Et. destruct actorId as [a|]; [|done]. exists a.
  destruct (negb (Str.truthy a) || isSystemActor (Some a)) eqn:Ea; [done|]. js_bool.
  destruct (parseScopeId origin) as [kd ref]. destruct ((kd !== Some ScopeKind.channel) && (kd !== Some ScopeKind.group)) eqn:Ek; [done|].
  case_bool_decide; [done|]. injection Et as <-. split_and!; try done.
  - apply andb_false_iff in Ek as [Ek|Ek]; js_bool; [by left|by right].
  - intros scope path Hne. rewrite ws_read_write.
    destruct (decide _) as [[<- <-]|]; [by destruct Hne|reflexivity].
Qed.
End service.
End Service.

(** ** Which scopes a turn remembers from and to *)
Module Policy.
Inductive MemoryRecallMode := recall_off | recall_writable | recall_visible.
Inductive MemoryCaptureMode := capture_off | capture_writable.
Record MemoryPolicy := mkPolicy { recall : MemoryRecallMode; capture : MemoryCaptureMode }.

Definition DEFAULT_MEMORY_POLICY : MemoryPolicy := mkPolicy recall_visible capture_writable.

Definition parseMemoryRecallMode (value : option string) : MemoryRecallMode :=
  if value === Some "off" then recall_off
  else if value === Some "writable" then recall_writable
  else if value === Some "visible" then recall_visible
  else recall DEFAULT_MEMORY_POLICY.

Definition parseMemoryCaptureMode (value : option string) : MemoryCaptureMode :=
  if value === Some "off" then capture_off else capture DEFAULT_MEMORY_POLICY.

Record WorkspaceLayer := mkLayer { layerScope : ScopeId; mountPath : string; readWrite : bool }.

Definition writableMemoryScope (layers : list WorkspaceLayer) (fallback : ScopeId) : ScopeId :=
  match List.find readWrite layers with Some l => layerScope l | None => fallback end.

Definition recallMemoryScopes (policy : MemoryPolicy) (layers : list WorkspaceLayer) (writable : ScopeId) : list ScopeId :=
  match recall policy with
  | recall_off => []
  | recall_writable => [writable]
  | recall_visible => Arr.dedup (writable :: map layerScope layers)
  end.

(** A turn recalls only what it can see, once each, and what it writes to first. *)
Lemma recall_scopes_visible policy layers fallback :
  let writable := writableMemoryScope layers fallback in
  let scopes := recallMemoryScopes policy layers writable in
  NoDup scopes
  /\ (forall s, s ∈ scopes -> s = fallback \/ s ∈ map layerScope layers)
  /\ (recall policy <> recall_off -> writable ∈ scopes).
Proof.
  cbn zeta. assert (writableMemoryScope layers fallback = fallback
    \/ writableMemoryScope layers fallback ∈ map layerScope layers) as Hw.
  { unfold writableMemoryScope. destruct (List.find readWrite layers) as [l|] eqn:E; [right|by left].
    apply Arr.find_elem in E as [E _]. apply list_elem_of_fmap. eauto. }
  unfold recallMemoryScopes. destruct (recall policy).
  - split_and!; [constructor|set_solver|done].
  - split_and!; [by apply NoDup_singleton|set_solver|set_solver].
  - split_and!; [apply Arr.NoDup_dedup| |intros _; apply Arr.elem_of_dedup; left].
    intros s Hs. rewrite Arr.elem_of_dedup in Hs. apply elem_of_cons in Hs as [-> |Hs]; [done|by right].
Qed.
End Policy.

(** ** Witnesses *)
Module Witnesses.
Import Notebook Capture Facts.
Definition demo_facts : list string := ["The build runs on  Tuesdays"; "the build runs on tuesdays"].

Lemma capture_exact_witness : exists body date fs,
  foldCapture "" demo_facts 951782400000 false = Ok (body, 1%nat) /\ 1%nat = length fs
  /\ (1%nat <> 0%nat -> bulletLines body
       = Arr.slice_last MAX_FACTS (bulletLines (Str.trimEnd "") ++ map (bullet date) fs)).
Proof.
  eexists. destruct (capture_exact "" demo_facts 951782400000 false _ 1%nat eq_refl eq_refl)
    as (date & fs & _ & Hl & _ & _ & _ & _ & _ & Hb & _).
  exists date, fs. split; [reflexivity|]. split; [exact Hl|exact Hb].
Defined.

Lemma capture_idempotent_witness : exists body,
  afterCapture "" demo_facts 951782400000 false = Ok (body, 1%nat)
  /\ afterCapture body demo_facts 1735689599999 false = Ok (body, 0%nat).
Proof.
  eexists. split; [reflexivity|].
  refine (capture_idempotent "" demo_facts 951782400000 1735689599999 "2024-12-31" false _ 1%nat _ _ _ _ _ _);
    [by left|reflexivity..|vm_compute; lia|reflexivity].
Defined.

Lemma replace_if_revision_cas_witness :
  let w : jmap (string * string) string := [(("personal:a", Service.MEMORY_FILE), "old")] in
  Service.read "personal:a" (snd (Service.replaceIfRevision (fun s => s) "personal:a" "new" "old" w))
  = normalizeReplace "new".
Proof.
  intros w. pose proof (Service.replace_if_revision_cas (fun s => s) "personal:a" "new" "old" w (fun a b E => E)) as H.
  destruct (Service.replaceIfRevision _ _ _ _ w) as [ok w'] eqn:E. destruct H as (H1 & H2 & _).
  vm_compute in H1. subst ok. exact H2.
Defined.
End Witnesses.
