(* ===== verification/RunTrigger.v ===== *)
(** * Running a trigger

    [src/triggers/run-trigger.ts], the one handler behind crons, monitors, keychain
    asks and secret drops: who acts, whether the turn may run, whether its reply may
    be delivered, and the note and error notice it leaves.  The turn itself (the
    orchestrator) is a function from the request to a result or an error; what the
    turn does on its own is its own.  [idempotency.once] runs its body under a key
    that is kept only when the body returns ([Idempotency] proves this of the
    interleaved store); the directory, when there is one, answers as the interface
    says, and only its [get] may fail.  [TurnOptions] is [turnModelOptions] of
    [src/core/turn-options.ts]. *)

From Stdlib Require Import ZArith Lia Ascii.
From S2P Require Import Prelude Collections Scopes Turns Runs DurableMap Delivery Directory Identity Reach Schedule Cron.
Open Scope Z_scope.

#[global] Instance RunAs_eq_dec : EqDecision RunAs.
Proof. solve_decision. Defined.

(** ** Model options of a turn *)
Module TurnOptions.
Record t := mk { thinkingLevel : option string; fastMode : option bool }.

Definition NON_INTERACTIVE_THINKING_LEVEL : string := "xhigh".
Definition NON_INTERACTIVE_FAST_MODE : bool := false.

Definition resolveTurnFastMode (requested : option bool) (humanTurn interactiveDefault : bool) : option bool :=
  match requested with
  | Some b => Some b
  | None => if humanTurn && interactiveDefault then Some true else None
  end.

Definition turnModelOptions (triggered : bool) (thinkingLevel : option string) (fastMode : option bool) : t :=
  let thinkingLevel := match keepTruthy thinkingLevel with
                       | Some l => Some l
                       | None => if triggered then Some NON_INTERACTIVE_THINKING_LEVEL else thinkingLevel
                       end in
  let fastMode := match fastMode with
                  | Some b => Some b
                  | None => if triggered then Some NON_INTERACTIVE_FAST_MODE else None
                  end in
  mk (keepTruthy thinkingLevel) fastMode.
End TurnOptions.

(** ** Replies of polls *)
Definition NO_UPDATE_SENTINEL : string := "[no-update]".
Definition SILENT_POLL_MARKERS : list string := [NO_UPDATE_SENTINEL; "no_reply"; "[silent]"].
Definition POLL_SURFACES : list string := ["cron"; "monitor"].
Definition isPollSurface (surface : string) : bool := bool_decide (surface ∈ POLL_SURFACES).

(** The lines of [split(/\r?\n/)], up to a carriage return at their end, which
    [trim] drops. *)
Definition lines (s : string) : list string := Str.split "010"%char s.

Definition isSilentPollReply (reply : string) : bool :=
  match List.find (fun line => Str.trim line !== "") (reverse (lines (Str.trimEnd reply))) with
  | None => true
  | Some line => bool_decide (Str.toLowerCase (Str.trim line) ∈ SILENT_POLL_MARKERS)
  end.

(** ** The trigger *)
Module TriggerSpec.
Record t := mk {
  owner : string; ownerScopeId : ScopeId; input : string; securityScreenData : option string; fireKey : string;
  surface : string; destination : option Destination.t; message : option string; threadRef : option string;
  runAs : option RunAs; members : option (list Principal.t); recipientConsent : option RecipientConsent.t;
  recipientConsentRequired : option bool; shadow : option bool; thinkingLevel : option string;
  readOnly : option bool; turnWallClockMs : option Z; errorNotice : option (string -> string);
}.
End TriggerSpec.

(** The directory of a deployment that has one. *)
Record TriggerDirectory := mkTriggerDirectory {
  td_visibility : VisibilityDirectory;
  td_displayName : string -> outcome (option string);
  td_channelPrivacy : option (string -> option bool);
}.

(** What a trigger asks for: the fields of a [TurnRequest] it sets. *)
Module TriggerRequest.
Record t := mk {
  surface : string; actor : string; kind : ConversationKind; channelRef : option string; threadRef : string;
  audience : option (list ActorAssertion); text : string; securityScreenData : option string; triggered : bool;
  options : TurnOptions.t; readOnly : option bool; turnWallClockMs : option Z;
  triggerDestination : option Destination.t; surfaceTools : option bool; addressed : option bool;
  ownerKeychainUnion : option bool; idempotencyKey : string;
}.
End TriggerRequest.

(** A result with the places of its entries on the tape. *)
Module TriggerResult.
Record t := mk {
  result : TurnResult.t; sourceUserSeq : option Z; sourceAssistantEntrySeq : option Z;
}.
End TriggerResult.

Definition statusName (s : TurnStatus.t) : string :=
  match s with
  | TurnStatus.ok => "ok" | TurnStatus.refused => "refused" | TurnStatus.failed => "failed"
  | TurnStatus.pending_approval => "pending_approval" | TurnStatus.queued => "queued"
  | TurnStatus.silent => "silent" | TurnStatus.react => "react"
  end.

Definition isTriggerFailure (o : TriggerOutcome.t) : bool :=
  TriggerOutcome.ran o
  && match TriggerOutcome.status o with
     | Some s => (s !== TurnStatus.ok) && (s !== TurnStatus.silent)
     | None => false
     end.

Definition deliveryProvenance (spec : TriggerSpec.t) (threadRef : string) (res : option TriggerResult.t)
    : DeliveryProvenance.t :=
  DeliveryProvenance.mk (TriggerSpec.surface spec) (TriggerSpec.surface spec) (TriggerSpec.fireKey spec)
    (TriggerSpec.ownerScopeId spec) threadRef
    (keepTruthy (res ≫= fun r => TurnResult.sessionId (TriggerResult.result r)))
    (res ≫= TriggerResult.sourceUserSeq) (res ≫= TriggerResult.sourceAssistantEntrySeq).

Definition scopeFloorEmpty : string := "scopeFloor cron has no internal members left".
Definition ownerNotInternal : string := "owner is no longer an internal principal".
Definition sharedOwnerGone : string := "scopeShared owner is no longer a current scope member".
Definition notVisibleNote : string := "destination is no longer visible to the cron owner — delivery skipped".
Definition homeScopeNote : string :=
  "the acting person is no longer a member of this trigger's home scope — run skipped".
Definition approvalNote : string :=
  "hit a require_approval command — failed closed (no human at fire/event time)".

Definition consentNote (spec : TriggerSpec.t) : string :=
  if (RecipientConsent.status <$> TriggerSpec.recipientConsent spec) === Some consent_declined
  then "recipient turned this delivery off — skipped"
  else "awaiting the recipient's consent — delivery skipped".

(** What [once]'s body leaves in the variables around it. *)
Record Vars := mkVars {
  v_status : option TurnStatus.t; v_note : option string; v_reply : option string; v_sessionId : option string;
}.
Definition noVars : Vars := mkVars None None None None.

Section trigger.
Context {M : Type -> Type} `{DurableMapLaws M}.

Record World := mkWorld {
  outbox : Outbox.Store;
  doneKeys : list string;
  turns : list (TriggerRequest.t * bool);  (** every turn asked for, and whether it returned *)
  identities : Service (M := M);
}.

Definition withOutbox (w : World) (o : Outbox.Store) : World := mkWorld o (doneKeys w) (turns w) (identities w).

Variable directory : option TriggerDirectory.
Variable currentScopeMembers : ScopeId -> option (list Principal.t).
Variable run : TriggerRequest.t -> outcome TriggerResult.t.

Definition relayAttribution (spec : TriggerSpec.t) : option string :=
  match TriggerSpec.message spec, directory with
  | Some _, Some dir => get_or_null (td_displayName dir (TriggerSpec.owner spec))
  | _, _ => None
  end.

Definition actorMayReadScope (actorId : string) (kind : option ScopeKind.t) (ref : string) : bool :=
  if negb (Str.truthy ref) then false else
  match kind with
  | Some ScopeKind.personal => samePerson (Some actorId) (Some ref)
  | _ =>
    match directory with
    | None => (kind !== Some ScopeKind.group) && (kind !== Some ScopeKind.channel)
    | Some dir =>
      match kind with
      | Some ScopeKind.group => isVisible (td_visibility dir) actorId (target_group ref)
      | Some ScopeKind.channel =>
          match td_channelPrivacy dir ≫= (fun privacy => privacy ref) with
          | None => false
          | Some isPrivate => isVisible (td_visibility dir) actorId (target_channel ref (Some isPrivate))
          end
      | _ => true
      end
    end
  end.

Definition destinationVisible (actorId : string) (d : Destination.t) : bool :=
  match directory with
  | None => true
  | Some dir =>
      let id := hd "" (Str.split ":"%char (Destination.target d)) in
      if Destination.type d === "slack" then
        let audience := parseScopeId <$> keepTruthy (Destination.audienceScopeId d) in
        match audience with
        | Some (Some ScopeKind.personal, ref) => isVisible (td_visibility dir) actorId (target_dm ref)
        | Some (Some ScopeKind.group, _) => isVisible (td_visibility dir) actorId (target_group id)
        | _ => isVisible (td_visibility dir) actorId (target_channel id None)
        end
      else if Destination.type d === "group" then isVisible (td_visibility dir) actorId (target_group id)
      else true
  end.

Definition internalMember (s : Service (M := M)) (m : Principal.t) : bool :=
  (Principal.type m === internal) && (Principal.type (classify (Principal.id m) None s) === internal).

(** Who acts, or why nobody may. *)
Definition actorOf (spec : TriggerSpec.t) (s : Service (M := M)) : string + string :=
  let owner := TriggerSpec.owner spec in
  let current := currentScopeMembers (TriggerSpec.ownerScopeId spec) in
  let members := default (default [] (TriggerSpec.members spec)) current in
  match TriggerSpec.runAs spec with
  | Some as_scopeFloor =>
      match List.filter (internalMember s) members with
      | [] => inr scopeFloorEmpty
      | first :: rest =>
          inl (if existsb (fun m => samePerson (Some (Principal.id m)) (Some owner)) (first :: rest)
               then owner else Principal.id first)
      end
  | runAs =>
      if Principal.type (classify owner None s) !== internal then inr ownerNotInternal
      else match runAs, current with
           | Some as_scopeShared, Some cur =>
               if negb (existsb (fun m => samePerson (Some (Principal.id m)) (Some owner)) cur)
               then inr sharedOwnerGone else inl owner
           | _, _ => inl owner
           end
  end.

Definition audienceOf (spec : TriggerSpec.t) : option (list ActorAssertion) :=
  let members := default (default [] (TriggerSpec.members spec)) (currentScopeMembers (TriggerSpec.ownerScopeId spec)) in
  match TriggerSpec.runAs spec, members with
  | Some as_scopeFloor, _ :: _ | Some as_scopeShared, _ :: _ =>
      Some (map (fun m => mkActor (Principal.id m) None None (Principal.teamIds m) None) members)
  | _, _ => None
  end.

Definition threadOf (spec : TriggerSpec.t) : string := default (TriggerSpec.fireKey spec) (TriggerSpec.threadRef spec).

Definition consented (spec : TriggerSpec.t) : bool :=
  Trigger.recipientConsentSatisfied (TriggerSpec.recipientConsent spec)
    (Trigger.consentRequiredRecipient (TriggerSpec.owner spec)
       (is_true (TriggerSpec.recipientConsentRequired spec)) (TriggerSpec.destination spec)).

Definition deliverable (spec : TriggerSpec.t) (actorId : string) : bool :=
  match TriggerSpec.destination spec with Some d => destinationVisible actorId d | None => true end.

Definition liveDelivery (spec : TriggerSpec.t) (actorId : string) : bool :=
  (TriggerSpec.surface spec === "monitor") && isSome (TriggerSpec.destination spec)
  && consented spec && deliverable spec actorId.

Definition canReadHome (spec : TriggerSpec.t) (actorId : string) : bool :=
  let '(kind, ref) := parseScopeId (TriggerSpec.ownerScopeId spec) in
  match currentScopeMembers (TriggerSpec.ownerScopeId spec) with
  | None => negb (isSome directory) || actorMayReadScope actorId kind ref
  | Some cur => existsb (fun m => samePerson (Some (Principal.id m)) (Some actorId)) cur
  end.

Definition requestOf (spec : TriggerSpec.t) (actorId : string) : TriggerRequest.t :=
  let '(ownerKind, ownerRef) := parseScopeId (TriggerSpec.ownerScopeId spec) in
  let '(kind, channelRef, audience) :=
    match ownerKind with
    | Some ScopeKind.channel => (kind_channel, Some ownerRef, audienceOf spec)
    | Some ScopeKind.group => (kind_group, Some ownerRef, audienceOf spec)
    | _ => (kind_dm, None, None)
    end in
  let live := liveDelivery spec actorId in
  TriggerRequest.mk (TriggerSpec.surface spec) actorId kind channelRef (threadOf spec) audience
    (TriggerSpec.input spec) (TriggerSpec.securityScreenData spec) true
    (TurnOptions.turnModelOptions true (keepTruthy (TriggerSpec.thinkingLevel spec)) None)
    (keepTrue (is_true (TriggerSpec.readOnly spec))) (TriggerSpec.turnWallClockMs spec)
    (TriggerSpec.destination spec) (keepTrue live) (keepTrue live)
    (keepTrue (TriggerSpec.runAs spec === Some as_scopeShared)) (TriggerSpec.fireKey spec).

(** The end of both branches of the body: the consent, then the visibility, then the outbox. *)
Definition deliver (spec : TriggerSpec.t) (actorId : string) (d : Destination.t) (text : string)
    (attachments : option (list BlobAttachment.t)) (res : option TriggerResult.t) (attributeAs : option string)
    (uuid : string) (now : Z) (o : Outbox.Store) : option string * Outbox.Store :=
  if negb (consented spec) then (Some (consentNote spec), o)
  else if negb (deliverable spec actorId) then (Some notVisibleNote, o)
  else (None, (reachEnqueue (mkReachEnqueue d text attachments (TriggerSpec.fireKey spec)
                 (Some (deliveryProvenance spec (threadOf spec) res)) attributeAs
                 (keepTrue (is_true (TriggerSpec.shadow spec)))) uuid now o).2).

Definition hasContent (r : TurnResult.t) : bool :=
  isSome (keepTruthy (TurnResult.reply r)) || isSome (Outbox.keepNonEmpty (TurnResult.attachments r)).

Definition afterTurn (spec : TriggerSpec.t) (actorId uuid : string) (now : Z) (res : TriggerResult.t)
    (o : Outbox.Store) : Vars * Outbox.Store :=
  let r := TriggerResult.result res in
  let vars note := mkVars (Some (TurnResult.status r)) note (TurnResult.reply r) (TurnResult.sessionId r) in
  match TurnResult.status r with
  | TurnStatus.silent => (vars None, o)
  | TurnStatus.pending_approval => (vars (Some approvalNote), o)
  | TurnStatus.ok =>
      if hasContent r then
        match TriggerSpec.destination spec with
        | None => (vars None, o)
        | Some d =>
            if liveDelivery spec actorId then (vars None, o)
            else
              let '(note, o) := deliver spec actorId d (default "" (TurnResult.reply r))
                                  (Outbox.keepNonEmpty (TurnResult.attachments r)) (Some res) None uuid now o in
              (vars note, o)
        end
      else (vars (Some "produced no reply"), o)
  | s =>
      (vars (Some match keepTruthy (TurnResult.reason r) with
                  | Some why => statusName s +:+ ": " +:+ why
                  | None => statusName s
                  end), o)
  end.

(** The body handed to [once]. *)
Definition body (spec : TriggerSpec.t) (actorId uuid : string) (now : Z) (w : World) : outcome Vars * World :=
  match TriggerSpec.message spec with
  | Some text =>
      let vars note := mkVars (Some TurnStatus.ok) note None None in
      match TriggerSpec.destination spec with
      | None => (Ok (vars None), w)
      | Some d =>
          let '(note, o) := deliver spec actorId d text None None (keepTruthy (relayAttribution spec)) uuid now (outbox w) in
          (Ok (vars note), withOutbox w o)
      end
  | None =>
      if negb (canReadHome spec actorId) then (Ok (mkVars None (Some homeScopeNote) None None), w) else
      let req := requestOf spec actorId in
      match run req with
      | Throw e => (Throw e, mkWorld (outbox w) (doneKeys w) (turns w ++ [(req, false)]) (identities w))
      | Ok res =>
          let '(vars, o) := afterTurn spec actorId uuid now res (outbox w) in
          (Ok vars, mkWorld o (doneKeys w) (turns w ++ [(req, true)]) (identities w))
      end
  end.

(** [idempotency.once(key, fn)] *)
Definition once (key : string) (fn : World -> outcome Vars * World) (w : World) : outcome (bool * Vars) * World :=
  if bool_decide (key ∈ doneKeys w) then (Ok (false, noVars), w) else
  match fn w with
  | (Throw e, w) => (Throw e, w)
  | (Ok v, w) => (Ok (true, v), mkWorld (outbox w) (doneKeys w ++ [key]) (turns w) (identities w))
  end.

Definition errKey (spec : TriggerSpec.t) : string := TriggerSpec.fireKey spec +:+ ":err".

(** The notice of a failure, under a key of its own. *)
Definition notify (spec : TriggerSpec.t) (actorId uuid : string) (now : Z) (outcome : TriggerOutcome.t) (vars : Vars)
    (o : Outbox.Store) : Outbox.Store :=
  match TriggerSpec.errorNotice spec, TriggerSpec.destination spec with
  | Some errorNotice, Some d =>
      if consented spec && deliverable spec actorId && isTriggerFailure outcome then
        let said := match v_note vars, v_status vars with
                    | Some n, _ => n | None, Some s => statusName s | None, None => "" end in
        (Outbox.enqueue (Outbox.mkEnqueue d (errorNotice said) None
           (Some (deliveryProvenance spec (threadOf spec) None)) (errKey spec)
           (keepTrue (is_true (TriggerSpec.shadow spec)))) uuid now o).2
      else o
  | _, _ => o
  end.

Definition runTrigger (spec : TriggerSpec.t) (now : Z) (uuid uuid' : string) (w : World)
    : outcome TriggerOutcome.t * World :=
  let w := mkWorld (outbox w) (doneKeys w) (turns w) (refresh now (identities w)) in
  match actorOf spec (identities w) with
  | inr note => (Ok (TriggerOutcome.mk true false None (Some note) None None), w)
  | inl actorId =>
      match once (TriggerSpec.fireKey spec) (body spec actorId uuid now) w with
      | (Throw e, w) => (Throw e, w)
      | (Ok (ran, vars), w) =>
          let out := TriggerOutcome.mk false ran (v_status vars) (keepTruthy (v_note vars)) (v_reply vars)
                       (keepTruthy (v_sessionId vars)) in
          (Ok out, withOutbox w (notify spec actorId uuid' now out vars (outbox w)))
      end
  end.

(** ** Identity *)
Implicit Types (w : World) (s : Service (M := M)) (spec : TriggerSpec.t).






(** ** The outbox *)
(** A row of the second store is a row of the first or a new one that satisfies [P]. *)
Definition grows (P : Delivery.t -> Prop) (o o' : Outbox.Store) : Prop :=
  forall i v, JMap.get (Outbox.deliveries o') i = Some v -> JMap.get (Outbox.deliveries o) i = Some v \/ P v.

Lemma grows_refl P o : grows P o o.
Proof. intros i v Hv. by left. Qed.

Lemma grows_trans P o1 o2 o3 : grows P o1 o2 -> grows P o2 o3 -> grows P o1 o3.
Proof. intros H1 H2 i v Hv. destruct (H2 i v Hv) as [Hv2|]; [|by right]. by apply H1. Qed.

Lemma grows_weaken (P Q : Delivery.t -> Prop) o o' : (forall v, P v -> Q v) -> grows P o o' -> grows Q o o'.
Proof. intros HPQ Hg i v Hv. destruct (Hg i v Hv); [by left|right; by apply HPQ]. Qed.

Lemma enqueue_grows (P : Delivery.t -> Prop) input uuid now o :
  P (Outbox.newDelivery input uuid now) -> grows P o (Outbox.enqueue input uuid now o).2.
Proof.
  intros Hp i v. unfold Outbox.enqueue. destruct (Outbox.lookupKey _ _); [by left|].
  unfold Outbox.wakeListeners. destruct (Outbox.isShadow _); cbn; rewrite JMap.get_set; (case_decide || case_bool_decide);
    intros Hv; simplify_eq; by auto.
Qed.

(** What may be sent for a trigger on the authority of a person. *)
Record allowed (spec : TriggerSpec.t) (actorId : string) (v : Delivery.t) : Prop := mkAllowed {
  al_destination : TriggerSpec.destination spec = Some (Delivery.destination v);
  al_consented : consented spec = true;
  al_visible : destinationVisible actorId (Delivery.destination v) = true;
  al_key : Delivery.idempotencyKey v = TriggerSpec.fireKey spec
             /\ (TriggerSpec.message spec = None -> liveDelivery spec actorId = false)
           \/ Delivery.idempotencyKey v = errKey spec;
}.

Lemma reachInput_fields input :
  Outbox.destination (reachInput input) = e_destination input
  /\ Outbox.idempotencyKey (reachInput input) = e_idempotencyKey input.
Proof. unfold reachInput. by destruct (_ || _). Qed.

Lemma deliver_grows spec actorId d text att res as_ uuid now o :
  TriggerSpec.destination spec = Some d ->
  (TriggerSpec.message spec = None -> liveDelivery spec actorId = false) ->
  grows (allowed spec actorId) o (deliver spec actorId d text att res as_ uuid now o).2.
Proof.
  intros Hd Hl. unfold deliver.
  destruct (consented spec) eqn:Ec; cbn [negb]; [|apply grows_refl].
  destruct (deliverable spec actorId) eqn:Ed; cbn [negb]; [|apply grows_refl].
  unfold deliverable in Ed. rewrite Hd in Ed. cbn [snd]. apply enqueue_grows.
  destruct (reachInput_fields (mkReachEnqueue d text att (TriggerSpec.fireKey spec)
    (Some (deliveryProvenance spec (threadOf spec) res)) as_ (keepTrue (is_true (TriggerSpec.shadow spec)))))
    as [Hdest Hkey]. cbn in Hdest, Hkey.
  split; cbn; rewrite ?Hdest, ?Hkey; auto.
Qed.

Lemma afterTurn_grows spec actorId uuid now res o :
  grows (allowed spec actorId) o (afterTurn spec actorId uuid now res o).2.
Proof.
  unfold afterTurn. destruct (TurnResult.status _); try apply grows_refl.
  destruct (hasContent _); [|apply grows_refl].
  destruct (TriggerSpec.destination spec) as [d|] eqn:Hd; [|apply grows_refl].
  destruct (liveDelivery spec actorId) eqn:El; [apply grows_refl|].
  pose proof (deliver_grows spec actorId d (default "" (TurnResult.reply (TriggerResult.result res)))
    (Outbox.keepNonEmpty (TurnResult.attachments (TriggerResult.result res))) (Some res) None uuid now o Hd (fun _ => El)) as Hg.
  by destruct (deliver _ _ _ _ _ _ _ _ _ _).
Qed.

Lemma body_grows spec actorId uuid now w :
  grows (allowed spec actorId) (outbox w) (outbox (body spec actorId uuid now w).2).
Proof.
  unfold body. destruct (TriggerSpec.message spec) as [text|] eqn:Em.
  - destruct (TriggerSpec.destination spec) as [d|] eqn:Ed; [|apply grows_refl].
    pose proof (deliver_grows spec actorId d text None None (keepTruthy (relayAttribution spec)) uuid now (outbox w) Ed)
      as Hg. rewrite Em in Hg. destruct (deliver _ _ _ _ _ _ _ _ _ _). by apply Hg.
  - destruct (negb _); [apply grows_refl|]. destruct (run _) as [res|e]; [|apply grows_refl].
    pose proof (afterTurn_grows spec actorId uuid now res (outbox w)) as Hg.
    by destruct (afterTurn _ _ _ _ _ _).
Qed.

(** The turns a body asks for. *)
Lemma body_turns spec actorId uuid now w :
  let r := body spec actorId uuid now w in
  doneKeys r.2 = doneKeys w /\ identities r.2 = identities w /\
  (turns r.2 = turns w \/
   (TriggerSpec.message spec = None /\ canReadHome spec actorId = true /\
    turns r.2 = turns w ++ [(requestOf spec actorId, match r.1 with Ok _ => true | Throw _ => false end)])).
Proof.
  cbn zeta. unfold body. destruct (TriggerSpec.message spec) as [text|].
  - destruct (TriggerSpec.destination spec) as [d|]; [|by auto]. destruct (deliver _ _ _ _ _ _ _ _ _ _). by auto.
  - destruct (canReadHome spec actorId) eqn:Er; cbn [negb]; [|by auto].
    destruct (run _) as [res|e]; [destruct (afterTurn _ _ _ _ _ _)|]; (split_and!; [done|done|by right]).
Qed.

Lemma notify_grows spec actorId uuid now out vars o :
  grows (allowed spec actorId) o (notify spec actorId uuid now out vars o).
Proof.
  unfold notify. destruct (TriggerSpec.errorNotice spec) as [f|]; [|apply grows_refl].
  destruct (TriggerSpec.destination spec) as [d|] eqn:Ed; [|apply grows_refl].
  destruct (consented spec) eqn:Ec; cbn [andb]; [|apply grows_refl].
  unfold deliverable. rewrite Ed. destruct (destinationVisible actorId d) eqn:Ev; cbn [andb]; [|apply grows_refl].
  destruct (isTriggerFailure out); [|apply grows_refl].
  apply enqueue_grows. split; cbn; auto.
Qed.


(** What one call of the handler does, whichever way it ends. *)
Lemma runTrigger_effect spec now uuid uuid' w :
  let w' := (runTrigger spec now uuid uuid' w).2 in
  identities w' = refresh now (identities w) /\
  match actorOf spec (refresh now (identities w)) with
  | inr _ => outbox w' = outbox w /\ turns w' = turns w /\ doneKeys w' = doneKeys w
  | inl actorId =>
      grows (allowed spec actorId) (outbox w) (outbox w') /\
      ((turns w' = turns w /\ (doneKeys w' = doneKeys w \/ doneKeys w' = doneKeys w ++ [TriggerSpec.fireKey spec]))
       \/ exists ok, turns w' = turns w ++ [(requestOf spec actorId, ok)]
            /\ TriggerSpec.message spec = None /\ canReadHome spec actorId = true
            /\ (TriggerSpec.fireKey spec ∉ doneKeys w)
            /\ doneKeys w' = if ok : bool then doneKeys w ++ [TriggerSpec.fireKey spec] else doneKeys w)
  end.
Proof.
  cbn zeta. unfold runTrigger. cbn [outbox doneKeys turns identities].
  destruct (actorOf spec (refresh now (identities w))) as [actorId|note]; [|done].
  set (w0 := mkWorld _ _ _ _). unfold once. case_bool_decide as Hk; cbn [doneKeys] in Hk.
  { cbn. split; [done|]. split; [apply notify_grows|]. by auto. }
  pose proof (body_turns spec actorId uuid now w0) as (Hd & Hi & Ht).
  pose proof (body_grows spec actorId uuid now w0) as Hg.
  destruct (body spec actorId uuid now w0) as [[v|e] w1]; cbn in *.
  - split; [by rewrite Hi|]. split; [eapply grows_trans, notify_grows; exact Hg|].
    rewrite Hd. destruct Ht as [->|(Hm & Hr & ->)]; [by auto|right; by exists true].
  - split; [by rewrite Hi|]. split; [done|]. rewrite Hd.
    destruct Ht as [->|(Hm & Hr & ->)]; [by auto|right; by exists false].
Qed.

(** The turns that came back. *)
Definition returned w : nat := length (List.filter snd (turns w)).

Lemma runTrigger_returned spec now uuid uuid' w :
  let r := runTrigger spec now uuid uuid' w in
  (returned r.2 <= returned w + match r.1 with Ok _ => 1 | Throw _ => 0 end)%nat.
Proof.
  cbn zeta. unfold runTrigger, returned. cbn [outbox doneKeys turns identities].
  destruct (actorOf spec _) as [actorId|note]; [|cbn; lia].
  set (w0 := mkWorld _ _ _ _). unfold once. case_bool_decide; [cbn; lia|].
  pose proof (body_turns spec actorId uuid now w0) as (_ & _ & Ht).
  destruct (body spec actorId uuid now w0) as [[v|e] w1]; cbn in *;
    (destruct Ht as [->|(_ & _ & ->)]; [lia|]); rewrite List.filter_app, length_app; cbn; lia.
Qed.

(** A trigger puts nothing in the outbox but what it was set up to send, to the
    destination it names: no delivery while a consent that is recorded is not an
    accepted one, none to another person on a standing trigger unless that very
    person accepted, none to a place the acting person cannot see; under the fire
    key or its [:err] key; and no copy of a reply that a monitor's turn posts
    itself. *)
Theorem trigger_delivery_allowed (spec : TriggerSpec.t) (now : Z) (uuid uuid' i : string) (w : World) (v : Delivery.t) :
  JMap.get (Outbox.deliveries (outbox (runTrigger spec now uuid uuid' w).2)) i = Some v ->
  JMap.get (Outbox.deliveries (outbox w)) i <> Some v ->
  exists actorId,
    actorOf spec (refresh now (identities w)) = inl actorId
    /\ TriggerSpec.destination spec = Some (Delivery.destination v)
    /\ destinationVisible actorId (Delivery.destination v) = true
    /\ (forall c, TriggerSpec.recipientConsent spec = Some c -> RecipientConsent.status c = consent_accepted)
    /\ (TriggerSpec.recipientConsentRequired spec = Some true ->
        Destination.type (Delivery.destination v) = "principal" ->
        Destination.target (Delivery.destination v) <> "" ->
        samePerson (Some (Destination.target (Delivery.destination v))) (Some (TriggerSpec.owner spec)) = false ->
        exists c, TriggerSpec.recipientConsent spec = Some c
          /\ samePerson (Some (RecipientConsent.recipientId c)) (Some (Destination.target (Delivery.destination v))) = true)
    /\ (Delivery.idempotencyKey v = errKey spec
        \/ Delivery.idempotencyKey v = TriggerSpec.fireKey spec
            /\ (TriggerSpec.message spec = None -> liveDelivery spec actorId = false)).
Proof.
  intros Hv Hn. destruct (runTrigger_effect spec now uuid uuid' w) as [_ He].
  destruct (actorOf spec _) as [actorId|note]; [|destruct He as [He _]; by rewrite He in Hv].
  destruct He as [Hg _]. destruct (Hg i v Hv) as [|[Hd Hc Hvis Hk]]; [done|].
  exists actorId. split_and!; [done|done|done| | |tauto]; revert Hc; unfold consented, Trigger.recipientConsentSatisfied;
    rewrite Hd.
  - intros Hc c Ec. rewrite Ec in Hc. destruct (Trigger.consentRequiredRecipient _ _ _) as [r|]; [|by js_bool].
    destruct (Str.truthy r); [apply andb_true_iff in Hc as [Hc _]|]; by js_bool.
  - intros Hc Hr Ht Hne Hs. unfold Trigger.consentRequiredRecipient in Hc. rewrite Hr, Ht, Hs in Hc.
    assert (Str.truthy (Destination.target (Delivery.destination v)) = true) as Hy
      by (by apply negb_true_iff, bool_decide_eq_false_2).
    change (is_true (Some true)) with true in Hc. rewrite bool_decide_eq_true_2 in Hc by done.
    cbn -[Str.truthy] in Hc. rewrite Hy in Hc.
    destruct (TriggerSpec.recipientConsent spec) as [c|]; [|done]. exists c. split; [done|].
    by apply andb_true_iff in Hc as [_ Hc].
Qed.


End trigger.

(** ** Histories *)
Section histories.
Context {M : Type -> Type} `{DurableMapLaws M}.
Implicit Types w : World (M := M).

(** A call of the handler, in whatever environment it finds; and what others do
    meanwhile to the identities and the outbox. *)
Inductive fired (w : World (M := M)) : World (M := M) -> Prop :=
| Fired directory members run spec now uuid uuid' :
    fired w (runTrigger directory members run spec now uuid uuid' w).2
| Elsewhere o s : fired w (mkWorld o (doneKeys w) (turns w) s).

Definition completed (k : string) (t : TriggerRequest.t * bool) : bool :=
  (TriggerRequest.idempotencyKey t.1 === k) && t.2.

Definition completions (k : string) (l : list (TriggerRequest.t * bool)) : nat := length (List.filter (completed k) l).

Lemma completions_snoc k l t : completions k (l ++ [t]) = (completions k l + if completed k t then 1 else 0)%nat.
Proof.
  unfold completions. rewrite List.filter_app, length_app. cbn [List.filter]. by destruct (completed k t).
Qed.

Lemma requestOf_key directory members spec actorId :
  TriggerRequest.idempotencyKey (requestOf directory members spec actorId) = TriggerSpec.fireKey spec.
Proof. unfold requestOf. by destruct (parseScopeId _) as [[[]|] ref]. Qed.

(** The turns that came back under a key are on account of the key being kept. *)
Definition accounted w : Prop :=
  forall k, (completions k (turns w) <= if decide (k ∈ doneKeys w) then 1 else 0)%nat.

Lemma fired_accounted w w' : accounted w -> fired w w' -> accounted w'.
Proof.
  intros Ha [directory members run spec now uuid uuid'|o s] k; [|apply Ha]. specialize (Ha k).
  destruct (runTrigger_effect directory members run spec now uuid uuid' w) as [_ He].
  destruct (actorOf _ _ _) as [actorId|note]; [|by destruct He as (_ & -> & ->)].
  destruct He as [_ [[-> [->| ->]]|(ok & -> & _ & _ & Hk & ->)]]; [done| |].
  - destruct (decide (k ∈ doneKeys w ++ _)) as [|Hn]; destruct (decide (k ∈ doneKeys w)) as [Hin|]; try lia.
    destruct Hn. apply elem_of_app. by left.
  - rewrite completions_snoc. unfold completed at 1. cbn [fst snd]. rewrite requestOf_key.
    destruct ok; cbn [andb]; [|by rewrite andb_false_r, Nat.add_0_r].
    rewrite andb_true_r. case_bool_decide as E.
    + subst k. rewrite decide_False in Ha by done. rewrite decide_True by (apply elem_of_app; right; set_solver). lia.
    + rewrite Nat.add_0_r. destruct (decide (k ∈ doneKeys w)) as [Hin|]; [|destruct (decide _); lia].
      rewrite decide_True by (apply elem_of_app; by left). done.
Qed.

(** However triggers are fired, retried and raced with changes of the directory,
    the identities and the outbox, at most one turn ever comes back under a fire
    key, and one that came back has its key kept, so that the next firing of the key
    runs nothing. *)
Theorem trigger_turn_once (w0 w : World (M := M)) (k : string) :
  turns w0 = [] -> rtc fired w0 w ->
  (completions k (turns w) <= 1)%nat
  /\ (completions k (turns w) = 1%nat -> k ∈ doneKeys w)
  /\ forall directory members run spec now uuid uuid',
       k ∈ doneKeys w -> TriggerSpec.fireKey spec = k ->
       turns (runTrigger directory members run spec now uuid uuid' w).2 = turns w.
Proof.
  intros Hz Hr.
  assert (accounted w) as Ha.
  { assert (accounted w0) as Ha0 by (intros j; rewrite Hz; cbn; lia). clear Hz.
    induction Hr as [|w w1 w' Hs _ IH]; [done|]. by apply IH, (fired_accounted w). }
  specialize (Ha k). split_and!.
  - destruct (decide _); lia.
  - intros Hc. destruct (decide _); [done|lia].
  - intros directory members run spec now uuid uuid' Hk Hf.
    destruct (runTrigger_effect directory members run spec now uuid uuid' w) as [_ He].
    destruct (actorOf _ _ _) as [actorId|note]; [|by destruct He as (_ & -> & _)].
    destruct He as [_ [[-> _]|(ok & _ & _ & _ & Hn & _)]]; [done|]. by rewrite Hf in Hn.
Qed.
End histories.

(** ** Witnesses *)
Definition demoDestination : Destination.t := Destination.to "principal" "grace@x.io".

Definition demoSpec (consent : ConsentStatus) : TriggerSpec.t :=
  TriggerSpec.mk "ada@x.io" "personal:ada@x.io" "check the build" None "cron:c:1" "cron" (Some demoDestination)
    None None None None (Some (RecipientConsent.mk "Grace@x.io" consent None)) (Some true) None None None None None.

Definition demoRun (req : TriggerRequest.t) : outcome TriggerResult.t :=
  Ok (TriggerResult.mk (TurnResult.mk TurnStatus.ok (Some "s") (Some "green") None false None) None None).

Definition demoWorld : World (M := Memory.t) := mkWorld Outbox.empty [] [] (Identity.create dm_empty).

Definition demoTrigger (consent : ConsentStatus) (w : World (M := Memory.t)) :=
  runTrigger None (fun _ => None) demoRun (demoSpec consent) 10 "u" "v" w.

Definition demoDelivery : Delivery.t :=
  Delivery.mk "u" demoDestination "green" None
    (Some (DeliveryProvenance.mk "cron" "cron" "cron:c:1" "personal:ada@x.io" "cron:c:1" (Some "s") None None))
    "cron:c:1" 10 None None None None None.

(** While the consent is pending the turn runs and its reply stays. *)
Example pending_consent_holds :
  JMap.get (Outbox.deliveries (outbox (demoTrigger consent_pending demoWorld).2)) "u" = None
  /\ length (turns (demoTrigger consent_pending demoWorld).2) = 1%nat.
Proof. by vm_compute. Qed.

Lemma trigger_delivery_allowed_witness :
  exists actorId, actorOf (M := Memory.t) (fun _ => None) (demoSpec consent_accepted) (Identity.create dm_empty) = inl actorId
    /\ destinationVisible None actorId demoDestination = true.
Proof.
  destruct (trigger_delivery_allowed (M := Memory.t) None (fun _ => None) demoRun (demoSpec consent_accepted) 10 "u" "v" "u"
    demoWorld demoDelivery) as (a & Ha & _ & Hv & _); [by vm_compute|by vm_compute|].
  exists a. split; [exact Ha|exact Hv].
Defined.


Lemma trigger_turn_once_witness :
  turns (demoTrigger consent_accepted (demoTrigger consent_accepted demoWorld).2).2
  = turns (demoTrigger consent_accepted demoWorld).2.
Proof.
  refine (proj2 (proj2 (trigger_turn_once (M := Memory.t) demoWorld (demoTrigger consent_accepted demoWorld).2 "cron:c:1"
    eq_refl _)) None (fun _ => None) demoRun (demoSpec consent_accepted) 10 "u" "v" _ _).
  - apply rtc_once. apply Fired.
  - vm_compute. apply list_elem_of_here.
  - done.
Defined.
