(* ===== verification/Monitors.v ===== *)
(** * Monitors: watches on background jobs

    [Pattern] and [Broker] are [src/monitors/monitor-broker.ts] (the line patterns,
    watching and unwatching), [Monitor] and the store operations are
    [src/monitors/monitor-store.ts] over a durable map, [Poller] is
    [src/monitors/monitor-poller.ts]: reading what is new, cutting it at the last
    complete line, firing the trigger of [RunTrigger] and advancing the watch.
    What a sandbox answers (its processes' output, whether it can be provisioned)
    and the ids drawn by a firing are parameters. *)

From Stdlib Require Import ZArith Lia Ascii.
From S2P Require Import Prelude Collections Scopes Turns Runs DurableMap Delivery Directory Identity Schedule Cron.
From S2P Require Import RunTrigger Processes.
Open Scope Z_scope.

Definition nl : ascii := "010"%char.
Definition nlStr : string := String nl "".
Definition tick : string := String "096"%char "".

(** ** Line patterns *)
Module Pattern.

Definition MAX_PATTERN_CHARS : nat := 256.

(** The characters of [/[\\[\](){}`*+?]/]. *)
Definition special (c : ascii) : bool :=
  existsb (fun d => c === d)
    ["\"%char; "["%char; "]"%char; "("%char; ")"%char; "{"%char; "}"%char; "096"%char; "*"%char; "+"%char; "?"%char].

Fixpoint anyChar (p : ascii -> bool) (s : string) : bool :=
  match s with "" => false | String c s => p c || anyChar p s end.

Record Alternative := mkAlt { literal : string; starts : bool; ends : bool }.

Definition alternative (raw : string) : outcome Alternative :=
  if negb (Str.truthy raw) then Throw "pattern alternatives must not be empty" else
  let starts := Str.startsWith raw "^" in
  let ends := Str.endsWith raw "$" in
  let cut := if starts then Str.drop 1 raw else raw in
  let literal := if ends then Str.take (String.length cut - 1) cut else cut in
  if negb (Str.truthy literal) || Str.includesChar "^" literal || Str.includesChar "$" literal
  then Throw "^ and $ are supported only as alternative anchors"
  else Ok (mkAlt literal starts ends).

Fixpoint alternatives (raws : list string) : outcome (list Alternative) :=
  match raws with
  | [] => Ok []
  | raw :: rest => let! a := alternative raw in let! l := alternatives rest in Ok (a :: l)
  end.

Definition matchesAlt (line : string) (a : Alternative) : bool :=
  match starts a, ends a with
  | true, true => line === literal a
  | true, false => Str.startsWith line (literal a)
  | false, true => Str.endsWith line (literal a)
  | false, false => Str.includes line (literal a)
  end.

Definition compileMonitorPattern (pattern : string) : outcome (string -> bool) :=
  if negb (Str.truthy pattern) || (MAX_PATTERN_CHARS <? String.length pattern)%nat
  then Throw "pattern must be 1-256 characters"
  else if anyChar special pattern
  then Throw "pattern must use literal alternatives, with optional ^ and $ anchors"
  else let! l := alternatives (Str.split "|"%char pattern) in Ok (fun line => existsb (matchesAlt line) l).
End Pattern.

(** ** The record and the store *)
Module Monitor.
Record t := mk {
  id : string; ownerScopeId : ScopeId; owner : string; createdBy : string; enabled : bool; createdAt : Z;
  destination : option Destination.t; ownerConsentedAt : option Z; recipientConsent : option RecipientConsent.t;
  lastFiredAt : option Z; processId : string; command : string; threadRef : string; instructions : option string;
  pattern : option string; cursor : Z; tail : option string; expiresAt : Z; lastError : option string;
}.

(** The patches handed to [merge]. *)
Definition withEnabled (b : bool) (m : t) : t :=
  mk (id m) (ownerScopeId m) (owner m) (createdBy m) b (createdAt m) (destination m) (ownerConsentedAt m)
    (recipientConsent m) (lastFiredAt m) (processId m) (command m) (threadRef m) (instructions m) (pattern m)
    (cursor m) (tail m) (expiresAt m) (lastError m).
Definition withError (e : string) (m : t) : t :=
  mk (id m) (ownerScopeId m) (owner m) (createdBy m) (enabled m) (createdAt m) (destination m) (ownerConsentedAt m)
    (recipientConsent m) (lastFiredAt m) (processId m) (command m) (threadRef m) (instructions m) (pattern m)
    (cursor m) (tail m) (expiresAt m) (Some e).
Definition advanced (c : Z) (tl : option string) (firedAt : option Z) (m : t) : t :=
  mk (id m) (ownerScopeId m) (owner m) (createdBy m) (enabled m) (createdAt m) (destination m) (ownerConsentedAt m)
    (recipientConsent m) (match firedAt with Some _ => firedAt | None => lastFiredAt m end) (processId m) (command m)
    (threadRef m) (instructions m) (pattern m) c tl (expiresAt m) (lastError m).
Definition updated (instr pat : option string) (c : option Z) (m : t) : t :=
  mk (id m) (ownerScopeId m) (owner m) (createdBy m) (enabled m) (createdAt m) (destination m) (ownerConsentedAt m)
    (recipientConsent m) (lastFiredAt m) (processId m) (command m) (threadRef m)
    (match instr with Some _ => instr | None => instructions m end)
    (match pat with Some _ => pat | None => pattern m end)
    (default (cursor m) c) (match c with Some _ => None | None => tail m end) (expiresAt m) (lastError m).
End Monitor.

Record CreateMonitorInput := mkMonitorInput {
  mi_ownerScopeId : ScopeId; mi_owner : string; mi_createdBy : string; mi_destination : option Destination.t;
  mi_ownerConsentedAt : option Z; mi_recipientConsent : option RecipientConsent.t; mi_processId : string;
  mi_command : string; mi_threadRef : string; mi_instructions : option string; mi_pattern : option string;
  mi_cursor : option Z; mi_expiresAt : Z;
}.

Section store.
Context {M : Type -> Type} `{DurableMapLaws M}.

Definition keepNonZero (o : option Z) : option Z := match o with Some n => if n =? 0 then None else o | None => None end.

Definition create (input : CreateMonitorInput) (uuid : string) (now : Z) (m : M Monitor.t)
    : outcome (Monitor.t * M Monitor.t) :=
  let! _ := Trigger.assertNoEscalation (mi_owner input) (mi_createdBy input) (mi_ownerConsentedAt input) in
  let monitor := Monitor.mk uuid (mi_ownerScopeId input) (mi_owner input) (mi_createdBy input) true now
    (mi_destination input) (keepNonZero (mi_ownerConsentedAt input)) (mi_recipientConsent input) None
    (mi_processId input) (mi_command input) (mi_threadRef input) (mi_instructions input) (mi_pattern input)
    (default 0 (mi_cursor input)) None (mi_expiresAt input) None in
  Ok (monitor, dm_put uuid monitor m).

Definition merge (id : string) (f : Monitor.t -> Monitor.t) (m : M Monitor.t) : M Monitor.t := (dm_update id f m).2.

Definition enabledOf (m : M Monitor.t) : list Monitor.t := List.filter Monitor.enabled (dm_all m).
Definition setEnabled (id : string) (b : bool) (m : M Monitor.t) : M Monitor.t := merge id (Monitor.withEnabled b) m.
Definition advance (id : string) (c : Z) (tl : option string) (firedAt : option Z) (m : M Monitor.t) : M Monitor.t :=
  merge id (Monitor.advanced c tl firedAt) m.
Definition recordError (id e : string) (m : M Monitor.t) : M Monitor.t := merge id (Monitor.withError e) m.

Definition update (id : string) (instr pat : option string) (c : option Z) (m : M Monitor.t) : M Monitor.t :=
  match instr, pat, c with
  | None, None, None => m
  | _, _, _ => merge id (Monitor.updated instr pat c) m
  end.

(** ** Watching *)
Record BrokerDeps := mkBroker {
  b_scopeId : string; b_owner : string; b_ownerScopeId : ScopeId; b_threadRef : string;
  b_destination : option Destination.t; b_graceMs : Z;
}.
Definition EXPIRY_GRACE_MS : Z := 5 * 60000.

Record WatchResult := mkWatch { wr_monitorId : string; wr_processId : string; reattached : bool; wr_expiresAt : Z }.

Definition processStatusName (s : Registry.ProcessStatus) : string :=
  match s with Registry.running => "running" | Registry.exited => "exited" | Registry.reaped => "reaped" end.

Definition watch (deps : BrokerDeps) (processId : string) (instr pat : option string) (sinceCursor : option Z)
    (uuid : string) (now : Z) (registry : Registry.rows) (m : M Monitor.t) : outcome (WatchResult * M Monitor.t) :=
  match Registry.get registry processId with
  | None => Throw "no such background job to watch"
  | Some rec =>
      if (Registry.scopeId rec !== b_scopeId deps) || (Registry.kind rec !== "background")
      then Throw "no such background job to watch"
      else if Registry.status rec !== Registry.running
      then Throw ("background job already " +:+ processStatusName (Registry.status rec) +:+ " — nothing left to watch")
      else
        match Pattern.compileMonitorPattern <$> pat with
        | Some (Throw e) => Throw ("invalid pattern: " +:+ e)
        | _ =>
            match List.find (fun w => Monitor.enabled w && (Monitor.processId w === processId)
                                      && (Monitor.threadRef w === b_threadRef deps)) (dm_all m) with
            | Some existing =>
                Ok (mkWatch (Monitor.id existing) processId true (Monitor.expiresAt existing),
                    update (Monitor.id existing) instr pat sinceCursor m)
            | None =>
                let! made := create (mkMonitorInput (b_ownerScopeId deps) (b_owner deps) (b_owner deps)
                  (b_destination deps) None None processId (Registry.command rec) (b_threadRef deps) instr pat
                  sinceCursor (Registry.expiresAt rec + b_graceMs deps)) uuid now m in
                Ok (mkWatch (Monitor.id made.1) processId false (Monitor.expiresAt made.1), made.2)
            end
        end
  end.

Definition unwatch (deps : BrokerDeps) (monitorId : string) (m : M Monitor.t) : bool * M Monitor.t :=
  match dm_get monitorId m with
  | Some w => if Monitor.ownerScopeId w !== b_ownerScopeId deps then (false, m) else (true, dm_delete monitorId m)
  | None => (false, m)
  end.

Definition listWatches (deps : BrokerDeps) (m : M Monitor.t) : list Monitor.t :=
  List.filter (fun w => Monitor.ownerScopeId w === b_ownerScopeId deps) (dm_all m).
End store.

(** ** Cutting output into lines *)
Definition MAX_EVENT_CHARS : nat := 16 * 1000.
Definition MAX_TAIL_CHARS : nat := 4096.
Arguments MAX_EVENT_CHARS : simpl never.
Arguments MAX_TAIL_CHARS : simpl never.
Definition DEFAULT_HEARTBEAT_MS : Z := 180000.
Definition DEFAULT_MIN_FIRE_INTERVAL_MS : Z := 60000.

(** [s.slice(-n)] *)
Definition sliceLast (n : nat) (s : string) : string := Str.drop (String.length s - n) s.

Definition matchedLines (matches : string -> bool) (chunk : string) : list string :=
  List.filter (fun l => (l !== "") && matches l) (Str.split nl chunk).

Definition filterLines (chunk pattern : string) : string :=
  match Pattern.compileMonitorPattern pattern with
  | Throw _ => chunk
  | Ok matches => Str.join nlStr (matchedLines matches chunk)
  end.

(** The text up to the last newline, and what follows it; [None] where
    [lastIndexOf] is -1. *)
Fixpoint cutLast (s : string) : option (string * string) :=
  match s with
  | "" => None
  | String c s =>
      match cutLast s with
      | Some (before, after) => Some (String c before, after)
      | None => if c === nl then Some ("", s) else None
      end
  end.

(** The events of a read and the tail that is kept for the next one. *)
Definition eventsOf (pattern : option string) (final : bool) (raw : string) : string * option string :=
  match keepTruthy pattern with
  | None => (raw, None)
  | Some p =>
      if final then (filterLines raw p, None) else
      match cutLast raw with
      | None => ("", keepTruthy (Some (sliceLast MAX_TAIL_CHARS raw)))
      | Some (before, after) =>
          (filterLines (before +:+ nlStr) p, keepTruthy (Some (sliceLast MAX_TAIL_CHARS after)))
      end
  end.




















(** ** What the agent is told *)
Inductive MonitorEvent :=
| ev_output | ev_exited (code : Z) | ev_expired | ev_lost | ev_quiet (quietMins : Z).

Definition describeEvent (ev : MonitorEvent) : string :=
  match ev with
  | ev_exited code => "It just exited with code " +:+ Str.showZ code +:+ "."
  | ev_expired => "Your watch on it expired (the job may still be running — " +:+ tick +:+ "background poll" +:+ tick
      +:+ " it, or arm a new watch if you still need one)."
  | ev_lost => "It is no longer on your computer (likely lost to a restart) — treat it as gone."
  | ev_quiet quietMins => "It's still running — just nothing wake-worthy in the last ~" +:+ Str.showZ quietMins
      +:+ " min. Its most recent raw output (if any) is below so you can read where it's up to."
  | ev_output => "It produced new output."
  end.

Definition replyGuidance (ev : MonitorEvent) : string :=
  match ev with
  | ev_quiet _ => "This heartbeat exists so they can tell a quiet job from a stalled one: a one-line still-running note is the point, unless they asked you to stay quiet. "
  | ev_output => "If the new output is just noise they wouldn't care about, finish silently. "
  | _ => "This is the last update this watch will send, so stay quiet only if they explicitly asked for silence on this outcome. "
  end.

Record Rendered := mkRendered { rendered : string; screenData : string }.

Definition renderEvent (m : Monitor.t) (output : string) (ev : MonitorEvent) : Rendered :=
  let capped := if (MAX_EVENT_CHARS <? String.length output)%nat
                then "…[truncated]" +:+ nlStr +:+ sliceLast MAX_EVENT_CHARS output else output in
  mkRendered
    (Str.join nlStr (
       ["[background job update — automated, not a user message] You are watching background job "
          +:+ Monitor.processId m +:+ " (" +:+ tick +:+ Monitor.command m +:+ tick +:+ ") in this conversation. "
          +:+ describeEvent ev]
       ++ (if Str.truthy (Str.trim capped) then [""; "<output>"; capped; "</output>"] else [])
       ++ match keepTruthy (Monitor.instructions m) with
          | Some i => [""; "When you armed this watch you said: " +:+ i]
          | None => []
          end
       ++ [""; "Act on this. The user can't see the job, so when something changed that's worth telling them, reply with a brief update — it posts to this conversation — saying where things stand and what to expect next. "
               +:+ replyGuidance ev
               +:+ "Use the " +:+ tick +:+ "background" +:+ tick +:+ " tool (poll/stop/watch) if you need more than what's shown."]))
    capped.

Inductive ProcessState := st_running | st_exited (code : Z).
Record ReadResult := mkRead { chunks : string; r_cursor : Z; r_status : ProcessState }.

Definition processIsGone (e : string) : bool := Str.startsWith (Str.toLowerCase e) "no such process".

(** ** The poller *)
Section poller.
Context {M : Type -> Type} `{DurableMapLaws M}.
Variable directory : option TriggerDirectory.
Variable currentScopeMembers : ScopeId -> option (list Principal.t).
Variable run : TriggerRequest.t -> outcome TriggerResult.t.
(** The ids the firing of a key draws. *)
Variable newIds : string -> string * string.
Variable readProcess : string -> Z -> outcome ReadResult.
Variable provision : string -> outcome unit.
Variables heartbeatMs minFireIntervalMs : Z.
Variable maxFiresPerTick : nat.

Record State := mkState {
  monitors : M Monitor.t;
  processes : Registry.rows;
  world : World (M := M);
}.
Definition withMonitors (st : State) (m : M Monitor.t) : State := mkState m (processes st) (world st).

Definition specOf (m : Monitor.t) (fireKey : string) (event : Rendered) (withErrorNotice : bool) : TriggerSpec.t :=
  TriggerSpec.mk (Monitor.owner m) (Monitor.ownerScopeId m) (rendered event) (Some (screenData event)) fireKey
    "monitor" (Monitor.destination m) None (Some (Monitor.threadRef m)) None None None None None None None None
    (if withErrorNotice
     then Some (fun s => "⚠️ A background-job update (" +:+ tick +:+ Monitor.command m +:+ tick +:+ ") could not run: " +:+ s)
     else None).

Definition fire (m : Monitor.t) (fireKey : string) (event : Rendered) (withErrorNotice : bool) (t : Z) (st : State)
    : outcome TriggerOutcome.t * State :=
  let '(u, v) := newIds fireKey in
  let '(r, w) := runTrigger directory currentScopeMembers run (specOf m fireKey event withErrorNotice) t u v (world st) in
  (r, mkState (monitors st) (processes st) w).

Definition keyOf (m : Monitor.t) (suffix : string) : string := "monitor:" +:+ Monitor.id m +:+ ":" +:+ suffix.

(** [if (outcome.note) await deps.monitors.recordError(m.id, outcome.note)] *)
Definition noteError (m : Monitor.t) (note : option string) (st : State) : State :=
  match keepTruthy note with
  | Some n => withMonitors st (recordError (Monitor.id m) n (monitors st))
  | None => st
  end.

Definition disable (m : Monitor.t) (st : State) : State :=
  withMonitors st (setEnabled (Monitor.id m) false (monitors st)).

Definition reportLost (m : Monitor.t) (t : Z) (st : State) : outcome unit * State :=
  match fire m (keyOf m "lost") (renderEvent m (default "" (Monitor.tail m)) ev_lost) false t st with
  | (Throw e, st) => (Throw e, st)
  | (Ok o, st) =>
      let st := if TriggerOutcome.authzFailed o then st else noteError m (TriggerOutcome.note o) st in
      (Ok tt, disable m st)
  end.

Definition stillLive (m : Monitor.t) (st : State) : bool :=
  match dm_get (Monitor.id m) (monitors st) with Some fresh => Monitor.enabled fresh | None => false end.

(** The quiet branch: a heartbeat when it is due, else only the place in the output. *)
Definition pollQuiet (m : Monitor.t) (read : ReadResult) (raw : string) (tl : option string) (t : Z) (st : State)
    : outcome bool * State :=
  let quietSince := default (Monitor.createdAt m) (Monitor.lastFiredAt m) in
  if (0 <? heartbeatMs) && (heartbeatMs <=? t - quietSince) then
    let quietMins := Z.max 1 ((t - quietSince + 30000) / 60000) in
    match fire m (keyOf m ("quiet:" +:+ Str.showZ quietSince))
            (renderEvent m (sliceLast MAX_TAIL_CHARS raw) (ev_quiet quietMins)) false t st with
    | (Throw e, st) => (Throw e, st)
    | (Ok o, st) =>
        if TriggerOutcome.authzFailed o then (Ok true, disable m st) else
        let st := noteError m (TriggerOutcome.note o) st in
        (Ok true, withMonitors st (advance (Monitor.id m) (r_cursor read) tl (Some t) (monitors st)))
    end
  else
    (Ok false, if negb (r_cursor read =? Monitor.cursor m) || (tl !== Monitor.tail m)
               then withMonitors st (advance (Monitor.id m) (r_cursor read) tl None (monitors st)) else st).

Definition exitCode (s : ProcessState) : option Z := match s with st_exited c => Some c | st_running => None end.

(** The event, under its key. *)
Definition pollFire (m : Monitor.t) (read : ReadResult) (events : string) (tl : option string) (expired : bool) (t : Z)
    (st : State) : outcome bool * State :=
  let '(ev, fireKey) := match r_status read with
                        | st_exited code => (ev_exited code, keyOf m "exit")
                        | st_running => if expired then (ev_expired, keyOf m "expired")
                                        else (ev_output, keyOf m (Str.showZ (Monitor.cursor m)))
                        end in
  let exited := match r_status read with st_exited _ => true | st_running => false end in
  match fire m fireKey (renderEvent m events ev) true t st with
  | (Throw e, st) => (Throw e, st)
  | (Ok o, st) =>
      if TriggerOutcome.authzFailed o then (Ok true, disable m st) else
      let st := noteError m (TriggerOutcome.note o) st in
      let st := match dm_get (Monitor.id m) (monitors st) with
                | None => st
                | Some _ =>
                    let st := withMonitors st (advance (Monitor.id m) (r_cursor read) tl (Some t) (monitors st)) in
                    if exited || expired then disable m st else st
                end in
      (Ok true, if exited then mkState (monitors st) (Registry.markStatus (Monitor.processId m) Registry.exited (processes st)).2 (world st)
                else st)
  end.

Definition tooSoon (m : Monitor.t) (t : Z) : bool :=
  (0 <? minFireIntervalMs)
  && match Monitor.lastFiredAt m with Some f => t - f <? minFireIntervalMs | None => false end.

Definition poll (m : Monitor.t) (t : Z) (st : State) : outcome bool * State :=
  if negb (stillLive m st) then (Ok false, st) else
  match readProcess (Monitor.processId m) (Monitor.cursor m) with
  | Throw e =>
      if processIsGone e then
        match reportLost m t st with (Throw e, st) => (Throw e, st) | (Ok _, st) => (Ok true, st) end
      else (Ok false, withMonitors st (recordError (Monitor.id m) e (monitors st)))
  | Ok read =>
      let exited := match r_status read with st_exited _ => true | st_running => false end in
      let expired := negb exited && (Monitor.expiresAt m <=? t) in
      let raw := default "" (Monitor.tail m) +:+ chunks read in
      let '(events, tl) := eventsOf (Monitor.pattern m) (exited || expired) raw in
      if negb (Str.truthy (Str.trim events)) && negb exited && negb expired then pollQuiet m read raw tl t st
      else if negb exited && negb expired && tooSoon m t then (Ok false, st)
      else pollFire m read events tl expired t st
  end.

(** [pollAll]: the watches in the order of their creation, until enough have
    fired; [ready] are the scopes whose sandbox is up. *)
Fixpoint pollEach (l : list Monitor.t) (t : Z) (fires : nat) (ready : list string) (st : State) : State :=
  match l with
  | [] => st
  | m :: rest =>
      if (maxFiresPerTick <=? fires)%nat then st else
      match Registry.get (processes st) (Monitor.processId m) with
      | None =>
          match reportLost m t st with
          | (Ok _, st) => pollEach rest t (S fires) ready st
          | (Throw _, st) => st
          end
      | Some rec =>
          let up := if bool_decide (Registry.scopeId rec ∈ ready) then Ok tt else provision (Registry.scopeId rec) in
          match up with
          | Throw e => pollEach rest t fires ready (withMonitors st (recordError (Monitor.id m) e (monitors st)))
          | Ok _ =>
              let ready := Arr.add ready (Registry.scopeId rec) in
              match poll m t st with
              | (Ok fired, st) => pollEach rest t (if fired then S fires else fires) ready st
              | (Throw e, st) => pollEach rest t fires ready (withMonitors st (recordError (Monitor.id m) e (monitors st)))
              end
          end
      end
  end.

Definition pollAll (t : Z) (st : State) : State :=
  pollEach (Arr.sort (Arr.by_key Monitor.createdAt) (enabledOf (monitors st))) t 0 [] st.

(** *** Pace *)
Implicit Types st : State.

Definition weight (r : outcome bool) : nat := match r with Ok true => 1 | _ => 0 end.

Lemma fire_returned m k ev b t st :
  let r := fire m k ev b t st in
  (returned (world r.2) <= returned (world st) + match r.1 with Ok _ => 1 | Throw _ => 0 end)%nat.
Proof.
  cbn zeta. unfold fire. destruct (newIds k) as [u v].
  pose proof (runTrigger_returned directory currentScopeMembers run (specOf m k ev b) t u v (world st)) as Hr.
  by destruct (runTrigger _ _ _ _ _ _ _ _).
Qed.

Lemma noteError_world m n st : world (noteError m n st) = world st.
Proof. unfold noteError. by destruct (keepTruthy n). Qed.

Lemma reportLost_returned m t st :
  let r := reportLost m t st in
  (returned (world r.2) <= returned (world st) + match r.1 with Ok _ => 1 | Throw _ => 0 end)%nat.
Proof.
  cbn zeta. unfold reportLost. pose proof (fire_returned m (keyOf m "lost") (renderEvent m (default "" (Monitor.tail m)) ev_lost) false t st) as Hf.
  destruct (fire _ _ _ _ _ _) as [[o|e] st']; cbn in *; [|done].
  destruct (TriggerOutcome.authzFailed o); by rewrite ?noteError_world.
Qed.

Lemma poll_returned m t st :
  let r := poll m t st in (returned (world r.2) <= returned (world st) + weight r.1)%nat.
Proof.
  cbn zeta. unfold poll. destruct (stillLive m st); cbn [negb]; [|cbn; lia].
  destruct (readProcess _ _) as [read|e].
  2: { destruct (processIsGone e); [|cbn; lia]. pose proof (reportLost_returned m t st) as Hl.
       destruct (reportLost m t st) as [[[]|e'] st']; cbn in *; lia. }
  destruct (eventsOf _ _ _) as [events tl]. destruct (_ && _).
  - unfold pollQuiet. destruct (_ && _).
    + match goal with |- context [fire m ?k ?ev ?b t st] => pose proof (fire_returned m k ev b t st) as Hf; destruct (fire m k ev b t st) as [[o|e] st'] end; cbn in *; [|lia].
      destruct (TriggerOutcome.authzFailed o); cbn; rewrite ?noteError_world; lia.
    + destruct (_ || _); cbn; lia.
  - destruct (_ && _); [cbn; lia|]. unfold pollFire.
    destruct (match r_status read with st_exited _ => _ | st_running => _ end) as [ev k].
    match goal with |- context [fire m k ?ev ?b t st] => pose proof (fire_returned m k ev b t st) as Hf; destruct (fire m k ev b t st) as [[o|e] st'] end; cbn in *; [|lia].
    destruct (TriggerOutcome.authzFailed o); [cbn; lia|].
    cbn [snd fst weight]. rewrite <- (noteError_world m (TriggerOutcome.note o) st') in Hf.
    destruct (dm_get _ _); destruct (r_status read); cbn; try destruct (Monitor.expiresAt m <=? t); cbn; lia.
Qed.

Lemma pollEach_returned l t fires ready st :
  (fires <= maxFiresPerTick)%nat ->
  (returned (world (pollEach l t fires ready st)) + fires <= returned (world st) + maxFiresPerTick)%nat.
Proof.
  revert fires ready st. induction l as [|m l IH]; intros fires ready st Hf; cbn [pollEach]; [lia|].
  destruct (maxFiresPerTick <=? fires)%nat eqn:Em; [lia|]. apply Nat.leb_gt in Em.
  destruct (Registry.get _ _) as [rec|].
  - destruct (if bool_decide (Registry.scopeId rec ∈ ready) then _ else _) as [[]|e].
    + pose proof (poll_returned m t st) as Hp. cbn zeta in Hp. destruct (poll m t st) as [[[]|e] st']; cbn [fst snd weight] in Hp.
      * specialize (IH (S fires) (Arr.add ready (Registry.scopeId rec)) st' ltac:(lia)). lia.
      * specialize (IH fires (Arr.add ready (Registry.scopeId rec)) st' Hf). lia.
      * specialize (IH fires (Arr.add ready (Registry.scopeId rec))
          (withMonitors st' (recordError (Monitor.id m) e (monitors st'))) Hf). cbn in IH. lia.
    + specialize (IH fires ready (withMonitors st (recordError (Monitor.id m) e (monitors st))) Hf). cbn in IH. lia.
  - pose proof (reportLost_returned m t st) as Hl. cbn zeta in Hl.
    destruct (reportLost m t st) as [[[]|e] st']; cbn [fst snd] in Hl; [|lia].
    specialize (IH (S fires) ready st' ltac:(lia)). lia.
Qed.

Lemma disable_stops m st : stillLive m (disable m st) = false.
Proof.
  unfold stillLive, disable, setEnabled, merge. cbn. rewrite dm_update_spec.
  destruct (dm_get (Monitor.id m) (monitors st)) as [f|] eqn:E; cbn; [|by rewrite E].
  by rewrite dm_get_put, decide_True.
Qed.

(** The job is over for this watch: gone, exited or past the watch's end. *)
Definition over (m : Monitor.t) (t : Z) : bool :=
  match readProcess (Monitor.processId m) (Monitor.cursor m) with
  | Throw e => processIsGone e
  | Ok read => match r_status read with st_exited _ => true | st_running => Monitor.expiresAt m <=? t end
  end.

Lemma poll_over m t st st' : over m t = true -> poll m t st = (Ok true, st') -> stillLive m st' = false.
Proof.
  unfold over, poll. destruct (stillLive m st); cbn [negb]; [|done].
  destruct (readProcess _ _) as [read|e].
  2: { intros ->. unfold reportLost. destruct (fire _ _ _ _ _ _) as [[o|e'] st1]; [|done].
       intros [= <-]. apply disable_stops. }
  intros Ho. assert ((match r_status read with st_exited _ => true | st_running => false end)
    || (negb (match r_status read with st_exited _ => true | st_running => false end) && (Monitor.expiresAt m <=? t)) = true) as Hf.
  { destruct (r_status read); [by rewrite Ho|done]. }
  revert Hf. set (exited := match r_status read with st_exited _ => true | st_running => false end).
  set (expired := negb exited && _). intros Hf. destruct (eventsOf _ _ _) as [events tl].
  replace (negb (Str.truthy (Str.trim events)) && negb exited && negb expired) with false.
  2: { symmetry. rewrite <- andb_assoc, <- negb_orb, Hf. by rewrite andb_false_r. }
  replace (negb exited && negb expired && tooSoon m t) with false by (by rewrite <- negb_orb, Hf).
  unfold pollFire.
  destruct (match r_status read with st_exited code => (ev_exited code, _) | st_running => _ end) as [ev k].
  destruct (fire _ _ _ _ _ _) as [[o|e] st1]; [|done]. fold exited.
  destruct (TriggerOutcome.authzFailed o); intros [= <-]; [apply disable_stops|].
  assert (forall s : State, stillLive m s = false ->
    stillLive m (if exited then mkState (monitors s) (Registry.markStatus (Monitor.processId m) Registry.exited (processes s)).2 (world s) else s) = false)
    as Hx by (intros s Hs; by destruct exited). apply Hx.
  destruct (dm_get (Monitor.id m) _) eqn:Eg; [|by unfold stillLive; rewrite Eg].
  rewrite Hf. apply disable_stops.
Qed.

(** A tick brings back no more turns than it may fire, whatever is watched; a job
    that is still running is not reported again before the interval is over (the
    heartbeat being no shorter), the world and its outbox stay as they are; and once
    a job is over, reported and not in error, its watch is off and polls of it do
    nothing more. *)
Theorem monitor_paced (t : Z) (st : State) :
  (returned (world (pollAll t st)) <= returned (world st) + maxFiresPerTick)%nat
  /\ (forall m f, Monitor.lastFiredAt m = Some f -> over m t = false ->
        0 <= t - f < minFireIntervalMs -> minFireIntervalMs <= heartbeatMs -> world (poll m t st).2 = world st)
  /\ (forall m st', over m t = true -> poll m t st = (Ok true, st') ->
        forall t', poll m t' st' = (Ok false, st')).
Proof.
  split_and!.
  - pose proof (pollEach_returned (Arr.sort (Arr.by_key Monitor.createdAt) (enabledOf (monitors st))) t 0 [] st ltac:(lia)).
    unfold pollAll. lia.
  - intros m f Hl Ho Hi Hh. unfold over in Ho. unfold poll. destruct (stillLive m st); cbn [negb]; [|done].
    destruct (readProcess _ _) as [read|e]; [|by rewrite Ho].
    destruct (r_status read) eqn:Es; [|done]. rewrite Ho. cbn [negb andb orb].
    destruct (eventsOf _ _ _) as [events tl]. destruct (_ && _).
    + unfold pollQuiet. rewrite Hl. change (default (Monitor.createdAt m) (Some f)) with f. destruct (Z.leb_spec heartbeatMs (t - f)); [lia|].
      rewrite andb_false_r. by destruct (_ || _).
    + unfold tooSoon. rewrite Hl. destruct (Z.ltb_spec (t - f) minFireIntervalMs); [|lia].
      destruct (Z.ltb_spec 0 minFireIntervalMs) as [|Hle]; [done|].
      exfalso. lia.
  - intros m st' Ho Hp t'. unfold poll. by rewrite (poll_over m t st st' Ho Hp).
Qed.
End poller.



Definition demoMonitor (id pid : string) (at_ : Z) : Monitor.t :=
  Monitor.mk id "personal:ada" "ada" "ada" true at_ None None None None pid "make" "t" None None 0 None 1000 None.

Definition demoRegistry : Registry.rows :=
  [("p2", Registry.mkRecord "p2" "s" "background" "make" 0 1000 Registry.running None None)].

Definition demoState : State (M := Memory.t) :=
  mkState (dm_put "m2" (demoMonitor "m2" "p2" 2) (dm_put "m1" (demoMonitor "m1" "p1" 1) dm_empty)) demoRegistry demoWorld.

Definition demoTick (run : TriggerRequest.t -> outcome TriggerResult.t) : State (M := Memory.t) :=
  pollAll None (fun _ => None) run (fun k => (k, k +:+ "'")) (fun _ _ => Ok (mkRead "built" 5 (st_exited 0)))
    (fun _ => Ok tt) 180000 60000 20 10 demoState.

Lemma monitor_paced_witness : (returned (world (demoTick demoRun)) <= 20)%nat.
Proof.
  exact (proj1 (monitor_paced (M := Memory.t) None (fun _ => None) demoRun (fun k => (k, k +:+ "'"))
    (fun _ _ => Ok (mkRead "built" 5 (st_exited 0))) (fun _ => Ok tt) 180000 60000 20 10 demoState)).
Defined.

(** Both jobs are reported; when the turn on the job that is lost throws, the
    watch after it is not looked at, in this tick or the next. *)
Example both_reported : returned (world (demoTick demoRun)) = 2%nat.
Proof. by vm_compute. Qed.

Definition stuckRun (req : TriggerRequest.t) : outcome TriggerResult.t :=
  if TriggerRequest.idempotencyKey req === "monitor:m1:lost" then Throw "model unavailable" else demoRun req.

Example lost_watch_blocks :
  returned (world (demoTick stuckRun)) = 0%nat
  /\ stillLive (demoMonitor "m1" "p1" 1) (demoTick stuckRun) = true
  /\ monitors (demoTick stuckRun) = monitors demoState.
Proof. by vm_compute. Qed.

(** A watch that is armed again from a place it was already fired at: its key is
    kept, so the output from there is passed over without a turn. *)
Definition quietRead (pid : string) (c : Z) : outcome ReadResult := Ok (mkRead "output" 6 st_running).

Definition oneWatch : State (M := Memory.t) :=
  mkState (dm_put "m2" (demoMonitor "m2" "p2" 2) dm_empty) demoRegistry demoWorld.

Definition tickAt (t : Z) (st : State (M := Memory.t)) : State (M := Memory.t) :=
  pollAll None (fun _ => None) demoRun (fun k => (k, k +:+ "'")) quietRead (fun _ => Ok tt) 180000 100 20 t st.

Definition rearmed : State (M := Memory.t) :=
  let st := tickAt 10 oneWatch in withMonitors st (update "m2" None None (Some 0) (monitors st)).

Example rearmed_watch_skips :
  returned (world rearmed) = 1%nat
  /\ (Monitor.cursor <$> dm_get "m2" (monitors rearmed)) = Some 0
  /\ returned (world (tickAt 500 rearmed)) = 1%nat
  /\ (Monitor.cursor <$> dm_get "m2" (monitors (tickAt 500 rearmed))) = Some 6.
Proof. by vm_compute. Qed.
