(* ===== verification/Credentials.v ===== *)
(** * Credentials: sealing, paths, the script that loads a secret, secret drops

    [Cipher] is [encryptSecret]/[decryptSecret] of
    [src/connectors/connector-client-store.ts] around the platform's AES-GCM, which
    is a parameter; [homeRelativePath] is [src/credentials/paths.ts]; [UseScript] is
    [renderUseScript] of [src/credentials/keychain.ts], with [shq] of
    [src/util/shell.ts] and a reader of the shell's quoting to read it back;
    [envKey] is [src/credentials/connector-token.ts]; [Drop] is
    [src/credentials/secret-drop.ts]. *)

From Stdlib Require Import ZArith Lia Ascii.
From S2P Require Import Prelude Collections Scopes Turns DurableMap.
Open Scope Z_scope.

Definition dq : string := String "034"%char "".
Definition sq : ascii := "039"%char.
Definition lf : ascii := "010"%char.
Definition lfStr : string := String lf "".

(** ** Sealed secrets *)
Module Cipher.

Record SecretKey := mkKey { current : string; legacy : string; fallbacks : list (string * string) }.

Section cipher.
(** AES-256-GCM over base64 texts: the tag and the ciphertext of a plain text, and
    the plain text of a ciphertext with its tag. *)
Variable seal : string -> string -> string -> string * string.
Variable unseal : string -> string -> string -> string -> outcome string.

Definition encryptSecret (iv plain : string) (key : SecretKey) : string :=
  let '(tag, ct) := seal (current key) iv plain in "v2:" +:+ iv +:+ ":" +:+ tag +:+ ":" +:+ ct.

Definition malformed : outcome string := Throw "malformed encrypted secret".

(** The fallbacks, the first that opens it; none opens it: the first error. *)
Fixpoint tryFallbacks (attempt : string * string -> outcome string) (e : string) (l : list (string * string))
    : outcome string :=
  match l with
  | [] => Throw e
  | fb :: rest => match attempt fb with Ok s => Ok s | Throw _ => tryFallbacks attempt e rest end
  end.

Definition opened (v2 : bool) (iv tag ct : string) (key : SecretKey) : outcome string :=
  if negb (Str.truthy iv) || negb (Str.truthy tag) then malformed else
  let attempt k := unseal (if v2 then fst k else snd k) iv tag ct in
  match attempt (current key, legacy key) with
  | Ok s => Ok s
  | Throw e => tryFallbacks attempt e (fallbacks key)
  end.

Definition decryptSecret (enc : string) (key : SecretKey) : outcome string :=
  match Str.split ":"%char enc with
  | [p0; iv; tag; ct] => if p0 === "v2" then opened true iv tag ct key else malformed
  | [iv; tag; ct] => if iv === "v2" then malformed else opened false iv tag ct key
  | _ => malformed
  end.

Hypothesis unseal_seal : forall k iv plain, unseal k iv (seal k iv plain).1 (seal k iv plain).2 = Ok plain.
(** A ciphertext does not authenticate under another key. *)
Hypothesis unseal_other : forall k k' iv plain, k <> k' ->
  exists e, unseal k' iv (seal k iv plain).1 (seal k iv plain).2 = Throw e.
(** Base64 has no colon; a tag is not empty. *)
Hypothesis seal_base64 : forall k iv plain,
  Str.includesChar ":" (seal k iv plain).1 = false /\ Str.includesChar ":" (seal k iv plain).2 = false
  /\ (seal k iv plain).1 <> "".

Lemma split_encrypted iv plain key : Str.includesChar ":" iv = false ->
  Str.split ":"%char (encryptSecret iv plain key)
  = ["v2"; iv; (seal (current key) iv plain).1; (seal (current key) iv plain).2].
Proof.
  intros Hiv. unfold encryptSecret. destruct (seal_base64 (current key) iv plain) as (Ht & Hc & _).
  destruct (seal (current key) iv plain) as [tag ct]. cbn [fst snd] in *.
  change ("v2:" +:+ iv +:+ ":" +:+ tag +:+ ":" +:+ ct)
    with ("v2" +:+ String ":" (iv +:+ String ":" (tag +:+ String ":" ct))).
  rewrite !Str.split_append, (Str.split_no_sep _ iv), (Str.split_no_sep _ tag), (Str.split_no_sep _ ct) by done. done.
Qed.

Lemma tryFallbacks_found attempt e l s :
  (forall k, (exists e', attempt k = Throw e') \/ attempt k = Ok s) -> (exists k, k ∈ l /\ attempt k = Ok s) ->
  tryFallbacks attempt e l = Ok s.
Proof.
  intros Ha. induction l as [|k l IH]; intros (k' & Hin & Hk).
  - by apply elem_of_nil in Hin.
  - cbn. destruct (Ha k) as [[e' He]|He]; rewrite He; [|done].
    apply elem_of_cons in Hin as [->|Hin]; [congruence|]. apply IH. by exists k'.
Qed.

(** A secret sealed under one key is read back exactly under any key ring whose
    current key or one of whose fallbacks is that key, whatever the other keys, so
    that a rotation which keeps the old key loses nothing. *)
Theorem secret_survives_rotation (iv plain : string) (key ring : SecretKey) :
  iv <> "" -> Str.includesChar ":" iv = false ->
  current key = current ring \/ current key ∈ map fst (fallbacks ring) ->
  decryptSecret (encryptSecret iv plain key) ring = Ok plain.
Proof.
  intros Hn Hc Hk. unfold decryptSecret. rewrite split_encrypted by done. rewrite bool_decide_eq_true_2 by done.
  unfold opened, Str.truthy. destruct (seal_base64 (current key) iv plain) as (_ & _ & Ht).
  rewrite !bool_decide_eq_false_2 by done. cbn [negb orb].
  assert (forall k : string * string, (exists e', unseal (fst k) iv (seal (current key) iv plain).1 (seal (current key) iv plain).2 = Throw e')
    \/ unseal (fst k) iv (seal (current key) iv plain).1 (seal (current key) iv plain).2 = Ok plain) as Hall.
  { intros k. destruct (decide (current key = fst k)) as [<-|Hd]; [by right; apply unseal_seal|].
    left. by apply unseal_other. }
  destruct (Hall (current ring, legacy ring)) as [[e He]|He]; cbn [fst] in He |- *; rewrite He; [|done].
  apply tryFallbacks_found; [done|]. destruct Hk as [Hk|Hk].
  - exfalso. rewrite <- Hk, unseal_seal in He. done.
  - apply list_elem_of_In, in_map_iff in Hk as (k & Hkk & Hin). exists k. split; [by apply list_elem_of_In|].
    rewrite Hkk. apply unseal_seal.
Qed.
End cipher.
End Cipher.

(** ** Paths *)
(** [s.replace(/^p/, r)] of a literal prefix, taken off. *)
Definition stripPrefix (p s : string) : string := if Str.startsWith s p then Str.drop (String.length p) s else s.

Definition stripHomePrefix (target : string) : string :=
  let s := stripPrefix "~/" target in if s === "~" then "" else s.

Definition homeRelativePath (path : string) : outcome string :=
  let rel := stripPrefix "./" (stripHomePrefix path) in
  if negb (Str.truthy rel) || Str.startsWith rel "/" || bool_decide (".." ∈ Str.split "/"%char rel)
  then Throw ("file path must be home-relative: " +:+ path) else Ok rel.

(** What it lets through stays under the directory it is put in. *)
Lemma homeRelative_inside path rel : homeRelativePath path = Ok rel ->
  rel <> "" /\ Str.startsWith rel "/" = false /\ (".." ∉ Str.split "/"%char rel).
Proof.
  unfold homeRelativePath. cbn zeta. set (r := stripPrefix _ _). destruct (_ || _) eqn:E; [done|]. intros [= <-].
  apply orb_false_iff in E as [E E3]. apply orb_false_iff in E as [E1 E2]. unfold Str.truthy in E1. js_bool. done.
Qed.

(** ** Names of environment variables *)
Definition upper_ascii (c : ascii) : ascii :=
  let n := N_of_ascii c in if ((97 <=? n) && (n <=? 122))%N then ascii_of_N (n - 32) else c.
Fixpoint toUpperCase (s : string) : string :=
  match s with "" => "" | String c s => String (upper_ascii c) (toUpperCase s) end.

Definition isUpper (c : ascii) : bool := let n := N_of_ascii c in ((65 <=? n) && (n <=? 90))%N.
Definition isLower (c : ascii) : bool := let n := N_of_ascii c in ((97 <=? n) && (n <=? 122))%N.
Definition isDigit (c : ascii) : bool := let n := N_of_ascii c in ((48 <=? n) && (n <=? 57))%N.

Fixpoint allChars (p : ascii -> bool) (s : string) : bool :=
  match s with "" => true | String c s => p c && allChars p s end.
Fixpoint mapChars (f : ascii -> ascii) (s : string) : string :=
  match s with "" => "" | String c s => String (f c) (mapChars f s) end.

(** [s.toUpperCase().replace(/[^A-Z0-9]/g, "_")] *)
Definition upperSnake (s : string) : string :=
  mapChars (fun c => if isUpper c || isDigit c then c else "_"%char) (toUpperCase s).

Definition wordStart (c : ascii) : bool := isUpper c || isLower c || (c === "_"%char).
Definition wordChar (c : ascii) : bool := wordStart c || isDigit c.

(** [ENV_KEY_RE] *)
Definition envKeyOk (s : string) : bool :=
  match s with "" => false | String c s => wordStart c && allChars wordChar s end.

Definition defaultEnvKey (service : string) : string := upperSnake service +:+ "_TOKEN".

Section envkey.
Variable hashId : list string -> nat -> string.

Definition envKey (host : string) (principalId : option string) : string :=
  match keepTruthy principalId with
  | None => "VAULT_TOKEN_" +:+ upperSnake host
  | Some p => "VAULT_TOKEN_" +:+ upperSnake host +:+ "__" +:+ upperSnake p +:+ "_" +:+ toUpperCase (hashId [p] 8%nat)
  end.
End envkey.

Lemma mapChars_all p f s : (forall c, p (f c) = true) -> allChars p (mapChars f s) = true.
Proof. intros Hp. induction s as [|c s IH]; cbn; [done|]. by rewrite Hp, IH. Qed.

Lemma allChars_app p a b : allChars p (a +:+ b) = allChars p a && allChars p b.
Proof. induction a as [|c a IH]; cbn; [done|]. by rewrite IH, andb_assoc. Qed.

Lemma upperSnake_word s : allChars wordChar (upperSnake s) = true.
Proof.
  apply mapChars_all. intros c. unfold wordChar, wordStart.
  destruct (isUpper c) eqn:E1; cbn [orb]; [by rewrite E1|]. destruct (isDigit c) eqn:E2; [rewrite E2; by rewrite orb_true_r|done].
Qed.

(** The variable a connector's token is put in is one the shell accepts. *)
Lemma envKey_ok hashId host : envKeyOk (envKey hashId host None) = true.
Proof.
  cbn [envKey keepTruthy]. change ("VAULT_TOKEN_" +:+ upperSnake host) with (String "V" ("AULT_TOKEN_" +:+ upperSnake host)).
  cbn [envKeyOk]. by rewrite allChars_app, upperSnake_word.
Qed.

(** ** The script that loads a credential *)
Module UseScript.

(** [s.replace(/'/g, `'\\''`)] *)
Fixpoint escape (s : string) : string :=
  match s with
  | "" => ""
  | String c s => if c === sq then String sq (String "\" (String sq (String sq (escape s)))) else String c (escape s)
  end.

Definition shq (s : string) : string := String sq (escape s +:+ String sq "").

Definition exportLine (e : string * string) : string := "export " +:+ e.1 +:+ "=" +:+ shq e.2.

Definition envScript (env : list (string * string)) : string := Str.join lfStr (map exportLine env) +:+ lfStr.

Definition kcDir (path : string) : string := "$__kc_dir/" +:+ path.
Definition inDq (s : string) : string := dq +:+ s +:+ dq.

(** [f.path.replace(/\/[^/]*$/, "")]: the path without its last component. *)
Definition dirname (path : string) : string :=
  Str.join "/" (take (length (Str.split "/"%char path) - 1) (Str.split "/"%char path)).

Definition fileLines (f : string * string) : list string :=
  let parent := if Str.includesChar "/" f.1 then dirname f.1 else "" in
  (if Str.truthy parent then ["mkdir -p " +:+ inDq (kcDir parent)] else [])
  ++ ["printf '%s' " +:+ shq f.2 +:+ " | base64 -d > " +:+ inDq (kcDir f.1);
      "chmod 600 " +:+ inDq (kcDir f.1)].

(** [/(^|\/)s$/] for a literal [s]. *)
Definition endsAt (s path : string) : bool := (path === s) || Str.endsWith path ("/" +:+ s).

Definition stripSuffix (s path : string) : string :=
  if Str.endsWith path s then Str.take (String.length path - String.length s) path else path.

(** [/(^|\/)\.ssh\/[^/]*(id_|key)[^/]*$/] *)
Definition sshKey (path : string) : bool :=
  match reverse (Str.split "/"%char path) with
  | name :: dir :: _ => (dir === ".ssh") && (Str.includes name "id_" || Str.includes name "key")
  | _ => false
  end.

Definition FILE_ENV_POINTERS : list ((string -> bool) * (string -> string)) :=
  [ (endsAt ".aws/credentials", fun abs => "export AWS_SHARED_CREDENTIALS_FILE=" +:+ inDq abs);
    (endsAt ".aws/config", fun abs => "export AWS_CONFIG_FILE=" +:+ inDq abs);
    (endsAt ".kube/config", fun abs => "export KUBECONFIG=" +:+ inDq abs);
    (endsAt ".config/gh/hosts.yml", fun abs => "export GH_CONFIG_DIR=" +:+ inDq (stripSuffix "/hosts.yml" abs));
    (fun p => endsAt ".config/glab-cli/config.yml" p || endsAt ".config/glab/config.yml" p
              || endsAt "Library/Application Support/glab-cli/config.yml" p,
     fun abs => "export GLAB_CONFIG_DIR=" +:+ inDq (stripSuffix "/config.yml" abs));
    (endsAt ".docker/config.json", fun abs => "export DOCKER_CONFIG=" +:+ inDq (stripSuffix "/config.json" abs));
    (endsAt ".npmrc", fun abs => "export NPM_CONFIG_USERCONFIG=" +:+ inDq abs);
    (endsAt ".netrc", fun abs => "export NETRC=" +:+ inDq abs);
    (sshKey, fun abs => "export GIT_SSH_COMMAND=" +:+ inDq ("ssh -i " +:+ abs +:+ " -o IdentitiesOnly=yes")) ].

(** The pointers of one file that none before it used; a pointer is known by its
    place in the list. *)
Fixpoint pointersOf (path : string) (n : nat) (l : list ((string -> bool) * (string -> string))) (pointed : list nat)
    : list string * list nat :=
  match l with
  | [] => ([], pointed)
  | (re, render) :: rest =>
      if re path && negb (bool_decide (n ∈ pointed)) then
        let '(ls, pointed) := pointersOf path (S n) rest (pointed ++ [n]) in (render (kcDir path) :: ls, pointed)
      else pointersOf path (S n) rest pointed
  end.

Fixpoint pointerLines (files : list (string * string)) (pointed : list nat) : list string :=
  match files with
  | [] => []
  | f :: rest => let '(ls, pointed) := pointersOf f.1 0 FILE_ENV_POINTERS pointed in ls ++ pointerLines rest pointed
  end.

Definition homeLines : list string :=
  ["for __e in " +:+ inDq "$HOME" +:+ "/.[!.]* " +:+ inDq "$HOME" +:+ "/*; do [ -e " +:+ inDq "$__e" +:+
     " ] || continue; __b=${__e##*/}; [ -e " +:+ inDq "$__kc_dir/$__b" +:+ " ] || ln -s " +:+ inDq "$__e" +:+ " "
     +:+ inDq "$__kc_dir/$__b" +:+ "; done";
   "export HOME=" +:+ inDq "$__kc_dir"].

Definition fileScript (files : list (string * string)) : string :=
  Str.join lfStr (
    ["__kc_dir=" +:+ dq +:+ "$(mktemp -d " +:+ inDq "${TMPDIR:-/tmp}/keychain.XXXXXX" +:+ ")" +:+ dq; "umask 077"]
    ++ concat (map fileLines files) ++ pointerLines files []
    ++ (if existsb (fun f => negb (existsb (fun p => p.1 f.1) FILE_ENV_POINTERS)) files then homeLines else []))
  +:+ lfStr.

Inductive MaterializedCred := env_cred (env : list (string * string)) | file_cred (files : list (string * string)).

Definition renderUseScript (m : MaterializedCred) : string :=
  match m with env_cred env => envScript env | file_cred files => fileScript files end.

(** *** Reading a script of assignments as a shell does *)
Definition consTo (c : ascii) (r : option (string * string)) : option (string * string) :=
  match r with Some (w, rest) => Some (String c w, rest) | None => None end.

(** A word up to the end of the line: between single quotes every character stands
    for itself, outside them a backslash takes the next one; a quote that is not
    closed is an error.  Anything else that a shell treats specially is not read. *)
Fixpoint word (quoted : bool) (s : string) : option (string * string) :=
  match s with
  | "" => if quoted then None else Some ("", "")
  | String c s =>
      if quoted then (if c === sq then word false s else consTo c (word true s))
      else if c === sq then word true s
      else if c === "\"%char then match s with "" => None | String d s => consTo d (word false s) end
      else if c === lf then Some ("", s)
      else if wordChar c then consTo c (word false s)
      else None
  end.

(** The name before the equals sign. *)
Fixpoint name (s : string) : option (string * string) :=
  match s with
  | "" => None
  | String c s => if c === "="%char then Some ("", s) else if wordChar c then consTo c (name s) else None
  end.

(** The assignments of a script made of [export NAME=word] lines. *)
Fixpoint assignments (fuel : nat) (s : string) : option (list (string * string)) :=
  match fuel with
  | O => None
  | S fuel =>
      if s === "" then Some [] else
      if negb (Str.startsWith s "export ") then None else
      match name (Str.drop 7 s) with
      | None => None
      | Some (k, s) =>
          match word false s with
          | None => None
          | Some (v, s) => match assignments fuel s with Some l => Some ((k, v) :: l) | None => None end
          end
      end
  end.

Lemma word_escape v rest : word true (escape v +:+ String sq rest) =
  match word false rest with Some (w, r) => Some (v +:+ w, r) | None => None end.
Proof.
  induction v as [|c v IH]; cbn [escape].
  - cbn [String.append word]. rewrite bool_decide_eq_true_2 by done. by destruct (word false rest) as [[w r]|].
  - destruct (c === sq) eqn:E.
    + js_bool. cbn [String.append word]. rewrite !bool_decide_eq_true_2 by done.
      rewrite (bool_decide_eq_false_2 ("\"%char = sq)) by done. rewrite bool_decide_eq_true_2 by done.
      rewrite IH. by destruct (word false rest) as [[w r]|].
    + cbn [String.append word]. rewrite E, IH. by destruct (word false rest) as [[w r]|].
Qed.

Lemma word_shq v rest : word false (shq v +:+ String lf rest) = Some (v, rest).
Proof.
  unfold shq. cbn [String.append word]. rewrite bool_decide_eq_true_2 by done.
  rewrite Str.append_assoc. cbn [String.append]. rewrite word_escape. cbn [word].
  rewrite (bool_decide_eq_false_2 (lf = sq)), (bool_decide_eq_false_2 (lf = "\"%char)) by done.
  rewrite bool_decide_eq_true_2 by done. by rewrite Str.append_nil_r.
Qed.

Lemma name_key k rest : allChars wordChar k = true -> name (k +:+ String "=" rest) = Some (k, rest).
Proof.
  induction k as [|c k IH]; cbn [allChars String.append name].
  - rewrite bool_decide_eq_true_2 by done. done.
  - intros Hk. apply andb_true_iff in Hk as [Hc Hk]. rewrite bool_decide_eq_false_2; [by rewrite Hc, IH|].
    intros ->. by vm_compute in Hc.
Qed.

Lemma envKeyOk_word k : envKeyOk k = true -> allChars wordChar k = true.
Proof.
  destruct k as [|c k]; cbn; [done|]. intros Hk. apply andb_true_iff in Hk as [Hc ->]. unfold wordChar. by rewrite Hc.
Qed.

(** Whatever a secret contains - quotes, newlines, [$(...)] - the script made for
    it, read by the shell's quoting rules, assigns to each variable exactly the
    secret's value and does nothing else; the names being those the keychain
    accepts. *)
Lemma use_script_exact (env : list (string * string)) (fuel : nat) :
  env <> [] -> (forall e, e ∈ env -> envKeyOk e.1 = true) -> (length env < fuel)%nat ->
  assignments fuel (renderUseScript (env_cred env)) = Some env.
Proof.
  intros Hn Hk Hf. cbn [renderUseScript]. unfold envScript.
  assert (forall l, (l <> []) -> Str.join lfStr (map exportLine l) +:+ lfStr
    = foldr (fun e acc => exportLine e +:+ String lf acc) "" l) as Hj.
  { intros l. induction l as [|e [|e' l] IH]; intros Hl; [done|done|].
    change (Str.join lfStr (map exportLine (e :: e' :: l)))
      with (exportLine e +:+ lfStr +:+ Str.join lfStr (map exportLine (e' :: l))).
    rewrite !Str.append_assoc, IH by done. done. }
  rewrite Hj by done. clear Hj Hn. revert env Hk Hf. induction fuel as [|fuel IH]; intros env Hk Hf; [lia|].
  destruct env as [|[k v] env]; [done|]. cbn [foldr assignments].
  unfold exportLine. cbn [fst snd].
  set (rest := foldr _ "" env). rewrite !Str.append_assoc. rewrite bool_decide_eq_false_2 by done.
  rewrite Str.startsWith_append. cbn [negb].
  change (Str.drop 7 ("export " +:+ (k +:+ ("=" +:+ (shq v +:+ String lf rest)))))
    with (k +:+ String "=" (shq v +:+ String lf rest)).
  rewrite name_key by (apply envKeyOk_word, (Hk (k, v)), list_elem_of_here).
  rewrite word_shq. unfold rest. rewrite IH; [done| |cbn in Hf; lia].
  intros e He. apply Hk. by apply list_elem_of_further.
Qed.

(** File names are put between double quotes as they are, so a name with [$(...)]
    in it is a command of the script. *)
Example file_name_runs :
  homeRelativePath ".aws/$(id)" = Ok ".aws/$(id)"
  /\ fileLines (".aws/$(id)", "aGk=")
     = ["mkdir -p " +:+ inDq "$__kc_dir/.aws";
        "printf '%s' 'aGk=' | base64 -d > " +:+ inDq "$__kc_dir/.aws/$(id)";
        "chmod 600 " +:+ inDq "$__kc_dir/.aws/$(id)"].
Proof. split; reflexivity. Qed.

Example use_script_reads :
  assignments 3 (renderUseScript (env_cred [("GH_TOKEN", "it's $(id)"); ("B", "x")]))
  = Some [("GH_TOKEN", "it's $(id)"); ("B", "x")].
Proof. reflexivity. Qed.
End UseScript.

(** ** Secret drops *)
Module Drop.
Record SecretDropRecord := mkDrop {
  ownerId : string; orgId : option string; service : string; d_envKey : option string; purpose : string;
  requestedBy : string; audienceScopeId : option ScopeId; threadRef : option string; createdAt : Z;
}.

Inductive SecretDropResult := drop_ok (rec : SecretDropRecord) | drop_not_found | drop_expired.

Definition SECRET_DROP_TTL_MS : Z := 7 * 24 * 60 * 60000.

Section drops.
Context {M : Type -> Type} `{DurableMapLaws M}.
Variable ttl : Z.
Implicit Types m : M SecretDropRecord.

Definition judge (rec : option SecretDropRecord) (at_ : Z) : SecretDropResult :=
  match rec with
  | None => drop_not_found
  | Some r => if ttl <? at_ - createdAt r then drop_expired else drop_ok r
  end.

Definition stamped (r : SecretDropRecord) (t : Z) : SecretDropRecord :=
  mkDrop (ownerId r) (orgId r) (service r) (d_envKey r) (purpose r) (requestedBy r) (audienceScopeId r) (threadRef r) t.

Definition mint (dropId : string) (r : SecretDropRecord) (now : Z) m : M SecretDropRecord := dm_put dropId (stamped r now) m.
Definition peek (dropId : string) (now : Z) m : SecretDropResult := judge (dm_get dropId m) now.
Definition redeem (dropId : string) (now : Z) m : SecretDropResult * M SecretDropRecord :=
  let '(r, m) := dm_take dropId m in (judge r now, m).

Definition sibling (rec r : SecretDropRecord) : bool :=
  (orgId r === orgId rec) && (audienceScopeId r === audienceScopeId rec) && (threadRef r === threadRef rec)
  && (service r !== service rec).

(** The drops of the same conversation that wait for other services; the ones past
    their time are deleted on the way. *)
Fixpoint siblingsAmong (rec : SecretDropRecord) (at_ : Z) (l : list (string * SecretDropRecord)) m
    : list SecretDropRecord * M SecretDropRecord :=
  match l with
  | [] => ([], m)
  | (id, r) :: l =>
      if ttl <? at_ - createdAt r then siblingsAmong rec at_ l (dm_delete id m)
      else let '(out, m) := siblingsAmong rec at_ l m in (if sibling rec r then r :: out else out, m)
  end.
Definition siblings (rec : SecretDropRecord) (at_ : Z) m := siblingsAmong rec at_ (dm_entries m) m.

Inductive drop_op := Mint (id : string) (r : SecretDropRecord) | Redeem (id : string) | Siblings (r : SecretDropRecord).

(** A call, and the id it was redeemed for when it was. *)
Definition exec (now : Z) (o : drop_op) m : M SecretDropRecord * list string :=
  match o with
  | Mint id r => (mint id r now m, [])
  | Redeem id => match redeem id now m with (drop_ok _, m) => (m, [id]) | (_, m) => (m, []) end
  | Siblings r => ((siblings r now m).2, [])
  end.

Fixpoint execAll (ops : list (Z * drop_op)) m : M SecretDropRecord * list string :=
  match ops with
  | [] => (m, [])
  | (now, o) :: ops => let '(m, l) := exec now o m in let '(m, l') := execAll ops m in (m, l ++ l')
  end.

Lemma siblings_get rec at_ l m id : dm_get id m = None -> dm_get id (siblingsAmong rec at_ l m).2 = None.
Proof.
  revert m. induction l as [|[i r] l IH]; intros m Hm; cbn [siblingsAmong]; [done|].
  destruct (_ <? _).
  - apply IH. rewrite dm_get_delete. by destruct (decide _).
  - specialize (IH m Hm). by destruct (siblingsAmong rec at_ l m).
Qed.

(** A link that is gone stays gone while no drop of its id is minted. *)
Lemma gone_stays ops m id : dm_get id m = None -> (forall t r, (t, Mint id r) ∉ ops) -> id ∉ (execAll ops m).2.
Proof.
  revert m. induction ops as [|[t o] ops IH]; intros m Hm Hops; [by intros ?%elem_of_nil|]. cbn [execAll].
  assert (dm_get id (exec t o m).1 = None /\ id ∉ (exec t o m).2) as [Hg Hl].
  { destruct o as [i r|i|r]; cbn.
    - split; [|by intros ?%elem_of_nil]. unfold mint. rewrite dm_get_put. destruct (decide (i = id)) as [->|]; [|done].
      exfalso. by eapply (Hops t r), list_elem_of_here.
    - unfold redeem. rewrite dm_take_spec. destruct (decide (i = id)) as [->|Hi].
      + rewrite Hm. cbn. rewrite dm_get_delete. split; [by destruct (decide _)|by intros ?%elem_of_nil].
      + destruct (judge _ _); cbn; rewrite dm_get_delete;
          (split; [by destruct (decide _)|by (intros ?%list_elem_of_singleton || intros ?%elem_of_nil)]).
    - split; [by apply siblings_get|by intros ?%elem_of_nil]. }
  destruct (exec t o m) as [m1 l1]. cbn in Hg, Hl. specialize (IH m1 Hg).
  destruct (execAll ops m1) as [m2 l2]. cbn in *. rewrite elem_of_app. intros [|]; [done|].
  apply IH; [|done]. intros t' r' Hin. by eapply Hops, list_elem_of_further.
Qed.

(** A drop link is good for one use: after a redemption its id is never redeemed
    again, unless a new drop is minted under it. *)
Lemma drop_once ops m m' id t r :
  redeem id t m = (r, m') -> (forall t r, (t, Mint id r) ∉ ops) -> id ∉ (execAll ops m').2.
Proof.
  unfold redeem. rewrite dm_take_spec. intros [= _ <-]. apply gone_stays. rewrite dm_get_delete. by destruct (decide _).
Qed.
End drops.
End Drop.

(** ** A toy cipher *)
Module ToyCipher.
Definition nibble (a b c d : bool) : ascii := ascii_of_nat (97 + (if a then 8 else 0) + (if b then 4 else 0) + (if c then 2 else 0) + (if d then 1 else 0)).
Fixpoint enc (s : string) : string :=
  match s with
  | "" => ""
  | String (Ascii a b c d e f g h) s => String (nibble a b c d) (String (nibble e f g h) (enc s))
  end.
Definition bits (c : ascii) : bool * bool * bool * bool :=
  let n := (nat_of_ascii c - 97)%nat in (Nat.testbit n 3, Nat.testbit n 2, Nat.testbit n 1, Nat.testbit n 0).
Fixpoint dec (s : string) : string :=
  match s with
  | String x (String y s) =>
      let '(a, b, c, d) := bits x in let '(e, f, g, h) := bits y in String (Ascii a b c d e f g h) (dec s)
  | _ => ""
  end.

Lemma dec_enc s : dec (enc s) = s.
Proof.
  induction s as [|[a b c d e f g h] s IH]; [done|]. cbn [enc dec]. rewrite IH.
  by destruct a, b, c, d; cbn; destruct e, f, g, h.
Qed.

Lemma enc_colon s : Str.includesChar ":" (enc s) = false.
Proof.
  induction s as [|[a b c d e f g h] s IH]; [done|]. cbn [enc Str.includesChar]. rewrite IH.
  destruct a, b, c, d; cbn; destruct e, f, g, h; reflexivity.
Qed.

Definition seal (k iv plain : string) : string * string := (String "k" (enc k), enc plain).
Definition unseal (k iv tag ct : string) : outcome string :=
  if tag === String "k" (enc k) then Ok (dec ct) else Throw "bad tag".

Lemma secret_survives_rotation_witness :
  Cipher.decryptSecret unseal (Cipher.encryptSecret seal "iv" "s3cret:x" (Cipher.mkKey "old" "l" []))
    (Cipher.mkKey "new" "l" [("older", "l"); ("old", "l")]) = Ok "s3cret:x".
Proof.
  apply (Cipher.secret_survives_rotation seal unseal).
  - intros k iv plain. unfold unseal, seal. cbn [fst snd]. rewrite bool_decide_eq_true_2 by done. by rewrite dec_enc.
  - intros k k' iv plain Hk. exists "bad tag". unfold unseal, seal. cbn [fst snd].
    rewrite bool_decide_eq_false_2; [done|]. intros [= He]. apply Hk. by rewrite <- (dec_enc k), He, dec_enc.
  - intros k iv plain. cbn [seal fst snd]. split_and!; [|apply enc_colon|done].
    cbn [Str.includesChar]. rewrite enc_colon. reflexivity.
  - done.
  - reflexivity.
  - right. cbn. apply list_elem_of_further, list_elem_of_here.
Defined.
End ToyCipher.
