(* ===== verification/Keychain.v ===== *)
(** * The keychain

    [createKeychain] of [src/credentials/keychain.ts] over its three durable maps:
    credentials, grants, asks.  Sealing ([Credentials.Cipher]), hashing and JSON are
    parameters; [now()] and the random ids and nonces a call draws are arguments.  A
    [KeychainError] is [kerr status message]; any other error [Throw]s inside
    [tryDecrypt] are caught there.  A method runs to its end before the next one
    starts, except that using a grant is two steps, reading and claiming, with any
    other calls in between; concurrent refreshes of one connector token are not
    joined. *)

From Stdlib Require Import ZArith Lia Ascii.
From S2P Require Import Prelude Collections Scopes Turns DurableMap Credentials.
Open Scope Z_scope.

Inductive kres (A : Type) := kok (a : A) | kerr (status : Z) (message : string).
Arguments kok {A} a.
Arguments kerr {A} status message.

Inductive CredentialKind := k_env | k_file | k_broker.
#[global] Instance CredentialKind_eq_dec : EqDecision CredentialKind.
Proof. solve_decision. Defined.

Record CredentialInjection := mkInjection { header : option string; scheme : option string }.

Record BrokerDelivery := mkBrokerDelivery {
  b_name : string; b_delivery_env : bool;  (** [delivery === "env"] *)
  b_envKey : option string; b_injection : option CredentialInjection;
  b_allowedMethods : option (list string); b_allowedPathPrefixes : option (list string);
  b_enabled : bool; b_updatedBy : option string;
}.

Record CredentialRefresh := mkRefresh {
  refreshTokenEnc : option string; accountType : option string; clientRef : option string;
  grantedScopes : option (list string); refreshFailedAt : option Z; refreshError : option string; rf_orgId : option string;
}.

Module Credential.
Record t := mk {
  id : string; ownerId : string; orgId : option string; service : string; kind : CredentialKind;
  envKey : option string; target : option string; targets : option (list string); host : option string;
  accountLabel : option string; fields : option (list (string * bool)); broker : option BrokerDelivery;
  refresh : option CredentialRefresh; managed : bool; secretEnc : string; fingerprint : string;
  origin : option string; expiresAt : option Z; createdAt : Z; updatedAt : Z; username : option string;
}.
Definition withRefresh (c : t) (r : CredentialRefresh) (at_ : Z) : t :=
  mk (id c) (ownerId c) (orgId c) (service c) (kind c) (envKey c) (target c) (targets c) (host c) (accountLabel c)
    (fields c) (broker c) (Some r) (managed c) (secretEnc c) (fingerprint c) (origin c) (expiresAt c) (createdAt c) at_
    (username c).
End Credential.

Inductive GrantMode := once | standing.
#[global] Instance GrantMode_eq_dec : EqDecision GrantMode.
Proof. solve_decision. Defined.
Inductive GrantStatus := active | revoked | used.
#[global] Instance GrantStatus_eq_dec : EqDecision GrantStatus.
Proof. solve_decision. Defined.

Module Grant.
Record t := mk {
  id : string; credentialId : string; ownerId : string; orgId : option string; audienceScopeId : ScopeId;
  mode : GrantMode; purpose : string; status : GrantStatus; createdAt : Z; expiresAt : option Z;
  revokedAt : option Z; usedAt : option Z; usedBy : option string; askId : option string;
}.
Definition withRevoked (at_ : Z) (g : t) : t :=
  mk (id g) (credentialId g) (ownerId g) (orgId g) (audienceScopeId g) (mode g) (purpose g) revoked (createdAt g)
    (expiresAt g) (Some at_) (usedAt g) (usedBy g) (askId g).
Definition withUsed (at_ : Z) (by_ : string) (g : t) : t :=
  mk (id g) (credentialId g) (ownerId g) (orgId g) (audienceScopeId g) (mode g) (purpose g) used (createdAt g)
    (expiresAt g) (revokedAt g) (Some at_) (Some by_) (askId g).
Definition withAsk (a : string) (g : t) : t :=
  mk (id g) (credentialId g) (ownerId g) (orgId g) (audienceScopeId g) (mode g) (purpose g) (status g) (createdAt g)
    (expiresAt g) (revokedAt g) (usedAt g) (usedBy g) (Some a).
End Grant.

Inductive AskStatus := ask_pending | ask_approved | ask_declined | ask_expired.
#[global] Instance AskStatus_eq_dec : EqDecision AskStatus.
Proof. solve_decision. Defined.

Module Ask.
Record t := mk {
  id : string; credentialId : string; ownerId : string; requesterId : string; orgId : option string;
  requesterScopeId : ScopeId; requesterDestination : option Destination.t; requesterThreadRef : option string;
  purpose : string; requestedMode : option GrantMode; status : AskStatus; createdAt : Z; expiresAt : Z;
  resolvedAt : option Z; grantId : option string; note : option string; notifiedAt : option Z;
}.
(** [{ ...ask, status, resolvedAt, grantId?, note?, notifiedAt? }] *)
Definition resolve (st : AskStatus) (at_ : Z) (g n : option string) (notified : option Z) (a : t) : t :=
  mk (id a) (credentialId a) (ownerId a) (requesterId a) (orgId a) (requesterScopeId a) (requesterDestination a)
    (requesterThreadRef a) (purpose a) (requestedMode a) st (createdAt a) (expiresAt a) (Some at_)
    (match g with Some _ => g | None => grantId a end) (match n with Some _ => n | None => note a end)
    (match notified with Some _ => notified | None => notifiedAt a end).
Definition withNotified (at_ : Z) (a : t) : t :=
  mk (id a) (credentialId a) (ownerId a) (requesterId a) (orgId a) (requesterScopeId a) (requesterDestination a)
    (requesterThreadRef a) (purpose a) (requestedMode a) (status a) (createdAt a) (expiresAt a) (resolvedAt a)
    (grantId a) (note a) (Some at_).
End Ask.

Definition ASK_TTL_MS : Z := 24 * 60 * 60000.
Definition ASK_PRUNE_AFTER_MS : Z := 14 * 24 * 60 * 60000.

Record ServiceCredentialInput := mkServiceInput {
  si_slug : string; si_name : string; si_secret : option string; si_delivery_env : bool; si_envKey : option string;
  si_host : string; si_injection : option CredentialInjection; si_allowedMethods : option (list string);
  si_allowedPathPrefixes : option (list string); si_enabled : option bool; si_updatedBy : option string;
}.

Record PublicServiceCredential := mkPublic {
  ps_slug : string; ps_name : string; ps_delivery_env : bool; ps_envKey : option string; ps_host : string;
  ps_injection : option CredentialInjection; ps_allowedMethods : option (list string);
  ps_allowedPathPrefixes : option (list string); ps_enabled : bool; ps_hasSecret : bool;
  ps_updatedBy : option string; ps_updatedAt : Z;
}.

Definition isValidCredentialSlug (slug : string) : bool :=
  match slug with
  | "" => false
  | String c s => (isLower c || isDigit c) && (String.length s <=? 62)%nat
                  && allChars (fun c => isLower c || isDigit c || (c === "-"%char)) s
  end.

Definition isValidServiceCredentialEnvKey (k : string) : bool :=
  match k with
  | "" => false
  | String c s => isUpper c && allChars (fun c => isUpper c || isDigit c || (c === "_"%char)) s
  end && negb (Str.startsWith k "AGENT_").

Record OAuthToken := mkToken {
  accessToken : string; refreshToken : option string; tk_expiresAt : option Z; tk_grantedScopes : option (list string);
  tk_clientRef : option string; tk_accountType : option string; tk_orgId : option string;
}.

Record SaveCredentialInput := mkSave {
  s_ownerId : string; s_service : string; s_secret : option string; s_envKey : option string;
  s_fields : option (list (string * string * option bool)); s_target : option string;
  s_files : option (list (string * string)); s_host : option string; s_accountLabel : option string;
  s_origin : option string; s_expiresAt : option Z;
}.

Record CreateGrantInput := mkGrantInput {
  gi_credentialId : string; gi_ownerId : string; gi_audienceScopeId : ScopeId; gi_mode : GrantMode;
  gi_purpose : string; gi_expiresAt : option Z; gi_askId : option string;
}.

Record CreateAskInput := mkAskInput {
  ai_credentialId : string; ai_requesterId : string; ai_requesterScopeId : ScopeId;
  ai_requesterDestination : option Destination.t; ai_requesterThreadRef : option string; ai_purpose : string;
  ai_requestedMode : option GrantMode; ai_expiresAt : option Z;
}.

Module Materialized.
Record t := mk {
  credentialId : string; ownerId : string; service : string; payload : UseScript.MaterializedCred;
  origin : option string; grantId : option string; purpose : option string;
}.
End Materialized.

Definition askStatusName (s : AskStatus) : string :=
  match s with
  | ask_pending => "pending" | ask_approved => "approved" | ask_declined => "declined" | ask_expired => "expired"
  end.

(** The suffix of a password variable that its user name's variable does not have. *)
Definition legacySuffixes : list string := ["_PASSWORD"; "_PASS"; "_TOKEN"; "_SECRET"; "_API_KEY"; "_KEY"].
Definition legacyUsernameEnvKey (passwordEnvKey : string) : string :=
  let base := match List.find (fun suf => Str.endsWith (toUpperCase passwordEnvKey) suf) legacySuffixes with
              | Some suf => Str.take (String.length passwordEnvKey - String.length suf) passwordEnvKey
              | None => passwordEnvKey
              end in
  (if Str.truthy base then base else passwordEnvKey) +:+ "_USERNAME".

Definition expired (expiresAt : option Z) (now : Z) : bool :=
  match expiresAt with Some e => e <? now | None => false end.
Definition credExpired (c : Credential.t) (now : Z) : bool :=
  (Credential.kind c !== k_file) && expired (Credential.expiresAt c) now.

Section keychain.
Context {M : Type -> Type} `{DurableMapLaws M}.
Variable hashId : list string -> nat -> string.
Variable configOrgId : string.
(** Sealing under the keychain's key, with the nonce; opening what is sealed. *)
Variable encrypt : string -> string -> string.
Variable decrypt : string -> outcome string.
Variable jsonStringify : json -> string.
Variable jsonParse : string -> outcome json.
Variable base64 : string -> string.
(** [deps.refreshConnector], when there is one. *)
Variable refreshConnector : option (string -> OAuthToken -> option string -> option string -> outcome OAuthToken).
Variables oauthSkew oauthRefreshMargin : Z.

Record KC := mkKC { creds : M Credential.t; grants : M Grant.t; asks : M Ask.t }.
Definition withCreds (k : KC) c : KC := mkKC c (grants k) (asks k).
Definition withGrants (k : KC) g : KC := mkKC (creds k) g (asks k).
Definition withAsks (k : KC) a : KC := mkKC (creds k) (grants k) a.
Implicit Types k : KC.

Definition HASH_LEN : nat := 16.
Definition fingerprintOf (secret : string) : string := hashId [secret] HASH_LEN.
Definition credId (ownerId service slot : string) : string := hashId [ownerId; service; slot] HASH_LEN.

Definition keychainFilePath (path : string) : kres string :=
  match homeRelativePath path with
  | Ok p => kok p
  | Throw _ => kerr 400 ("file path must be home-relative: " +:+ path)
  end.

Definition getOwned (ownerId id : string) k : option Credential.t :=
  match dm_get id (creds k) with
  | Some rec => if samePerson (Some (Credential.ownerId rec)) (Some ownerId) then Some rec else None
  | None => None
  end.

(** *** Opening a credential *)
Definition fieldsJson (l : list (string * string)) : json := JObj (map (fun p => (p.1, JStr p.2)) l).
Definition filesJson (l : list (string * string)) : json :=
  JArr (map (fun f => JObj [("path", JStr f.1); ("contentBase64", JStr f.2)]) l).
Definition filesOf (j : json) : list (string * string) :=
  match json_arr j with
  | Some l => map (fun f => (default "" (json_str (json_field "path" f)), default "" (json_str (json_field "contentBase64" f)))) l
  | None => []
  end.

Definition decryptToEnv (rec : Credential.t) (grantId purpose : option string) : outcome Materialized.t :=
  let! raw := decrypt (Credential.secretEnc rec) in
  let! env := match Credential.fields rec with
              | Some fields =>
                  let! values := jsonParse raw in
                  Ok (map (fun f => (f.1, default "" (json_str (json_field f.1 values)))) fields)
              | None =>
                  let envKey := default (defaultEnvKey (Credential.service rec)) (Credential.envKey rec) in
                  Ok ((envKey, raw) :: match keepTruthy (Credential.username rec) with
                                       | Some u => [(legacyUsernameEnvKey envKey, u)]
                                       | None => []
                                       end)
              end in
  Ok (Materialized.mk (Credential.id rec) (Credential.ownerId rec) (Credential.service rec) (UseScript.env_cred env)
        None grantId purpose).

Definition decryptToFiles (rec : Credential.t) (grantId purpose : option string) : outcome Materialized.t :=
  let! raw := decrypt (Credential.secretEnc rec) in
  let! files := match Credential.targets rec with
                | Some _ => let! j := jsonParse raw in Ok (filesOf j)
                | None =>
                    match keychainFilePath (default "" (Credential.target rec)) with
                    | kok p => Ok [(p, base64 raw)]
                    | kerr _ e => Throw e
                    end
                end in
  Ok (Materialized.mk (Credential.id rec) (Credential.ownerId rec) (Credential.service rec) (UseScript.file_cred files)
        (keepTruthy (Credential.origin rec)) grantId purpose).

Definition tryDecrypt {T} (r : outcome T) : option T := match r with Ok a => Some a | Throw _ => None end.

Definition materializeDecrypted (cred : Credential.t) (grantId purpose : option string) : kres Materialized.t :=
  match tryDecrypt (if Credential.kind cred === k_file then decryptToFiles cred grantId purpose
                    else decryptToEnv cred grantId purpose) with
  | Some m => kok m
  | None => kerr 422 "credential does not decrypt under the current key"
  end.

(** *** Saving *)
(** The files a save names, if it names any. *)
Fixpoint keychainFiles (l : list (string * string)) : kres (list (string * string)) :=
  match l with
  | [] => kok []
  | f :: rest =>
      match keychainFilePath f.1 with
      | kerr s e => kerr s e
      | kok p => match keychainFiles rest with kok l => kok ((p, f.2) :: l) | kerr s e => kerr s e end
      end
  end.

Definition saveFiles (input : SaveCredentialInput) : kres (option (list (string * string))) :=
  match s_files input with
  | Some ((_ :: _) as l) => match keychainFiles l with kok l => kok (Some l) | kerr s e => kerr s e end
  | _ =>
      match keepTruthy (s_target input), keepTruthy (s_secret input) with
      | Some target, Some secret =>
          match keychainFilePath target with kok p => kok (Some [(p, base64 secret)]) | kerr s e => kerr s e end
      | _, _ => kok None
      end
  end.

Definition saveFields (files : bool) (input : SaveCredentialInput) : option (list (string * string * bool)) :=
  if files then None else
  match s_fields input with
  | Some ((_ :: _) as l) => Some (map (fun f => (Str.trim f.1.1, f.1.2, negb (f.2 === Some false))) l)
  | _ => None
  end.

Definition fieldsRefusal (fields : option (list (string * string * bool))) : option string :=
  match fields with
  | None => None
  | Some l =>
      if existsb (fun f => negb (envKeyOk f.1.1)) l
      then Some "each credential field needs a valid environment-variable envKey"
      else if existsb (fun f => negb (Str.truthy f.1.2) || negb (Str.truthy (Str.trim f.1.2))) l
      then Some "each credential field needs a value"
      else if negb (bool_decide (NoDup (map (fun f => f.1.1) l)))
      then Some "credential field envKeys must be unique"
      else None
  end.

Definition saveSecret (files : option (list (string * string))) (fields : option (list (string * string * bool)))
    (input : SaveCredentialInput) : option string :=
  match files, fields with
  | Some l, _ => Some (jsonStringify (filesJson l))
  | None, Some l => Some (jsonStringify (fieldsJson (map fst l)))
  | None, None => s_secret input
  end.

Definition save (input : SaveCredentialInput) (iv : string) (t : Z) k : kres (Credential.t * KC) :=
  let service := Str.toLowerCase (Str.trim (s_service input)) in
  if negb (Str.truthy service) then kerr 400 "service required" else
  match saveFiles input with
  | kerr s e => kerr s e
  | kok files =>
      let isFile := match files with Some _ => true | None => false end in
      let fields := saveFields isFile input in
      match fieldsRefusal fields with
      | Some e => kerr 400 e
      | None =>
          match saveSecret files fields input with
          | None => kerr 400 "empty secret"
          | Some secret =>
              if negb (Str.truthy secret) || negb (Str.truthy (Str.trim secret)) then kerr 400 "empty secret" else
              let envKey := match files, fields with
                            | None, None => Some (default (defaultEnvKey service) (keepTruthy (Str.trim <$> s_envKey input)))
                            | _, _ => None
                            end in
              if match envKey with Some e => Str.truthy e && negb (envKeyOk e) | None => false end
              then kerr 400 "envKey must be a valid environment-variable name"
              else
                let slot := if isFile then "file" else
                            match fields with
                            | Some l => "env:" +:+ Str.join "," (Arr.sort Str.leb (map (fun f => f.1.1) l))
                            | None => "env:" +:+ default "undefined" envKey
                            end in
                let id := credId (s_ownerId input) service slot in
                let prior := dm_get id (creds k) in
                let rec := Credential.mk id (s_ownerId input) (Some configOrgId) service
                  (if isFile then k_file else k_env) (keepTruthy envKey) None (map fst <$> files)
                  (keepTruthy (s_host input)) (keepTruthy (s_accountLabel input))
                  (map (fun f : string * string * bool => (f.1.1, f.2)) <$> fields) None None false
                  (encrypt iv secret) (fingerprintOf secret) (keepTruthy (s_origin input)) (s_expiresAt input)
                  (match prior with Some p => Credential.createdAt p | None => t end) t None in
                kok (rec, withCreds k (dm_put id rec (creds k)))
          end
      end
  end.

Definition isPersonal (c : Credential.t) : bool := negb (Credential.managed c) && (Credential.kind c !== k_broker).

Definition listByOwner (ownerId : string) k : list Credential.t :=
  List.filter (fun c => samePerson (Some (Credential.ownerId c)) (Some ownerId) && isPersonal c) (dm_all (creds k)).

(** *** Removing *)
Fixpoint revokeAll (id : string) (t : Z) (l : list Grant.t) (m : M Grant.t) : M Grant.t :=
  match l with
  | [] => m
  | g :: l =>
      revokeAll id t l
        (if (Grant.credentialId g === id) && (Grant.status g === active)
         then (dm_update (Grant.id g) (Grant.withRevoked t) m).2 else m)
  end.

Definition deleteCredential (id : string) (t : Z) k : KC :=
  mkKC (dm_delete id (creds k)) (revokeAll id t (dm_all (grants k)) (grants k)) (asks k).

Definition remove (ownerId id : string) (t : Z) k : bool * KC :=
  match getOwned ownerId id k with
  | None => (false, k)
  | Some rec => if isPersonal rec then (true, deleteCredential id t k) else (false, k)
  end.

(** *** Grants *)
Definition mintGrant (input : CreateGrantInput) (t : Z) k : kres (Grant.t * KC) :=
  match dm_get (gi_credentialId input) (creds k) with
  | None => kerr 404 "unknown credential"
  | Some cred =>
      if Credential.kind cred === k_broker
      then kerr 400 "broker credentials are org-owned and used via the credential broker, not grants"
      else if negb (samePerson (Some (Credential.ownerId cred)) (Some (gi_ownerId input)))
      then kerr 403 "only the credential's owner can grant it — and only on a turn the owner themself sent"
      else
        let purpose := Str.trim (gi_purpose input) in
        if negb (Str.truthy purpose) then kerr 400 "purpose required — record the owner's approval verbatim"
        else if negb (Credential.managed cred) && credExpired cred t then kerr 410 "credential is expired"
        else
          let id := hashId [Credential.id cred; gi_audienceScopeId input; Str.showZ t; purpose] HASH_LEN in
          let grant := Grant.mk id (Credential.id cred) (Credential.ownerId cred) (Credential.orgId cred)
            (gi_audienceScopeId input) (gi_mode input) purpose active t (gi_expiresAt input) None None None
            (keepTruthy (gi_askId input)) in
          kok (grant, withGrants k (dm_put id grant (grants k)))
  end.

Definition oauthSlot (accountType : option string) : string :=
  "oauth:" +:+ match keepTruthy accountType with Some a => if a !== "default" then a else "" | None => "" end.
Definition oauthId (host principalId : string) (accountType : option string) : string :=
  credId principalId (Str.toLowerCase host) (oauthSlot accountType).

Definition grantConnectorToScope (host principalId : string) (accountType : option string) (audience : ScopeId)
    (purpose : string) (t : Z) k : kres (option Grant.t * KC) :=
  let id := oauthId host principalId accountType in
  match dm_get id (creds k) with
  | None => kok (None, k)
  | Some _ =>
      match List.find (fun g => (Grant.credentialId g === id) && (Grant.audienceScopeId g === audience)
                                && (Grant.mode g === standing) && (Grant.status g === active)) (dm_all (grants k)) with
      | Some g => kok (Some g, k)
      | None =>
          match mintGrant (mkGrantInput id principalId audience standing purpose None None) t k with
          | kok (g, k) => kok (Some g, k)
          | kerr s e => kerr s e
          end
      end
  end.

Definition revokeGrant (ownerId grantId : string) (t : Z) k : bool * KC :=
  match dm_get grantId (grants k) with
  | None => (false, k)
  | Some g =>
      if negb (samePerson (Some (Grant.ownerId g)) (Some ownerId)) then (false, k) else
      (true, if Grant.status g === active
             then withGrants k (dm_update grantId (Grant.withRevoked t) (grants k)).2 else k)
  end.

Definition usable (scopeId : ScopeId) (t : Z) (g : Grant.t) : bool :=
  (Grant.audienceScopeId g === scopeId) && (Grant.status g === active) && negb (expired (Grant.expiresAt g) t).
Definition activeGrantsFor (scopeId : ScopeId) (t : Z) k : list Grant.t :=
  List.filter (usable scopeId t) (dm_all (grants k)).

Definition grantsForScope (scopeId : ScopeId) (t : Z) k : list (Grant.t * Credential.t) :=
  omap (fun g => match dm_get (Grant.credentialId g) (creds k) with
                 | Some c => if Credential.managed c || negb (credExpired c t) then Some (g, c) else None
                 | None => None
                 end) (activeGrantsFor scopeId t k).

(** *** Asks *)
Definition freshAsk (rec : Ask.t) (t : Z) (m : M Ask.t) : Ask.t * M Ask.t :=
  if (Ask.status rec !== ask_pending) || (t <=? Ask.expiresAt rec) then (rec, m)
  else (Ask.resolve ask_expired t None None None rec,
        (dm_update (Ask.id rec) (Ask.resolve ask_expired t None None None) m).2).

(** The ask that is already pending for the credential in the conversation; the
    asks before it are brought up to date. *)
Fixpoint findPending (l : list Ask.t) (credentialId : string) (scope : ScopeId) (t : Z) (m : M Ask.t)
    : option Ask.t * M Ask.t :=
  match l with
  | [] => (None, m)
  | rec :: l =>
      let '(a, m) := freshAsk rec t m in
      if (Ask.status a === ask_pending) && (Ask.credentialId a === credentialId) && (Ask.requesterScopeId a === scope)
      then (Some a, m) else findPending l credentialId scope t m
  end.

Definition createAsk (input : CreateAskInput) (askId : string) (t : Z) k : kres (Ask.t * bool * KC) :=
  let purpose := Str.trim (ai_purpose input) in
  if negb (Str.truthy purpose) then kerr 400 "purpose required — record the requester's words verbatim" else
  match dm_get (ai_credentialId input) (creds k) with
  | None => kerr 404 "unknown credential"
  | Some cred =>
      if Credential.kind cred === k_broker then kerr 404 "unknown credential"
      else if negb (Credential.managed cred) && credExpired cred t
      then kerr 410 "credential is expired — its owner must re-auth before it can be asked for"
      else if samePerson (Some (Credential.ownerId cred)) (Some (ai_requesterId input))
      then kerr 400 "you own this credential — grant it directly instead of asking yourself"
      else
        match findPending (dm_all (asks k)) (Credential.id cred) (ai_requesterScopeId input) t (asks k) with
        | (Some a, m) => kok (a, true, withAsks k m)
        | (None, m) =>
            let ask := Ask.mk askId (Credential.id cred) (Credential.ownerId cred) (ai_requesterId input)
              (Some configOrgId) (ai_requesterScopeId input) (ai_requesterDestination input)
              (keepTruthy (ai_requesterThreadRef input)) purpose (ai_requestedMode input) ask_pending t
              (default (t + ASK_TTL_MS) (ai_expiresAt input)) None None None None in
            kok (ask, false, withAsks k (dm_put askId ask m))
        end
  end.

Definition getAsk (id : string) (t : Z) k : option Ask.t * KC :=
  match dm_get id (asks k) with
  | None => (None, k)
  | Some rec => let '(a, m) := freshAsk rec t (asks k) in (Some a, withAsks k m)
  end.

(** The ask as it is now, when it waits for an answer. *)
Definition pendingAsk (rec : Ask.t) (t : Z) k : kres Ask.t * KC :=
  let '(ask, m) := freshAsk rec t (asks k) in
  (if Ask.status ask !== ask_pending then kerr 410 ("ask already " +:+ askStatusName (Ask.status ask)) else kok ask,
   withAsks k m).

Definition approveAsk (askId ownerId : string) (mode : GrantMode) (purpose : string) (expiresAt : option Z) (t : Z) k
    : kres (Ask.t * Grant.t) * KC :=
  match dm_get askId (asks k) with
  | None => (kerr 404 "unknown ask", k)
  | Some rec =>
      match pendingAsk rec t k with
      | (kerr s e, k) => (kerr s e, k)
      | (kok ask, k) =>
          match mintGrant (mkGrantInput (Ask.credentialId ask) ownerId (Ask.requesterScopeId ask) mode purpose expiresAt
                             (Some (Ask.id ask))) t k with
          | kerr s e => (kerr s e, k)
          | kok (grant, k) =>
              let patch := Ask.resolve ask_approved t (Some (Grant.id grant)) None None in
              (kok (patch ask, grant), withAsks k (dm_update (Ask.id ask) patch (asks k)).2)
          end
      end
  end.

Definition declineAsk (askId ownerId : string) (note : option string) (t : Z) k : kres Ask.t * KC :=
  match dm_get askId (asks k) with
  | None => (kerr 404 "unknown ask", k)
  | Some rec =>
      if negb (samePerson (Some (Ask.ownerId rec)) (Some ownerId))
      then (kerr 403 "only the credential's owner can decline an ask", k)
      else
        match pendingAsk rec t k with
        | (kerr s e, k) => (kerr s e, k)
        | (kok ask, k) =>
            let patch := Ask.resolve ask_declined t None (keepTruthy (Str.trim <$> note)) None in
            (kok (patch ask), withAsks k (dm_update (Ask.id ask) patch (asks k)).2)
        end
  end.

(** Every ask brought up to date; the resolved ones nobody was told of; the old
    ones deleted. *)
Fixpoint sweepAsks (l : list Ask.t) (t : Z) (m : M Ask.t) : list Ask.t * M Ask.t :=
  match l with
  | [] => ([], m)
  | rec :: l =>
      let '(a, m) := freshAsk rec t m in
      if Ask.status a === ask_pending then sweepAsks l t m else
      match Ask.notifiedAt a with
      | None => let '(out, m) := sweepAsks l t m in (a :: out, m)
      | Some n => sweepAsks l t (if n <? t - ASK_PRUNE_AFTER_MS then dm_delete (Ask.id a) m else m)
      end
  end.
Definition unnotifiedResolvedAsks (t : Z) k : list Ask.t * KC :=
  let '(out, m) := sweepAsks (dm_all (asks k)) t (asks k) in (out, withAsks k m).

Definition markAskNotified (id : string) (t : Z) k : KC :=
  withAsks k (dm_update id (Ask.withNotified t) (asks k)).2.

Fixpoint adoptAsks (l : list Ask.t) (grant : Grant.t) (t : Z) k : list Ask.t * KC :=
  match l with
  | [] => ([], k)
  | rec :: l =>
      let '(a, m) := freshAsk rec t (asks k) in
      if (Ask.status a !== ask_pending) || (Ask.credentialId a !== Grant.credentialId grant)
         || (Ask.requesterScopeId a !== Grant.audienceScopeId grant)
      then adoptAsks l grant t (withAsks k m)
      else
        let patch := Ask.resolve ask_approved t (Some (Grant.id grant)) None (Some t) in
        let k := mkKC (creds k) (dm_update (Grant.id grant) (Grant.withAsk (Ask.id a)) (grants k)).2
                   (dm_update (Ask.id a) patch m).2 in
        let '(out, k) := adoptAsks l grant t k in (patch a :: out, k)
  end.
Definition resolveAsksForGrant (grant : Grant.t) (t : Z) k : list Ask.t * KC := adoptAsks (dm_all (asks k)) grant t k.

Record AskListFilter := mkAskFilter { f_requesterId : option string; f_ownerId : option string; f_scope : option ScopeId }.

Definition askMatches (f : AskListFilter) (a : Ask.t) : bool :=
  match f_requesterId f with Some p => samePerson (Some (Ask.requesterId a)) (Some p) | None => true end
  && match f_ownerId f with Some p => samePerson (Some (Ask.ownerId a)) (Some p) | None => true end
  && match f_scope f with Some s => Ask.requesterScopeId a === s | None => true end.

Fixpoint freshAll (l : list Ask.t) (t : Z) (m : M Ask.t) : list Ask.t * M Ask.t :=
  match l with
  | [] => ([], m)
  | rec :: l => let '(a, m) := freshAsk rec t m in let '(out, m) := freshAll l t m in (a :: out, m)
  end.

Definition listAsks (f : AskListFilter) (t : Z) k : list Ask.t * KC :=
  let '(l, m) := freshAll (dm_all (asks k)) t (asks k) in
  (Arr.sort (Arr.by_key Ask.createdAt) (List.filter (askMatches f) l), withAsks k m).

(** *** Service credentials of an organisation *)
Definition brokerId (orgScopeId slug : string) : string := credId orgScopeId slug "broker".
Definition orgIdOf (orgScopeId : string) : string := stripPrefix "org:" orgScopeId.
Definition brokerRecord (orgScopeId slug : string) k : option Credential.t := dm_get (brokerId orgScopeId slug) (creds k).

Definition brokerOf (rec : Credential.t) : BrokerDelivery :=
  default (mkBrokerDelivery (Credential.service rec) false None None None None true None) (Credential.broker rec).

Definition brokerToPublic (rec : Credential.t) : PublicServiceCredential :=
  let b := brokerOf rec in
  mkPublic (Credential.service rec) (b_name b) (b_delivery_env b) (keepTruthy (b_envKey b))
    (default "" (Credential.host rec)) (b_injection b) (b_allowedMethods b) (b_allowedPathPrefixes b) (b_enabled b)
    (Str.truthy (Credential.secretEnc rec)) (keepTruthy (b_updatedBy b)) (Credential.updatedAt rec).

Definition serviceCredentialRecord (orgScopeId : string) (input : ServiceCredentialInput) (prior : option Credential.t)
    (iv : string) (now : Z) : outcome Credential.t :=
  let trimmedSecret := keepTruthy (Str.trim <$> si_secret input) in
  let t := Z.max now (match prior with Some p => Credential.updatedAt p | None => 0 end + 1) in
  let envKey := keepTruthy (si_envKey input) in
  let! _ := if si_delivery_env input then
              match envKey with
              | Some e => if isValidServiceCredentialEnvKey e then Ok tt else Throw "needs an UPPER_SNAKE_CASE envKey"
              | None => Throw "needs an UPPER_SNAKE_CASE envKey"
              end
            else match envKey with Some _ => Throw "must not carry an envKey" | None => Ok tt end in
  Ok (Credential.mk (brokerId orgScopeId (si_slug input)) orgScopeId (Some (orgIdOf orgScopeId)) (si_slug input)
        k_broker None None None (Some (si_host input)) None None
        (Some (mkBrokerDelivery (si_name input) (si_delivery_env input)
                 (if si_delivery_env input then si_envKey input else None) (si_injection input)
                 (map toUpperCase <$> si_allowedMethods input) (si_allowedPathPrefixes input)
                 (negb (si_enabled input === Some false)) (keepTruthy (si_updatedBy input))))
        None false
        (match trimmedSecret with
         | Some s => encrypt iv s
         | None => match prior with Some p => Credential.secretEnc p | None => "" end end)
        (match trimmedSecret with
         | Some s => fingerprintOf s
         | None => match prior with Some p => Credential.fingerprint p | None => "" end end)
        None None (match prior with Some p => Credential.createdAt p | None => t end) t None).

Definition setServiceCredential (org : string) (input : ServiceCredentialInput) (iv : string) (now : Z) k : outcome KC :=
  let! rec := serviceCredentialRecord org input (brokerRecord org (si_slug input) k) iv now in
  Ok (withCreds k (dm_put (Credential.id rec) rec (creds k))).

Definition setServiceCredentialIfAbsent (org : string) (input : ServiceCredentialInput) (iv : string) (now : Z) k
    : outcome (option Z * KC) :=
  let! rec := serviceCredentialRecord org input None iv now in
  let '(inserted, m) := dm_insertIfAbsent (Credential.id rec) rec (creds k) in
  Ok (if inserted then Some (Credential.updatedAt rec) else None, withCreds k m).

(** Whether a record is the one a caller has seen. *)
Definition isCurrent (org : string) (expectedUpdatedAt : Z) (prior : Credential.t) : bool :=
  (Credential.kind prior === k_broker) && (Credential.ownerId prior === org)
  && (Credential.updatedAt prior =? expectedUpdatedAt).

Definition setServiceCredentialIfCurrent (org : string) (input : ServiceCredentialInput) (expectedUpdatedAt : Z)
    (iv : string) (now : Z) k : outcome (option Z * KC) :=
  let id := brokerId org (si_slug input) in
  match dm_get id (creds k) with
  | None => Ok (None, k)
  | Some prior =>
      if negb (isCurrent org expectedUpdatedAt prior) then Ok (None, k) else
      let! next := serviceCredentialRecord org input (Some prior) iv now in
      Ok (Some (Credential.updatedAt next), withCreds k (dm_put id next (creds k)))
  end.

Definition listServiceCredentials (org : string) k : list PublicServiceCredential :=
  map brokerToPublic
    (List.filter (fun c => (Credential.kind c === k_broker) && (Credential.ownerId c === org)) (dm_all (creds k))).

Definition deleteServiceCredential (org slug : string) k : KC := withCreds k (dm_delete (brokerId org slug) (creds k)).

Definition deleteServiceCredentialIfCurrent (org slug : string) (expectedUpdatedAt : Z) k : bool * KC :=
  let '(gone, m) := dm_deleteIf (brokerId org slug) (isCurrent org expectedUpdatedAt) (creds k) in (gone, withCreds k m).

Definition getServiceCredentialSecret (org slug : string) k : outcome (option (PublicServiceCredential * string)) :=
  match brokerRecord org slug k with
  | None => Ok None
  | Some rec =>
      if negb (Str.truthy (Credential.secretEnc rec)) then Ok None else
      let! secret := decrypt (Credential.secretEnc rec) in Ok (Some (brokerToPublic rec, secret))
  end.

(** *** Connector tokens *)
Definition putConnectorToken (host principalId : string) (token : OAuthToken) (account : option string)
    (iv iv' : string) (t : Z) k : Credential.t * KC :=
  let id := oauthId host principalId account in
  let prior := dm_get id (creds k) in
  let at_ := keepTruthy (match tk_accountType token with Some a => Some a | None => account end) in
  let rec := Credential.mk id principalId (Some (default configOrgId (tk_orgId token))) (Str.toLowerCase host) k_env None
    None None (Some (Str.toLowerCase host)) None None None
    (Some (mkRefresh (encrypt iv' <$> keepTruthy (refreshToken token)) at_ (keepTruthy (tk_clientRef token))
             (tk_grantedScopes token) None None (keepTruthy (tk_orgId token))))
    true (encrypt iv (accessToken token)) (fingerprintOf (accessToken token)) (Some "connector-oauth")
    (tk_expiresAt token) (match prior with Some p => Credential.createdAt p | None => t end) t None in
  (rec, withCreds k (dm_put id rec (creds k))).

Definition recToOAuthToken (rec : Credential.t) : outcome OAuthToken :=
  let! access := decrypt (Credential.secretEnc rec) in
  let r := Credential.refresh rec in
  let! refresh := match keepTruthy (r ≫= refreshTokenEnc) with
                  | Some e => let! t := decrypt e in Ok (Some t)
                  | None => Ok None
                  end in
  Ok (mkToken access refresh (Credential.expiresAt rec) (r ≫= grantedScopes) (keepTruthy (r ≫= clientRef))
        (keepTruthy (r ≫= accountType)) (keepTruthy (r ≫= rf_orgId))).

Definition storedRefreshError (e : string) : string :=
  let msg := Str.trim (Str.collapse false e) in
  if (500 <? String.length msg)%nat then Str.take 497 msg +:+ "..." else msg.

Definition markConnectorRefreshFailure (rec : Credential.t) (message : string) (t : Z) k : KC :=
  match dm_get (Credential.id rec) (creds k) with
  | None => k
  | Some current =>
      if negb (Credential.updatedAt current =? Credential.updatedAt rec)
         || (Credential.fingerprint current !== Credential.fingerprint rec)
      then k
      else
        let r := default (mkRefresh None None None None None None None) (Credential.refresh current) in
        let r := mkRefresh (refreshTokenEnc r) (accountType r) (clientRef r) (grantedScopes r) (Some t) (Some message)
                   (rf_orgId r) in
        withCreds k (dm_update (Credential.id rec) (fun c => Credential.withRefresh c r t) (creds k)).2
  end.

Definition orElse {A} (a b : option A) : option A := match a with Some _ => a | None => b end.

Definition refreshAndStore (host principalId : string) (account : option string) (rec : Credential.t)
    (iv iv' : string) (t : Z) k : option string * KC :=
  match refreshConnector, tryDecrypt (recToOAuthToken rec) with
  | Some refresh, Some stored =>
      let failed e := (None, markConnectorRefreshFailure rec (storedRefreshError e) t k) in
      match refresh host stored (tk_accountType stored) (tk_clientRef stored) with
      | Throw e => failed e
      | Ok fresh =>
          if negb (Str.truthy (accessToken fresh)) then failed "refresh returned an empty access token" else
          let merged := mkToken (accessToken fresh) (refreshToken fresh) (tk_expiresAt fresh) (tk_grantedScopes fresh)
            (orElse (tk_clientRef fresh) (tk_clientRef stored)) (orElse (tk_accountType fresh) (tk_accountType stored))
            (orElse (tk_orgId fresh) (tk_orgId stored)) in
          (Some (accessToken merged), (putConnectorToken host principalId merged account iv iv' t k).2)
      end
  | _, _ => (None, k)
  end.

Definition oauthExpired (rec : Credential.t) (t : Z) : bool :=
  match Credential.expiresAt rec with Some e => e - oauthSkew <=? t | None => false end.

Definition isSomeR {A} (o : option A) : bool := match o with Some _ => true | None => false end.

(** The host a record can be refreshed at. *)
Definition refreshable (rec : Credential.t) : option string :=
  if isSomeR (keepTruthy (Credential.refresh rec ≫= refreshTokenEnc)) && isSomeR refreshConnector
  then keepTruthy (Credential.host rec) else None.

Definition connectorTokenForRecord (rec : Credential.t) (iv iv' : string) (t : Z) k : option string * KC :=
  let due := match Credential.expiresAt rec with Some e => e - oauthRefreshMargin <=? t | None => false end in
  match refreshable rec with
  | Some host =>
      if due then refreshAndStore host (Credential.ownerId rec) (Credential.refresh rec ≫= accountType) rec iv iv' t k
      else (tryDecrypt (decrypt (Credential.secretEnc rec)), k)
  | None => if oauthExpired rec t then (None, k) else (tryDecrypt (decrypt (Credential.secretEnc rec)), k)
  end.

Definition setConnectorToken (host principalId : string) (token : OAuthToken) (account : option string) (iv iv' : string)
    (t : Z) k : KC := (putConnectorToken host principalId token account iv iv' t k).2.
Definition deleteConnectorToken (host principalId : string) (account : option string) (t : Z) k : KC :=
  deleteCredential (oauthId host principalId account) t k.
Definition connectorAccessToken (host principalId : string) (account : option string) (iv iv' : string) (t : Z) k
    : option string * KC :=
  match dm_get (oauthId host principalId account) (creds k) with
  | None => (None, k)
  | Some rec => connectorTokenForRecord rec iv iv' t k
  end.

Record OAuthTokenStatus := mkTokenStatus {
  connected : bool; ts_expiresAt : option Z; hasRefreshToken : bool; needsReconnect : bool;
  ts_refreshFailedAt : option Z; ts_refreshError : option string; ts_accountType : option string;
  ts_grantedScopes : option (list string);
}.

Definition hasRefresh (rec : Credential.t) : bool := isSomeR (keepTruthy (Credential.refresh rec ≫= refreshTokenEnc)).
Definition refreshFailed (rec : Credential.t) : option Z := Credential.refresh rec ≫= refreshFailedAt.
Definition mustReconnect (rec : Credential.t) (t : Z) : bool :=
  oauthExpired rec t && (negb (hasRefresh rec) || isSomeR (refreshFailed rec)).

Definition connectorTokenStatus (host principalId : string) (account : option string) (t : Z) k : OAuthTokenStatus :=
  match dm_get (oauthId host principalId account) (creds k) with
  | None => mkTokenStatus false None false false None None None None
  | Some rec =>
      mkTokenStatus true (Credential.expiresAt rec) (hasRefresh rec) (mustReconnect rec t) (refreshFailed rec)
        (if isSomeR (refreshFailed rec) then keepTruthy (Credential.refresh rec ≫= refreshError) else None)
        (keepTruthy (Credential.refresh rec ≫= accountType)) (Credential.refresh rec ≫= grantedScopes)
  end.

Record ConnectorMeta := mkConnectorMeta {
  cm_credentialId : string; cm_ownerId : string; cm_host : string; cm_accountType : option string;
  cm_expiresAt : option Z; cm_needsReconnect : bool;
}.
Definition connectorMeta (rec : Credential.t) (t : Z) : ConnectorMeta :=
  mkConnectorMeta (Credential.id rec) (Credential.ownerId rec) (default (Credential.service rec) (Credential.host rec))
    (keepTruthy (Credential.refresh rec ≫= accountType)) (Credential.expiresAt rec) (mustReconnect rec t).

(** *** Listings *)
Definition listAllMetadata k : list Credential.t := List.filter isPersonal (dm_all (creds k)).

(** The items of each person asked for, under the id they were asked for by (the
    last one, of two spellings of one person). *)
Definition bucketByOwner {T} (l : list Credential.t) (ownerIds : list string) (include : Credential.t -> bool)
    (item : Credential.t -> T) : jmap string (list T) :=
  let byKey := foldl (fun m id => JMap.set m (personKey (Some id)) id) [] ownerIds in
  foldl (fun out c =>
           if negb (include c) then out else
           match JMap.get byKey (personKey (Some (Credential.ownerId c))) with
           | None => out
           | Some owner => JMap.set out owner (default [] (JMap.get out owner) ++ [item c])
           end) [] l.
Definition listByOwners (ownerIds : list string) k : jmap string (list Credential.t) :=
  bucketByOwner (dm_all (creds k)) ownerIds isPersonal (fun c => c).
Definition listConnectorsByOwners (ownerIds : list string) (t : Z) k : jmap string (list ConnectorMeta) :=
  bucketByOwner (dm_all (creds k)) ownerIds Credential.managed (fun c => connectorMeta c t).

Definition listGrants (owner : option string) (audience : option ScopeId) k : list Grant.t :=
  List.filter (fun g => match owner with Some o => samePerson (Some (Grant.ownerId g)) (Some o) | None => true end
                        && match audience with Some a => Grant.audienceScopeId g === a | None => true end)
    (dm_all (grants k)).

(** *** Use *)
Definition materializeConnectorEnv (cred : Credential.t) (grantId purpose : option string) (iv iv' : string) (t : Z) k
    : kres Materialized.t * KC :=
  match keepTruthy (Credential.host cred) with
  | None => (kerr 410 "connector token expired and could not be refreshed — its owner must reconnect the app", k)
  | Some host =>
      let '(value, k) := connectorTokenForRecord cred iv iv' t k in
      match keepTruthy value with
      | None => (kerr 410 "connector token expired and could not be refreshed — its owner must reconnect the app", k)
      | Some v => (kok (Materialized.mk (Credential.id cred) (Credential.ownerId cred) (Credential.service cred)
                          (UseScript.env_cred [(envKey hashId host None, v)]) None grantId purpose), k)
      end
  end.

(** Why a grant may not be used in a conversation. *)
Definition grantRefusal (g : Grant.t) (scopeId : ScopeId) (t : Z) : option (Z * string) :=
  if Grant.audienceScopeId g !== scopeId then Some (403, "grant is for a different conversation")
  else if Grant.status g === revoked then Some (410, "grant was revoked")
  else if Grant.status g === used then Some (410, "one-time grant already used")
  else if expired (Grant.expiresAt g) t then Some (410, "grant is expired")
  else None.

Definition claimOnceGrant (grant : Grant.t) (scopeId : ScopeId) (usedBy : string) (t : Z) k : kres unit * KC :=
  if Grant.mode grant !== once then (kok tt, k) else
  match dm_get (Grant.id grant) (grants k) with
  | None => (kerr 404 "unknown grant", k)
  | Some current =>
      match grantRefusal current scopeId t with
      | Some (s, e) => (kerr s e, k)
      | None => (kok tt, withGrants k (dm_update (Grant.id grant) (Grant.withUsed t usedBy) (grants k)).2)
      end
  end.

(** [materialize] up to the claim. *)
Definition readGrant (grantId : string) (scopeId : ScopeId) (iv iv' : string) (t : Z) k
    : kres (Grant.t * Materialized.t) * KC :=
  match dm_get grantId (grants k) with
  | None => (kerr 404 "unknown grant", k)
  | Some grant =>
      match grantRefusal grant scopeId t with
      | Some (s, e) => (kerr s e, k)
      | None =>
          match dm_get (Grant.credentialId grant) (creds k) with
          | None => (kerr 404 "credential no longer exists", k)
          | Some cred =>
              if Credential.kind cred === k_broker
              then (kerr 403 "broker credentials are not grantable — they are used via the credential broker", k)
              else
                let g := Some (Grant.id grant) in
                let p := Some (Grant.purpose grant) in
                let '(m, k) := if Credential.managed cred then materializeConnectorEnv cred g p iv iv' t k
                               else if credExpired cred t then (kerr 410 "credential is expired", k)
                               else (materializeDecrypted cred g p, k) in
                (match m with kok m => kok (grant, m) | kerr s e => kerr s e end, k)
          end
      end
  end.

Definition materialize (grantId : string) (scopeId : ScopeId) (usedBy iv iv' : string) (t : Z) k
    : kres Materialized.t * KC :=
  match readGrant grantId scopeId iv iv' t k with
  | (kerr s e, k) => (kerr s e, k)
  | (kok (grant, m), k) =>
      match claimOnceGrant grant scopeId usedBy t k with
      | (kerr s e, k) => (kerr s e, k)
      | (kok _, k) => (kok m, k)
      end
  end.

Definition materializeOwnById (ownerId credentialId : string) (scopeId : ScopeId) (iv iv' : string) (t : Z) k
    : kres Materialized.t * KC :=
  if scopeId !== personalScope ownerId
  then (kerr 403 "a credential id loads only in its owner's own personal conversation — anywhere else needs a grant from the owner", k)
  else
    match dm_get credentialId (creds k) with
    | None => (kerr 404 "unknown credential", k)
    | Some cred =>
        if negb (samePerson (Some (Credential.ownerId cred)) (Some ownerId)) then (kerr 404 "unknown credential", k)
        else if Credential.kind cred === k_broker
        then (kerr 403 "broker credentials are used via the credential broker, never materialized", k)
        else if Credential.managed cred then materializeConnectorEnv cred None None iv iv' t k
        else if credExpired cred t then (kerr 410 "credential is expired", k)
        else (materializeDecrypted cred None None, k)
    end.

Definition materializeOwn (ownerId : string) (t : Z) k : list Materialized.t :=
  omap (fun c => tryDecrypt (decryptToEnv c None None))
    (List.filter (fun c => samePerson (Some (Credential.ownerId c)) (Some ownerId) && (Credential.kind c === k_env)
                           && negb (Credential.managed c) && negb (expired (Credential.expiresAt c) t)) (dm_all (creds k))).

Definition materializeOwnFiles (ownerId : string) k : list Materialized.t :=
  omap (fun c => tryDecrypt (decryptToFiles c None None))
    (List.filter (fun c => samePerson (Some (Credential.ownerId c)) (Some ownerId) && (Credential.kind c === k_file)
                           && negb (Credential.managed c)) (dm_all (creds k))).

Fixpoint standingFrom (l : list Grant.t) (iv iv' : string) (t : Z) k : list Materialized.t * KC :=
  match l with
  | [] => ([], k)
  | grant :: l =>
      let '(here, k) :=
        if Grant.mode grant !== standing then (None, k) else
        match dm_get (Grant.credentialId grant) (creds k) with
        | None => (None, k)
        | Some cred =>
            if Credential.kind cred !== k_env then (None, k)
            else if Credential.managed cred then
              match materializeConnectorEnv cred (Some (Grant.id grant)) (Some (Grant.purpose grant)) iv iv' t k with
              | (kok m, k) => (Some m, k)
              | (kerr _ _, k) => (None, k)
              end
            else if credExpired cred t then (None, k)
            else (tryDecrypt (decryptToEnv cred (Some (Grant.id grant)) (Some (Grant.purpose grant))), k)
        end in
      let '(out, k) := standingFrom l iv iv' t k in
      (match here with Some m => m :: out | None => out end, k)
  end.
Definition materializeStanding (scopeId : ScopeId) (iv iv' : string) (t : Z) k : list Materialized.t * KC :=
  standingFrom (activeGrantsFor scopeId t k) iv iv' t k.

(** ** What the calls do to credentials and grants *)

(** A credential is filed under an id made from its owner's. *)
Definition cred_ok (i : string) (c : Credential.t) : Prop :=
  Credential.id c = i /\ exists service slot, i = credId (Credential.ownerId c) service slot.
Definition creds_ok (m : M Credential.t) : Prop := forall i c, dm_get i m = Some c -> cred_ok i c.

(** What never changes of a grant. *)
Record core (g g' : Grant.t) : Prop := mkCore {
  core_id : Grant.id g' = Grant.id g;
  core_cred : Grant.credentialId g' = Grant.credentialId g;
  core_owner : Grant.ownerId g' = Grant.ownerId g;
  core_audience : Grant.audienceScopeId g' = Grant.audienceScopeId g;
  core_mode : Grant.mode g' = Grant.mode g;
}.
Lemma core_refl g : core g g. Proof. done. Qed.
Lemma core_trans g1 g2 g3 : core g1 g2 -> core g2 g3 -> core g1 g3.
Proof. intros [] []. split; congruence. Qed.

(** Nothing is added or removed, and no grant becomes active again. *)
Definition gle (m m' : M Grant.t) : Prop := forall i,
  match dm_get i m, dm_get i m' with
  | Some g, Some g' => core g g' /\ (Grant.status g' = active -> Grant.status g = active)
  | None, None => True
  | _, _ => False
  end.
Lemma gle_refl m : gle m m. Proof. intros i. by destruct (dm_get i m). Qed.
Lemma gle_trans m1 m2 m3 : gle m1 m2 -> gle m2 m3 -> gle m1 m3.
Proof.
  intros H1 H2 i. specialize (H1 i). specialize (H2 i).
  destruct (dm_get i m1), (dm_get i m2), (dm_get i m3); try done.
  destruct H1, H2. split; [by eapply core_trans|auto].
Qed.
Lemma gle_update i f m : (forall g, core g (f g) /\ (Grant.status (f g) = active -> Grant.status g = active)) ->
  gle m (dm_update i f m).2.
Proof.
  intros Hf j. rewrite dm_update_spec. destruct (dm_get i m) as [g|] eqn:E; cbn; [|by destruct (dm_get j m)].
  rewrite dm_get_put. destruct (decide (i = j)) as [<-|]; [by rewrite E|by destruct (dm_get j m)].
Qed.

Lemma creds_ok_put i c m : creds_ok m -> cred_ok i c -> creds_ok (dm_put i c m).
Proof. intros Hm Hc j d. rewrite dm_get_put. destruct (decide (i = j)) as [<-|]; [by intros [= <-]|apply Hm]. Qed.
Lemma creds_ok_delete i m : creds_ok m -> creds_ok (dm_delete i m).
Proof. intros Hm j d. rewrite dm_get_delete. destruct (decide (i = j)); [done|apply Hm]. Qed.

(** The step every call but the minting ones makes. *)
Definition keeps k k' : Prop := (creds_ok (creds k) -> creds_ok (creds k')) /\ gle (grants k) (grants k').
Lemma keeps_refl k : keeps k k. Proof. split; [done|apply gle_refl]. Qed.
Lemma keeps_asks k m : keeps k (withAsks k m). Proof. split; [done|apply gle_refl]. Qed.
Lemma keeps_put k i c : cred_ok i c -> keeps k (withCreds k (dm_put i c (creds k))).
Proof. intros Hc. split; [intros Hk; by apply creds_ok_put|apply gle_refl]. Qed.

Lemma revokeAll_gle id t l m : gle m (revokeAll id t l m).
Proof.
  revert m. induction l as [|g l IH]; intros m; cbn [revokeAll]; [apply gle_refl|].
  eapply gle_trans, IH. destruct (_ && _); [by apply gle_update|apply gle_refl].
Qed.

Lemma deleteCredential_keeps id t k : keeps k (deleteCredential id t k).
Proof. split; [intros Hk; by apply creds_ok_delete|apply revokeAll_gle]. Qed.

Lemma save_keeps input iv t k rec k' : save input iv t k = kok (rec, k') -> keeps k k'.
Proof.
  unfold save. destruct (negb _); [done|]. destruct (saveFiles input) as [files|]; [|done].
  destruct (fieldsRefusal _); [done|]. destruct (saveSecret _ _ _); [|done]. destruct (_ || _); [done|].
  destruct (match match files with Some _ => None | None => _ end with Some _ => _ | None => _ end); [done|].
  intros [= _ <-]. apply keeps_put. split; [done|]. cbn. by eexists _, _.
Qed.

Lemma adoptAsks_keeps l g t k : keeps k (adoptAsks l g t k).2.
Proof.
  revert k. induction l as [|rec l IH]; intros k; cbn [adoptAsks]; [apply keeps_refl|].
  destruct (freshAsk rec t (asks k)) as [a m]. destruct (_ || _); [exact (IH (withAsks k m))|].
  specialize (IH (mkKC (creds k) (dm_update (Grant.id g) (Grant.withAsk (Ask.id a)) (grants k)).2
    (dm_update (Ask.id a) (Ask.resolve ask_approved t (Some (Grant.id g)) None (Some t)) m).2)).
  destruct (adoptAsks l g t _) as [out k']. cbn in *. destruct IH as [IH1 IH2]. split; [done|].
  eapply gle_trans, IH2. by apply gle_update.
Qed.

Lemma serviceRecord_ok org input prior iv now rec : serviceCredentialRecord org input prior iv now = Ok rec ->
  cred_ok (brokerId org (si_slug input)) rec /\ Credential.id rec = brokerId org (si_slug input).
Proof.
  unfold serviceCredentialRecord. cbn zeta.
  destruct (if si_delivery_env input then _ else _) as [[]|e]; cbn [obind]; [|done].
  intros [= <-]. split; [|done]. split; [done|]. cbn. by eexists _, _.
Qed.

Lemma putConnector_keeps host p token account iv iv' t k :
  keeps k (putConnectorToken host p token account iv iv' t k).2.
Proof. apply keeps_put. split; [done|]. cbn. by eexists _, _. Qed.

Lemma connectorToken_keeps rec iv iv' t k : keeps k (connectorTokenForRecord rec iv iv' t k).2.
Proof.
  unfold connectorTokenForRecord. destruct (refreshable rec) as [host|]; [|destruct (oauthExpired rec t); apply keeps_refl].
  destruct (match Credential.expiresAt rec with Some _ => _ | None => _ end); [|apply keeps_refl].
  unfold refreshAndStore. destruct refreshConnector as [refresh|]; [|apply keeps_refl].
  destruct (tryDecrypt _) as [stored|]; [|apply keeps_refl].
  assert (forall e, keeps k (markConnectorRefreshFailure rec e t k)) as Hfail.
  { intros e. unfold markConnectorRefreshFailure. destruct (dm_get _ _) as [c|] eqn:Ec; [|apply keeps_refl].
    destruct (_ || _); [apply keeps_refl|]. split; [|apply gle_refl]. cbn [withCreds creds]. intros Hk.
    rewrite dm_update_spec, Ec. cbn. apply creds_ok_put; [done|]. apply (Hk _ _ Ec). }
  destruct (refresh _ _ _ _) as [fresh|e]; [|apply Hfail].
  destruct (negb _); [apply Hfail|]. apply putConnector_keeps.
Qed.

Lemma materializeConnector_spec cred g p iv iv' t k :
  let r := materializeConnectorEnv cred g p iv iv' t k in
  keeps k r.2 /\ match r.1 with
                | kok m => Materialized.credentialId m = Credential.id cred /\ Materialized.ownerId m = Credential.ownerId cred
                           /\ Materialized.grantId m = g
                | kerr _ _ => True
                end.
Proof.
  cbn zeta. unfold materializeConnectorEnv. destruct (keepTruthy (Credential.host cred)) as [host|];
    [|by split; [apply keeps_refl|]].
  pose proof (connectorToken_keeps cred iv iv' t k) as Hk. destruct (connectorTokenForRecord cred iv iv' t k) as [v k'].
  cbn in Hk. by destruct (keepTruthy v).
Qed.

(** A person's own secrets: the name they are filed under, or one of the same person. *)
Definition actsFor (ownerId personId : string) : Prop :=
  ownerId = personId \/ samePerson (Some ownerId) (Some personId) = true.

Lemma decryptToEnv_spec cred g p m : decryptToEnv cred g p = Ok m ->
  Materialized.credentialId m = Credential.id cred /\ Materialized.ownerId m = Credential.ownerId cred
  /\ Materialized.grantId m = g.
Proof.
  unfold decryptToEnv. destruct (decrypt _) as [raw|]; cbn [obind]; [|done].
  destruct (match Credential.fields cred with Some _ => _ | None => _ end) as [env|]; cbn [obind]; [|done].
  by intros [= <-].
Qed.

Lemma decryptToFiles_spec cred g p m : decryptToFiles cred g p = Ok m ->
  Materialized.credentialId m = Credential.id cred /\ Materialized.ownerId m = Credential.ownerId cred
  /\ Materialized.grantId m = g.
Proof.
  unfold decryptToFiles. destruct (decrypt _) as [raw|]; cbn [obind]; [|done].
  destruct (match Credential.targets cred with Some _ => _ | None => _ end) as [env|]; cbn [obind]; [|done].
  by intros [= <-].
Qed.

(** Whose credentials somebody's own are. *)
Lemma materializeOwn_owner p t k m : m ∈ materializeOwn p t k -> actsFor (Materialized.ownerId m) p.
Proof.
  intros (c & [Hc _]%Arr.elem_of_filter & Hm)%list_elem_of_omap. destruct (decryptToEnv c None None) as [m'|] eqn:E; [|done].
  injection Hm as ->. right. destruct (decryptToEnv_spec _ _ _ _ E) as (_ & -> & _). by rewrite !andb_true_iff in Hc; destruct Hc as [[[Hc _] _] _].
Qed.

Lemma materializeOwnFiles_owner p k m : m ∈ materializeOwnFiles p k -> actsFor (Materialized.ownerId m) p.
Proof.
  intros (c & [Hc _]%Arr.elem_of_filter & Hm)%list_elem_of_omap. destruct (decryptToFiles c None None) as [m'|] eqn:E; [|done].
  injection Hm as ->. right. destruct (decryptToFiles_spec _ _ _ _ E) as (_ & -> & _). by rewrite !andb_true_iff in Hc; destruct Hc as [[Hc _] _].
Qed.

Lemma materializeDecrypted_spec cred g p m : materializeDecrypted cred g p = kok m ->
  Materialized.credentialId m = Credential.id cred /\ Materialized.ownerId m = Credential.ownerId cred
  /\ Materialized.grantId m = g.
Proof.
  unfold materializeDecrypted. case_bool_decide.
  - destruct (decryptToFiles cred g p) as [m'|] eqn:E; cbn [tryDecrypt]; [|done]. intros [= <-]. by eapply decryptToFiles_spec.
  - destruct (decryptToEnv cred g p) as [m'|] eqn:E; cbn [tryDecrypt]; [|done]. intros [= <-]. by eapply decryptToEnv_spec.
Qed.

(** What a use says it loads is the credential it looked up. *)
Definition about_cred (cred : Credential.t) (g : option string) (m : Materialized.t) : Prop :=
  Materialized.credentialId m = Credential.id cred /\ Materialized.ownerId m = Credential.ownerId cred
  /\ Materialized.grantId m = g.

Lemma readGrant_spec gid scope iv iv' t k :
  let r := readGrant gid scope iv iv' t k in
  keeps k r.2 /\
  match r.1 with
  | kok (g, m) => dm_get gid (grants k) = Some g /\ grantRefusal g scope t = None
      /\ exists cred, dm_get (Grant.credentialId g) (creds k) = Some cred /\ about_cred cred (Some (Grant.id g)) m
  | kerr _ _ => True
  end.
Proof.
  cbn zeta. unfold readGrant. destruct (dm_get gid (grants k)) as [g|] eqn:Eg; [|by split; [apply keeps_refl|]].
  destruct (grantRefusal g scope t) as [[s e]|] eqn:Er; [by split; [apply keeps_refl|]|].
  destruct (dm_get (Grant.credentialId g) (creds k)) as [cred|] eqn:Ec; [|by split; [apply keeps_refl|]].
  case_bool_decide; [by split; [apply keeps_refl|]|].
  destruct (Credential.managed cred).
  - destruct (materializeConnector_spec cred (Some (Grant.id g)) (Some (Grant.purpose g)) iv iv' t k) as [Hk Hm].
    destruct (materializeConnectorEnv _ _ _ _ _ _ _) as [[m|s e] k']; cbn in *; [|done].
    split; [done|]. split_and!; [done|done|]. by exists cred.
  - destruct (credExpired cred t); [by split; [apply keeps_refl|]|].
    destruct (materializeDecrypted _ _ _) as [m|s e] eqn:Em; cbn; [|by split; [apply keeps_refl|]].
    split; [apply keeps_refl|]. split_and!; [done|done|]. exists cred. split; [done|].
    by eapply materializeDecrypted_spec.
Qed.

Lemma standingFrom_spec l iv iv' t k :
  creds_ok (creds k) ->
  let r := standingFrom l iv iv' t k in
  keeps k r.2 /\
  forall m, m ∈ r.1 -> exists g cred, g ∈ l /\ Grant.mode g = standing /\ cred_ok (Grant.credentialId g) cred
    /\ about_cred cred (Some (Grant.id g)) m.
Proof.
  cbn zeta. revert k. induction l as [|g l IH]; intros k Hk; cbn [standingFrom].
  { split; [apply keeps_refl|]. by intros m ?%elem_of_nil. }
  match goal with |- context [let '(a, b) := ?X in _] =>
    assert (keeps k X.2 /\ forall m, X.1 = Some m -> Grant.mode g = standing /\
      exists cred, cred_ok (Grant.credentialId g) cred /\ about_cred cred (Some (Grant.id g)) m) as [Hkeep Hhere];
    [|destruct X as [here k1]] end.
  { destruct (Grant.mode g !== standing) eqn:Em; [by split; [apply keeps_refl|]|]. js_bool.
    destruct (dm_get (Grant.credentialId g) (creds k)) as [cred|] eqn:Ec; [|by split; [apply keeps_refl|]].
    destruct (Credential.kind cred !== k_env); [by split; [apply keeps_refl|]|].
    destruct (Credential.managed cred).
    - destruct (materializeConnector_spec cred (Some (Grant.id g)) (Some (Grant.purpose g)) iv iv' t k) as [Hk1 Hm].
      destruct (materializeConnectorEnv _ _ _ _ _ _ _) as [[m|s e] k']; cbn in *; [|done].
      split; [done|]. intros m' [= <-]. split; [done|]. exists cred. split; [by apply Hk|done].
    - destruct (credExpired cred t); [by split; [apply keeps_refl|]|]. split; [apply keeps_refl|].
      intros m. cbn. destruct (decryptToEnv _ _ _) as [m'|] eqn:Ed; cbn; [|done]. intros [= <-].
      split; [done|]. exists cred. split; [by apply Hk|by eapply decryptToEnv_spec]. }
  cbn in Hkeep, Hhere. specialize (IH k1 (proj1 Hkeep Hk)). destruct (standingFrom l iv iv' t k1) as [out k2]. cbn in *.
  destruct IH as [[IH1 IH2] IH3]. destruct Hkeep as [Hk1 Hk2]. split; [split; [auto|by eapply gle_trans]|].
  intros m Hm. assert (here = Some m \/ m ∈ out) as [Hh|Hin].
  { destruct here as [m'|]; [|by right]. apply elem_of_cons in Hm as [->|]; auto. }
  - destruct (Hhere m Hh) as (Hs & cred & Hc & Ha). exists g, cred. split_and!; [apply list_elem_of_here|done|done|done].
  - destruct (IH3 m Hin) as (g' & cred & Hg & Hrest). exists g', cred. split; [by apply list_elem_of_further|done].
Qed.

Lemma mintGrant_spec input t k g k' : mintGrant input t k = kok (g, k') ->
  exists cred, dm_get (gi_credentialId input) (creds k) = Some cred
    /\ samePerson (Some (Credential.ownerId cred)) (Some (gi_ownerId input)) = true
    /\ Grant.credentialId g = Credential.id cred /\ Grant.ownerId g = Credential.ownerId cred
    /\ Grant.audienceScopeId g = gi_audienceScopeId input /\ Grant.mode g = gi_mode input /\ Grant.status g = active
    /\ k' = withGrants k (dm_put (Grant.id g) g (grants k)).
Proof.
  unfold mintGrant. destruct (dm_get _ _) as [cred|] eqn:Ec; [|done]. case_bool_decide; [done|].
  destruct (samePerson _ _) eqn:Es; cbn [negb]; [|done]. destruct (negb _); [done|].
  destruct (_ && _); [done|]. intros [= <- <-]. exists cred. by split_and!.
Qed.

(** ** Histories *)
(** Where a call puts a secret: a conversation that a grant is used in, the
    conversation of somebody who loads a credential of their own by its id, the hands
    of whoever asks in the name of a person, or of an organisation. *)
Inductive route :=
| via_grant (grantId : string) (scope : ScopeId)
| via_own (scope : ScopeId)
| via_name (personId : string)
| via_org (org : string).

Inductive event :=
| Minted (g : Grant.t) (by_ : string)
| Disclosed (credentialId ownerId : string) (to : route).

Record Sys := mkSys { kc : KC; inflight : list (Grant.t * ScopeId * Materialized.t); log : list event }.

(** The calls that neither mint nor disclose. *)
Inductive quiet_op :=
| QSave (input : SaveCredentialInput) (iv : string)
| QRemove (ownerId id : string)
| QRevoke (ownerId grantId : string)
| QCreateAsk (input : CreateAskInput) (askId : string)
| QGetAsk (id : string)
| QListAsks (f : AskListFilter)
| QDecline (askId ownerId : string) (note : option string)
| QSweep
| QNotified (id : string)
| QAdopt (g : Grant.t)
| QSetService (org : string) (input : ServiceCredentialInput) (iv : string)
| QSetServiceIfAbsent (org : string) (input : ServiceCredentialInput) (iv : string)
| QSetServiceIfCurrent (org : string) (input : ServiceCredentialInput) (at_ : Z) (iv : string)
| QDeleteService (org slug : string)
| QDeleteServiceIfCurrent (org slug : string) (at_ : Z)
| QSetToken (host principalId : string) (token : OAuthToken) (account : option string) (iv iv' : string)
| QDeleteToken (host principalId : string) (account : option string).

Definition quiet (o : quiet_op) (t : Z) k : KC :=
  match o with
  | QSave input iv => match save input iv t k with kok (_, k') => k' | kerr _ _ => k end
  | QRemove ownerId id => (remove ownerId id t k).2
  | QRevoke ownerId gid => (revokeGrant ownerId gid t k).2
  | QCreateAsk input askId => match createAsk input askId t k with kok (_, k') => k' | kerr _ _ => k end
  | QGetAsk id => (getAsk id t k).2
  | QListAsks f => (listAsks f t k).2
  | QDecline askId ownerId note => (declineAsk askId ownerId note t k).2
  | QSweep => (unnotifiedResolvedAsks t k).2
  | QNotified id => markAskNotified id t k
  | QAdopt g => (resolveAsksForGrant g t k).2
  | QSetService org input iv => match setServiceCredential org input iv t k with Ok k' => k' | Throw _ => k end
  | QSetServiceIfAbsent org input iv =>
      match setServiceCredentialIfAbsent org input iv t k with Ok (_, k') => k' | Throw _ => k end
  | QSetServiceIfCurrent org input at_ iv =>
      match setServiceCredentialIfCurrent org input at_ iv t k with Ok (_, k') => k' | Throw _ => k end
  | QDeleteService org slug => deleteServiceCredential org slug k
  | QDeleteServiceIfCurrent org slug at_ => (deleteServiceCredentialIfCurrent org slug at_ k).2
  | QSetToken host p token account iv iv' => setConnectorToken host p token account iv iv' t k
  | QDeleteToken host p account => deleteConnectorToken host p account t k
  end.

Lemma pendingAsk_keeps rec t k : keeps k (pendingAsk rec t k).2.
Proof. unfold pendingAsk. destruct (freshAsk rec t (asks k)). apply keeps_asks. Qed.

Lemma quiet_keeps o t k : keeps k (quiet o t k).
Proof.
  destruct o; cbn [quiet].
  - destruct (save _ _ _ _) as [[rec k']|] eqn:E; [by eapply save_keeps|apply keeps_refl].
  - unfold remove. destruct (getOwned _ _ _); [|apply keeps_refl].
    destruct (isPersonal _); [apply deleteCredential_keeps|apply keeps_refl].
  - unfold revokeGrant. destruct (dm_get _ _); [|apply keeps_refl]. destruct (negb _); [apply keeps_refl|].
    cbn [snd]. case_bool_decide; [|apply keeps_refl]. split; [done|]. by apply gle_update.
  - unfold createAsk. destruct (negb _); [apply keeps_refl|]. destruct (dm_get _ _); [|apply keeps_refl].
    case_bool_decide; [apply keeps_refl|]. destruct (_ && _); [apply keeps_refl|]. destruct (samePerson _ _); [apply keeps_refl|].
    destruct (findPending _ _ _ _ _) as [[a|] m]; apply keeps_asks.
  - unfold getAsk. destruct (dm_get _ _); [|apply keeps_refl]. destruct (freshAsk _ _ _). apply keeps_asks.
  - unfold listAsks. destruct (freshAll _ _ _). apply keeps_asks.
  - unfold declineAsk. destruct (dm_get _ _) as [rec|]; [|apply keeps_refl]. destruct (negb _); [apply keeps_refl|].
    pose proof (pendingAsk_keeps rec t k) as Hp. by destruct (pendingAsk rec t k) as [[a|s e] k'].
  - unfold unnotifiedResolvedAsks. destruct (sweepAsks _ _ _). apply keeps_asks.
  - apply keeps_asks.
  - apply adoptAsks_keeps.
  - unfold setServiceCredential. destruct (serviceCredentialRecord _ _ _ _ _) as [rec|] eqn:E; cbn [obind]; [|apply keeps_refl].
    apply serviceRecord_ok in E as [E1 E2]. apply keeps_put. by rewrite E2.
  - unfold setServiceCredentialIfAbsent. destruct (serviceCredentialRecord _ _ _ _ _) as [rec|] eqn:E; cbn [obind]; [|apply keeps_refl].
    apply serviceRecord_ok in E as [E1 E2]. rewrite dm_insertIfAbsent_spec.
    destruct (dm_get _ _); [split; [done|apply gle_refl]|]. apply keeps_put. by rewrite E2.
  - unfold setServiceCredentialIfCurrent. destruct (dm_get _ _) as [prior|]; [|apply keeps_refl].
    destruct (negb _); [apply keeps_refl|].
    destruct (serviceCredentialRecord _ _ _ _ _) as [rec|] eqn:E; cbn [obind]; [|apply keeps_refl].
    apply serviceRecord_ok in E as [E1 E2]. by apply keeps_put.
  - split; [intros Hk; by apply creds_ok_delete|apply gle_refl].
  - unfold deleteServiceCredentialIfCurrent. rewrite dm_deleteIf_spec. destruct (dm_get _ _) as [c|]; [|split; [done|apply gle_refl]].
    destruct (isCurrent _ _ _); (split; [intros Hk; by try apply creds_ok_delete|apply gle_refl]).
  - apply putConnector_keeps.
  - apply deleteCredential_keeps.
Qed.

Definition disclosure (scope : ScopeId) (m : Materialized.t) : event :=
  Disclosed (Materialized.credentialId m) (Materialized.ownerId m)
    (match Materialized.grantId m with Some g => via_grant g scope | None => via_own scope end).

(** What [materializeOwn] and [materializeOwnFiles] give whoever names a person. *)
Definition named (personId : string) (m : Materialized.t) : event :=
  Disclosed (Materialized.credentialId m) (Materialized.ownerId m) (via_name personId).

(** A token given, or a service's secret: of the record that was read. *)
Definition tokenGiven (host principalId : string) (account : option string) (token : option string) k : list event :=
  match dm_get (oauthId host principalId account) (creds k), token with
  | Some rec, Some _ => [Disclosed (Credential.id rec) (Credential.ownerId rec) (via_name principalId)]
  | _, _ => []
  end.

Definition serviceGiven (org slug : string) k : list event :=
  match brokerRecord org slug k, getServiceCredentialSecret org slug k with
  | Some rec, Ok (Some _) => [Disclosed (Credential.id rec) (Credential.ownerId rec) (via_org org)]
  | _, _ => []
  end.

(** The calls interleaved: a use of a grant reads first and claims later, if at
    all.  A grant is minted under an id that no grant has (a hash of the credential,
    the conversation, the instant and the purpose). *)
Inductive step (s : Sys) : Sys -> Prop :=
| Quiet o t : step s (mkSys (quiet o t (kc s)) (inflight s) (log s))
| Mint input t g k' :
    mintGrant input t (kc s) = kok (g, k') -> dm_get (Grant.id g) (grants (kc s)) = None ->
    step s (mkSys k' (inflight s) (log s ++ [Minted g (gi_ownerId input)]))
| Connect host p account audience purpose t g k' :
    grantConnectorToScope host p account audience purpose t (kc s) = kok (Some g, k') ->
    dm_get (Grant.id g) (grants (kc s)) = None ->
    step s (mkSys k' (inflight s) (log s ++ [Minted g p]))
| Approve askId ownerId mode purpose expiresAt t a g k' :
    approveAsk askId ownerId mode purpose expiresAt t (kc s) = (kok (a, g), k') ->
    dm_get (Grant.id g) (grants (kc s)) = None ->
    step s (mkSys k' (inflight s) (log s ++ [Minted g ownerId]))
| ApproveRefused askId ownerId mode purpose expiresAt t st e k' :
    approveAsk askId ownerId mode purpose expiresAt t (kc s) = (kerr st e, k') -> step s (mkSys k' (inflight s) (log s))
| Read gid scope iv iv' t r k' :
    readGrant gid scope iv iv' t (kc s) = (r, k') ->
    step s (mkSys k' (inflight s ++ match r with kok (g, m) => [(g, scope, m)] | kerr _ _ => [] end) (log s))
| Claim l1 g scope m l2 usedBy t r k' :
    inflight s = l1 ++ (g, scope, m) :: l2 -> claimOnceGrant g scope usedBy t (kc s) = (r, k') ->
    step s (mkSys k' (l1 ++ l2) (log s ++ match r with kok _ => [disclosure scope m] | kerr _ _ => [] end))
| Own ownerId id scope iv iv' t r k' :
    materializeOwnById ownerId id scope iv iv' t (kc s) = (r, k') ->
    step s (mkSys k' (inflight s) (log s ++ match r with kok m => [disclosure scope m] | kerr _ _ => [] end))
| Standing scope iv iv' t l k' :
    materializeStanding scope iv iv' t (kc s) = (l, k') ->
    step s (mkSys k' (inflight s) (log s ++ map (disclosure scope) l))
| OwnEnv ownerId t : step s (mkSys (kc s) (inflight s) (log s ++ map (named ownerId) (materializeOwn ownerId t (kc s))))
| OwnFiles ownerId : step s (mkSys (kc s) (inflight s) (log s ++ map (named ownerId) (materializeOwnFiles ownerId (kc s))))
| Token host p account iv iv' t r k' :
    connectorAccessToken host p account iv iv' t (kc s) = (r, k') ->
    step s (mkSys k' (inflight s) (log s ++ tokenGiven host p account r (kc s)))
| Service org slug : step s (mkSys (kc s) (inflight s) (log s ++ serviceGiven org slug (kc s))).

Definition viaGrant (i : string) (e : event) : bool :=
  match e with Disclosed _ _ (via_grant g _) => g === i | _ => false end.
Definition uses (i : string) (l : list event) : nat := length (List.filter (viaGrant i) l).

(** A disclosure of credential [c] of [o] that is in order. *)
Definition proper (m : M Grant.t) (c o : string) (to : route) : Prop :=
  match to with
  | via_grant i scope => exists g, dm_get i m = Some g /\ Grant.audienceScopeId g = scope
      /\ Grant.credentialId g = c /\ Grant.ownerId g = o
  | via_own scope => exists p, scope = personalScope p /\ samePerson (Some o) (Some p) = true
  | via_name p => actsFor o p
  | via_org org => o = org /\ exists slug, c = brokerId org slug
  end.

Record inv (s : Sys) : Prop := mkInv {
  i_creds : creds_ok (creds (kc s));
  i_grants : forall i g, dm_get i (grants (kc s)) = Some g ->
    Grant.id g = i /\ (exists g0 p, Minted g0 p ∈ log s /\ core g0 g /\ samePerson (Some (Grant.ownerId g)) (Some p) = true)
    /\ exists service slot, Grant.credentialId g = credId (Grant.ownerId g) service slot;
  i_minted : forall g p, Minted g p ∈ log s -> exists g', dm_get (Grant.id g) (grants (kc s)) = Some g' /\ core g g';
  i_inflight : forall g scope m, (g, scope, m) ∈ inflight s ->
    Grant.audienceScopeId g = scope /\ Materialized.credentialId m = Grant.credentialId g
    /\ Materialized.ownerId m = Grant.ownerId g /\ Materialized.grantId m = Some (Grant.id g)
    /\ exists g', dm_get (Grant.id g) (grants (kc s)) = Some g' /\ core g g';
  i_log : forall c o to, Disclosed c o to ∈ log s -> proper (grants (kc s)) c o to;
  i_once : forall i g, dm_get i (grants (kc s)) = Some g -> Grant.mode g = once ->
    (uses i (log s) <= if decide (Grant.status g = active) then 0 else 1)%nat;
}.

Lemma gle_some m m' i g : gle m m' -> dm_get i m = Some g -> exists g', dm_get i m' = Some g' /\ core g g'.
Proof. intros Hg Hi. specialize (Hg i). rewrite Hi in Hg. destruct (dm_get i m') as [g'|]; [|done]. exists g'. by destruct Hg. Qed.

Lemma gle_some_back m m' i g' : gle m m' -> dm_get i m' = Some g' ->
  exists g, dm_get i m = Some g /\ core g g' /\ (Grant.status g' = active -> Grant.status g = active).
Proof. intros Hg Hi. specialize (Hg i). rewrite Hi in Hg. destruct (dm_get i m) as [g|]; [|done]. by exists g. Qed.

Lemma inv_keeps s k' : inv s -> keeps (kc s) k' -> inv (mkSys k' (inflight s) (log s)).
Proof.
  intros Hi [Hc Hg]. split; cbn [kc inflight log].
  - apply Hc, Hi.
  - intros i g' Hi'. destruct (gle_some_back _ _ _ _ Hg Hi') as (g & Hg0 & [C1 C2 C3 C4 C5] & _).
    destruct (i_grants _ Hi _ _ Hg0) as (Hid & (g0 & p & Hm & Hcore & Hs) & sv & sl & Hcid).
    split_and!; [congruence| |].
    + exists g0, p. split_and!; [done|eapply core_trans; [exact Hcore|done]|by rewrite C3].
    + exists sv, sl. by rewrite C2, C3.
  - intros g p Hm. destruct (i_minted _ Hi _ _ Hm) as (g1 & H1 & C1). destruct (gle_some _ _ _ _ Hg H1) as (g2 & H2' & C2).
    exists g2. split; [done|by eapply core_trans].
  - intros g scope m Hin. destruct (i_inflight _ Hi _ _ _ Hin) as (A & B & C & D & g1 & H1 & C1).
    destruct (gle_some _ _ _ _ Hg H1) as (g2 & H2' & C2). split_and!; [done..|]. exists g2. split; [done|by eapply core_trans].
  - intros c o to Hin. pose proof (i_log _ Hi _ _ _ Hin) as Hl. destruct to as [i scope| | |]; try done.
    destruct Hl as (g & Hgi & A & B & C). destruct (gle_some _ _ _ _ Hg Hgi) as (g2 & H2' & [D1 D2 D3 D4 D5]).
    exists g2. split_and!; [done|congruence..].
  - intros i g' Hi' Hm. destruct (gle_some_back _ _ _ _ Hg Hi') as (g & Hg0 & [C1 C2 C3 C4 C5] & Hst).
    pose proof (i_once _ Hi _ _ Hg0 ltac:(congruence)) as Ho.
    destruct (decide (Grant.status g' = active)) as [Ha|]; [rewrite decide_True in Ho by auto; done|].
    destruct (decide (Grant.status g = active)); lia.
Qed.

Lemma uses_app i l l' : uses i (l ++ l') = (uses i l + uses i l')%nat.
Proof. unfold uses. by rewrite List.filter_app, length_app. Qed.

Lemma inv_disclosed s c o to : inv s -> proper (grants (kc s)) c o to ->
  (forall i scope g, to = via_grant i scope -> dm_get i (grants (kc s)) = Some g -> Grant.mode g = once ->
     Grant.status g <> active /\ uses i (log s) = 0%nat) ->
  inv (mkSys (kc s) (inflight s) (log s ++ [Disclosed c o to])).
Proof.
  intros Hi Hd Ho. destruct Hi as [I1 I2 I3 I4 I5 I6]. split; cbn [kc inflight log]; [done| | |done| |].
  - intros i g Hg. destruct (I2 i g Hg) as (A & (g0 & p & Hm & Hr) & B). split_and!; [done| |done].
    exists g0, p. split; [apply elem_of_app; by left|done].
  - intros g p Hin. apply elem_of_app in Hin as [Hin|Hin]; [by eapply I3|].
    by apply list_elem_of_singleton in Hin.
  - intros c' o' to' Hin. apply elem_of_app in Hin as [Hin|Hin]; [by apply I5|].
    apply list_elem_of_singleton in Hin. by injection Hin as -> -> ->.
  - intros i g Hg Hm. rewrite uses_app. specialize (I6 i g Hg Hm). unfold uses at 2. cbn [List.filter viaGrant].
    destruct to as [j scope| | |]; [|cbn; lia..]. case_bool_decide as E; [|cbn; lia]. subst j.
    destruct (Ho i scope g eq_refl Hg Hm) as [Hst Hu]. rewrite decide_False by done. cbn. lia.
Qed.

Lemma inv_disclose s m scope : inv s ->
  match Materialized.grantId m with
  | Some i => exists g, dm_get i (grants (kc s)) = Some g /\ Grant.audienceScopeId g = scope
      /\ Grant.credentialId g = Materialized.credentialId m /\ Grant.ownerId g = Materialized.ownerId m
      /\ (Grant.mode g = once -> Grant.status g <> active /\ uses i (log s) = 0%nat)
  | None => exists p, scope = personalScope p /\ samePerson (Some (Materialized.ownerId m)) (Some p) = true
  end ->
  inv (mkSys (kc s) (inflight s) (log s ++ [disclosure scope m])).
Proof.
  intros Hi Hd. unfold disclosure. destruct (Materialized.grantId m) as [i|]; (apply inv_disclosed; [done| |]).
  - destruct Hd as (g & A & B & C & D & _). by exists g.
  - intros j sc g [= <- <-] Hg. destruct Hd as (g' & A & _ & _ & _ & Ho). rewrite Hg in A. by injection A as <-.
  - done.
  - done.
Qed.

Lemma inv_named s p l : inv s -> (forall m, m ∈ l -> actsFor (Materialized.ownerId m) p) ->
  inv (mkSys (kc s) (inflight s) (log s ++ map (named p) l)).
Proof.
  revert s. induction l as [|m l IH]; intros s Hi Hl; cbn [map]; [rewrite app_nil_r; by destruct s|].
  pose proof (inv_disclosed s (Materialized.credentialId m) (Materialized.ownerId m) (via_name p) Hi
    (Hl m (list_elem_of_here _ _)) ltac:(done)) as Hi'.
  specialize (IH _ Hi' ltac:(intros m' Hm'; apply Hl; by apply list_elem_of_further)).
  cbn [kc inflight log] in IH. by rewrite <- app_assoc in IH.
Qed.

Lemma inv_mint s g p input t k' :
  inv s -> mintGrant input t (kc s) = kok (g, k') -> gi_ownerId input = p ->
  dm_get (Grant.id g) (grants (kc s)) = None -> inv (mkSys k' (inflight s) (log s ++ [Minted g p])).
Proof.
  intros Hi Hm Hp Hn. apply mintGrant_spec in Hm as (cred & Hc & Hs & A & B & C & D & E & ->).
  destruct (i_creds _ Hi _ _ Hc) as (Hid & sv & sl & Hcid).
  assert (samePerson (Some (Grant.ownerId g)) (Some p) = true) as Hsp by (by rewrite B, <- Hp).
  destruct Hi as [I1 I2 I3 I4 I5 I6].
  assert (forall i, i <> Grant.id g -> dm_get i (dm_put (Grant.id g) g (grants (kc s))) = dm_get i (grants (kc s))) as Hother.
  { intros i Hd. rewrite dm_get_put, decide_False; [done|congruence]. }
  split; cbn [kc inflight log withGrants creds grants].
  - done.
  - intros i g'. rewrite dm_get_put. destruct (decide (Grant.id g = i)) as [<-|Hd].
    + intros [= <-]. split_and!; [done| |].
      * exists g, p. split_and!; [apply elem_of_app; right; by apply list_elem_of_singleton|apply core_refl|done].
      * exists sv, sl. rewrite A, B. by rewrite Hid, <- Hcid.
    + intros Hg. destruct (I2 i g' Hg) as (X & (g0 & q & Hin & Hr) & Y). split_and!; [done| |done].
      exists g0, q. split; [apply elem_of_app; by left|done].
  - intros g' q Hin. apply elem_of_app in Hin as [Hin|Hin].
    + destruct (I3 g' q Hin) as (g2 & Hg2 & Hcore). exists g2. split; [|done]. rewrite Hother; [done|]. intros Heq. congruence.
    + apply list_elem_of_singleton in Hin. injection Hin as -> ->. exists g. rewrite dm_get_put, decide_True by done. done.
  - intros g' sc m Hin. destruct (I4 g' sc m Hin) as (X & Y & Z & W & g2 & Hg2 & Hcore). split_and!; [done..|].
    exists g2. split; [|done]. rewrite Hother; [done|]. intros Heq. congruence.
  - intros c o to Hin. apply elem_of_app in Hin as [Hin|Hin]; [|by apply list_elem_of_singleton in Hin].
    specialize (I5 c o to Hin). destruct to as [i sc| | |]; try done. destruct I5 as (g2 & Hg2 & Hr). exists g2. split; [|done].
    rewrite Hother; [done|]. intros Heq. congruence.
  - intros i g'. rewrite uses_app. change (uses i [Minted g p]) with 0%nat. rewrite Nat.add_0_r, dm_get_put.
    destruct (decide (Grant.id g = i)) as [<-|Hd]; [|by intros; apply I6].
    intros [= <-] _. destruct (List.filter (viaGrant (Grant.id g)) (log s)) as [|e l] eqn:Ef; unfold uses; rewrite Ef; [cbn; lia|].
    exfalso. assert (e ∈ List.filter (viaGrant (Grant.id g)) (log s)) as He by (rewrite Ef; apply list_elem_of_here).
    apply list_elem_of_In, filter_In in He as [He Hv]. apply list_elem_of_In in He.
    destruct e as [|c o [j sc| | |]]; try done. cbn in Hv. js_bool. specialize (I5 _ _ _ He).
    destruct I5 as (g2 & Hg2 & _). congruence.
Qed.

Lemma inv_inflight s l : inv s -> (forall x, x ∈ l -> x ∈ inflight s) -> inv (mkSys (kc s) l (log s)).
Proof. intros [I1 I2 I3 I4 I5 I6] Hl. split; cbn [kc inflight log]; auto. Qed.

(** Ids of different owners do not collide. *)
Hypothesis credId_owner : forall a b c a' b' c', credId a b c = credId a' b' c' -> a = a'.

(** The grant and the credential it is for have one owner. *)
Lemma grant_cred_owner s i g cred : inv s -> dm_get i (grants (kc s)) = Some g -> cred_ok (Grant.credentialId g) cred ->
  Credential.ownerId cred = Grant.ownerId g /\ Credential.id cred = Grant.credentialId g.
Proof.
  intros Hi Hg (Hid & sv & sl & Hc). destruct (i_grants _ Hi _ _ Hg) as (_ & _ & sv' & sl' & Hc'). split; [|done].
  symmetry. apply (credId_owner _ sv' sl' _ sv sl). by rewrite <- Hc', <- Hc.
Qed.

Lemma inv_disclose_all s scope l : inv s ->
  (forall m, m ∈ l -> exists i g, Materialized.grantId m = Some i /\ dm_get i (grants (kc s)) = Some g
     /\ Grant.audienceScopeId g = scope /\ Grant.credentialId g = Materialized.credentialId m
     /\ Grant.ownerId g = Materialized.ownerId m /\ Grant.mode g = standing) ->
  inv (mkSys (kc s) (inflight s) (log s ++ map (disclosure scope) l)).
Proof.
  revert s. induction l as [|m l IH]; intros s Hi Hl.
  - cbn. rewrite app_nil_r. by destruct s.
  - cbn [map]. destruct (Hl m (list_elem_of_here _ _)) as (i & g & A & B & C & D & E & F).
    assert (inv (mkSys (kc s) (inflight s) (log s ++ [disclosure scope m]))) as Hi'.
    { apply inv_disclose; [done|]. rewrite A. exists g. split_and!; [done..|]. congruence. }
    specialize (IH _ Hi'). cbn [kc inflight log] in IH. rewrite <- app_assoc in IH. apply IH.
    intros m' Hm'. apply Hl. by apply list_elem_of_further.
Qed.

Lemma sys_claim_inv s l1 g scope m l2 usedBy t r k' :
  inv s -> inflight s = l1 ++ (g, scope, m) :: l2 -> claimOnceGrant g scope usedBy t (kc s) = (r, k') ->
  inv (mkSys k' (l1 ++ l2) (log s ++ match r with kok _ => [disclosure scope m] | kerr _ _ => [] end)).
Proof.
  intros Hi Hl Hc.
  destruct (i_inflight _ Hi g scope m) as (A & B & C & D & g' & Hg' & [C1 C2 C3 C4 C5]).
  { rewrite Hl. apply elem_of_app. right. apply list_elem_of_here. }
  assert (inv (mkSys (kc s) (l1 ++ l2) (log s))) as Hi1.
  { apply (inv_inflight s); [done|]. intros x. rewrite Hl, !elem_of_app, elem_of_cons. tauto. }
  unfold claimOnceGrant in Hc. destruct (Grant.mode g !== once) eqn:Em.
  { injection Hc as <- <-. apply (inv_disclose (mkSys (kc s) (l1 ++ l2) (log s))); [done|]. rewrite D.
    exists g'. cbn [kc]. js_bool. split_and!; [done|congruence..]. }
  rewrite Hg' in Hc. destruct (grantRefusal g' scope t) as [[st e]|] eqn:Er.
  { injection Hc as <- <-. by rewrite app_nil_r. }
  injection Hc as <- <-. js_bool.
  assert (Grant.status g' = active) as Ha.
  { unfold grantRefusal in Er. destruct (_ !== _); [done|]. destruct (Grant.status g') eqn:Es; [done| |]; cbn in Er; done. }
  set (k' := withGrants _ _).
  assert (dm_get (Grant.id g) (grants k') = Some (Grant.withUsed t usedBy g')) as Hk'.
  { unfold k'. cbn. rewrite dm_update_spec, Hg'. cbn. by rewrite dm_get_put, decide_True. }
  assert (keeps (kc s) k') as Hkeep by (split; [done|by apply gle_update]).
  apply (inv_disclose (mkSys k' (l1 ++ l2) (log s))).
  { apply (inv_keeps (mkSys (kc s) (l1 ++ l2) (log s))); done. }
  rewrite D. exists (Grant.withUsed t usedBy g'). cbn [kc log]. split_and!; [done|cbn; congruence..|].
  intros _. split; [done|]. pose proof (i_once _ Hi _ _ Hg' ltac:(congruence)) as Ho. rewrite decide_True in Ho by done.
  unfold uses in *. lia.
Qed.

Lemma sys_step_inv s s' : inv s -> step s s' -> inv s'.
Proof.
  intros Hi Hs. destruct Hs as [o t|input t g k' Hm Hn|host p account audience purpose t g k' Hm Hn
    |askId ownerId mode purpose expiresAt t a g k' Hm Hn|askId ownerId mode purpose expiresAt t st e k' Hm
    |gid scope iv iv' t r k' Hr|l1 g scope m l2 usedBy t r k' Hl Hc|ownerId id scope iv iv' t r k' Ho
    |scope iv iv' t l k' Hst|ownerId t|ownerId|host p account iv iv' t r k' Htk|org slug].
  - apply inv_keeps, quiet_keeps. done.
  - by eapply inv_mint.
  - unfold grantConnectorToScope in Hm. destruct (dm_get (oauthId _ _ _) _); [|done].
    destruct (List.find _ _) as [g1|] eqn:Ef.
    + injection Hm as -> <-. apply List.find_some in Ef as [Hin _]. apply list_elem_of_In, dm_all_get in Hin as [i Hg].
      destruct (i_grants _ Hi _ _ Hg) as [Hid _]. congruence.
    + destruct (mintGrant _ _ _) as [[g1 k1]|] eqn:Em; [|done]. injection Hm as -> <-. by eapply inv_mint.
  - unfold approveAsk in Hm. destruct (dm_get askId _) as [rec|]; [|done].
    pose proof (pendingAsk_keeps rec t (kc s)) as Hp. unfold pendingAsk in *.
    destruct (freshAsk rec t (asks (kc s))) as [ask m]. destruct (Ask.status ask !== ask_pending); [done|].
    destruct (mintGrant _ _ _) as [[g1 k1]|] eqn:Em; [|done]. injection Hm as <- -> <-.
    apply (inv_keeps (mkSys k1 (inflight s) (log s ++ [Minted g ownerId]))); [|apply keeps_asks].
    eapply (inv_mint (mkSys (withAsks (kc s) m) (inflight s) (log s))); [by apply inv_keeps|exact Em|done|done].
  - unfold approveAsk in Hm. destruct (dm_get askId _) as [rec|]; [|injection Hm as _ _ <-; by destruct s].
    pose proof (pendingAsk_keeps rec t (kc s)) as Hp. destruct (pendingAsk rec t (kc s)) as [[ask|st' e'] k1].
    + destruct (mintGrant _ _ _) as [[g1 k2]|]; [done|]. injection Hm as _ _ <-. by apply inv_keeps.
    + injection Hm as _ _ <-. by apply inv_keeps.
  - pose proof (readGrant_spec gid scope iv iv' t (kc s)) as Hspec. rewrite Hr in Hspec. cbn in Hspec.
    destruct Hspec as [Hk Hspec]. pose proof (inv_keeps s k' Hi Hk) as Hi'.
    destruct r as [[g m]|st e]; [|by rewrite app_nil_r]. destruct Hspec as (Hg & Href & cred & Hc & A & B & C).
    destruct (i_grants _ Hi _ _ Hg) as [Hid _].
    destruct (grant_cred_owner s gid g cred Hi Hg (i_creds _ Hi _ _ Hc)) as [Hown Hcid].
    destruct (gle_some _ _ _ _ (proj2 Hk) Hg) as (g' & Hg' & Hcore).
    destruct Hi' as [I1 I2 I3 I4 I5 I6]. split; cbn [kc inflight log] in *; [done|done|done| |done|done].
    intros g1 sc1 m1 Hin. apply elem_of_app in Hin as [Hin|Hin]; [by apply I4|].
    apply list_elem_of_singleton in Hin. injection Hin as -> -> ->. split_and!; [|congruence|congruence|done|].
    + unfold grantRefusal in Href. destruct (Grant.audienceScopeId g !== scope) eqn:E; [done|]. by js_bool.
    + exists g'. by rewrite Hid.
  - by eapply sys_claim_inv.
  - unfold materializeOwnById in Ho. destruct (scope !== personalScope ownerId) eqn:Esc.
    { injection Ho as <- <-. rewrite app_nil_r. by destruct s. }
    assert (scope = personalScope ownerId) as -> by (by js_bool).
    destruct (dm_get id (creds (kc s))) as [cred|] eqn:Ec; [|injection Ho as <- <-; rewrite app_nil_r; by destruct s].
    destruct (samePerson _ _) eqn:Esp; cbn [negb] in Ho; [|injection Ho as <- <-; rewrite app_nil_r; by destruct s].
    case_bool_decide; [injection Ho as <- <-; rewrite app_nil_r; by destruct s|].
    assert (keeps (kc s) k' /\ match r with kok m => about_cred cred None m | kerr _ _ => True end) as [Hk Hm].
    { destruct (Credential.managed cred).
      - pose proof (materializeConnector_spec cred None None iv iv' t (kc s)) as Hspec. by rewrite Ho in Hspec.
      - destruct (credExpired cred t); injection Ho as <- <-; (split; [apply keeps_refl|]); [done|].
        destruct (materializeDecrypted _ _ _) eqn:Em; [|done]. by eapply materializeDecrypted_spec. }
    pose proof (inv_keeps s k' Hi Hk) as Hi'. destruct r as [m|st e]; [|by rewrite app_nil_r].
    apply (inv_disclose _ m _ Hi'). destruct Hm as (A & B & ->). exists ownerId. by rewrite B.
  - pose proof (standingFrom_spec (activeGrantsFor scope t (kc s)) iv iv' t (kc s) (i_creds _ Hi)) as Hspec.
    unfold materializeStanding in Hst. rewrite Hst in Hspec. cbn in Hspec. destruct Hspec as [Hk Hspec].
    pose proof (inv_keeps s k' Hi Hk) as Hi'. apply (inv_disclose_all _ scope l Hi'). cbn [kc].
    intros m Hm. destruct (Hspec m Hm) as (g & cred & Hin & Hmode & Hc & A & B & C).
    apply list_elem_of_In, filter_In in Hin as [Hin Hus]. apply list_elem_of_In, dm_all_get in Hin as [i Hg].
    destruct (i_grants _ Hi _ _ Hg) as [Hid _]. destruct (grant_cred_owner s i g cred Hi Hg Hc) as [Hown Hcid].
    destruct (gle_some _ _ _ _ (proj2 Hk) Hg) as (g' & Hg' & [C1 C2 C3 C4 C5]).
    exists i, g'. unfold usable in Hus. apply andb_true_iff in Hus as [Hus _]. apply andb_true_iff in Hus as [Hau _].
    apply bool_decide_eq_true in Hau. split_and!; [congruence|done|congruence..].
  - apply inv_named; [done|]. intros m Hm. by apply materializeOwn_owner in Hm.
  - apply inv_named; [done|]. intros m Hm. by apply materializeOwnFiles_owner in Hm.
  - unfold connectorAccessToken in Htk. unfold tokenGiven.
    destruct (dm_get (oauthId host p account) (creds (kc s))) as [rec|] eqn:Erec; [|injection Htk as <- <-; rewrite app_nil_r; by destruct s].
    pose proof (connectorToken_keeps rec iv iv' t (kc s)) as Hk. rewrite Htk in Hk. pose proof (inv_keeps s k' Hi Hk) as Hi'.
    destruct r as [v|]; [|by rewrite app_nil_r]. apply (inv_disclosed _ _ _ _ Hi'); [|done]. cbn. left.
    destruct (i_creds _ Hi _ _ Erec) as (_ & sv & sl & E). symmetry. exact (credId_owner _ _ _ _ _ _ E).
  - unfold serviceGiven, brokerRecord. destruct (dm_get (brokerId org slug) (creds (kc s))) as [rec|] eqn:Erec; [|rewrite app_nil_r; by destruct s].
    destruct (getServiceCredentialSecret org slug (kc s)) as [[x|]|]; try (rewrite app_nil_r; by destruct s).
    apply inv_disclosed; [done| |done]. destruct (i_creds _ Hi _ _ Erec) as (Hid & sv & sl & E). split; [|by exists slug].
    symmetry. exact (credId_owner _ _ _ _ _ _ E).
Qed.

Definition emptySys : Sys := mkSys (mkKC dm_empty dm_empty dm_empty) [] [].

Lemma sys_reach_inv s : rtc step emptySys s -> inv s.
Proof.
  assert (inv emptySys) as H0'.
  { split; cbn.
    - intros i c. by rewrite dm_get_empty.
    - intros i g. by rewrite dm_get_empty.
    - by intros g p ?%elem_of_nil.
    - by intros g sc m ?%elem_of_nil.
    - by intros c o to ?%elem_of_nil.
    - intros i g. by rewrite dm_get_empty. }
  intros Hr. remember emptySys as s0 eqn:E. clear E. induction Hr as [|s1 s2 s3 Hs _ IH]; [done|]. by apply IH, (sys_step_inv s1).
Qed.


(** C14: A one-time grant discloses its secret at most once, however many uses of it
    are under way at the same time. *)
Theorem once_grant_once (s : Sys) (g : Grant.t) (p : string) :
  rtc step emptySys s -> Minted g p ∈ log s -> Grant.mode g = once -> (uses (Grant.id g) (log s) <= 1)%nat.
Proof.
  intros Hr Hin Hm. pose proof (sys_reach_inv s Hr) as Hi. destruct (i_minted _ Hi _ _ Hin) as (g' & Hg & [C1 C2 C3 C4 C5]).
  pose proof (i_once _ Hi _ _ Hg ltac:(congruence)). destruct (decide _); lia.
Qed.

(** An approval of an ask, when it is given, answers an ask that was waiting and
    not past its time, by the owner of the credential, and mints a grant of that
    credential for the conversation that asked and no other; when it is refused no
    grant is made. *)
Theorem approval_exact (askId ownerId : string) (mode : GrantMode) (purpose : string) (expiresAt : option Z) (t : Z) (k : KC) :
  match approveAsk askId ownerId mode purpose expiresAt t k with
  | (kok (a, g), k') =>
      (exists rec cred, dm_get askId (asks k) = Some rec /\ Ask.status rec = ask_pending /\ t <= Ask.expiresAt rec
         /\ dm_get (Ask.credentialId rec) (creds k) = Some cred
         /\ samePerson (Some (Credential.ownerId cred)) (Some ownerId) = true
         /\ Grant.credentialId g = Credential.id cred /\ Grant.audienceScopeId g = Ask.requesterScopeId rec
         /\ Grant.mode g = mode /\ Ask.status a = ask_approved /\ Ask.grantId a = Some (Grant.id g))
      /\ grants k' = dm_put (Grant.id g) g (grants k) /\ creds k' = creds k
  | (kerr _ _, k') => grants k' = grants k /\ creds k' = creds k
  end.
Proof.
  unfold approveAsk. destruct (dm_get askId (asks k)) as [rec|]; [|done]. unfold pendingAsk, freshAsk.
  destruct (Ask.status rec !== ask_pending) eqn:E1; cbn [orb].
  { rewrite E1. done. }
  destruct (t <=? Ask.expiresAt rec) eqn:E2.
  - rewrite E1. destruct (mintGrant _ _ _) as [[g k1]|] eqn:Em; [|done].
    apply mintGrant_spec in Em as (cred & Hc & Hs & A & B & C & D & F & ->). cbn in *. js_bool.
    split; [|done]. exists rec, cred. by split_and!.
  - cbn. done.
Qed.

(** ** Saving and loading *)
Hypothesis decrypt_encrypt : forall iv s, decrypt (encrypt iv s) = Ok s.

(** The variables a save without files sets. *)
Definition savedEnv (input : SaveCredentialInput) : list (string * string) :=
  match saveFields false input with
  | Some l => map fst l
  | None =>
      let service := Str.toLowerCase (Str.trim (s_service input)) in
      [(default (defaultEnvKey service) (keepTruthy (Str.trim <$> s_envKey input)), default "" (s_secret input))]
  end.

Lemma json_field_obj (l : list (string * string)) n v : NoDup (map fst l) -> (n, v) ∈ l ->
  json_field n (fieldsJson l) = JStr v.
Proof.
  unfold fieldsJson. induction l as [|[n' v'] l IH]; cbn; [by intros _ ?%elem_of_nil|].
  intros Hn Hin. apply NoDup_cons in Hn as [Hk Hn]. apply elem_of_cons in Hin as [[= <- <-]|Hin].
  - cbn. by rewrite bool_decide_eq_true_2.
  - rewrite bool_decide_eq_false_2; [by apply IH|]. intros ->. apply Hk. apply list_elem_of_In, in_map_iff.
    exists (n, v). split; [done|]. by apply list_elem_of_In.
Qed.

Lemma fields_back (l : list (string * string * bool)) : NoDup (map (fun f => f.1.1) l) ->
  map (fun f : string * bool => (f.1, default "" (json_str (json_field f.1 (fieldsJson (map fst l))))))
    (map (fun f : string * string * bool => (f.1.1, f.2)) l) = map fst l.
Proof.
  intros Hn. rewrite map_map. apply map_ext_in. intros [[n v] b] Hin. cbn [fst snd].
  rewrite (json_field_obj (map fst l) n v); [done|by rewrite map_map|].
  apply list_elem_of_In, in_map_iff. by exists (n, v, b).
Qed.

Lemma files_back (l : list (string * string)) : filesOf (filesJson l) = l.
Proof. unfold filesOf, filesJson. cbn. rewrite map_map. cbn. rewrite <- (map_id l) at 2. apply map_ext. by intros []. Qed.

Lemma fieldsRefusal_none l : fieldsRefusal (Some l) = None ->
  (forall f, f ∈ l -> envKeyOk f.1.1 = true) /\ NoDup (map (fun f => f.1.1) l).
Proof.
  unfold fieldsRefusal. destruct (existsb (fun f => negb (envKeyOk f.1.1)) l) eqn:E1; [done|].
  match goal with |- (if ?b then _ else _) = _ -> _ => destruct b eqn:E2 end; [done|].
  destruct (bool_decide (NoDup _)) eqn:E3; [|done]. intros _. apply bool_decide_eq_true in E3. split; [|done]. intros f Hf.
  destruct (envKeyOk f.1.1) eqn:Ek; [done|]. exfalso.
  assert (existsb (fun f : string * string * bool => negb (envKeyOk f.1.1)) l = true); [|congruence].
  apply existsb_exists. exists f. split; [by apply list_elem_of_In|by rewrite Ek].
Qed.

Lemma envName_truthy service o : Str.truthy (default (defaultEnvKey service) (keepTruthy o)) = true.
Proof.
  unfold keepTruthy. destruct o as [s|].
  - destruct (Str.truthy s) eqn:E; [done|]. cbn. unfold defaultEnvKey. by destruct (upperSnake service).
  - cbn. unfold defaultEnvKey. by destruct (upperSnake service).
Qed.

(** What is saved is what is loaded: in the owner's own conversation a saved
    credential comes back as the very files, or as variables with exactly the
    values given, under the names given or the default one - and the script that
    loads them, read by the shell's rules, sets exactly those. *)
Theorem saved_secret_loads (input : SaveCredentialInput) (iv iv1 iv2 : string) (t t' : Z) (k k' : KC) (rec : Credential.t) :
  save input iv t k = kok (rec, k') ->
  personKey (Some (s_ownerId input)) <> "" ->
  expired (s_expiresAt input) t' = false ->
  (forall l, saveFields false input = Some l ->
     jsonParse (jsonStringify (fieldsJson (map fst l))) = Ok (fieldsJson (map fst l))) ->
  (forall l, saveFiles input = kok (Some l) -> jsonParse (jsonStringify (filesJson l)) = Ok (filesJson l)) ->
  exists m, materializeOwnById (s_ownerId input) (Credential.id rec) (personalScope (s_ownerId input)) iv1 iv2 t' k' = (kok m, k')
    /\ Materialized.ownerId m = s_ownerId input
    /\ match saveFiles input with
       | kok (Some files) => Materialized.payload m = UseScript.file_cred files
       | _ => Materialized.payload m = UseScript.env_cred (savedEnv input)
              /\ forall fuel, (length (savedEnv input) < fuel)%nat ->
                   UseScript.assignments fuel (UseScript.renderUseScript (Materialized.payload m)) = Some (savedEnv input)
       end.
Proof.
  intros Hs Ho He Hfj Hgj. unfold save in Hs. destruct (negb _); [done|].
  destruct (saveFiles input) as [files|] eqn:Efiles; [|done].
  destruct (fieldsRefusal _) eqn:Eref; [done|].
  destruct (saveSecret files _ input) as [secret|] eqn:Esec; [|done].
  destruct (_ || _) eqn:Eempty; [done|].
  destruct (match match files with Some _ => None | None => _ end with Some _ => _ | None => _ end) eqn:Ekey; [done|].
  injection Hs as <- <-. set (id := credId _ _ _). unfold materializeOwnById.
  rewrite (bool_decide_eq_true_2 (personalScope _ = _)) by done. cbn [negb Credential.id creds withCreds].
  rewrite dm_get_put, decide_True by done. cbn [Credential.ownerId Credential.kind Credential.managed].
  assert (samePerson (Some (s_ownerId input)) (Some (s_ownerId input)) = true) as ->.
  { unfold samePerson. apply andb_true_iff. split; [by apply negb_true_iff, bool_decide_eq_false_2|by apply bool_decide_eq_true_2]. }
  cbn [negb]. destruct files as [files|].
  - cbn [saveSecret] in Esec. injection Esec as <-. rewrite bool_decide_eq_false_2 by done.
    unfold credExpired. cbn [Credential.kind]. rewrite bool_decide_eq_true_2 by done. cbn [negb andb].
    unfold materializeDecrypted. cbn [Credential.kind]. rewrite bool_decide_eq_true_2 by done.
    unfold decryptToFiles. cbn [Credential.secretEnc Credential.targets option_map fmap option_fmap].
    rewrite decrypt_encrypt. cbn [obind]. rewrite (Hgj files eq_refl). cbn [obind tryDecrypt]. rewrite files_back.
    eexists. split; [done|]. by split.
  - rewrite bool_decide_eq_false_2 by done. unfold credExpired. cbn [Credential.kind Credential.expiresAt]. rewrite He, andb_false_r.
    unfold materializeDecrypted. cbn [Credential.kind]. rewrite bool_decide_eq_false_2 by done.
    unfold decryptToEnv. cbn [Credential.secretEnc Credential.fields Credential.envKey Credential.username Credential.service].
    rewrite decrypt_encrypt. cbn [obind]. cbn [saveSecret] in Esec. unfold savedEnv.
    destruct (saveFields false input) as [l|] eqn:Efl; cbn [saveSecret] in Esec.
    + injection Esec as <-. cbn [fmap option_fmap option_map]. rewrite (Hfj l eq_refl). cbn [obind tryDecrypt].
      destruct (fieldsRefusal_none l Eref) as [Hk Hn]. rewrite (fields_back l Hn).
      eexists. split; [done|]. split; [done|]. split; [done|]. intros fuel Hf. cbn [Materialized.payload].
      apply UseScript.use_script_exact; [|intros [n v] Hin|done].
      * revert Efl. clear. unfold saveFields. destruct (s_fields input) as [[|]|]; [done| |done].
        by intros [= <-].
      * apply list_elem_of_In, in_map_iff in Hin as ([[n' v'] b] & [= -> ->] & Hin). apply (Hk (n, v, b)). by apply list_elem_of_In.
    + rewrite Esec. pose proof (envName_truthy (Str.toLowerCase (Str.trim (s_service input))) (Str.trim <$> s_envKey input)) as Ht.
      set (n := default _ (keepTruthy (Str.trim <$> s_envKey input))) in *. rewrite Ht in Ekey. cbn [andb] in Ekey.
      apply negb_false_iff in Ekey. unfold keepTruthy at 1. rewrite Ht. cbn [default from_option obind tryDecrypt].
      eexists. split; [done|]. split; [done|]. split; [done|]. intros fuel Hf. cbn [Materialized.payload].
      apply UseScript.use_script_exact; [done|intros e He'|done]. by apply list_elem_of_singleton in He' as ->.
Qed.
End keychain.

(** ** Witnesses *)
Definition toyHash (parts : list string) (n : nat) : string := Str.join ":" (map ToyCipher.enc parts).

Lemma toyHash_owner a b c a' b' c' : credId toyHash a b c = credId toyHash a' b' c' -> a = a'.
Proof.
  unfold credId, toyHash. cbn [map Str.join]. intros E. apply (f_equal (Str.split ":"%char)) in E.
  change (ToyCipher.enc a +:+ ":" +:+ ToyCipher.enc b +:+ ":" +:+ ToyCipher.enc c)
    with (ToyCipher.enc a +:+ String ":" (ToyCipher.enc b +:+ String ":" (ToyCipher.enc c))) in E.
  change (ToyCipher.enc a' +:+ ":" +:+ ToyCipher.enc b' +:+ ":" +:+ ToyCipher.enc c')
    with (ToyCipher.enc a' +:+ String ":" (ToyCipher.enc b' +:+ String ":" (ToyCipher.enc c'))) in E.
  rewrite !Str.split_append, !Str.split_no_sep in E by apply ToyCipher.enc_colon. cbn in E. injection E as E _ _.
  by rewrite <- (ToyCipher.dec_enc a), E, ToyCipher.dec_enc.
Qed.

Section demo.
Definition demoSave : SaveCredentialInput :=
  mkSave "ada" "GitHub" (Some "it's s3cret") (Some "GH_TOKEN") None None None None None None None.

Definition toyFields (j : json) : string := "{}".
Definition toyParse (s : string) : outcome json := Throw "not json".

(** A keychain whose ids are readable and whose seal is no seal. *)
Definition s0 : Sys (M := Memory.t) := emptySys.
Definition s1 : Sys (M := Memory.t) :=
  mkSys (quiet toyHash "org" (fun _ s => s) toyFields (fun s => s) (QSave demoSave "iv") 1 (kc s0)) [] [].
Definition demoId : string := credId toyHash "ada" "github" "env:GH_TOKEN".


Definition kget {A} (d : A) (r : kres A) : A := match r with kok a => a | kerr _ _ => d end.
Definition isOk {A} (r : kres A) : bool := match r with kok _ => true | kerr _ _ => false end.
Lemma kget_ok {A B} (d : A * B) r : isOk r = true -> r = kok ((kget d r).1, (kget d r).2).
Proof. by destruct r as [[a b]|]. Qed.

Definition noGrant : Grant.t := Grant.mk "" "" "" None "" standing "" active 0 None None None None None.
Definition demoMint := mintGrant toyHash (mkGrantInput demoId "ada" "channel:C1" once "one deploy" None None) 2 (kc s1).
Definition minted : Grant.t * KC (M := Memory.t) := kget (noGrant, kc s1) demoMint.


Lemma once_grant_once_witness : (uses (Grant.id minted.1) [Minted minted.1 "ada"] <= 1)%nat.
Proof.
  refine (once_grant_once toyHash "org" (fun _ s => s) (fun s => Ok s) toyFields toyParse (fun s => s) None 0 0
    toyHash_owner (mkSys minted.2 [] [Minted minted.1 "ada"]) minted.1 "ada" _ _ _).
  - eapply rtc_l; [apply (Quiet toyHash "org" (fun _ s => s) (fun s => Ok s) toyFields toyParse (fun s => s) None 0 0 s0 (QSave demoSave "iv") 1)|].
    apply rtc_once. apply (Mint _ _ _ _ _ _ _ _ _ _ s1 (mkGrantInput demoId "ada" "channel:C1" once "one deploy" None None) 2 minted.1 minted.2).
    + apply kget_ok. by vm_compute.
    + by vm_compute.
  - cbn. apply list_elem_of_here.
  - by vm_compute.
Defined.

(** Two uses of one grant at the same time: both read it, one gets the secret. *)
Definition useRead := readGrant toyHash "org" (fun _ s => s) (fun s => Ok s) toyParse (fun s => s) None 0 0
  (Grant.id minted.1) "channel:C1" "i" "j" 3 minted.2.
Definition firstClaim := claimOnceGrant minted.1 "channel:C1" "bob" 4 minted.2.

Example concurrent_uses :
  isOk useRead.1 = true /\ isOk firstClaim.1 = true
  /\ (claimOnceGrant minted.1 "channel:C1" "eve" 5 firstClaim.2).1 = kerr 410 "one-time grant already used".
Proof. by vm_compute. Qed.

Lemma saved_secret_loads_witness :
  exists m, Materialized.payload m = UseScript.env_cred [("GH_TOKEN", "it's s3cret")].
Proof.
  pose (r := save toyHash "org" (fun _ s => s) toyFields (fun s => s) demoSave "iv" 1 (kc s0)).
  pose (d := (Credential.mk "" "" None "" k_env None None None None None None None None false "" "" None None 0 0 None, kc s0)).
  destruct (saved_secret_loads toyHash "org" (fun _ s => s) (fun s => Ok s) toyFields toyParse (fun s => s) None 0 0
    (fun _ _ => eq_refl) demoSave "iv" "i" "j" 1 2 (kc s0) (kget d r).2 (kget d r).1) as (m & _ & _ & Hm).
  - apply kget_ok. by vm_compute.
  - by vm_compute.
  - done.
  - done.
  - done.
  - exists m. exact (proj1 Hm).
Defined.

Definition demoAsk : Ask.t :=
  Ask.mk "a1" demoId "ada" "bob" None "channel:C1" None None "deploy" None ask_pending 1 100 None None None None.
Definition askedKC : KC (M := Memory.t) := withAsks (kc s1) (dm_put "a1" demoAsk dm_empty).

Lemma approval_exact_witness :
  grants (approveAsk toyHash "a1" "eve" once "sure" None 2 askedKC).2 = grants askedKC
  /\ isOk (approveAsk toyHash "a1" "eve" once "sure" None 2 askedKC).1 = false
  /\ isOk (approveAsk toyHash "a1" "ada" once "sure" None 2 askedKC).1 = true.
Proof.
  pose proof (approval_exact toyHash "a1" "eve" once "sure" None 2 askedKC) as Hx.
  assert (isOk (approveAsk toyHash "a1" "eve" once "sure" None 2 askedKC).1 = false) as E by (by vm_compute).
  split_and!; [|exact E|by vm_compute].
  destruct (approveAsk toyHash "a1" "eve" once "sure" None 2 askedKC) as [[[a g]|st e] k']; [done|exact (proj1 Hx)].
Defined.
End demo.
