(* ===== verification/Config.v ===== *)
(** * The configuration store

    [createMemoryConfigStore] of [src/resolution/config-store.ts].

    [Cell] is what its scoped values have in common (command policies, egress
    policies, flags, models, branding, ...): a cache in front of a durable row, whose
    writes go through a queue per key ([createKeyedQueue] of [src/util/async.ts]),
    may fail, and are noted in [pendingWrites]; another instance may write the row
    at any time; [refreshSecurity] (of the policies only) and [refreshScope] read it anew.  [Floors] are the values an organisation bounds: the security
    posture and the approval modes.  [Runtime] is the choice of harness and model.
    [Souls] is the versioned text of a scope: instances that share the durable row
    replace it by atomic updates. *)

From Stdlib Require Import ZArith Lia.
From S2P Require Import Prelude Collections Scopes Turns DurableMap Posture.
Open Scope Z_scope.

(** ** Cached values over durable rows *)
Module Cell.
Section cell.
Context {V : Type}.
(** What a scope without a row has in the cache: nothing, or for the organisation's
    own scope the default ([defaultOrgPolicy()], [{ allowedHosts: [], ... }]). *)
Variable unset : option V.

(** What one key is: the cached value, the row, the writes under way in their order
    ([None] deletes), and whether [pendingWrites] has the key. *)
Record t := mk { cache : option V; row : option V; queue : list (option V); pending : bool }.

Definition orUnset (v : option V) : option V := match v with Some _ => v | None => unset end.

(** The defaults, and [hydrate] over them. *)
Definition start (v : option V) : t := mk (orUnset v) v [] false.

(** [map.set(id, v); persist(key, () => store.put(id, v))], and the same with
    [delete] and the value of a scope without a row. *)
Definition set (v : V) (c : t) : t := mk (Some v) (row c) (queue c ++ [Some v]) true.
Definition clear (c : t) : t := mk unset (row c) (queue c ++ [None]) true.

(** The write at the head of the queue is done; the note of it is dropped when no
    other write has replaced it. *)
Definition written (c : t) : t :=
  match queue c with
  | [] => c
  | w :: rest => mk (cache c) w rest (match rest with [] => false | _ => pending c end)
  end.

(** It fails: the queue goes on, the note stays. *)
Definition writeFailed (c : t) : t :=
  match queue c with [] => c | _ :: rest => mk (cache c) (row c) rest (pending c) end.

Definition elsewhere (v : option V) (c : t) : t := mk (cache c) v (queue c) (pending c).

(** [refreshSecurity]: the row that was read, put in the cache unless a write is
    noted; without a row the cache is emptied, but not for the organisation. *)
Definition refreshWith (seen : option V) (c : t) : t :=
  if pending c then c
  else mk (match seen, unset with None, Some _ => cache c | _, _ => seen end) (row c) (queue c) (pending c).
(** [refreshScope] does not look at the notes. *)
Definition reloadWith (seen : option V) (c : t) : t := mk (orUnset seen) (row c) (queue c) (pending c).

Inductive op := Set_ (v : V) | Clear | Written | Failed | Elsewhere (v : option V) | Refresh | Reload.
Definition exec (c : t) (o : op) : t :=
  match o with
  | Set_ v => set v c
  | Clear => clear c
  | Written => written c
  | Failed => writeFailed c
  | Elsewhere v => elsewhere v c
  | Refresh => refreshWith (row c) c
  | Reload => reloadWith (row c) c
  end.
Definition execAll (ops : list op) (c : t) : t := foldl exec c ops.

(** A local history: no other instance, no failure, and no [refreshScope] (which
    may come while a write waits). *)
Definition local (o : op) : Prop := match o with Elsewhere _ | Failed | Reload => False | _ => True end.

Definition coherent (c : t) : Prop :=
  match last (queue c) with
  | Some w => cache c = orUnset w /\ pending c = true
  | None => cache c = orUnset (row c) /\ pending c = false
  end.

Lemma last_cons_some {A} (x : A) l : l <> [] -> last (x :: l) = last l.
Proof. by destruct l. Qed.

(** With nothing noted, a refresh of a coherent key changes nothing. *)
Lemma cell_refresh_coherent c : coherent c -> refreshWith (row c) c = c.
Proof.
  unfold coherent, refreshWith. destruct c as [ca r q p]; cbn [cache row queue pending].
  destruct (last q) as [w|]; intros [H1 ->]; [done|]. unfold orUnset in H1. cbn [row]. destruct r as [x|], unset as [y|]; by subst.
Qed.

Lemma cell_exec_coherent c o : local o -> coherent c -> coherent (exec c o).
Proof.
  destruct o as [v| | | |v| |]; cbn [local exec]; intros Hl Hc; try done.
  - unfold coherent. cbn. by rewrite last_snoc.
  - unfold coherent. cbn. rewrite last_snoc. done.
  - unfold coherent, written in *. destruct (queue c) as [|w rest] eqn:E; [by rewrite E|]. cbn [queue cache row pending].
    destruct rest as [|w' rest]; [cbn in Hc |- *; by destruct Hc|]. rewrite last_cons_some in Hc by done.
    destruct (last (w' :: rest)) eqn:El; [done|]. by apply last_None in El.
  - by rewrite cell_refresh_coherent.
Qed.

(** A cached setting and its row agree: whatever is set and cleared and however
    the writes lag behind, the value served is always the last one asked for, the
    queue ends with it, and once the queue is empty the row is that value and no
    write is noted; a refresh in between never brings back an older value. *)
Theorem config_write_through (ops : list op) (v : option V) (c : t) :
  c = execAll ops (start v) -> Forall local ops ->
  (queue c = [] -> cache c = orUnset (row c) /\ pending c = false)
  /\ (forall w rest, queue c = rest ++ [w] -> cache c = orUnset w /\ pending c = true)
  /\ cache c = orUnset (foldl (fun acc o => match o with Set_ x => Some x | Clear => None | _ => acc end) v ops).
Proof.
  intros -> Hl. unfold execAll.
  assert (coherent (start v) /\ cache (start v) = orUnset v) as [Hc Hv] by done. revert Hc Hv. generalize (start v) as c. intros c.
  revert c v. induction Hl as [|o ops Ho _ IH]; intros c v Hc Hv.
  - cbn. split_and!; [| |done].
    + intros E. unfold coherent in Hc. by rewrite E in Hc.
    + intros w rest E. unfold coherent in Hc. by rewrite E, last_snoc in Hc.
  - cbn [foldl]. apply IH; [by apply cell_exec_coherent|].
    destruct o; cbn [exec local] in *; try done.
    + unfold written. by destruct (queue c).
    + by rewrite cell_refresh_coherent.
Qed.

(** What other instances write, and the two ways a row is read. *)
Definition remote (o : op) : Prop := match o with Elsewhere _ | Refresh | Reload => True | _ => False end.

Lemma remote_keeps_note ops d :
  Forall remote ops -> pending d = true ->
  pending (execAll ops d) = true /\ (~ In Reload ops -> cache (execAll ops d) = cache d).
Proof.
  unfold execAll. intros Hops. revert d. induction Hops as [|o ops Ho _ IH]; intros d Hp; [done|]. cbn [foldl In].
  destruct o; try done; cbn [exec].
  - destruct (IH (elsewhere v d) Hp) as [H1 H2]. split; [done|]. intros Hn. rewrite H2 by tauto. done.
  - replace (refreshWith (row d) d) with d by (unfold refreshWith; by rewrite Hp).
    destruct (IH d Hp) as [H1 H2]. split; [done|]. intros Hn. apply H2. tauto.
  - destruct (IH (reloadWith (row d) d) Hp) as [H1 _]. split; [done|]. intros Hn. destruct Hn. by left.
Qed.

Definition ask (w : option V) : op := match w with Some v => Set_ v | None => Clear end.
Lemma ask_written w c :
  queue c = [] -> exec (exec c (ask w)) Written = mk (orUnset w) w [] false.
Proof. intros Hq. destruct w; cbn; unfold set, clear, written; cbn; by rewrite Hq. Qed.
Lemma ask_failed w c :
  queue c = [] -> exec (exec c (ask w)) Failed = mk (orUnset w) (row c) [] true.
Proof. intros Hq. destruct w; cbn; unfold set, clear, writeFailed; cbn; by rewrite Hq. Qed.

(** C38: A write that fails last (of a value, or a deletion, with no other write of the
    key in hand) pins the cache against [refreshSecurity].  While no new value is set here, and whatever other instances
    write and however often the row is read, the failed write stays noted, and the
    cache has the value that was not written, until [refreshScope], which does not
    look at the notes, reads the row; from then on it has what the last
    [refreshScope] read.  Had the write succeeded, the next [refreshSecurity] would
    bring in what another instance wrote. *)
Theorem failed_write_pins (w : option V) (c d : t) (ops : list op) :
  queue c = [] -> Forall remote ops -> d = exec (exec c (ask w)) Failed ->
  (pending (execAll ops d) = true /\ queue (exec c (ask w)) = [w])
  /\ (~ In Reload ops -> cache (execAll ops d) = orUnset w)
  /\ (forall before after, ops = before ++ Reload :: after -> ~ In Reload after ->
        cache (execAll ops d) = orUnset (row (execAll before d)))
  /\ (forall x, cache (execAll [Elsewhere (Some x); Refresh] (exec (exec c (ask w)) Written)) = Some x).
Proof.
  intros Hq Hops ->. rewrite ask_written, ask_failed by done. set (d := mk _ (row c) _ _).
  destruct (remote_keeps_note ops d Hops eq_refl) as [H1 H2]. split_and!; [done| |done| |done].
  - destruct w; cbn; by rewrite Hq.
  - intros before after -> Hn. apply Forall_app in Hops as [Hb Ha]. apply Forall_cons_1 in Ha as [_ Ha].
    unfold execAll. rewrite foldl_app. cbn [foldl exec].
    destruct (remote_keeps_note before d Hb eq_refl) as [Hp _].
    change (foldl exec d before) with (execAll before d). set (e := execAll before d) in *.
    by apply (remote_keeps_note after (reloadWith (row e) e)).
Qed.

(** A refresh whose read was overtaken by a write brings back the older value. *)
Example refresh_overtaken (a b : V) :
  let c := start (Some a) in
  let seen := row c in
  cache (refreshWith seen (written (set b c))) = Some a /\ row (refreshWith seen (written (set b c))) = Some b.
Proof. by destruct unset. Qed.

(** [refreshScope] while a write waits serves the row the write is about to replace. *)
Example reload_before_write (a b : V) :
  cache (execAll [Set_ b; Reload; Written] (start (Some a))) = Some a
  /\ row (execAll [Set_ b; Reload; Written] (start (Some a))) = Some b.
Proof. done. Qed.
End cell.
Arguments t V : clear implicits.
Arguments op V : clear implicits.

Lemma config_write_through_witness :
  row (execAll None [Set_ 1; Set_ 2; Written; Refresh; Written] (start None (Some 0))) = Some 2.
Proof.
  destruct (config_write_through None [Set_ 1; Set_ 2; Written; Refresh; Written] (Some 0)
    (execAll None [Set_ 1; Set_ 2; Written; Refresh; Written] (start None (Some 0)))) as (H1 & _ & H3).
  - done.
  - repeat constructor.
  - destruct (H1 eq_refl) as [H2 _]. rewrite H2 in H3. cbn in H3 |- *. exact eq_refl.
Defined.

(** The organisation's own scope, with the default 9: other instances write 7 and 8,
    the security refresh brings in neither, and [refreshScope] brings in 8. *)
Lemma failed_write_pins_witness :
  let d := exec (Some 9) (exec (Some 9) (start (Some 9) (Some 0)) (ask (Some 1))) Failed in
  cache (execAll (Some 9) [Elsewhere (Some 7); Refresh; Elsewhere (Some 8); Refresh] d) = Some 1
  /\ cache (execAll (Some 9) [Elsewhere (Some 7); Refresh; Elsewhere (Some 8); Reload; Elsewhere None; Refresh] d) = Some 8.
Proof.
  intros d. split.
  - assert (Hn : ~ In (@Reload Z) [Elsewhere (Some 7); Refresh; Elsewhere (Some 8); Refresh]) by (cbn; intuition discriminate).
    exact (proj1 (proj2 (failed_write_pins (Some 9) (Some 1) (start (Some 9) (Some 0)) d
      [Elsewhere (Some 7); Refresh; Elsewhere (Some 8); Refresh] eq_refl ltac:(repeat constructor) eq_refl)) Hn).
  - assert (Hn : ~ In (@Reload Z) [Elsewhere None; Refresh]) by (cbn; intuition discriminate).
    exact (proj1 (proj2 (proj2 (failed_write_pins (Some 9) (Some 1) (start (Some 9) (Some 0)) d
      [Elsewhere (Some 7); Refresh; Elsewhere (Some 8); Reload; Elsewhere None; Refresh]
      eq_refl ltac:(repeat constructor) eq_refl)))
      [Elsewhere (Some 7); Refresh; Elsewhere (Some 8)] [Elsewhere None; Refresh] eq_refl Hn).
Defined.
End Cell.

(** ** Values an organisation bounds *)
Module Floors.
Record ApprovalGrantModes := mkModes { session : bool; always : bool }.

Definition DEFAULT_APPROVAL_GRANT_MODES : ApprovalGrantModes := mkModes true true.
Definition composeApprovalGrantModes (orgModes : ApprovalGrantModes) (scope : option ApprovalGrantModes) : ApprovalGrantModes :=
  mkModes (session orgModes && match scope with Some s => session s | None => true end)
    (always orgModes && match scope with Some s => always s | None => true end).

Section floors.
Context {M : Type -> Type} `{DurableMapLaws M}.
Variable org : ScopeId.
Variable defaultSecurityPosture : SecurityPosture.

Record State := mkState {
  securityPostures : jmap ScopeId SecurityPosture; postureRows : M SecurityPosture;
  modesCache : jmap ScopeId ApprovalGrantModes; modesRows : M ApprovalGrantModes;
  unfulfilledInsights : jmap ScopeId bool; externalSlackParticipants : jmap ScopeId bool; externalRows : M bool;
}.

Definition getSecurityPosture (id : ScopeId) (s : State) : SecurityPosture :=
  let orgPosture := default defaultSecurityPosture (JMap.get (securityPostures s) org) in
  if id === org then orgPosture else composeSecurityPosture orgPosture (JMap.get (securityPostures s) id).

Definition getSecurityPostureDurable (id : ScopeId) (s : State) : SecurityPosture :=
  let orgPosture := default defaultSecurityPosture (dm_get org (postureRows s)) in
  if id === org then orgPosture else composeSecurityPosture orgPosture (dm_get id (postureRows s)).

Definition setSecurityPosture (id : ScopeId) (posture : SecurityPosture) (s : State) : State :=
  let effective := if id === org then posture
                   else composeSecurityPosture (default defaultSecurityPosture (dm_get org (postureRows s))) (Some posture) in
  mkState (JMap.set (securityPostures s) id effective) (dm_put id effective (postureRows s)) (modesCache s) (modesRows s)
    (unfulfilledInsights s) (externalSlackParticipants s) (externalRows s).

Definition clearSecurityPosture (id : ScopeId) (s : State) : State :=
  mkState (JMap.delete (securityPostures s) id) (dm_delete id (postureRows s)) (modesCache s) (modesRows s)
    (unfulfilledInsights s) (externalSlackParticipants s) (externalRows s).

Definition getApprovalGrantModes (id : ScopeId) (s : State) : ApprovalGrantModes :=
  let orgModes := default DEFAULT_APPROVAL_GRANT_MODES (JMap.get (modesCache s) org) in
  if id === org then orgModes else composeApprovalGrantModes orgModes (JMap.get (modesCache s) id).

Definition getApprovalGrantModesDurable (id : ScopeId) (s : State) : ApprovalGrantModes :=
  let orgModes := default DEFAULT_APPROVAL_GRANT_MODES (dm_get org (modesRows s)) in
  if id === org then orgModes else composeApprovalGrantModes orgModes (dm_get id (modesRows s)).

Definition setApprovalGrantModes (id : ScopeId) (modes : ApprovalGrantModes) (s : State) : State :=
  mkState (securityPostures s) (postureRows s) (JMap.set (modesCache s) id modes) (dm_put id modes (modesRows s))
    (unfulfilledInsights s) (externalSlackParticipants s) (externalRows s).

Definition clearApprovalGrantModes (id : ScopeId) (s : State) : State :=
  mkState (securityPostures s) (postureRows s) (JMap.delete (modesCache s) id) (dm_delete id (modesRows s))
    (unfulfilledInsights s) (externalSlackParticipants s) (externalRows s).

Definition getUnfulfilledInsights (id : ScopeId) (s : State) : bool :=
  default false (JMap.get (unfulfilledInsights s) org) || default false (JMap.get (unfulfilledInsights s) id).
Definition getExternalSlackParticipants (id : ScopeId) (s : State) : bool :=
  default false (JMap.get (externalSlackParticipants s) org) || default false (JMap.get (externalSlackParticipants s) id).
Definition getExternalSlackParticipantsDurable (id : ScopeId) (s : State) : bool :=
  default false (dm_get org (externalRows s)) || default false (dm_get id (externalRows s)).

Inductive op :=
| SetPosture (id : ScopeId) (p : SecurityPosture) | ClearPosture (id : ScopeId)
| SetModes (id : ScopeId) (m : ApprovalGrantModes) | ClearModes (id : ScopeId).
Definition exec (s : State) (o : op) : State :=
  match o with
  | SetPosture id p => setSecurityPosture id p s
  | ClearPosture id => clearSecurityPosture id s
  | SetModes id m => setApprovalGrantModes id m s
  | ClearModes id => clearApprovalGrantModes id s
  end.
Definition empty : State := mkState [] dm_empty [] dm_empty [] [] dm_empty.

(** The cache and the rows agree. *)
Definition mirrored (s : State) : Prop :=
  (forall id, JMap.get (securityPostures s) id = dm_get id (postureRows s))
  /\ (forall id, JMap.get (modesCache s) id = dm_get id (modesRows s)).

Lemma exec_mirrored s o : mirrored s -> mirrored (exec s o).
Proof.
  intros [H1 H2]. destruct o as [i p|i|i m|i]; (split; intros id; [rewrite ?H1|rewrite ?H2]); cbn; try done;
    rewrite ?JMap.get_set, ?JMap.get_delete, ?dm_get_put, ?dm_get_delete, ?H1, ?H2;
    repeat case_decide; repeat case_bool_decide; congruence.
Qed.

Lemma rank_compose o s : POSTURE_RANK o <= POSTURE_RANK (composeSecurityPosture o s).
Proof. unfold composeSecurityPosture. destruct s as [s|]; [|lia]. destruct (Z.leb_spec (POSTURE_RANK s) (POSTURE_RANK o)); lia. Qed.

(** Whatever an organisation and its scopes set or clear, in any order, no scope
    is ever less strict than its organisation is now: its security posture is at
    least the organisation's, an approval mode the organisation has turned off is
    off in every scope; and the cached answers are the durable ones. *)
Theorem config_floor (ops : list op) (id : ScopeId) :
  let s := foldl exec empty ops in
  POSTURE_RANK (getSecurityPosture org s) <= POSTURE_RANK (getSecurityPosture id s)
  /\ (session (getApprovalGrantModes id s) = true -> session (getApprovalGrantModes org s) = true)
  /\ (always (getApprovalGrantModes id s) = true -> always (getApprovalGrantModes org s) = true)
  /\ getSecurityPostureDurable id s = getSecurityPosture id s
  /\ getApprovalGrantModesDurable id s = getApprovalGrantModes id s.
Proof.
  cbn zeta. set (s := foldl exec empty ops).
  assert (mirrored s) as [H1 H2].
  { unfold s. assert (mirrored empty) as He by (split; intros i; cbn; by rewrite dm_get_empty).
    revert He. generalize empty. induction ops as [|o ops IH]; intros s0 Hs; [done|]. cbn. by apply IH, exec_mirrored. }
  unfold getSecurityPosture, getSecurityPostureDurable, getApprovalGrantModes, getApprovalGrantModesDurable.
  rewrite !H1, !H2, !(bool_decide_eq_true_2 (org = org)) by done.
  case_bool_decide; (split_and!; [|  | |done|done]); try done; try apply rank_compose; try reflexivity;
    cbn; intros Hx; by apply andb_true_iff in Hx as [Hx _].
Qed.
End floors.

Lemma config_floor_witness :
  POSTURE_RANK (getSecurityPosture "org:o" auto_ "channel:C" (foldl (exec "org:o" auto_) (empty (M := Memory.t))
    [SetPosture "channel:C" dangerous; SetPosture "org:o" strict])) = 2.
Proof.
  destruct (config_floor (M := Memory.t) "org:o" auto_ [SetPosture "channel:C" dangerous; SetPosture "org:o" strict] "channel:C")
    as (H1 & _). vm_compute in H1. reflexivity.
Defined.
End Floors.

(** ** The choice of harness and model *)
Module Runtime.
Record Row := mkRow {
  modelId : string; harnessId : option string; orgRevision : option Z; revision : option Z;
}.
Record Selection := mkSelection { sel_harness : string; sel_model : string }.

Section runtime.
Variable org : ScopeId.
Variable isHarnessId : string -> bool.
Variable modelSupportedByHarness : string -> string -> bool.
Definition rows : Type := jmap ScopeId Row.

Definition revisionOf (m : rows) : Z := match JMap.get m org with Some r => default 0 (revision r) | None => 0 end.

Definition setBaseModel (id : ScopeId) (model : option string) (m : rows) : rows :=
  match model with
  | None => JMap.delete m id
  | Some model =>
      let prior := JMap.get m id in
      let refused := match keepTruthy (prior ≫= harnessId) with
                     | Some h => isHarnessId h && negb (modelSupportedByHarness model h)
                     | None => false
                     end in
      if refused then m else
      JMap.set m id (mkRow model (prior ≫= harnessId) (prior ≫= orgRevision) (prior ≫= revision))
  end.

Definition getRuntimeSelection (id : ScopeId) (m : rows) : option (Selection * Z * option Z) :=
  match JMap.get m id with
  | None => None
  | Some row => match keepTruthy (harnessId row) with
                | None => None
                | Some h => Some (mkSelection h (modelId row), default 0 (orgRevision row), revision row)
                end
  end.

(** [setRuntimeSelection] on the cache, and [setRuntimeSelectionLatest] on the rows. *)
Definition setRuntimeSelection (id : ScopeId) (selection : option Selection) (m : rows) : rows :=
  match selection with
  | None => JMap.delete m id
  | Some s =>
      let next := revisionOf m + 1 in
      JMap.set m id (if id === org then mkRow (sel_model s) (Some (sel_harness s)) (Some next) (Some next)
                     else mkRow (sel_model s) (Some (sel_harness s)) (Some (revisionOf m)) None)
  end.

Definition acknowledgeRuntimeSelection (id : ScopeId) (m : rows) : rows :=
  match JMap.get m id with
  | None => m
  | Some row =>
      if id === org then m
      else JMap.set m id (mkRow (modelId row) (harnessId row) (Some (revisionOf m)) (revision row))
  end.

(** [upgradeAvailable] of a scope that has a choice of its own: the organisation's
    choice is another one than the scope has seen. *)
Definition upgradeAvailable (id : ScopeId) (m : rows) : bool :=
  match getRuntimeSelection id m with Some (_, seen, _) => negb (seen =? revisionOf m) | None => false end.

Inductive op := Choose (id : ScopeId) (s : Selection) | Acknowledge (id : ScopeId).
Definition exec (m : rows) (o : op) : rows :=
  match o with
  | Choose id s => setRuntimeSelection id (Some s) m
  | Acknowledge id => acknowledgeRuntimeSelection id m
  end.

(** Whether the organisation has chosen since the scope last chose or saw. *)
Fixpoint orgMoved (id : ScopeId) (ops : list op) (moved : bool) : bool :=
  match ops with
  | [] => moved
  | Choose i _ :: rest => orgMoved id rest (if i === org then true else if i === id then false else moved)
  | Acknowledge i :: rest => orgMoved id rest (if i === id then false else moved)
  end.

Lemma exec_revision m o : revisionOf m <= revisionOf (exec m o) /\
  (revisionOf (exec m o) = revisionOf m + match o with Choose i _ => if i === org then 1 else 0 | _ => 0 end).
Proof.
  unfold revisionOf. destruct o as [i s|i]; cbn.
  - rewrite JMap.get_set. destruct (decide (i = org)) as [->|Hi].
    + rewrite !bool_decide_eq_true_2 by done. (try case_decide; try done). cbn. unfold revisionOf. lia.
    + rewrite !bool_decide_eq_false_2 by done. try rewrite decide_False by done. lia.
  - unfold acknowledgeRuntimeSelection. destruct (JMap.get m i) as [row|] eqn:E; [|lia].
    case_bool_decide as Hi; [lia|]. rewrite JMap.get_set. try rewrite bool_decide_eq_false_2 by done.
    try rewrite decide_False by done. lia.
Qed.

Definition tracks (id : ScopeId) (m : rows) (moved : bool) : Prop :=
  match JMap.get m id with
  | Some row => exists h seen, harnessId row = Some h /\ h <> "" /\ orgRevision row = Some seen /\ seen <= revisionOf m
      /\ moved = negb (seen =? revisionOf m)
  | None => True
  end.

Lemma exec_tracks id m o moved : id <> org -> match o with Choose _ s => sel_harness s <> "" | _ => True end ->
  tracks id m moved -> tracks id (exec m o) (orgMoved id [o] moved).
Proof.
  intros Hid Hs Ht. pose proof (exec_revision m o) as [_ Hr]. unfold tracks in *. rewrite Hr. clear Hr.
  destruct o as [i s|i]; cbn [exec orgMoved setRuntimeSelection].
  - rewrite JMap.get_set. destruct (decide (i = id)) as [->|Hi].
    + rewrite ?(bool_decide_eq_true_2 (id = id)), ?decide_True by done.
      rewrite !(bool_decide_eq_false_2 (id = org)) by done.
      exists (sel_harness s), (revisionOf m). cbn. split_and!; [done|done|done|lia|].
      rewrite Z.add_0_r, Z.eqb_refl. done.
    + rewrite ?(bool_decide_eq_false_2 (i = id)), ?decide_False by done.
      destruct (JMap.get m id) as [row|]; [|done]. destruct Ht as (h & seen & A & B & C & D & ->).
      exists h, seen. split_and!; [done|done|done|case_bool_decide; lia|].
      case_bool_decide; [|by rewrite Z.add_0_r]. symmetry. apply negb_true_iff, Z.eqb_neq. lia.
  - rewrite Z.add_0_r. unfold acknowledgeRuntimeSelection.
    destruct (decide (i = id)) as [->|Hi].
    + rewrite (bool_decide_eq_true_2 (id = id)) by done. destruct (JMap.get m id) as [row|] eqn:E; [|by rewrite E].
      rewrite (bool_decide_eq_false_2 (id = org)) by done. rewrite JMap.get_set.
      rewrite ?(bool_decide_eq_true_2 (id = id)), ?decide_True by done.
      destruct Ht as (h & seen & A & B & C & D & ->). exists h, (revisionOf m). cbn.
      split_and!; [done|done|done|lia|]. by rewrite Z.eqb_refl.
    + rewrite (bool_decide_eq_false_2 (i = id)) by done. destruct (JMap.get m i) as [row|] eqn:E; [|done].
      case_bool_decide; [done|]. rewrite JMap.get_set. by rewrite ?(bool_decide_eq_false_2 (i = id)), ?decide_False by done.
Qed.

(** A scope with its own choice is told of an upgrade exactly when the
    organisation has chosen since the scope last chose or acknowledged (the
    organisation's choice is not withdrawn in between). *)
Theorem upgrade_shown_exact (id : ScopeId) (ops : list op) :
  id <> org -> Forall (fun o => match o with Choose _ s => sel_harness s <> "" | _ => True end) ops ->
  let m := foldl exec [] ops in
  getRuntimeSelection id m <> None -> upgradeAvailable id m = orgMoved id ops false.
Proof.
  intros Hid Hops. cbn zeta.
  assert (forall m moved, tracks id m moved -> tracks id (foldl exec m ops) (orgMoved id ops moved)) as Hall.
  { induction Hops as [|o ops Ho _ IH]; intros m moved Ht; [done|]. cbn [foldl].
    replace (orgMoved id (o :: ops) moved) with (orgMoved id ops (orgMoved id [o] moved)) by (by destruct o).
    by apply IH, exec_tracks. }
  specialize (Hall [] false I). unfold tracks, upgradeAvailable, getRuntimeSelection in *.
  destruct (JMap.get (foldl exec [] ops) id) as [row|]; [|done].
  destruct Hall as (h & seen & A & B & C & D & E). rewrite A. cbn [keepTruthy]. unfold Str.truthy.
  rewrite bool_decide_eq_false_2 by done. cbn [negb]. intros _. by rewrite C.
Qed.
End runtime.

Lemma upgrade_shown_exact_witness :
  upgradeAvailable "org:o" "channel:C"
    (foldl (exec "org:o") [] [Choose "channel:C" (mkSelection "pi" "m"); Choose "org:o" (mkSelection "pi" "n")]) = true.
Proof.
  rewrite (upgrade_shown_exact "org:o" "channel:C" [Choose "channel:C" (mkSelection "pi" "m"); Choose "org:o" (mkSelection "pi" "n")]).
  - reflexivity.
  - done.
  - by repeat constructor.
  - by vm_compute.
Defined.

(** Withdrawing the organisation's choice forgets its revision, so a later choice
    can carry the number a scope has already seen. *)
Example withdrawn_choice_unseen :
  let m := foldl (exec "org:o") [] [Choose "org:o" (mkSelection "pi" "a"); Choose "channel:C" (mkSelection "pi" "m")] in
  let m := exec "org:o" (setRuntimeSelection "org:o" "org:o" None m) (Choose "org:o" (mkSelection "pi" "b")) in
  upgradeAvailable "org:o" "channel:C" m = false.
Proof. reflexivity. Qed.
End Runtime.

(** ** The text of a scope *)
Module Souls.
Record Revision := mkRevision { content : string; version : Z; updatedAt : Z; updatedBy : option string }.

Record PersistedSoul := mkSoul {
  p_content : string; p_version : Z; p_updatedAt : option Z; p_updatedBy : option string;
  history : option (list Revision); mutationId : option string;
}.

(** The revisions of both lists by version, the embedded one of two with the same
    version, the newest first. *)
Definition mergeSoulHistory (embedded : option (list Revision)) (legacy : list Revision) : list Revision :=
  let file m l := foldl (fun m r => JMap.set m (version r) r) m l in
  Arr.sort (Arr.by_key_desc version) (JMap.values (file (file [] legacy) (default [] embedded))).

Definition historyIncludingCurrent (current : PersistedSoul) (legacy : list Revision) : list Revision :=
  let h := mergeSoulHistory (history current) legacy in
  if existsb (fun r => version r =? p_version current) h then h
  else Arr.sort (Arr.by_key_desc version)
         (h ++ [mkRevision (p_content current) (p_version current) (default 0 (p_updatedAt current))
                  (keepTruthy (p_updatedBy current))]).

(** What a call brings: the text, who and when, the random id of its change, and
    what the instance it runs in has at hand (the version it has cached, the
    revisions of the old table). *)
Record Call := mkCall {
  c_content : string; c_updatedBy : option string; c_at : Z; c_mutation : string; c_base : Z; c_legacy : list Revision;
}.

Definition revisionAt (v : Z) (c : Call) : Revision := mkRevision (c_content c) v (c_at c) (keepTruthy (c_updatedBy c)).

Definition withRevision (r : Revision) (h : list Revision) (mutation : string) : PersistedSoul :=
  mkSoul (content r) (version r) (Some (updatedAt r)) (updatedBy r) (Some (r :: h)) (Some mutation).

(** [append] of [setSoulLatest], and the update of [setSoulIfVersion]. *)
Definition append (c : Call) (current : PersistedSoul) : PersistedSoul :=
  withRevision (revisionAt (p_version current + 1) c)
    (historyIncludingCurrent current (match history current with None => c_legacy c | Some _ => [] end)) (c_mutation c).

Definition candidate (v : Z) (c : Call) : PersistedSoul := withRevision (revisionAt v c) [] (c_mutation c).

(** The places between the atomic operations on the durable row where a call may
    be, and how it ends. *)
Inductive pc :=
| LatestUpdate (c : Call)          (** [setSoulLatest]: [update(id, append)] *)
| LatestInsert (c : Call)          (** the row was missing: [putIfAbsent] *)
| LatestAgain (c : Call)           (** somebody else's row is there: [update] again *)
| IfRead (expected : Z) (c : Call) (** [setSoulIfVersion]: [get] *)
| IfInsert (expected : Z) (c : Call)
| IfUpdate (expected : Z) (c : Call)
| Saved (v : Z) | Refused | Failed_.

(** One atomic operation: where the call goes, the row, the revision it adds. *)
Definition act (p : pc) (row : option PersistedSoul) : pc * option PersistedSoul * option Revision :=
  let appended c cur := (Saved (p_version cur + 1), Some (append c cur), Some (revisionAt (p_version cur + 1) c)) in
  let mine c cur := mutationId cur === Some (c_mutation c) in
  match p, row with
  | LatestUpdate c, Some cur => appended c cur
  | LatestUpdate c, None => (LatestInsert c, None, None)
  | LatestInsert c, None =>
      (Saved (c_base c + 1), Some (candidate (c_base c + 1) c), Some (revisionAt (c_base c + 1) c))
  | LatestInsert c, Some cur => (if mine c cur then Saved (p_version cur) else LatestAgain c, row, None)
  | LatestAgain c, Some cur => appended c cur
  | LatestAgain c, None => (Failed_, None, None)
  | IfRead e c, None => (if c_base c =? e then IfInsert e c else Refused, None, None)
  | IfRead e c, Some _ => (IfUpdate e c, row, None)
  | IfInsert e c, None => (Saved (e + 1), Some (candidate (e + 1) c), Some (revisionAt (e + 1) c))
  | IfInsert e c, Some cur => (if mine c cur then Saved (p_version cur) else Refused, row, None)
  | IfUpdate e c, Some cur => if p_version cur =? e then appended c cur else (Refused, row, None)
  | IfUpdate e c, None => (Refused, None, None)
  | p, _ => (p, row, None)
  end.

Definition setSoulLatest (c : Call) : pc := LatestUpdate c.
Definition setSoulIfVersion (expected : Z) (c : Call) : pc := IfRead expected c.

(** The calls of all instances under way, and the revisions accepted, newest first. *)
Record Sys := mkSys { row : option PersistedSoul; calls : list pc; accepted : list Revision }.

Inductive step (s : Sys) : Sys -> Prop :=
| Begin p : (exists c, p = setSoulLatest c \/ exists e, p = setSoulIfVersion e c) ->
    step s (mkSys (row s) (calls s ++ [p]) (accepted s))
| Act l1 p l2 p' row' r : calls s = l1 ++ p :: l2 -> act p (row s) = (p', row', r) ->
    step s (mkSys row' (l1 ++ p' :: l2) (match r with Some r => r :: accepted s | None => accepted s end)).

(** The newest first, each version one more than the one after it. *)
Fixpoint consecutive (l : list Revision) : Prop :=
  match l with
  | r :: ((r' :: _) as rest) => version r = version r' + 1 /\ consecutive rest
  | _ => True
  end.

(** A row as the two calls write it. *)
Definition good (p : PersistedSoul) (h : list Revision) : Prop :=
  history p = Some h /\ consecutive h /\
  exists r rest, h = r :: rest /\ version r = p_version p /\ content r = p_content p.

Lemma consecutive_below h r : consecutive (r :: h) -> Forall (fun x => version x < version r) h.
Proof.
  revert r. induction h as [|r' h IH]; intros r Hc; [done|]. destruct Hc as [Hv Hc].
  constructor; [lia|]. specialize (IH r' Hc). eapply Forall_impl; [exact IH|]. cbn. intros x Hx. lia.
Qed.

Lemma file_fresh (h : list Revision) m :
  (forall r, r ∈ h -> JMap.get m (version r) = None) -> NoDup (map version h) ->
  JMap.values (foldl (fun m r => JMap.set m (version r) r) m h) = JMap.values m ++ h.
Proof.
  revert m. induction h as [|r h IH]; intros m Hf Hn; [by rewrite app_nil_r|]. cbn [foldl map] in *.
  apply NoDup_cons in Hn as [Hr Hn]. rewrite IH; [|intros x Hx|done].
  - rewrite JMap.values_set_new by (apply Hf, list_elem_of_here). by rewrite <- app_assoc.
  - rewrite JMap.get_set_ne; [by apply Hf, list_elem_of_further|]. intros E. apply Hr. rewrite E.
    apply list_elem_of_In, in_map_iff. exists x. split; [done|]. by apply list_elem_of_In.
Qed.

Lemma consecutive_NoDup h : consecutive h -> NoDup (map version h).
Proof.
  induction h as [|r h IH]; intros Hc; [constructor|]. pose proof (consecutive_below h r Hc) as Hb. cbn. constructor.
  - intros Hin. apply list_elem_of_In, in_map_iff in Hin as (x & Ex & Hx). apply list_elem_of_In in Hx.
    rewrite Forall_forall in Hb. specialize (Hb x Hx). lia.
  - apply IH. by destruct h; [|destruct Hc].
Qed.

Lemma sort_consecutive h : consecutive h -> Arr.sort (Arr.by_key_desc version) h = h.
Proof.
  induction h as [|r h IH]; intros Hc; [done|]. cbn [Arr.sort].
  assert (consecutive h) as Hh by (by destruct h; [|destruct Hc]). rewrite (IH Hh).
  destruct h as [|r' h]; [done|]. cbn. destruct Hc as [Hv _]. unfold Arr.by_key_desc.
  destruct (Z.leb_spec (version r') (version r)); [done|lia].
Qed.

Lemma merge_good h : consecutive h -> mergeSoulHistory (Some h) [] = h.
Proof.
  intros Hc. pose proof (file_fresh h [] (fun _ _ => eq_refl) (consecutive_NoDup h Hc)) as Hf.
  transitivity (Arr.sort (Arr.by_key_desc version) h); [|by apply sort_consecutive].
  unfold mergeSoulHistory. f_equal. exact Hf.
Qed.

Lemma append_good c cur h : good cur h ->
  append c cur = withRevision (revisionAt (p_version cur + 1) c) h (c_mutation c)
  /\ good (append c cur) (revisionAt (p_version cur + 1) c :: h).
Proof.
  intros (Hh & Hc & r & rest & -> & Hv & Hct). unfold append. rewrite Hh. unfold historyIncludingCurrent. rewrite Hh.
  rewrite merge_good by done. cbn [existsb]. rewrite (proj2 (Z.eqb_eq _ _) Hv). cbn [orb]. split; [done|].
  split; [done|]. split; [by split; [cbn; lia|]|]. by eexists _, _.
Qed.

Definition goodRow (row : option PersistedSoul) (h : list Revision) : Prop :=
  match row with Some p => good p h | None => h = [] end.

Lemma candidate_good v c : good (candidate v c) [revisionAt v c].
Proof. split; [done|]. split; [done|]. by eexists _, _. Qed.

Lemma act_good p row h p' row' r : goodRow row h -> act p row = (p', row', r) ->
  goodRow row' (match r with Some r => r :: h | None => h end).
Proof.
  assert (forall c cur, good cur h -> goodRow (Some (append c cur)) (revisionAt (p_version cur + 1) c :: h)) as Ha.
  { intros c cur Hg. apply (append_good c cur h Hg). }
  intros Hg Hact. destruct p as [c|c|c|e c|e c|e c|v| |], row as [cur|]; cbn in Hact, Hg; simplify_eq; try done;
    try (by apply Ha); try apply candidate_good.
  destruct (p_version cur =? e); simplify_eq; [by apply Ha|done].
Qed.

(** However calls of any number of instances that replace a scope's text
    interleave - the ones that take the latest version and the ones that insist on
    the version they have seen - no accepted text is lost or overwritten: the row
    holds every accepted revision, the newest first, each with the version after
    the one before, and the text served is the last accepted; so of two calls that
    insist on one version at most one is accepted. *)
Theorem soul_history_complete (s0 s : Sys) :
  row s0 = None -> accepted s0 = [] -> rtc step s0 s ->
  match row s with
  | None => accepted s = []
  | Some p => history p = Some (accepted s) /\ exists r rest, accepted s = r :: rest /\ content r = p_content p
                /\ version r = p_version p
  end
  /\ consecutive (accepted s) /\ NoDup (map version (accepted s)).
Proof.
  intros Hr Ha Hs. assert (goodRow (row s) (accepted s)) as Hg.
  { assert (goodRow (row s0) (accepted s0)) as Hg0 by (by rewrite Hr, Ha). clear Hr Ha.
    induction Hs as [|s1 s2 s3 Hst _ IH]; [done|]. apply IH. destruct Hst as [p _|l1 p l2 p' row' r Hl Hact]; [done|].
    exact (act_good p (row s1) (accepted s1) p' row' r Hg0 Hact). }
  destruct (row s) as [p|].
  - destruct Hg as (Hh & Hc & r & rest & Hx & Hv & Hct). split; [|split; [done|by apply consecutive_NoDup]].
    split; [done|]. by exists r, rest.
  - cbn in Hg. rewrite Hg. split_and!; [done|done|constructor].
Qed.

(** ** Witness *)
Definition one : Call := mkCall "first" None 1 "a" 0 [].
Definition two : Call := mkCall "second" None 2 "b" 0 [].

(** Two calls insist on version 0 at the same time; the second is refused. *)
Definition raced : Sys :=
  mkSys (Some (candidate 1 one)) [Saved 1; Refused] [revisionAt 1 one].

Lemma soul_history_complete_witness : NoDup (map version (accepted raced)).
Proof.
  refine (proj2 (proj2 (soul_history_complete (mkSys None [] []) raced eq_refl eq_refl _))).
  eapply rtc_l; [apply (Begin _ (setSoulIfVersion 0 one)); exists one; right; by exists 0|].
  eapply rtc_l; [apply (Begin _ (setSoulIfVersion 0 two)); exists two; right; by exists 0|].
  eapply rtc_l; [apply (Act _ [] (IfRead 0 one) [IfRead 0 two] (IfInsert 0 one) None None); done|].
  eapply rtc_l; [apply (Act _ [IfInsert 0 one] (IfRead 0 two) [] (IfInsert 0 two) None None); done|].
  eapply rtc_l; [apply (Act _ [] (IfInsert 0 one) [IfInsert 0 two] (Saved 1) (Some (candidate 1 one)) (Some (revisionAt 1 one))); done|].
  apply rtc_once. exact (Act (mkSys (Some (candidate 1 one)) [Saved 1; IfInsert 0 two] [revisionAt 1 one])
    [Saved 1] (IfInsert 0 two) [] Refused (Some (candidate 1 one)) None eq_refl eq_refl).
Defined.
End Souls.
