(* ===== verification/Leases.v ===== *)
(** * Leases: advisory locks and the leader lease

    [Server] is what the code relies on of PostgreSQL's session advisory locks
    ([pg_try_advisory_lock], [pg_advisory_unlock]): a lock belongs to a session, is
    counted, and goes with its session.  [Lease] is
    [createPostgresLeaderLease] of [src/persistence/leader-lease.ts] for any
    number of processes sharing one server: every await-free stretch of [hold],
    [drop] and [client] is one event, and connections may fail at any time on
    either side.  [Advisory] is [createPostgresAdvisoryLock] of
    [src/persistence/advisory-lock.ts], which checks out a client for each
    attempt.  The hash [hashtextextended] is a parameter: nothing is assumed of it,
    so two keys may share a lock. *)

From Stdlib Require Import ZArith Lia.
From S2P Require Import Prelude Collections.
From stdpp Require Import gmap.

(** ** Session advisory locks of the server *)
Module Server.

Record t := mk { alive : gset nat; locks : gmap Z (nat * nat) }.

Definition empty : t := mk ∅ ∅.

(** A new session. *)
Definition connect (s : nat) (v : t) : t := mk ({[ s ]} ∪ alive v) (locks v).

(** [pg_try_advisory_lock]: the answer and the locks afterwards. *)
Definition tryLock (s : nat) (h : Z) (v : t) : bool * t :=
  match locks v !! h with
  | None => (true, mk (alive v) (<[h := (s, 1%nat)]> (locks v)))
  | Some (s', n) => if decide (s' = s) then (true, mk (alive v) (<[h := (s, S n)]> (locks v))) else (false, v)
  end.

(** [pg_advisory_unlock]. *)
Definition unlock (s : nat) (h : Z) (v : t) : bool * t :=
  match locks v !! h with
  | Some (s', S n) =>
    if decide (s' = s)
    then (true, mk (alive v) (if decide (n = 0%nat) then delete h (locks v) else <[h := (s, n)]> (locks v)))
    else (false, v)
  | _ => (false, v)
  end.

(** The session ends: the server frees what it held. *)
Definition endSession (s : nat) (v : t) : t :=
  mk (alive v ∖ {[ s ]}) (filter (fun '(_, (s', _)) => s' <> s) (locks v)).

(** How often session [s] holds lock [h]. *)
Definition count (v : t) (s : nat) (h : Z) : nat :=
  match locks v !! h with Some (s', n) => if decide (s' = s) then n else 0%nat | None => 0%nat end.

(** Held locks belong to sessions that are alive. *)
Definition ok (v : t) : Prop := forall h s n, locks v !! h = Some (s, n) -> s ∈ alive v /\ (0 < n)%nat.

Lemma ok_empty : ok empty.
Proof. done. Qed.

Lemma connect_ok s v : ok v -> ok (connect s v).
Proof. intros H h s' n E. destruct (H _ _ _ E). cbn. set_solver. Qed.

Lemma tryLock_alive s h v : alive (tryLock s h v).2 = alive v.
Proof. unfold tryLock. repeat case_match; done. Qed.

Lemma unlock_alive s h v : alive (unlock s h v).2 = alive v.
Proof. unfold unlock. repeat case_match; done. Qed.

Lemma tryLock_ok s h v : s ∈ alive v -> ok v -> ok (tryLock s h v).2.
Proof.
  intros Hs H h' s' n. unfold tryLock. destruct (locks v !! h) as [[s1 n1]|] eqn:E; [case_decide|]; cbn.
  - subst. intros [[? [= <- <-]]|[? E']]%lookup_insert_Some; [split; [done|lia]|eauto].
  - eauto.
  - intros [[? [= <- <-]]|[? E']]%lookup_insert_Some; [split; [done|lia]|eauto].
Qed.

Lemma unlock_ok s h v : ok v -> ok (unlock s h v).2.
Proof.
  intros H h' s' n. unfold unlock. destruct (locks v !! h) as [[s1 [|n1]]|] eqn:E; try (by eauto); cbn.
  case_decide; [|by eauto]; cbn. case_decide; cbn.
  - intros [? E']%lookup_delete_Some. eauto.
  - intros [[? [= <- <-]]|[? E']]%lookup_insert_Some; [|eauto].
    subst. destruct (H _ _ _ E). split; [done|lia].
Qed.

Lemma endSession_ok s v : ok v -> ok (endSession s v).
Proof.
  intros H h' s' n. cbn. intros [E Hne]%map_lookup_filter_Some. destruct (H _ _ _ E). cbn in *. set_solver.
Qed.

Lemma count_connect s v s' h : count (connect s v) s' h = count v s' h.
Proof. done. Qed.

Lemma count_tryLock s h v s' h' :
  count (tryLock s h v).2 s' h' =
  (count v s' h' + (if (tryLock s h v).1 && bool_decide (s' = s) && bool_decide (h' = h) then 1 else 0))%nat.
Proof.
  unfold tryLock, count. destruct (decide (h' = h)) as [->|Hh].
  - rewrite (bool_decide_eq_true_2 (h = h)) by done.
    destruct (locks v !! h) as [[s1 n1]|] eqn:E; [destruct (decide (s1 = s)) as [->|Hs]|]; cbn;
      rewrite ?lookup_insert_eq, ?E; repeat case_decide; subst;
      rewrite ?bool_decide_eq_true_2, ?bool_decide_eq_false_2 by congruence; cbn; lia.
  - rewrite (bool_decide_eq_false_2 (h' = h)) by done. rewrite andb_false_r, Nat.add_0_r.
    destruct (locks v !! h) as [[s1 n1]|] eqn:E; [destruct (decide (s1 = s)) as [->|Hs]|]; cbn;
      rewrite ?lookup_insert_ne by done; done.
Qed.

Lemma count_unlock s h v s' h' : ok v ->
  (unlock s h v).1 = bool_decide (0 < count v s h)%nat /\
  count (unlock s h v).2 s' h' =
  (count v s' h' - (if bool_decide (s' = s) && bool_decide (h' = h) then 1 else 0))%nat.
Proof.
  intros Hok. unfold unlock, count. destruct (locks v !! h) as [[s1 [|n1]]|] eqn:E.
  - destruct (Hok _ _ _ E). lia.
  - destruct (decide (s1 = s)) as [->|Hs]; cbn.
    + split; [rewrite bool_decide_eq_true_2; [done|lia]|].
      destruct (decide (h' = h)) as [->|Hh].
      * rewrite (bool_decide_eq_true_2 (h = h)), E by done.
        destruct (decide (n1 = 0)%nat); rewrite ?lookup_delete_eq, ?lookup_insert_eq; repeat case_decide; subst;
          rewrite ?bool_decide_eq_true_2, ?bool_decide_eq_false_2 by congruence; cbn; lia.
      * rewrite (bool_decide_eq_false_2 (h' = h)), andb_false_r, Nat.sub_0_r by done.
        destruct (decide (n1 = 0)%nat); rewrite ?lookup_delete_ne, ?lookup_insert_ne by done; done.
    + split; [by rewrite bool_decide_eq_false_2 by lia|].
      destruct (decide (s' = s)) as [->|]; [|rewrite bool_decide_eq_false_2 by done; symmetry; apply Nat.sub_0_r].
      destruct (decide (h' = h)) as [->|]; [|rewrite (bool_decide_eq_false_2 (h' = h)), andb_false_r by done; symmetry; apply Nat.sub_0_r].
      cbn. by rewrite E, decide_False by done.
  - split; [by rewrite bool_decide_eq_false_2 by lia|].
    destruct (decide (h' = h)) as [->|]; [|rewrite (bool_decide_eq_false_2 (h' = h)), andb_false_r by done; symmetry; apply Nat.sub_0_r].
    cbn. by rewrite E.
Qed.

Lemma count_endSession s v s' h : s' <> s -> count (endSession s v) s' h = count v s' h.
Proof.
  intros Hne. unfold count. cbn. destruct (locks v !! h) as [[s1 n1]|] eqn:E.
  - destruct (decide (s1 = s)) as [->|Hs].
    + rewrite map_lookup_filter_None_2; [by rewrite decide_False by done|].
      right. intros [] E'. rewrite E in E'. simplify_eq. cbn. congruence.
    + rewrite (map_lookup_filter_Some_2 _ _ h (s1, n1)); done.
  - rewrite map_lookup_filter_None_2; [done|]. by left.
Qed.

(** A lock has one owner. *)
Lemma count_owner v s s' h : (0 < count v s h)%nat -> (0 < count v s' h)%nat -> s = s'.
Proof. unfold count. destruct (locks v !! h) as [[s1 n]|]; repeat case_decide; subst; try lia; done. Qed.

Lemma count_dead v s h : ok v -> s ∉ alive v -> count v s h = 0%nat.
Proof.
  intros H Hs. unfold count. destruct (locks v !! h) as [[s1 n]|] eqn:E; [|done].
  case_decide; [|done]. subst. by destruct (H _ _ _ E).
Qed.

Lemma tryLock_won s h v : (tryLock s h v).1 = true -> (0 < count (tryLock s h v).2 s h)%nat.
Proof. intros E. rewrite count_tryLock, E, !bool_decide_eq_true_2 by done. cbn. lia. Qed.

End Server.

(** ** The leader lease *)
Module Lease.
Section lease.
Context (hashtextextended : string -> Z).

(** What became of a [Conn]: its [cp] is pending, it is the client of session
    [s], the client was destroyed or went back to the pool, or [cp] rejected. *)
Inductive Status := Connecting | Open (s : nat) | Destroyed (s : nat) | Returned (s : nat) | Failed.

(** Where a call of [hold] is: awaiting [entry.cp] or the answer to its lock query,
    in [fn] (has [lost] been resolved?), or awaiting the answer to the unlock. *)
Inductive Phase := Waiting | Running (lost : bool) | Unlocking.

Record Hold := mkHold { h_key : string; h_entry : nat; h_phase : Phase }.

(** A process: [conn], [held], the calls of [hold] in progress, and the callbacks
    on [entry.cp] left by the calls that ended. *)
Record Proc := mkProc { conn : option nat; held : gset string; holds : list Hold; cleanups : list nat }.

Definition newProc : Proc := mkProc None ∅ [] [].

(** All processes with the server and the idle clients of the pool.  Entries and
    sessions are numbered; an entry records its process. *)
Record Sys := mkSys {
  srv : Server.t; idle : gset nat; nextSess : nat;
  entries : gmap nat (nat * Status); nextEntry : nat; procs : gmap nat Proc }.

Definition start : Sys := mkSys Server.empty ∅ 0 ∅ 0 ∅.

Definition proc (y : Sys) (p : nat) : Proc := default newProc (procs y !! p).

Definition setProc (p : nat) (P : Proc) (y : Sys) : Sys :=
  mkSys (srv y) (idle y) (nextSess y) (entries y) (nextEntry y) (<[p := P]> (procs y)).
Definition setSrv (v : Server.t) (y : Sys) : Sys :=
  mkSys v (idle y) (nextSess y) (entries y) (nextEntry y) (procs y).
Definition setStatus (e p : nat) (st : Status) (y : Sys) : Sys :=
  mkSys (srv y) (idle y) (nextSess y) (<[e := (p, st)]> (entries y)) (nextEntry y) (procs y).
Definition setIdle (i : gset nat) (y : Sys) : Sys :=
  mkSys (srv y) i (nextSess y) (entries y) (nextEntry y) (procs y).

Definition lockName (key : string) : Z := hashtextextended ("leader-lease:" ++ key)%string.

Definition on (e : nat) (h : Hold) : bool := bool_decide (h_entry h = e).

(** [for (const notify of entry.lost) notify(); entry.lost.clear()]: a call has a
    [notifyLost] in the set exactly while it is in [fn]. *)
Definition notify (e : nat) (h : Hold) : Hold :=
  match h_phase h with
  | Running _ => if on e h then mkHold (h_key h) (h_entry h) (Running true) else h
  | _ => h
  end.

Definition drop (e : nat) (destroy : bool) (y : Sys) : Sys :=
  match entries y !! e with
  | Some (p, Open s) =>
    let P := proc y p in
    if negb (bool_decide (conn P = Some e)) then y else
    let y := setProc p (mkProc None (held P) (map (notify e) (holds P)) (cleanups P)) y in
    if destroy then setStatus e p (Destroyed s) y
    else setIdle ({[ s ]} ∪ idle y) (setStatus e p (Returned s) y)
  | _ => y
  end.

(** [client]: the current entry, or a new one whose connection is pending. *)
Definition client (p : nat) (y : Sys) : nat * Sys :=
  let P := proc y p in
  match conn P with
  | Some e => (e, y)
  | None =>
    let e := nextEntry y in
    (e, mkSys (srv y) (idle y) (nextSess y) (<[e := (p, Connecting)]> (entries y)) (S e)
          (<[p := mkProc (Some e) (held P) (holds P) (cleanups P)]> (procs y)))
  end.

(** [hold] up to its first await; [held.has(key)] answers [null] at once. *)
Definition hold (p : nat) (key : string) (y : Sys) : Sys :=
  let P := proc y p in
  if bool_decide (key ∈ held P) then y else
  let y := setProc p (mkProc (conn P) ({[ key ]} ∪ held P) (holds P) (cleanups P)) y in
  let '(e, y) := client p y in
  let P := proc y p in
  setProc p (mkProc (conn P) (held P) (mkHold key e Waiting :: holds P) (cleanups P)) y.

(** The outer [finally]: [held.delete(key)] and the callback on [entry.cp]. *)
Definition finish (p : nat) (h : Hold) (y : Sys) : Sys :=
  let P := proc y p in
  setProc p (mkProc (conn P) (held P ∖ {[ h_key h ]})
               (List.filter (fun h' => negb (h_key h' =? h_key h)%string) (holds P))
               (h_entry h :: cleanups P)) y.

Definition setPhase (p : nat) (h : Hold) (ph : Phase) (y : Sys) : Sys :=
  let P := proc y p in
  setProc p (mkProc (conn P) (held P)
               (map (fun h' => if (h_key h' =? h_key h)%string then mkHold (h_key h) (h_entry h) ph else h') (holds P))
               (cleanups P)) y.

(** A query is answered, or fails; a query that fails may still have been
    executed. *)
Inductive Reply := Answer | Error (executed : bool).

(** The lock query of a waiting call is answered. *)
Definition tryStep (p : nat) (h : Hold) (r : Reply) (y : Sys) : option Sys :=
  match entries y !! h_entry h, r with
  | Some (_, Open s), Answer =>
    if negb (bool_decide (s ∈ Server.alive (srv y))) then None else
    let '(won, v) := Server.tryLock s (lockName (h_key h)) (srv y) in
    let y := setSrv v y in
    Some (if won then setPhase p h (Running false) y else finish p h y)
  | Some (_, Open s), Error executed =>
    let v := if executed && bool_decide (s ∈ Server.alive (srv y))
             then (Server.tryLock s (lockName (h_key h)) (srv y)).2 else srv y in
    Some (finish p h (drop (h_entry h) true (setSrv v y)))
  | Some (_, Destroyed _), Error _ => Some (finish p h (drop (h_entry h) true y))
  | _, _ => None
  end.

(** The unlock query of a call whose [fn] has settled is answered. *)
Definition unlockStep (p : nat) (h : Hold) (r : Reply) (y : Sys) : option Sys :=
  match entries y !! h_entry h, r with
  | Some (_, Open s), Answer =>
    if negb (bool_decide (s ∈ Server.alive (srv y))) then None else
    let '(released, v) := Server.unlock s (lockName (h_key h)) (srv y) in
    let y := setSrv v y in
    Some (finish p h (if released then y else drop (h_entry h) true y))
  | Some (_, Open s), Error executed =>
    let v := if executed && bool_decide (s ∈ Server.alive (srv y))
             then (Server.unlock s (lockName (h_key h)) (srv y)).2 else srv y in
    Some (finish p h (drop (h_entry h) true (setSrv v y)))
  | Some (_, Destroyed _), Error _ => Some (finish p h (drop (h_entry h) true y))
  | _, _ => None
  end.

(** The callback on [entry.cp]: [if (held.size === 0) drop(entry, c, false)]. *)
Definition cleanup (p e : nat) (y : Sys) : Sys :=
  if bool_decide (held (proc y p) = ∅) then drop e false y else y.

Fixpoint removeOne (e : nat) (l : list nat) : list nat :=
  match l with [] => [] | e' :: l => if bool_decide (e' = e) then l else e' :: removeOne e l end.

Definition takeCleanup (p e : nat) (y : Sys) : Sys :=
  let P := proc y p in setProc p (mkProc (conn P) (held P) (holds P) (removeOne e (cleanups P))) y.

(** [connect()] answers: a new session, or a client that was idle in the pool. *)
Definition connected (e : nat) (reuse : option nat) (y : Sys) : option Sys :=
  match entries y !! e with
  | Some (p, Connecting) =>
    match reuse with
    | None =>
      let s := nextSess y in
      Some (mkSys (Server.connect s (srv y)) (idle y) (S s) (<[e := (p, Open s)]> (entries y)) (nextEntry y) (procs y))
    | Some s =>
      if negb (bool_decide (s ∈ idle y)) then None else
      Some (setStatus e p (Open s) (setIdle (idle y ∖ {[ s ]}) y))
    end
  | _ => None
  end.

(** [entry.cp] rejects: [conn] is cleared and every call awaiting it throws. *)
Definition connectFailed (e : nat) (y : Sys) : option Sys :=
  match entries y !! e with
  | Some (p, Connecting) =>
    let P := proc y p in
    let gone := List.filter (on e) (holds P) in
    Some (setStatus e p Failed
            (setProc p (mkProc (if bool_decide (conn P = Some e) then None else conn P)
                          (held P ∖ list_to_set (map h_key gone))
                          (List.filter (fun h => negb (on e h)) (holds P)) (cleanups P)) y))
  | _ => None
  end.

Inductive Event :=
| EHold (p : nat) (key : string)
| EConnected (e : nat) (reuse : option nat)
| EConnectFailed (e : nat)
| ETry (p : nat) (key : string) (r : Reply)
| EDone (p : nat) (key : string)
| EUnlock (p : nat) (key : string) (r : Reply)
| ECleanup (p e : nat)
| EClientError (e : nat)
| ESessionEnd (s : nat).

Definition findHold (p : nat) (key : string) (y : Sys) : option Hold :=
  List.find (fun h => (h_key h =? key)%string) (holds (proc y p)).

Definition exec (ev : Event) (y : Sys) : option Sys :=
  match ev with
  | EHold p key => Some (hold p key y)
  | EConnected e reuse => connected e reuse y
  | EConnectFailed e => connectFailed e y
  | ETry p key r =>
    match findHold p key y with
    | Some h => match h_phase h with Waiting => tryStep p h r y | _ => None end
    | None => None
    end
  | EDone p key =>
    match findHold p key y with
    | Some h => match h_phase h with Running _ => Some (setPhase p h Unlocking y) | _ => None end
    | None => None
    end
  | EUnlock p key r =>
    match findHold p key y with
    | Some h => match h_phase h with Unlocking => unlockStep p h r y | _ => None end
    | None => None
    end
  | ECleanup p e => if bool_decide (e ∈ cleanups (proc y p)) then Some (cleanup p e (takeCleanup p e y)) else None
  | EClientError e => match entries y !! e with Some (_, Open _) => Some (drop e true y) | _ => None end
  | ESessionEnd s => Some (setSrv (Server.endSession s (srv y)) y)
  end.

Fixpoint execs (evs : list Event) (y : Sys) : option Sys :=
  match evs with [] => Some y | ev :: evs => match exec ev y with Some y => execs evs y | None => None end end.

(** ** Invariant *)

Definition lockedPhase (ph : Phase) : bool := match ph with Waiting => false | _ => true end.

(** How many calls of a process have lock [l] through entry [e]. *)
Definition lockedOn (P : Proc) (e : nat) (l : Z) : nat :=
  length (List.filter (fun h => lockedPhase (h_phase h) && on e h && (lockName (h_key h) =? l)%Z) (holds P)).

Definition usesSess (st : Status) (s : nat) : Prop := st = Open s \/ st = Destroyed s.

Definition live (st : Status) : Prop := match st with Connecting | Open _ => True | _ => False end.

Definition phaseOk (ph : Phase) (st : Status) : Prop :=
  match ph, st with
  | Waiting, (Connecting | Open _ | Destroyed _) => True
  | Running false, Open _ => True
  | Running true, Destroyed _ => True
  | Unlocking, (Open _ | Destroyed _) => True
  | _, _ => False
  end.

(** What the state says about a session's locks. *)
Definition countOk (x : option nat) (y : Sys) (e p : nat) (st : Status) : Prop :=
  forall s, usesSess st s -> s ∈ Server.alive (srv y) -> forall l,
    (lockedOn (proc y p) e l <= Server.count (srv y) s l)%nat /\
    (st = Open s -> x <> Some e -> Server.count (srv y) s l = lockedOn (proc y p) e l).

Definition keysOk (P : Proc) : Prop :=
  NoDup (map h_key (holds P)) /\ forall k, k ∈ held P <-> k ∈ map h_key (holds P).

(** Every call has its key in [held] and an entry of its process; the current
    entry is the one that is pending or open; a call in [fn] has been told of
    the loss exactly if its client is gone. *)
Record shape (y : Sys) : Prop := mkShape {
  i_keys : forall p, keysOk (proc y p);
  i_conn : forall p e, conn (proc y p) = Some e <-> exists st, entries y !! e = Some (p, st) /\ live st;
  i_hold : forall p h, h ∈ holds (proc y p) -> exists st, entries y !! h_entry h = Some (p, st) /\ phaseOk (h_phase h) st;
  i_clean : forall p e, e ∈ cleanups (proc y p) -> exists st, entries y !! e = Some (p, st);
  i_fresh : forall e, (nextEntry y <= e)%nat -> entries y !! e = None }.

(** A session serves one entry; its locks are those of the entry's calls; idle
    clients hold none.  [x] names an entry whose session may hold more. *)
Record locksOk (x : option nat) (y : Sys) : Prop := mkLocks {
  i_srv : Server.ok (srv y);
  i_sess : forall e e' p p' st st' s, entries y !! e = Some (p, st) -> entries y !! e' = Some (p', st') ->
    usesSess st s -> usesSess st' s -> e = e';
  i_idle : forall s, s ∈ idle y -> (forall l, Server.count (srv y) s l = 0%nat) /\
    forall e p st, entries y !! e = Some (p, st) -> ~ usesSess st s;
  i_count : forall e p st, entries y !! e = Some (p, st) -> countOk x y e p st;
  i_next : (forall s, s ∈ Server.alive (srv y) -> (s < nextSess y)%nat) /\
    (forall s, s ∈ idle y -> (s < nextSess y)%nat) /\
    (forall e p st s, entries y !! e = Some (p, st) -> usesSess st s -> (s < nextSess y)%nat) }.

Definition inv (y : Sys) : Prop := shape y /\ locksOk None y.

Lemma proc_setProc p P y p' : proc (setProc p P y) p' = if decide (p' = p) then P else proc y p'.
Proof.
  unfold proc. cbn. case_decide; subst; [by rewrite lookup_insert_eq|by rewrite lookup_insert_ne by done].
Qed.

Lemma inv_start : inv start.
Proof.
  split; split; cbn; try done.
  - split; [constructor|]. cbn. set_solver.
  - intros p e. split; [done|]. intros (st & E & _). by rewrite lookup_empty in E.
  - intros p h Hh. by apply elem_of_nil in Hh.
  - intros p e He. by apply elem_of_nil in He.
Qed.

Lemma no_holds y p : shape y -> held (proc y p) = ∅ -> holds (proc y p) = [].
Proof.
  intros I Hd. destruct (i_keys _ I p) as [_ Hk]. destruct (holds (proc y p)) as [|h hs]; [done|].
  exfalso. rewrite Hd in Hk. destruct (Hk (h_key h)) as [_ Hk'].
  apply (not_elem_of_empty (C := gset string) (h_key h)), Hk'. cbn. left.
Qed.

(** Calls are found by key. *)
Lemma hold_split k l h : NoDup (map h_key l) -> List.find (fun h => (h_key h =? k)%string) l = Some h ->
  h_key h = k /\ exists l1 l2, l = (l1 ++ h :: l2)%list /\
    List.filter (fun h' => negb (h_key h' =? k)%string) l = (l1 ++ l2)%list /\
    forall h'', map (fun h' => if (h_key h' =? k)%string then h'' else h') l = (l1 ++ h'' :: l2)%list.
Proof.
  induction l as [|a l IH]; cbn; [done|]. intros [Ha Hn]%NoDup_cons.
  destruct (h_key a =? k)%string eqn:E.
  - intros [= <-]. apply String.eqb_eq in E. split; [done|]. exists [], l. split; [done|].
    assert (Hl : forall h', h' ∈ l -> (h_key h' =? k)%string = false).
    { intros h' Hh. apply String.eqb_neq. intros E'. apply Ha. rewrite E, <- E'. by apply list_elem_of_fmap_2. }
    clear -Hl. split; [|intros h''; cbn; f_equal]; induction l as [|b l IH]; cbn; try done;
      rewrite (Hl b) by set_solver; cbn; f_equal; apply IH; set_solver.
  - intros Hf. destruct (IH Hn Hf) as (Hk & l1 & l2 & -> & Hfi & Hma). split; [done|].
    exists (a :: l1), l2. split; [done|]. cbn. rewrite Hfi. split; [done|]. intros h''. by rewrite Hma.
Qed.

Definition locksH (e : nat) (l : Z) (h : Hold) : bool :=
  lockedPhase (h_phase h) && on e h && (lockName (h_key h) =? l)%Z.

Definition one (b : bool) : nat := if b then 1%nat else 0%nat.

Lemma locked_app P l1 l2 e l : holds P = (l1 ++ l2)%list ->
  lockedOn P e l = (length (List.filter (locksH e l) l1) + length (List.filter (locksH e l) l2))%nat.
Proof. intros E. unfold lockedOn. rewrite E. fold (locksH e l). by rewrite List.filter_app, length_app. Qed.

Lemma locked_mid P l1 h l2 e l : holds P = (l1 ++ h :: l2)%list ->
  lockedOn P e l = (length (List.filter (locksH e l) l1) + one (locksH e l h) + length (List.filter (locksH e l) l2))%nat.
Proof. intros E. rewrite (locked_app _ _ _ _ _ E). cbn. destruct (locksH e l h); cbn; lia. Qed.

Lemma locked_notify P e' c hd cl e l : lockedOn (mkProc c hd (map (notify e') (holds P)) cl) e l = lockedOn P e l.
Proof.
  unfold lockedOn. cbn. induction (holds P) as [|h hs IH]; cbn; [done|].
  assert (En : locksH e l (notify e' h) = locksH e l h).
  { unfold locksH, notify, on. destruct (h_phase h) eqn:Ep; rewrite ?Ep; try done. case_bool_decide; rewrite ?Ep; done. }
  unfold locksH in En. rewrite En. case_match; cbn; by rewrite IH.
Qed.

Lemma notify_key e h : h_key (notify e h) = h_key h.
Proof. unfold notify. by repeat case_match. Qed.

Lemma notify_entry e h : h_entry (notify e h) = h_entry h.
Proof. unfold notify. by repeat case_match. Qed.

Lemma map_notify_key e l : map h_key (map (notify e) l) = map h_key l.
Proof. induction l; cbn; [done|]. by rewrite notify_key, IHl. Qed.

Lemma uses_fun st s s' : usesSess st s -> usesSess st s' -> s = s'.
Proof. intros [->| ->] [[=]|[=]]; done. Qed.

(** Giving up the current entry [e] of process [p], with client [s]. *)
Definition given (e p s : nat) (destroy : bool) (y : Sys) : Sys :=
  let P := proc y p in
  mkSys (srv y) (if destroy then idle y else {[ s ]} ∪ idle y) (nextSess y)
    (<[e := (p, if destroy then Destroyed s else Returned s)]> (entries y)) (nextEntry y)
    (<[p := mkProc None (held P) (map (notify e) (holds P)) (cleanups P)]> (procs y)).

Lemma drop_given e destroy y : shape y ->
  match entries y !! e with
  | Some (p, Open s) => conn (proc y p) = Some e /\ drop e destroy y = given e p s destroy y
  | _ => drop e destroy y = y
  end.
Proof.
  intros I. unfold drop. destruct (entries y !! e) as [[p [|s|s|s|]]|] eqn:E; try done.
  assert (Hc : conn (proc y p) = Some e) by (apply (i_conn _ I); by exists (Open s)).
  rewrite bool_decide_eq_true_2 by done. cbn [negb]. by destruct destroy.
Qed.

Section given.
Context (e p s : nat) (destroy : bool) (y : Sys).
Context (E : entries y !! e = Some (p, Open s)).
Context (I : shape y) (Hd : destroy = false -> held (proc y p) = ∅).

Lemma given_proc p' : proc (given e p s destroy y) p' =
  if decide (p' = p) then mkProc None (held (proc y p)) (map (notify e) (holds (proc y p))) (cleanups (proc y p))
  else proc y p'.
Proof. apply (proc_setProc p _ y). Qed.

Lemma given_entry e' p' st' : entries (given e p s destroy y) !! e' = Some (p', st') ->
  (e' = e /\ p' = p /\ st' = if destroy then Destroyed s else Returned s) \/
  (e' <> e /\ entries y !! e' = Some (p', st')).
Proof. cbn. intros [[-> [= <- <-]]|[? ?]]%lookup_insert_Some; auto. Qed.

Lemma given_locked p' e' l : lockedOn (proc (given e p s destroy y) p') e' l = lockedOn (proc y p') e' l.
Proof. rewrite given_proc. case_decide; [subst p'|done]. apply locked_notify. Qed.

Lemma given_hold h : h ∈ holds (proc y p) ->
  exists st, entries (given e p s destroy y) !! h_entry (notify e h) = Some (p, st) /\ phaseOk (h_phase (notify e h)) st.
Proof.
  intros Hh. destruct (i_hold _ I _ _ Hh) as (st0 & E0 & Hph). rewrite notify_entry. unfold notify, on. cbn.
  destruct (decide (h_entry h = e)) as [He|He].
  - rewrite He, lookup_insert_eq. exists (if destroy then Destroyed s else Returned s). split; [done|].
    rewrite He, E in E0. injection E0 as <-. destruct destroy.
    + destruct (h_phase h) as [|[]|] eqn:Ep; rewrite ?Ep, ?bool_decide_eq_true_2; done.
    + rewrite (no_holds _ _ I (Hd eq_refl)) in Hh. by apply elem_of_nil in Hh.
  - exists st0. rewrite lookup_insert_ne by done. split; [done|].
    destruct (h_phase h) as [|[]|] eqn:Ep; rewrite ?bool_decide_eq_false_2, ?Ep by done; done.
Qed.

Lemma given_shape : shape (given e p s destroy y).
Proof.
  assert (Hc : conn (proc y p) = Some e) by (apply (i_conn _ I); by exists (Open s)).
  split.
  - intros p'. rewrite given_proc. case_decide; [|apply (i_keys _ I)]. unfold keysOk. cbn.
    rewrite map_notify_key. apply (i_keys _ I).
  - intros p' e'. rewrite given_proc. split.
    + case_decide; [done|]. intros (st' & E' & L)%(i_conn _ I). exists st'. split; [|done]. cbn.
      rewrite lookup_insert_ne; [done|]. intros <-. congruence.
    + intros (st' & [(-> & -> & ->)|(Hne & E')]%given_entry & L); [by destruct destroy|].
      assert (Hc' : conn (proc y p') = Some e') by (apply (i_conn _ I); eauto).
      case_decide; [|done]. subst p'. congruence.
  - intros p' h. rewrite given_proc. case_decide as Ep.
    + cbn. intros (h0 & -> & Hh)%list_elem_of_fmap. subst p'. by apply given_hold.
    + intros Hh. destruct (i_hold _ I _ _ Hh) as (st0 & E0 & Hph). exists st0. cbn.
      rewrite lookup_insert_ne; [done|]. intros He. congruence.
  - intros p' e' He'. assert (He : e' ∈ cleanups (proc y p')) by (rewrite given_proc in He'; by case_decide; subst).
    destruct (i_clean _ I _ _ He) as (st & E'). cbn. destruct (decide (e' = e)) as [->|].
    + rewrite E in E'. simplify_eq. rewrite lookup_insert_eq. eauto.
    + rewrite lookup_insert_ne by done. eauto.
  - intros e' He. cbn in *. rewrite lookup_insert_ne; [by apply (i_fresh _ I)|].
    intros <-. rewrite (i_fresh _ I) in E; done.
Qed.

Lemma given_locksOk x : locksOk x y -> (x = None \/ x = Some e /\ destroy = true) -> locksOk None (given e p s destroy y).
Proof.
  intros L Hx.
  assert (Hu : forall e' p' st' s', entries (given e p s destroy y) !! e' = Some (p', st') -> usesSess st' s' ->
    exists st, entries y !! e' = Some (p', st) /\ usesSess st s' /\ (e' = e -> destroy = true)).
  { intros e' p' st' s' [(-> & -> & ->)|(Hne & E')]%given_entry U; [|by exists st'].
    exists (Open s). split; [done|]. destruct destroy, U as [U|U]; simplify_eq. by split; [left|]. }
  split.
  - apply (i_srv _ _ L).
  - intros e1 e2 p1 p2 st1 st2 s' E1 E2 U1 U2.
    destruct (Hu _ _ _ _ E1 U1) as (? & F1 & V1 & _), (Hu _ _ _ _ E2 U2) as (? & F2 & V2 & _).
    by apply (i_sess _ _ L _ _ _ _ _ _ _ F1 F2 V1).
  - intros s' Hs. cbn [srv given idle] in *. destruct destroy eqn:Ed.
    + destruct (i_idle _ _ L _ Hs) as [Hz Hn]. split; [done|]. intros e' p' st' E' U.
      destruct (Hu _ _ _ _ E' U) as (? & F & V & _). by apply (Hn _ _ _ F).
    + apply elem_of_union in Hs as [->%elem_of_singleton|Hs].
      * split.
        -- intros l. destruct (decide (s ∈ Server.alive (srv y))) as [Ha|Ha]; [|by apply Server.count_dead, Ha; apply (i_srv _ _ L)].
           destruct (i_count _ _ L _ _ _ E s (or_introl eq_refl) Ha l) as [_ ->]; [|done|by destruct Hx as [->|[? ?]]].
           unfold lockedOn. by rewrite (no_holds _ _ I (Hd eq_refl)).
        -- intros e' p' st' E' U. destruct (Hu _ _ _ _ E' U) as (? & F & V & Hde).
           assert (e' = e) as Hee by apply (i_sess _ _ L _ _ _ _ _ _ _ F E V (or_introl eq_refl)). by specialize (Hde Hee).
      * destruct (i_idle _ _ L _ Hs) as [Hz Hn]. split; [done|]. intros e' p' st' E' U.
        destruct (Hu _ _ _ _ E' U) as (? & F & V & _). by apply (Hn _ _ _ F).
  - intros e' p' st' E' s' U Ha l. rewrite given_locked. cbn [srv given].
    destruct (Hu _ _ _ _ E' U) as (st & F & V & _). destruct (i_count _ _ L _ _ _ F s' V Ha l) as [Hle Heq].
    split; [done|]. intros -> _. apply given_entry in E' as [(-> & -> & Est)|(Hne & E')]; [by destruct destroy|].
    rewrite E' in F. injection F as <-. apply Heq; [done|]. destruct Hx as [->|[-> _]]; congruence.
  - destruct (i_next _ _ L) as (Ha & Hi & He). split_and!; [done| |].
    + intros s'. cbn [given idle]. destruct destroy; [apply Hi|]. intros [->%elem_of_singleton|]%elem_of_union; [|by apply Hi].
      by apply (He _ _ _ _ E); left.
    + intros e' p' st' s' E' U. destruct (Hu _ _ _ _ E' U) as (? & F & V & _). by apply (He _ _ _ _ F).
Qed.

End given.

(** Dropping an entry keeps the invariant, and re-establishes it where its session
    held more than its calls knew. *)
Lemma drop_inv x e destroy y : shape y -> locksOk x y -> (x = None \/ x = Some e /\ destroy = true) ->
  (destroy = false -> forall p st, entries y !! e = Some (p, st) -> held (proc y p) = ∅) ->
  inv (drop e destroy y).
Proof.
  intros I L Hx Hd. pose proof (drop_given e destroy y I) as G.
  assert (Hweak : (forall p s, entries y !! e = Some (p, Open s) -> False) -> inv y).
  { intros Hno. split; [done|]. destruct L. split; try done. intros e' p' st' E' s Hu Ha l.
    destruct (i_count0 _ _ _ E' s Hu Ha l) as [? Hc]. split; [done|]. intros -> _. apply Hc; [done|].
    destruct Hx as [->|[-> _]]; [done|]. intros [= ->]. eauto. }
  destruct (entries y !! e) as [[p [|s|s|s|]]|] eqn:E; try (by rewrite G; apply Hweak; intros; simplify_eq).
  destruct G as [Hc ->]. split; [apply given_shape|eapply given_locksOk]; eauto.
Qed.

(** What a call does through its entry [e0], the client of session [s], touches the
    locks of no other session. *)
Lemma session_op x x' y y' e0 p0 st0 s :
  locksOk x y -> entries y !! e0 = Some (p0, st0) -> usesSess st0 s ->
  entries y' = entries y -> idle y' = idle y -> nextSess y' = nextSess y ->
  Server.ok (srv y') -> Server.alive (srv y') = Server.alive (srv y) ->
  (forall s' l, s' <> s -> Server.count (srv y') s' l = Server.count (srv y) s' l) ->
  (forall p e l, e <> e0 -> lockedOn (proc y' p) e l = lockedOn (proc y p) e l) ->
  countOk x' y' e0 p0 st0 -> (x = None \/ x = x') -> locksOk x' y'.
Proof.
  intros L E0 U0 Een Eid Ene Hok Hal Hcnt Hlk Hc0 Hx. split; rewrite ?Een, ?Eid, ?Ene, ?Hal; try apply L; try done.
  - intros s' Hs. destruct (i_idle _ _ L _ Hs) as [Hz Hn]. split; [|done]. intros l.
    rewrite Hcnt; [done|]. intros ->. by apply (Hn _ _ _ E0).
  - intros e p st E. destruct (decide (e = e0)) as [->|He]; [by rewrite E0 in E; simplify_eq|].
    intros s' U Ha l. rewrite Hlk by done. rewrite Hal in Ha. destruct (i_count _ _ L _ _ _ E s' U Ha l) as [Hle Heq].
    rewrite Hcnt; [|intros ->; apply He; by apply (i_sess _ _ L _ _ _ _ _ _ _ E E0 U)]. split; [done|].
    intros Hop Hx'. apply Heq; [done|]. destruct Hx as [->| ->]; done.
Qed.

Section call.
Context (p : nat) (k : string) (h : Hold) (y : Sys).
Context (I : shape y) (Hf : findHold p k y = Some h).

Lemma call_split : h_key h = k /\ exists l1 l2, holds (proc y p) = (l1 ++ h :: l2)%list /\
  holds (proc (finish p h y) p) = (l1 ++ l2)%list /\
  forall ph, holds (proc (setPhase p h ph y) p) = (l1 ++ mkHold (h_key h) (h_entry h) ph :: l2)%list.
Proof.
  destruct (hold_split _ _ _ (proj1 (i_keys _ I p)) Hf) as (Hk & l1 & l2 & Hl & Hfi & Hma). split; [done|].
  exists l1, l2. unfold finish, setPhase. rewrite proc_setProc, decide_True by done. cbn. rewrite Hk. split_and!; [done..|].
  intros ph. rewrite proc_setProc, decide_True by done. cbn. apply Hma.
Qed.

Lemma call_in : h ∈ holds (proc y p).
Proof. destruct call_split as (_ & l1 & l2 & -> & _). set_solver. Qed.

Lemma finish_proc_ne p' : p' <> p -> proc (finish p h y) p' = proc y p'.
Proof. intros. unfold finish. by rewrite proc_setProc, decide_False. Qed.

Lemma setPhase_proc_ne ph p' : p' <> p -> proc (setPhase p h ph y) p' = proc y p'.
Proof. intros. unfold setPhase. by rewrite proc_setProc, decide_False. Qed.

Lemma finish_locked p' e l : (lockedOn (proc (finish p h y) p') e l + one (bool_decide (p' = p) && locksH e l h))%nat
  = lockedOn (proc y p') e l.
Proof.
  destruct (decide (p' = p)) as [->|Hp]; [|rewrite finish_proc_ne, bool_decide_eq_false_2 by done; cbn; lia].
  destruct call_split as (_ & l1 & l2 & Hl & Hfi & _). rewrite bool_decide_eq_true_2 by done.
  rewrite (locked_app _ _ _ _ _ Hfi), (locked_mid _ _ _ _ _ _ Hl). cbn. lia.
Qed.

Lemma setPhase_locked ph p' e l :
  (lockedOn (proc (setPhase p h ph y) p') e l + one (bool_decide (p' = p) && locksH e l h))%nat
  = (lockedOn (proc y p') e l + one (bool_decide (p' = p) && locksH e l (mkHold (h_key h) (h_entry h) ph)))%nat.
Proof.
  destruct (decide (p' = p)) as [->|Hp]; [|rewrite setPhase_proc_ne, bool_decide_eq_false_2 by done; done].
  destruct call_split as (_ & l1 & l2 & Hl & _ & Hma). rewrite bool_decide_eq_true_2 by done.
  rewrite (locked_mid _ _ _ _ _ _ (Hma ph)), (locked_mid _ _ _ _ _ _ Hl). cbn. lia.
Qed.

Lemma finish_shape : shape (finish p h y).
Proof.
  destruct call_split as (Hk & l1 & l2 & Hl & Hfi & _). split.
  - intros p'. destruct (decide (p' = p)) as [->|Hp]; [|rewrite finish_proc_ne by done; apply (i_keys _ I)].
    destruct (i_keys _ I p) as [Hnd Hh]. unfold keysOk. rewrite Hfi. rewrite Hl in Hnd, Hh.
    rewrite map_app in *. cbn in *. apply NoDup_app in Hnd as (N1 & N12 & [Nh N2]%NoDup_cons).
    split; [apply NoDup_app; set_solver|]. unfold finish. rewrite proc_setProc, decide_True by done. cbn.
    intros k'. rewrite elem_of_difference, Hh, not_elem_of_singleton, !elem_of_app, elem_of_cons. set_solver.
  - intros p' e. transitivity (conn (proc y p') = Some e); [|apply (i_conn _ I)].
    destruct (decide (p' = p)) as [->|Hp]; [|by rewrite finish_proc_ne].
    unfold finish. by rewrite proc_setProc, decide_True.
  - intros p' h'. destruct (decide (p' = p)) as [->|Hp]; [|rewrite finish_proc_ne by done; apply (i_hold _ I)].
    rewrite Hfi. intros Hin. apply (i_hold _ I p). rewrite Hl. set_solver.
  - intros p' e. destruct (decide (p' = p)) as [->|Hp]; [|rewrite finish_proc_ne by done; apply (i_clean _ I)].
    unfold finish. rewrite proc_setProc, decide_True by done. cbn. intros [->|Hin]%elem_of_cons; [|by apply (i_clean _ I)].
    destruct (i_hold _ I _ _ call_in) as (st & Est & _). eauto.
  - apply (i_fresh _ I).
Qed.

Lemma setPhase_shape ph st : entries y !! h_entry h = Some (p, st) -> phaseOk ph st -> shape (setPhase p h ph y).
Proof.
  intros E Hph. destruct call_split as (Hk & l1 & l2 & Hl & _ & Hma). split.
  - intros p'. destruct (decide (p' = p)) as [->|Hp]; [|rewrite setPhase_proc_ne by done; apply (i_keys _ I)].
    pose proof (i_keys _ I p) as Hkeys. unfold keysOk in *. rewrite Hma, Hl in *. rewrite !map_app in *. cbn in *.
    unfold setPhase. rewrite proc_setProc, decide_True by done. done.
  - intros p' e. transitivity (conn (proc y p') = Some e); [|apply (i_conn _ I)].
    destruct (decide (p' = p)) as [->|Hp]; [|by rewrite setPhase_proc_ne].
    unfold setPhase. by rewrite proc_setProc, decide_True.
  - intros p' h'. destruct (decide (p' = p)) as [->|Hp]; [|rewrite setPhase_proc_ne by done; apply (i_hold _ I)].
    rewrite Hma. intros [Hin|[->|Hin]%elem_of_cons]%elem_of_app; [|by exists st|];
      apply (i_hold _ I p); rewrite Hl; set_solver.
  - intros p' e. destruct (decide (p' = p)) as [->|Hp]; [|rewrite setPhase_proc_ne by done; apply (i_clean _ I)].
    unfold setPhase. rewrite proc_setProc, decide_True by done. apply (i_clean _ I).
  - apply (i_fresh _ I).
Qed.

(** A call that has no lock, or whose session is beyond reach, may just end. *)
Lemma lease_finish_inv : locksOk None y ->
  h_phase h = Waiting \/ (exists s, entries y !! h_entry h = Some (p, Destroyed s)) -> inv (finish p h y).
Proof.
  intros L Hc. split; [apply finish_shape|]. split; try apply L.
  intros e p' st E s U Ha l. destruct (i_count _ _ L _ _ _ E s U Ha l) as [Hle Heq].
  pose proof (finish_locked p' e l) as Hfl. cbn [srv finish setProc]. split; [lia|]. intros -> _.
  specialize (Heq eq_refl (ltac:(done))). enough (one (bool_decide (p' = p) && locksH e l h) = 0%nat) by lia.
  unfold locksH, on. destruct Hc as [->|(s' & E')]; [by rewrite andb_false_r|].
  rewrite (bool_decide_eq_false_2 (h_entry h = e)); [by rewrite andb_false_r, andb_false_r|]. intros He.
  change (entries y !! e = Some (p', Open s)) in E. congruence.
Qed.

Lemma finish_given e s : finish p h (given e p s true y) = given e p s true (finish p h y).
Proof.
  unfold finish at 1. rewrite given_proc, decide_True by done. unfold given, setProc. cbn.
  replace (proc (finish p h y) p) with (mkProc (conn (proc y p)) (held (proc y p) ∖ {[ h_key h ]})
    (List.filter (fun h' => negb (h_key h' =? h_key h)%string) (holds (proc y p))) (h_entry h :: cleanups (proc y p)))
    by (unfold finish; by rewrite proc_setProc, decide_True).
  cbn. unfold finish, setProc. cbn. rewrite !insert_insert_eq. do 3 f_equal.
  induction (holds (proc y p)) as [|a l IH]; cbn; [done|]. rewrite notify_key. case_match; cbn; by rewrite IH.
Qed.

Lemma findHold_given e s : (forall b, h_phase h <> Running b) -> findHold p k (given e p s true y) = Some h.
Proof.
  intros Hr. unfold findHold in *. rewrite given_proc, decide_True by done. cbn.
  induction (holds (proc y p)) as [|a l IH]; cbn in *; [done|]. rewrite notify_key. case_match; [|by apply IH].
  injection Hf as ->. f_equal. unfold notify. destruct (h_phase h) eqn:E; naive_solver.
Qed.

End call.

Lemma shape_ext v i n y : shape y -> shape (mkSys v i n (entries y) (nextEntry y) (procs y)).
Proof. intros []. by split. Qed.

Lemma setSrv_shape v y : shape y -> shape (setSrv v y).
Proof. apply shape_ext. Qed.

Lemma locksH_at e l (p p' : nat) h : h_entry h <> e -> one (bool_decide (p' = p) && locksH e l h) = 0%nat.
Proof. intros H. unfold locksH, on. by rewrite (bool_decide_eq_false_2 (h_entry h = e)), andb_false_r, andb_false_r. Qed.

(** The client of an entry was given up while a call outside [fn] awaited a query:
    the call fails and ends. *)
Lemma error_inv p k h s y :
  shape y -> findHold p k y = Some h -> (forall b, h_phase h <> Running b) -> entries y !! h_entry h = Some (p, Open s) ->
  locksOk (Some (h_entry h)) y -> inv (finish p h (drop (h_entry h) true y)).
Proof.
  intros I Hf Hr E L. pose proof (drop_given (h_entry h) true y I) as G. rewrite E in G. destruct G as [_ G].
  destruct (drop_inv (Some (h_entry h)) (h_entry h) true y) as [I' L']; [naive_solver..|].
  rewrite G in *. apply (lease_finish_inv p k); [done|by apply findHold_given|done|]. right. exists s.
  cbn. by rewrite lookup_insert_eq.
Qed.

Lemma locksOk_weaken x y : locksOk None y -> locksOk x y.
Proof.
  intros []. split; try done. intros e p st E s U Ha l.
  destruct (i_count0 _ _ _ E s U Ha l). naive_solver.
Qed.

(** The queries of a call through its open client [s]. *)
Section query.
Context (p : nat) (k : string) (h : Hold) (s : nat) (y : Sys).
Context (I : shape y) (L : locksOk None y) (Hf : findHold p k y = Some h).
Context (E : entries y !! h_entry h = Some (p, Open s)) (Ha : s ∈ Server.alive (srv y)).

Let name := lockName (h_key h).

Lemma open_count l : Server.count (srv y) s l = lockedOn (proc y p) (h_entry h) l.
Proof. by destruct (i_count _ _ L _ _ _ E s (or_introl eq_refl) Ha l) as [_ ->]. Qed.

(** An update of the locks of [s] with a change of the call. *)
Lemma query_locks x y' : entries y' = entries y -> idle y' = idle y -> nextSess y' = nextSess y ->
  Server.ok (srv y') -> Server.alive (srv y') = Server.alive (srv y) ->
  (forall s' l, s' <> s -> Server.count (srv y') s' l = Server.count (srv y) s' l) ->
  (forall p' e l, e <> h_entry h -> lockedOn (proc y' p') e l = lockedOn (proc y p') e l) ->
  (forall l, lockedOn (proc y' p) (h_entry h) l <= Server.count (srv y') s l)%nat ->
  (x = None -> forall l, Server.count (srv y') s l = lockedOn (proc y' p) (h_entry h) l) ->
  x = None \/ x = Some (h_entry h) -> locksOk x y'.
Proof.
  intros ? ? ? ? ? ? ? Hle Heq Hx. eapply (session_op None x y y' (h_entry h) p (Open s) s L E); try done; [by left| |by left].
  intros s' [[= <-]|[=]] _ l. split; [done|]. intros _ Hxe. apply Heq. by destruct Hx.
Qed.

Lemma try_facts : let v := (Server.tryLock s name (srv y)).2 in
  Server.ok v /\ Server.alive v = Server.alive (srv y) /\
  (forall s' l, s' <> s -> Server.count v s' l = Server.count (srv y) s' l) /\
  (forall l, Server.count v s l =
    (Server.count (srv y) s l + one ((Server.tryLock s name (srv y)).1 && (name =? l)%Z))%nat).
Proof.
  intros v. split_and!; [by apply Server.tryLock_ok, L|apply Server.tryLock_alive| |];
    [intros s' l Hs|intros l]; unfold v; rewrite Server.count_tryLock.
  - rewrite (bool_decide_eq_false_2 (s' = s)), andb_false_r by done. apply Nat.add_0_r.
  - rewrite (bool_decide_eq_true_2 (s = s)), andb_true_r by done. f_equal. unfold one.
    destruct (Z.eqb_spec name l); [rewrite bool_decide_eq_true_2|rewrite bool_decide_eq_false_2]; done.
Qed.

Lemma unlock_facts : let v := (Server.unlock s name (srv y)).2 in
  Server.ok v /\ Server.alive v = Server.alive (srv y) /\
  (forall s' l, s' <> s -> Server.count v s' l = Server.count (srv y) s' l) /\
  (forall l, Server.count v s l = (Server.count (srv y) s l - one (name =? l)%Z)%nat) /\
  (Server.unlock s name (srv y)).1 = bool_decide (0 < Server.count (srv y) s name)%nat.
Proof.
  intros v. split_and!; [by apply Server.unlock_ok, L|apply Server.unlock_alive| | |];
    [intros s' l Hs|intros l|]; unfold v.
  - rewrite (proj2 (Server.count_unlock s name (srv y) s' l (i_srv _ _ L))).
    rewrite (bool_decide_eq_false_2 (s' = s)) by done. apply Nat.sub_0_r.
  - rewrite (proj2 (Server.count_unlock s name (srv y) s l (i_srv _ _ L))).
    rewrite (bool_decide_eq_true_2 (s = s)) by done. f_equal. unfold one. cbn.
    destruct (Z.eqb_spec name l); [rewrite bool_decide_eq_true_2|rewrite bool_decide_eq_false_2]; done.
  - apply (Server.count_unlock s name (srv y) s name (i_srv _ _ L)).
Qed.

Lemma locksH_self ph l : locksH (h_entry h) l (mkHold (h_key h) (h_entry h) ph) = lockedPhase ph && (name =? l)%Z.
Proof. unfold locksH, on. cbn. by rewrite bool_decide_eq_true_2, andb_true_r. Qed.

Lemma locksH_own l : locksH (h_entry h) l h = lockedPhase (h_phase h) && (name =? l)%Z.
Proof. unfold locksH, on. by rewrite bool_decide_eq_true_2, andb_true_r. Qed.

Lemma won_inv : h_phase h = Waiting -> (Server.tryLock s name (srv y)).1 = true ->
  inv (setPhase p h (Running false) (setSrv (Server.tryLock s name (srv y)).2 y)).
Proof.
  intros Hw Hwon. destruct try_facts as (Hok & Hal & Hoth & Hc). rewrite Hwon in Hc.
  set (v := (Server.tryLock s name (srv y)).2) in *.
  assert (I' : shape (setSrv v y)) by (by apply setSrv_shape).
  assert (Hs : forall l, Server.count v s l = lockedOn (proc (setPhase p h (Running false) (setSrv v y)) p) (h_entry h) l).
  { intros l. pose proof (setPhase_locked p k h _ I' Hf (Running false) p (h_entry h) l) as Hs.
    rewrite bool_decide_eq_true_2, locksH_self, locksH_own, Hw in Hs by done.
    change (proc (setSrv v y) p) with (proc y p) in Hs. cbn in Hs. rewrite Hc, open_count. cbn. lia. }
  split; [by apply (setPhase_shape p k _ _ I' Hf _ (Open s) E)|].
  apply query_locks; try done; [|intros l; rewrite <- Hs; done|by left].
  intros p' e l He. pose proof (setPhase_locked p k h _ I' Hf (Running false) p' e l) as Hl.
  rewrite !locksH_at in Hl by done. by rewrite !Nat.add_0_r in Hl.
Qed.

Lemma not_won_inv : h_phase h = Waiting -> (Server.tryLock s name (srv y)).1 = false ->
  inv (finish p h (setSrv (Server.tryLock s name (srv y)).2 y)).
Proof.
  intros Hw Hno. destruct try_facts as (Hok & Hal & Hoth & Hc). rewrite Hno in Hc.
  apply (lease_finish_inv p k h); [by apply setSrv_shape|done| |by left].
  apply query_locks; try done; [| |by left]; [intros l|intros _ l]; cbn [srv setSrv];
    rewrite Hc, open_count, Nat.add_0_r; done.
Qed.

Lemma released_inv : h_phase h = Unlocking -> inv (finish p h (setSrv (Server.unlock s name (srv y)).2 y)).
Proof.
  intros Hu. destruct unlock_facts as (Hok & Hal & Hoth & Hc & _).
  set (v := (Server.unlock s name (srv y)).2) in *.
  assert (I' : shape (setSrv v y)) by (by apply setSrv_shape).
  assert (Hs : forall l, Server.count v s l = lockedOn (proc (finish p h (setSrv v y)) p) (h_entry h) l).
  { intros l. pose proof (finish_locked p k h _ I' Hf p (h_entry h) l) as Hs.
    rewrite bool_decide_eq_true_2, locksH_own, Hu in Hs by done.
    change (proc (setSrv v y) p) with (proc y p) in Hs. cbn in Hs. rewrite Hc, open_count. lia. }
  split; [by apply (finish_shape p k)|].
  apply query_locks; try done; [|intros l; rewrite <- Hs; done|by left].
  intros p' e l He. pose proof (finish_locked p k h _ I' Hf p' e l) as Hl.
  rewrite !locksH_at in Hl by done. by rewrite !Nat.add_0_r in Hl.
Qed.

(** The server never answers that the lock was not held. *)
Lemma unlock_released : h_phase h = Unlocking -> (Server.unlock s name (srv y)).1 = true.
Proof.
  intros Hu. destruct unlock_facts as (_ & _ & _ & _ & ->). apply bool_decide_eq_true_2. rewrite open_count.
  pose proof (finish_locked p k h _ I Hf p (h_entry h) name) as Hs.
  rewrite bool_decide_eq_true_2, locksH_own, Hu, Z.eqb_refl in Hs by done. cbn in Hs. lia.
Qed.

End query.

Lemma destroyed_error_inv p k h s y : inv y -> findHold p k y = Some h -> entries y !! h_entry h = Some (p, Destroyed s) ->
  inv (finish p h (drop (h_entry h) true y)).
Proof.
  intros [I L] Hf E. pose proof (drop_given (h_entry h) true y I) as G. rewrite E in G. rewrite G.
  apply (lease_finish_inv p k); eauto.
Qed.

Lemma tryStep_inv p k h r y y' : inv y -> findHold p k y = Some h -> h_phase h = Waiting ->
  tryStep p h r y = Some y' -> inv y'.
Proof.
  intros [I L] Hf Hw. destruct (i_hold _ I _ _ (call_in _ _ _ _ I Hf)) as (st & E & _). unfold tryStep. rewrite E.
  destruct st as [|s|s|s|], r as [|ex]; try done.
  - case_bool_decide as Ha; cbn [negb]; [|done].
    pose proof (won_inv p k h s y I L Hf E Ha Hw) as W. pose proof (not_won_inv p k h s y I L Hf E Ha Hw) as N.
    destruct (Server.tryLock s (lockName (h_key h)) (srv y)) as [[] v]; cbn in *; intros [= <-]; auto.
  - intros [= <-]. apply (error_inv p k h s); try done; [by apply setSrv_shape|by rewrite Hw|].
    destruct (decide (s ∈ Server.alive (srv y))) as [Ha|Ha];
      [rewrite bool_decide_eq_true_2, andb_true_r by done|rewrite bool_decide_eq_false_2, andb_false_r by done;
       by apply (locksOk_weaken _ (setSrv (srv y) y)); destruct L].
    destruct ex; [|by apply (locksOk_weaken _ (setSrv (srv y) y)); destruct L].
    destruct (try_facts h s y L Ha) as (Hok & Hal & Hoth & Hc).
    apply (query_locks p h s y L E); try done; [|by right]. intros l. cbn [srv setSrv]. rewrite Hc.
    rewrite (open_count p h s y L E Ha). apply Nat.le_add_r.
  - intros [= <-]. by eapply destroyed_error_inv.
Qed.

Lemma unlockStep_inv p k h r y y' : inv y -> findHold p k y = Some h -> h_phase h = Unlocking ->
  unlockStep p h r y = Some y' -> inv y'.
Proof.
  intros [I L] Hf Hu. destruct (i_hold _ I _ _ (call_in _ _ _ _ I Hf)) as (st & E & _). unfold unlockStep. rewrite E.
  assert (Hplain : forall s, entries y !! h_entry h = Some (p, Open s) ->
    inv (finish p h (drop (h_entry h) true (setSrv (srv y) y)))).
  { intros s E'. apply (error_inv p k h s); try done; [by apply setSrv_shape|by rewrite Hu|].
    by apply locksOk_weaken; destruct L. }
  destruct st as [|s|s|s|], r as [|ex]; try done.
  - case_bool_decide as Ha; cbn [negb]; [|done].
    pose proof (released_inv p k h s y I L Hf E Ha Hu) as R. pose proof (unlock_released p k h s y I L Hf E Ha Hu) as T.
    destruct (Server.unlock s (lockName (h_key h)) (srv y)) as [[] v]; cbn in *; intros [= <-]; done.
  - intros [= <-]. case_bool_decide as Ha; [|rewrite andb_false_r; by eapply Hplain]. rewrite andb_true_r.
    destruct ex; [|by eapply Hplain].
    pose proof (released_inv p k h s y I L Hf E Ha Hu) as [IR LR].
    set (v := (Server.unlock s (lockName (h_key h)) (srv y)).2) in *.
    pose proof (drop_given (h_entry h) true (setSrv v y) (setSrv_shape v y I)) as G. cbn in G. rewrite E in G.
    destruct G as [_ ->]. rewrite finish_given.
    pose proof (drop_given (h_entry h) true _ IR) as G. cbn in G. rewrite E in G. destruct G as [_ <-].
    by eapply drop_inv; [done|done|by left|].
  - intros [= <-]. by eapply destroyed_error_inv.
Qed.

Lemma done_inv p k h b y : inv y -> findHold p k y = Some h -> h_phase h = Running b -> inv (setPhase p h Unlocking y).
Proof.
  intros [I L] Hf Hr. destruct (i_hold _ I _ _ (call_in _ _ _ _ I Hf)) as (st & E & Hph).
  assert (Hl : forall p' e l, lockedOn (proc (setPhase p h Unlocking y) p') e l = lockedOn (proc y p') e l).
  { intros p' e l. pose proof (setPhase_locked p k h y I Hf Unlocking p' e l) as Hs. unfold locksH, on in Hs. cbn in Hs.
    rewrite Hr in Hs. cbn in Hs. lia. }
  split.
  - apply (setPhase_shape p k h y I Hf _ st E). rewrite Hr in Hph. by destruct b, st.
  - destruct L. split; try done. intros e p' st' E' s U Ha l. rewrite Hl. by apply (i_count0 _ _ _ E').
Qed.

Lemma takeCleanup_inv p e y : inv y -> inv (takeCleanup p e y).
Proof.
  intros [I L]. assert (Hp : forall p', conn (proc (takeCleanup p e y) p') = conn (proc y p') /\
    held (proc (takeCleanup p e y) p') = held (proc y p') /\ holds (proc (takeCleanup p e y) p') = holds (proc y p')).
  { intros p'. unfold takeCleanup. rewrite proc_setProc. case_decide; by subst. }
  split; [destruct I|destruct L]; split; try done.
  - intros p'. unfold keysOk. destruct (Hp p') as (_ & -> & ->). apply i_keys0.
  - intros p'. destruct (Hp p') as (-> & _ & _). apply i_conn0.
  - intros p'. destruct (Hp p') as (_ & _ & ->). apply i_hold0.
  - intros p' e'. unfold takeCleanup. rewrite proc_setProc. case_decide; [subst|apply i_clean0]. cbn.
    intros He. apply i_clean0. revert He. clear. induction (cleanups (proc y p)) as [|a l IH]; cbn; [done|].
    case_bool_decide; rewrite !elem_of_cons; naive_solver.
  - intros e' p' st E s U Ha l. unfold lockedOn. destruct (Hp p') as (_ & _ & ->). by apply (i_count0 _ _ _ E).
Qed.

Lemma cleanup_inv p e y : (exists st, entries y !! e = Some (p, st)) -> inv y -> inv (cleanup p e y).
Proof.
  intros [st E] [I L]. unfold cleanup. case_bool_decide as Hd; [|done].
  apply (drop_inv None); [done|done|by left|]. intros _ p' st' E'. rewrite E in E'. by simplify_eq.
Qed.

Lemma sessionEnd_inv s y : inv y -> inv (setSrv (Server.endSession s (srv y)) y).
Proof.
  intros [I L]. split; [by apply setSrv_shape|]. destruct L. split; try done; cbn -[Server.endSession].
  - by apply Server.endSession_ok.
  - intros s' Hs. destruct (i_idle0 _ Hs) as [Hz Hn]. split; [|done]. intros l.
    destruct (decide (s' = s)) as [->|Hne]; [|by rewrite Server.count_endSession].
    apply Server.count_dead; [by apply Server.endSession_ok|]. cbn. set_solver.
  - intros e p st E s' U Ha l. cbn [srv setSrv] in Ha |- *. cbn in Ha.
    rewrite Server.count_endSession by set_solver.
    apply (i_count0 _ _ _ E s' U). set_solver.
  - destruct i_next0 as (Ha & Hi & He). split_and!; [|done|done]. intros s' Hs. apply Ha. cbn in Hs. set_solver.
Qed.

(** The state in which a new call of [hold] awaits entry [e]. *)
Definition begun (p : nat) (key : string) (e : nat) (ents : gmap nat (nat * Status)) (n : nat) (y : Sys) : Sys :=
  let P := proc y p in
  mkSys (srv y) (idle y) (nextSess y) ents n
    (<[p := mkProc (Some e) ({[ key ]} ∪ held P) (mkHold key e Waiting :: holds P) (cleanups P)]> (procs y)).

Lemma hold_begun p key y : key ∉ held (proc y p) ->
  hold p key y = match conn (proc y p) with
                 | Some e => begun p key e (entries y) (nextEntry y) y
                 | None => begun p key (nextEntry y) (<[nextEntry y := (p, Connecting)]> (entries y)) (S (nextEntry y)) y
                 end.
Proof.
  intros Hk. unfold hold. rewrite bool_decide_eq_false_2 by done. unfold client.
  rewrite proc_setProc, decide_True by done. cbn. destruct (conn (proc y p)) as [e|] eqn:Ec.
  - rewrite proc_setProc, decide_True by done. cbn. unfold begun, setProc. cbn. by rewrite insert_insert_eq.
  - set (P' := mkProc (Some (nextEntry y)) ({[ key ]} ∪ held (proc y p)) (holds (proc y p)) (cleanups (proc y p))).
    assert (Hp : forall v i n es ne m, proc (mkSys v i n es ne (<[p := P']> m)) p = P')
      by (intros; unfold proc; cbn; by rewrite lookup_insert_eq).
    rewrite Hp. unfold begun, setProc. cbn. by rewrite !insert_insert_eq.
Qed.

Section begun.
Context (p : nat) (key : string) (e : nat) (ents : gmap nat (nat * Status)) (n : nat) (y : Sys).
Context (I : shape y) (Hk : key ∉ held (proc y p)).
Context (Hsub : entries y ⊆ ents) (Hnew : forall e' p' st, ents !! e' = Some (p', st) -> entries y !! e' = Some (p', st) \/
  e' = e /\ p' = p /\ st = Connecting).
Context (st0 : Status) (E0 : ents !! e = Some (p, st0)) (L0 : live st0).
Context (Hconn : conn (proc y p) = None \/ conn (proc y p) = Some e) (Hn : forall e', (n <= e')%nat -> ents !! e' = None).

Lemma begun_proc p' : proc (begun p key e ents n y) p' =
  if decide (p' = p)
  then mkProc (Some e) ({[ key ]} ∪ held (proc y p)) (mkHold key e Waiting :: holds (proc y p)) (cleanups (proc y p))
  else proc y p'.
Proof. apply (proc_setProc p _ y). Qed.

Lemma begun_shape : shape (begun p key e ents n y).
Proof.
  split.
  - intros p'. rewrite begun_proc. case_decide; [subst|apply (i_keys _ I)]. unfold keysOk. cbn.
    destruct (i_keys _ I p) as [Hnd Hh]. split; [constructor; [by rewrite <- Hh|done]|]. set_solver.
  - intros p' e'. rewrite begun_proc. case_decide as Hp; [subst; cbn; split|].
    + intros [= <-]. eauto.
    + intros (st & [E'|(-> & _)]%Hnew & Ls); [|done].
      assert (Hc : conn (proc y p) = Some e') by (apply (i_conn _ I); eauto). destruct Hconn; congruence.
    + rewrite (i_conn _ I). split; intros (st & E' & Ls); exists st; split; try done; cbn in *.
      * by eapply lookup_weaken.
      * by destruct (Hnew _ _ _ E') as [?|(-> & -> & ->)].
  - intros p' h. rewrite begun_proc. case_decide as Hp; [subst; cbn|].
    + intros [->|Hh]%elem_of_cons; [exists st0; by destruct st0|].
      destruct (i_hold _ I _ _ Hh) as (st & E' & ?). exists st. split; [by eapply lookup_weaken|done].
    + intros Hh. destruct (i_hold _ I _ _ Hh) as (st & E' & ?). exists st. split; [by eapply lookup_weaken|done].
  - intros p' e' He'. assert (He : e' ∈ cleanups (proc y p')) by (rewrite begun_proc in He'; by case_decide; subst).
    destruct (i_clean _ I _ _ He) as (st & E'). exists st. by eapply lookup_weaken.
  - done.
Qed.

Lemma begun_locks : locksOk None y -> locksOk None (begun p key e ents n y).
Proof.
  intros L. assert (Hu : forall e' p' st s, ents !! e' = Some (p', st) -> usesSess st s -> entries y !! e' = Some (p', st)).
  { intros e' p' st s [?|(_ & _ & ->)]%Hnew U; [done|]. by destruct U. }
  destruct L. split; try done; cbn.
  - intros e1 e2 p1 p2 st1 st2 s F1 F2 U1 U2. eapply i_sess0; eauto.
  - intros s Hs. destruct (i_idle0 _ Hs) as [Hz Hno]. split; [done|]. intros e' p' st F U. eapply Hno; eauto.
  - intros e' p' st F s U Ha l. pose proof (i_count0 _ _ _ (Hu _ _ _ _ F U) s U Ha l) as Hc.
    enough (lockedOn (proc (begun p key e ents n y) p') e' l = lockedOn (proc y p') e' l) as -> by done.
    rewrite begun_proc. case_decide; [by subst|done].
  - destruct i_next0 as (? & ? & He). split_and!; [done..|]. intros e' p' st s F U. eapply He; eauto.
Qed.

End begun.

Lemma hold_inv p key y : inv y -> inv (hold p key y).
Proof.
  intros [I L]. destruct (decide (key ∈ held (proc y p))) as [Hk|Hk].
  { unfold hold. by rewrite bool_decide_eq_true_2. }
  rewrite (hold_begun _ _ _ Hk). destruct (conn (proc y p)) as [e|] eqn:Ec.
  - destruct (proj1 (i_conn _ I _ _) Ec) as (st & E & Ls).
    split; [apply (begun_shape p key e _ _ y I Hk) with (st0 := st)|apply (begun_locks p key e)]; eauto.
    by apply (i_fresh _ I).
  - assert (Hf : entries y !! nextEntry y = None) by (apply (i_fresh _ I); lia).
    assert (Hnew : forall e' p' st, (<[nextEntry y := (p, Connecting)]> (entries y)) !! e' = Some (p', st) ->
      entries y !! e' = Some (p', st) \/ e' = nextEntry y /\ p' = p /\ st = Connecting).
    { intros e' p' st [[<- [= <- <-]]|[_ ?]]%lookup_insert_Some; auto. }
    split; [apply (begun_shape p key (nextEntry y) _ _ y I Hk) with (st0 := Connecting)|by apply (begun_locks p key (nextEntry y))];
      eauto; try done.
    + by apply insert_subseteq.
    + by rewrite lookup_insert_eq.
    + intros e' He. rewrite lookup_insert_ne by lia. apply (i_fresh _ I). lia.
Qed.

Section connecting.
Context (e p : nat) (y : Sys) (I : shape y) (E : entries y !! e = Some (p, Connecting)).

Lemma connecting_waits h : h ∈ holds (proc y p) -> h_entry h = e -> h_phase h = Waiting.
Proof.
  intros Hh He. destruct (i_hold _ I _ _ Hh) as (st & E' & Hph). rewrite He, E in E'. simplify_eq.
  by destruct (h_phase h) as [|[]|].
Qed.

Lemma connecting_unlocked l : lockedOn (proc y p) e l = 0%nat.
Proof.
  unfold lockedOn. destruct (List.filter _ _) as [|h hs] eqn:Ef; [done|]. exfalso.
  assert (Hh : In h (h :: hs)) by (by left). rewrite <- Ef in Hh. apply List.filter_In in Hh as [Hin Hb].
  apply list_elem_of_In in Hin. apply andb_prop in Hb as [[Hl Ho%bool_decide_eq_true]%andb_prop _].
  by rewrite (connecting_waits h Hin Ho) in Hl.
Qed.

Lemma opened_shape s : shape (setStatus e p (Open s) y).
Proof.
  split; try apply I; cbn.
  - intros p' e'. change (proc (setStatus e p (Open s) y) p') with (proc y p').
    rewrite (i_conn _ I). destruct (decide (e' = e)) as [->|He]; [rewrite lookup_insert_eq, E|by rewrite lookup_insert_ne].
    split; intros (st & [= -> <-] & _); eauto; by eexists.
  - intros p' h Hh. destruct (i_hold _ I _ _ Hh) as (st & E' & Hph).
    destruct (decide (h_entry h = e)) as [He|He]; [|exists st; by rewrite lookup_insert_ne].
    rewrite He, lookup_insert_eq. rewrite He, E in E'.
    assert (p' = p) as -> by congruence. exists (Open s). split; [done|].
    by rewrite (connecting_waits h Hh He).
  - intros p' e' He'. destruct (i_clean _ I _ _ He') as (st & E').
    destruct (decide (e' = e)) as [->|He]; [rewrite lookup_insert_eq|rewrite lookup_insert_ne by done]; [|eauto].
    rewrite E in E'. simplify_eq. eauto.
  - intros e' He. rewrite lookup_insert_ne; [by apply (i_fresh _ I)|]. intros <-. rewrite (i_fresh _ I) in E; done.
Qed.

(** The entry gets a session that no entry uses and that holds nothing. *)
Lemma opened_locks s v i n : locksOk None y ->
  Server.ok v -> (forall s' l, Server.count v s' l = Server.count (srv y) s' l) ->
  (forall l, Server.count v s l = 0%nat) -> (forall e' p' st, entries y !! e' = Some (p', st) -> ~ usesSess st s) ->
  (forall s', s' ∈ Server.alive v -> s' = s \/ s' ∈ Server.alive (srv y)) ->
  s ∉ i -> i ⊆ idle y -> (s < n)%nat -> (nextSess y <= n)%nat ->
  locksOk None (mkSys v i n (<[e := (p, Open s)]> (entries y)) (nextEntry y) (procs y)).
Proof.
  intros L Hok Hc Hz Hno Hal Hsi Hi Hsn Hn.
  assert (Hu : forall e' p' st s', (<[e := (p, Open s)]> (entries y)) !! e' = Some (p', st) -> usesSess st s' ->
    e' = e /\ p' = p /\ st = Open s /\ s' = s \/ entries y !! e' = Some (p', st) /\ s' <> s).
  { intros e' p' st s' [[<- [= <- <-]]|[_ E']]%lookup_insert_Some U; [left; by destruct U as [[=]|[=]]|].
    right. split; [done|]. intros ->. by apply (Hno _ _ _ E'). }
  destruct L as [_ Lse Lid Lc (Na & Ni & Ne)]. split; cbn; try done.
  - intros e1 e2 p1 p2 st1 st2 s' F1 F2 U1 U2.
    destruct (Hu _ _ _ _ F1 U1) as [(-> & _ & _ & ->)|[G1 ?]], (Hu _ _ _ _ F2 U2) as [(-> & _ & _ & ?)|[G2 ?]]; try done.
    by eapply Lse.
  - intros s' Hs. destruct (Lid s') as [Hz' Hno']; [set_solver|]. split; [intros l; by rewrite Hc|].
    intros e' p' st F U. destruct (Hu _ _ _ _ F U) as [(-> & _ & _ & ->)|[G ?]]; [done|]. by apply (Hno' _ _ _ G).
  - intros e' p' st F s' U Ha l. cbn in *. unfold countOk. change (proc (mkSys v i n _ _ (procs y)) p') with (proc y p').
    destruct (Hu _ _ _ _ F U) as [(-> & -> & -> & ->)|[G ?]].
    + rewrite Hz. pose proof (connecting_unlocked l) as Hl. unfold proc in *. cbn. lia.
    + destruct (Hal _ Ha) as [->|Ha']; [done|]. rewrite Hc. by apply (Lc _ _ _ G).
  - split_and!.
    + intros s' Hs. destruct (Hal _ Hs) as [->|Ha]; [done|]. specialize (Na _ Ha). lia.
    + intros s' Hs. specialize (Ni s' (Hi _ Hs)). lia.
    + intros e' p' st s' F U. destruct (Hu _ _ _ _ F U) as [(_ & _ & _ & ->)|[G ?]]; [done|].
      specialize (Ne _ _ _ _ G U). lia.
Qed.

End connecting.

Lemma connected_inv e reuse y y' : inv y -> connected e reuse y = Some y' -> inv y'.
Proof.
  intros [I L]. unfold connected. destruct (entries y !! e) as [[p [| | | |]]|] eqn:E; try done.
  destruct (i_next _ _ L) as (Na & Ni & Ne). destruct reuse as [s|].
  - case_bool_decide as Hs; cbn [negb]; [|done]. intros [= <-]. destruct (i_idle _ _ L _ Hs) as [Hz Hno].
    split; [by apply (shape_ext (srv y) (idle y ∖ {[s]}) (nextSess y) (setStatus e p (Open s) y)), opened_shape|].
    apply (opened_locks e p y I E s); try done; try set_solver; first [apply L|by apply Ni].
  - intros [= <-]. assert (Hd : nextSess y ∉ Server.alive (srv y)) by (intros Hin; specialize (Na _ Hin); lia).
    split; [by apply (shape_ext (Server.connect (nextSess y) (srv y)) (idle y) (S (nextSess y))
      (setStatus e p (Open (nextSess y)) y)), opened_shape|].
    apply (opened_locks e p y I E (nextSess y)); try done; try lia.
    + apply Server.connect_ok, L.
    + intros l. apply (Server.count_dead (srv y)); [apply L|done].
    + intros e' p' st F U. specialize (Ne _ _ _ _ F U). lia.
    + intros s' Hs. cbn in Hs. set_solver.
    + intros Hin. specialize (Ni _ Hin). lia.
Qed.

(** The connection of entry [e] failed: its calls are gone. *)
Section failing.
Context (e p : nat) (y y' : Sys) (I : shape y) (E : entries y !! e = Some (p, Connecting)).
Context (Hy : connectFailed e y = Some y').

Lemma failed_eq : y' = setStatus e p Failed
  (setProc p (mkProc None (held (proc y p) ∖ list_to_set (map h_key (List.filter (on e) (holds (proc y p)))))
                (List.filter (fun h => negb (on e h)) (holds (proc y p))) (cleanups (proc y p))) y).
Proof.
  unfold connectFailed in Hy. rewrite E in Hy. injection Hy as <-. rewrite bool_decide_eq_true_2; [done|].
  apply (i_conn _ I). by exists Connecting.
Qed.

Lemma failed_proc p' : proc y' p' =
  if decide (p' = p)
  then mkProc None (held (proc y p) ∖ list_to_set (map h_key (List.filter (on e) (holds (proc y p)))))
         (List.filter (fun h => negb (on e h)) (holds (proc y p))) (cleanups (proc y p))
  else proc y p'.
Proof. rewrite failed_eq. apply (proc_setProc p _ y). Qed.

Lemma failed_keys : keysOk (proc y' p).
Proof.
  rewrite failed_proc, decide_True by done. destruct (i_keys _ I p) as [Hnd Hh]. unfold keysOk. cbn.
  revert Hnd Hh. generalize (held (proc y p)) as hd. induction (holds (proc y p)) as [|h l IH]; cbn; intros hd Hnd Hh.
  { split; [constructor|]. intros k. rewrite elem_of_difference, Hh. set_solver. }
  apply NoDup_cons in Hnd as [Hn Hnd]. destruct (IH (hd ∖ {[ h_key h ]}) Hnd) as [IHn IHh]; [set_solver|].
  assert (Hsub : forall k, k ∈ map h_key (List.filter (fun h => negb (on e h)) l) -> k ∈ map h_key l).
  { intros k (h' & -> & Hin)%list_elem_of_fmap. apply list_elem_of_fmap_2.
    apply list_elem_of_In, List.filter_In in Hin as [Hin _]. by apply list_elem_of_In. }
  assert (Hsub' : forall k, k ∈ map h_key (List.filter (on e) l) -> k ∈ map h_key l).
  { intros k (h' & -> & Hin)%list_elem_of_fmap. apply list_elem_of_fmap_2.
    apply list_elem_of_In, List.filter_In in Hin as [Hin _]. by apply list_elem_of_In. }
  destruct (on e h); cbn; split.
  - done.
  - intros k. rewrite <- IHh. set_solver.
  - constructor; [|done]. auto.
  - intros k. specialize (IHh k). rewrite elem_of_cons, <- IHh. destruct (decide (k = h_key h)) as [->|]; set_solver.
Qed.

Lemma failed_shape : shape y'.
Proof.
  assert (Hc : conn (proc y p) = Some e) by (apply (i_conn _ I); by exists Connecting).
  assert (Hent : entries y' = <[e := (p, Failed)]> (entries y)) by (by rewrite failed_eq).
  split.
  - intros p'. destruct (decide (p' = p)) as [->|Hp]; [apply failed_keys|]. rewrite failed_proc, decide_False by done. apply I.
  - intros p' e'. rewrite failed_proc, Hent. destruct (decide (e' = e)) as [->|He].
    + rewrite lookup_insert_eq. split; [|by intros (st & [= <- <-] & [])].
      case_decide; [done|]. intros (st & E' & _)%(i_conn _ I). congruence.
    + rewrite lookup_insert_ne by done. rewrite <- (i_conn _ I). case_decide; [subst; cbn; split; congruence|done].
  - intros p' h. rewrite failed_proc, Hent. case_decide as Hp.
    + subst p'. cbn. intros [Hin Hon]%list_elem_of_In%List.filter_In. apply list_elem_of_In in Hin.
      destruct (i_hold _ I _ _ Hin) as (st & E' & Hph). exists st. rewrite lookup_insert_ne; [done|].
      intros He. unfold on in Hon. by rewrite bool_decide_eq_true_2 in Hon.
    + intros Hin. destruct (i_hold _ I _ _ Hin) as (st & E' & Hph). exists st. rewrite lookup_insert_ne; [done|].
      intros He. congruence.
  - intros p' e' He'. assert (He : e' ∈ cleanups (proc y p')) by (rewrite failed_proc in He'; by case_decide; subst).
    destruct (i_clean _ I _ _ He) as (st & E'). rewrite Hent. destruct (decide (e' = e)) as [->|].
    + rewrite E in E'. simplify_eq. rewrite lookup_insert_eq. eauto.
    + rewrite lookup_insert_ne by done. eauto.
  - intros e' He. rewrite failed_eq in He. rewrite Hent, lookup_insert_ne; [by apply (i_fresh _ I)|].
    intros <-. rewrite (i_fresh _ I) in E; done.
Qed.

Lemma failed_locked p' e' l : e' <> e -> lockedOn (proc y' p') e' l = lockedOn (proc y p') e' l.
Proof.
  intros He. rewrite failed_proc. case_decide; [subst|done]. unfold lockedOn. cbn.
  induction (holds (proc y p)) as [|h hs IH]; cbn; [done|]. destruct (on e h) eqn:Ho; cbn.
  - assert (Hn : on e' h = false) by (apply bool_decide_eq_true in Ho; apply bool_decide_eq_false; congruence).
    by rewrite Hn, andb_false_r.
  - case_match; cbn; by rewrite IH.
Qed.

Lemma failed_locks : locksOk None y -> locksOk None y'.
Proof.
  intros L. assert (Hent : entries y' = <[e := (p, Failed)]> (entries y)) by (by rewrite failed_eq).
  assert (Hu : forall e' p' st s, entries y' !! e' = Some (p', st) -> usesSess st s -> entries y !! e' = Some (p', st) /\ e' <> e).
  { rewrite Hent. intros e' p' st s [[<- [= <- <-]]|[? E']]%lookup_insert_Some U; [by destruct U|done]. }
  assert (Es : srv y' = srv y /\ idle y' = idle y /\ nextSess y' = nextSess y) by (by rewrite failed_eq).
  destruct Es as (Es & Ei & En). destruct L as [Lo Lse Lid Lc (Na & Ni & Ne)]. split; rewrite ?Es, ?Ei, ?En; try done.
  - intros e1 e2 p1 p2 st1 st2 s F1 F2 U1 U2. destruct (Hu _ _ _ _ F1 U1), (Hu _ _ _ _ F2 U2). by eapply Lse.
  - intros s Hs. destruct (Lid _ Hs) as [Hz Hno]. split; [done|]. intros e' p' st F U. destruct (Hu _ _ _ _ F U). by eapply Hno.
  - intros e' p' st F s U Ha l. destruct (Hu _ _ _ _ F U) as [G He]. rewrite failed_locked by done. rewrite Es in *.
    by apply (Lc _ _ _ G).
  - split_and!; [done..|]. intros e' p' st s F U. destruct (Hu _ _ _ _ F U). by eapply Ne.
Qed.

End failing.

Lemma connectFailed_inv e y y' : inv y -> connectFailed e y = Some y' -> inv y'.
Proof.
  intros [I L] Hy. destruct (entries y !! e) as [[p [| | | |]]|] eqn:E;
    try (unfold connectFailed in Hy; by rewrite E in Hy).
  split; [by eapply failed_shape|by eapply failed_locks].
Qed.

Lemma lease_exec_inv ev y y' : inv y -> exec ev y = Some y' -> inv y'.
Proof.
  intros Hi. destruct ev; cbn [exec].
  - intros [= <-]. by apply hold_inv.
  - by apply connected_inv.
  - by apply connectFailed_inv.
  - destruct (findHold p key y) as [h|] eqn:Hf; [|done]. destruct (h_phase h) eqn:Hp; try done. by apply (tryStep_inv p key).
  - destruct (findHold p key y) as [h|] eqn:Hf; [|done]. destruct (h_phase h) eqn:Hp; try done. intros [= <-].
    by eapply done_inv.
  - destruct (findHold p key y) as [h|] eqn:Hf; [|done]. destruct (h_phase h) eqn:Hp; try done. by apply (unlockStep_inv p key).
  - case_bool_decide as He; [|done]. intros [= <-]. apply cleanup_inv; [|by apply takeCleanup_inv].
    by apply (i_clean _ (proj1 Hi)).
  - destruct (entries y !! e) as [[p [| | | |]]|] eqn:E; try done. intros [= <-].
    apply (drop_inv None); [apply Hi|apply Hi|by left|done].
  - intros [= <-]. by apply sessionEnd_inv.
Qed.

Lemma lease_execs_inv evs y y' : inv y -> execs evs y = Some y' -> inv y'.
Proof.
  revert y. induction evs as [|ev evs IH]; intros y Hi; cbn; [by intros [= <-]|].
  destruct (exec ev y) as [y1|] eqn:E; [|done]. by apply IH, (lease_exec_inv ev y).
Qed.

(** The session through which a call holds its lock. *)
Definition sessionOf (y : Sys) (h : Hold) : option nat :=
  match entries y !! h_entry h with Some (_, (Open s | Destroyed s)) => Some s | _ => None end.

Lemma locked_count y p h s : inv y -> h ∈ holds (proc y p) -> lockedPhase (h_phase h) = true ->
  sessionOf y h = Some s -> s ∈ Server.alive (srv y) ->
  (0 < Server.count (srv y) s (lockName (h_key h)))%nat /\
  exists st, entries y !! h_entry h = Some (p, st) /\ usesSess st s.
Proof.
  intros [I L] Hh Hl Hs Ha. destruct (i_hold _ I _ _ Hh) as (st & E & _). unfold sessionOf in Hs. rewrite E in Hs.
  assert (U : usesSess st s) by (destruct st; simplify_eq; [by left|by right]). split; [|eauto].
  destruct (i_count _ _ L _ _ _ E s U Ha (lockName (h_key h))) as [Hle _].
  enough (0 < lockedOn (proc y p) (h_entry h) (lockName (h_key h)))%nat by lia.
  apply list_elem_of_split in Hh as (l1 & l2 & Hh). rewrite (locked_mid _ _ _ _ _ _ Hh).
  unfold locksH, on. rewrite Hl, bool_decide_eq_true_2, Z.eqb_refl by done. cbn. lia.
Qed.

(** C11: under every interleaving of calls, connection failures on either side, lost
    answers and ended sessions, of all calls of [hold] for one key in all processes
    at most one is in its [fn] with its session alive at the server. *)
Theorem one_leader evs y p1 p2 h1 h2 b1 b2 s1 s2 :
  execs evs start = Some y ->
  h1 ∈ holds (proc y p1) -> h_phase h1 = Running b1 -> sessionOf y h1 = Some s1 -> s1 ∈ Server.alive (srv y) ->
  h2 ∈ holds (proc y p2) -> h_phase h2 = Running b2 -> sessionOf y h2 = Some s2 -> s2 ∈ Server.alive (srv y) ->
  h_key h1 = h_key h2 -> p1 = p2 /\ h1 = h2.
Proof.
  intros Hex Hh1 Hr1 Hs1 Ha1 Hh2 Hr2 Hs2 Ha2 Hk. assert (Hi : inv y) by (eapply lease_execs_inv, Hex; apply inv_start).
  destruct (locked_count y p1 h1 s1) as (C1 & st1 & E1 & U1); [by rewrite ?Hr1..|].
  destruct (locked_count y p2 h2 s2) as (C2 & st2 & E2 & U2); [by rewrite ?Hr2..|].
  rewrite <- Hk in C2. assert (s1 = s2) as -> by (by eapply Server.count_owner).
  assert (He : h_entry h1 = h_entry h2) by (by eapply (i_sess _ _ (proj2 Hi))). rewrite He, E2 in E1.
  assert (p1 = p2) as -> by congruence. split; [done|].
  destruct (i_keys _ (proj1 Hi) p2) as [Hnd _].
  apply list_elem_of_lookup in Hh1 as [i1 L1]. apply list_elem_of_lookup in Hh2 as [i2 L2].
  assert (i1 = i2) as ->; [|congruence].
  apply (NoDup_lookup _ _ _ (h_key h1) Hnd); rewrite list_lookup_fmap; [by rewrite L1|by rewrite L2, Hk].
Qed.

(** Locks are accounted for: a client that is idle in the pool holds no lock; the
    session of an open client holds exactly the locks of the calls using it, so no
    unlock is ever answered with not-held; and a call in [fn] has been told that its
    lease is lost exactly if its client is no longer the process's current one. *)
Theorem locks_accounted evs y :
  execs evs start = Some y ->
  (forall s l, s ∈ idle y -> Server.count (srv y) s l = 0%nat) /\
  (forall e p s l, entries y !! e = Some (p, Open s) -> s ∈ Server.alive (srv y) ->
    Server.count (srv y) s l = lockedOn (proc y p) e l) /\
  (forall p key h s, findHold p key y = Some h -> h_phase h = Unlocking -> entries y !! h_entry h = Some (p, Open s) ->
    s ∈ Server.alive (srv y) -> (Server.unlock s (lockName (h_key h)) (srv y)).1 = true) /\
  (forall p h lost, h ∈ holds (proc y p) -> h_phase h = Running lost ->
    lost = negb (bool_decide (conn (proc y p) = Some (h_entry h)))).
Proof.
  intros Hex. assert (Hi : inv y) by (eapply lease_execs_inv, Hex; apply inv_start). destruct Hi as [I L]. split_and!.
  - intros s l Hs. by apply (i_idle _ _ L).
  - intros e p s l E Ha. by apply (i_count _ _ L _ _ _ E s (or_introl eq_refl) Ha l).
  - intros p key h s Hf Hu E Ha. by apply (unlock_released p key h s y).
  - intros p h lost Hh Hr. destruct (i_hold _ I _ _ Hh) as (st & E & Hph). rewrite Hr in Hph.
    destruct lost, st; try done; case_bool_decide as Hc; try done.
    + apply (i_conn _ I) in Hc as (st & E' & Hl). rewrite E in E'. by simplify_eq.
    + exfalso. apply Hc, (i_conn _ I). by eexists.
Qed.

End lease.

(** *** Two processes compete; one loses its session while working *)
Definition toyHash (s : string) : Z := Z.of_nat (String.length s).

Definition competing : list Event :=
  [EHold 0 "cron"; EHold 1 "cron"; EConnected 0 None; EConnected 1 None; ETry 0 "cron" Answer;
   ETry 1 "cron" Answer; ECleanup 1 1; ESessionEnd 0; EHold 1 "cron"; EConnected 2 (Some 1%nat); ETry 1 "cron" Answer].

Definition competed : Sys := default start (execs toyHash competing start).

Lemma one_leader_witness :
  map h_phase (holds (proc competed 0)) = [Running false] /\ (0%nat ∉ Server.alive (srv competed)) /\
  forall h, h ∈ holds (proc competed 1) -> h_phase h = Running false -> sessionOf competed h = Some 1%nat ->
    h_key h = "cron" -> 1%nat = 1%nat /\ h = mkHold "cron" 2 (Running false).
Proof.
  split; [vm_compute; reflexivity|]. split; [by apply (bool_decide_unpack _); vm_compute|].
  assert (Hex : execs toyHash competing start = Some competed) by (vm_compute; reflexivity).
  assert (Ha : 1%nat ∈ Server.alive (srv competed)) by (apply (bool_decide_unpack _); vm_compute; exact Logic.I).
  assert (Hin : mkHold "cron" 2 (Running false) ∈ holds (proc competed 1)) by (vm_compute; left).
  assert (Hses : sessionOf competed (mkHold "cron" 2 (Running false)) = Some 1%nat) by (vm_compute; reflexivity).
  intros h Hh Hr Hs Hk. exact (one_leader toyHash competing competed 1 1 h _ false false 1 1 Hex Hh Hr Hs Ha Hin eq_refl Hses Ha Hk).
Defined.

Lemma locks_accounted_witness : forall s l, s ∈ idle competed -> Server.count (srv competed) s l = 0%nat.
Proof. apply (locks_accounted toyHash competing competed). vm_compute. reflexivity. Defined.

(** The call holding ["a"] outlives its client, which another call replaced: when
    the last call ends, the callbacks look only at their own entry, and the second
    client stays checked out although no call uses it. *)
Example client_kept :
  exists y, execs toyHash
    [EHold 0 "a"; EConnected 0 None; ETry 0 "a" Answer; EClientError 0; ESessionEnd 0;
     EHold 0 "b"; EConnected 1 None; ETry 0 "b" Answer; EDone 0 "b"; EUnlock 0 "b" Answer; ECleanup 0 1;
     EDone 0 "a"; EUnlock 0 "a" (Error false); ECleanup 0 0] start = Some y /\
  holds (proc y 0) = [] /\ cleanups (proc y 0) = [] /\ conn (proc y 0) = Some 1%nat /\ idle y = ∅.
Proof. eexists. split; [vm_compute; reflexivity|]. split_and!; vm_compute; reflexivity. Qed.

End Lease.

(** ** The advisory lock *)
Module Advisory.
Section advisory.
Context (hashtextextended : string -> Z).

Definition DEFAULT_ADVISORY_LOCK_TIMEOUT_MS : Z := (5 * 60000)%Z.

Inductive Result := Returned | Null | TimedOut | Threw.

(** Where a call is: awaiting a client, the answer to the lock query, [fn], the
    answer to the unlock query, or its next attempt. *)
Inductive Phase :=
| Connecting | Querying (s : nat) | InFn (s : nat) | Unlocking (s : nat) (threw : bool) | Sleeping | Ended (r : Result).

(** A call; [c_deadline] is [None] for [tryWithLock]. *)
Record Call := mkCall { c_key : string; c_deadline : option Z; c_phase : Phase }.

Record Sys := mkSys { srv : Server.t; idle : gset nat; nextSess : nat; calls : gmap nat Call; nextCall : nat }.

Definition start : Sys := mkSys Server.empty ∅ 0 ∅ 0.

Definition setCall (i : nat) (c : Call) (ph : Phase) (y : Sys) : Sys :=
  mkSys (srv y) (idle y) (nextSess y) (<[i := mkCall (c_key c) (c_deadline c) ph]> (calls y)) (nextCall y).
Definition setSrv (v : Server.t) (y : Sys) : Sys := mkSys v (idle y) (nextSess y) (calls y) (nextCall y).

(** [client.release()]: the pool keeps the client unless its connection is known to
    have ended. *)
Definition release (s : nat) (broken : bool) (y : Sys) : Sys :=
  mkSys (srv y) (if broken then idle y else {[ s ]} ∪ idle y) (nextSess y) (calls y) (nextCall y).

Inductive Reply := Answer | Error (executed broken : bool).

Inductive Event :=
| AWithLock (key : string) (timeoutMs now : Z)
| ATryWithLock (key : string)
| AConnected (i : nat) (reuse : option nat)
| AConnectFailed (i : nat)
| AQuery (i : nat) (r : Reply) (now : Z)
| ADone (i : nat) (threw : bool)
| AUnlock (i : nat) (r : Reply)
| AWake (i : nat)
| ASessionEnd (s : nat).

(** The end of an attempt that did not get the lock. *)
Definition missed (c : Call) (now : Z) : Phase :=
  match c_deadline c with
  | None => Ended Null
  | Some deadline => if (now >=? deadline)%Z then Ended TimedOut else Sleeping
  end.

Definition begin (key : string) (deadline : option Z) (y : Sys) : Sys :=
  mkSys (srv y) (idle y) (nextSess y) (<[nextCall y := mkCall key deadline Connecting]> (calls y)) (S (nextCall y)).

Definition connected (i : nat) (c : Call) (reuse : option nat) (y : Sys) : option Sys :=
  match reuse with
  | None =>
    let s := nextSess y in
    Some (setCall i c (Querying s) (mkSys (Server.connect s (srv y)) (idle y) (S s) (calls y) (nextCall y)))
  | Some s =>
    if negb (bool_decide (s ∈ idle y)) then None else
    Some (setCall i c (Querying s) (mkSys (srv y) (idle y ∖ {[ s ]}) (nextSess y) (calls y) (nextCall y)))
  end.

Definition query (i : nat) (c : Call) (s : nat) (r : Reply) (now : Z) (y : Sys) : option Sys :=
  let h := hashtextextended (c_key c) in
  let isAlive := bool_decide (s ∈ Server.alive (srv y)) in
  match r with
  | Answer =>
    if negb isAlive then None else
    let '(locked, v) := Server.tryLock s h (srv y) in
    Some (if locked then setCall i c (InFn s) (setSrv v y)
          else setCall i c (missed c now) (release s false (setSrv v y)))
  | Error executed broken =>
    let v := if executed && isAlive then (Server.tryLock s h (srv y)).2 else srv y in
    Some (setCall i c (Ended Threw) (release s broken (setSrv v y)))
  end.

Definition unlockStep (i : nat) (c : Call) (s : nat) (threw : bool) (r : Reply) (y : Sys) : option Sys :=
  let h := hashtextextended (c_key c) in
  let isAlive := bool_decide (s ∈ Server.alive (srv y)) in
  match r with
  | Answer =>
    if negb isAlive then None else
    let v := (Server.unlock s h (srv y)).2 in
    Some (setCall i c (Ended (if threw then Threw else Returned)) (release s false (setSrv v y)))
  | Error executed broken =>
    let v := if executed && isAlive then (Server.unlock s h (srv y)).2 else srv y in
    Some (setCall i c (Ended Threw) (release s broken (setSrv v y)))
  end.

Definition exec (ev : Event) (y : Sys) : option Sys :=
  match ev with
  | AWithLock key timeoutMs now => Some (begin key (Some (now + timeoutMs)%Z) y)
  | ATryWithLock key => Some (begin key None y)
  | AConnected i reuse =>
    match calls y !! i with
    | Some c => match c_phase c with Connecting => connected i c reuse y | _ => None end
    | None => None
    end
  | AConnectFailed i =>
    match calls y !! i with
    | Some c => match c_phase c with Connecting => Some (setCall i c (Ended Threw) y) | _ => None end
    | None => None
    end
  | AQuery i r now =>
    match calls y !! i with
    | Some c => match c_phase c with Querying s => query i c s r now y | _ => None end
    | None => None
    end
  | ADone i threw =>
    match calls y !! i with
    | Some c => match c_phase c with InFn s => Some (setCall i c (Unlocking s threw) y) | _ => None end
    | None => None
    end
  | AUnlock i r =>
    match calls y !! i with
    | Some c => match c_phase c with Unlocking s threw => unlockStep i c s threw r y | _ => None end
    | None => None
    end
  | AWake i =>
    match calls y !! i with
    | Some c => match c_phase c with Sleeping => Some (setCall i c Connecting y) | _ => None end
    | None => None
    end
  | ASessionEnd s => Some (setSrv (Server.endSession s (srv y)) y)
  end.

Fixpoint execs (evs : list Event) (y : Sys) : option Sys :=
  match evs with [] => Some y | ev :: evs => match exec ev y with Some y => execs evs y | None => None end end.

(** The client a call has checked out; whether it has the lock. *)
Definition usesOf (ph : Phase) : option nat :=
  match ph with Querying s | InFn s | Unlocking s _ => Some s | _ => None end.
Definition locksOf (ph : Phase) : bool := match ph with InFn _ | Unlocking _ _ => true | _ => false end.

Record inv (y : Sys) : Prop := mkInv {
  a_srv : Server.ok (srv y);
  a_uses : forall i j c d s, calls y !! i = Some c -> calls y !! j = Some d ->
    usesOf (c_phase c) = Some s -> usesOf (c_phase d) = Some s -> i = j;
  a_idle : forall i c s, calls y !! i = Some c -> usesOf (c_phase c) = Some s -> (s ∉ idle y) /\ (s < nextSess y)%nat;
  a_lock : forall i c s, calls y !! i = Some c -> usesOf (c_phase c) = Some s -> locksOf (c_phase c) = true ->
    s ∈ Server.alive (srv y) -> (0 < Server.count (srv y) s (hashtextextended (c_key c)))%nat;
  a_next : (forall s, s ∈ idle y -> (s < nextSess y)%nat) /\ (forall s, s ∈ Server.alive (srv y) -> (s < nextSess y)%nat) }.

Lemma adv_inv_start : inv start.
Proof. by split. Qed.

(** One call moves from one phase to another: [s] is the only session whose locks
    change, and it is the call's, before or after. *)
Lemma adv_move_inv y i c ph v ids n :
  inv y -> calls y !! i = Some c -> Server.ok v ->
  (forall s l, usesOf (c_phase c) <> Some s -> usesOf ph <> Some s -> s ∈ Server.alive v ->
    Server.count v s l = Server.count (srv y) s l /\ s ∈ Server.alive (srv y)) ->
  (forall s, usesOf ph = Some s -> (usesOf (c_phase c) = Some s \/ forall j d, calls y !! j = Some d -> usesOf (c_phase d) <> Some s) /\
    (s ∉ ids) /\ (s < n)%nat /\
    (locksOf ph = true -> s ∈ Server.alive v -> (0 < Server.count v s (hashtextextended (c_key c)))%nat)) ->
  (forall s, s ∈ ids -> (s ∈ idle y \/ usesOf (c_phase c) = Some s)) -> (nextSess y <= n)%nat ->
  (forall s, s ∈ Server.alive v -> (s < n)%nat) ->
  inv (setCall i c ph (mkSys v ids n (calls y) (nextCall y))).
Proof.
  intros I E Hok Hcnt Hph Hids Hn Hal.
  assert (Hl : forall j d, calls (setCall i c ph (mkSys v ids n (calls y) (nextCall y))) !! j = Some d ->
    j = i /\ d = mkCall (c_key c) (c_deadline c) ph \/ j <> i /\ calls y !! j = Some d).
  { cbn. intros j d [[<- <-]|[? ?]]%lookup_insert_Some; auto. }
  assert (Hfar : forall j d s, j <> i -> calls y !! j = Some d -> usesOf (c_phase d) = Some s ->
    usesOf (c_phase c) <> Some s /\ usesOf ph <> Some s).
  { intros j d s Hne Ej Uj. split; [intros Uc; apply Hne; by eapply (a_uses _ I)|]. intros Up.
    destruct (Hph _ Up) as [[Uc|Hf] _]; [apply Hne; by eapply (a_uses _ I)|by apply (Hf _ _ Ej)]. }
  split; [done| | | |].
  - intros j1 j2 d1 d2 s [(-> & ->)|[H1 E1]]%Hl [(-> & ->)|[H2 E2]]%Hl U1 U2; cbn in *; try done.
    + by destruct (Hfar _ _ _ H2 E2 U2).
    + by destruct (Hfar _ _ _ H1 E1 U1).
    + by eapply (a_uses _ I).
  - intros j d s [(-> & ->)|[Hj Ej]]%Hl U; cbn in *; [split; by apply Hph|].
    destruct (a_idle _ I _ _ _ Ej U) as [Hni Hlt]. destruct (Hfar _ _ _ Hj Ej U) as [Hc _].
    split; [|lia]. intros [?|?]%Hids; done.
  - intros j d s [(-> & ->)|[Hj Ej]]%Hl U Hlk Ha; cbn in *; [by apply Hph|].
    destruct (Hfar _ _ _ Hj Ej U) as [Hc Hp]. destruct (Hcnt _ (hashtextextended (c_key d)) Hc Hp Ha) as [-> Ha'].
    by apply (a_lock _ I _ _ _ Ej U).
  - cbn. split; [|done]. intros s [Hs|Hs]%Hids; [destruct (a_next _ I) as [Hi _]; specialize (Hi _ Hs); lia|].
    destruct (a_idle _ I _ _ _ E Hs). lia.
Qed.

(** The same, when the call keeps its client or gives it back and only the locks of
    its own session change. *)
Lemma adv_own_inv y i c ph v ids s :
  inv y -> calls y !! i = Some c -> usesOf (c_phase c) = Some s -> Server.ok v ->
  Server.alive v = Server.alive (srv y) ->
  (forall s' l, s' <> s -> Server.count v s' l = Server.count (srv y) s' l) ->
  usesOf ph = None /\ ids ⊆ {[ s ]} ∪ idle y \/
  usesOf ph = Some s /\ ids = idle y /\
    (locksOf ph = true -> s ∈ Server.alive v -> (0 < Server.count v s (hashtextextended (c_key c)))%nat) ->
  inv (setCall i c ph (mkSys v ids (nextSess y) (calls y) (nextCall y))).
Proof.
  intros I E U Hok Hal Hoth Hph. destruct (a_idle _ I _ _ _ E U) as [Hni Hlt]. apply adv_move_inv; try done.
  - intros s' l Hc _ Ha. rewrite Hal in Ha. split; [apply Hoth; congruence|done].
  - intros s' Up. destruct Hph as [[Hn _]|(Hs & -> & Hl)]; [congruence|]. assert (s' = s) as -> by congruence. auto.
  - intros s' Hs. destruct Hph as [[_ Hsub]|(_ & -> & _)]; [|by left].
    specialize (Hsub _ Hs). apply elem_of_union in Hsub as [->%elem_of_singleton|]; auto.
  - rewrite Hal. apply (a_next _ I).
Qed.

Lemma adv_begin_inv key dl y : inv y -> inv (begin key dl y).
Proof.
  intros I. assert (Hl : forall j d s, calls (begin key dl y) !! j = Some d -> usesOf (c_phase d) = Some s -> calls y !! j = Some d).
  { cbn. intros j d s [[<- <-]|[? ?]]%lookup_insert_Some U; done. }
  destruct I. split; try done.
  - intros i j c d s E1 E2 U1 U2. eapply a_uses0; eauto.
  - intros i c s E U. eapply a_idle0; eauto.
  - intros i c s E U. eapply a_lock0; eauto.
Qed.

Lemma adv_idle_inv y i c ph : inv y -> calls y !! i = Some c -> usesOf (c_phase c) = None -> usesOf ph = None ->
  inv (setCall i c ph y).
Proof.
  intros I E Uc Up. destruct y as [v ids n cs nc]. apply (adv_move_inv _ i c ph v ids n I E); cbn; try done.
  - apply (a_srv _ I).
  - by rewrite Up.
  - auto.
  - apply (a_next _ I).
Qed.

Lemma adv_connected_inv i c reuse y y' : inv y -> calls y !! i = Some c -> c_phase c = Connecting ->
  connected i c reuse y = Some y' -> inv y'.
Proof.
  intros I E Hc. destruct (a_next _ I) as [Ni Na]. unfold connected. destruct reuse as [s|].
  - case_bool_decide as Hs; cbn [negb]; [|done]. intros [= <-].
    apply (adv_move_inv y i c (Querying s)); try done; try (by rewrite Hc); cbn.
    + apply (a_srv _ I).
    + intros s' [= <-]. split_and!; [|set_solver|by apply Ni|done]. right. intros j d Ej U.
      by destruct (a_idle _ I _ _ _ Ej U).
    + set_solver.
  - intros [= <-]. apply (adv_move_inv y i c (Querying (nextSess y))); try done; cbn; try lia.
    + apply Server.connect_ok, (a_srv _ I).
    + intros s' l _ Hne Ha. split; [done|]. assert (s' <> nextSess y) by congruence. set_solver.
    + intros s' [= <-]. split_and!; [|intros Hin; specialize (Ni _ Hin); lia|lia|done]. right. intros j d Ej U.
      destruct (a_idle _ I _ _ _ Ej U). lia.
    + intros s' Hs. auto.
    + intros s' Hs. apply elem_of_union in Hs as [->%elem_of_singleton|Hs]; [lia|]. specialize (Na _ Hs). lia.
Qed.

Lemma release_sub s (b : bool) (i : gset nat) : (if b then i else {[ s ]} ∪ i) ⊆ {[ s ]} ∪ i.
Proof. destruct b; set_solver. Qed.

Lemma adv_query_inv i c s r now y y' : inv y -> calls y !! i = Some c -> c_phase c = Querying s ->
  query i c s r now y = Some y' -> inv y'.
Proof.
  intros I E Hc. assert (U : usesOf (c_phase c) = Some s) by (by rewrite Hc). unfold query.
  assert (Hk : s ∈ Server.alive (srv y) -> let v := (Server.tryLock s (hashtextextended (c_key c)) (srv y)).2 in
    Server.ok v /\ Server.alive v = Server.alive (srv y) /\
    forall s' l, s' <> s -> Server.count v s' l = Server.count (srv y) s' l).
  { intros Ha v. split_and!; [by apply Server.tryLock_ok, (a_srv _ I)|apply Server.tryLock_alive|].
    intros s' l Hs. unfold v. rewrite Server.count_tryLock, (bool_decide_eq_false_2 (s' = s)), andb_false_r by done.
    apply Nat.add_0_r. }
  destruct r as [|ex br].
  - case_bool_decide as Ha; cbn [negb]; [|done]. destruct (Hk Ha) as (Hok & Hal & Hoth).
    pose proof (Server.tryLock_won s (hashtextextended (c_key c)) (srv y)) as Hwon.
    destruct (Server.tryLock s (hashtextextended (c_key c)) (srv y)) as [[] v]; cbn in *; intros [= <-].
    + apply (adv_own_inv y i c (InFn s) v (idle y) s); try done. right. by split_and!; auto.
    + apply (adv_own_inv y i c _ v _ s); try done. left. split; [|apply (release_sub s false)].
      unfold missed. by repeat case_match.
  - intros [= <-]. case_bool_decide as Ha; [|rewrite andb_false_r]; [rewrite andb_true_r; destruct ex|].
    + destruct (Hk Ha) as (Hok & Hal & Hoth). apply (adv_own_inv y i c _ _ _ s); try done. left. split; [done|apply release_sub].
    + apply (adv_own_inv y i c _ _ _ s); try done; [apply (a_srv _ I)|]. left. split; [done|apply release_sub].
    + apply (adv_own_inv y i c _ _ _ s); try done; [apply (a_srv _ I)|]. left. split; [done|apply release_sub].
Qed.

Lemma adv_unlockStep_inv i c s threw r y y' : inv y -> calls y !! i = Some c -> c_phase c = Unlocking s threw ->
  unlockStep i c s threw r y = Some y' -> inv y'.
Proof.
  intros I E Hc. assert (U : usesOf (c_phase c) = Some s) by (by rewrite Hc). unfold unlockStep.
  set (v := (Server.unlock s (hashtextextended (c_key c)) (srv y)).2).
  assert (Hk : Server.ok v /\ Server.alive v = Server.alive (srv y) /\
    forall s' l, s' <> s -> Server.count v s' l = Server.count (srv y) s' l).
  { split_and!; [apply Server.unlock_ok, (a_srv _ I)|apply Server.unlock_alive|]. intros s' l Hs. unfold v.
    rewrite (proj2 (Server.count_unlock _ _ _ s' l (a_srv _ I))), (bool_decide_eq_false_2 (s' = s)) by done. apply Nat.sub_0_r. }
  destruct Hk as (Hok & Hal & Hoth). destruct r as [|ex br].
  - destruct (bool_decide _); cbn [negb]; [|done]. intros [= <-].
    apply (adv_own_inv y i c _ v _ s); try done. left. split; [done|apply (release_sub s false)].
  - intros [= <-]. destruct (ex && _).
    + apply (adv_own_inv y i c _ v _ s); try done. left. split; [done|apply release_sub].
    + apply (adv_own_inv y i c _ (srv y) _ s); try done; [apply (a_srv _ I)|]. left. split; [done|apply release_sub].
Qed.

Lemma adv_sessionEnd_inv s y : inv y -> inv (setSrv (Server.endSession s (srv y)) y).
Proof.
  intros []. split; try done; cbn -[Server.endSession].
  - by apply Server.endSession_ok.
  - intros i c s' E U Hl Ha. cbn in Ha. rewrite Server.count_endSession by set_solver. eapply a_lock0; eauto. set_solver.
  - destruct a_next0 as [Hi Hal]. split; [done|]. intros s' Hs. apply Hal. cbn in Hs. set_solver.
Qed.

Lemma adv_exec_inv ev y y' : inv y -> exec ev y = Some y' -> inv y'.
Proof.
  intros Hi. destruct ev; cbn [exec]; try (destruct (calls y !! i) as [c|] eqn:E; [|done]; destruct (c_phase c) eqn:Hp; try done).
  - intros [= <-]. by apply adv_begin_inv.
  - intros [= <-]. by apply adv_begin_inv.
  - by apply adv_connected_inv.
  - intros [= <-]. apply adv_idle_inv; rewrite ?Hp; done.
  - by apply adv_query_inv.
  - intros [= <-]. destruct y as [v ids n cs nc]. apply (adv_own_inv (mkSys v ids n cs nc) i c _ v ids s); try done; rewrite ?Hp; try done.
    + apply (a_srv _ Hi).
    + right. split_and!; [done..|]. intros _ Ha. by apply (a_lock _ Hi i c s); rewrite ?Hp.
  - by apply adv_unlockStep_inv.
  - intros [= <-]. apply adv_idle_inv; rewrite ?Hp; done.
  - intros [= <-]. by apply adv_sessionEnd_inv.
Qed.

Lemma adv_execs_inv evs y y' : inv y -> execs evs y = Some y' -> inv y'.
Proof.
  revert y. induction evs as [|ev evs IH]; intros y Hi; cbn; [by intros [= <-]|].
  destruct (exec ev y) as [y1|] eqn:E; [|done]. by apply IH, (adv_exec_inv ev y).
Qed.

(** Under every interleaving of [withLock] and [tryWithLock], their retries and
    timeouts, failed queries and ended sessions, two calls for one key are never
    both in their [fn] with their sessions alive at the server. *)
Theorem advisory_exclusive evs y i j c d s s' :
  execs evs start = Some y ->
  calls y !! i = Some c -> c_phase c = InFn s -> s ∈ Server.alive (srv y) ->
  calls y !! j = Some d -> c_phase d = InFn s' -> s' ∈ Server.alive (srv y) ->
  c_key c = c_key d -> i = j.
Proof.
  intros Hex Ei Hi Ha Ej Hj Ha' Hk. assert (I : inv y) by (eapply adv_execs_inv, Hex; apply adv_inv_start).
  assert (Ci : (0 < Server.count (srv y) s (hashtextextended (c_key c)))%nat) by (apply (a_lock _ I i c s); by rewrite ?Hi).
  assert (Cj : (0 < Server.count (srv y) s' (hashtextextended (c_key d)))%nat) by (apply (a_lock _ I j d s'); by rewrite ?Hj).
  rewrite <- Hk in Cj. assert (s = s') as -> by (by eapply Server.count_owner).
  apply (a_uses _ I i j c d s'); by rewrite ?Hi, ?Hj.
Qed.

End advisory.

Definition toyHash (s : string) : Z := Z.of_nat (String.length s).

Definition handover : list Event :=
  [AWithLock "k" DEFAULT_ADVISORY_LOCK_TIMEOUT_MS 0; ATryWithLock "k"; AConnected 0 None; AConnected 1 None;
   AQuery 0 Answer 1; AQuery 1 Answer 2].

Definition handedOver : Sys := default start (execs toyHash handover start).

(** The second call answers [null]: the first is alone in its [fn]. *)
Lemma advisory_exclusive_witness :
  (c_phase <$> calls handedOver !! 1%nat) = Some (Ended Null) /\
  forall i c s, calls handedOver !! i = Some c -> c_phase c = InFn s -> s ∈ Server.alive (srv handedOver) ->
    c_key c = "k" -> i = 0%nat.
Proof.
  split; [vm_compute; reflexivity|]. intros i c s Ei Hi Ha Hk.
  assert (Hex : execs toyHash handover start = Some handedOver) by (vm_compute; reflexivity).
  assert (E0 : calls handedOver !! 0%nat = Some (mkCall "k" (Some DEFAULT_ADVISORY_LOCK_TIMEOUT_MS) (InFn 0)))
    by (vm_compute; reflexivity).
  assert (Ha0 : 0%nat ∈ Server.alive (srv handedOver)) by (apply (bool_decide_unpack _); vm_compute; exact Logic.I).
  exact (advisory_exclusive toyHash handover handedOver i 0 c _ s 0 Hex Ei Hi Ha E0 eq_refl Ha0 Hk).
Defined.

(** An unlock that fails on a connection that lives on: the client goes back to the
    pool with the lock, and a call on another client times out. *)
Example failed_unlock_keeps_lock :
  exists y, execs toyHash
    [AWithLock "k" 1000 0; AConnected 0 None; AQuery 0 Answer 1; ADone 0 false; AUnlock 0 (Error false false);
     AWithLock "k" 1000 5; AConnected 1 None; AQuery 1 Answer 6; AWake 1; AConnected 1 (Some 1%nat); AQuery 1 Answer 1005]
    start = Some y /\
  (c_phase <$> calls y !! 1%nat) = Some (Ended TimedOut) /\ Server.count (srv y) 0 (toyHash "k") = 1%nat /\
  bool_decide (0%nat ∈ idle y) = true.
Proof. eexists. split; [vm_compute; reflexivity|]. split_and!; vm_compute; reflexivity. Qed.

End Advisory.
