(* ===== verification/Worker.v ===== *)
(** * Worker: processing queued runs

    [Beats] is the heartbeat of [processRun] ([src/runs/worker.ts]), which cancels
    a turn whose lease is gone.  [Pool] puts any number of workers ([createWorker]:
    its loop, [stop], [releaseInFlight]) and inline runs ([drive] of
    [src/api/app-helpers.ts]) on one run store ([Runs]) and one session store
    ([Sessions]), together with the reaper ([src/runs/reaper.ts]); each await-free
    stretch is an event.  [Drain] is [src/runs/drain.ts] with the registry of
    instances ([src/runs/instance-registry.ts]).  What a turn answers is chosen by
    the event that ends it. *)

From Stdlib Require Import ZArith Lia.
From S2P Require Import Prelude Collections Scopes Turns Sessions Runs.
From stdpp Require Import gmap.
Open Scope Z_scope.

(** ** The heartbeat of a turn *)
Module Beats.

Definition LEASE_LOST_CONSECUTIVE : Z := 3.

(** What became of one call of [heartbeat]. *)
Inductive Reply := alive | notAlive | errored.

(** [leaseLost] is also the abort of the turn: they are set together. *)
Record t := mk { consecutiveLost : Z; leaseLost : bool }.

Definition start : t := mk 0 false.

Definition handle (b : t) (r : Reply) : t :=
  match r with
  | alive => mk 0 (leaseLost b)
  | notAlive =>
    let n := consecutiveLost b + 1 in
    mk n (leaseLost b || ((LEASE_LOST_CONSECUTIVE <=? n) && negb (leaseLost b)))
  | errored => mk 0 (leaseLost b)
  end.

(** The number of not-alive replies at the end of a history. *)
Fixpoint streak (l : list Reply) : Z :=
  match l with notAlive :: l => 1 + streak l | _ => 0 end.

Lemma streak_nonneg l : 0 <= streak l.
Proof. induction l as [|[] l IH]; cbn; lia. Qed.

Lemma lost_streak replies : consecutiveLost (foldl handle start replies) = streak (rev replies).
Proof.
  induction replies as [|r l IH] using rev_ind; [done|]. rewrite foldl_app, rev_app_distr. cbn.
  destruct r; cbn; lia.
Qed.

Lemma streak_split l : LEASE_LOST_CONSECUTIVE <= streak l <-> exists l', l = [notAlive; notAlive; notAlive] ++ l'.
Proof.
  unfold LEASE_LOST_CONSECUTIVE. split.
  - destruct l as [|[] [|[] [|[] l]]]; cbn; try lia. intros _. by exists l.
  - intros [l' ->]. cbn. pose proof (streak_nonneg l'). lia.
Qed.

(** The turn of a run is cancelled exactly if three heartbeats in a row were
    answered that the lease is gone; an answer that it is alive, or an error,
    starts the count again. *)
Theorem cancelled_exactly replies :
  leaseLost (foldl handle start replies) = true <->
  exists before after, replies = before ++ [notAlive; notAlive; notAlive] ++ after.
Proof.
  induction replies as [|r l IH] using rev_ind.
  { split; [done|]. intros (b & a & E). by destruct b. }
  assert (Hstep : leaseLost (foldl handle start (l ++ [r])) = true <->
    leaseLost (foldl handle start l) = true \/ LEASE_LOST_CONSECUTIVE <= streak (rev (l ++ [r]))).
  { rewrite <- lost_streak, !foldl_app. cbn. destruct (foldl handle start l) as [n b] eqn:E. destruct r; cbn.
    - split; [by left|]. intros [?|?]; [done|]. unfold LEASE_LOST_CONSECUTIVE in *. lia.
    - rewrite orb_true_iff, andb_true_iff, Z.leb_le, negb_true_iff. destruct b; naive_solver.
    - split; [by left|]. intros [?|?]; [done|]. unfold LEASE_LOST_CONSECUTIVE in *. lia. }
  rewrite Hstep, IH, streak_split. split.
  - intros [(b & a & ->)|[l' E]]; [exists b, (a ++ [r]); by rewrite <- !app_assoc|].
    exists (rev l'), []. rewrite app_nil_r. by rewrite <- (rev_involutive (l ++ [r])), E, rev_app_distr.
  - intros (b & a & E). destruct a as [|x a] using rev_ind.
    + right. rewrite E, app_nil_r, rev_app_distr. by eexists.
    + left. exists b, a. rewrite !app_assoc in E. apply app_inj_tail in E as [-> _]. by rewrite <- app_assoc.
Qed.

End Beats.

(** ** Workers on one store *)
Module Pool.
Section pool.
Context {Req : Type}.
Variables (maxClaims : option Z) (leaseTtlMs sessionTtlMs : Z) (workerId : nat -> string).

Definition CLAIM_FAIL_CRASH_CONSECUTIVE : nat := 20.

(** A turn in progress: the run as it was claimed, its token, the heartbeat and the
    replies under way. *)
Record Turn := mkTurn { t_run : Run Req; t_token : string; t_beat : Beats.t; t_replies : list Beats.Reply }.

(** Where the loop is: polling, with a run that was just claimed, in [processRun],
    past its end, or ended by an error. *)
Inductive Phase := Polling | Claimed (run : Run Req) | InTurn (t : Turn) | Over | Crashed.

(** [inFlight] and the [held] of a [releaseInFlight] in progress. *)
Record InFlight := mkInFlight { f_runId : string; f_leaseToken : string; f_threadRef : string }.

Inductive Releasing := Idle | BeatDone (held : InFlight) | SessionDone (held : InFlight).

Record Worker := mkWorker {
  stopped : bool; phase : Phase; claimFailures : nat; inFlight : option InFlight;
  releasedLeaseToken : option string; releasing : Releasing; inline : bool }.

Definition newWorker : Worker := mkWorker false Polling 0 None None Idle false.
Definition inlineWorker : Worker := mkWorker false Polling 0 None None Idle true.

(** The stores, the workers, the reaper's work left to do and the tokens drawn. *)
Record Sys := mkSys {
  store : Store Req; sess : Sessions.Store; workers : gmap nat Worker; stranded : list string; tokens : list string }.

Definition setWorker (w : nat) (k : Worker) (y : Sys) : Sys :=
  mkSys (store y) (sess y) (<[w := k]> (workers y)) (stranded y) (tokens y).
Definition setStore (s : Store Req) (y : Sys) : Sys := mkSys s (sess y) (workers y) (stranded y) (tokens y).
Definition setSess (s : Sessions.Store) (y : Sys) : Sys := mkSys (store y) s (workers y) (stranded y) (tokens y).
Definition draw (token : string) (y : Sys) : Sys :=
  mkSys (store y) (sess y) (workers y) (stranded y) (token :: tokens y).

Definition toPhase (k : Worker) (ph : Phase) (f : option InFlight) : Worker :=
  mkWorker (stopped k) ph 0 f (releasedLeaseToken k) (releasing k) (inline k).

(** One round of the loop up to the answer of [claim]. *)
Definition claimStep (w : nat) (k : Worker) (canClaim : bool) (token : string) (now : Z) (y : Sys) : option Sys :=
  if stopped k then Some (setWorker w (mkWorker true Over (claimFailures k) None (releasedLeaseToken k) (releasing k) (inline k)) y) else
  if negb canClaim then Some y else
  if bool_decide (token ∈ tokens y) then None else
  match claim (workerId w) leaseTtlMs token now (store y) with
  | (None, s) => Some (setWorker w (toPhase k Polling None) (setStore s (draw token y)))
  | (Some run, s) => Some (setWorker w (toPhase k (Claimed run) None) (setStore s (draw token y)))
  end.

(** [claim] rejects: after twenty in a row the loop ends with the error. *)
Definition claimError (w : nat) (k : Worker) (y : Sys) : Sys :=
  let n := S (claimFailures k) in
  setWorker w (mkWorker (stopped k) (if (CLAIM_FAIL_CRASH_CONSECUTIVE <=? n)%nat then Crashed else Polling) n
                 (inFlight k) (releasedLeaseToken k) (releasing k) (inline k)) y.

(** [drive]: [claimById], then [processRun] outside any loop. *)
Definition driveStep (w : nat) (k : Worker) (runId token : string) (now : Z) (y : Sys) : option Sys :=
  if bool_decide (token ∈ tokens y) then None else
  match claimById runId "inline" leaseTtlMs token now (store y) with
  | (None, s) => Some (setWorker w (toPhase k Over None) (setStore s (draw token y)))
  | (Some run, s) => Some (setWorker w (toPhase k (InTurn (mkTurn run token Beats.start [])) None) (setStore s (draw token y)))
  end.

(** With a claimed run: hand it back if [stop] was called meanwhile, else start its
    turn. *)
Definition proceed (w : nat) (k : Worker) (run : Run Req) (y : Sys) : Sys :=
  if stopped k then
    let s := match leaseToken run with
             | Some token => (releaseLease (id run) token (store y)).2
             | None => store y
             end in
    setWorker w (toPhase k Over None) (setStore s y)
  else
    match leaseToken run with
    | Some token =>
      setWorker w (toPhase k (InTurn (mkTurn run token Beats.start []))
                     (Some (mkInFlight (id run) token (sessionId run)))) y
    | None => setWorker w (toPhase k Polling None) y
    end.

Definition withTurn (k : Worker) (t : Turn) : Worker :=
  mkWorker (stopped k) (InTurn t) (claimFailures k) (inFlight k) (releasedLeaseToken k) (releasing k) (inline k).

(** The interval fires; it is cleared once the lease is known to be lost. *)
Definition beat (w : nat) (k : Worker) (t : Turn) (now : Z) (y : Sys) : option Sys :=
  if Beats.leaseLost (t_beat t) then None else
  let '(ok, s) := heartbeat (id (t_run t)) (t_token t) leaseTtlMs now (store y) in
  let r := if ok then Beats.alive else Beats.notAlive in
  Some (setWorker w (withTurn k (mkTurn (t_run t) (t_token t) (t_beat t) (t_replies t ++ [r]))) (setStore s y)).

Definition beatFailed (w : nat) (k : Worker) (t : Turn) (y : Sys) : option Sys :=
  if Beats.leaseLost (t_beat t) then None else
  Some (setWorker w (withTurn k (mkTurn (t_run t) (t_token t) (t_beat t) (t_replies t ++ [Beats.errored]))) y).

(** The answer to one of the heartbeats under way arrives. *)
Definition reply (w : nat) (k : Worker) (t : Turn) (i : nat) (y : Sys) : option Sys :=
  match t_replies t !! i with
  | Some r =>
    Some (setWorker w (withTurn k (mkTurn (t_run t) (t_token t) (Beats.handle (t_beat t) r) (delete i (t_replies t)))) y)
  | None => None
  end.

(** The turn answers, or throws: [complete] or [fail], and the loop goes on. *)
Definition finish (w : nat) (k : Worker) (t : Turn) (res : TurnResult.t + (string * bool)) (now : Z) (y : Sys) : Sys :=
  let s := match res with
           | inl r => (complete (id (t_run t)) (t_token t) r now (store y)).2
           | inr (err, nonRetryable) => (fail_ maxClaims (id (t_run t)) (t_token t) err (Some (negb nonRetryable)) now (store y)).2
           end in
  setWorker w (toPhase k (if inline k then Over else Polling) None) (setStore s y).

(** [releaseInFlight], in three stretches: the heartbeat; the session's lease; the
    run's lease. *)
Definition setReleasing (k : Worker) (r : Releasing) (released : option string) : Worker :=
  mkWorker (stopped k) (phase k) (claimFailures k) (inFlight k) released r (inline k).

Definition releaseBeat (w : nat) (k : Worker) (now : Z) (y : Sys) : Sys :=
  match inFlight k, releasing k with
  | Some held, Idle =>
    if bool_decide (releasedLeaseToken k = Some (f_leaseToken held)) then y else
    let '(ok, s) := heartbeat (f_runId held) (f_leaseToken held) leaseTtlMs now (store y) in
    if ok then setWorker w (setReleasing k (BeatDone held) (releasedLeaseToken k)) (setStore s y)
    else setWorker w (setReleasing k Idle (Some (f_leaseToken held))) (setStore s y)
  | _, _ => y
  end.

Definition releaseSession (w : nat) (k : Worker) (held : InFlight) (y : Sys) : Sys :=
  let s := match Sessions.getByThread (f_threadRef held) (sess y) with
           | Some session => Sessions.forceReleaseLease (Session.id session) (sess y)
           | None => sess y
           end in
  setWorker w (setReleasing k (SessionDone held) (releasedLeaseToken k)) (setSess s y).

Definition releaseRun (w : nat) (k : Worker) (held : InFlight) (y : Sys) : Sys :=
  setWorker w (setReleasing k Idle (Some (f_leaseToken held)))
    (setStore (releaseLease (f_runId held) (f_leaseToken held) (store y)).2 y).

(** The reaper: retire the lapsed runs, then free their sessions one by one. *)
Definition reap (now : Z) (maxAgeMs : option Z) (y : Sys) : Sys :=
  let acc := reapExpired maxClaims now maxAgeMs (store y) in
  mkSys (rp_store acc) (sess y) (workers y) (stranded y ++ Arr.dedup (rp_retired acc)) (tokens y).

Definition releaseStrandedSessionLease (y : Sys) : Sys :=
  match stranded y with
  | [] => y
  | threadRef :: rest =>
    let s := match Sessions.getByThread threadRef (sess y) with
             | Some session => Sessions.forceReleaseLease (Session.id session) (sess y)
             | None => sess y
             end in
    mkSys (store y) s (workers y) rest (tokens y)
  end.

Inductive Event :=
| EEnqueue (input : EnqueueInput Req) (uuid : string) (now : Z)
| ESetDeliveryState (runId : string) (token : option string) (st : option string)
| ESession (o : Sessions.op)
| ECreate (w : nat) (isInline : bool)
| EClaim (w : nat) (canClaim : bool) (token : string) (now : Z)
| EClaimError (w : nat)
| EDrive (w : nat) (runId token : string) (now : Z)
| EProceed (w : nat)
| EBeat (w : nat) (now : Z)
| EBeatFailed (w : nat)
| EReply (w : nat) (i : nat)
| EFinish (w : nat) (res : TurnResult.t + (string * bool)) (now : Z)
| EStop (w : nat)
| EReleaseBeat (w : nat) (now : Z)
| EReleaseSession (w : nat)
| EReleaseRun (w : nat)
| EReap (now : Z) (maxAgeMs : option Z)
| EReapSession.

(** Ids and tokens come from [randomUUID()]: one that is in use is not drawn. *)
Definition exec (ev : Event) (y : Sys) : option Sys :=
  match ev with
  | EEnqueue input uuid now =>
    if bool_decide (JMap.get (runs (store y)) uuid = None) then Some (setStore (enqueue input uuid now (store y)).2 y) else None
  | ESetDeliveryState runId token st => Some (setStore (setDeliveryState runId token st (store y)).2 y)
  | ESession o => Some (setSess (Sessions.exec sessionTtlMs o (sess y)) y)
  | ECreate w isInline =>
    match workers y !! w with Some _ => None | None => Some (setWorker w (if isInline then inlineWorker else newWorker) y) end
  | EReap now maxAgeMs => Some (reap now maxAgeMs y)
  | EReapSession => Some (releaseStrandedSessionLease y)
  | EClaim w canClaim token now =>
    k ← workers y !! w; match phase k with Polling => if inline k then None else claimStep w k canClaim token now y | _ => None end
  | EClaimError w => k ← workers y !! w; match phase k with Polling => Some (claimError w k y) | _ => None end
  | EDrive w runId token now =>
    k ← workers y !! w; match phase k with Polling => if inline k then driveStep w k runId token now y else None | _ => None end
  | EProceed w => k ← workers y !! w; match phase k with Claimed run => Some (proceed w k run y) | _ => None end
  | EBeat w now => k ← workers y !! w; match phase k with InTurn t => beat w k t now y | _ => None end
  | EBeatFailed w => k ← workers y !! w; match phase k with InTurn t => beatFailed w k t y | _ => None end
  | EReply w i => k ← workers y !! w; match phase k with InTurn t => reply w k t i y | _ => None end
  | EFinish w res now => k ← workers y !! w; match phase k with InTurn t => Some (finish w k t res now y) | _ => None end
  | EStop w =>
    k ← workers y !! w;
    Some (setWorker w (mkWorker true (phase k) (claimFailures k) (inFlight k) (releasedLeaseToken k) (releasing k) (inline k)) y)
  | EReleaseBeat w now => k ← workers y !! w; Some (releaseBeat w k now y)
  | EReleaseSession w =>
    k ← workers y !! w; match releasing k with BeatDone held => Some (releaseSession w k held y) | _ => None end
  | EReleaseRun w =>
    k ← workers y !! w; match releasing k with SessionDone held => Some (releaseRun w k held y) | _ => None end
  end.

Definition execs (evs : list Event) (y : Sys) : option Sys :=
  foldl (fun y ev => y ← y; exec ev y) (Some y) evs.

Definition start (s : Sessions.Store) : Sys := mkSys Runs.empty s ∅ [] [].

(** ** Leases move only to fresh tokens *)

(** From [s] to [s'], no run gains a lease except with token [u]. *)
Definition grants (u : option string) (s s' : Store Req) : Prop :=
  forall i r' tok, get i s' = Some r' -> leaseToken r' = Some tok ->
    u = Some tok \/ exists r, get i s = Some r /\ leaseToken r = Some tok /\ sessionId r = sessionId r'.

Lemma grants_refl u s : grants u s s.
Proof. intros i r' tok Hr Ht. eauto. Qed.

Lemma grants_trans u s1 s2 s3 : grants u s1 s2 -> grants u s2 s3 -> grants u s1 s3.
Proof.
  intros G1 G2 i r' tok Hr Ht. destruct (G2 _ _ _ Hr Ht) as [?|(r & Hr2 & Ht2 & Hs2)]; [by left|].
  destruct (G1 _ _ _ Hr2 Ht2) as [?|(r0 & Hr1 & Ht1 & Hs1)]; [by left|]. right. exists r0. split_and!; congruence.
Qed.

Lemma grants_weaken u s s' : grants None s s' -> grants u s s'.
Proof. intros G i r' tok Hr Ht. destruct (G _ _ _ Hr Ht); [done|by right]. Qed.

Lemma grants_write u s r r' : Runs.inv s -> get (id r) s = Some r -> same_run r r' ->
  (leaseToken r' = u \/ leaseToken r' = leaseToken r \/ leaseToken r' = None) -> grants u s (write s r').
Proof.
  intros Hi Hr Hsame Ht i q tok Hq Htok. unfold get, write in Hq. cbn in Hq. rewrite JMap.get_set in Hq.
  case_decide as Hid; [|by right; exists q]. injection Hq as <-. rewrite (same_id _ _ Hsame) in Hid. subst i.
  destruct Ht as [<-|[E|E]]; [by left|right; exists r|congruence].
  split_and!; [done|congruence|by rewrite (same_session _ _ Hsame)].
Qed.

Lemma grants_settle u s s' (r : Run Req) : grants u s s' -> grants u s (settle s' r).
Proof. intros G. unfold settle. destruct (isTerminal _); done. Qed.

Lemma grants_enqueue input uuid now s : grants None s (enqueue input uuid now s).2.
Proof.
  unfold enqueue. destruct (_ ≫= _); cbn; [apply grants_refl|]. intros i r' tok Hr Ht. right.
  unfold get in *. cbn in Hr. rewrite JMap.get_set in Hr. case_decide; [by injection Hr as <-|eauto].
Qed.

Lemma grants_claim worker token now s : Runs.inv s -> grants (Some token) s (claim worker leaseTtlMs token now s).2.
Proof.
  intros Hi. pose proof (claim_spec worker leaseTtlMs token now s Hi) as Hc.
  destruct (claim worker leaseTtlMs token now s) as [[r'|] s']; cbn in *; [|by destruct Hc as [-> _]; apply grants_refl].
  destruct Hc as (r & Hr & _ & -> & -> & _). apply (grants_write _ s r); [done..| |by left]. by split.
Qed.

Lemma grants_claimById runId worker token now s : Runs.inv s ->
  grants (Some token) s (claimById runId worker leaseTtlMs token now s).2.
Proof.
  intros Hi. unfold claimById. destruct (JMap.get (runs s) runId) as [r|] eqn:Hr; [|apply grants_refl].
  destruct (_ || _); [apply grants_refl|]. cbn. apply (grants_write _ s r); [done|by apply (get_self _ _ _ Hi Hr)|by split|by left].
Qed.

Lemma grants_heartbeat runId token now s : Runs.inv s -> grants None s (heartbeat runId token leaseTtlMs now s).2.
Proof.
  intros Hi. unfold heartbeat. destruct (JMap.get (runs s) runId) as [r|] eqn:Hr; [|apply grants_refl].
  destruct (_ || _); [apply grants_refl|]. cbn. apply (grants_write _ s r); [done|by apply (get_self _ _ _ Hi Hr)|by split|auto].
Qed.

Lemma grants_releaseLease runId token s : Runs.inv s -> grants None s (releaseLease runId token s).2.
Proof.
  intros Hi. unfold releaseLease. destruct (JMap.get (runs s) runId) as [r|] eqn:Hr; [|apply grants_refl].
  destruct (_ || _); [apply grants_refl|]. cbn. apply (grants_write _ s r); [done|by apply (get_self _ _ _ Hi Hr)|by split|auto].
Qed.

Lemma grants_complete runId token res now s : Runs.inv s -> grants None s (complete runId token res now s).2.
Proof.
  intros Hi. unfold complete. destruct (JMap.get (runs s) runId) as [r|] eqn:Hr; [|apply grants_refl].
  destruct (leaseToken r !== Some token); [apply grants_refl|]. cbn -[settle]. apply grants_settle.
  apply (grants_write _ s r); [done|by apply (get_self _ _ _ Hi Hr)|by split|auto].
Qed.

Lemma grants_retire r error retry opts now s : Runs.inv s -> get (id r) s = Some r ->
  grants None s (retire maxClaims r error retry opts now s).2.
Proof.
  intros Hi Hr. unfold retire. destruct (status r !== running); [apply grants_refl|].
  destruct (match ifExpiredAt opts with Some _ => _ | None => _ end); [apply grants_refl|].
  destruct (_ && _ && _); cbn -[settle]; [|apply grants_settle]; apply (grants_write _ s r); auto; by split.
Qed.

Lemma grants_fail runId token error retry now s : Runs.inv s -> grants None s (fail_ maxClaims runId token error retry now s).2.
Proof.
  intros Hi. unfold fail_. destruct (JMap.get (runs s) runId) as [r|] eqn:Hr; [|apply grants_refl].
  destruct (leaseToken r !== Some token); [apply grants_refl|].
  pose proof (grants_retire r error (retry !== Some false) (mkRetireOpts None true) now s Hi (get_self _ _ _ Hi Hr)) as G.
  by destruct (retire _ _ _ _ _ _ _) as [[] ?].
Qed.

Lemma grants_setDeliveryState runId token st s : Runs.inv s -> grants None s (setDeliveryState runId token st s).2.
Proof.
  intros Hi. unfold setDeliveryState. destruct (JMap.get (runs s) runId) as [r|] eqn:Hr; [|apply grants_refl].
  destruct (_ && _); [apply grants_refl|]. cbn. apply (grants_write _ s r); [done|by apply (get_self _ _ _ Hi Hr)|by split|auto].
Qed.

Lemma grants_reap now maxAgeMs s : Runs.inv s -> grants None s (rp_store (reapExpired maxClaims now maxAgeMs s)).
Proof.
  intros Hi. unfold reapExpired. generalize (map id (List.filter (fun r => leaseLapsed r now) (JMap.values (runs s)))) as l.
  intros l. change s with (rp_store (mkReap s 0 0 [] [])) at 1. assert (Hi' : Runs.inv (rp_store (mkReap s 0 0 [] []))) by done.
  revert Hi'. generalize (mkReap s 0 0 [] []) as acc. clear Hi. induction l as [|i l IH]; intros acc Hi; cbn; [apply grants_refl|].
  eapply grants_trans; [|apply IH; by apply reapOne_inv]. unfold reapOne.
  destruct (JMap.get (runs (rp_store acc)) i) as [r|] eqn:Hr; [|apply grants_refl].
  match goal with |- context [retire ?m ?r ?e ?b ?o ?n ?s] =>
    pose proof (grants_retire r e b o n s Hi (get_self _ _ _ Hi Hr)) as G; destruct (retire m r e b o n s) as [[] ?] end.
  destruct (negb _); [apply grants_refl|done].
Qed.

(** ** Invariant *)

(** The run, token and thread a worker works under. *)
Definition heldBy (k : Worker) : option (string * string * string) :=
  match phase k with
  | Claimed run => match leaseToken run with Some tok => Some (id run, tok, sessionId run) | None => None end
  | InTurn t => Some (id (t_run t), t_token t, sessionId (t_run t))
  | _ => None
  end.

(** Run [i] is leased under [tok]. *)
Definition leased (s : Store Req) (i tok : string) : Prop := exists r, get i s = Some r /\ leaseToken r = Some tok.

Definition lostOk (s : Store Req) (t : Turn) : Prop :=
  0 <= Beats.consecutiveLost (t_beat t) /\
  (Beats.leaseLost (t_beat t) = true \/ 0 < Beats.consecutiveLost (t_beat t) \/ Beats.notAlive ∈ t_replies t ->
   ~ leased s (id (t_run t)) (t_token t)).

Definition linked (s : Store Req) (h : string * string * string) : Prop :=
  forall j r, get j s = Some r -> leaseToken r = Some h.1.2 -> j = h.1.1 /\ sessionId r = h.2.

Record inv (y : Sys) : Prop := mkPoolInv {
  p_store : Runs.inv (store y);
  p_known : forall i tok, leased (store y) i tok -> tok ∈ tokens y;
  p_held : forall w k h, workers y !! w = Some k -> heldBy k = Some h -> h.1.2 ∈ tokens y /\ linked (store y) h;
  p_uniq : forall w w' k k' h h', workers y !! w = Some k -> workers y !! w' = Some k' ->
    heldBy k = Some h -> heldBy k' = Some h' -> h.1.2 = h'.1.2 -> w = w';
  p_lost : forall w k t, workers y !! w = Some k -> phase k = InTurn t -> lostOk (store y) t }.

Lemma leased_before u s s' i tok : grants u s s' -> u <> Some tok -> leased s' i tok -> leased s i tok.
Proof. intros G Hu (r' & Hr & Ht). destruct (G _ _ _ Hr Ht) as [?|(r & ? & ? & _)]; [done|by exists r]. Qed.

Lemma lostOk_mono u s s' t : grants u s s' -> u <> Some (t_token t) -> lostOk s t -> lostOk s' t.
Proof. intros G Hu [H0 Hl]. split; [done|]. intros Hc Hh. apply (Hl Hc). by eapply leased_before. Qed.

Lemma linked_mono u s s' h : grants u s s' -> u <> Some h.1.2 -> linked s h -> linked s' h.
Proof.
  intros G Hu Hl j r Hr Ht. destruct (G _ _ _ Hr Ht) as [?|(r0 & Hr0 & Ht0 & Hs)]; [done|].
  rewrite <- Hs. by apply Hl.
Qed.

(** A store operation with a change of one worker. *)
Lemma pool_change_inv y s' se str w k k' u toks' :
  inv y -> workers y !! w = Some k \/ heldBy k = None -> Runs.inv s' -> grants u (store y) s' ->
  (u = None /\ toks' = tokens y \/ exists tok, u = Some tok /\ (tok ∉ tokens y) /\ toks' = tok :: tokens y) ->
  (heldBy k' = None \/ workers y !! w = Some k /\ heldBy k' = heldBy k \/
   exists h, heldBy k' = Some h /\ u = Some h.1.2 /\ linked s' h) ->
  (forall t, phase k' = InTurn t -> lostOk s' t) ->
  inv (mkSys s' se (<[w := k']> (workers y)) str toks').
Proof.
  intros I Hw Hs' G Htok Hk' Hlost.
  assert (Hsub : forall tok, tok ∈ tokens y -> tok ∈ toks' /\ u <> Some tok).
  { intros tok Hin. destruct Htok as [[-> ->]|(tok' & -> & Hn & ->)]; [done|]. split; [set_solver|]. congruence. }
  assert (Hu : forall tok, u = Some tok -> tok ∈ toks' /\ tok ∉ tokens y).
  { intros tok ->. destruct Htok as [[? _]|(tok' & [= ->] & Hn & ->)]; [done|]. split; [set_solver|done]. }
  assert (Hh : forall w0 k0 h, (<[w := k']> (workers y)) !! w0 = Some k0 -> heldBy k0 = Some h ->
    (exists k1, workers y !! w0 = Some k1 /\ heldBy k1 = Some h) \/ w0 = w /\ u = Some h.1.2 /\ linked s' h).
  { intros w0 k0 h [[<- <-]|[Hne E]]%lookup_insert_Some Hb; [|by left; exists k0].
    destruct Hk' as [Hn|[[Hwk He]|(h' & Hh' & Hu' & Hl')]]; [congruence|left; exists k; split; congruence|].
    right. assert (h' = h) as -> by congruence. done. }
  split; cbn.
  - done.
  - intros i tok (r' & Hr & Ht). destruct (G _ _ _ Hr Ht) as [Hut|(r & Hr0 & Ht0 & _)]; [by apply Hu|].
    apply Hsub, (p_known _ I i). by exists r.
  - intros w0 k0 h E Hb. destruct (Hh _ _ _ E Hb) as [(k1 & E1 & Hb1)|(_ & Huh & Hl)]; [|split; [by apply Hu|done]].
    destruct (p_held _ I _ _ _ E1 Hb1) as [Hin Hl]. destruct (Hsub _ Hin). split; [done|by eapply linked_mono].
  - intros w1 w2 k1 k2 h1 h2 E1 E2 Hb1 Hb2 Heq.
    destruct (Hh _ _ _ E1 Hb1) as [(k1' & E1' & Hb1')|(-> & Hu1 & _)], (Hh _ _ _ E2 Hb2) as [(k2' & E2' & Hb2')|(-> & Hu2 & _)]; try done.
    + by eapply (p_uniq _ I).
    + destruct (Hu _ Hu2) as [_ Hn]. rewrite <- Heq in Hn. by destruct (p_held _ I _ _ _ E1' Hb1').
    + destruct (Hu _ Hu1) as [_ Hn]. rewrite Heq in Hn. by destruct (p_held _ I _ _ _ E2' Hb2').
  - intros w0 k0 t [[<- <-]|[Hne E]]%lookup_insert_Some Hp; [by apply Hlost|].
    assert (Hb : heldBy k0 = Some (id (t_run t), t_token t, sessionId (t_run t))) by (unfold heldBy; by rewrite Hp).
    eapply lostOk_mono; [done| |by apply (p_lost _ I _ _ _ E)]. apply (Hsub (t_token t)).
    by apply (p_held _ I _ _ _ E Hb).
Qed.

Lemma store_inv y s' se str : inv y -> Runs.inv s' -> grants None (store y) s' ->
  inv (mkSys s' se (workers y) str (tokens y)).
Proof.
  intros I Hs' G. split; cbn; [done| | |apply (p_uniq _ I)|].
  - intros i tok Hl. apply (p_known _ I i). by eapply leased_before.
  - intros w k h E Hb. destruct (p_held _ I _ _ _ E Hb). split; [done|by eapply linked_mono].
  - intros w k t E Hp. eapply lostOk_mono; [done|done|by apply (p_lost _ I _ _ _ E)].
Qed.

(** A worker moves on with the lease it had, or without one. *)
Lemma worker_inv y s' se str w k k' :
  inv y -> workers y !! w = Some k -> Runs.inv s' -> grants None (store y) s' ->
  heldBy k' = None \/ heldBy k' = heldBy k -> (forall t, phase k' = InTurn t -> lostOk s' t) ->
  inv (mkSys s' se (<[w := k']> (workers y)) str (tokens y)).
Proof.
  intros I E Hs' G Hk Hl. apply (pool_change_inv y s' se str w k k' None); try done; [by left|by left|].
  destruct Hk; [by left|right; by left].
Qed.

(** The same, when the phase of the worker does not change. *)
Lemma same_phase_inv y s' se str w k k' :
  inv y -> workers y !! w = Some k -> Runs.inv s' -> grants None (store y) s' -> phase k' = phase k ->
  inv (mkSys s' se (<[w := k']> (workers y)) str (tokens y)).
Proof.
  intros I E Hs' G Hp. apply (worker_inv y s' se str w k k'); try done.
  - right. unfold heldBy. by rewrite Hp.
  - intros t Ht. rewrite Hp in Ht. eapply lostOk_mono; [done|done|by apply (p_lost _ I _ _ _ E)].
Qed.

(** A claim: only the claimed run has the new token. *)
Lemma fresh_linked y s' run tok : inv y -> tok ∉ tokens y -> get (id run) s' = Some run -> leaseToken run = Some tok ->
  (forall j, j <> id run -> get j s' = get j (store y)) -> linked s' (id run, tok, sessionId run).
Proof.
  intros I Hn Hr Ht Hoth j r Hj Hjt. cbn in *. destruct (decide (j = id run)) as [->|Hne].
  - rewrite Hr in Hj. by simplify_eq.
  - rewrite Hoth in Hj by done. destruct Hn. apply (p_known _ I j). by exists r.
Qed.

Lemma fresh_turn s run tok : lostOk s (mkTurn run tok Beats.start []).
Proof. split; [done|]. cbn. intros [?|[?|?%elem_of_nil]]; done. Qed.

Lemma claimStep_inv w k canClaim token now y y' : inv y -> workers y !! w = Some k ->
  claimStep w k canClaim token now y = Some y' -> inv y'.
Proof.
  intros I E. pose proof (p_store _ I) as Hs. unfold claimStep. destruct (stopped k).
  { intros [= <-]. destruct y. apply (worker_inv _ _ _ _ w k); try done; [apply grants_refl|by left]. }
  destruct (negb canClaim); [by intros [= <-]|]. case_bool_decide as Hn; [done|].
  pose proof (claim_spec (workerId w) leaseTtlMs token now (store y) Hs) as Hc.
  pose proof (grants_claim (workerId w) token now (store y) Hs) as G.
  pose proof (inv_claim (workerId w) leaseTtlMs token now (store y) Hs) as Hi.
  destruct (claim (workerId w) leaseTtlMs token now (store y)) as [[run|] s]; cbn in *; intros [= <-].
  - destruct Hc as (r & Hr & _ & -> & -> & _).
    apply (pool_change_inv y _ (sess y) (stranded y) w k _ (Some token)); try done; [by left|eauto|].
    right. right. exists (id r, token, sessionId r). split_and!; [done..|].
    apply (fresh_linked y _ (lease r (workerId w) leaseTtlMs token now)); try done.
    + unfold get, write. cbn. by rewrite JMap.get_set_eq.
    + intros j Hj. unfold get, write. cbn. by rewrite JMap.get_set_ne.
  - apply (pool_change_inv y _ (sess y) (stranded y) w k _ (Some token)); try done; [by left|eauto|by left].
Qed.

Lemma driveStep_inv w k runId token now y y' : inv y -> workers y !! w = Some k ->
  driveStep w k runId token now y = Some y' -> inv y'.
Proof.
  intros I E. pose proof (p_store _ I) as Hs. unfold driveStep. case_bool_decide as Hn; [done|].
  pose proof (grants_claimById runId "inline" token now (store y) Hs) as G.
  pose proof (inv_claimById runId "inline" leaseTtlMs token now (store y) Hs) as Hi.
  unfold claimById in *. destruct (JMap.get (runs (store y)) runId) as [r|] eqn:Hr.
  - destruct (_ || _); cbn in *; intros [= <-].
    + apply (pool_change_inv y _ (sess y) (stranded y) w k _ (Some token)); try done; [by left|eauto|by left].
    + apply (pool_change_inv y _ (sess y) (stranded y) w k _ (Some token)); try done; [by left|eauto| |].
      * right. right. exists (id r, token, sessionId r). split_and!; [done..|].
        apply (fresh_linked y _ (lease r "inline" leaseTtlMs token now)); try done.
        -- unfold get, write. cbn. by rewrite JMap.get_set_eq.
        -- intros j Hj. unfold get, write. cbn. by rewrite JMap.get_set_ne.
      * intros t [= <-]. apply fresh_turn.
  - cbn in *. intros [= <-]. apply (pool_change_inv y _ (sess y) (stranded y) w k _ (Some token)); try done; [by left|eauto|by left].
Qed.

Lemma proceed_inv w k run y : inv y -> workers y !! w = Some k -> phase k = Claimed run -> inv (proceed w k run y).
Proof.
  intros I E Hp. pose proof (p_store _ I) as Hs. unfold proceed. destruct (stopped k).
  - apply (worker_inv y _ (sess y) (stranded y) w k); try done; [| |by left].
    + destruct (leaseToken run); [by apply inv_releaseLease|done].
    + destruct (leaseToken run); [by apply grants_releaseLease|apply grants_refl].
  - destruct (leaseToken run) as [tok|] eqn:Et.
    + apply (worker_inv y _ (sess y) (stranded y) w k); try done; [apply grants_refl| |intros t [= <-]; apply fresh_turn].
      right. unfold heldBy. cbn. by rewrite Hp, Et.
    + apply (worker_inv y _ (sess y) (stranded y) w k); try done; [apply grants_refl|by left].
Qed.

(** A heartbeat is answered with false only for a lease that is gone. *)
Lemma heartbeat_false i tok now s : Runs.inv s -> (heartbeat i tok leaseTtlMs now s).1 = false ->
  ~ leased (heartbeat i tok leaseTtlMs now s).2 i tok.
Proof.
  intros Hi. unfold heartbeat. destruct (JMap.get (runs s) i) as [r|] eqn:Hr; cbn.
  - destruct (_ || _) eqn:Eb; cbn; [|done]. intros _ (r' & Hr' & Ht). unfold get in Hr'. rewrite Hr in Hr'. injection Hr' as <-.
    rewrite (bool_decide_eq_true_2 _ (token_running _ _ _ _ Hi Hr Ht)), Ht in Eb. cbn in Eb.
    by rewrite bool_decide_eq_true_2 in Eb.
  - intros _ (r' & Hr' & _). unfold get in Hr'. congruence.
Qed.

Lemma beat_inv w k t now y y' : inv y -> workers y !! w = Some k -> phase k = InTurn t ->
  beat w k t now y = Some y' -> inv y'.
Proof.
  intros I E Hp. pose proof (p_store _ I) as Hs. unfold beat. destruct (Beats.leaseLost (t_beat t)) eqn:El; [done|].
  pose proof (grants_heartbeat (id (t_run t)) (t_token t) now _ Hs) as G.
  pose proof (inv_heartbeat (id (t_run t)) (t_token t) leaseTtlMs now _ Hs) as Hi.
  pose proof (heartbeat_false (id (t_run t)) (t_token t) now _ Hs) as Hf.
  destruct (heartbeat (id (t_run t)) (t_token t) leaseTtlMs now (store y)) as [ok s]. cbn in G, Hi, Hf. intros [= <-].
  destruct (lostOk_mono _ _ _ t G (ltac:(done)) (p_lost _ I _ _ _ E Hp)) as [H0 Hl].
  apply (worker_inv y _ (sess y) (stranded y) w k); try done.
  - right. unfold heldBy. by rewrite Hp.
  - intros t' [= <-]. split; [done|]. cbn. intros [Hc|[Hc|[Hc|Hc]%elem_of_app]]; auto.
    apply list_elem_of_singleton in Hc. apply Hf. by destruct ok.
Qed.

Lemma beatFailed_inv w k t y y' : inv y -> workers y !! w = Some k -> phase k = InTurn t ->
  beatFailed w k t y = Some y' -> inv y'.
Proof.
  intros I E Hp. unfold beatFailed. destruct (Beats.leaseLost (t_beat t)) eqn:El; [done|]. intros [= <-].
  destruct (p_lost _ I _ _ _ E Hp) as [H0 Hl].
  apply (worker_inv y _ (sess y) (stranded y) w k); try done; [apply I|apply grants_refl| |].
  - right. unfold heldBy. by rewrite Hp.
  - intros t' [= <-]. split; [done|]. cbn. intros [Hc|[Hc|[Hc|Hc]%elem_of_app]]; auto.
    by apply list_elem_of_singleton in Hc.
Qed.

Lemma reply_inv w k t i y y' : inv y -> workers y !! w = Some k -> phase k = InTurn t ->
  reply w k t i y = Some y' -> inv y'.
Proof.
  intros I E Hp. unfold reply. destruct (t_replies t !! i) as [r|] eqn:Er; [|done]. intros [= <-].
  destruct (p_lost _ I _ _ _ E Hp) as [H0 Hl].
  assert (Hin : r ∈ t_replies t) by (by eapply list_elem_of_lookup_2).
  assert (Hd : forall x, x ∈ delete i (t_replies t) -> x ∈ t_replies t).
  { intros x Hx. rewrite delete_take_drop in Hx. rewrite <- (take_drop i (t_replies t)).
    apply elem_of_app in Hx as [Hx|Hx]; apply elem_of_app; [by left|right].
    rewrite (drop_S _ _ _ Er). by right. }
  apply (worker_inv y _ (sess y) (stranded y) w k); try done; [apply I|apply grants_refl| |].
  - right. unfold heldBy. by rewrite Hp.
  - intros t' [= <-]. split; [destruct r; cbn; lia|]. cbn. destruct r; cbn.
    + intros [Hc|[Hc|Hc]]; [auto|lia|auto].
    + intros _. auto.
    + intros [Hc|[Hc|Hc]]; [auto|lia|auto].
Qed.

Lemma pool_finish_inv w k t res now y : inv y -> workers y !! w = Some k -> inv (finish w k t res now y).
Proof.
  intros I E. pose proof (p_store _ I) as Hs. unfold finish.
  apply (worker_inv y _ (sess y) (stranded y) w k); try done.
  - destruct res as [r|[e n]]; [by apply inv_complete|by apply inv_fail].
  - destruct res as [r|[e n]]; [by apply grants_complete|by apply grants_fail].
  - left. unfold heldBy, toPhase. cbn. by destruct (inline k).
  - unfold toPhase. cbn. by destruct (inline k).
Qed.

Lemma releaseBeat_inv w k now y : inv y -> workers y !! w = Some k -> inv (releaseBeat w k now y).
Proof.
  intros I E. pose proof (p_store _ I) as Hs. unfold releaseBeat.
  destruct (inFlight k) as [held|], (releasing k); try done. case_bool_decide; [done|].
  pose proof (grants_heartbeat (f_runId held) (f_leaseToken held) now _ Hs) as G.
  pose proof (inv_heartbeat (f_runId held) (f_leaseToken held) leaseTtlMs now _ Hs) as Hi.
  destruct (heartbeat (f_runId held) (f_leaseToken held) leaseTtlMs now (store y)) as [[] s]; cbn in G, Hi;
    by apply (same_phase_inv y _ (sess y) (stranded y) w k).
Qed.

Lemma pool_exec_inv ev y y' : inv y -> exec ev y = Some y' -> inv y'.
Proof.
  intros I. pose proof (p_store _ I) as Hs. destruct ev; cbn [exec];
    try (destruct (workers y !! w) as [k|] eqn:E; cbn [mbind option_bind]; [|done]).
  - case_bool_decide; [|done]. intros [= <-]. apply (store_inv y _ (sess y) (stranded y)); [done|by apply inv_enqueue|apply grants_enqueue].
  - intros [= <-]. apply (store_inv y _ (sess y) (stranded y)); [done|by apply inv_setDeliveryState|by apply grants_setDeliveryState].
  - intros [= <-]. by eapply (store_inv y _ _ (stranded y)); [..|apply grants_refl].
  - destruct (workers y !! w) eqn:E; [done|]. intros [= <-]. apply (pool_change_inv y _ (sess y) (stranded y) w newWorker _ None); try done;
      [by right|apply grants_refl|by left|left; by destruct isInline|by destruct isInline].
  - destruct (phase k) eqn:Hp; try done. destruct (inline k); [done|]. by apply claimStep_inv.
  - destruct (phase k) eqn:Hp; try done. intros [= <-]. unfold claimError.
    apply (worker_inv y _ (sess y) (stranded y) w k); try done; [apply grants_refl|left; unfold heldBy|]; cbn [phase];
      destruct (CLAIM_FAIL_CRASH_CONSECUTIVE <=? S (claimFailures k))%nat; done.
  - destruct (phase k) eqn:Hp; try done. destruct (inline k); [|done]. by apply driveStep_inv.
  - destruct (phase k) eqn:Hp; try done. intros [= <-]. by apply proceed_inv.
  - destruct (phase k) eqn:Hp; try done. by apply beat_inv.
  - destruct (phase k) eqn:Hp; try done. by apply beatFailed_inv.
  - destruct (phase k) eqn:Hp; try done. by apply reply_inv.
  - destruct (phase k) eqn:Hp; try done. intros [= <-]. by apply pool_finish_inv.
  - intros [= <-]. by apply (same_phase_inv y _ (sess y) (stranded y) w k); [..|apply grants_refl|].
  - intros [= <-]. by apply releaseBeat_inv.
  - destruct (releasing k); try done. intros [= <-]. unfold releaseSession.
    by eapply (same_phase_inv y (store y) _ (stranded y) w k); [..|apply grants_refl|].
  - destruct (releasing k); try done. intros [= <-]. unfold releaseRun.
    apply (same_phase_inv y _ (sess y) (stranded y) w k); try done; [by apply inv_releaseLease|by apply grants_releaseLease].
  - intros [= <-]. unfold reap. apply store_inv; [done|by apply inv_reap|by apply grants_reap].
  - intros [= <-]. unfold releaseStrandedSessionLease. destruct (stranded y); [done|]. apply store_inv; [done..|apply grants_refl].
Qed.

Lemma pool_execs_inv evs s y : execs evs (start s) = Some y -> inv y.
Proof.
  revert y. unfold execs. induction evs as [|ev evs IH] using rev_ind; intros y.
  - intros [= <-]. split; cbn.
    + apply inv_empty.
    + by intros i tok (r & Hr & _).
    + by intros w k h E.
    + by intros w w' k k' h h' E.
    + by intros w k t E.
  - rewrite foldl_app. cbn. destruct (foldl _ _ evs) as [y0|] eqn:E0; cbn; [|done]. by apply pool_exec_inv, IH.
Qed.

(** C12: under every interleaving of workers, inline runs, heartbeats (whose answers
    may arrive in any order), stops, releases and the reaper: two workers whose
    leases are current never have turns of the same conversation; and a worker that
    cancels its turn has lost its lease, so that whatever the turn still answers is
    refused by [complete] and [fail], which leave the store as it is. *)
Theorem turns_exclusive evs s y :
  execs evs (start s) = Some y ->
  (forall w1 w2 k1 k2 t1 t2, workers y !! w1 = Some k1 -> workers y !! w2 = Some k2 ->
     phase k1 = InTurn t1 -> phase k2 = InTurn t2 ->
     leased (store y) (id (t_run t1)) (t_token t1) -> leased (store y) (id (t_run t2)) (t_token t2) ->
     sessionId (t_run t1) = sessionId (t_run t2) -> w1 = w2) /\
  (forall w k t res now, workers y !! w = Some k -> phase k = InTurn t -> Beats.leaseLost (t_beat t) = true ->
     ~ leased (store y) (id (t_run t)) (t_token t) /\ store (finish w k t res now y) = store y).
Proof.
  intros I%pool_execs_inv. split.
  - intros w1 w2 k1 k2 t1 t2 E1 E2 P1 P2 (r1 & H1 & T1) (r2 & H2 & T2) Hsess.
    assert (B1 : heldBy k1 = Some (id (t_run t1), t_token t1, sessionId (t_run t1))) by (unfold heldBy; by rewrite P1).
    assert (B2 : heldBy k2 = Some (id (t_run t2), t_token t2, sessionId (t_run t2))) by (unfold heldBy; by rewrite P2).
    destruct (proj2 (p_held _ I _ _ _ E1 B1) _ _ H1 T1) as [_ S1]. destruct (proj2 (p_held _ I _ _ _ E2 B2) _ _ H2 T2) as [_ S2].
    assert (Hid : id (t_run t1) = id (t_run t2)).
    { eapply (inv_mutex _ (p_store _ I)); [exact H1|exact H2| | |cbn in *; congruence];
        by eapply (token_running _ _ _ _ (p_store _ I)). }
    eapply (p_uniq _ I _ _ _ _ _ _ E1 E2 B1 B2). cbn. rewrite Hid, H2 in H1. congruence.
  - intros w k t res now E P Hl. assert (Hn : ~ leased (store y) (id (t_run t)) (t_token t)).
    { apply (p_lost _ I _ _ _ E P). by left. }
    split; [done|]. unfold finish. cbn. unfold leased, get in Hn.
    destruct res as [r|[e n]]; [unfold complete|unfold fail_];
      (destruct (JMap.get (runs (store y)) (id (t_run t))) as [q|] eqn:Hq; [|done]);
      rewrite (bool_decide_eq_false_2 (leaseToken q = _)) by (intros ?; apply Hn; eauto); done.
Qed.

End pool.

(** *** A worker loses its run to another *)
Definition job : EnqueueInput unit := mkEnqueue "thread-1" tt None None.

Definition takeover : list (@Event unit) :=
  [ECreate 0 false; ECreate 1 false; EEnqueue job "r1" 10; EClaim 0 true "tok-a" 20; EProceed 0;
   EBeat 0 30; EReply 0 0; EReap 2000 None; EClaim 1 true "tok-b" 2001; EProceed 1;
   EBeat 0 2010; EBeat 0 2020; EBeat 0 2030; EReply 0 2; EReply 0 0; EReply 0 0].

Definition takenOver : @Sys unit :=
  default (start Sessions.empty) (execs None 1000 1000 (fun _ => "w") takeover (start Sessions.empty)).

Definition oldTurn : @Turn unit :=
  mkTurn (lease (newRun job "r1" 10) "w" 1000 "tok-a" 20) "tok-a" (Beats.mk 3 true) [].

(** The first worker has cancelled its turn: its result no longer counts. *)
Lemma turns_exclusive_witness :
  exists k, workers takenOver !! 0%nat = Some k /\ phase k = InTurn oldTurn /\
    ~ leased (store takenOver) "r1" "tok-a" /\
    forall res, store (finish None 0 k oldTurn res 2040 takenOver) = store takenOver.
Proof.
  assert (Hex : execs None 1000 1000 (fun _ => "w") takeover (start Sessions.empty) = Some takenOver) by (vm_compute; reflexivity).
  destruct (workers takenOver !! 0%nat) as [k|] eqn:E; [|vm_compute in E; discriminate].
  assert (Hp : phase k = InTurn oldTurn) by (revert E; vm_compute; by intros [= <-]).
  exists k. split_and!; [done|done| |].
  - exact (proj1 (proj2 (turns_exclusive None 1000 1000 (fun _ => "w") takeover Sessions.empty takenOver Hex)
      0%nat k oldTurn (inr ("", false)) 0 E Hp eq_refl)).
  - intros res. exact (proj2 (proj2 (turns_exclusive None 1000 1000 (fun _ => "w") takeover Sessions.empty takenOver Hex)
      0%nat k oldTurn res 2040 E Hp eq_refl)).
Defined.

(** The reaper frees the leases of the sessions after the runs are claimable again:
    a worker that takes the run over in between loses the lease of its session. *)
Example reaper_frees_new_lease :
  let created := Sessions.OpCreate "thread-1" kind_dm "personal:alice" None None "s1" 1 in
  exists y, execs None 1000 1000 (fun _ => "w")
    [ESession created; ECreate 0 false; ECreate 1 false; EEnqueue job "r1" 10; EClaim 0 true "tok-a" 20; EProceed 0;
     EReap 2000 None; EClaim 1 true "tok-b" 2001; EProceed 1; ESession (Sessions.OpAcquire "s1" (Some h_turn) "lease-b" 2002);
     EReapSession] (start Sessions.empty) = Some y /\
  leased (store y) "r1" "tok-b" /\ JMap.get (Sessions.leases (sess y)) "s1" = None.
Proof.
  eexists. split; [vm_compute; reflexivity|]. split; [|vm_compute; reflexivity].
  eexists. split; vm_compute; reflexivity.
Qed.

End Pool.

(** ** Draining an instance that a newer build replaces *)
Module Drain.

Definition INSTANCE_LIVENESS_MS : Z := 30000.
Definition HOUR_MS : Z := 3600000.

(** A row of [instance_heartbeats]; the options of a registry. *)
Record Row := mkRow { buildSha : string; startedAt : Z; beatAt : Z }.
Record Instance := mkInstance { instanceId : string; i_buildSha : string; i_startedAt : Z }.

Definition upsert (o : Instance) (now : Z) (rows : gmap string Row) : gmap string Row :=
  match rows !! instanceId o with
  | Some r => <[instanceId o := mkRow (buildSha r) (startedAt r) now]> rows
  | None => <[instanceId o := mkRow (i_buildSha o) (i_startedAt o) now]> rows
  end.

Definition newer (o : Instance) (now : Z) (r : Row) : bool :=
  negb (buildSha r =? i_buildSha o)%string && (i_startedAt o <? startedAt r) && (now - INSTANCE_LIVENESS_MS <? beatAt r).

(** [beat]: the answer and the table afterwards. *)
Definition beat (o : Instance) (now : Z) (rows : gmap string Row) : bool * gmap string Row :=
  let rows := filter (fun '(_, r) => now - HOUR_MS <= beatAt r) (upsert o now rows) in
  (existsb (fun '(_, r) => newer o now r) (map_to_list rows), rows).

(** The controller of one process: [canClaim] is [negb superseded]. *)
Record Controller := mkController { superseded : bool; protectionOn : bool; protectionSet : list bool }.

Definition canClaim (c : Controller) : bool := negb (superseded c).

(** One sweep with the answer of [beat]; [protectionSet] is what was asked of the
    task protection. *)
Definition sweep (hasProtection busy answer : bool) (c : Controller) : Controller :=
  if negb hasProtection then mkController answer (protectionOn c) (protectionSet c) else
  if busy then mkController answer true (protectionSet c ++ [true]) else
  if protectionOn c then mkController answer false (protectionSet c ++ [false]) else
  mkController answer false (protectionSet c).

Definition noteBusy (hasProtection : bool) (c : Controller) : Controller :=
  if negb hasProtection || protectionOn c then c else mkController (superseded c) true (protectionSet c ++ [true]).

Definition stop (hasProtection : bool) (c : Controller) : Controller :=
  if protectionOn c && hasProtection then mkController (superseded c) false (protectionSet c ++ [false]) else c.

(** ** What the table knows of a history of beats *)
Definition rowsAfter (h : list (Instance * Z)) : gmap string Row :=
  foldl (fun rows '(o, now) => (beat o now rows).2) ∅ h.

(** Time does not run backwards. *)
Fixpoint ordered (from : Z) (h : list (Instance * Z)) : Prop :=
  match h with [] => True | (_, now) :: h => from <= now /\ ordered now h end.

(** An id is drawn once: it stands for one process. *)
Definition consistent (h : list (Instance * Z)) : Prop :=
  forall o o' n n', (o, n) ∈ h -> (o', n') ∈ h -> instanceId o = instanceId o' -> o = o'.

Lemma beat_lookup o now rows i r : (beat o now rows).2 !! i = Some r <->
  upsert o now rows !! i = Some r /\ now - HOUR_MS <= beatAt r.
Proof. unfold beat. cbn. rewrite map_lookup_filter_Some. done. Qed.

Lemma ordered_snoc from h o now : ordered from (h ++ [(o, now)]) ->
  ordered from h /\ from <= now /\ forall o' n, (o', n) ∈ h -> n <= now.
Proof.
  revert from. induction h as [|[o1 n1] h IH]; cbn; intros from [H1 H2].
  - split_and!; [done|lia|]. by intros o' n ?%elem_of_nil.
  - destruct (IH _ H2) as (Ho & Hle & Hall). split_and!; [done|done|lia|].
    intros o' n [[= -> ->]|Hin]%elem_of_cons; [done|]. by eapply Hall.
Qed.

Lemma consistent_prefix h l : consistent (h ++ l) -> consistent h.
Proof. intros Hc o o' n n' H1 H2. apply (Hc o o' n n'); apply elem_of_app; by left. Qed.

Definition rowOf (o : Instance) (n : Z) : Row := mkRow (i_buildSha o) (i_startedAt o) n.

(** The table holds the last beat of every instance heard of within the hour. *)
Definition faithful (h : list (Instance * Z)) (rows : gmap string Row) : Prop :=
  (forall i r, rows !! i = Some r -> exists o n, (o, n) ∈ h /\ instanceId o = i /\ r = rowOf o n) /\
  (forall o n T, (o, n) ∈ h -> (forall o' n', (o', n') ∈ h -> n' <= T) -> T - HOUR_MS <= n ->
    exists n', rows !! instanceId o = Some (rowOf o n') /\ n <= n').

Lemma upsert_faithful h rows o now : consistent (h ++ [(o, now)]) -> (forall o' n, (o', n) ∈ h -> n <= now) ->
  faithful h rows ->
  (forall i r, upsert o now rows !! i = Some r -> exists o' n, (o', n) ∈ h ++ [(o, now)] /\ instanceId o' = i /\ r = rowOf o' n) /\
  upsert o now rows !! instanceId o = Some (rowOf o now) /\
  (forall i, i <> instanceId o -> upsert o now rows !! i = rows !! i).
Proof.
  intros Hc Hle [F1 F2].
  assert (Hown : upsert o now rows !! instanceId o = Some (rowOf o now)).
  { unfold upsert. destruct (rows !! instanceId o) as [r|] eqn:Er; rewrite lookup_insert_eq; [|done].
    destruct (F1 _ _ Er) as (o' & n & Hin & Hid & ->). cbn.
    assert (o' = o) as -> by (apply (Hc o' o n now); [apply elem_of_app; by left|apply elem_of_app; right; by left|done]). done. }
  assert (Hoth : forall i, i <> instanceId o -> upsert o now rows !! i = rows !! i).
  { intros i Hi. unfold upsert. destruct (rows !! instanceId o); by rewrite lookup_insert_ne. }
  split_and!; [|done|done]. intros i r Hr. destruct (decide (i = instanceId o)) as [->|Hi].
  - rewrite Hown in Hr. injection Hr as <-. exists o, now. split_and!; [apply elem_of_app; right; by left|done|done].
  - rewrite (Hoth _ Hi) in Hr. destruct (F1 _ _ Hr) as (o' & n & Hin & ? & ?). exists o', n.
    split_and!; [apply elem_of_app; by left|done|done].
Qed.

Lemma rows_faithful from h : ordered from h -> consistent h -> faithful h (rowsAfter h).
Proof.
  induction h as [|[o now] h IH] using rev_ind; intros Ho Hc.
  { split; [done|]. by intros o n T ?%elem_of_nil. }
  destruct (ordered_snoc _ _ _ _ Ho) as (Ho' & _ & Hle). specialize (IH Ho' (consistent_prefix _ _ Hc)).
  destruct (upsert_faithful _ _ _ _ Hc Hle IH) as (U1 & U2 & U3).
  unfold rowsAfter. rewrite foldl_app. cbn [foldl]. fold (rowsAfter h). split.
  - intros i r [Hr _]%beat_lookup. by apply U1.
  - intros o' n T Hin HT Hn. assert (now <= T) by (apply (HT o now), elem_of_app; right; by left).
    setoid_rewrite beat_lookup. destruct (decide (instanceId o' = instanceId o)) as [Hid|Hid].
    + assert (o' = o) as -> by (apply (Hc o' o n now); [done|apply elem_of_app; right; by left|done]).
      exists now. split_and!; [done|unfold HOUR_MS; cbn; lia|].
      apply elem_of_app in Hin as [Hin|[= ->]%list_elem_of_singleton]; [by eapply Hle|done].
    + rewrite (U3 _ Hid). apply elem_of_app in Hin as [Hin|[= -> ->]%list_elem_of_singleton]; [|done].
      destruct (proj2 IH o' n now Hin Hle) as (n' & Hr & Hge); [lia|]. exists n'. split_and!; [done|cbn; lia|done].
Qed.

(** An instance is told to drain exactly if an instance of another build that
    started after it has been heard of within the last half minute; in particular
    the newest build never drains. *)
Theorem superseded_exactly h o now :
  ordered 0 (h ++ [(o, now)]) -> consistent (h ++ [(o, now)]) ->
  (beat o now (rowsAfter h)).1 = true <->
  exists o' n, (o', n) ∈ h /\ i_buildSha o' <> i_buildSha o /\ i_startedAt o < i_startedAt o' /\ now - INSTANCE_LIVENESS_MS < n.
Proof.
  intros Ho Hc. destruct (ordered_snoc _ _ _ _ Ho) as (Ho' & _ & Hle).
  pose proof (rows_faithful _ _ Ho' (consistent_prefix _ _ Hc)) as F.
  destruct (upsert_faithful _ _ _ _ Hc Hle F) as (U1 & U2 & U3).
  unfold beat. cbn [fst]. rewrite existsb_exists. unfold newer. split.
  - intros ([i r] & Hin%list_elem_of_In%elem_of_map_to_list%map_lookup_filter_Some & Hnew). destruct Hin as [Hr _].
    apply andb_prop in Hnew as [[Hb%negb_true_iff%String.eqb_neq Hs%Z.ltb_lt]%andb_prop Hn%Z.ltb_lt].
    destruct (U1 _ _ Hr) as (o' & n & Hin & Hid & ->). cbn in *. exists o', n. split_and!; try done.
    apply elem_of_app in Hin as [Hin|[= -> ->]%list_elem_of_singleton]; [done|lia].
  - intros (o' & n & Hin & Hb & Hs & Hn). unfold INSTANCE_LIVENESS_MS in *.
    assert (Hid : instanceId o' <> instanceId o).
    { intros Hid. apply Hb. f_equal. apply (Hc o' o n now); [apply elem_of_app; by left|apply elem_of_app; right; by left|done]. }
    destruct (proj2 F o' n now Hin Hle) as (n' & Hr & Hge); [unfold HOUR_MS; lia|].
    exists (instanceId o', rowOf o' n'). split.
    + apply list_elem_of_In, elem_of_map_to_list, map_lookup_filter_Some. rewrite (U3 _ Hid). split; [done|].
      unfold HOUR_MS. cbn. lia.
    + cbn. rewrite !andb_true_iff, negb_true_iff, String.eqb_neq, !Z.ltb_lt. split_and!; [done|done|lia].
Qed.

Definition old : Instance := mkInstance "i1" "build-1" 1000.
Definition new : Instance := mkInstance "i2" "build-2" 5000.

Lemma superseded_exactly_witness :
  (beat old 9000 (rowsAfter [(old, 1000); (new, 6000)])).1 = true <->
  exists o' n, (o', n) ∈ [(old, 1000); (new, 6000)] /\ i_buildSha o' <> i_buildSha old /\
    i_startedAt old < i_startedAt o' /\ 9000 - INSTANCE_LIVENESS_MS < n.
Proof.
  apply (superseded_exactly [(old, 1000); (new, 6000)] old 9000).
  - cbn. lia.
  - intros o o' n n' H1 H2. cbn in *. set_unfold. naive_solver.
Defined.

End Drain.
