(* ===== verification/Projects.v ===== *)
(** * Projects: named groups with a roster of their own, and environments

    [Store] is [src/projects/project-store.ts] over a durable map: the roster and
    who may change it, what a member sees, the version of a roster and
    [withVersion], whose body runs under the lock of the project.  [Env] is the
    in-memory store of [src/environments/environment-store.ts].  Which principals
    are active is an argument of every operation: it may change at any time. *)

From Stdlib Require Import ZArith Lia.
From S2P Require Import Prelude Collections Scopes DurableMap.
From stdpp Require Import pretty.
Open Scope Z_scope.

Definition PROJECT_GROUP_PREFIX : string := "web-project-".

Record Project := mkProject {
  id : string; orgId : string; name : string; ownerId : string; memberIds : list string; createdAt : Z; updatedAt : Z }.

Definition projectGroupRef (i : string) : string := PROJECT_GROUP_PREFIX +:+ i.
Definition projectScopeId (i : string) : ScopeId := scopeId ScopeKind.group (projectGroupRef i).
Definition isProjectGroupRef (ref : string) : bool := Str.startsWith ref PROJECT_GROUP_PREFIX.

Definition projectIdFromGroupRef (ref : string) : option string :=
  if negb (isProjectGroupRef ref) then None else
  let i := Str.drop (String.length PROJECT_GROUP_PREFIX) ref in
  if Str.truthy i && negb (Str.includes i ":") then Some i else None.

Definition cleanName (n : string) : string := Str.take 200 (Str.collapse false (Str.trim n)).

(** Where a call of [mutate] or [rename] ends. *)
Inductive Mutation := ok (project : Project) (changed : bool) | not_found | forbidden | invalid_member | invalid_name.

(** The function given to [backing.update] by [mutate]: the new value and the
    outcome. *)
Definition rosterChange (isActive : string -> bool) (actorId memberId : string) (add : bool) (now : Z) (p : Project)
    : Project * Mutation :=
  let canChangeRoster := if add then existsb (fun m => samePerson (Some m) (Some actorId)) (memberIds p)
                         else samePerson (Some (ownerId p)) (Some actorId) in
  if negb canChangeRoster || negb (isActive (ownerId p)) || negb (isActive actorId) then (p, forbidden) else
  if samePerson (Some memberId) (Some (ownerId p)) then (p, invalid_member) else
  let ms := if add then Arr.dedup (memberIds p ++ [memberId]) else List.filter (fun m => m !== memberId) (memberIds p) in
  if ms === memberIds p then (p, ok p false) else
  let p' := mkProject (id p) (orgId p) (name p) (ownerId p) ms (createdAt p) (Z.max now (updatedAt p + 1)) in
  (p', ok p' true).

Definition nameChange (isActive : string -> bool) (actor clean : string) (p : Project) : Project * Mutation :=
  if (ownerId p !== actor) || negb (isActive actor) then (p, forbidden) else
  if name p === clean then (p, ok p false) else
  let p' := mkProject (id p) (orgId p) clean (ownerId p) (memberIds p) (createdAt p) (updatedAt p) in
  (p', ok p' true).

Section store.
Context {M : Type -> Type} `{DurableMapLaws M}.
Variable configOrgId : string.

(** [update(id, fn)] with the outcome [fn] leaves behind. *)
Definition updateWith (i : string) (f : Project -> Project * Mutation) (m : M Project) : Mutation * M Project :=
  match dm_get i m with
  | None => (not_found, (dm_update i (fun p => (f p).1) m).2)
  | Some p => ((f p).2, (dm_update i (fun p => (f p).1) m).2)
  end.

Definition mutate (isActive : string -> bool) (i actorId memberId : string) (add : bool) (now : Z) (m : M Project)
    : Mutation * M Project :=
  if negb (Str.truthy memberId) then (invalid_member, m) else
  updateWith i (rosterChange isActive actorId memberId add now) m.

Definition rename (isActive : string -> bool) (i actor newName : string) (m : M Project) : Mutation * M Project :=
  let clean := cleanName newName in
  if negb (Str.truthy clean) then (invalid_name, m) else updateWith i (nameChange isActive actor clean) m.

Definition create (i newName owner : string) (at_ : Z) (m : M Project) : outcome Project * M Project :=
  let clean := cleanName newName in
  if negb (Str.truthy clean) || negb (Str.truthy owner) then (Throw "project requires name and ownerId", m) else
  let project := mkProject i configOrgId clean owner [owner] at_ at_ in
  let '(stored, m) := dm_putIfAbsent i project m in
  if (createdAt stored !== createdAt project) || (ownerId stored !== ownerId project)
  then (Throw "project id collision", m) else (Ok stored, m).

Definition projectForGroup (ref : string) (m : M Project) : option Project :=
  match projectIdFromGroupRef ref with
  | None => None
  | Some i => match dm_get i m with
              | Some p => if orgId p === configOrgId then Some p else None
              | None => None
              end
  end.

Definition membership (isActive : string -> bool) (ref principalId : string) (m : M Project) : option bool :=
  match projectForGroup ref m with
  | Some p => Some (isActive (ownerId p) && isActive principalId && existsb (fun x => x === principalId) (memberIds p))
  | None => None
  end.

Definition members (isActive : string -> bool) (ref : string) (m : M Project) : option (list string) :=
  match projectForGroup ref m with
  | Some p => Some (if isActive (ownerId p) then List.filter isActive (memberIds p) else [])
  | None => None
  end.

Definition listForMember (isActive : string -> bool) (principalId : string) (m : M Project) : list Project :=
  Arr.sort (Arr.by_key_desc updatedAt)
    (List.filter (fun p => (orgId p === configOrgId) && isActive (ownerId p) && isActive principalId
                           && existsb (fun x => x === principalId) (memberIds p)) (dm_all m)).

Definition version (ref : string) (m : M Project) : option string :=
  match projectForGroup ref m with Some p => Some (Str.showZ (updatedAt p)) | None => None end.

Definition nameOf (isActive : string -> bool) (ref : string) (m : M Project) : option string :=
  match projectForGroup ref m with
  | Some p => if isActive (ownerId p) then Some (name p) else None
  | None => None
  end.

(** ** Operations in sequence

    [withLock] runs what concerns one project one after the other; a body of
    [withVersion] or [withRosterLock] keeps the lock until it ends. *)
Record Sys := mkSys { map_ : M Project; inBody : list string }.

Inductive op :=
| Create (i newName owner : string) (at_ : Z)
| Mutate (isActive : string -> bool) (i actorId memberId : string) (add : bool) (now : Z)
| Rename (isActive : string -> bool) (i actor newName : string)
| EnterVersion (ref : string) (v : option string)
| EnterRoster (i : string)
| Leave (i : string).

Definition locked (i : string) (s : Sys) : bool := existsb (fun j => j === i) (inBody s).

(** The check of [withVersion]; the body starts if it succeeds. *)
Definition versionCurrent (i : string) (v : option string) (m : M Project) : bool :=
  match dm_get i m with
  | Some p => (orgId p === configOrgId) && (Some (Str.showZ (updatedAt p)) === v)
  | None => false
  end.

Definition exec (o : op) (s : Sys) : option Sys :=
  match o with
  | Create i n owner at_ => Some (mkSys (create i n owner at_ (map_ s)).2 (inBody s))
  | Mutate a i actor member add now =>
    if locked i s then None else Some (mkSys (mutate a i actor member add now (map_ s)).2 (inBody s))
  | Rename a i actor n => if locked i s then None else Some (mkSys (rename a i actor n (map_ s)).2 (inBody s))
  | EnterVersion ref v =>
    match projectIdFromGroupRef ref with
    | None => Some s
    | Some i => if locked i s then None else
                Some (if versionCurrent i v (map_ s) then mkSys (map_ s) (i :: inBody s) else s)
    end
  | EnterRoster i =>
    if locked i s then None else
    Some (match dm_get i (map_ s) with Some _ => mkSys (map_ s) (i :: inBody s) | None => s end)
  | Leave i => Some (mkSys (map_ s) (List.filter (fun j => j !== i) (inBody s)))
  end.

Fixpoint execs (os : list op) (s : Sys) : option Sys :=
  match os with [] => Some s | o :: os => match exec o s with Some s => execs os s | None => None end end.

(** ** Invariant *)

Definition wf (p : Project) : Prop :=
  ownerId p ∈ memberIds p /\ NoDup (memberIds p) /\ createdAt p <= updatedAt p /\ Str.truthy (name p) = true.

(** What a later value of a project may be. *)
Definition follows (p p' : Project) : Prop :=
  id p' = id p /\ ownerId p' = ownerId p /\ orgId p' = orgId p /\ updatedAt p <= updatedAt p' /\
  (updatedAt p' = updatedAt p -> memberIds p' = memberIds p).

Lemma follows_refl p : follows p p.
Proof. by split_and!. Qed.

Lemma follows_trans p q r : follows p q -> follows q r -> follows p r.
Proof.
  intros (I1 & O1 & G1 & U1 & M1) (I2 & O2 & G2 & U2 & M2). split_and!; [congruence..|lia|].
  intros E. rewrite M2, M1; [done|lia|lia].
Qed.

Lemma dedup_snoc (l : list string) x : NoDup l -> Arr.dedup (l ++ [x]) = if decide (x ∈ l) then l else l ++ [x].
Proof.
  intros Hl. unfold Arr.dedup. rewrite foldl_app. cbn. fold (Arr.dedup l). rewrite Arr.dedup_NoDup_id by done.
  unfold Arr.add. done.
Qed.

(** Who may change a roster, and how. *)
Lemma rosterChange_spec isActive actor member add now p : wf p ->
  let p' := (rosterChange isActive actor member add now p).1 in
  p' = p \/
  (isActive (ownerId p) = true /\ isActive actor = true /\
   p' = mkProject (id p) (orgId p) (name p) (ownerId p) (memberIds p') (createdAt p) (Z.max now (updatedAt p + 1)) /\
   (add = true /\ (exists m, m ∈ memberIds p /\ samePerson (Some m) (Some actor) = true) /\ (member ∉ memberIds p) /\
      memberIds p' = memberIds p ++ [member] \/
    add = false /\ samePerson (Some (ownerId p)) (Some actor) = true /\ member <> ownerId p /\
      memberIds p' = List.filter (fun m => m !== member) (memberIds p))).
Proof.
  intros (Ho & Hn & _). unfold rosterChange. destruct (_ || _ || _) eqn:E1; [by left|].
  apply orb_false_iff in E1 as [[E1 E2]%orb_false_iff E3]. apply negb_false_iff in E1, E2, E3.
  destruct (samePerson (Some member) _) eqn:E4; [by left|]. case_bool_decide as E5; [by left|]. right. cbn.
  split_and!; [done..|]. destruct add; [left|right].
  - rewrite dedup_snoc in E5 |- * by done. case_decide; [done|]. split_and!; try done.
    apply existsb_exists in E1 as (m & Hm & Hs). exists m. split; [by apply list_elem_of_In|done].
  - split_and!; try done. intros ->. unfold samePerson in E1, E4. apply andb_prop in E1 as [E1 _]. rewrite E1 in E4.
    cbn in E4. by rewrite bool_decide_eq_true_2 in E4.
Qed.

Lemma rosterChange_wf isActive actor member add now p : wf p ->
  wf (rosterChange isActive actor member add now p).1 /\ follows p (rosterChange isActive actor member add now p).1.
Proof.
  intros Hw. destruct (rosterChange_spec isActive actor member add now p Hw) as [->|(_ & _ & E & Hc)].
  { split; [done|apply follows_refl]. }
  destruct Hw as (Ho & Hn & Hc' & Hna). set (p' := (rosterChange isActive actor member add now p).1) in *. rewrite E.
  split; [|split_and!; cbn; try done; lia]. unfold wf. cbn.
  destruct Hc as [(_ & _ & Hm & ->)|(_ & _ & Hm & ->)].
  - split_and!; [set_solver| |lia|done]. apply NoDup_app. split_and!; [done|set_solver|apply NoDup_singleton].
  - split_and!; [|by apply Arr.NoDup_filter|lia|done].
    apply list_elem_of_In, List.filter_In. split; [by apply list_elem_of_In|]. by rewrite bool_decide_eq_false_2.
Qed.

Lemma nameChange_wf isActive actor clean p : Str.truthy clean = true -> wf p ->
  wf (nameChange isActive actor clean p).1 /\ follows p (nameChange isActive actor clean p).1 /\
  memberIds (nameChange isActive actor clean p).1 = memberIds p.
Proof.
  intros Hc (Ho & Hn & Hu & Hna). unfold nameChange. repeat case_match; cbn; split_and!; try done; try lia; split_and!; done.
Qed.

Definition allWf (m : M Project) : Prop := forall i p, dm_get i m = Some p -> wf p /\ id p = i.

(** Between [m] and [m'], projects stay, with later values; those of [i] in the
    set [frozen] do not change. *)
Definition evolves (frozen : string -> bool) (m m' : M Project) : Prop :=
  forall i p, dm_get i m = Some p -> exists p', dm_get i m' = Some p' /\ follows p p' /\ (frozen i = true -> p' = p).

Lemma evolves_refl fr m : evolves fr m m.
Proof. intros i p Hp. exists p. split_and!; [done|apply follows_refl|done]. Qed.

Lemma updateWith_evolves fr i f m : fr i = false -> allWf m -> (forall p, wf p -> wf (f p).1 /\ follows p (f p).1) ->
  allWf (updateWith i f m).2 /\ evolves fr m (updateWith i f m).2.
Proof.
  intros Hfr Hw Hf. unfold updateWith. destruct (dm_get i m) as [p|] eqn:E; cbn; rewrite dm_update_spec, E; cbn.
  - destruct (Hw _ _ E) as [Hwp Hid]. destruct (Hf p Hwp) as [Hw' Hfo]. split.
    + intros j q. rewrite dm_get_put. case_decide; [|apply Hw]. intros [= <-]. subst j. split; [done|].
      rewrite <- Hid. apply Hfo.
    + intros j q Hq. rewrite dm_get_put. case_decide as Hij; [subst j|exists q; split_and!; [done|apply follows_refl|done]].
      rewrite E in Hq. injection Hq as <-. exists (f p).1. split_and!; [done|done|congruence].
  - split; [done|apply evolves_refl].
Qed.

Lemma exec_evolves o s s' : allWf (map_ s) -> exec o s = Some s' ->
  allWf (map_ s') /\ evolves (fun i => locked i s) (map_ s) (map_ s').
Proof.
  intros Hw. assert (Hsame : allWf (map_ s) /\ evolves (fun i => locked i s) (map_ s) (map_ s)) by (split; [done|apply evolves_refl]).
  destruct o; cbn [exec].
  - intros [= <-]. cbn. unfold create. destruct (_ || _) eqn:Eb; [done|]. apply orb_false_iff in Eb as [Eb _].
    apply negb_false_iff in Eb. rewrite dm_putIfAbsent_spec. destruct (dm_get i (map_ s)) as [q|] eqn:E.
    { by destruct (_ || _). }
    set (m' := if _ || _ then _ else _). assert (Hm : m'.2 = dm_put i (mkProject i configOrgId (cleanName newName) owner [owner] at_ at_) (map_ s)).
    { unfold m'. by destruct (_ || _). }
    rewrite Hm. split.
    + intros j q. rewrite dm_get_put. case_decide; [intros [= <-]|apply Hw]. split; [|done].
      split_and!; cbn; [set_solver|apply NoDup_singleton|lia|done].
    + intros j q Hq. rewrite dm_get_put. case_decide; [congruence|]. exists q. split_and!; [done|apply follows_refl|done].
  - destruct (locked i s) eqn:El; [done|]. intros [= <-]. cbn. unfold mutate. destruct (negb _); [done|].
    apply updateWith_evolves; try done. intros p Hp. by apply rosterChange_wf.
  - destruct (locked i s) eqn:El; [done|]. intros [= <-]. cbn. unfold rename. destruct (negb _) eqn:En; [done|].
    apply updateWith_evolves; try done. intros p Hp. apply negb_false_iff in En.
    by destruct (nameChange_wf isActive actor _ p En Hp) as (? & ? & _).
  - destruct (projectIdFromGroupRef ref); [|by intros [= <-]]. destruct (locked _ s); [done|]. intros [= <-]. by destruct (versionCurrent _ _ _).
  - destruct (locked i s); [done|]. intros [= <-]. by destruct (dm_get _ _).
  - by intros [= <-].
Qed.

Lemma execs_evolves os s s' : allWf (map_ s) -> execs os s = Some s' ->
  allWf (map_ s') /\ evolves (fun _ => false) (map_ s) (map_ s').
Proof.
  revert s. induction os as [|o os IH]; intros s Hw; cbn; [intros [= <-]; split; [done|apply evolves_refl]|].
  destruct (exec o s) as [s1|] eqn:E; [|done]. intros Hs. destruct (exec_evolves _ _ _ Hw E) as [Hw1 Hev].
  destruct (IH _ Hw1 Hs) as [Hw2 Hev2]. split; [done|]. intros i p Hp.
  destruct (Hev i p Hp) as (p1 & H1 & F1 & _). destruct (Hev2 i p1 H1) as (p2 & H2 & F2 & _).
  exists p2. split_and!; [done|by eapply follows_trans|done].
Qed.

Lemma locked_exec i o s s' : locked i s = true -> o <> Leave i -> exec o s = Some s' -> locked i s' = true.
Proof.
  intros Hl Ho. destruct o; cbn [exec].
  - by intros [= <-].
  - destruct (locked i0 s); [done|]. by intros [= <-].
  - destruct (locked i0 s); [done|]. by intros [= <-].
  - destruct (projectIdFromGroupRef ref) as [j|]; [|by intros [= <-]]. destruct (locked j s); [done|]. intros [= <-].
    destruct (versionCurrent _ _ _); [|done]. unfold locked in *. cbn. by rewrite Hl, orb_true_r.
  - destruct (locked i0 s); [done|]. intros [= <-]. destruct (dm_get _ _); [|done]. unfold locked in *. cbn. by rewrite Hl, orb_true_r.
  - intros [= <-]. unfold locked in *. cbn. apply existsb_exists in Hl as (j & Hj & Ej). apply bool_decide_eq_true in Ej as ->.
    apply existsb_exists. exists i. split; [|by apply bool_decide_eq_true]. apply List.filter_In. split; [done|].
    apply negb_true_iff, bool_decide_eq_false. congruence.
Qed.

Lemma execs_frozen os i p s s' : allWf (map_ s) -> locked i s = true -> ~ In (Leave i) os -> dm_get i (map_ s) = Some p ->
  execs os s = Some s' -> dm_get i (map_ s') = Some p.
Proof.
  revert s. induction os as [|o os IH]; intros s Hw Hl Hn Hp; cbn; [by intros [= <-]|].
  destruct (exec o s) as [s1|] eqn:E; [|done]. intros Hs. destruct (exec_evolves _ _ _ Hw E) as [Hw1 Hev].
  destruct (Hev i p Hp) as (p1 & H1 & _ & Hfr). rewrite (Hfr Hl) in H1. apply (IH s1); try done; [|by intros ?; apply Hn; right].
  eapply locked_exec; [done| |done]. intros ->. apply Hn. by left.
Qed.

Lemma updateWith_get j f m i : dm_get i (updateWith j f m).2 =
  if decide (j = i) then (fun p => (f p).1) <$> dm_get i m else dm_get i m.
Proof.
  unfold updateWith. destruct (dm_get j m) as [p|] eqn:E; cbn; rewrite dm_update_spec, E; cbn.
  - rewrite dm_get_put. case_decide; [subst; by rewrite E|done].
  - case_decide; [subst; by rewrite E|done].
Qed.

Lemma create_get j n owner at_ m i p : dm_get i m = Some p -> dm_get i (create j n owner at_ m).2 = Some p.
Proof.
  intros Hp. unfold create. destruct (_ || _); [done|]. rewrite dm_putIfAbsent_spec.
  destruct (dm_get j m) as [q|] eqn:Ej; destruct (_ || _); cbn; try done; rewrite dm_get_put, decide_False; congruence.
Qed.

(** What one operation makes of a project. *)
Lemma exec_get o s s' i p p' : exec o s = Some s' -> dm_get i (map_ s) = Some p -> dm_get i (map_ s') = Some p' ->
  p' = p \/
  (exists a actor member add now, o = Mutate a i actor member add now /\ p' = (rosterChange a actor member add now p).1) \/
  (exists a actor clean, Str.truthy clean = true /\ p' = (nameChange a actor clean p).1).
Proof.
  intros Ho Hp Hp'. destruct o as [j n owner at_|a j actor member add now|a j actor n|ref v|j|j]; cbn [exec] in Ho.
  - injection Ho as <-. cbn in Hp'. rewrite (create_get _ _ _ _ _ _ _ Hp) in Hp'. left. congruence.
  - destruct (locked j s); [done|]. injection Ho as <-. cbn in Hp'. unfold mutate in Hp'.
    destruct (negb (Str.truthy member)); [left; cbn in Hp'; congruence|]. rewrite updateWith_get, Hp in Hp'.
    case_decide; [subst; right; left|left; congruence]. exists a, actor, member, add, now. split; [done|]. by injection Hp' as <-.
  - destruct (locked j s); [done|]. injection Ho as <-. cbn in Hp'. unfold rename in Hp'.
    destruct (negb (Str.truthy (cleanName n))) eqn:En; [left; cbn in Hp'; congruence|]. apply negb_false_iff in En.
    rewrite updateWith_get, Hp in Hp'. case_decide; [subst; right; right|left; congruence].
    exists a, actor, (cleanName n). split; [done|]. by injection Hp' as <-.
  - left. destruct (projectIdFromGroupRef ref) as [j|]; [|congruence]. destruct (locked j s); [done|]. injection Ho as <-.
    destruct (versionCurrent j v (map_ s)); cbn in Hp'; congruence.
  - left. destruct (locked j s); [done|]. injection Ho as <-. destruct (dm_get j (map_ s)); cbn in Hp'; congruence.
  - left. injection Ho as <-. cbn in Hp'. congruence.
Qed.

(** In every reachable store the owner of a project is on its roster and nobody
    is on it twice; a roster changes only when an active person changes it while
    the owner is active: a member adds one person at the end, or the owner removes
    one, never the owner; and it then gets a new version. *)
Theorem roster_guarded os s o s' i p p' :
  execs os (mkSys dm_empty []) = Some s -> exec o s = Some s' ->
  dm_get i (map_ s) = Some p -> dm_get i (map_ s') = Some p' ->
  ownerId p ∈ memberIds p /\ NoDup (memberIds p) /\ ownerId p' = ownerId p /\
  (memberIds p' <> memberIds p ->
   updatedAt p < updatedAt p' /\
   exists isActive actor member add now, o = Mutate isActive i actor member add now /\
     isActive (ownerId p) = true /\ isActive actor = true /\
     (add = true /\ (exists m, m ∈ memberIds p /\ samePerson (Some m) (Some actor) = true) /\
        memberIds p' = memberIds p ++ [member] \/
      add = false /\ samePerson (Some (ownerId p)) (Some actor) = true /\ member <> ownerId p /\
        memberIds p' = List.filter (fun m => m !== member) (memberIds p))).
Proof.
  intros Hos Ho Hp Hp'. assert (Hw : allWf (map_ s)).
  { eapply execs_evolves, Hos. cbn. intros j q. by rewrite dm_get_empty. }
  destruct (Hw _ _ Hp) as [(Hown & Hnd & Hrest) _]. destruct (exec_evolves _ _ _ Hw Ho) as [_ Hev].
  destruct (Hev i p Hp) as (q & Hq & (_ & Fo & _ & Fu & Fm) & _). rewrite Hp' in Hq. injection Hq as <-.
  split_and!; [done..|]. intros Hne. assert (Hlt : updatedAt p < updatedAt p').
  { destruct (Z.eq_dec (updatedAt p') (updatedAt p)) as [E|]; [by destruct Hne; apply Fm|lia]. }
  split; [done|]. destruct (exec_get _ _ _ _ _ _ Ho Hp Hp') as [->|[(a & actor & member & add & now & -> & ->)|(a & actor & clean & Hc & ->)]].
  - done.
  - destruct (rosterChange_spec a actor member add now p (proj1 (Hw _ _ Hp))) as [E|(A1 & A2 & _ & Hc)]; [by rewrite E in Hne|].
    exists a, actor, member, add, now. split_and!; [done..|]. destruct Hc as [(? & ? & _ & ?)|?]; [by left|by right].
  - by destruct (nameChange_wf a actor clean p Hc (proj1 (Hw _ _ Hp))) as (_ & _ & E).
Qed.

(** The version of a roster names it: a body of [withVersion], entered with a
    version that was read earlier, runs while the roster is the one the version
    was read with, whatever happened in between and happens meanwhile. *)
Theorem version_pins_roster os0 s0 i p0 os1 s1 ref s1' os2 s2 p2 :
  execs os0 (mkSys dm_empty []) = Some s0 -> dm_get i (map_ s0) = Some p0 ->
  execs os1 s0 = Some s1 -> projectIdFromGroupRef ref = Some i ->
  exec (EnterVersion ref (Some (Str.showZ (updatedAt p0)))) s1 = Some s1' -> locked i s1' = true ->
  execs os2 s1' = Some s2 -> ~ In (Leave i) os2 -> dm_get i (map_ s2) = Some p2 ->
  memberIds p2 = memberIds p0 /\ ownerId p2 = ownerId p0.
Proof.
  intros E0 Hp0 E1 Href He Hl E2 Hn Hp2.
  destruct (execs_evolves os0 (mkSys dm_empty []) s0) as [Hw0 _]; [by intros j q; cbn; rewrite dm_get_empty|done|].
  destruct (execs_evolves _ _ _ Hw0 E1) as [Hw1 Hev]. destruct (Hev i p0 Hp0) as (p1 & Hp1 & (_ & Fo & _ & _ & Fm) & _).
  cbn [exec] in He. rewrite Href in He. destruct (locked i s1) eqn:El; [done|].
  unfold versionCurrent in He. rewrite Hp1 in He. destruct (_ && _) eqn:Ev; injection He as <-; [|congruence].
  apply andb_prop in Ev as [_ Ev]. apply bool_decide_eq_true in Ev. injection Ev as Ev.
  assert (Hu : updatedAt p1 = updatedAt p0) by (by apply (inj pretty)).
  assert (Hp2' : dm_get i (map_ s2) = Some p1).
  { eapply (execs_frozen os2 i p1 (mkSys (map_ s1) (i :: inBody s1))); [exact Hw1|done|done|exact Hp1|done]. }
  rewrite Hp2 in Hp2'. injection Hp2' as ->. split; [by apply Fm|done].
Qed.

(** *** The views of a roster *)

Lemma groupRef_roundtrip i : Str.truthy i = true -> Str.includes i ":" = false ->
  projectIdFromGroupRef (projectGroupRef i) = Some i.
Proof.
  intros Ht Hc. unfold projectIdFromGroupRef, isProjectGroupRef, projectGroupRef, Str.startsWith.
  assert (String.prefix PROJECT_GROUP_PREFIX (PROJECT_GROUP_PREFIX +:+ i) = true) as -> by (cbn; by destruct i).
  cbn [negb]. change (Str.drop _ (PROJECT_GROUP_PREFIX +:+ i)) with i. by rewrite Ht, Hc.
Qed.

(** The three ways to ask for a project's people agree: a principal is a member of
    the group, is listed among its members, and sees the project in the own list,
    under exactly the same condition: both the owner and the principal are active
    and the principal is on the roster. *)
Theorem project_views_agree os s i p isActive x :
  execs os (mkSys dm_empty []) = Some s -> dm_get i (map_ s) = Some p -> orgId p = configOrgId ->
  Str.truthy i = true -> Str.includes i ":" = false ->
  let sees := isActive (ownerId p) = true /\ isActive x = true /\ x ∈ memberIds p in
  (membership isActive (projectGroupRef i) x (map_ s) = Some true <-> sees) /\
  (x ∈ default [] (members isActive (projectGroupRef i) (map_ s)) <-> sees) /\
  ((exists q, q ∈ listForMember isActive x (map_ s) /\ id q = i) <-> sees).
Proof.
  intros Hos Hp Horg Ht Hc sees.
  destruct (execs_evolves os (mkSys dm_empty []) s) as [Hw _]; [by intros j q; cbn; rewrite dm_get_empty|done|].
  assert (Hpg : projectForGroup (projectGroupRef i) (map_ s) = Some p).
  { unfold projectForGroup. rewrite groupRef_roundtrip, Hp by done. by rewrite bool_decide_eq_true_2. }
  assert (Hex : forall l : list string, existsb (fun y => y === x) l = true <-> x ∈ l).
  { intros l. rewrite Arr.existsb_elem. setoid_rewrite bool_decide_eq_true. naive_solver. }
  unfold membership, members. rewrite Hpg. split_and!.
  - split; [intros [= E]|intros (H1 & H2 & H3)]; [|by rewrite H1, H2, (proj2 (Hex _) H3)].
    apply andb_prop in E as [[? ?]%andb_prop ?%Hex]. done.
  - cbn. unfold sees. destruct (isActive (ownerId p)); [rewrite Arr.elem_of_filter|rewrite elem_of_nil]; naive_solver.
  - unfold listForMember. setoid_rewrite Arr.elem_of_sort. setoid_rewrite Arr.elem_of_filter. split.
    + intros (q & [E (j & Hj)%dm_all_get] & Hid). destruct (Hw _ _ Hj) as [_ Hij].
      apply andb_prop in E as [[[_ ?]%andb_prop ?]%andb_prop ?%Hex]. assert (j = i) as -> by congruence.
      rewrite Hp in Hj. injection Hj as <-. done.
    + intros (H1 & H2 & H3). exists p. split; [|by apply (Hw _ _ Hp)]. split; [|apply dm_all_get; eauto].
      by rewrite H1, H2, (proj2 (Hex _) H3), bool_decide_eq_true_2.
Qed.

End store.

(** *** Witnesses *)
Section witnesses.
Let everyone (_ : string) : bool := true.
Let made : list op :=
  [Create "p1" " Launch  plan " "ann@x.io" 10; Mutate everyone "p1" "Ann@X.io" "bob" true 20].
Let adding := Mutate everyone "p1" "bob" "eve" true 15.
Let before : Sys := default (mkSys (M := Memory.t) dm_empty []) (execs "org" made (mkSys dm_empty [])).
Let after : Sys := default before (exec "org" adding before).
Let p1 := mkProject "p1" "org" "Launch plan" "ann@x.io" ["ann@x.io"; "bob"] 10 20.
Let p2 := mkProject "p1" "org" "Launch plan" "ann@x.io" ["ann@x.io"; "bob"; "eve"] 10 21.

Lemma roster_guarded_witness : updatedAt p1 < updatedAt p2.
Proof.
  refine (proj1 (proj2 (proj2 (proj2 (roster_guarded "org" made before adding after "p1" p1 p2 _ _ _ _))) _));
    [vm_compute; reflexivity..|discriminate].
Defined.

Lemma version_pins_roster_witness : memberIds p1 = memberIds p1 /\ ownerId p1 = ownerId p1.
Proof.
  refine (version_pins_roster "org" made before "p1" p1 [Rename everyone "p1" "ann@x.io" "Plan"]
    (default before (execs "org" [Rename everyone "p1" "ann@x.io" "Plan"] before))
    "web-project-p1"
    (mkSys (map_ (default before (execs "org" [Rename everyone "p1" "ann@x.io" "Plan"] before))) ["p1"])
    [Create "p2" "Other" "bob" 30]
    (default before (execs "org" [Create "p2" "Other" "bob" 30]
       (mkSys (map_ (default before (execs "org" [Rename everyone "p1" "ann@x.io" "Plan"] before))) ["p1"])))
    (mkProject "p1" "org" "Plan" "ann@x.io" ["ann@x.io"; "bob"] 10 20) _ _ _ _ _ _ _ _ _);
    try (vm_compute; reflexivity). intros [?|?]; [discriminate|done].
Defined.

Lemma project_views_agree_witness :
  membership "org" everyone "web-project-p1" "bob" (map_ before) = Some true.
Proof.
  refine (proj2 (proj1 (project_views_agree "org" made before "p1" p1 everyone "bob" _ _ _ _ _)) _);
    try (vm_compute; reflexivity).
  split_and!; [done|done|]. right. left.
Defined.
End witnesses.

(** ** Environments *)
Module Env.

Record Environment := mkEnvironment {
  e_id : string; e_orgId : string; e_name : option string; e_ownerActorId : option string; e_createdAt : Z; e_updatedAt : Z }.

Record Attachment := mkAttachment {
  a_scopeId : ScopeId; a_environmentId : string; a_attachedBy : string; a_attachedAt : Z }.

Record Store := mkStore { environments : jmap string Environment; attachments : jmap ScopeId Attachment }.

Definition empty : Store := mkStore [] [].

Definition create (configOrgId i : string) (nm owner : option string) (now : Z) (s : Store) : Environment * Store :=
  match JMap.get (environments s) i with
  | Some e => (e, s)
  | None => let e := mkEnvironment i configOrgId nm owner now now in
            (e, mkStore (JMap.set (environments s) i e) (attachments s))
  end.

Definition get (i : string) (s : Store) : option Environment := JMap.get (environments s) i.

Definition list_ (configOrgId : string) (s : Store) : list Environment :=
  Arr.sort (Arr.by_key_desc e_updatedAt)
    (List.filter (fun e => e_orgId e === configOrgId) (JMap.values (environments s))).

Definition attach (scope : ScopeId) (environmentId attachedBy : string) (now : Z) (s : Store) : Store :=
  mkStore (environments s) (JMap.set (attachments s) scope (mkAttachment scope environmentId attachedBy now)).

Definition getAttachment (scope : ScopeId) (s : Store) : option Attachment := JMap.get (attachments s) scope.

Definition attachmentsFor (environmentId : string) (s : Store) : list Attachment :=
  List.filter (fun a => a_environmentId a === environmentId) (JMap.values (attachments s)).

Definition resolveEnvironmentId (store : option Store) (scope : ScopeId) : string :=
  match store with
  | None => scope
  | Some s => match getAttachment scope s with Some a => a_environmentId a | None => scope end
  end.

Inductive op :=
| OCreate (configOrgId i : string) (nm owner : option string) (now : Z)
| OAttach (scope : ScopeId) (environmentId attachedBy : string) (now : Z).

Definition exec (s : Store) (o : op) : Store :=
  match o with
  | OCreate org i nm owner now => (create org i nm owner now s).2
  | OAttach scope e by_ now => attach scope e by_ now s
  end.

(** The last attachment of a scope in a history. *)
Fixpoint lastAttached (scope : ScopeId) (os : list op) (acc : string) : string :=
  match os with
  | [] => acc
  | OAttach sc e _ _ :: os => lastAttached scope os (if sc === scope then e else acc)
  | _ :: os => lastAttached scope os acc
  end.

Lemma resolve_from os s scope :
  resolveEnvironmentId (Some (foldl exec s os)) scope = lastAttached scope os (resolveEnvironmentId (Some s) scope).
Proof.
  revert s. induction os as [|o os IH]; intros s; cbn [foldl lastAttached]; [done|]. rewrite IH.
  destruct o as [org i nm owner now|sc e by_ now]; f_equal; cbn.
  - unfold getAttachment. cbn. unfold create. by destruct (JMap.get (environments s) i).
  - unfold getAttachment. cbn. rewrite JMap.get_set. case_decide; [subst; by rewrite bool_decide_eq_true_2|by rewrite bool_decide_eq_false_2].
Qed.

(** A scope's sandbox is that of the environment it was attached to last, or its own. *)
Theorem environment_resolved os scope :
  resolveEnvironmentId (Some (foldl exec empty os)) scope = lastAttached scope os scope.
Proof. apply resolve_from. Qed.

End Env.
