(* ===== verification/Board.v ===== *)
(** * The board: posts, claims, requested work and their events

    [plugins/board/src/store.ts] of the companybrain layer, the part of the store behind the
    repository boards: [addPost], [releaseClaim], [closePost], [advanceWork], the reads and
    [purge].  A table is the list of its rows in insertion order and a transaction is one
    function from tables to tables: the advisory locks it takes, or the lock its [UPDATE]
    takes on the row, keep the ones that touch the same rows apart.  [now] and [randomUUID]
    are arguments; a second row with a primary key already there makes the insertion throw,
    which rolls the transaction back. *)

From Stdlib Require Import ZArith Lia Ascii.
From S2P Require Import Prelude Collections Untrusted.
Open Scope Z_scope.

Inductive PostType := Task | Claim | Finding | Handoff | Decision.
Inductive WorkStatus := Open | Working | Review | Changes | Done | Closed.
Inductive UpdateKind := UProgress | USubmitted | UAccepted | UChanges.
Inductive EventKind := PostCreated | ClaimReleased | PostClosed.

#[global] Instance PostType_eq_dec : EqDecision PostType.
Proof. solve_decision. Defined.
#[global] Instance WorkStatus_eq_dec : EqDecision WorkStatus.
Proof. solve_decision. Defined.
#[global] Instance UpdateKind_eq_dec : EqDecision UpdateKind.
Proof. solve_decision. Defined.
#[global] Instance EventKind_eq_dec : EqDecision EventKind.
Proof. solve_decision. Defined.

Definition MAX_CLAIM_MINUTES : Z := 480.
Definition DEFAULT_CLAIM_MINUTES : Z := 60.
Definition POSTS_PER_HOUR : Z := 60.
Definition POSTS_PER_USER_PER_HOUR : Z := 200.
Definition MAX_POSTS_PER_REPO : Z := 5000.
Definition RETAIN_POSTS_MS : Z := 180 * 24 * 3600000.
Definition EXPIRING_SOON_MS : Z := 30 * 60000.
Definition ACTIVE_CLAIMS_PER_USER : Z := 10.
Definition HANDOFFS_PER_PAIR_PER_HOUR : Z := 8.
Definition HOUR_MS : Z := 3600000.
Definition RETAIN_EXPIRED_MS : Z := 7 * 24 * HOUR_MS.
Definition MAX_POST_BODY : nat := 20 * 1000.
Definition MAX_UPDATES_PER_TASK : Z := 200.
Definition MAX_ENTRY_BODY : nat := 20 * 1000.
#[global] Arguments MAX_ENTRY_BODY : simpl never.
#[global] Arguments MAX_POST_BODY : simpl never.
#[global] Arguments cleanText : simpl never.
#[global] Arguments cleanLine : simpl never.

(** The row of [posts]; a column that may be [NULL] is an [option]. *)
Record PostRow := mkPost {
  p_id : string; p_repo : Z; p_repoName : string; p_type : PostType;
  p_title : string; p_body : string; p_target : option string; p_to : option string;
  p_author : string; p_uid : Z; p_client : string; p_created : Z;
  p_expires : option Z; p_released : option Z; p_closed : option Z; p_closedBy : option Z;
  p_resolution : option string; p_status : option WorkStatus }.

#[global] Instance PostRow_eq_dec : EqDecision PostRow.
Proof. solve_decision. Defined.

Record Actor := mkActor { a_uid : Z; a_login : string; a_client : string }.

Record BoardEvent := mkEvent {
  e_id : Z; e_repo : Z; e_at : Z; e_kind : EventKind; e_post : string; e_type : PostType;
  e_title : string; e_actor : Actor }.

Record WorkUpdate := mkUpdate {
  u_seq : Z; u_id : string; u_task : string; u_kind : UpdateKind; u_body : string;
  u_actor : Actor; u_at : Z }.

Record board := mkBoard { posts : list PostRow; events : list BoardEvent; updates : list WorkUpdate; serial : Z }.

Definition empty : board := mkBoard [] [] [] 1.

(** What callers see of a row: the status is that of a task, [open] when unset. *)
Record Post := toPostRecord { post : PostRow; status : option WorkStatus }.
Definition toPost (r : PostRow) : Post :=
  toPostRecord r (if p_type r === Task then Some (default Open (p_status r)) else None).

(** ** Rows and conditions *)

Definition isNull {A} (o : option A) : bool := match o with None => true | Some _ => false end.
(** [col > t] and [col < t] on a nullable column. *)
Definition after (o : option Z) (t : Z) : bool := match o with Some x => t <? x | None => false end.
Definition before (o : option Z) (t : Z) : bool := match o with Some x => x <? t | None => false end.

Definition count {A} (p : A -> bool) (l : list A) : Z := Z.of_nat (length (List.filter p l)).
Definition update {A} (p : A -> bool) (f : A -> A) (l : list A) : list A := map (fun r => if p r then f r else r) l.
Definition remove {A} (p : A -> bool) (l : list A) : list A := List.filter (fun r => negb (p r)) l.

#[global] Arguments update {A} _ _ _ : simpl never.
#[global] Arguments remove {A} _ _ : simpl never.
#[global] Arguments count {A} _ _ : simpl never.

(** [type = 'claim' AND released_at IS NULL AND expires_at > t] *)
Definition liveClaim (t : Z) (r : PostRow) : bool :=
  (p_type r === Claim) && isNull (p_released r) && after (p_expires r) t.

Definition byAuthor (repo uid since : Z) (r : PostRow) : bool :=
  (p_repo r =? repo) && (p_uid r =? uid) && (since <? p_created r).
Definition byAuthorAnywhere (uid since : Z) (r : PostRow) : bool := (p_uid r =? uid) && (since <? p_created r).
Definition handedOff (repo uid : Z) (to : string) (since : Z) (r : PostRow) : bool :=
  (p_repo r =? repo) && (p_type r === Handoff) && (p_uid r =? uid) && (p_to r === Some to) && (since <? p_created r).
Definition claimOn (repo : Z) (target : string) (t : Z) (r : PostRow) : bool :=
  (p_repo r =? repo) && (p_target r === Some target) && liveClaim t r.
Definition claimOf (repo uid t : Z) (r : PostRow) : bool := (p_repo r =? repo) && (p_uid r =? uid) && liveClaim t r.

(** ** The target of a claim

    [posix.normalize] of an absolute path, on its segments: empty ones and [.] go, [..] takes
    the segment before it (nothing above the root); the separators around it are then
    stripped. *)
Definition pathStep (acc : list string) (seg : string) : list string :=
  if (seg === "") || (seg === ".") then acc
  else if seg === ".." then match acc with [] => [] | _ :: r => r end
  else seg :: acc.
Definition normalize (segs : list string) : list string := reverse (foldl pathStep [] segs).

Definition normaliseTarget (target : string) : string :=
  let cleaned := mapChars (fun c => if c === ascii_of_nat 92 then "/"%char else c) (Str.trim target) in
  if negb (Str.includesChar "/" cleaned) then cleaned
  else Str.join "/" (normalize (Str.split "/" cleaned)).

(** ** Operations *)

Definition recordEvent (repo at_ : Z) (kind : EventKind) (id : string) (type : PostType) (title : string)
    (actor : Actor) (d : board) : board :=
  mkBoard (posts d) (events d ++ [mkEvent (serial d) repo at_ kind id type title actor]) (updates d) (serial d + 1).

Definition setPosts (l : list PostRow) (d : board) : board := mkBoard l (events d) (updates d) (serial d).

Record NewPost := mkNew {
  n_repo : Z; n_repoName : string; n_type : PostType; n_title : string; n_body : string;
  n_target : option string; n_to : option string; n_author : string; n_uid : Z; n_client : string;
  n_ttl : option Z; n_system : bool }.

Inductive AddResult :=
| Added (post : Post) (renewed : bool)
| Conflict (post : Post)
| PostQuota | ClaimQuota | HandoffLoop.

Definition clampMinutes (ttl : option Z) : Z := Z.min (Z.max (default DEFAULT_CLAIM_MINUTES ttl) 1) MAX_CLAIM_MINUTES.

Definition renew (expires : option Z) (title body : string) (r : PostRow) : PostRow :=
  mkPost (p_id r) (p_repo r) (p_repoName r) (p_type r) title body (p_target r) (p_to r) (p_author r) (p_uid r)
    (p_client r) (p_created r) expires (p_released r) (p_closed r) (p_closedBy r) (p_resolution r) (p_status r).

(** [INSERT INTO posts], with the event of the creation. *)
Definition insertPost (t : Z) (uuid : string) (p : NewPost) (target : option string) (expires : option Z) (d : board)
    : outcome (AddResult * board) :=
  if existsb (fun r => p_id r === uuid) (posts d) then Throw "duplicate key"
  else
    let row := mkPost uuid (n_repo p) (n_repoName p) (n_type p) (n_title p) (n_body p) target (n_to p)
                 (n_author p) (n_uid p) (n_client p) t expires None None None None None in
    let d' := setPosts (posts d ++ [row]) d in
    Ok (Added (toPost row) false,
        recordEvent (n_repo p) t PostCreated uuid (n_type p) (n_title p) (mkActor (n_uid p) (n_author p) (n_client p)) d').

(** [ORDER BY created_at DESC LIMIT 1] *)
Definition newest (l : list PostRow) : option PostRow := head (Arr.sort (Arr.by_key_desc p_created) l).

Definition overQuota (t : Z) (p : NewPost) (d : board) : bool :=
  negb (n_system p) &&
    ((POSTS_PER_HOUR <=? count (byAuthor (n_repo p) (n_uid p) (t - HOUR_MS)) (posts d))
     || (POSTS_PER_USER_PER_HOUR <=? count (byAuthorAnywhere (n_uid p) (t - HOUR_MS)) (posts d))).

Definition handoffLoop (t : Z) (p : NewPost) (d : board) : bool :=
  negb (n_system p) && (n_type p === Handoff)
    && match n_to p with
       | Some to => Str.truthy to && (HANDOFFS_PER_PAIR_PER_HOUR <=? count (handedOff (n_repo p) (n_uid p) to (t - HOUR_MS)) (posts d))
       | None => false
       end.

Definition addClaim (t : Z) (uuid : string) (p : NewPost) (d : board) : outcome (AddResult * board) :=
  let target := normaliseTarget (default "" (n_target p)) in
  let expires := Some (t + clampMinutes (n_ttl p) * 60000) in
  match newest (List.filter (claimOn (n_repo p) target t) (posts d)) with
  | Some existing =>
      if negb (p_uid existing =? n_uid p) || (p_client existing !== n_client p)
      then Ok (Conflict (toPost existing), d)
      else Ok (Added (toPost (renew expires (n_title p) (n_body p) existing)) true,
               setPosts (update (fun r => p_id r === p_id existing) (renew expires (n_title p) (n_body p)) (posts d)) d)
  | None =>
      if negb (n_system p) && (ACTIVE_CLAIMS_PER_USER <=? count (claimOf (n_repo p) (n_uid p) t) (posts d))
      then Ok (ClaimQuota, d)
      else insertPost t uuid p (Some target) expires d
  end.

Definition cleanPost (p : NewPost) : NewPost :=
  mkNew (n_repo p) (n_repoName p) (n_type p) (cleanLine (n_title p) 200) (cleanText (n_body p) MAX_POST_BODY)
    (n_target p) (n_to p) (n_author p) (n_uid p) (n_client p) (n_ttl p) (n_system p).

Definition addPost (t : Z) (uuid : string) (input : NewPost) (d : board) : outcome (AddResult * board) :=
  let p := cleanPost input in
  if overQuota t p d then Ok (PostQuota, d)
  else if handoffLoop t p d then Ok (HandoffLoop, d)
  else if n_type p === Claim then addClaim t uuid p d
  else insertPost t uuid p (n_target p) None d.

Definition getPost (id : string) (d : board) : option Post :=
  toPost <$> List.find (fun r => p_id r === id) (posts d).

Definition release (t : Z) (r : PostRow) : PostRow :=
  mkPost (p_id r) (p_repo r) (p_repoName r) (p_type r) (p_title r) (p_body r) (p_target r) (p_to r) (p_author r) (p_uid r)
    (p_client r) (p_created r) (p_expires r) (Some t) (p_closed r) (p_closedBy r) (p_resolution r) (p_status r).

Definition releasable (id : string) (repo : Z) (r : PostRow) : bool :=
  (p_id r === id) && (p_repo r =? repo) && (p_type r === Claim) && isNull (p_released r).

Definition releaseClaim (t : Z) (id : string) (repo : Z) (actor : Actor) (d : board) : bool * board :=
  match List.find (releasable id repo) (posts d) with
  | None => (false, d)
  | Some row =>
      (true, recordEvent repo t ClaimReleased id Claim (p_title row) actor
               (setPosts (update (releasable id repo) (release t) (posts d)) d))
  end.

(** Postgres' [btrim] takes away spaces only; whether anything is left shows from one end. *)
Fixpoint btrimStart (s : string) : string :=
  match s with String c r => if c === " "%char then btrimStart r else s | EmptyString => "" end.

Definition closable (id : string) (repo : Z) (resolution : option string) (r : PostRow) : bool :=
  (p_id r === id) && (p_repo r =? repo) && (p_type r !== Claim) && isNull (p_closed r)
    && ((p_type r !== Decision) || Str.truthy (btrimStart (default "" resolution)))
    && ((p_type r !== Task) || (default Open (p_status r) !== Review)).

Definition close (t uid : Z) (resolution : option string) (status : option WorkStatus) (r : PostRow) : PostRow :=
  mkPost (p_id r) (p_repo r) (p_repoName r) (p_type r) (p_title r) (p_body r) (p_target r) (p_to r) (p_author r) (p_uid r)
    (p_client r) (p_created r) (p_expires r) (p_released r) (Some t) (Some uid) resolution status.

Definition closePost (t : Z) (id : string) (repo : Z) (actor : Actor) (resolution : option string) (d : board) : bool * board :=
  let resolution' := (fun s => cleanText s MAX_POST_BODY) <$> resolution in
  match List.find (closable id repo resolution') (posts d) with
  | None => (false, d)
  | Some row =>
      (true, recordEvent repo t PostClosed id (p_type row) (p_title row) actor
               (setPosts (update (closable id repo resolution')
                            (fun r => close t (a_uid actor) resolution' (if p_type r === Task then Some Closed else p_status r) r)
                            (posts d)) d))
  end.

(** ** Work on a requested task *)

Definition NEXT (k : UpdateKind) : list WorkStatus * WorkStatus :=
  match k with
  | UProgress => ([Open; Working; Changes], Working)
  | USubmitted => ([Open; Working; Changes], Review)
  | UAccepted => ([Review], Done)
  | UChanges => ([Review], Changes)
  end.

Inductive WorkResult := WorkOk (status : WorkStatus) | NotFound | WrongState | UpdateQuota.

Definition setStatus (s : WorkStatus) (r : PostRow) : PostRow :=
  mkPost (p_id r) (p_repo r) (p_repoName r) (p_type r) (p_title r) (p_body r) (p_target r) (p_to r) (p_author r) (p_uid r)
    (p_client r) (p_created r) (p_expires r) (p_released r) (p_closed r) (p_closedBy r) (p_resolution r) (Some s).

Definition updatesOf (id : string) (d : board) : list WorkUpdate := List.filter (fun u => u_task u === id) (updates d).

Definition addUpdate (u : WorkUpdate) (d : board) : board := mkBoard (posts d) (events d) (updates d ++ [u]) (serial d).

Definition orAccepted (s : string) : string := if Str.truthy s then s else "Accepted".

Definition advanceWork (t : Z) (uuid taskId : string) (kind : UpdateKind) (body : string) (actor : Actor) (d : board)
    : outcome (WorkResult * board) :=
  match List.find (fun r => (p_id r === taskId) && (p_type r === Task)) (posts d) with
  | None => Ok (NotFound, d)
  | Some task =>
      if negb (isNull (p_closed task)) then Ok (NotFound, d)
      else if negb (existsb (fun s => s === default Open (p_status task)) (NEXT kind).1) then Ok (WrongState, d)
      else if ((kind === UProgress) || (kind === USubmitted)) && (MAX_UPDATES_PER_TASK <=? Z.of_nat (length (updatesOf taskId d)))
      then Ok (UpdateQuota, d)
      else if existsb (fun u => u_id u === uuid) (updates d) then Throw "duplicate key"
      else
        let d1 := addUpdate (mkUpdate (Z.of_nat (length (updates d))) uuid taskId kind (cleanText body MAX_POST_BODY) actor t) d in
        let to := (NEXT kind).2 in
        Ok (WorkOk to,
            if to === Done then
              recordEvent (p_repo task) t PostClosed taskId Task (p_title task) actor
                (setPosts (update (fun r => p_id r === taskId)
                             (close t (a_uid actor) (Some (orAccepted (cleanText body MAX_POST_BODY))) (Some Done)) (posts d1)) d1)
            else setPosts (update (fun r => p_id r === taskId) (setStatus to) (posts d1)) d1)
  end.

(** [ORDER BY seq DESC LIMIT n] read back in ascending order. *)
Definition workUpdates (taskId : string) (d : board) : list WorkUpdate :=
  Arr.slice_last (Z.to_nat MAX_UPDATES_PER_TASK) (updatesOf taskId d).

(** ** Reads *)

Record Board := mkView { v_tasks : list Post; v_claims : list Post; v_recent : list Post }.

(** [ORDER BY created_at, id], ascending and descending. *)
Definition created_asc (a b : PostRow) : bool :=
  (p_created a <? p_created b) || ((p_created a =? p_created b) && Str.leb (p_id a) (p_id b)).
Definition created_desc (a b : PostRow) : bool := created_asc b a.

Definition wants (type : option PostType) (t : PostType) : bool := isNull type || (type === Some t).

Definition readBoard (t repo : Z) (type : option PostType) (limit : option Z) (d : board) : Board :=
  let n := Z.to_nat (Z.min (Z.max (default 30 limit) 1) 100) in
  mkView
    (if wants type Task then
       map toPost (take 200 (Arr.sort created_asc
         (List.filter (fun r => (p_repo r =? repo) && (p_type r === Task) && isNull (p_closed r)) (posts d)))) else [])
    (if wants type Claim then
       map toPost (take 200 (Arr.sort created_desc (List.filter (fun r => (p_repo r =? repo) && liveClaim t r) (posts d)))) else [])
    (if (type === Some Task) || (type === Some Claim) then [] else
       map toPost (take n (Arr.sort created_desc
         (List.filter (fun r => (p_repo r =? repo) && existsb (fun k => p_type r === k) [Finding; Handoff; Decision]
                                && isNull (p_closed r) && wants type (p_type r)) (posts d))))).

Definition inbox (uid : Z) (login client : string) (t : Z) (limit : nat) (d : board) : list Post * list Post :=
  (map toPost (take limit (Arr.sort created_desc
     (List.filter (fun r => (p_type r === Handoff) && isNull (p_closed r) && ((p_to r === Some login) || (p_to r === Some client))
                            && (t - RETAIN_EXPIRED_MS <? p_created r)) (posts d)))),
   map toPost (take limit (Arr.sort (Arr.by_key (fun r => default 0 (p_expires r)))
     (List.filter (fun r => (p_uid r =? uid) && (p_client r === client) && liveClaim t r
                            && before (p_expires r) (t + EXPIRING_SOON_MS)) (posts d))))).

Definition hasTask (repo : Z) (title : string) (d : board) : bool :=
  existsb (fun r => (p_repo r =? repo) && (p_type r === Task) && (p_title r === title)) (posts d).

(** ** Purging

    Three deletions of posts and two of events, each a statement of its own; a row's rank
    counts the rows of its repository that are at least as new. *)
Definition purgeable (r : PostRow) : bool :=
  (p_type r === Finding) || (p_type r === Handoff) || ((p_type r === Decision) && negb (isNull (p_closed r))).

Definition deadClaim (cutoff : Z) (r : PostRow) : bool :=
  (p_type r === Claim) && (before (p_released r) cutoff || (isNull (p_released r) && before (p_expires r) cutoff)).

Definition rankOf (l : list PostRow) (r : PostRow) : Z :=
  count (fun q => purgeable q && (p_repo q =? p_repo r) && created_desc q r) l.

Definition eventRank (l : list BoardEvent) (e : BoardEvent) : Z :=
  count (fun q => (e_repo q =? e_repo e) && (e_id e <=? e_id q)) l.

Definition purge (t : Z) (d : board) : board :=
  let p1 := remove (deadClaim (t - RETAIN_EXPIRED_MS)) (posts d) in
  let p2 := remove (fun r => purgeable r && (p_created r <? t - RETAIN_POSTS_MS)) p1 in
  let p3 := remove (fun r => purgeable r && (MAX_POSTS_PER_REPO <? rankOf p2 r)) p2 in
  let e1 := remove (fun e => e_at e <? t - RETAIN_POSTS_MS) (events d) in
  let e2 := remove (fun e => MAX_POSTS_PER_REPO <? eventRank e1 e) e1 in
  mkBoard p3 e2 (updates d) (serial d).

(** ** The store as a transition system *)

Inductive op :=
| OAdd (uuid : string) (p : NewPost)
| ORelease (id : string) (repo : Z) (actor : Actor)
| OClose (id : string) (repo : Z) (actor : Actor) (resolution : option string)
| OAdvance (uuid id : string) (kind : UpdateKind) (body : string) (actor : Actor)
| OPurge.

Definition committed {A} (d : board) (r : outcome (A * board)) : board := match r with Ok (_, d') => d' | Throw _ => d end.

Definition exec (t : Z) (o : op) (d : board) : board :=
  match o with
  | OAdd uuid p => committed d (addPost t uuid p d)
  | ORelease id repo actor => (releaseClaim t id repo actor d).2
  | OClose id repo actor r => (closePost t id repo actor r d).2
  | OAdvance uuid id k body actor => committed d (advanceWork t uuid id k body actor d)
  | OPurge => purge t d
  end.

(** The boards that the operations satisfying [allowed] can get to by time [t]; the clock
    does not go back. *)
Inductive reach (allowed : op -> bool) : Z -> board -> Prop :=
| reach_empty t : reach allowed t empty
| reach_step t t' o d : reach allowed t d -> allowed o = true -> t <= t' -> reach allowed t' (exec t' o d).

Definition anyOp (o : op) : bool := true.
Definition noSystem (o : op) : bool := match o with OAdd _ p => negb (n_system p) | _ => true end.

(** ** Tables *)

Lemma elem_update {A} p (f : A -> A) l r' : r' ∈ update p f l <-> exists r, r ∈ l /\ r' = if p r then f r else r.
Proof. unfold update. rewrite list_elem_of_fmap. naive_solver. Qed.

Lemma elem_remove {A} p (l : list A) r : r ∈ remove p l <-> r ∈ l /\ p r = false.
Proof. unfold remove. rewrite Arr.elem_of_filter, negb_true_iff. naive_solver. Qed.

Lemma update_map {A B} (g : A -> B) p f l : (forall r, g (f r) = g r) -> map g (update p f l) = map g l.
Proof. intros Hg. unfold update. rewrite map_map. apply map_ext. intros r. destruct (p r); auto. Qed.

Lemma remove_sublist {A} p (l : list A) : remove p l `sublist_of` l.
Proof. unfold remove. induction l as [|r l IH]; cbn; [done|]. destruct (p r); cbn; by constructor. Qed.

Lemma count_mono {A} (p q : A -> bool) l : (forall r, r ∈ l -> p r = true -> q r = true) -> count p l <= count q l.
Proof.
  unfold count. induction l as [|r l IH]; cbn; intros H; [lia|].
  assert (forall r0, r0 ∈ l -> p r0 = true -> q r0 = true) as Hl by (intros; apply H; [by right|done]).
  specialize (IH Hl). pose proof (H r (list_elem_of_here _ _)). destruct (p r), (q r); cbn in *; try lia; naive_solver.
Qed.

Lemma count_app {A} (p : A -> bool) l1 l2 : count p (l1 ++ l2) = count p l1 + count p l2.
Proof. unfold count. rewrite List.filter_app, length_app. lia. Qed.

Lemma count_map {A B} (g : A -> B) (p : B -> bool) l : count (fun r => p (g r)) l = count p (map g l).
Proof. unfold count. induction l as [|r l IH]; cbn; [done|]. destruct (p (g r)); cbn; lia. Qed.

Lemma count_sublist {A} (p : A -> bool) l1 l2 : l1 `sublist_of` l2 -> count p l1 <= count p l2.
Proof. unfold count. induction 1 as [|x l1 l2 _ IH|x l1 l2 _ IH]; cbn; [lia| |]; destruct (p x); cbn; lia. Qed.

(** ** What an operation does to the rows

    The columns no statement updates, and the two ways the posts change: columns that do
    change and rows that go, or one new row. *)
Definition static (r : PostRow) := (p_id r, p_repo r, p_type r, p_target r, p_to r, p_uid r, p_client r, p_created r).

Record inserted (t : Z) (p : NewPost) (d : board) (row : PostRow) : Prop := Inserted {
  ins_fresh : p_id row ∉ map p_id (posts d);
  ins_quota : overQuota t p d = false;
  ins_loop : handoffLoop t p d = false;
  ins_claim : n_type p = Claim ->
    exists target, p_target row = Some target /\ List.filter (claimOn (p_repo row) target t) (posts d) = []
      /\ (n_system p = false -> count (claimOf (p_repo row) (p_uid row) t) (posts d) < ACTIVE_CLAIMS_PER_USER);
  ins_repo : p_repo row = n_repo p;
  ins_uid : p_uid row = n_uid p;
  ins_type : p_type row = n_type p;
  ins_to : p_to row = n_to p;
  ins_created : p_created row = t;
  ins_open : p_released row = None /\ p_closed row = None /\ p_status row = None }.

Lemma newest_none l : newest l = None -> l = [].
Proof.
  unfold newest. intros H. destruct (Arr.sort _ l) as [|x s] eqn:E; [|done].
  apply length_zero_iff_nil. by rewrite <- (Arr.sort_length (Arr.by_key_desc p_created)), E.
Qed.

Lemma newest_elem l r : newest l = Some r -> r ∈ l.
Proof.
  unfold newest. intros H. destruct (Arr.sort _ l) as [|x s] eqn:E; [done|]. simplify_eq/=.
  apply (Arr.elem_of_sort (Arr.by_key_desc p_created)). rewrite E. by left.
Qed.

(** What [addPost] commits: nothing, a renewed claim, or a new row with its event. *)
Variant added (t : Z) (uuid : string) (p : NewPost) (d : board) : board -> Prop :=
| added_nothing : added t uuid p d d
| added_renewal existing expires title body :
    existing ∈ posts d -> liveClaim t existing = true -> p_repo existing = n_repo p ->
    added t uuid p d (setPosts (update (fun r => p_id r === p_id existing) (renew expires title body) (posts d)) d)
| added_row row : p_id row = uuid -> inserted t p d row ->
    added t uuid p d (recordEvent (p_repo row) t PostCreated uuid (p_type row) (p_title row)
                        (mkActor (p_uid row) (p_author row) (p_client row)) (setPosts (posts d ++ [row]) d)).

Lemma fresh_id uuid l : existsb (fun r => p_id r === uuid) l = false -> uuid ∉ map p_id l.
Proof. rewrite Arr.existsb_false, list_elem_of_fmap. intros H (r & -> & Hr). specialize (H r Hr). by js_bool. Qed.

Lemma addClaim_added t uuid p d : overQuota t p d = false -> handoffLoop t p d = false -> n_type p = Claim ->
  added t uuid p d (committed d (addClaim t uuid (cleanPost p) d)).
Proof.
  intros Hq Hl Ht. unfold addClaim. destruct (newest _) as [ex|] eqn:En.
  - destruct (_ || _); cbn; [constructor|]. apply newest_elem, Arr.elem_of_filter in En as [Hc Hin].
    unfold claimOn in Hc. js_bool. constructor; [done|done|by apply Z.eqb_eq].
  - destruct (negb _ && _) eqn:Hs; cbn [committed]; [constructor|]. unfold insertPost.
    destruct (existsb _ _) eqn:Ef; cbn [committed]; [constructor|].
    apply (added_row t uuid p d (mkPost uuid _ _ _ _ _ _ _ _ _ _ _ _ _ _ _ _ _)); [done|].
    split; cbn; try done; [by apply fresh_id|]. intros _. eexists. split; [done|].
    split; [by apply newest_none in En|]. intros Hn. cbn in Hs. rewrite Hn in Hs. cbn in Hs. by apply Z.leb_gt in Hs.
Qed.

Lemma addPost_added t uuid p d : added t uuid p d (committed d (addPost t uuid p d)).
Proof.
  unfold addPost. destruct (overQuota _ _ _) eqn:Hq; cbn [committed]; [constructor|].
  destruct (handoffLoop _ _ _) eqn:Hl; cbn [committed]; [constructor|].
  destruct (n_type (cleanPost p) === Claim) eqn:Ht; js_bool; [by apply addClaim_added|].
  unfold insertPost. destruct (existsb _ _) eqn:Ef; cbn [committed]; [constructor|].
  apply (added_row t uuid p d (mkPost uuid _ _ _ _ _ _ _ _ _ _ _ _ _ _ _ _ _)); [done|].
  split; cbn; try done. by apply fresh_id.
Qed.

(** ** Identities *)

Lemma update_ids p f l : (forall r, p_id (f r) = p_id r) -> map p_id (update p f l) = map p_id l.
Proof. apply update_map. Qed.

Lemma purge_posts_sublist t d : posts (purge t d) `sublist_of` posts d.
Proof. cbn. etrans; [apply remove_sublist|]. etrans; [apply remove_sublist|]. apply remove_sublist. Qed.

(** The operations other than [addPost] leave the fixed columns of the rows they keep. *)
Lemma exec_static t o d :
  match o with OAdd _ _ => True | _ => map static (posts (exec t o d)) `sublist_of` map static (posts d) end.
Proof.
  destruct o as [uuid p|id repo actor|id repo actor res|uuid id k body actor|]; [done| | | |].
  - cbn. unfold releaseClaim. destruct (List.find _ _); cbn; [|done]. by rewrite (update_map static).
  - cbn. unfold closePost. destruct (List.find _ _); cbn; [|done]. by rewrite (update_map static).
  - cbn. unfold advanceWork. destruct (List.find _ _); cbn; [|done]. destruct (negb _); [done|]. destruct (negb _); [done|]. destruct (_ && _); [done|]. destruct (existsb _ _); [done|].
    cbn. destruct (_ === Done); cbn; by rewrite (update_map static).
  - cbn [exec]. apply fmap_sublist, purge_posts_sublist.
Qed.

Lemma ids_static l : map p_id l = map (fun s => s.1.1.1.1.1.1.1) (map static l).
Proof. by rewrite map_map. Qed.

Lemma exec_ids t o d : NoDup (map p_id (posts d)) -> NoDup (map p_id (posts (exec t o d))).
Proof.
  intros Hd. pose proof (exec_static t o d) as Hs. destruct o as [uuid p| | | |];
    try (rewrite ids_static in *; eapply sublist_NoDup; [exact Hd|]; by apply fmap_sublist).
  cbn [exec]. destruct (addPost_added t uuid p d) as [|ex e ti b _ _|row Hid Hi]; [done| |]; cbn.
  - by rewrite update_ids.
  - rewrite map_app. apply NoDup_app. split; [done|]. split; [|apply NoDup_singleton].
    intros x Hx Hx'. apply list_elem_of_singleton in Hx'. subst x. by destruct (ins_fresh _ _ _ _ Hi).
Qed.

Lemma reach_ids ok t d : reach ok t d -> NoDup (map p_id (posts d)).
Proof. induction 1; [constructor|by apply exec_ids]. Qed.

Lemma same_key {A B} (f : A -> B) l r r' : NoDup (map f l) -> r ∈ l -> r' ∈ l -> f r = f r' -> r = r'.
Proof.
  induction l as [|x l IH]; intros Hn Hr Hr' E; [by apply elem_of_nil in Hr|]. cbn in Hn. apply NoDup_cons in Hn as [Hx Hn].
  apply elem_of_cons in Hr as [-> |Hr]; apply elem_of_cons in Hr' as [-> |Hr']; try done.
  - destruct Hx. rewrite E. by apply list_elem_of_fmap_2.
  - destruct Hx. rewrite <- E. by apply list_elem_of_fmap_2.
  - by apply IH.
Qed.

Lemma same_id_same_row l r r' : NoDup (map p_id l) -> r ∈ l -> r' ∈ l -> p_id r = p_id r' -> r = r'.
Proof. apply same_key. Qed.

Lemma static_inj r r' : static r = static r' ->
  p_repo r = p_repo r' /\ p_target r = p_target r' /\ p_uid r = p_uid r' /\ p_created r = p_created r'
  /\ p_type r = p_type r' /\ p_to r = p_to r' /\ p_id r = p_id r' /\ p_client r = p_client r'.
Proof. unfold static. intros E. by simplify_eq. Qed.

(** ** Live claims *)

Lemma live_mono t t' r : t <= t' -> liveClaim t' r = true -> liveClaim t r = true.
Proof.
  unfold liveClaim, after. intros Ht. destruct (p_expires r); rewrite ?andb_false_r; [|done].
  intros H. js_bool. rewrite !andb_true_iff, Z.ltb_lt. repeat split; [by apply bool_decide_eq_true_2|done|lia].
Qed.

Lemma count_update {A} (p q : A -> bool) f l : count p (update q f l) = count (fun r => p (if q r then f r else r)) l.
Proof. unfold update. by rewrite <- count_map. Qed.

(** Rows that go, and updates after which a live row was live before, add no live claim. *)
Definition quiet (t : Z) (l l' : list PostRow) : Prop :=
  forall (P : PostRow -> bool) t', (forall r r', static r = static r' -> P r = P r') -> t <= t' ->
    count (fun r => P r && liveClaim t' r) l' <= count (fun r => P r && liveClaim t r) l.

Lemma quiet_refl t l : quiet t l l.
Proof. intros P t' _ Ht. apply count_mono. intros r _ H. js_bool. rewrite H. cbn. by eapply live_mono. Qed.

Lemma quiet_update t q f l : (forall r, static (f r) = static r) ->
  (forall r t', r ∈ l -> q r = true -> t <= t' -> liveClaim t' (f r) = true -> liveClaim t r = true) -> quiet t l (update q f l).
Proof.
  intros Hf Hl P t' HP Ht. rewrite count_update. apply count_mono. intros r Hr H. js_bool. apply andb_true_iff.
  destruct (q r) eqn:Eq; [|split; [done|by eapply live_mono]]. split; [by rewrite <- (HP (f r) r)|by eapply Hl].
Qed.

Lemma quiet_sublist t l l' : l' `sublist_of` l -> quiet t l l'.
Proof. intros Hs P t' HP Ht. etrans; [by apply count_sublist|]. by apply quiet_refl. Qed.

Lemma exec_quiet t o d : match o with OAdd _ _ => True | _ => quiet t (posts d) (posts (exec t o d)) end.
Proof.
  destruct o as [uuid p|id repo actor|id repo actor res|uuid id k body actor|]; [done| | | |].
  - cbn. unfold releaseClaim. destruct (List.find _ _); cbn; [|apply quiet_refl]. apply quiet_update; [done|].
    intros r t' _ _ _. unfold liveClaim. cbn. by rewrite andb_false_r.
  - cbn. unfold closePost. destruct (List.find _ _); cbn; [|apply quiet_refl]. apply quiet_update; [done|].
    intros r t' _ _ Ht. apply (live_mono t t' r Ht).
  - cbn. unfold advanceWork. destruct (List.find _ _); cbn; [|apply quiet_refl].
    destruct (negb _); [apply quiet_refl|]. destruct (negb _); [apply quiet_refl|]. destruct (_ && _); [apply quiet_refl|].
    destruct (existsb _ _); [apply quiet_refl|].
    cbn. destruct (_ === Done); cbn; (apply quiet_update; [done|]; intros r t' _ _ Ht; apply (live_mono t t' r Ht)).
  - apply quiet_sublist, purge_posts_sublist.
Qed.

Lemma renew_quiet t ex e ti b d : NoDup (map p_id (posts d)) -> ex ∈ posts d -> liveClaim t ex = true ->
  quiet t (posts d) (update (fun r => p_id r === p_id ex) (renew e ti b) (posts d)).
Proof.
  intros Hn Hex Hl. apply quiet_update; [done|]. intros r t' Hr E _ _. js_bool.
  by rewrite (same_id_same_row (posts d) r ex).
Qed.

(** A step leaves the live claims quiet or adds one row to them. *)
Lemma exec_claim_rows t o d : NoDup (map p_id (posts d)) ->
  quiet t (posts d) (posts (exec t o d))
  \/ exists uuid p row, o = OAdd uuid p /\ posts (exec t o d) = posts d ++ [row] /\ inserted t p d row.
Proof.
  intros Hn. pose proof (exec_quiet t o d) as Hq. destruct o as [uuid p| | | |]; try by left. cbn [exec].
  destruct (addPost_added t uuid p d) as [|ex e ti b Hex Hl|row Hid Hi]; [left; apply quiet_refl|left; by apply renew_quiet|].
  right. by exists uuid, p, row.
Qed.

Lemma count_le_inserted (P : PostRow -> bool) t t' l row n :
  (forall r r', static r = static r' -> P r = P r') -> t <= t' ->
  (P row = true -> liveClaim t' row = true -> count (fun r => P r && liveClaim t r) l < n) ->
  count (fun r => P r && liveClaim t r) l <= n ->
  count (fun r => P r && liveClaim t' r) (l ++ [row]) <= n.
Proof.
  intros HP Ht Hrow Hl. rewrite count_app. pose proof (quiet_refl t l P t' HP Ht) as Hq.
  unfold count at 2. cbn. destruct (P row && liveClaim t' row) eqn:E; cbn; [|lia]. apply andb_true_iff in E as [E1 E2]. specialize (Hrow E1 E2). lia.
Qed.

Lemma reach_claims ok (P : PostRow -> bool) n t d :
  (forall r r', static r = static r' -> P r = P r') -> 0 <= n ->
  (forall t o d uuid p row, ok o = true -> o = OAdd uuid p -> inserted t p d row -> P row = true -> p_type row = Claim ->
     count (fun r => P r && liveClaim t r) (posts d) < n) ->
  reach ok t d -> forall t', t <= t' -> count (fun r => P r && liveClaim t' r) (posts d) <= n.
Proof.
  intros HP Hn Hins. induction 1 as [t|t t1 o d Hr IH Hok Ht]; intros t' Ht'; [done|].
  destruct (exec_claim_rows t1 o d (reach_ids _ _ _ Hr)) as [Hq|(uuid & p & row & E & -> & Hi)].
  - etrans; [apply Hq; done|]. by apply IH.
  - eapply count_le_inserted; [done|exact Ht'| |by apply IH]. intros HPr Hlr. eapply Hins; try done.
    unfold liveClaim in Hlr. by js_bool.
Qed.

(** C16: a target is claimed by at most one agent at a time: whatever sequence of posts, renewals,
    releases, closures and purges led to a board, at any time from then on a repository has
    at most one live claim on a target, system posts included. *)
Theorem claims_exclusive t d repo target t' : reach anyOp t d -> t <= t' ->
  count (claimOn repo target t') (posts d) <= 1.
Proof.
  intros Hr Ht. apply (reach_claims anyOp (fun r => (p_repo r =? repo) && (p_target r === Some target)) 1 t d); try done.
  { intros r r' (-> & -> & _)%static_inj. done. }
  clear. intros t o d uuid p row _ _ Hi HP Hty. js_bool. apply Z.eqb_eq in H. subst repo.
  destruct (ins_claim _ _ _ _ Hi) as (tg & Etg & Hf & _); [by rewrite <- (ins_type _ _ _ _ Hi)|].
  rewrite Etg in H0. simplify_eq. unfold claimOn in Hf. unfold count. rewrite Hf. done.
Qed.

Definition aClaim (uid : Z) (target : string) : NewPost :=
  mkNew 7 "acme/app" Claim "working on it" "" (Some target) None "ada" uid "codex" None false.

Lemma claims_exclusive_witness : count (claimOn 7 "src/a.ts" 90) (posts
    (exec 60 (OAdd "u2" (aClaim 2 "src/b/../a.ts")) (exec 50 (OAdd "u1" (aClaim 1 "./src//a.ts")) empty))) <= 1.
Proof.
  apply (claims_exclusive 60); [|lia]. apply (reach_step anyOp 50); [|done|lia].
  apply (reach_step anyOp 0); [constructor|done|lia].
Defined.

Lemma claims_bounded t d repo uid t' : reach noSystem t d -> t <= t' ->
  count (claimOf repo uid t') (posts d) <= ACTIVE_CLAIMS_PER_USER.
Proof.
  intros Hr Ht.
  apply (reach_claims noSystem (fun r => (p_repo r =? repo) && (p_uid r =? uid)) ACTIVE_CLAIMS_PER_USER t d); try done.
  { intros r r' (-> & _ & -> & _)%static_inj. done. }
  clear. intros t o d uuid p row Hok -> Hi HP Hty. js_bool. apply Z.eqb_eq in H, H0. subst.
  destruct (ins_claim _ _ _ _ Hi) as (tg & Etg & _ & Hf); [by rewrite <- (ins_type _ _ _ _ Hi)|].
  apply Hf. cbn in Hok. by apply negb_true_iff in Hok.
Qed.

(** ** Posts in an hour *)

Lemma reach_created ok t d : reach ok t d -> forall r, r ∈ posts d -> p_created r <= t.
Proof.
  induction 1 as [|t t' o d Hr IH _ Ht]; intros r Hin; [by apply elem_of_nil in Hin|].
  assert (Forall (fun c => c <= t') (map p_created (posts d))) as Hold.
  { apply Forall_forall. intros c (r0 & -> & Hr0)%list_elem_of_fmap. specialize (IH r0 Hr0). lia. }
  assert (forall l, map static l `sublist_of` map static (posts d) -> r ∈ l -> p_created r <= t') as Hsub.
  { intros l Hs Hl. rewrite Forall_forall in Hold. apply Hold.
    replace (map p_created (posts d)) with (map snd (map static (posts d))) by by rewrite map_map.
    eapply elem_of_submseteq; [|apply sublist_submseteq, fmap_sublist, Hs]. rewrite map_map. by apply list_elem_of_fmap_2. }
  pose proof (exec_static t' o d) as Hs. destruct o as [uuid p| | | |]; try by apply (Hsub _ Hs).
  cbn [exec] in Hin. destruct (addPost_added t' uuid p d) as [|ex e ti b _ _|row Hid Hi]; [by apply (Hsub _ (reflexivity _))| |].
  - eapply Hsub; [|exact Hin]. cbn. by rewrite (update_map static).
  - cbn in Hin. apply elem_of_app in Hin as [Hin|Hin]; [by apply (Hsub _ (reflexivity _))|].
    apply list_elem_of_singleton in Hin. subst. by rewrite (ins_created _ _ _ _ Hi).
Qed.

(** The rows of [P] created in the hour that ends at [hi]. *)
Definition inHour (P : PostRow -> bool) (hi : Z) (r : PostRow) : bool :=
  P r && (hi - HOUR_MS <? p_created r) && (p_created r <=? hi).

Lemma inHour_static P hi r r' : (forall r r', static r = static r' -> P r = P r') -> static r = static r' -> inHour P hi r = inHour P hi r'.
Proof. intros HP E. unfold inHour. rewrite (HP r r' E). by apply static_inj in E as (_ & _ & _ & -> & _). Qed.

Lemma cons_eq_inv {A} (x y : A) l k : x :: l = y :: k -> x = y /\ l = k.
Proof. intros E. by injection E. Qed.

Lemma count_static (Q : PostRow -> bool) l l' : (forall r r', static r = static r' -> Q r = Q r') ->
  map static l' `sublist_of` map static l -> count Q l' <= count Q l.
Proof.
  intros HQ. remember (map static l') as s' eqn:E'. remember (map static l) as s eqn:E. intros Hs. revert l l' E E'.
  induction Hs as [|x s' s _ IH|x s' s _ IH]; intros l l' E E'.
  - destruct l'; [|done]. unfold count. cbn. lia.
  - destruct l as [|r l], l' as [|r' l']; try done. apply cons_eq_inv in E as [Ex Es], E' as [Ex' Es']. specialize (IH l l' Es Es').
    unfold count in *. cbn. rewrite (HQ r' r) by (by rewrite <- Ex, <- Ex'). destruct (Q r); cbn; lia.
  - destruct l as [|r l]; [done|]. apply cons_eq_inv in E as [Ex Es]. specialize (IH l l' Es E'). unfold count in *. cbn. destruct (Q r); cbn; lia.
Qed.

Lemma reach_hour (P : PostRow -> bool) n t d :
  (forall r r', static r = static r' -> P r = P r') -> 0 <= n ->
  (forall t d p row, n_system p = false -> inserted t p d row -> P row = true ->
     count (fun r => P r && (t - HOUR_MS <? p_created r)) (posts d) < n) ->
  reach noSystem t d -> forall hi, count (inHour P hi) (posts d) <= n.
Proof.
  intros HP Hn Hins. induction 1 as [|t t1 o d Hr IH Hok Ht]; intros hi; [done|].
  assert (forall l, map static l `sublist_of` map static (posts d) -> count (inHour P hi) l <= n) as Hsub.
  { intros l Hs. etrans; [apply (count_static _ (posts d)); [|exact Hs]|by apply IH]. intros. by apply inHour_static. }
  pose proof (exec_static t1 o d) as Hs. destruct o as [uuid p| | | |]; try by apply Hsub. cbn [exec].
  destruct (addPost_added t1 uuid p d) as [|ex e ti b _ _|row Hid Hi]; [by apply Hsub|apply Hsub; cbn; by rewrite (update_map static)|].
  cbn. rewrite count_app. unfold count at 2. cbn. destruct (inHour P hi row) eqn:E; cbn; [|specialize (IH hi); lia].
  unfold inHour in E. js_bool. rewrite (ins_created _ _ _ _ Hi) in *.
  assert (count (inHour P hi) (posts d) < n); [|lia].
  eapply Z.le_lt_trans; [|apply (Hins t1 d p row); [by apply negb_true_iff|done|done]].
  apply count_mono. intros r _ Hr'. unfold inHour in Hr'. js_bool. apply andb_true_iff. split; [done|]. apply Z.ltb_lt. lia.
Qed.

(** The hourly limits hold over every sliding hour, not only at the moments they are checked:
    however posts, renewals, releases, closures and purges follow each other, no window of an
    hour has more than 60 posts of a person on a repository, more than 200 of that person
    anywhere, or more than 8 hand-offs of theirs to the same recipient there. *)
Theorem hourly_limits t d repo uid to hi : reach noSystem t d -> to <> "" ->
  count (inHour (fun r => (p_repo r =? repo) && (p_uid r =? uid)) hi) (posts d) <= POSTS_PER_HOUR
  /\ count (inHour (fun r => p_uid r =? uid) hi) (posts d) <= POSTS_PER_USER_PER_HOUR
  /\ count (inHour (fun r => (p_repo r =? repo) && (p_type r === Handoff) && (p_uid r =? uid) && (p_to r === Some to)) hi) (posts d)
     <= HANDOFFS_PER_PAIR_PER_HOUR.
Proof.
  intros Hr Hto. split; [|split]; revert hi; apply (reach_hour _ _ t); try done; clear Hr t d.
  - intros r r' (-> & _ & -> & _)%static_inj. done.
  - intros t d p row Hs Hi HP. js_bool. pose proof (ins_quota _ _ _ _ Hi) as Hq. unfold overQuota in Hq. rewrite Hs in Hq. cbn in Hq.
    js_bool. apply Z.eqb_eq in H, H0. subst. by rewrite (ins_repo _ _ _ _ Hi), (ins_uid _ _ _ _ Hi).
  - intros r r' (_ & _ & -> & _)%static_inj. done.
  - intros t d p row Hs Hi HP. js_bool. pose proof (ins_quota _ _ _ _ Hi) as Hq. unfold overQuota in Hq. rewrite Hs in Hq. cbn in Hq.
    js_bool. apply Z.eqb_eq in HP. subst. by rewrite (ins_uid _ _ _ _ Hi).
  - intros r r' (-> & _ & -> & _ & -> & -> & _)%static_inj. done.
  - intros t d p row Hs Hi HP. js_bool. pose proof (ins_loop _ _ _ _ Hi) as Hq. unfold handoffLoop in Hq. rewrite Hs in Hq. cbn in Hq.
    apply Z.eqb_eq in H, H1. subst. rewrite (ins_type _ _ _ _ Hi) in H2. rewrite (ins_to _ _ _ _ Hi) in H0. rewrite H2, H0 in Hq. cbn in Hq.
    rewrite (proj2 (Str.truthy_iff to) Hto) in Hq. cbn in Hq. apply Z.leb_gt in Hq.
    by rewrite (ins_repo _ _ _ _ Hi), (ins_uid _ _ _ _ Hi).
Qed.

Lemma hourly_limits_witness :
  let d := exec 60 (OAdd "u2" (aClaim 1 "b")) (exec 50 (OAdd "u1" (aClaim 1 "a")) empty) in
  count (inHour (fun r => (p_repo r =? 7) && (p_uid r =? 1)) 70) (posts d) <= POSTS_PER_HOUR
  /\ count (inHour (fun r => p_uid r =? 1) 70) (posts d) <= POSTS_PER_USER_PER_HOUR
  /\ count (inHour (fun r => (p_repo r =? 7) && (p_type r === Handoff) && (p_uid r =? 1) && (p_to r === Some "bob")) 70) (posts d)
     <= HANDOFFS_PER_PAIR_PER_HOUR.
Proof.
  cbv zeta. apply (hourly_limits 60 _ 7 1 "bob" 70); [|done]. apply (reach_step noSystem 50); [|done|lia].
  apply (reach_step noSystem 0); [constructor|done|lia].
Defined.

(** ** The status of a task and the log of its updates *)

Definition logOf (id : string) (d : board) : list UpdateKind := map u_kind (updatesOf id d).
#[global] Arguments logOf : simpl never.

(** The abstract task: a log of updates is legal when each one leaves a state [NEXT] allows,
    and leads to a status. *)
Definition advance (s : option WorkStatus) (k : UpdateKind) : option WorkStatus :=
  match s with
  | Some s => if existsb (fun s' => s' === s) (NEXT k).1 then Some (NEXT k).2 else None
  | None => None
  end.
Definition replay (log : list UpdateKind) : option WorkStatus := foldl advance (Some Open) log.

Definition rowOk (log : list UpdateKind) (r : PostRow) : Prop :=
  match p_status r with
  | Some Closed => p_closed r <> None /\ exists s, replay log = Some s /\ s <> Review /\ s <> Done
  | o => replay log = Some (default Open o) /\ (p_closed r <> None <-> o = Some Done)
  end.

Record tasksOk (d : board) : Prop := TasksOk {
  tk_rows : forall r, r ∈ posts d -> p_type r = Task -> rowOk (logOf (p_id r) d) r;
  tk_updates : forall u, u ∈ updates d -> exists r, r ∈ posts d /\ p_id r = u_task u /\ p_type r = Task }.

Lemma rowOk_ext log r r' : p_status r' = p_status r -> p_closed r' = p_closed r -> rowOk log r -> rowOk log r'.
Proof. unfold rowOk. by intros -> ->. Qed.

(** A row that is not closed has the status of its log, and is neither [done] nor [closed]. *)
Lemma rowOk_open log r : rowOk log r -> p_closed r = None ->
  replay log = Some (default Open (p_status r)) /\ p_status r <> Some Done /\ p_status r <> Some Closed.
Proof.
  unfold rowOk. intros H Hc. destruct (p_status r) as [[]|]; rewrite Hc in H; naive_solver.
Qed.

Lemma replay_log_snoc log k : replay (log ++ [k]) = advance (replay log) k.
Proof. unfold replay. by rewrite foldl_app. Qed.

Lemma replay_not_closed log : replay log <> Some Closed.
Proof.
  destruct log as [|k log] using rev_ind; [done|]. rewrite replay_log_snoc. unfold advance.
  destruct (replay log); [|done]. destruct (existsb _ _); [|done]. by destruct k.
Qed.

Lemma replay_done log : replay log = Some Done -> exists pre, log = pre ++ [USubmitted; UAccepted].
Proof.
  destruct log as [|k log _] using rev_ind; [done|]. rewrite replay_log_snoc. intros H.
  assert (k = UAccepted /\ replay log = Some Review) as [-> Hr].
  { unfold advance in H. destruct (replay log) as [s|]; [|done]. by destruct k, s. }
  destruct log as [|k log _] using rev_ind; [done|]. rewrite replay_log_snoc in Hr. exists log.
  assert (k = USubmitted) as ->; [|by rewrite <- app_assoc].
  unfold advance in Hr. destruct (replay log) as [s|]; [|done]. by destruct k, s.
Qed.

Lemma tasksOk_update d p f : (forall r, static (f r) = static r) ->
  (forall r, r ∈ posts d -> p r = true -> p_type r = Task -> rowOk (logOf (p_id r) d) r -> rowOk (logOf (p_id r) d) (f r)) ->
  tasksOk d -> tasksOk (setPosts (update p f (posts d)) d).
Proof.
  intros Hf Hok [Hr Hu]. split; cbn.
  - intros r' (r & Hin & ->)%elem_update Ht. destruct (p r) eqn:Ep; [|by apply Hr].
    destruct (static_inj _ _ (Hf r)) as (_ & _ & _ & _ & Ety & _ & Eid & _). rewrite Ety in Ht.
    change (logOf _ _) with (logOf (p_id (f r)) d). rewrite Eid. apply Hok; auto.
  - intros u (r & Hin & Hid & Hty)%Hu. exists (if p r then f r else r). split; [apply elem_update; eauto|].
    destruct (p r); [|done]. by destruct (static_inj _ _ (Hf r)) as (_ & _ & _ & _ & -> & _ & -> & _).
Qed.

Lemma tasksOk_event d repo t k id ty ti a : tasksOk d -> tasksOk (recordEvent repo t k id ty ti a d).
Proof. intros [Hr Hu]. split; [exact Hr|exact Hu]. Qed.

Lemma log_fresh d id : tasksOk d -> id ∉ map p_id (posts d) -> logOf id d = [].
Proof.
  intros [_ Hu] Hid. unfold logOf, updatesOf. destruct (List.filter _ _) as [|u l] eqn:E; [done|].
  assert (u ∈ List.filter (fun u => u_task u === id) (updates d)) as Hin by (rewrite E; by left).
  apply Arr.elem_of_filter in Hin as [Hk (r & Hr & Hi & _)%Hu]. js_bool. destruct Hid. rewrite <- Hi. by apply list_elem_of_fmap_2.
Qed.

Lemma tasksOk_add t uuid p d : tasksOk d -> NoDup (map p_id (posts d)) -> tasksOk (exec t (OAdd uuid p) d).
Proof.
  intros Hd Hn. cbn [exec]. destruct (addPost_added t uuid p d) as [|ex e ti b _ _|row Hid Hi]; [done|by apply tasksOk_update|].
  apply tasksOk_event. pose proof Hd as [Hr Hu]. split; cbn.
  - intros r [Hin|Hin]%elem_of_app Ht; [by apply Hr|]. apply list_elem_of_singleton in Hin. subst r.
    change (logOf _ _) with (logOf (p_id row) d). rewrite (log_fresh d) by (done || apply Hi). unfold rowOk.
    destruct (ins_open _ _ _ _ Hi) as (_ & -> & ->). split; [done|]. naive_solver.
  - intros u (r & Hin & H)%Hu. exists r. split; [|done]. apply elem_of_app. by left.
Qed.

Lemma tasksOk_close t id repo actor res d : tasksOk d -> tasksOk (exec t (OClose id repo actor res) d).
Proof.
  intros Hd. cbn [exec]. unfold closePost. destruct (List.find _ _) as [row|]; [|done]. apply tasksOk_event, tasksOk_update; [done| |done].
  intros r _ Hc Ht Hok. unfold closable in Hc. js_bool. destruct (p_closed r) eqn:Ec; [done|].
  apply rowOk_open in Hok as (Hl & Hd' & Hc'); [|done]. unfold rowOk. cbn. rewrite Ht. rewrite bool_decide_eq_true_2 by done.
  split; [done|]. exists (default Open (p_status r)). split; [done|].
  rewrite Ht in *. cbn in *. destruct (p_status r) as [[]|]; cbn in *; try done; naive_solver.
Qed.

Lemma tasksOk_purge t d : tasksOk d -> tasksOk (exec t OPurge d).
Proof.
  intros [Hr Hu]. split; cbn.
  - intros r Hin Ht. apply Hr; [|done]. apply elem_remove in Hin as [[[Hin _]%elem_remove _]%elem_remove _]. done.
  - intros u (r & Hin & Hid & Ht)%Hu. exists r. split; [|done].
    rewrite !elem_remove. unfold purgeable, deadClaim. rewrite Ht. cbn. done.
Qed.

Lemma logOf_add u id d : logOf id (addUpdate u d) = logOf id d ++ (if u_task u === id then [u_kind u] else []).
Proof.
  unfold logOf, updatesOf. cbn. rewrite List.filter_app, map_app. cbn. by destruct (u_task u === id).
Qed.

Lemma find_task d id task : NoDup (map p_id (posts d)) ->
  List.find (fun r => (p_id r === id) && (p_type r === Task)) (posts d) = Some task ->
  task ∈ posts d /\ p_id task = id /\ p_type task = Task /\ forall r, r ∈ posts d -> p_id r = id -> r = task.
Proof.
  intros Hn [Hin H]%Arr.find_elem. js_bool. split; [done|]. split; [done|]. split; [done|]. intros r Hr E. by apply (same_id_same_row (posts d)).
Qed.

(** The update and the new status of its task go in together. *)
Lemma tasksOk_advance d u f task : NoDup (map p_id (posts d)) -> tasksOk d ->
  task ∈ posts d -> p_id task = u_task u -> p_type task = Task -> (forall r, static (f r) = static r) ->
  rowOk (logOf (u_task u) d ++ [u_kind u]) (f task) ->
  tasksOk (setPosts (update (fun r => p_id r === u_task u) f (posts d)) (addUpdate u d)).
Proof.
  intros Hn [Hr Hu] Hin Hid Hty Hf Hok. split; cbn.
  - intros r' (r & Hr0 & ->)%elem_update Ht. change (logOf ?i _) with (logOf i (addUpdate u d)). rewrite logOf_add.
    destruct (p_id r === u_task u) eqn:E; js_bool.
    + assert (r = task) as -> by (apply (same_id_same_row (posts d)); congruence).
      destruct (static_inj _ _ (Hf task)) as (_ & _ & _ & _ & _ & _ & -> & _). rewrite Hid, bool_decide_eq_true_2 by done. done.
    + rewrite bool_decide_eq_false_2 by congruence. rewrite app_nil_r. by apply Hr.
  - intros u' [Hu'|Hu']%elem_of_app.
    + apply Hu in Hu' as (r & Hr0 & Hi & Ht). exists (if p_id r === u_task u then f r else r). split; [apply elem_update; eauto|].
      destruct (_ === _); [|done]. by destruct (static_inj _ _ (Hf r)) as (_ & _ & _ & _ & -> & _ & -> & _).
    + apply list_elem_of_singleton in Hu' as ->. exists (f task). split; [apply elem_update; exists task; split; [done|]|].
      * by rewrite bool_decide_eq_true_2.
      * by destruct (static_inj _ _ (Hf task)) as (_ & _ & _ & _ & -> & _ & -> & _).
Qed.

Lemma rowOk_set log s r : s <> Closed -> s <> Done -> p_closed r = None -> replay log = Some s -> rowOk log (setStatus s r).
Proof. intros Hc Hd Hr Hl. unfold rowOk. cbn. rewrite Hl, Hr. destruct s; try done; (split; [done|]; naive_solver). Qed.

Lemma rowOk_done log t uid res r : replay log = Some Done -> rowOk log (close t uid res (Some Done) r).
Proof. intros Hl. unfold rowOk. cbn. by rewrite Hl. Qed.

Lemma exec_tasks t o d : NoDup (map p_id (posts d)) -> tasksOk d -> tasksOk (exec t o d).
Proof.
  intros Hn Hd. destruct o as [uuid p|id repo actor|id repo actor res|uuid id k body actor|].
  - by apply tasksOk_add.
  - cbn. unfold releaseClaim. destruct (List.find _ _); [|done]. by apply tasksOk_event, tasksOk_update.
  - by apply tasksOk_close.
  - cbn [exec]. unfold advanceWork. destruct (List.find _ _) as [task|] eqn:Ef; [|done].
    destruct (negb (isNull _)) eqn:Ec; [done|]. destruct (negb (existsb _ _)) eqn:Es; [done|].
    destruct (_ && _); [done|]. destruct (existsb _ (updates d)); [done|]. cbn [committed].
    apply find_task in Ef as (Hin & Hid & Hty & _); [|done].
    pose proof (tk_rows _ Hd task Hin Hty) as Hrow. rewrite Hid in Hrow.
    destruct (p_closed task) eqn:Ecl; [done|]. destruct (rowOk_open _ _ Hrow Ecl) as (Hl & _ & _).
    assert (replay (logOf id d ++ [k]) = Some (NEXT k).2) as Hl'.
    { rewrite replay_log_snoc, Hl. unfold advance. apply negb_false_iff in Es. by rewrite Es. }
    destruct ((NEXT k).2 === Done) eqn:Ed; js_bool; [apply tasksOk_event|];
      (apply (tasksOk_advance d (mkUpdate _ uuid _ k _ actor t) _ task); [done|done|done|done|done|done|]).
    + apply rowOk_done. by rewrite <- Ed.
    + apply rowOk_set; [by destruct k|done|done|done].
  - by apply tasksOk_purge.
Qed.

Lemma reach_tasks ok t d : reach ok t d -> tasksOk d.
Proof.
  induction 1 as [|t t' o d Hr IH _ _]; [split; intros ? H; by apply elem_of_nil in H|].
  apply exec_tasks; [by eapply reach_ids|done].
Qed.

(** ** The protocol of requested work

    What one operation does to a task: nothing; an update of the protocol, logged; or a
    close by hand, which only leaves states in which work may go on. *)
Definition statusOf (r : PostRow) : WorkStatus := default Open (p_status r).

Inductive moves (o : op) (id : string) : WorkStatus -> WorkStatus -> list UpdateKind -> Prop :=
| stays s : moves o id s s []
| advances uuid k body actor s : o = OAdvance uuid id k body actor -> s ∈ (NEXT k).1 -> moves o id s (NEXT k).2 [k]
| closed_by_hand repo actor res s : o = OClose id repo actor res -> s ∈ [Open; Working; Changes] -> moves o id s Closed [].

Definition movesTo (o : op) (d d' : board) (r' : PostRow) : Prop :=
  (p_id r' ∉ map p_id (posts d)) /\ statusOf r' = Open /\ logOf (p_id r') d' = []
  \/ exists r ks, r ∈ posts d /\ p_id r = p_id r' /\ p_type r = Task
       /\ moves o (p_id r') (statusOf r) (statusOf r') ks /\ logOf (p_id r') d' = logOf (p_id r') d ++ ks.

(** Rows updated in a way that keeps the status and what is fixed. *)
Lemma moves_update o d d' p f r' : (forall r, static (f r) = static r) -> (forall r, p_status (f r) = p_status r) ->
  updates d' = updates d -> r' ∈ update p f (posts d) -> p_type r' = Task -> movesTo o d d' r'.
Proof.
  intros Hf Hs Hu (r & Hr & ->)%elem_update Ht. right. exists r, [].
  assert (E : logOf (p_id r) d' = logOf (p_id r) d) by (unfold logOf, updatesOf; by rewrite Hu).
  destruct (p r); [|rewrite app_nil_r, E; split_and!; [done..|by constructor|done]].
  destruct (static_inj _ _ (Hf r)) as (_ & _ & _ & _ & Ety & _ & Eid & _). rewrite Ety in Ht. unfold statusOf. rewrite Eid, Hs, app_nil_r, E.
  split_and!; [done..|by constructor|done].
Qed.

Lemma exec_moves t o d r' : NoDup (map p_id (posts d)) -> tasksOk d -> r' ∈ posts (exec t o d) -> p_type r' = Task ->
  movesTo o d (exec t o d) r'.
Proof.
  intros Hn Hd Hr Ht.
  assert (Hsame : forall r d', r ∈ posts d -> p_type r = Task -> updates d' = updates d -> movesTo o d d' r).
  { intros r d' Hin Hty Hu. right. exists r, []. rewrite app_nil_r. unfold logOf, updatesOf. rewrite Hu. split_and!; try done. by constructor. }
  destruct o as [uuid p|id repo actor|id repo actor res|uuid id k body actor|]; cbn [exec] in *.
  - revert Hr. destruct (addPost_added t uuid p d) as [|ex e ti b _ _|row Hid Hi]; intros Hr; [by apply Hsame| |].
    + by (eapply moves_update; [| | |exact Hr|exact Ht]).
    + cbn in Hr. apply elem_of_app in Hr as [Hr|Hr]; [by apply Hsame|]. apply list_elem_of_singleton in Hr as ->. left.
      destruct (ins_open _ _ _ _ Hi) as (_ & _ & Hst). split; [apply Hi|]. unfold statusOf. rewrite Hst. split; [done|].
      change (logOf _ _) with (logOf (p_id row) d). apply log_fresh; [done|apply Hi].
  - unfold releaseClaim in *. destruct (List.find _ _); [|by apply Hsame]. by (eapply moves_update; [| | |exact Hr|exact Ht]).
  - unfold closePost in *. destruct (List.find _ _) as [row|]; [|by apply Hsame]. cbn in Hr |- *. apply elem_update in Hr as (r & Hr & ->).
    destruct (closable _ _ _ _) eqn:Ec; [|by apply Hsame]. cbn in Ht. unfold closable in Ec. rewrite Ht in Ec. js_bool. right.
    exists r, []. cbn [p_id close]. rewrite app_nil_r, Ht, bool_decide_eq_true_2 by done. split_and!; try done.
    apply (closed_by_hand _ _ repo actor res); [done|].
    pose proof (tk_rows _ Hd r Hr Ht) as Hrow. destruct (p_closed r) eqn:Ecl; [done|].
    destruct (rowOk_open _ _ Hrow Ecl) as (_ & H1' & H2'). cbn in *. unfold statusOf.
    destruct (p_status r) as [[]|]; cbn in *; try done; set_solver.
  - unfold advanceWork in *. destruct (List.find _ _) as [task|] eqn:Ef; [|by apply Hsame].
    destruct (negb (isNull _)); [by apply Hsame|]. destruct (negb (existsb _ _)) eqn:Es; [by apply Hsame|].
    destruct (_ && _); [by apply Hsame|]. destruct (existsb _ (updates d)); [by apply Hsame|]. cbn [committed] in *.
    apply find_task in Ef as (Hin & <- & Hty & Hone); [|done].
    apply negb_false_iff, existsb_exists in Es as (st & Hst & Es). js_bool. apply list_elem_of_In in Hst.
    set (u := mkUpdate _ uuid _ k _ actor t) in *.
    assert (Hlog : forall i d', updates d' = updates d ++ [u] -> logOf i d' = logOf i d ++ (if p_id task === i then [k] else [])).
    { intros i d' Hu. rewrite <- (logOf_add u). unfold logOf, updatesOf. by rewrite Hu. }
    set (st' := if (NEXT k).2 === Done then _ else _) in *.
    assert (Hu : updates st' = updates d ++ [u]) by (by unfold st'; destruct (_ === Done)).
    assert (Hr' : exists r, r ∈ posts d /\ p_id r = p_id r' /\ p_type r = Task /\
      if p_id r === p_id task then statusOf r' = (NEXT k).2 else statusOf r' = statusOf r).
    { revert Hr. unfold st'. destruct ((NEXT k).2 === Done) eqn:Ed; js_bool; cbn; intros (r & Hr & ->)%elem_update; exists r;
        destruct (p_id r === p_id task) eqn:E; cbn in Ht |- *; rewrite ?E; by split_and!. }
    destruct Hr' as (r & Hr0 & Ei & Hty' & Hs). right. exists r, (if p_id task === p_id r' then [k] else []).
    split_and!; [done..| |by apply Hlog]. rewrite <- Ei. destruct (p_id r === p_id task) eqn:E; js_bool.
    + rewrite bool_decide_eq_true_2 by done. rewrite Hs. rewrite (Hone r Hr0 E). by apply (advances _ _ uuid k body actor).
    + rewrite bool_decide_eq_false_2 by congruence. rewrite Hs. by constructor.
  - apply Hsame; [|done|done]. eapply elem_of_submseteq; [exact Hr|]. apply sublist_submseteq, purge_posts_sublist.
Qed.

(** C35: the board refines the requested-work protocol.  In every reachable board the log of a
    task's updates is a legal run of the protocol, and the status of the task is the one the
    log leads to, unless the task was closed by hand, which is what its status then says and
    which can only happen to work that is neither under review nor done; a task is [done] only
    when the last two updates are its submission and its acceptance.  And every operation takes
    each task by a step of the protocol: a new one is open with an empty log, an update of the
    protocol goes into the log with the move it stands for, a close by hand logs nothing, and
    nothing else changes a status or a log. *)
Theorem task_refines_log t d r : reach anyOp t d -> r ∈ posts d -> p_type r = Task ->
  (exists s, replay (logOf (p_id r) d) = Some s
    /\ (p_status r <> Some Closed -> s = statusOf r /\ (p_closed r <> None <-> s = Done))
    /\ (p_status r = Some Closed -> p_closed r <> None /\ s <> Review /\ s <> Done)
    /\ (s = Done -> exists pre, logOf (p_id r) d = pre ++ [USubmitted; UAccepted]))
  /\ forall t' o r', r' ∈ posts (exec t' o d) -> p_type r' = Task -> movesTo o d (exec t' o d) r'.
Proof.
  intros Hr Hin Ht. split; [|intros t' o r'; apply exec_moves; [by eapply reach_ids|by eapply reach_tasks]].
  pose proof (tk_rows _ (reach_tasks _ _ _ Hr) r Hin Ht) as Hrow.
  assert (forall s, replay (logOf (p_id r) d) = Some s -> s = Done -> exists pre, logOf (p_id r) d = pre ++ [USubmitted; UAccepted]) as Hdone.
  { intros s E ->. by apply replay_done. }
  unfold rowOk in Hrow. unfold statusOf. destruct (p_status r) as [[]|]; cbn in *;
    try (destruct Hrow as [Hl Hc]; eexists; split; [exact Hl|]; split; [|split; [done|by apply Hdone]]; intros _; split; [done|]; naive_solver).
  destruct Hrow as (Hc & s & Hl & Hnr & Hnd). exists s. naive_solver.
Qed.

Definition aTask : NewPost := mkNew 7 "acme/app" Task "ship it" "" None None "ada" 1 "web" None false.
Definition anAgent : Actor := mkActor 2 "bob" "codex".
Definition shipped : board :=
  exec 70 (OAdvance "w2" "t" UAccepted "" (mkActor 1 "ada" "web"))
    (exec 60 (OAdvance "w1" "t" USubmitted "ready" anAgent) (exec 50 (OAdd "t" aTask) empty)).

Lemma task_refines_log_witness : exists r, p_status r = Some Done
  /\ exists s, replay (logOf (p_id r) shipped) = Some s
    /\ (p_status r <> Some Closed -> s = statusOf r /\ (p_closed r <> None <-> s = Done))
    /\ (p_status r = Some Closed -> p_closed r <> None /\ s <> Review /\ s <> Done)
    /\ (s = Done -> exists pre, logOf (p_id r) shipped = pre ++ [USubmitted; UAccepted]).
Proof.
  eexists (mkPost "t" _ _ Task _ _ _ _ _ _ _ _ _ _ _ _ _ (Some Done)). split; [done|].
  apply (task_refines_log 70 shipped (mkPost "t" _ _ Task _ _ _ _ _ _ _ _ _ _ _ _ _ (Some Done))); [|vm_compute; apply list_elem_of_here|done].
  apply (reach_step anyOp 60); [|done|lia]. apply (reach_step anyOp 50); [|done|lia].
  apply (reach_step anyOp 0); [constructor|done|lia].
Defined.

(** ** How many updates a task takes *)

Definition fewUpdates (d : board) : Prop := forall id,
  Z.of_nat (length (logOf id d)) <= MAX_UPDATES_PER_TASK + (if replay (logOf id d) === Some Review then 0 else 1).

Lemma updatesOf_log id d : length (updatesOf id d) = length (logOf id d).
Proof. unfold logOf. by rewrite length_map. Qed.

Lemma exec_few t o d : NoDup (map p_id (posts d)) -> tasksOk d -> fewUpdates d -> fewUpdates (exec t o d).
Proof.
  intros Hn Hd Hf. destruct o as [uuid p|id repo actor|id repo actor res|uuid id k body actor|]; try exact Hf.
  - cbn [exec]. by destruct (addPost_added t uuid p d).
  - cbn. unfold releaseClaim. by destruct (List.find _ _).
  - cbn. unfold closePost. by destruct (List.find _ _).
  - cbn [exec]. unfold advanceWork. destruct (List.find _ _) as [task|] eqn:Ef; [|done].
    destruct (negb (isNull _)) eqn:Ec; [done|]. destruct (negb (existsb _ _)) eqn:Es; [done|].
    destruct (_ && _) eqn:Eq; [done|]. destruct (existsb _ (updates d)); [done|]. cbn [committed].
    apply find_task in Ef as (Hin & Hid & Hty & _); [|done].
    pose proof (tk_rows _ Hd task Hin Hty) as Hrow. rewrite Hid in Hrow. destruct (p_closed task) eqn:Ecl; [done|].
    destruct (rowOk_open _ _ Hrow Ecl) as (Hl & _ & _). apply negb_false_iff in Es. rewrite updatesOf_log in Eq.
    intros id'. set (u := mkUpdate _ uuid id k _ actor t).
    replace (logOf id' _) with (logOf id' (addUpdate u d)) by (by destruct (_ === Done)).
    rewrite logOf_add. cbn [u_task u_kind u]. destruct (id === id') eqn:Ei; js_bool; [|rewrite app_nil_r; apply Hf].
    rewrite length_app, replay_log_snoc, Hl. cbn [length]. specialize (Hf (p_id task)). rewrite Hl in Hf. unfold advance. rewrite Es.
    unfold MAX_UPDATES_PER_TASK in *.
    destruct k, (default Open (p_status task)); cbn in Es, Eq |- *; try done; rewrite ?Z.leb_gt in Eq; repeat case_bool_decide; try done; lia.
Qed.

(** A task never has more than 201 updates, 200 while it is under review, and one that is
    full and not under review is stuck: no update of any kind is taken any more, a submission
    being refused for the very quota. *)
Theorem updates_bounded t d r : reach anyOp t d -> r ∈ posts d -> p_type r = Task ->
  Z.of_nat (length (updatesOf (p_id r) d)) <= MAX_UPDATES_PER_TASK + 1
  /\ (p_closed r = None -> p_status r <> Some Review -> MAX_UPDATES_PER_TASK <= Z.of_nat (length (updatesOf (p_id r) d)) ->
      forall t' uuid kind body actor,
        advanceWork t' uuid (p_id r) kind body actor d =
          Ok (if (kind === UProgress) || (kind === USubmitted) then UpdateQuota else WrongState, d)).
Proof.
  intros Hr Hin Hty. split.
  - assert (fewUpdates d) as Hf.
    { clear -Hr. induction Hr as [|t t' o d Hr IH _ _]; [done|]. apply exec_few; [by eapply reach_ids|by eapply reach_tasks|done]. }
    specialize (Hf (p_id r)). rewrite updatesOf_log. destruct (_ === _) in Hf; lia.
  - intros Hc Hs Hq t' uuid kind body actor. unfold advanceWork.
    destruct (List.find _ _) as [task|] eqn:Ef; [|apply (Arr.find_none _ _ r) in Ef; [|done]; cbn beta in Ef; rewrite !bool_decide_eq_true_2 in Ef by done; done].
    apply find_task in Ef as (_ & Hid & _ & Hu); [|by eapply reach_ids]. rewrite <- (Hu r Hin eq_refl).
    rewrite Hc. cbn [isNull negb]. apply Z.leb_le in Hq. rewrite Hq.
    pose proof (tk_rows _ (reach_tasks _ _ _ Hr) r Hin Hty) as Hrow.
    destruct (rowOk_open _ _ Hrow Hc) as (_ & Hd & Hcl).
    destruct kind, (p_status r) as [[]|]; cbn in *; done.
Qed.

(** A task after two hundred notes. *)
Definition noted (d : board) (i : nat) : board := exec 60 (OAdvance (Str.showZ (Z.of_nat i)) "t" UProgress "" anAgent) d.
Definition full : board := foldl noted (exec 60 (OAdd "t" aTask) empty) (seq 0 200).

Lemma reach_noted d l : reach anyOp 60 d -> reach anyOp 60 (foldl noted d l).
Proof. revert d. induction l as [|i l IH]; intros d Hd; [done|]. apply IH. by apply (reach_step anyOp 60). Qed.

Lemma updates_bounded_witness : forall uuid,
  advanceWork 61 uuid "t" USubmitted "ready" anAgent full = Ok (UpdateQuota, full).
Proof.
  intros uuid. eapply (updates_bounded 60 full (mkPost "t" _ _ Task _ _ _ _ _ _ _ _ _ _ _ _ _ (Some Working))).
  - apply reach_noted. apply (reach_step anyOp 0); [constructor|done|lia].
  - vm_compute. apply list_elem_of_here.
  - done.
  - done.
  - done.
  - vm_compute. done.
Defined.

(** ** One event for everything that happens *)

Definition evCount (k : EventKind) (id : string) (d : board) : Z :=
  count (fun e => (e_kind e === k) && (e_post e === id)) (events d).

#[global] Arguments evCount : simpl never.

(** How often a row says something happened to it. *)
Definition happened (k : EventKind) (r : PostRow) : Z :=
  match k with
  | PostCreated => 1
  | PostClosed => if isNull (p_closed r) then 0 else 1
  | ClaimReleased => if isNull (p_released r) then 0 else 1
  end.

Record eventsOk (d : board) : Prop := EventsOk {
  ev_rows : forall r k, r ∈ posts d -> evCount k (p_id r) d = happened k r;
  ev_posts : forall e, e ∈ events d -> e_post e ∈ map p_id (posts d) }.

Lemma evCount_event k id repo t k' id' ty ti a d :
  evCount k id (recordEvent repo t k' id' ty ti a d) = evCount k id d + (if (k' === k) && (id' === id) then 1 else 0).
Proof. unfold evCount. cbn. rewrite count_app. unfold count at 2. cbn. by destruct (_ && _). Qed.

Lemma evCount_fresh k id d : eventsOk d -> id ∉ map p_id (posts d) -> evCount k id d = 0.
Proof.
  intros [_ He] Hid. unfold evCount, count. destruct (List.filter _ _) as [|e l] eqn:E; [done|].
  assert (e ∈ List.filter (fun e => (e_kind e === k) && (e_post e === id)) (events d)) as Hin by (rewrite E; by left).
  apply Arr.elem_of_filter in Hin as [Hk Hin%He]. by js_bool.
Qed.

Lemma eventsOk_update d p f : (forall r, static (f r) = static r) ->
  (forall r k, r ∈ posts d -> p r = true -> happened k (f r) = happened k r) ->
  eventsOk d -> eventsOk (setPosts (update p f (posts d)) d).
Proof.
  intros Hf Hh [Hr He]. split; cbn.
  - intros r' k (r & Hin & ->)%elem_update. change (evCount ?k ?i _) with (evCount k i d). destruct (p r) eqn:E; [|by apply Hr].
    destruct (static_inj _ _ (Hf r)) as (_ & _ & _ & _ & _ & _ & -> & _). rewrite Hh by done. by apply Hr.
  - intros e Hin%He. rewrite update_ids; [done|]. intros r. by destruct (static_inj _ _ (Hf r)) as (_ & _ & _ & _ & _ & _ & -> & _).
Qed.

(** Closing or releasing one row, with its event. *)
Lemma eventsOk_happens d row p f repo t k ty ti a : NoDup (map p_id (posts d)) -> (forall r, static (f r) = static r) ->
  row ∈ posts d -> (forall r, r ∈ posts d -> p r = true <-> r = row) ->
  (forall k', happened k' (f row) = happened k' row + (if k === k' then 1 else 0)) ->
  eventsOk d -> eventsOk (recordEvent repo t k (p_id row) ty ti a (setPosts (update p f (posts d)) d)).
Proof.
  intros Hn Hf Hrow Hp Hh [Hr He]. assert (forall r, p_id (f r) = p_id r) as Hid.
  { intros r. by destruct (static_inj _ _ (Hf r)) as (_ & _ & _ & _ & _ & _ & -> & _). }
  split; [|cbn; intros e [Hin|Hin]%elem_of_app; rewrite update_ids by done].
  - intros r' k' Hr'. cbn in Hr'. apply elem_update in Hr' as (r & Hin & ->). rewrite evCount_event.
    change (evCount k' ?i _) with (evCount k' i d). destruct (p r) eqn:E.
    + apply Hp in E as ->; [|done]. rewrite Hid, Hr, Hh by done. rewrite (bool_decide_eq_true_2 (p_id row = p_id row)) by done. by rewrite andb_true_r.
    + rewrite Hr by done. rewrite (bool_decide_eq_false_2 (p_id row = p_id r)); [rewrite andb_false_r; lia|].
      intros Ei. apply (same_id_same_row (posts d)) in Ei; [|done..]. subst. by rewrite (proj2 (Hp r Hrow) eq_refl) in E.
  - by apply He.
  - apply list_elem_of_singleton in Hin as ->. exact (list_elem_of_fmap_2 p_id _ _ Hrow).
Qed.

Definition noPurge (o : op) : bool := match o with OPurge => false | _ => true end.

Lemma eventsOk_add t uuid p d : eventsOk d -> eventsOk (exec t (OAdd uuid p) d).
Proof.
  intros Hd. cbn [exec]. destruct (addPost_added t uuid p d) as [|ex e ti b _ _|row Hid Hi]; [done|by apply eventsOk_update|].
  pose proof (ins_fresh _ _ _ _ Hi) as Hfr. destruct (ins_open _ _ _ _ Hi) as (Hnr & Hnc & _). pose proof Hd as [Hr He].
  split; cbn.
  - intros r k [Hin|Hin]%elem_of_app; rewrite evCount_event; change (evCount k ?i _) with (evCount k i d).
    + rewrite Hr by done. rewrite (bool_decide_eq_false_2 (uuid = p_id r)); [rewrite andb_false_r; lia|].
      intros ->. destruct Hfr. rewrite Hid. by apply list_elem_of_fmap_2.
    + apply list_elem_of_singleton in Hin as ->. rewrite evCount_fresh by done. rewrite (bool_decide_eq_true_2 (uuid = p_id row)) by done.
      destruct k; cbn; by rewrite ?Hnr, ?Hnc.
  - rewrite map_app. intros e0 [Hin|Hin]%elem_of_app; apply elem_of_app; [left; by apply He|right].
    apply list_elem_of_singleton in Hin as ->. cbn. rewrite <- Hid. by left.
Qed.

Lemma find_unique (p : PostRow -> bool) id d row : NoDup (map p_id (posts d)) -> (forall r, p r = true -> p_id r = id) ->
  List.find p (posts d) = Some row -> row ∈ posts d /\ p_id row = id /\ p row = true /\ forall r, r ∈ posts d -> p r = true <-> r = row.
Proof.
  intros Hn Hp [Hin Hpr]%Arr.find_elem. split; [done|]. split; [by apply Hp|]. split; [done|]. intros r Hr. split; [|by intros ->].
  intros Hpr'. apply (same_id_same_row (posts d)); try done. rewrite (Hp r), (Hp row); done.
Qed.

Lemma exec_events t o d : NoDup (map p_id (posts d)) -> noPurge o = true -> eventsOk d -> eventsOk (exec t o d).
Proof.
  intros Hn Ho Hd. destruct o as [uuid p|id repo actor|id repo actor res|uuid id k body actor|]; [by apply eventsOk_add| | | |done].
  - cbn. unfold releaseClaim. destruct (List.find _ _) as [row|] eqn:Ef; [|done].
    apply (find_unique _ id) in Ef as (Hin & <- & Hp & Hu); [|done|unfold releasable; intros r H; by js_bool].
    apply eventsOk_happens; try done. intros k'. unfold releasable in Hp. js_bool. destruct (p_released row) eqn:E; [done|].
    destruct k'; unfold happened; rewrite ?E; symmetry; first [reflexivity|apply Z.add_0_r].
  - cbn. unfold closePost. destruct (List.find _ _) as [row|] eqn:Ef; [|done].
    apply (find_unique _ id) in Ef as (Hin & <- & Hp & Hu); [|done|unfold closable; intros r H; by js_bool].
    apply eventsOk_happens; try done. intros k'. unfold closable in Hp. js_bool. destruct (p_closed row) eqn:E; [done|].
    destruct k'; unfold happened; rewrite ?E; symmetry; first [reflexivity|apply Z.add_0_r].
  - cbn [exec]. unfold advanceWork. destruct (List.find _ _) as [task|] eqn:Ef; [|done].
    destruct (negb (isNull _)) eqn:Ec; [done|]. destruct (negb (existsb _ _)) eqn:Es; [done|].
    destruct (_ && _); [done|]. destruct (existsb _ (updates d)); [done|]. cbn [committed]. set (u := mkUpdate _ _ _ _ _ _ _).
    assert (eventsOk (addUpdate u d)) as Hd1 by (destruct Hd; by split).
    apply find_task in Ef as (Hin & <- & Hty & Hu); [|done]. destruct (p_closed task) eqn:Ecl; [done|].
    destruct ((NEXT k).2 === Done); [|by apply eventsOk_update].
    apply eventsOk_happens; try done.
    + intros r Hr. rewrite bool_decide_eq_true. naive_solver.
    + intros k'. destruct k'; unfold happened; rewrite ?Ecl; symmetry; first [reflexivity|apply Z.add_0_r].
Qed.

(** The feed of a board is exact: before a purge, every post has one creation event, one
    closing event if and only if it is closed and one release event if and only if it is a
    released claim; nothing is closed or released twice. *)
Theorem events_exact t d r k : reach noPurge t d -> r ∈ posts d -> evCount k (p_id r) d = happened k r.
Proof.
  intros Hr Hin. assert (eventsOk d) as [Hok _]; [|by apply Hok].
  clear Hin. induction Hr as [|t t' o d Hr IH Ho _]; [split; [intros ? ? H|intros ? H]; by apply elem_of_nil in H|].
  apply exec_events; [by eapply reach_ids|done|done].
Qed.

Lemma events_exact_witness : exists r, p_status r = Some Done /\ evCount PostClosed (p_id r) shipped = happened PostClosed r.
Proof.
  eexists (mkPost "t" _ _ Task _ _ _ _ _ _ _ _ _ _ _ _ _ (Some Done)). split; [done|].
  apply (events_exact 70); [|vm_compute; apply list_elem_of_here].
  apply (reach_step noPurge 60); [|done|lia]. apply (reach_step noPurge 50); [|done|lia].
  apply (reach_step noPurge 0); [constructor|done|lia].
Defined.
