(* ===== verification/BoardApi.v ===== *)
(** * Who may do what on a board: access and the tools

    [access.ts], and the handlers of [mcp.ts] and [routes.ts] that change a board
    ([board_post], [board_ask], [board_release], [board_close], [work_update], the requests,
    the reviews and the decisions of the web application, the submission that ends an
    agent's run).  A handler first reads the post it is about and then commits one operation
    of the store; what it read may be out of date by then, so a step of [api] takes any
    earlier board as the one read. *)

From Stdlib Require Import ZArith Lia Ascii.
From S2P Require Import Prelude Collections Untrusted Board.
Open Scope Z_scope.

(** ** Roles on a repository *)

Inductive RepoRole := Admin | Maintain | Write | Triage | Read | NoRole.
Inductive GitHubErrorKind :=
| Invalid | Unauthorized | RateLimited | Forbidden | Missing | Moved | EmptyRepo | Unprocessable | Unavailable.
#[global] Instance RepoRole_eq_dec : EqDecision RepoRole.
Proof. solve_decision. Defined.
#[global] Instance GitHubErrorKind_eq_dec : EqDecision GitHubErrorKind.
Proof. solve_decision. Defined.

Record RepoAccess := mkAccess { ac_repo : Z; ac_name : string; ac_role : RepoRole }.
#[global] Instance RepoAccess_eq_dec : EqDecision RepoAccess.
Proof. solve_decision. Defined.

Definition canUseBoard (role : RepoRole) : bool := existsb (fun r => r === role) [Admin; Maintain; Write; Triage].
Definition canModerate (role : RepoRole) : bool := existsb (fun r => r === role) [Admin; Maintain].
Definition DEFINITIVE_KINDS : list GitHubErrorKind := [Missing; Forbidden; Moved; Invalid].

(** What a call to GitHub ends in. *)
Inductive answer (A : Type) := Got (a : A) | GitHubError (k : GitHubErrorKind) | OtherError.
Arguments Got {A} a.
Arguments GitHubError {A} k.
Arguments OtherError {A}.

Record RepoPermissions := mkPerms { admin : bool; maintain : bool; push : bool; triage : bool; pull : bool }.

Definition roleFromPermissions (p : option RepoPermissions) : RepoRole :=
  match p with
  | None => NoRole
  | Some p => if admin p then Admin else if maintain p then Maintain else if push p then Write
              else if triage p then Triage else if pull p then Read else NoRole
  end.

(** [github.repo] and [github.collaboratorRole] are GitHub's answers. *)
Definition resolveRepoAccess (repo : answer (Z * string * option RepoPermissions)) (collaboratorRole : answer RepoRole)
    : answer RepoAccess :=
  match repo with
  | Got (id, fullName, perms) =>
      let role := roleFromPermissions perms in
      if canUseBoard role then Got (mkAccess id fullName role)
      else match collaboratorRole with
           | Got role' => Got (mkAccess id fullName role')
           | GitHubError k => if existsb (fun d => d === k) DEFINITIVE_KINDS then Got (mkAccess id fullName role) else GitHubError k
           | OtherError => OtherError
           end
  | GitHubError k => GitHubError k
  | OtherError => OtherError
  end.

(** [SEGMENT] and the names of dots alone. *)
Definition segmentChar (c : ascii) : bool :=
  let n := N_of_ascii c in
  (((48 <=? n) && (n <=? 57)) || ((65 <=? n) && (n <=? 90)) || ((97 <=? n) && (n <=? 122)))%N
  || (c === "_"%char) || (c === "."%char) || (c === "-"%char).
Definition segmentOk (p : string) : bool :=
  allChars segmentChar p && (1 <=? String.length p)%nat && (String.length p <=? 100)%nat
  && negb (allChars (fun c => c === "."%char) p).

Definition assertRepo (repo : string) : answer string :=
  let parts := Str.split "/" repo in
  if (length parts =? 2)%nat && forallb segmentOk parts then Got repo else GitHubError Invalid.

(** ** The cache of access checks

    A [Map] from the person and the lower-cased repository to an answer and its time. *)
Module Checker.
Definition MAX_ENTRIES : nat := 10 * 1000.
#[global] Arguments MAX_ENTRIES : simpl never.

Record entry := mkEntry { at_ : Z; known : RepoAccess + GitHubErrorKind }.
Definition cache := list (string * entry).

Definition keyOf (uid : Z) (repo : string) : string := Str.showZ uid +:+ String (ascii_of_nat 0) (Str.toLowerCase repo).

Definition remember (now : Z) (key : string) (e : RepoAccess + GitHubErrorKind) (c : cache) : cache :=
  let c1 := JMap.set (JMap.delete c key) key (mkEntry now e) in
  if (MAX_ENTRIES <? length c1)%nat then match JMap.keys c1 with k :: _ => JMap.delete c1 k | [] => c1 end else c1.

Definition definitive (k : GitHubErrorKind) : bool := existsb (fun d => d === k) DEFINITIVE_KINDS.

(** [resolved] is what [opts.resolve] answers if it is asked; [now] may have moved by then. *)
Definition check (ttlMs now now' : Z) (uid : Z) (repo : string) (resolved : answer RepoAccess) (c : cache)
    : answer RepoAccess * cache :=
  let key := keyOf uid repo in
  match JMap.get c key with
  | Some hit =>
      if now - at_ hit <? ttlMs then
        match known hit with inr k => (GitHubError k, c) | inl a => (Got a, c) end
      else match resolved with
           | Got a => (Got a, remember now' key (inl a) c)
           | GitHubError k => (GitHubError k, if definitive k then remember now' key (inr k) c else c)
           | OtherError => (OtherError, c)
           end
  | None =>
      match resolved with
      | Got a => (Got a, remember now' key (inl a) c)
      | GitHubError k => (GitHubError k, if definitive k then remember now' key (inr k) c else c)
      | OtherError => (OtherError, c)
      end
  end.

(** A call: when it starts, when GitHub has answered, who asks about what, and the answer. *)
Record call := mkCall { start : Z; done_ : Z; who : Z; what : string; said : answer RepoAccess }.

Definition run (ttlMs : Z) (h : list call) : cache :=
  foldl (fun c k => (check ttlMs (start k) (done_ k) (who k) (what k) (said k) c).2) [] h.

Definition answerOf (ttlMs : Z) (h : list call) (k : call) : answer RepoAccess :=
  (check ttlMs (start k) (done_ k) (who k) (what k) (said k) (run ttlMs h)).1.

(** An entry is GitHub's answer to a call of the history about the same key. *)
Definition justified (h : list call) (key : string) (e : entry) : Prop :=
  exists k, k ∈ h /\ keyOf (who k) (what k) = key /\ done_ k = at_ e
    /\ said k = match known e with inl a => Got a | inr g => GitHubError g end.

Definition sound (h : list call) (c : cache) : Prop := forall key e, JMap.get c key = Some e -> justified h key e.

Lemma justified_mono h h' key e : (forall k, k ∈ h -> k ∈ h') -> justified h key e -> justified h' key e.
Proof. intros Hh (k & Hk & H). exists k. auto. Qed.

Lemma get_remember now key e c key' e' : JMap.get (remember now key e c) key' = Some e' ->
  (key' = key /\ e' = mkEntry now e) \/ JMap.get c key' = Some e'.
Proof.
  assert (JMap.get (JMap.set (JMap.delete c key) key (mkEntry now e)) key' = Some e' ->
    (key' = key /\ e' = mkEntry now e) \/ JMap.get c key' = Some e') as Hs.
  { rewrite JMap.get_set, JMap.get_delete. destruct (decide (key = key')); naive_solver. }
  unfold remember. destruct (_ <? _)%nat; [|done]. destruct (JMap.keys _) as [|k0 ks]; [done|].
  rewrite JMap.get_delete. destruct (decide (k0 = key')); [done|]. exact Hs.
Qed.

Lemma remember_sound h k e c : sound h c -> said k = match e with inl a => Got a | inr g => GitHubError g end ->
  sound (h ++ [k]) (remember (done_ k) (keyOf (who k) (what k)) e c).
Proof.
  intros Hs Hk key e' [[-> ->]|Hg]%get_remember.
  - exists k. split; [apply elem_of_app; right; by left|]. done.
  - eapply justified_mono; [|by apply Hs]. intros ? ?. apply elem_of_app. by left.
Qed.

Lemma check_sound ttl h k c : sound h c ->
  sound (h ++ [k]) (check ttl (start k) (done_ k) (who k) (what k) (said k) c).2.
Proof.
  intros Hs. assert (sound (h ++ [k]) c) as Hkeep.
  { intros key e He. eapply justified_mono; [|by apply Hs]. intros ? ?. apply elem_of_app. by left. }
  unfold check. destruct (JMap.get _ _) as [hit|]; [destruct (_ <? _); [by destruct (known hit)|]|];
    (destruct (said k) as [a|g|] eqn:E; cbn [snd]; [by apply remember_sound| |done];
     destruct (definitive g); [by apply remember_sound|done]).
Qed.

Lemma run_sound ttl h : sound h (run ttl h).
Proof.
  induction h as [|k h IH] using rev_ind; [done|]. unfold run. rewrite foldl_app. by apply check_sound.
Qed.

(** An access check never answers for another person or repository and never with an answer
    older than the time to live: what it returns is GitHub's answer to this very call, or to
    an earlier call with the same key that was answered less than [ttlMs] before. *)
Theorem check_fresh ttl h k a : answerOf ttl h k = Got a ->
  said k = Got a
  \/ exists k', k' ∈ h /\ keyOf (who k') (what k') = keyOf (who k) (what k) /\ said k' = Got a /\ start k - done_ k' < ttl.
Proof.
  unfold answerOf, check. destruct (JMap.get _ _) as [hit|] eqn:E.
  - destruct (_ <? _) eqn:Ht; js_bool.
    + destruct (run_sound ttl h _ _ E) as (k' & Hk' & Hkey & Hat & Hsaid). intros Hr. right. exists k'.
      rewrite Hat. destruct (known hit); naive_solver.
    + destruct (said k) as [a'|g|]; cbn; naive_solver.
  - destruct (said k) as [a'|g|]; cbn; naive_solver.
Qed.

Definition asked (t uid : Z) (repo : string) (role : RepoRole) : call := mkCall t (t + 1) uid repo (Got (mkAccess 7 "acme/app" role)).

Lemma check_fresh_witness : exists k', k' ∈ [asked 10 1 "acme/app" Write] /\ said k' = Got (mkAccess 7 "acme/app" Write) /\ 50 - done_ k' < 60.
Proof.
  destruct (check_fresh 60 [asked 10 1 "acme/app" Write] (asked 50 1 "Acme/App" NoRole) (mkAccess 7 "acme/app" Write) eq_refl)
    as [H|(k' & Hk' & _ & Hs & Ht)]; [discriminate H|]. exists k'. split; [exact Hk'|]. split; [exact Hs|exact Ht].
Defined.

Lemma remember_length now key e c : (length c <= MAX_ENTRIES)%nat -> (length (remember now key e c) <= MAX_ENTRIES)%nat.
Proof.
  intros Hc. unfold remember. set (c1 := JMap.set _ _ _).
  assert (length c1 <= S MAX_ENTRIES)%nat as H1.
  { unfold c1. rewrite JMap.set_new by (rewrite JMap.get_delete; by rewrite decide_True by done).
    rewrite length_app. unfold JMap.delete. pose proof (List.filter_length_le (fun p : string * entry => p.1 !== key) c). cbn. lia. }
  destruct (MAX_ENTRIES <? length c1)%nat eqn:E; [|apply Nat.ltb_ge in E; lia].
  destruct c1 as [|[k0 v0] c2]; cbn [JMap.keys map fst]; [cbn; lia|]. unfold JMap.delete. cbn [List.filter fst].
  rewrite bool_decide_eq_true_2 by done. cbn [negb]. pose proof (List.filter_length_le (fun p : string * entry => p.1 !== k0) c2). cbn in H1. lia.
Qed.

Lemma run_bounded ttl h : (length (run ttl h) <= MAX_ENTRIES)%nat.
Proof.
  induction h as [|k h IH] using rev_ind; [apply Nat.le_0_l|]. unfold run in *. rewrite foldl_app. cbn [foldl].
  unfold check at 1. destruct (JMap.get _ _) as [hit|]; [destruct (_ <? _); [by destruct (known hit)|]|];
    (destruct (said k) as [a|g|]; cbn [snd]; [by apply remember_length| |done];
     destruct (definitive g); [by apply remember_length|done]).
Qed.
End Checker.

(** ** The handlers

    [check] and [repoById] are what the access checker and GitHub answer during the call. *)
Record Principal := mkPrincipal { pr_uid : Z; pr_login : string; pr_client : string }.
Definition actorOf (p : Principal) : Actor := mkActor (pr_uid p) (pr_login p) (pr_client p).
(** The person herself, in the web application. *)
Definition webActor (p : Principal) : Actor := mkActor (pr_uid p) (pr_login p) "web".

Record answers := mkAnswers { check : string -> answer RepoAccess; repoById : Z -> answer string }.

(** [access.check(uid, login, assertRepo(repo))] *)
Definition checkRepo (g : answers) (repo : string) : answer RepoAccess :=
  match assertRepo repo with Got r => check g r | GitHubError k => GitHubError k | OtherError => OtherError end.

(** [BoardDenied], a [GitHubError] that reaches [guard], and any other error. *)
Inductive stopped := Denied | GitHubFailed (k : GitHubErrorKind) | Broken.

Definition boardAccess (g : answers) (repo : string) : RepoAccess + stopped :=
  match checkRepo g repo with
  | Got a => if canUseBoard (ac_role a) then inl a else inr Denied
  | GitHubError k => if existsb (fun d => d === k) [Missing; Forbidden; Moved] then inr Denied else inr (GitHubFailed k)
  | OtherError => inr Broken
  end.

Definition accessToPost (g : answers) (p : PostRow) : RepoAccess + stopped :=
  match repoById g (p_repo p) with
  | Got current =>
      match boardAccess g current with
      | inl a => if ac_repo a =? p_repo p then inl a else inr Denied
      | inr e => inr e
      end
  | GitHubError k => if (k === Missing) || (k === Forbidden) then inr Denied else inr (GitHubFailed k)
  | OtherError => inr Broken
  end.

(** [canRead] of [routes.ts]: a repository that moved is looked up by its number. *)
Definition canRead (g : answers) (repoName : string) (repoId : Z) : bool :=
  let allowed (name : string) :=
    match checkRepo g name with
    | Got a => Got ((ac_repo a =? repoId) && canUseBoard (ac_role a))
    | GitHubError k => GitHubError k
    | OtherError => OtherError
    end in
  match allowed repoName with
  | Got b => b
  | GitHubError Moved =>
      match repoById g repoId with
      | Got name => match allowed name with Got b => b | _ => false end
      | _ => false
      end
  | _ => false
  end.

(** What a caller is told. *)
Inductive reply :=
| Text (msg : string)
| Failure (msg : string)
| AlreadyClaimed (by_ : Post)
| Stopped (e : stopped)
| Http (code : Z) (error : string).

Definition typeName (t : PostType) : string :=
  match t with Task => "task" | Claim => "claim" | Finding => "finding" | Handoff => "handoff" | Decision => "decision" end.

(** An error thrown by the store is caught by [guard] as well. *)
Definition finish {A} (d : board) (r : outcome (A * board)) (k : A -> reply) : reply * board :=
  match r with Ok (a, d') => (k a, d') | Throw _ => (Stopped Broken, d) end.

Definition NO_LOOP (to : string) : string :=
  "You have handed off to " +:+ to +:+ " " +:+ Str.showZ HANDOFFS_PER_PAIR_PER_HOUR +:+ " times in the last hour on this repository. Finish the work or ask a human, rather than passing it back again.".

Definition orNull (s : string) : option string := if Str.truthy s then Some s else None.

Definition boardPost (t : Z) (uuid : string) (g : answers) (me : Principal) (repo : string) (type : PostType) (title body : string)
    (target to : option string) (ttl : option Z) (d : board) : reply * board :=
  match boardAccess g repo with
  | inr e => (Stopped e, d)
  | inl a =>
      let cleanTitle := cleanLine title 200 in
      let cleanTarget := match target with Some x => if Str.truthy x then cleanLine x 500 else "" | None => "" end in
      let cleanTo := match to with Some x => if Str.truthy x then cleanLine x 200 else "" | None => "" end in
      if negb (Str.truthy cleanTitle) then (Failure "A post needs a title.", d)
      else if (type === Claim) && negb (Str.truthy cleanTarget) then (Failure "A claim needs a target.", d)
      else if (type === Handoff) && negb (Str.truthy cleanTo) then (Failure "A handoff needs a recipient in to.", d)
      else
        finish d (addPost t uuid
                    (mkNew (ac_repo a) (ac_name a) type cleanTitle body (orNull cleanTarget) (orNull cleanTo)
                       (pr_login me) (pr_uid me) (pr_client me) ttl false) d)
          (fun result =>
             match result with
             | Added p renewed =>
                 Text ((if renewed : bool then "Renewed " else "Posted ") +:+ typeName (p_type (post p)) +:+ " " +:+ p_id (post p) +:+ ".")
             | HandoffLoop => Failure (NO_LOOP cleanTo)
             | PostQuota => Failure ("Post limit reached: " +:+ Str.showZ POSTS_PER_HOUR +:+ " posts an hour per repository.")
             | ClaimQuota => Failure ("Claim limit reached: " +:+ Str.showZ ACTIVE_CLAIMS_PER_USER +:+ " active claims per repository. Release one first.")
             | Conflict c => AlreadyClaimed c
             end)
  end.

Definition boardAsk (t : Z) (uuid : string) (g : answers) (me : Principal) (repo question context : string) (d : board) : reply * board :=
  match boardAccess g repo with
  | inr e => (Stopped e, d)
  | inl a =>
      finish d (addPost t uuid
                  (mkNew (ac_repo a) (ac_name a) Decision question context None None (pr_login me) (pr_uid me) (pr_client me) None false) d)
        (fun result =>
           match result with
           | Added p _ => Text ("Asked " +:+ pr_login me +:+ " for a ruling. It is post " +:+ p_id (post p) +:+ " and it is waiting in their Decisions queue. Do not wait for it now; check board_inbox next session.")
           | PostQuota => Failure "You have raised too many posts recently. Wait before asking again."
           | _ => Failure "The board refused this decision. Try again shortly."
           end)
  end.

(** [seen] is the board at the time of [getPost]. *)
Definition boardRelease (t : Z) (g : answers) (me : Principal) (id : string) (seen d : board) : reply * board :=
  match getPost id seen with
  | None => (Stopped Denied, d)
  | Some p0 =>
      let p := post p0 in
      match accessToPost g p with
      | inr e => (Stopped e, d)
      | inl a =>
          if p_type p !== Claim then (Failure "No claim with that id.", d)
          else
            let own := (p_uid p =? pr_uid me) && (p_client p === pr_client me) in
            if negb own && negb (canModerate (ac_role a))
            then (Failure "Only the claimant, or a maintainer or admin, can release this claim.", d)
            else if negb (isNull (p_released p)) then (Failure "That claim was already released.", d)
            else if default 0 (p_expires p) <=? t then (Failure "That claim already expired.", d)
            else
              let (ok, d') := releaseClaim t (p_id p) (p_repo p) (actorOf me) d in
              (if ok then Text ("Released claim " +:+ p_id p +:+ ".") else Failure "That claim was already released.", d')
      end
  end.

Definition boardClose (t : Z) (g : answers) (me : Principal) (id : string) (seen d : board) : reply * board :=
  match getPost id seen with
  | None => (Stopped Denied, d)
  | Some p0 =>
      let p := post p0 in
      match accessToPost g p with
      | inr e => (Stopped e, d)
      | inl a =>
          if p_type p === Claim then (Failure "Claims are released with board_release, not closed.", d)
          else if p_type p === Decision then
            (Failure "A decision stays open until the person you asked answers it. You cannot close it, and you must not act as though it were decided.", d)
          else if (p_type p === Task) && (status p0 === Some Review) then
            (Failure "That task is waiting on its requester's review. Only they can accept it or ask for changes.", d)
          else
            let own := (p_type p !== Task) && (p_uid p =? pr_uid me) in
            if negb own && negb (canModerate (ac_role a))
            then (Failure "Only maintainers and admins can close tasks; findings and handoffs can also be withdrawn by their author.", d)
            else if negb (isNull (p_closed p)) then (Failure "That post is already closed.", d)
            else
              let (ok, d') := closePost t (p_id p) (p_repo p) (actorOf me) None d in
              (if ok then Text ("Closed " +:+ typeName (p_type p) +:+ " " +:+ p_id p +:+ ".") else Failure "That post is already closed.", d')
      end
  end.

Definition statusName (s : WorkStatus) : string :=
  match s with Open => "open" | Working => "working" | Review => "review" | Changes => "changes" | Done => "done" | Closed => "closed" end.

(** [z.enum(["progress", "submitted"])] *)
Definition workUpdate (t : Z) (uuid : string) (g : answers) (me : Principal) (id : string) (submitted : bool) (note : string) (seen d : board)
    : reply * board :=
  match getPost id seen with
  | None => (Stopped Denied, d)
  | Some p =>
      match accessToPost g (post p) with
      | inr e => (Stopped e, d)
      | inl _ =>
          if p_type (post p) !== Task then (Failure "That id is not a task. Tasks come from board_read.", d)
          else
            finish d (advanceWork t uuid id (if submitted then USubmitted else UProgress) note (actorOf me) d)
              (fun result =>
                 match result with
                 | WrongState =>
                     Failure ("That task is " +:+ statusName (default Open (status p)) +:+ " and cannot take a "
                                +:+ (if submitted then "submitted" else "progress") +:+ " update now. If it is in review, wait for the requester.")
                 | UpdateQuota => Failure "That task has too many updates already. Submit it for review instead."
                 | NotFound => Failure "That task is closed."
                 | WorkOk _ =>
                     Text (if submitted then "Submitted task " +:+ id +:+ " for review. The requester will accept it or ask for changes; check board_inbox."
                           else "Recorded progress on task " +:+ id +:+ ".")
                 end)
      end
  end.

(** [POST /api/app/requests] up to the run it starts. *)
Definition requestTask (t : Z) (uuid : string) (g : answers) (me : Principal) (repo title body : string) (d : board) : reply * board :=
  if negb (Str.truthy (Str.trim title)) then (Http 400 "bad_fields", d)
  else
    match checkRepo g repo with
    | Got a =>
        if negb (canUseBoard (ac_role a)) then (Http 404 "no_access", d)
        else
          match addPost t uuid (mkNew (ac_repo a) (ac_name a) Task title body None None (pr_login me) (pr_uid me) "web" None false) d with
          | Ok (Added p _, d') => (Text (p_id (post p)), d')
          | Ok (_, d') => (Http 429 "rate_limited", d')
          | Throw _ => (Http 404 "no_access", d)
          end
    | _ => (Http 404 "no_access", d)
    end.

(** [POST /api/app/work/review] *)
Definition review (t : Z) (uuid : string) (g : answers) (me : Principal) (id : string) (accept : bool) (note : string) (seen d : board)
    : reply * board :=
  if negb accept && negb (Str.truthy (Str.trim note)) then (Http 400 "needs_note", d)
  else
    match getPost id seen with
    | None => (Http 404 "not_found", d)
    | Some p0 =>
        let p := post p0 in
        if (p_type p !== Task) || negb (p_uid p =? pr_uid me) || negb (canRead g (p_repoName p) (p_repo p)) then (Http 404 "not_found", d)
        else
          finish d (advanceWork t uuid (p_id p) (if accept then UAccepted else UChanges) note (webActor me) d)
            (fun result =>
               match result with
               | WorkOk s => Text (statusName s)
               | WrongState => Http 409 "not_in_review"
               | NotFound => Http 409 "not_found"
               | UpdateQuota => Http 409 "update_quota"
               end)
    end.

(** [POST /api/app/decisions] *)
Definition decide_ (t : Z) (g : answers) (me : Principal) (id ans : string) (seen d : board) : reply * board :=
  if negb (Str.truthy (Str.trim (cleanText ans MAX_ENTRY_BODY))) then (Http 400 "bad_fields", d)
  else
    match getPost id seen with
    | None => (Http 404 "not_found", d)
    | Some p0 =>
        let p := post p0 in
        if (p_type p !== Decision) || negb (p_uid p =? pr_uid me) then (Http 404 "not_found", d)
        else if negb (canRead g (p_repoName p) (p_repo p)) then (Http 404 "not_found", d)
        else
          let (ok, d') := closePost t (p_id p) (p_repo p) (webActor me) (Some ans) d in
          (if ok then Text "ok" else Http 409 "already_answered", d')
    end.

(** The end of [executeRun] for a request: the answer of the run is submitted. *)
Definition submitRun (t : Z) (uuid : string) (me : Principal) (id answer_ : string) (seen d : board) : reply * board :=
  match getPost id seen with
  | Some p =>
      if isNull (p_closed (post p)) && existsb (fun s => s === default Open (status p)) [Open; Working; Changes]
      then finish d (advanceWork t uuid id USubmitted (clamp answer_ (8 * 1000)) (actorOf me) d) (fun _ => Text "")
      else (Text "", d)
  | None => (Text "", d)
  end.

(** ** Calls *)

Inductive call :=
| CPost (uuid repo : string) (type : PostType) (title body : string) (target to : option string) (ttl : option Z)
| CAsk (uuid repo question context : string)
| CRelease (id : string)
| CClose (id : string)
| CWork (uuid id : string) (submitted : bool) (note : string)
| CRequest (uuid repo title body : string)
| CReview (uuid id : string) (accept : bool) (note : string)
| CDecide (id ans : string)
| CSubmit (uuid id ans : string)
| CPurge.

Definition AGENT_POST_TYPES : list PostType := [Claim; Finding; Handoff].

Definition handle (t : Z) (g : answers) (me : Principal) (c : call) (seen d : board) : reply * board :=
  match c with
  | CPost uuid repo type title body target to ttl =>
      if existsb (fun k => k === type) AGENT_POST_TYPES then boardPost t uuid g me repo type title body target to ttl d
      else (Failure "invalid arguments", d)
  | CAsk uuid repo q ctx => boardAsk t uuid g me repo q ctx d
  | CRelease id => boardRelease t g me id seen d
  | CClose id => boardClose t g me id seen d
  | CWork uuid id sub note => workUpdate t uuid g me id sub note seen d
  | CRequest uuid repo title body => requestTask t uuid g me repo title body d
  | CReview uuid id acc note => review t uuid g me id acc note seen d
  | CDecide id ans => decide_ t g me id ans seen d
  | CSubmit uuid id ans => submitRun t uuid me id ans seen d
  | CPurge => (Text "", purge t d)
  end.

(** The id a call may give to a new post. *)
Definition newId (c : call) : option string :=
  match c with
  | CPost uuid _ _ _ _ _ _ _ | CAsk uuid _ _ _ | CRequest uuid _ _ _ => Some uuid
  | _ => None
  end.

(** The boards so far, newest first.  [randomUUID] never repeats an id of a post. *)
Inductive api : Z -> list board -> Prop :=
| api_start t : api t [empty]
| api_call t t' g me c seen d h :
    api t (d :: h) -> t <= t' -> seen ∈ d :: h ->
    (forall uuid d0, newId c = Some uuid -> d0 ∈ d :: h -> uuid ∉ map p_id (posts d0)) ->
    api t' ((handle t' g me c seen d).2 :: d :: h).

(** ** What a handler asks of the store *)

Definition hasBoard (g : answers) (repo : Z) : Prop :=
  exists name a, check g name = Got a /\ canUseBoard (ac_role a) = true /\ ac_repo a = repo.

Variant asks (t : Z) (g : answers) (me : Principal) (c : call) (seen : board) : op -> Prop :=
| asks_add uuid p : newId c = Some uuid -> hasBoard g (n_repo p) -> n_uid p = pr_uid me -> n_system p = false ->
    asks t g me c seen (OAdd uuid p)
| asks_release p : p ∈ posts seen -> hasBoard g (p_repo p) -> asks t g me c seen (ORelease (p_id p) (p_repo p) (actorOf me))
| asks_close p : p ∈ posts seen -> hasBoard g (p_repo p) -> p_type p <> Claim -> p_type p <> Decision ->
    asks t g me c seen (OClose (p_id p) (p_repo p) (actorOf me) None)
| asks_work uuid p k note : p ∈ posts seen -> hasBoard g (p_repo p) -> (k = UProgress \/ k = USubmitted) ->
    asks t g me c seen (OAdvance uuid (p_id p) k note (actorOf me))
| asks_submit uuid id ans note : c = CSubmit uuid id ans -> asks t g me c seen (OAdvance uuid id USubmitted note (actorOf me))
| asks_review uuid p k note : p ∈ posts seen -> hasBoard g (p_repo p) -> p_type p = Task -> p_uid p = pr_uid me ->
    asks t g me c seen (OAdvance uuid (p_id p) k note (webActor me))
| asks_decide p ans : p ∈ posts seen -> hasBoard g (p_repo p) -> p_type p = Decision -> p_uid p = pr_uid me ->
    asks t g me c seen (OClose (p_id p) (p_repo p) (webActor me) (Some ans))
| asks_purge : c = CPurge -> asks t g me c seen OPurge.

Lemma checkRepo_has g repo a : checkRepo g repo = Got a -> canUseBoard (ac_role a) = true -> hasBoard g (ac_repo a).
Proof. unfold checkRepo. destruct (assertRepo repo) as [r| |]; [|done|done]. intros H Hu. by exists r, a. Qed.

Lemma boardAccess_has g repo a : boardAccess g repo = inl a -> hasBoard g (ac_repo a).
Proof.
  unfold boardAccess. destruct (checkRepo g repo) as [a'|k|] eqn:E; [|by destruct (existsb _ _)|done].
  destruct (canUseBoard (ac_role a')) eqn:Eu; [|done]. intros [= ->]. by eapply checkRepo_has.
Qed.

Lemma accessToPost_has g p a : accessToPost g p = inl a -> hasBoard g (p_repo p).
Proof.
  unfold accessToPost. destruct (repoById g _) as [n|k|]; [|by destruct (_ || _)|done].
  destruct (boardAccess g n) as [a'|] eqn:E; [|done]. destruct (_ =? _) eqn:Ei; [|done]. apply Z.eqb_eq in Ei.
  intros _. rewrite <- Ei. by eapply boardAccess_has.
Qed.

Lemma canRead_has g name id : canRead g name id = true -> hasBoard g id.
Proof.
  assert (forall n a, checkRepo g n = Got a -> (ac_repo a =? id) && canUseBoard (ac_role a) = true -> hasBoard g id) as H.
  { intros n a E [Hi Hu]%andb_true_iff. apply Z.eqb_eq in Hi. subst. by eapply checkRepo_has. }
  unfold canRead. destruct (checkRepo g name) as [a|k|] eqn:E; [by eapply H| |done].
  destruct k; try done. destruct (repoById g id) as [n| |]; [|done|done].
  destruct (checkRepo g n) as [a| |] eqn:E2; [|done|done]. by eapply H.
Qed.

Lemma getPost_elem id d p : getPost id d = Some p -> post p ∈ posts d /\ p_id (post p) = id /\ p = toPost (post p).
Proof.
  unfold getPost. destruct (List.find _ _) as [r|] eqn:E; [|done]. intros [= <-]. apply Arr.find_elem in E as [Hin Hi]. by js_bool.
Qed.

Lemma finish_exec {A} d (r : outcome (A * board)) k : (finish d r k).2 = committed d r.
Proof. by destruct r as [[]|]. Qed.

Ltac refuse := cbn [snd]; left; reflexivity.

Lemma handle_asks t g me c seen d :
  (handle t g me c seen d).2 = d \/ exists o, asks t g me c seen o /\ (handle t g me c seen d).2 = exec t o d.
Proof.
  destruct c as [uuid repo ty ti b tg to ttl|uuid repo q ctx|id|id|uuid id sub note|uuid repo ti b|uuid id acc note|id ans|uuid id ans|];
    cbn [handle].
  - destruct (existsb _ _); [|refuse]. unfold boardPost. destruct (boardAccess g repo) as [a|] eqn:Ea; [|refuse].
    destruct (negb _); [refuse|]. destruct (_ && _); [refuse|]. destruct (_ && _); [refuse|]. rewrite finish_exec. right.
    eexists (OAdd uuid _). split; [|done]. constructor; [done|by eapply boardAccess_has|done|done].
  - unfold boardAsk. destruct (boardAccess g repo) as [a|] eqn:Ea; [|refuse]. rewrite finish_exec. right.
    eexists (OAdd uuid _). split; [|done]. constructor; [done|by eapply boardAccess_has|done|done].
  - unfold boardRelease. destruct (getPost id seen) as [p0|] eqn:Eg; [|refuse]. apply getPost_elem in Eg as (Hin & _).
    destruct (accessToPost g (post p0)) as [a|] eqn:Ea; [|refuse]. apply accessToPost_has in Ea.
    destruct (negb _); [refuse|]. destruct (_ && _); [refuse|]. destruct (negb _); [refuse|]. destruct (_ <=? _); [refuse|].
    right. exists (ORelease (p_id (post p0)) (p_repo (post p0)) (actorOf me)). split; [by constructor|].
    cbn [exec]. by destruct (releaseClaim _ _ _ _ _).
  - unfold boardClose. destruct (getPost id seen) as [p0|] eqn:Eg; [|refuse]. apply getPost_elem in Eg as (Hin & _).
    destruct (accessToPost g (post p0)) as [a|] eqn:Ea; [|refuse]. apply accessToPost_has in Ea.
    destruct (_ === Claim) eqn:E1; [refuse|]. destruct (_ === Decision) eqn:E2; [refuse|]. destruct (_ && _); [refuse|].
    destruct (_ && _); [refuse|]. destruct (negb _); [refuse|]. js_bool.
    right. exists (OClose (p_id (post p0)) (p_repo (post p0)) (actorOf me) None). split; [by constructor|].
    cbn [exec]. by destruct (closePost _ _ _ _ _ _).
  - unfold workUpdate. destruct (getPost id seen) as [p0|] eqn:Eg; [|refuse]. apply getPost_elem in Eg as (Hin & <- & _).
    destruct (accessToPost g (post p0)) as [a|] eqn:Ea; [|refuse]. apply accessToPost_has in Ea.
    destruct (negb _); [refuse|]. rewrite finish_exec. right. eexists (OAdvance uuid _ _ note _). split; [|done].
    apply asks_work; [done|done|]. destruct sub; auto.
  - unfold requestTask. destruct (negb _); [refuse|]. destruct (checkRepo g repo) as [a| |] eqn:Ea; [|refuse|refuse].
    destruct (canUseBoard (ac_role a)) eqn:Eu; [|refuse]. cbn [negb]. right.
    exists (OAdd uuid (mkNew (ac_repo a) (ac_name a) Task ti b None None (pr_login me) (pr_uid me) "web" None false)). split.
    + apply asks_add; [done| |done|done]; by eapply checkRepo_has.
    + cbn [exec]. by destruct (addPost _ _ _ _) as [[[] ?]|].
  - unfold review. destruct (_ && _); [refuse|]. destruct (getPost id seen) as [p0|] eqn:Eg; [|refuse]. apply getPost_elem in Eg as (Hin & _).
    destruct (_ || _) eqn:E; [refuse|]. js_bool. apply Z.eqb_eq in H1. rewrite finish_exec. right.
    eexists (OAdvance uuid _ _ note _). split; [|done]. apply asks_review; [done|by eapply canRead_has|done|done].
  - unfold decide_. destruct (negb _); [refuse|]. destruct (getPost id seen) as [p0|] eqn:Eg; [|refuse]. apply getPost_elem in Eg as (Hin & _).
    destruct (_ || _) eqn:E; [refuse|]. destruct (negb (canRead _ _ _)) eqn:E2; [refuse|]. js_bool. apply Z.eqb_eq in H0. right.
    exists (OClose (p_id (post p0)) (p_repo (post p0)) (webActor me) (Some ans)). split; [apply asks_decide; [done|by eapply canRead_has|done|done]|].
    cbn [exec]. by destruct (closePost _ _ _ _ _ _).
  - unfold submitRun. destruct (getPost id seen) as [p|]; [|refuse]. destruct (_ && _); [|refuse]. rewrite finish_exec. right.
    eexists (OAdvance uuid id USubmitted _ _). split; [|done]. by eapply asks_submit.
  - right. exists OPurge. split; [by constructor|done].
Qed.

(** ** A post keeps its author, type and repository *)

Lemma exec_row t o d r : r ∈ posts (exec t o d) ->
  (exists r0, r0 ∈ posts d /\ static r0 = static r)
  \/ (exists uuid p, o = OAdd uuid p /\ p_id r = uuid /\ (uuid ∉ map p_id (posts d)) /\ inserted t p d r /\ posts (exec t o d) = posts d ++ [r]).
Proof.
  intros Hr. assert (forall l, (map static l) `sublist_of` (map static (posts d)) -> r ∈ l -> exists r0, r0 ∈ posts d /\ static r0 = static r) as Hsub.
  { intros l Hs Hl. assert (static r ∈ map static (posts d)) as (r0 & E & Hr0)%list_elem_of_fmap; [|by exists r0].
    eapply elem_of_submseteq; [|apply sublist_submseteq, Hs]. by apply list_elem_of_fmap_2. }
  pose proof (exec_static t o d) as Hs. destruct o as [uuid p| | | |]; try (left; by apply (Hsub _ Hs)).
  cbn [exec] in *. destruct (addPost_added t uuid p d) as [|ex e ti b _ _|row Hid Hi].
  - left. by exists r.
  - left. eapply Hsub; [|exact Hr]. cbn. by rewrite (update_map static).
  - cbn in Hr. apply elem_of_app in Hr as [Hr|Hr]; [left; by exists r|]. apply list_elem_of_singleton in Hr as ->.
    right. exists uuid, p. split; [done|]. split; [done|]. split; [|done]. rewrite <- Hid. apply Hi.
Qed.

Lemma static_id r r' : static r = static r' -> p_id r = p_id r'.
Proof. intros E. by apply static_inj in E as (_ & _ & _ & _ & _ & _ & -> & _). Qed.

(** An invariant of single boards that the operations the handlers ask for preserve. *)
Lemma api_ids t h : api t h -> forall d, d ∈ h -> NoDup (map p_id (posts d)) /\ tasksOk d.
Proof.
  induction 1 as [t|t t' g me c seen d h Ha IH Ht Hs Hf]; intros d0 Hd0.
  - apply list_elem_of_singleton in Hd0 as ->. split; [constructor|]. split; intros ? H; by apply elem_of_nil in H.
  - apply elem_of_cons in Hd0 as [-> |Hd0]; [|by apply IH]. destruct (IH d (list_elem_of_here _ _)) as [Hn Ht0].
    destruct (handle_asks t' g me c seen d) as [-> |(o & _ & ->)]; [done|]. split; [by apply exec_ids|by apply exec_tasks].
Qed.

Lemma api_agree t d h : api t (d :: h) ->
  forall d0 r0 r, d0 ∈ d :: h -> r0 ∈ posts d0 -> r ∈ posts d -> p_id r0 = p_id r -> static r0 = static r.
Proof.
  remember (d :: h) as l eqn:El. intros Ha. revert d h El. induction Ha as [t|t t' g me c seen d1 h1 Ha IH Ht Hs Hf]; intros d h El.
  - simplify_eq. intros d0 r0 r _ _ Hr. by apply elem_of_nil in Hr.
  - injection El as <- <-. intros d0 r0 r Hd0 Hr0 Hr E.
    apply elem_of_cons in Hd0 as [-> |Hd0].
    { f_equal. apply (same_id_same_row _ _ _ (proj1 (api_ids _ _ (api_call _ _ g me c seen _ _ Ha Ht Hs Hf) _ (list_elem_of_here _ _)))); done. }
    destruct (handle_asks t' g me c seen d1) as [Hd|(o & Ho & Hd)]; rewrite Hd in Hr; [by eapply IH|].
    apply exec_row in Hr as [(r1 & Hr1 & E1)|(uuid & p & -> & Hid & _)].
    + rewrite <- E1. eapply IH; [done|done|done|done|]. rewrite E. symmetry. by apply static_id.
    + inversion Ho; subst. destruct (Hf (p_id r) d0); [done|done|]. rewrite <- E. by apply list_elem_of_fmap_2.
Qed.

(** ** Reviews *)

Lemma exec_updates t o d : updates (exec t o d) = updates d
  \/ exists uuid id k body actor u task, o = OAdvance uuid id k body actor /\ updates (exec t o d) = updates d ++ [u]
       /\ u_task u = id /\ u_kind u = k /\ u_actor u = actor /\ task ∈ posts d /\ p_id task = id /\ p_type task = Task.
Proof.
  destruct o as [uuid p|id repo actor|id repo actor res|uuid id k body actor|]; try (left; done).
  - left. cbn [exec]. by destruct (addPost_added t uuid p d).
  - left. cbn. unfold releaseClaim. by destruct (List.find _ _).
  - left. cbn. unfold closePost. by destruct (List.find _ _).
  - cbn [exec]. unfold advanceWork. destruct (List.find _ _) as [task|] eqn:Ef; [|by left].
    destruct (negb _); [by left|]. destruct (negb _); [by left|]. destruct (_ && _); [by left|].
    destruct (existsb _ (updates d)); [by left|]. cbn [committed]. right. apply Arr.find_elem in Ef as [Hin E]. js_bool.
    exists uuid, (p_id task), k, body, actor. eexists (mkUpdate _ uuid (p_id task) k _ actor t), task.
    split; [done|]. split; [|done]. by destruct ((NEXT k).2 === Done).
Qed.

Definition verdict (k : UpdateKind) : bool := (k === UAccepted) || (k === UChanges).

Lemma asks_verdict t g me c seen uuid id k body actor : asks t g me c seen (OAdvance uuid id k body actor) -> verdict k = true ->
  exists p, p ∈ posts seen /\ p_id p = id /\ p_uid p = pr_uid me /\ actor = webActor me.
Proof. intros Ho Hv. inversion Ho; subst; eauto; unfold verdict in Hv; naive_solver. Qed.

(** Only the person who requested a task rules on its review: however the tools, the web
    application, the agents' runs and the purge interleave, and whatever board a handler had
    read before it committed, an acceptance or a request for changes on a task was made by
    the author of the task, in the web application. *)
Theorem review_by_requester t d h u r : api t (d :: h) -> u ∈ updates d -> verdict (u_kind u) = true ->
  r ∈ posts d -> p_id r = u_task u -> a_uid (u_actor u) = p_uid r /\ a_client (u_actor u) = "web".
Proof.
  remember (d :: h) as l eqn:El. intros Ha. revert d h El u r. induction Ha as [t|t t' g me c seen d1 h1 Ha IH Ht Hs Hf]; intros d h El u r.
  { simplify_eq. intros Hu. by apply elem_of_nil in Hu. }
  injection El as <- <-. destruct (api_ids _ _ Ha d1 (list_elem_of_here _ _)) as [Hn Htk].
  destruct (handle_asks t' g me c seen d1) as [-> |(o & Ho & ->)]; [by eapply IH|]. intros Hu Hv Hr Hid.
  destruct (exec_updates t' o d1) as [Eu|(uuid & id & k & body & actor & u' & task & -> & Eu & E1 & E2 & E3 & _)]; rewrite Eu in Hu;
    destruct (exec_row _ _ _ _ Hr) as [(r0 & Hr0 & E)|(uuid' & p & Eo & Hi & Hfr & _)]; try done.
  - destruct (static_inj _ _ E) as (_ & _ & <- & _ & _ & _ & Ei & _). eapply IH; try done. congruence.
  - apply (tk_updates _ Htk) in Hu as (r1 & Hr1 & Ei & _). destruct Hfr. rewrite <- Hi, Hid, <- Ei. by apply list_elem_of_fmap_2.
  - destruct (static_inj _ _ E) as (_ & _ & <- & _ & _ & _ & Ei & _).
    apply elem_of_app in Hu as [Hu|Hu]; [eapply IH; try done; congruence|]. apply list_elem_of_singleton in Hu as ->. subst.
    destruct (asks_verdict _ _ _ _ _ _ _ _ _ _ Ho Hv) as (p & Hp & Hpid & Hpu & ->). cbn. split; [|done].
    assert (static p = static r0) as (_ & _ & <- & _)%static_inj; [|done]. eapply api_agree; try done. congruence.
Qed.

(** ** Decisions *)

Lemma asks_answer t g me c seen id repo actor ans : asks t g me c seen (OClose id repo actor (Some ans)) ->
  exists p, p ∈ posts seen /\ p_id p = id /\ p_uid p = pr_uid me /\ actor = webActor me.
Proof. intros Ho. inversion Ho; subst; eauto. Qed.

(** A closed decision was answered by the person it was put to. *)
Definition answered (r : PostRow) : Prop :=
  p_type r = Decision -> p_closed r <> None ->
  p_closedBy r = Some (p_uid r) /\ exists s, p_resolution r = Some s /\ Str.truthy (btrimStart s) = true.

Lemma answered_ext r r' : static r = static r' -> p_closed r = p_closed r' -> p_closedBy r = p_closedBy r' ->
  p_resolution r = p_resolution r' -> answered r -> answered r'.
Proof.
  intros E. apply static_inj in E as (_ & _ & E1 & _ & E2 & _). unfold answered. by rewrite E1, E2; intros -> -> ->.
Qed.

(** A decision put to a person is never closed by an agent or a moderator, nor without an
    answer: every closed decision of a board was closed by the person whose agent asked, with
    a text that is not only spaces. *)
Theorem decision_answered_by_owner t d h r : api t (d :: h) -> r ∈ posts d -> p_type r = Decision -> p_closed r <> None ->
  p_closedBy r = Some (p_uid r) /\ exists s, p_resolution r = Some s /\ Str.truthy (btrimStart s) = true.
Proof.
  remember (d :: h) as l eqn:El. intros Ha. revert d h El r. induction Ha as [t|t t' g me c seen d1 h1 Ha IH Ht Hs Hf]; intros d h El r.
  { simplify_eq. intros Hu. by apply elem_of_nil in Hu. }
  injection El as <- <-. destruct (api_ids _ _ Ha d1 (list_elem_of_here _ _)) as [Hn _].
  assert (forall r, r ∈ posts d1 -> answered r) as Hold by (intros r0 Hr0; exact (IH _ _ eq_refl r0 Hr0)).
  destruct (handle_asks t' g me c seen d1) as [-> |(o & Ho & ->)]; [by apply Hold|]. intros Hr.
  change (answered r). revert Hr. destruct o as [uuid p|id repo actor|id repo actor res|uuid id k body actor|]; cbn [exec].
  - destruct (addPost_added t' uuid p d1) as [|ex e ti b _ _|row Hid Hi]; cbn; [by apply Hold| |].
    + intros (r0 & Hr0 & ->)%elem_update. destruct (_ === _); [|by apply Hold]. by apply (answered_ext r0); [..|apply Hold].
    + intros [Hr|Hr]%elem_of_app; [by apply Hold|]. apply list_elem_of_singleton in Hr as ->. intros _.
      by destruct (ins_open _ _ _ _ Hi) as (_ & -> & _).
  - unfold releaseClaim. destruct (List.find _ _); cbn; [|by apply Hold]. intros (r0 & Hr0 & ->)%elem_update.
    destruct (releasable _ _ _); [|by apply Hold]. by apply (answered_ext r0); [..|apply Hold].
  - unfold closePost. destruct (List.find _ _); cbn; [|by apply Hold]. intros (r0 & Hr0 & ->)%elem_update.
    destruct (closable _ _ _ _) eqn:Ec; [|by apply Hold]. intros Hty _. cbn in Hty |- *. unfold closable in Ec. rewrite Hty in Ec. cbn in Ec. js_bool.
    destruct res as [ans|]; [|done]. split; [|by eexists]. f_equal.
    destruct (asks_answer _ _ _ _ _ _ _ _ _ Ho) as (q & Hq & Eq & Hqu & ->).
    assert (static q = static r0) as (_ & _ & <- & _)%static_inj; [by eapply (api_agree _ _ _ Ha seen)|done].
  - unfold advanceWork. destruct (List.find _ _) as [task|] eqn:Ef; [|by apply Hold]. apply find_task in Ef as (_ & <- & Hty & Hu); [|done].
    destruct (negb _); [by apply Hold|]. destruct (negb _); [by apply Hold|]. destruct (_ && _); [by apply Hold|].
    destruct (existsb _ (updates d1)); [by apply Hold|]. cbn [committed].
    destruct (_ === Done); cbn; intros (r0 & Hr0 & ->)%elem_update; (destruct (_ === _) eqn:E; js_bool; [|by apply Hold]);
      (intros Hd; rewrite (Hu r0) in Hd by done; cbn in Hd; congruence).
  - intros Hr. apply Hold. eapply elem_of_submseteq; [exact Hr|]. apply sublist_submseteq, purge_posts_sublist.
Qed.

(** ** Access *)

(** A row an operation wrote is a row of the repository the operation names, or of the task
    it advances. *)
Lemma exec_changed t o d r : NoDup (map p_id (posts d)) -> r ∈ posts (exec t o d) -> (r ∉ posts d) ->
  match o with
  | OAdd _ p => p_repo r = n_repo p
  | ORelease _ repo _ | OClose _ repo _ _ => p_repo r = repo
  | OAdvance _ id _ _ _ => exists r0, r0 ∈ posts d /\ p_id r0 = id /\ p_repo r0 = p_repo r
  | OPurge => False
  end.
Proof.
  intros Hn Hr Hno. destruct o as [uuid p|id repo actor|id repo actor res|uuid id k body actor|]; cbn [exec] in Hr.
  - revert Hr. destruct (addPost_added t uuid p d) as [|ex e ti b Hex _ Hrepo|row Hid Hi]; [done| |]; cbn.
    + intros (r0 & Hr0 & ->)%elem_update. destruct (_ === _) eqn:E; [|done]. js_bool. by rewrite (same_id_same_row (posts d) r0 ex).
    + intros [Hr|Hr]%elem_of_app; [done|]. apply list_elem_of_singleton in Hr as ->. apply Hi.
  - revert Hr. unfold releaseClaim. destruct (List.find _ _); cbn; [|done]. intros (r0 & Hr0 & ->)%elem_update.
    destruct (releasable _ _ _) eqn:E; [|done]. unfold releasable in E. js_bool. by apply Z.eqb_eq.
  - revert Hr. unfold closePost. destruct (List.find _ _); cbn; [|done]. intros (r0 & Hr0 & ->)%elem_update.
    destruct (closable _ _ _ _) eqn:E; [|done]. unfold closable in E. js_bool. by apply Z.eqb_eq.
  - revert Hr. unfold advanceWork. destruct (List.find _ _) as [task|] eqn:Ef; [|done].
    destruct (negb _); [done|]. destruct (negb _); [done|]. destruct (_ && _); [done|]. destruct (existsb _ (updates d)); [done|].
    cbn [committed]. destruct (_ === Done); cbn; intros (r0 & Hr0 & ->)%elem_update;
      (destruct (p_id r0 === id) eqn:E; [|done]; js_bool; by exists r0).
  - destruct Hno. eapply elem_of_submseteq; [exact Hr|]. apply sublist_submseteq, purge_posts_sublist.
Qed.

(** What a submission changes: the status of the very task, while it is worked on. *)
Lemma submission_changed t uuid id body actor d r : NoDup (map p_id (posts d)) ->
  r ∈ posts (exec t (OAdvance uuid id USubmitted body actor) d) -> (r ∉ posts d) ->
  exists r0, r0 ∈ posts d /\ p_id r0 = id /\ p_type r0 = Task /\ p_closed r0 = None
    /\ default Open (p_status r0) ∈ [Open; Working; Changes] /\ r = setStatus Review r0.
Proof.
  intros Hn Hr Hno. cbn [exec] in Hr. revert Hr. unfold advanceWork.
  destruct (List.find _ _) as [task|] eqn:Ef; [|done]. apply Arr.find_elem in Ef as [Hin Hf]. js_bool.
  destruct (p_closed task) eqn:Ec; [done|]. cbn [isNull negb].
  destruct (existsb (fun s => s === default Open (p_status task)) (NEXT USubmitted).1) eqn:Es; cbn [negb]; [|done].
  destruct (_ && _); [done|]. destruct (existsb _ (updates d)); [done|]. cbn. intros (r0 & Hr0 & ->)%elem_update.
  destruct (p_id r0 === p_id task) eqn:E; [|done]. js_bool.
  rewrite (same_id_same_row (posts d) r0 task Hn Hr0 Hin) by done.
  exists task. split_and!; try done. apply existsb_exists in Es as (st & Hst & Es). js_bool. by apply list_elem_of_In.
Qed.

(** What every other call changes. *)
Lemma asked_access t t' g me c seen d h r : api t (d :: h) -> seen ∈ d :: h -> (forall uuid id ans, c <> CSubmit uuid id ans) ->
  r ∈ posts (handle t' g me c seen d).2 -> (r ∉ posts d) -> hasBoard g (p_repo r).
Proof.
  intros Ha Hs Hne Hr Hno. destruct (api_ids _ _ Ha d (list_elem_of_here _ _)) as [Hn _].
  destruct (handle_asks t' g me c seen d) as [E|(o & Ho & E)]; rewrite E in Hr; [done|].
  pose proof (exec_changed t' o d r Hn Hr Hno) as Hc.
  destruct Ho as [uuid p|p|p|uuid p k note Hp|uuid id ans note Hc'|uuid p k note Hp|p ans|]; cbn in Hc; try (by rewrite Hc); try done.
  - destruct Hc as (r0 & Hr0 & Ei & <-). assert (static p = static r0) as (<- & _)%static_inj; [|done].
    by eapply (api_agree _ _ _ Ha seen).
  - by destruct (Hne uuid id ans).
  - destruct Hc as (r0 & Hr0 & Ei & <-). assert (static p = static r0) as (<- & _)%static_inj; [|done].
    by eapply (api_agree _ _ _ Ha seen).
Qed.

(** C17: no post is written to the board of a repository without access to it: a post that a
    call creates or changes belongs to a repository for which the access checker told this
    very call that the person has triage, write, maintain or admin rights.  The one call
    that does not ask is the end of a run, and all it does to the posts is to mark the task
    that the run was started for, still open and being worked on, as waiting for review. *)
Theorem writes_need_access t t' g me c seen d h r : api t (d :: h) -> seen ∈ d :: h ->
  r ∈ posts (handle t' g me c seen d).2 -> (r ∉ posts d) ->
  match c with
  | CSubmit _ id _ => exists r0, r0 ∈ posts d /\ p_id r0 = id /\ p_type r0 = Task /\ p_closed r0 = None
      /\ default Open (p_status r0) ∈ [Open; Working; Changes] /\ r = setStatus Review r0
  | _ => hasBoard g (p_repo r)
  end.
Proof.
  intros Ha Hs Hr Hno. destruct (api_ids _ _ Ha d (list_elem_of_here _ _)) as [Hn _].
  pose proof (asked_access t t' g me c seen d h r Ha Hs) as Hask.
  destruct c as [| | | | | | | |uuid id ans|]; try (apply Hask; [by intros|done|done]).
  cbn [handle] in Hr. unfold submitRun in Hr. destruct (getPost id seen); [|done]. destruct (_ && _); [|done].
  rewrite finish_exec in Hr. by eapply (submission_changed t' uuid).
Qed.

(** ** A day on a board *)

Definition github0 : answers := mkAnswers (fun _ => Got (mkAccess 7 "acme/app" Write)) (fun _ => Got "acme/app").
Definition ada : Principal := mkPrincipal 1 "ada" "claude_code".
Definition bob : Principal := mkPrincipal 2 "bob" "codex".

Definition day1 : board := (handle 50 github0 ada (CRequest "t" "acme/app" "ship it" "") empty empty).2.
Definition day2 : board := (handle 60 github0 bob (CWork "w1" "t" true "ready") day1 day1).2.
Definition day3 : board := (handle 70 github0 ada (CReview "w2" "t" true "") day2 day2).2.
Definition day4 : board := (handle 80 github0 ada (CAsk "q" "acme/app" "may I?" "because") day3 day3).2.
Definition day5 : board := (handle 90 github0 ada (CDecide "q" "yes") day4 day4).2.

Lemma day_api : api 90 [day5; day4; day3; day2; day1; empty].
Proof.
  apply (api_call 80 90 github0 ada (CDecide "q" "yes") day4 day4); [|lia|by left|done].
  apply (api_call 70 80 github0 ada (CAsk "q" "acme/app" "may I?" "because") day3 day3);
    [|lia|by left|intros ? d0 [= <-]; revert d0; apply Forall_forall, (bool_decide_unpack _); vm_compute; exact I].
  apply (api_call 60 70 github0 ada (CReview "w2" "t" true "") day2 day2); [|lia|by left|done].
  apply (api_call 50 60 github0 bob (CWork "w1" "t" true "ready") day1 day1); [|lia|by left|done].
  apply (api_call 0 50 github0 ada (CRequest "t" "acme/app" "ship it" "") empty empty);
    [constructor|lia|by left|intros ? d0 [= <-] Hd0; apply list_elem_of_singleton in Hd0 as ->; apply not_elem_of_nil].
Qed.

Lemma review_by_requester_witness : exists u r, u_kind u = UAccepted /\ u_task u = "t" /\ a_uid (u_actor u) = p_uid r /\ a_client (u_actor u) = "web".
Proof.
  eexists (mkUpdate _ "w2" "t" UAccepted _ (mkActor 1 "ada" "web") _), (mkPost "t" _ _ _ _ _ _ _ _ _ _ _ _ _ _ _ _ _).
  split; [reflexivity|]. split; [reflexivity|].
  eapply (review_by_requester 90 day5); [exact day_api|vm_compute; right; left|reflexivity|vm_compute; left|reflexivity].
Defined.

Lemma decision_answered_by_owner_witness : exists r, p_id r = "q" /\ p_closedBy r = Some (p_uid r)
  /\ exists s, p_resolution r = Some s /\ Str.truthy (btrimStart s) = true.
Proof.
  eexists (mkPost "q" _ _ Decision _ _ _ _ _ _ _ _ _ _ (Some _) _ _ _). split; [reflexivity|].
  eapply (decision_answered_by_owner 90 day5); [exact day_api|vm_compute; right; left|reflexivity|discriminate].
Defined.

Lemma writes_need_access_witness : exists r, p_id r = "f" /\ hasBoard github0 (p_repo r).
Proof.
  eexists (mkPost "f" _ _ Finding _ _ _ _ _ _ _ _ _ _ _ _ _ _). split; [reflexivity|].
  eapply (writes_need_access 90 95 github0 bob (CPost "f" "acme/app" Finding "seen" "it" None None None) day5 day5 [day4; day3; day2; day1; empty]).
  - exact day_api.
  - left.
  - vm_compute. right. right. left.
  - apply (bool_decide_unpack _). vm_compute. exact I.
Defined.
