(* ===== verification/BoardAuth.v ===== *)
(** * Tokens, sign-in codes and the rate limits of the board

    [auth.ts] ([issue], [verify]), [oauth.ts] ([issueCode], [redeemCode]), [limits.ts], the
    token endpoint of [routes.ts], and their tables in [store.ts]: [tokens], [rate_limits] and
    the names of [credentials].  Hashing and sealing are [node:crypto]'s and are parameters;
    so are the random strings. *)

From Stdlib Require Import ZArith Lia Ascii.
From S2P Require Import Prelude Collections Untrusted Board.
Open Scope Z_scope.

Inductive TokenKind := Agent | Session.
#[global] Instance TokenKind_eq_dec : EqDecision TokenKind.
Proof. solve_decision. Defined.

Definition ACTIVE_AGENT_TOKENS_PER_USER : Z := 20.
Definition TOKEN_PREFIX : string := "cb2_".
Definition TOUCH_INTERVAL_MS : Z := 5 * 60000.
Definition CODE_TTL_MS : Z := 2 * 60000.

Record TokenRow := mkToken {
  k_id : string; k_hash : string; k_uid : Z; k_kind : TokenKind; k_client : string;
  k_created : Z; k_expires : Z; k_revoked : option Z; k_used : option Z }.

Record LimitRow := mkLimit { l_start : Z; l_hits : Z; l_window : Z }.

Record db := mkDb { tokens : list TokenRow; limits : list (string * LimitRow); logins : list (Z * string) }.
Definition fresh : db := mkDb [] [] [].

Definition setTokens (l : list TokenRow) (d : db) : db := mkDb l (limits d) (logins d).

(** [revoked_at IS NULL AND expires_at > t] *)
Definition active (t : Z) (r : TokenRow) : bool := isNull (k_revoked r) && (t <? k_expires r).
Definition activeAgent (uid t : Z) (r : TokenRow) : bool := (k_uid r =? uid) && (k_kind r === Agent) && active t r.

(** ** The table of tokens *)

Definition insertToken (t : Z) (row : TokenRow) (d : db) : outcome (bool * db) :=
  if (k_kind row === Agent) && (ACTIVE_AGENT_TOKENS_PER_USER <=? count (activeAgent (k_uid row) t) (tokens d)) then Ok (false, d)
  else if existsb (fun r => (k_id r === k_id row) || (k_hash r === k_hash row)) (tokens d) then Throw "duplicate key"
  else Ok (true, setTokens (tokens d ++ [row]) d).

Definition tokenByHash (hash : string) (d : db) : option TokenRow := List.find (fun r => k_hash r === hash) (tokens d).

Definition touch (t : Z) (r : TokenRow) : TokenRow :=
  mkToken (k_id r) (k_hash r) (k_uid r) (k_kind r) (k_client r) (k_created r) (k_expires r) (k_revoked r) (Some t).
Definition revoke (t : Z) (r : TokenRow) : TokenRow :=
  mkToken (k_id r) (k_hash r) (k_uid r) (k_kind r) (k_client r) (k_created r) (k_expires r) (Some t) (k_used r).

Definition touchToken (id : string) (t : Z) (d : db) : db := setTokens (update (fun r => k_id r === id) (touch t) (tokens d)) d.

Definition activeTokens (t uid : Z) (kind : TokenKind) (d : db) : list TokenRow :=
  Arr.sort (Arr.by_key_desc k_created) (List.filter (fun r => (k_uid r =? uid) && (k_kind r === kind) && active t r) (tokens d)).

Definition revocable (id : string) (uid : Z) (r : TokenRow) : bool := (k_id r === id) && (k_uid r =? uid) && isNull (k_revoked r).
Definition revokeToken (t : Z) (id : string) (uid : Z) (d : db) : bool * db :=
  (0 <? count (revocable id uid) (tokens d), setTokens (update (revocable id uid) (revoke t) (tokens d)) d).

Definition unrevoked (uid : Z) (r : TokenRow) : bool := (k_uid r =? uid) && isNull (k_revoked r).
Definition revokeAllTokens (t uid : Z) (d : db) : Z * db :=
  (count (unrevoked uid) (tokens d), setTokens (update (unrevoked uid) (revoke t) (tokens d)) d).

(** [DELETE FROM tokens WHERE revoked_at < cutoff OR expires_at < cutoff] *)
Definition purgeTokens (t : Z) (d : db) : db :=
  let cutoff := t - RETAIN_EXPIRED_MS in
  setTokens (remove (fun r => before (k_revoked r) cutoff || (k_expires r <? cutoff)) (tokens d)) d.

(** ** Rate limits *)

Definition setLimits (l : list (string * LimitRow)) (d : db) : db := mkDb (tokens d) l (logins d).

(** The upsert of [hit]: a window that has run out starts again. *)
Definition hitRow (t windowMs : Z) (r : option LimitRow) : LimitRow :=
  match r with
  | None => mkLimit t 1 windowMs
  | Some r => if windowMs <=? t - l_start r then mkLimit t 1 windowMs else mkLimit (l_start r) (l_hits r + 1) windowMs
  end.

Definition hit (t : Z) (key : string) (windowMs : Z) (d : db) : Z * db :=
  let r := hitRow t windowMs (JMap.get (limits d) key) in
  (l_hits r, setLimits (JMap.set (limits d) key r) d).

Definition allow (limit t : Z) (key : string) (windowMs : Z) (d : db) : bool * db :=
  let (n, d') := hit t key windowMs d in (n <=? limit, d').

(** [DELETE FROM rate_limits WHERE window_start + GREATEST(window_ms, HOUR_MS) < t] *)
Definition spent (t : Z) (r : LimitRow) : bool := l_start r + Z.max (l_window r) HOUR_MS <? t.
Definition purgeLimits (t : Z) (d : db) : db := setLimits (List.filter (fun p => negb (spent t p.2)) (limits d)) d.

(** ** Issuing and verifying *)

Section crypto.
Variable hashToken : string -> string.

(** [randomBytes(32)] and [randomUUID()] are [secret] and [uuid]. *)
Definition issue (t : Z) (secret uuid : string) (uid : Z) (kind : TokenKind) (client : string) (ttlMs : Z) (d : db)
    : outcome (option (string * TokenRow) * db) :=
  let token := TOKEN_PREFIX +:+ secret in
  let row := mkToken uuid (hashToken token) uid kind client t (t + ttlMs) None None in
  let! (ok, d') := insertToken t row d in Ok (if ok : bool then Some (token, row) else None, d').

(** [.replace(/^Bearer\s+/i, "")] *)
Definition stripBearer (s : string) : string :=
  if Str.startsWith (Str.toLowerCase s) "bearer" then
    match Str.drop 6 s with
    | String c r => if Str.js_space c then Str.trimStart r else s
    | EmptyString => s
    end
  else s.

Definition verify (t : Z) (presented : option string) (kind : TokenKind) (d : db) : option (string * Z * string * string) * db :=
  match presented with
  | None => (None, d)
  | Some p =>
      if negb (Str.truthy p) then (None, d)
      else
        let token := Str.trim (stripBearer p) in
        if negb (Str.startsWith token TOKEN_PREFIX) || (200 <? String.length token)%nat then (None, d)
        else
          match tokenByHash (hashToken token) d with
          | None => (None, d)
          | Some row =>
              if (k_kind row !== kind) || negb (isNull (k_revoked row)) || (k_expires row <=? t) then (None, d)
              else
                match JMap.get (logins d) (k_uid row) with
                | None => (None, d)
                | Some login =>
                    let stale := match k_used row with
                                 | None => true
                                 | Some u => (u =? 0) || (TOUCH_INTERVAL_MS <? t - u)
                                 end in
                    (Some (k_id row, k_uid row, login, k_client row), if stale then touchToken (k_id row) t d else d)
                end
          end
  end.
End crypto.

(** ** The token table over time *)

Inductive top :=
| TInsert (row : TokenRow)
| TTouch (id : string)
| TRevoke (id : string) (uid : Z)
| TRevokeAll (uid : Z)
| TPurge
| TLogin (uid : Z) (login : string)
| TForget (uid : Z)
| THit (key : string) (windowMs : Z)
| TPurgeLimits.

Definition setLogins (l : list (Z * string)) (d : db) : db := mkDb (tokens d) (limits d) l.

Definition texec (t : Z) (o : top) (d : db) : db :=
  match o with
  | TInsert row => match insertToken t row d with Ok (_, d') => d' | Throw _ => d end
  | TTouch id => touchToken id t d
  | TRevoke id uid => (revokeToken t id uid d).2
  | TRevokeAll uid => (revokeAllTokens t uid d).2
  | TPurge => purgeTokens t d
  | TLogin uid login => setLogins (JMap.set (logins d) uid login) d
  | TForget uid => setLogins (JMap.delete (logins d) uid) d
  | THit key w => (hit t key w d).2
  | TPurgeLimits => purgeLimits t d
  end.

Inductive treach : Z -> db -> Prop :=
| treach_fresh t : treach t fresh
| treach_step t t' o d : treach t d -> t <= t' -> treach t' (texec t' o d).

Lemma active_mono t t' r : t <= t' -> active t' r = true -> active t r = true.
Proof. unfold active. intros Ht H. js_bool. rewrite H. cbn. apply Z.ltb_lt. lia. Qed.

Lemma activeAgent_count uid t t' l : t <= t' -> count (activeAgent uid t') l <= count (activeAgent uid t) l.
Proof.
  intros Ht. apply count_mono. intros r _ H. unfold activeAgent in *. js_bool. rewrite !andb_true_iff. repeat split; try done.
  - by apply bool_decide_eq_true_2.
  - by eapply active_mono.
Qed.

(** An operation other than an insertion makes no token active. *)
Lemma texec_active uid t o t' d : t <= t' ->
  count (activeAgent uid t') (tokens (texec t o d)) <= count (activeAgent uid t) (tokens d)
  \/ exists row, tokens (texec t o d) = tokens d ++ [row]
       /\ (activeAgent uid t' row = true -> count (activeAgent uid t) (tokens d) < ACTIVE_AGENT_TOKENS_PER_USER).
Proof.
  intros Ht. pose proof (activeAgent_count uid t t' (tokens d) Ht) as Hm.
  assert (forall q f, (forall r, q r = true -> activeAgent uid t' (f r) = true -> activeAgent uid t' r = true) ->
    count (activeAgent uid t') (update q f (tokens d)) <= count (activeAgent uid t) (tokens d)) as Hu.
  { intros q f Hq. rewrite count_update. etrans; [|exact Hm]. apply count_mono. intros r _. destruct (q r) eqn:E; [by apply Hq|done]. }
  destruct o as [row|id|id uid'|uid'| | | | |]; cbn; try (left; exact Hm).
  - unfold insertToken. destruct (_ && _) eqn:Eq; [by left|]. destruct (existsb _ _); [by left|]. right. exists row. split; [done|].
    unfold activeAgent at 1. intros Ha. js_bool. apply Z.eqb_eq in H. subst. rewrite H1 in Eq. cbn in Eq. by apply Z.leb_gt.
  - left. apply Hu. intros r _. done.
  - left. apply Hu. intros r _. unfold activeAgent, active. cbn. by rewrite !andb_false_r.
  - left. apply Hu. intros r _. unfold activeAgent, active. cbn. by rewrite !andb_false_r.
  - left. etrans; [apply count_sublist, remove_sublist|exact Hm].
Qed.

(** Nobody holds more than twenty agent tokens that work: at any time from the last
    operation on, whatever was issued, used, revoked, forgotten and purged before. *)
Theorem tokens_bounded t d uid t' : treach t d -> t <= t' ->
  count (activeAgent uid t') (tokens d) <= ACTIVE_AGENT_TOKENS_PER_USER.
Proof.
  intros Hr. revert t'. induction Hr as [t|t t1 o d Hr IH Ht]; intros t' Ht'; [done|].
  destruct (texec_active uid t1 o t' d Ht') as [H|(row & -> & Hrow)]; [specialize (IH t1 Ht); lia|].
  rewrite count_app. pose proof (activeAgent_count uid t1 t' (tokens d) Ht') as Hm.
  specialize (IH t1 Ht). unfold count at 2. cbn. destruct (activeAgent uid t' row); cbn; [|lia]. specialize (Hrow eq_refl). lia.
Qed.

Definition aToken (id hash : string) (uid : Z) : TokenRow := mkToken id hash uid Agent "codex" 10 1000 None None.

Lemma tokens_bounded_witness :
  count (activeAgent 1 60) (tokens (texec 50 (TRevoke "a" 1) (texec 40 (TInsert (aToken "b" "hb" 1)) (texec 30 (TInsert (aToken "a" "ha" 1)) fresh))))
    <= ACTIVE_AGENT_TOKENS_PER_USER.
Proof.
  apply (tokens_bounded 50); [|lia]. apply (treach_step 40); [|lia]. apply (treach_step 30); [|lia]. apply (treach_step 0); [constructor|lia].
Defined.

(** ** Revocation *)

Lemma texec_hashes t o d : NoDup (map k_hash (tokens d)) -> NoDup (map k_hash (tokens (texec t o d))).
Proof.
  intros Hd. destruct o as [row|id|id uid'|uid'| | | | |]; cbn; try done; try (by rewrite update_map).
  - unfold insertToken. destruct (_ && _); [done|]. destruct (existsb _ _) eqn:E; [done|]. cbn. rewrite map_app.
    apply NoDup_app. split; [done|]. split; [|apply NoDup_singleton]. intros x Hx Hx'. apply list_elem_of_singleton in Hx'. subst x.
    apply list_elem_of_fmap in Hx as (r & Er & Hr). rewrite Arr.existsb_false in E. specialize (E r Hr). by js_bool.
  - eapply sublist_NoDup; [exact Hd|]. apply fmap_sublist, remove_sublist.
Qed.

Lemma treach_hashes t d : treach t d -> NoDup (map k_hash (tokens d)).
Proof. induction 1; [constructor|by apply texec_hashes]. Qed.

(** No row with this hash opens anything. *)
Definition dead (hash : string) (d : db) : Prop := forall r, r ∈ tokens d -> k_hash r = hash -> k_revoked r <> None.

Definition reissues (hash : string) (o : top) : bool := match o with TInsert row => k_hash row === hash | _ => false end.

Lemma dead_update hash q f d : (forall r, k_hash (f r) = k_hash r) -> (forall r, k_revoked r <> None -> k_revoked (f r) <> None) ->
  dead hash d -> dead hash (setTokens (update q f (tokens d)) d).
Proof.
  intros Hh Hr Hd r' (r & Hin & ->)%elem_update. destruct (q r); [|by apply Hd]. rewrite Hh. intros E. apply Hr. by apply Hd.
Qed.

Lemma texec_dead hash t o d : reissues hash o = false -> dead hash d -> dead hash (texec t o d).
Proof.
  intros Ho Hd. destruct o as [row|id|id uid'|uid'| | | | |]; cbn; try exact Hd; try (by apply dead_update).
  - unfold insertToken. destruct (_ && _); [done|]. destruct (existsb _ _); [done|].
    intros r [Hr|Hr]%elem_of_app; [by apply Hd|]. apply list_elem_of_singleton in Hr as ->. intros <-. cbn in Ho. by js_bool.
  - intros r [Hr _]%elem_remove. by apply Hd.
Qed.

Lemma dead_verify hashToken t p kind d : dead (hashToken (Str.trim (stripBearer p))) d -> (verify hashToken t (Some p) kind d).1 = None.
Proof.
  intros Hd. unfold verify. destruct (negb _); [done|]. destruct (_ || _); [done|]. destruct (tokenByHash _ _) as [row|] eqn:E; [|done].
  apply Arr.find_elem in E as [Hin E]. js_bool. specialize (Hd row Hin E). destruct (k_revoked row); [|done]. cbn. by rewrite orb_true_r.
Qed.

(** Revocation is final: once a token is revoked, presenting it is refused for ever, whatever
    else is issued, used, revoked, purged or signed in afterwards (as long as the same token
    is not drawn a second time). *)
Theorem revoked_for_good hashToken t d row t1 ops t2 p kind : treach t d ->
  tokenByHash (hashToken (Str.trim (stripBearer p))) d = Some row ->
  forallb (fun o => negb (reissues (k_hash row) o.2)) ops = true ->
  (verify hashToken t2 (Some p) kind
     (foldl (fun d o => texec o.1 o.2 d) (revokeToken t1 (k_id row) (k_uid row) d).2 ops)).1 = None.
Proof.
  intros Hr Hrow Hops. apply Arr.find_elem in Hrow as [Hin E]. js_bool. apply dead_verify. rewrite <- E.
  assert (dead (k_hash row) (revokeToken t1 (k_id row) (k_uid row) d).2) as Hd.
  { intros r' (r & Hr' & ->)%elem_update Eh. destruct (revocable _ _ r) eqn:Ev; [done|].
    assert (r = row) as ->.
    { by apply (same_key k_hash (tokens d)); [eapply treach_hashes|..]. }
    unfold revocable in Ev. rewrite bool_decide_eq_true_2, Z.eqb_refl in Ev by done. cbn in Ev. by destruct (k_revoked row). }
  revert Hd. generalize (revokeToken t1 (k_id row) (k_uid row) d).2. induction ops as [|[t0 o] ops IH]; intros d0 Hd; [done|].
  cbn in Hops. apply andb_true_iff in Hops as [Ho Hops]. apply negb_true_iff in Ho. apply (IH Hops). by apply texec_dead.
Qed.

Lemma revoked_for_good_witness :
  (verify (fun s => s) 90 (Some "Bearer  cb2_x") Agent
     (foldl (fun d o => texec o.1 o.2 d)
        (revokeToken 60 "a" 1 (texec 50 (TInsert (aToken "a" "cb2_x" 1)) (texec 40 (TLogin 1 "ada") fresh))).2
        [(70, TTouch "a"); (80, TInsert (aToken "b" "cb2_y" 1))])).1 = None.
Proof.
  apply (revoked_for_good (fun s => s) 50 (texec 50 (TInsert (aToken "a" "cb2_x" 1)) (texec 40 (TLogin 1 "ada") fresh)) (aToken "a" "cb2_x" 1));
    [|vm_compute; reflexivity|vm_compute; reflexivity].
  apply (treach_step 40); [|lia]. apply (treach_step 0); [constructor|lia].
Defined.

(** ** Sign-in codes *)

Record CodeGrant := mkGrant {
  g_uid : Z; g_client : string; g_redirect : string; g_challenge : string; g_expires : Z; g_nonce : string }.

Definition verifierChar (c : ascii) : bool :=
  let n := N_of_ascii c in
  (((48 <=? n) && (n <=? 57)) || ((65 <=? n) && (n <=? 90)) || ((97 <=? n) && (n <=? 122)))%N
  || existsb (fun x => x === c) ["-"%char; "."%char; "_"%char; "~"%char].
Definition VERIFIER (s : string) : bool :=
  allChars verifierChar s && (43 <=? String.length s)%nat && (String.length s <=? 128)%nat.

Section codes.
Variable sha256 : string -> string.
Variable unseal : string -> option CodeGrant.

Definition fingerprint (clientId : string) : string := Str.take 22 (sha256 clientId).

(** What [issueCode] seals. *)
Definition issueCode (t uid : Z) (clientId redirectUri challenge nonce : string) : CodeGrant :=
  mkGrant uid (fingerprint clientId) redirectUri challenge (t + CODE_TTL_MS) nonce.

Definition redeemCode (t : Z) (code clientId redirectUri verifier : string) : option (Z * string) :=
  match unseal code with
  | None => None
  | Some g =>
      if (g_expires g <=? t) || (g_client g !== fingerprint clientId) || (g_redirect g !== redirectUri) then None
      else if negb (VERIFIER verifier) then None
      else if sha256 verifier !== g_challenge g then None
      else Some (g_uid g, g_nonce g)
  end.

Definition codeKey (nonce : string) : string := "oauth-code:" +:+ nonce.

(** The token endpoint up to the credential: the person a code signs in, once. *)
Definition redeem (t : Z) (code clientId redirectUri verifier : string) (d : db) : option Z * db :=
  match redeemCode t code clientId redirectUri verifier with
  | None => (None, d)
  | Some (uid, nonce) =>
      let (n, d') := hit t (codeKey nonce) (CODE_TTL_MS * 2) d in
      (if 1 <? n then None else Some uid, d')
  end.

(** The rest of it: at the limit of active tokens the oldest one of the same client goes. *)
Definition oauthToken (hashToken : string -> string) (t : Z) (secret1 uuid1 secret2 uuid2 : string) (ttlMs : Z)
    (clientName code clientId redirectUri verifier : string) (d : db) : outcome (option string * db) :=
  match redeem t code clientId redirectUri verifier d with
  | (None, d1) => Ok (None, d1)
  | (Some uid, d1) =>
      match JMap.get (logins d1) uid with
      | None => Ok (None, d1)
      | Some _ =>
          let tag := "oauth:" +:+ clientName in
          let! (issued, d2) := issue hashToken t secret1 uuid1 uid Agent tag ttlMs d1 in
          match issued with
          | Some (token, _) => Ok (Some token, d2)
          | None =>
              match Arr.sort (Arr.by_key k_created) (List.filter (fun r => k_client r === tag) (activeTokens t uid Agent d2)) with
              | [] => Ok (None, d2)
              | oldest :: _ =>
                  let d3 := (revokeToken t (k_id oldest) uid d2).2 in
                  let! (again, d4) := issue hashToken t secret2 uuid2 uid Agent tag ttlMs d3 in Ok (fst <$> again, d4)
              end
          end
      end
  end.

(** A step of the service: somebody presents the code, or anything else happens. *)
Inductive cstep := Present (clientId redirectUri verifier : string) | Other (o : top).

Definition cexec (code : string) (t : Z) (s : cstep) (nd : nat * db) : nat * db :=
  match s with
  | Present clientId redirectUri verifier =>
      let (r, d') := redeem t code clientId redirectUri verifier nd.2 in
      ((nd.1 + match r with Some _ => 1 | None => 0 end)%nat, d')
  | Other o => (nd.1, texec t o nd.2)
  end.

Definition hits (key : string) (s : cstep) : bool := match s with Other (THit k _) => k === key | _ => false end.

(** How often the code signed somebody in along a run that starts at [t0]. *)
Fixpoint redeemed (code key : string) (t0 : Z) (steps : list (Z * cstep)) (nd : nat * db) : option nat :=
  match steps with
  | [] => Some nd.1
  | (t, s) :: r => if (t <? t0) || hits key s then None else redeemed code key t r (cexec code t s nd)
  end.

(** While the code can still be valid, the row of its first use is there. *)
Definition used (g : CodeGrant) (t : Z) (d : db) : Prop :=
  g_expires g <= t
  \/ exists r, JMap.get (limits d) (codeKey (g_nonce g)) = Some r
       /\ g_expires g - CODE_TTL_MS <= l_start r /\ 1 <= l_hits r /\ l_window r = CODE_TTL_MS * 2.

Definition codeInv (g : CodeGrant) (t : Z) (nd : nat * db) : Prop :=
  (nd.1 = 0%nat /\ JMap.get (limits nd.2) (codeKey (g_nonce g)) = None) \/ (nd.1 = 1%nat /\ used g t nd.2).

Lemma used_limits g t t' d d' : t <= t' -> limits d' = limits d -> used g t d -> used g t' d'.
Proof. intros Ht E [H|H]; [left; lia|right]. by rewrite E. Qed.

Lemma get_purge t (m : list (string * LimitRow)) k r : JMap.get m k = Some r -> spent t r = false ->
  JMap.get (List.filter (fun p => negb (spent t p.2)) m) k = Some r.
Proof.
  induction m as [|[k0 r0] m IH]; cbn [JMap.get List.filter snd]; [done|]. destruct (k0 === k) eqn:E.
  - intros [= ->] Hs. rewrite Hs. cbn. by rewrite E.
  - intros Hg Hs. specialize (IH Hg Hs). destruct (spent t r0); cbn; [done|]. by rewrite E.
Qed.

Lemma get_purge_none t (m : list (string * LimitRow)) k :
  JMap.get m k = None -> JMap.get (List.filter (fun p => negb (spent t p.2)) m) k = None.
Proof.
  induction m as [|[k0 r0] m IH]; cbn [JMap.get List.filter snd]; [done|]. destruct (k0 === k) eqn:E; [done|].
  intros Hg. specialize (IH Hg). destruct (spent t r0); cbn; [done|]. by rewrite E.
Qed.

Lemma codeInv_other g t t' o nd : t <= t' -> hits (codeKey (g_nonce g)) (Other o) = false ->
  codeInv g t nd -> codeInv g t' (nd.1, texec t' o nd.2).
Proof.
  intros Ht Ho. assert (limits (texec t' o nd.2) = limits nd.2 -> codeInv g t nd -> codeInv g t' (nd.1, texec t' o nd.2)) as Hsame.
  { intros E [[H1 H2]|[H1 H2]]; [left; cbn; by rewrite E|right; split; [done|]]. by eapply used_limits. }
  destruct o as [row|id|id uid'|uid'| |uid' l|uid'|key w|]; try (apply Hsame; done).
  - apply Hsame. cbn. unfold insertToken. destruct (_ && _); [done|]. by destruct (existsb _ _).
  - cbn in Ho. js_bool. intros [[H1 H2]|[H1 H2]]; [left|right]; (split; [done|]); cbn.
    + by rewrite JMap.get_set_ne.
    + destruct H2 as [H2|(r & H2 & H)]; [left; lia|right]. exists r. cbn. by rewrite JMap.get_set_ne.
  - intros [[H1 H2]|[H1 H2]]; [left|right]; (split; [done|]); cbn; [by apply get_purge_none|].
    destruct H2 as [H2|(r & H2 & Hs & Hh & Hw)]; [left; lia|]. destruct (spent t' r) eqn:E.
    + left. unfold spent in E. js_bool. unfold HOUR_MS, CODE_TTL_MS in *. lia.
    + right. exists r. split; [|done]. cbn. by apply get_purge.
Qed.

Lemma codeInv_present code g t t' c u v nd : unseal code = Some g -> g_expires g - CODE_TTL_MS <= t -> t <= t' ->
  codeInv g t nd -> codeInv g t' (cexec code t' (Present c u v) nd).
Proof.
  intros Hc H0 Ht Hinv. cbn [cexec]. unfold redeem. destruct (redeemCode t' code c u v) as [[uid nonce]|] eqn:E.
  2:{ cbn. rewrite Nat.add_0_r. destruct Hinv as [[H1 H2]|[H1 H2]]; [by left|right; split; [done|]]. by eapply used_limits. }
  assert (g_nonce g = nonce /\ t' < g_expires g) as [<- E1].
  { revert E. unfold redeemCode. rewrite Hc. destruct (_ || _) eqn:E1; [done|]. destruct (negb (VERIFIER v)); [done|].
    destruct (sha256 v !== g_challenge g); [done|]. intros [= <- <-]. by js_bool. }
  unfold hit. destruct Hinv as [[H1 H2]|[H1 [H2|(r & H2 & Hs & Hh & Hw)]]]; [right|lia|right]; rewrite H2; cbn.
  - rewrite H1. split; [done|]. right. eexists. cbn. rewrite JMap.get_set_eq. split; [done|]. cbn. split; [lia|done].
  - unfold CODE_TTL_MS in *. rewrite (proj2 (Z.leb_gt (2 * 60000 * 2) (t' - l_start r))) by lia. cbn.
    rewrite (proj2 (Z.ltb_lt 1 (l_hits r + 1))) by lia. rewrite Nat.add_0_r. split; [done|]. right. eexists. cbn.
    rewrite JMap.get_set_eq. split; [done|]. cbn. unfold CODE_TTL_MS. split; [lia|]. split; [lia|done].
Qed.

(** A sign-in code signs in at most once: from its issue on, whoever presents it with
    whatever verifier and however often, whatever else the service does in between and when
    the limits are purged, at most one presentation is answered with the person. *)
Theorem code_once code g t0 steps d n : unseal code = Some g -> g_expires g - CODE_TTL_MS <= t0 ->
  JMap.get (limits d) (codeKey (g_nonce g)) = None ->
  redeemed code (codeKey (g_nonce g)) t0 steps (0%nat, d) = Some n -> (n <= 1)%nat.
Proof.
  intros Hc Ht0 Hd. assert (codeInv g t0 (0%nat, d)) as Hinv by (by left). revert t0 Ht0 Hinv. generalize (0%nat, d) as nd. clear Hd d.
  induction steps as [|[t s] steps IH]; intros nd t0 Ht0 Hinv; cbn.
  - intros [= <-]. destruct Hinv as [[-> _]|[-> _]]; lia.
  - destruct (_ || _) eqn:E; [done|]. js_bool. apply IH; [lia|]. destruct s as [c u v|o].
    + by apply (codeInv_present code g t0).
    + by apply (codeInv_other g t0).
Qed.
End codes.

Definition aVerifier : string := "0123456789012345678901234567890123456789012".
Definition aGrant : CodeGrant := issueCode (fun s => s) 100 1 "client" "https://c/cb" aVerifier "n1".

Lemma code_once_witness : exists n,
  redeemed (fun s => s) (fun _ => Some aGrant) "code" (codeKey "n1") 100
    [(200, Present "client" "https://c/cb" aVerifier); (300, Other TPurgeLimits); (400, Present "client" "https://c/cb" aVerifier)] (0%nat, fresh) = Some n
  /\ (n <= 1)%nat.
Proof.
  eexists. split; [vm_compute; reflexivity|].
  apply (code_once (fun s => s) (fun _ => Some aGrant) "code" aGrant 100
    [(200, Present "client" "https://c/cb" aVerifier); (300, Other TPurgeLimits); (400, Present "client" "https://c/cb" aVerifier)] fresh 1);
    [reflexivity|vm_compute; discriminate|reflexivity|vm_compute; reflexivity].
Defined.
