(* ===== verification/Brain.v ===== *)
(** * The shared brain: entries, their versions and links, and proposed changes

    [store.ts] ([putEntry], [deleteEntry], [extractLinks], [addProposal], [moveProposal] and
    their companions), [improve.ts] (the gate a proposal has to pass) and the handlers of
    [routes.ts] that apply, test and revert a proposal.  As in [Board.v] a transaction is one
    function; a handler that runs several of them takes the database of each one as an
    argument where what happens in between matters. *)

From Stdlib Require Import ZArith Lia Ascii.
From S2P Require Import Prelude Collections Untrusted Board.
Open Scope Z_scope.

Inductive EntryKind := Project | Memory | Skill | Process | Rule | Lesson | Record_ | Role.
#[global] Instance EntryKind_eq_dec : EqDecision EntryKind.
Proof. solve_decision. Defined.

Definition MAX_ENTRIES_PER_KIND : Z := 200.
Definition MAX_ENTRY_NAME : nat := 120.
Definition MAX_LINKS_PER_ENTRY : nat := 50.
Definition MAX_VERSIONS_PER_ENTRY : Z := 20.
Definition RETAIN_VERSIONS_MS : Z := 90 * 24 * 3600000.
Definition RETAIN_OUTCOMES_MS : Z := 180 * 24 * 3600000.
Definition MAX_OPEN_PROPOSALS : Z := 20.
Definition MAX_OPEN_PROPOSALS_PER_SOURCE : Z := 10.
Definition RUN_STALE_MS : Z := 6 * 60000.
#[global] Arguments MAX_ENTRY_NAME : simpl never.

Record EntryRow := mkEntry {
  n_id : string; n_kind : EntryKind; n_owner : Z; n_name : string; n_body : string;
  n_created : Z; n_updated : Z; n_author : option string; n_human : bool }.

Record VersionRow := mkVersion {
  v_id : Z; v_owner : Z; v_kind : EntryKind; v_name : string; v_body : string;
  v_author : option string; v_cause : option string; v_at : Z }.

Record Link := mkLink { k_owner : Z; k_fromKind : EntryKind; k_fromName : string; k_toKind : string; k_toName : string }.
#[global] Instance Link_eq_dec : EqDecision Link.
Proof. solve_decision. Defined.

Inductive ProposalStatus := Queued | Testing | Waiting | Applied | Rejected | FailedGate | Reverted | Stale.
#[global] Instance ProposalStatus_eq_dec : EqDecision ProposalStatus.
Proof. solve_decision. Defined.

Inductive Verdict := Pass | Fail | Skipped.
#[global] Instance Verdict_eq_dec : EqDecision Verdict.
Proof. solve_decision. Defined.
Record GateResult := mkGate { goals : Z; candidateWins : Z; baselineWins : Z; ties : Z; verdict : Verdict; note : string }.

Record Proposal := mkProposal {
  q_id : string; q_uid : Z; q_kind : EntryKind; q_name : string; q_reason : string; q_current : option string;
  q_proposed : string; q_status : ProposalStatus; q_gate : option GateResult; q_needsApproval : bool; q_source : string;
  q_appliedVersion : option Z; q_appliedCreated : bool; q_created : Z; q_decided : option Z; q_tested : option Z }.

Record brain := mkBrain {
  entries : list EntryRow; versions : list VersionRow; links : list Link; proposals : list Proposal;
  improve : list (Z * bool); vserial : Z }.

Definition blankBrain : brain := mkBrain [] [] [] [] [] 1.

Definition setEntries (l : list EntryRow) (d : brain) : brain := mkBrain l (versions d) (links d) (proposals d) (improve d) (vserial d).
Definition setProposals (l : list Proposal) (d : brain) : brain := mkBrain (entries d) (versions d) (links d) l (improve d) (vserial d).
Definition setLinks (l : list Link) (d : brain) : brain := mkBrain (entries d) (versions d) l (proposals d) (improve d) (vserial d).

(** ** Links in a body *)

Definition isLetter (c : ascii) : bool :=
  let n := N_of_ascii c in (((65 <=? n) && (n <=? 90)) || ((97 <=? n) && (n <=? 122)))%N.
Definition isWord (c : ascii) : bool :=
  let n := N_of_ascii c in isLetter c || ((48 <=? n) && (n <=? 57))%N || (c === "_"%char).

(** The longest run of characters of a class, and what follows it. *)
Fixpoint span (p : ascii -> bool) (s : string) : string * string :=
  match s with
  | String c r => if p c then let (a, b) := span p r in (String c a, b) else ("", s)
  | EmptyString => ("", "")
  end.

(** [WIKI_LINK] at the start of [s]: the group and the length of the match.  The class of the
    group leaves out the bracket that must follow, so only the longest run can match. *)
Definition wikiAt (s : string) : option (string * nat) :=
  if Str.startsWith s "[[" then
    let (g, rest) := span (fun c => (c !== "]"%char) && (c !== lf)) (Str.drop 2 s) in
    if (1 <=? String.length g)%nat && (String.length g <=? 120)%nat && Str.startsWith rest "]]"
    then Some (g, (4 + String.length g)%nat) else None
  else None.

(** [body.matchAll]: from left to right, each search after the end of the last match. *)
Fixpoint matchAll {A} (at_ : bool -> string -> option (A * nat)) (start : bool) (skip : nat) (s : string) : list A :=
  match s with
  | EmptyString => []
  | String c r =>
      match skip with
      | S k => matchAll at_ false k r
      | O => match at_ start s with
             | Some (a, n) => a :: matchAll at_ false (n - 1) r
             | None => matchAll at_ false 0 r
             end
      end
  end.

Definition isNameChar (c : ascii) : bool := isWord c || (c === "-"%char).

(** What may follow a repository: the end, white space, a bracket, a comma, or a full stop
    that no word character follows. *)
Definition endsMention (s : string) : bool :=
  match s with
  | EmptyString => true
  | String c r =>
      Str.js_space c || (c === ")"%char) || (c === ","%char)
      || ((c === "."%char) && match r with String d _ => negb (isWord d) | EmptyString => true end)
  end.

Definition nameRun (max : nat) (s : string) : option (string * string) :=
  let (g, rest) := span isNameChar s in
  match g with
  | String c _ => if isLetter c && (String.length g <=? max)%nat then Some (g, rest) else None
  | EmptyString => None
  end.

Definition mention (s : string) : option (string * string * nat) :=
  match nameRun 39 s with
  | Some (owner, String c r) =>
      if c === "/"%char then
        match nameRun 100 r with
        | Some (repo, rest) => if endsMention rest then Some (owner, repo, (String.length owner + 1 + String.length repo)%nat) else None
        | None => None
        end
      else None
  | _ => None
  end.

(** [REPO_MENTION] at the start of [s], [start] telling whether that is the start of the body. *)
Definition mentionAt (start : bool) (s : string) : option ((string * string) * nat) :=
  match (if start then mention s else None) with
  | Some (o, r, n) => Some ((o, r), n)
  | None =>
      match s with
      | String c t =>
          if Str.js_space c || (c === "("%char) then
            match mention t with Some (o, r, n) => Some ((o, r), S n) | None => None end
          else None
      | EmptyString => None
      end
  end.

Definition PROSE_PAIRS : list string :=
  ["and/or"; "either/or"; "yes/no"; "true/false"; "he/she"; "his/her"; "him/her"; "read/write"; "input/output";
   "client/server"; "on/off"; "in/out"; "up/down"; "pass/fail"; "before/after"; "left/right"; "open/close";
   "start/stop"; "win/loss"; "and/also"; "w/o"; "n/a"].

Definition isUpper (c : ascii) : bool := let n := N_of_ascii c in ((65 <=? n) && (n <=? 90))%N.

Definition looksLikeRepo (owner repo : string) : bool :=
  (2 <=? String.length owner)%nat && (2 <=? String.length repo)%nat
  && negb (allChars isUpper owner) && negb (allChars isUpper repo)
  && negb (existsb (fun p => p === Str.toLowerCase (owner +:+ "/" +:+ repo)) PROSE_PAIRS).

Definition target := (string * string)%type.

Definition wikiStep (out : list (string * target)) (g : string) : list (string * target) :=
  if (MAX_LINKS_PER_ENTRY <=? length out)%nat then out
  else
    let name := cleanLine g MAX_ENTRY_NAME in
    if Str.truthy name then JMap.set out ("entry:" +:+ Str.toLowerCase name) ("entry", name) else out.

Definition repoStep (out : list (string * target)) (m : string * string) : list (string * target) :=
  if (MAX_LINKS_PER_ENTRY <=? length out)%nat then out
  else if negb (looksLikeRepo m.1 m.2) then out
  else
    let name := m.1 +:+ "/" +:+ m.2 in
    if (String.length name <=? 140)%nat then JMap.set out ("repo:" +:+ Str.toLowerCase name) ("repo", name) else out.

Definition extractLinks (body : string) : list target :=
  JMap.values (foldl repoStep (foldl wikiStep [] (matchAll (fun _ => wikiAt) true 0 body)) (matchAll mentionAt true 0 body)).

Definition linkFrom (owner : Z) (kind : EntryKind) (name : string) (l : Link) : bool :=
  (k_owner l =? owner) && (k_fromKind l === kind) && (k_fromName l === name).

Definition rewriteLinks (owner : Z) (kind : EntryKind) (name body : string) (d : brain) : brain :=
  setLinks
    (foldl (fun ls t =>
              if (t.1 === "entry") && (Str.toLowerCase t.2 === Str.toLowerCase name) then ls
              else Arr.add ls (mkLink owner kind name t.1 t.2))
       (remove (linkFrom owner kind name) (links d)) (extractLinks body)) d.

(** ** Entries *)

Definition HUMAN_AUTHORS : list string := ["web"; "starter"].
Definition humanAuthor (a : option string) : bool :=
  match a with None => true | Some x => existsb (fun h => h === x) HUMAN_AUTHORS end.

Definition isEntry (kind : EntryKind) (owner : Z) (name : string) (r : EntryRow) : bool :=
  (n_kind r === kind) && (n_owner r =? owner) && (n_name r === name).

Definition findEntry (kind : EntryKind) (owner : Z) (name : string) (d : brain) : option EntryRow :=
  List.find (isEntry kind owner name) (entries d).

Definition getEntry (kind : EntryKind) (owner : Z) (name : string) (d : brain) : option EntryRow :=
  findEntry kind owner (cleanLine name MAX_ENTRY_NAME) d.

(** [disownMemory]: the first line [source: auto] of the header goes. *)
Definition autoLine : string := String lf "source: auto".
Fixpoint dropAuto (s : string) : string :=
  match s with
  | EmptyString => ""
  | String c r =>
      if Str.startsWith s (autoLine +:+ String lf "") then Str.drop (String.length autoLine) s
      else String c (dropAuto r)
  end.
Definition disownMemory (kind : EntryKind) (body : string) : string :=
  if kind === Memory then
    let head := "---" +:+ String lf "" in
    if Str.startsWith body head then head +:+ dropAuto (Str.drop 4 body) else body
  else body.

Definition saveVersion (t : Z) (e : EntryRow) (cause : option string) (d : brain) : Z * brain :=
  (vserial d,
   mkBrain (entries d) (versions d ++ [mkVersion (vserial d) (n_owner e) (n_kind e) (n_name e) (n_body e) (n_author e) cause t])
     (links d) (proposals d) (improve d) (vserial d + 1)).

(** The body given, or computed from the current one. *)
Inductive newBody := Text_ (s : string) | From (f : option string -> option string).

Record EntryInput := mkInput {
  i_kind : EntryKind; i_owner : Z; i_name : string; i_body : newBody;
  i_author : option (option string); i_cause : option string }.

Inductive PutEntryResult :=
| Put (e : EntryRow) (created : bool) (version : option Z)
| EntryQuota | EmptyName | Refused | TooLong.

Definition rewritten (t : Z) (body : string) (author : option string) (r : EntryRow) : EntryRow :=
  mkEntry (n_id r) (n_kind r) (n_owner r) (n_name r) body (n_created r) t author
    (n_human r || humanAuthor author || humanAuthor (n_author r)).

Definition updateEntry (t : Z) (i : EntryInput) (e : EntryRow) (body : string) (d : brain) : PutEntryResult * brain :=
  let author := match i_author i with None => n_author e | Some a => a end in
  let (v, d1) := if n_body e === body then (None, d) else let (v, d1) := saveVersion t e (i_cause i) d in (Some v, d1) in
  let d2 := setEntries (update (fun r => n_id r === n_id e) (rewritten t body author) (entries d1)) d1 in
  (Put (rewritten t body author e) false v, rewriteLinks (i_owner i) (i_kind i) (n_name e) body d2).

Definition insertEntry (t : Z) (uuid : string) (i : EntryInput) (name body : string) (d : brain) : outcome (PutEntryResult * brain) :=
  if MAX_ENTRIES_PER_KIND <=? count (fun r => (n_kind r === i_kind i) && (n_owner r =? i_owner i)) (entries d) then Ok (EntryQuota, d)
  else if existsb (fun r => n_id r === uuid) (entries d) then Throw "duplicate key"
  else
    let author := match i_author i with Some (Some a) => Some a | _ => None end in
    let row := mkEntry uuid (i_kind i) (i_owner i) name body t t author (humanAuthor author) in
    Ok (Put row true None, rewriteLinks (i_owner i) (i_kind i) name body (setEntries (entries d ++ [row]) d)).

Definition bodyFor (i : EntryInput) (existing : option EntryRow) : option string :=
  match i_body i with Text_ s => Some (disownMemory (i_kind i) s) | From f => f (n_body <$> existing) end.

Definition putEntry (t : Z) (uuid : string) (i : EntryInput) (d : brain) : outcome (PutEntryResult * brain) :=
  let name := cleanLine (i_name i) MAX_ENTRY_NAME in
  if negb (Str.truthy name) then Ok (EmptyName, d)
  else
    let existing := findEntry (i_kind i) (i_owner i) name d in
    match bodyFor i existing with
    | None => Ok (Refused, d)
    | Some next =>
        if (MAX_ENTRY_BODY <? String.length next)%nat then Ok (TooLong, d)
        else
          let body := cleanText next MAX_ENTRY_BODY in
          match existing with
          | Some e => Ok (updateEntry t i e body d)
          | None => insertEntry t uuid i name body d
          end
    end.

Definition deleteEntry (t : Z) (kind : EntryKind) (owner : Z) (name : string) (keepHistory : bool) (d : brain) : bool * brain :=
  let clean := cleanLine name MAX_ENTRY_NAME in
  let existing := findEntry kind owner clean d in
  let d1 := if negb keepHistory then
              mkBrain (entries d) (remove (fun v => (v_owner v =? owner) && (v_kind v === kind) && (v_name v === clean)) (versions d))
                (links d) (proposals d) (improve d) (vserial d)
            else match existing with Some e => (saveVersion t e (Some "forget") d).2 | None => d end in
  let removed := count (isEntry kind owner clean) (entries d1) in
  let d2 := setEntries (remove (isEntry kind owner clean) (entries d1)) d1 in
  (0 <? removed, if 0 <? removed then setLinks (remove (linkFrom owner kind clean) (links d2)) d2 else d2).

Definition entryVersion (uid id : Z) (d : brain) : option VersionRow :=
  List.find (fun v => (v_owner v =? uid) && (v_id v =? id)) (versions d).

(** The versions a purge keeps: young ones, the newest twenty of each entry. *)
Definition versionRank (l : list VersionRow) (v : VersionRow) : Z :=
  count (fun w => (v_owner w =? v_owner v) && (v_kind w === v_kind v) && (v_name w === v_name v) && (v_id v <=? v_id w)) l.
Definition purgeBrain (t : Z) (d : brain) : brain :=
  let v1 := remove (fun v => v_at v <? t - RETAIN_VERSIONS_MS) (versions d) in
  mkBrain (entries d) (remove (fun v => MAX_VERSIONS_PER_ENTRY <? versionRank v1 v) v1) (links d)
    (remove (fun p => q_created p <? t - RETAIN_OUTCOMES_MS) (proposals d)) (improve d) (vserial d).

(** ** Proposals *)

Definition openStatus (s : ProposalStatus) : bool := existsb (fun o => o === s) [Queued; Testing; Waiting].

Record NewProposal := mkNewProposal {
  w_id : string; w_uid : Z; w_kind : EntryKind; w_name : string; w_reason : string; w_proposed : string; w_source : string }.
Inductive ProposeResult := ProposeOk | TooMany | Unchanged | Ambiguous.

Definition addProposal (t : Z) (p : NewProposal) (d : brain) : outcome (ProposeResult * brain) :=
  let source := cleanLine (w_source p) 80 in
  if MAX_OPEN_PROPOSALS <=? count (fun q => (q_uid q =? w_uid p) && openStatus (q_status q)) (proposals d) then Ok (TooMany, d)
  else if MAX_OPEN_PROPOSALS_PER_SOURCE <=? count (fun q => (q_uid q =? w_uid p) && (q_source q === source) && openStatus (q_status q)) (proposals d)
  then Ok (TooMany, d)
  else
    let name := cleanLine (w_name p) MAX_ENTRY_NAME in
    if 0 <? count (fun r => (n_kind r === w_kind p) && (n_owner r =? w_uid p) && (Str.toLowerCase (n_name r) === Str.toLowerCase name)
                            && (n_name r !== name)) (entries d)
    then Ok (Ambiguous, d)
    else
      let body := cleanText (w_proposed p) MAX_ENTRY_BODY in
      let current := n_body <$> findEntry (w_kind p) (w_uid p) name d in
      if match current with Some c => Str.trim c === Str.trim body | None => false end then Ok (Unchanged, d)
      else if existsb (fun q => q_id q === w_id p) (proposals d) then Throw "duplicate key"
      else Ok (ProposeOk,
               setProposals (proposals d ++
                 [mkProposal (w_id p) (w_uid p) (w_kind p) name (cleanText (w_reason p) 1000) current body Queued None true source
                    None false t None None]) d).

Definition getProposal (uid : Z) (id : string) (d : brain) : option Proposal :=
  List.find (fun q => (q_uid q =? uid) && (q_id q === id)) (proposals d).

Record Patch := mkPatch {
  x_status : ProposalStatus; x_gate : option GateResult; x_needsApproval : option bool;
  x_applied : option (option Z * bool); x_decided : bool }.

(** [COALESCE] and [CASE] of the update. *)
Definition patched (t : Z) (x : Patch) (q : Proposal) : Proposal :=
  mkProposal (q_id q) (q_uid q) (q_kind q) (q_name q) (q_reason q) (q_current q) (q_proposed q) (x_status x)
    (match x_gate x with Some g => Some g | None => q_gate q end)
    (match x_needsApproval x with Some b => b | None => q_needsApproval q end) (q_source q)
    (match x_applied x with Some (v, _) => v | None => q_appliedVersion q end)
    (match x_applied x with Some (_, c) => c | None => q_appliedCreated q end)
    (q_created q) (if x_decided x then Some t else q_decided q)
    (if x_status x === Testing then Some t else q_tested q).

Definition movable (uid : Z) (id : string) (from : list ProposalStatus) (q : Proposal) : bool :=
  (q_uid q =? uid) && (q_id q === id) && existsb (fun s => s === q_status q) from.

Definition moveProposal (t uid : Z) (id : string) (from : list ProposalStatus) (x : Patch) (d : brain) : option Proposal * brain :=
  match List.find (movable uid id from) (proposals d) with
  | None => (None, d)
  | Some q => (Some (patched t x q), setProposals (update (movable uid id from) (patched t x) (proposals d)) d)
  end.

Definition rebased (current : option string) (q : Proposal) : Proposal :=
  mkProposal (q_id q) (q_uid q) (q_kind q) (q_name q) (q_reason q) current (q_proposed q) (q_status q) (q_gate q) (q_needsApproval q)
    (q_source q) (q_appliedVersion q) (q_appliedCreated q) (q_created q) (q_decided q) (q_tested q).
Definition refreshProposalBase (uid : Z) (id : string) (current : option string) (d : brain) : brain :=
  setProposals (update (fun q => (q_uid q =? uid) && (q_id q === id)) (rebased current) (proposals d)) d.

Definition restatus (s : ProposalStatus) (tested : option Z) (q : Proposal) : Proposal :=
  mkProposal (q_id q) (q_uid q) (q_kind q) (q_name q) (q_reason q) (q_current q) (q_proposed q) s (q_gate q) (q_needsApproval q)
    (q_source q) (q_appliedVersion q) (q_appliedCreated q) (q_created q) (q_decided q) tested.

Definition nextQueuedProposal (t uid : Z) (d : brain) : option Proposal * brain :=
  match head (Arr.sort (Arr.by_key q_created) (List.filter (fun q => (q_uid q =? uid) && (q_status q === Queued)) (proposals d))) with
  | None => (None, d)
  | Some q => (Some (restatus Testing (Some t) q),
               setProposals (update (fun p => q_id p === q_id q) (restatus Testing (Some t)) (proposals d)) d)
  end.

Definition settleStaleTesting (t : Z) (uid : option Z) (d : brain) : brain :=
  setProposals (update (fun q => match uid with None => true | Some u => q_uid q =? u end && (q_status q === Testing)
                                 && before (q_tested q) (t - RUN_STALE_MS))
                  (fun q => restatus Queued (q_tested q) q) (proposals d)) d.

Definition humanTouched (uid : Z) (kind : EntryKind) (name : string) (d : brain) : bool :=
  let n := Str.toLowerCase (cleanLine name MAX_ENTRY_NAME) in
  existsb (fun r => (n_owner r =? uid) && (n_kind r === kind) && (Str.toLowerCase (n_name r) === n) && (n_human r || humanAuthor (n_author r))) (entries d)
  || existsb (fun v => (v_owner v =? uid) && (v_kind v === kind) && (Str.toLowerCase (v_name v) === n) && humanAuthor (v_author v)) (versions d).

Definition improveSettings (uid : Z) (d : brain) : bool := default false (JMap.get (improve d) uid).
Definition setImprove (uid : Z) (on : bool) (d : brain) : brain :=
  mkBrain (entries d) (versions d) (links d) (proposals d) (JMap.set (improve d) uid on) (vserial d).

(** ** The gate *)

Definition GATE_MIN_GRADED : Z := 20.
Definition MIN_USABLE_GOALS : Z := 2.
Definition REPLAY_GOALS : nat := 3.

Record Replay := mkReplay { finished : bool; errored : bool; sawTarget : bool }.
Inductive side := Base | Cand | Tie.
#[global] Instance side_eq_dec : EqDecision side.
Proof. solve_decision. Defined.

(** The model is asked twice, with the answers in either order; [forward] and [backward] are
    what it prefers. *)
Definition judge (base cand : Replay) (forward backward : nat) : side :=
  if negb (finished base) || negb (finished cand) then Tie
  else if (forward =? 2)%nat && (backward =? 1)%nat then Cand
  else if (forward =? 1)%nat && (backward =? 2)%nat then Base
  else Tie.

Record trial := mkTrial { tr_base : Replay; tr_cand : Replay; tr_forward : nat; tr_backward : nat }.

Definition usableTrial (r : trial) : bool := negb (errored (tr_base r) || errored (tr_cand r) || negb (sawTarget (tr_cand r))).
Definition ruling (r : trial) : side := judge (tr_base r) (tr_cand r) (tr_forward r) (tr_backward r).
Definition skipped (why : string) : GateResult := mkGate 0 0 0 0 Skipped why.

Definition kindName (k : EntryKind) : string :=
  match k with
  | Project => "project" | Memory => "memory" | Skill => "skill" | Process => "process"
  | Rule => "rule" | Lesson => "lesson" | Record_ => "record" | Role => "role"
  end.

(** [graded] outcomes so far and the trials of the goals [replayGoals] found. *)
Definition runGate (kind : EntryKind) (graded : Z) (trials : list trial) : GateResult :=
  if graded <? GATE_MIN_GRADED then
    skipped ("Not tested yet: " +:+ Str.showZ graded +:+ " of " +:+ Str.showZ GATE_MIN_GRADED +:+ " graded outcomes so far, so a person decides.")
  else
    match take REPLAY_GOALS trials with
    | [] => skipped "Not tested: there are no earlier successful goals to replay, so a person decides."
    | goals =>
        let usable := List.filter usableTrial goals in
        let n := Z.of_nat (length usable) in
        let tally s := count (fun r => ruling r === s) usable in
        if n <? MIN_USABLE_GOALS then
          skipped ("Not tested: only " +:+ Str.showZ n +:+ " past goals actually used this " +:+ kindName kind +:+ ", so a person decides.")
        else
          let pass := (MIN_USABLE_GOALS <=? tally Cand) && (tally Base =? 0) in
          mkGate n (tally Cand) (tally Base) (tally Tie) (if pass then Pass else Fail)
            (if pass then "Did better on " +:+ Str.showZ (tally Cand) +:+ " of " +:+ Str.showZ n +:+ " past goals than the current version, and worse on none."
             else "Did not clearly beat the current version: it won " +:+ Str.showZ (tally Cand) +:+ ", lost " +:+ Str.showZ (tally Base)
                    +:+ " and tied " +:+ Str.showZ (tally Tie) +:+ " of " +:+ Str.showZ n +:+ " past goals.")
    end.

(** ** Applying, testing and reverting *)

Definition APPLICABLE : list ProposalStatus := [Waiting; Testing; FailedGate; Stale].

Definition applyInput (uid : Z) (p : Proposal) (author : string) : EntryInput :=
  mkInput (q_kind p) uid (q_name p) (From (fun current => if current === q_current p then Some (q_proposed p) else None))
    (Some (Some author)) (Some ("proposal:" +:+ q_id p)).

(** The second transaction of [applyProposal], after the entry was written or not. *)
Definition applyMove (t uid : Z) (p : Proposal) (r : PutEntryResult) (d : brain) : option Proposal * brain :=
  match r with
  | Put _ created v => moveProposal t uid (q_id p) APPLICABLE (mkPatch Applied None None (Some (v, created)) true) d
  | Refused =>
      let d1 := refreshProposalBase uid (q_id p) (n_body <$> getEntry (q_kind p) uid (q_name p) d) d in
      moveProposal t uid (q_id p) APPLICABLE (mkPatch Stale None None None false) d1
  | _ => (None, d)
  end.

(** Both, with nothing in between. *)
Definition applyProposal (t : Z) (uuid : string) (uid : Z) (p : Proposal) (author : string) (d : brain)
    : outcome (option Proposal * brain) :=
  let! (r, d1) := putEntry t uuid (applyInput uid p author) d in Ok (applyMove t uid p r d1).

Definition needsApproval (uid : Z) (p : Proposal) (gate : GateResult) (d : brain) : bool :=
  (verdict gate !== Pass) || (q_kind p !== Skill) || negb (improveSettings uid d) || humanTouched uid (q_kind p) (q_name p) d.

(** [testProposal] up to the application: the proposal to apply, if it goes ahead by itself. *)
Definition testProposal (t uid : Z) (p : Proposal) (gate : GateResult) (d : brain) : option Proposal * brain :=
  let current := n_body <$> getEntry (q_kind p) uid (q_name p) d in
  if current !== q_current p then
    let d1 := refreshProposalBase uid (q_id p) current d in
    (None, (moveProposal t uid (q_id p) [Testing] (mkPatch Stale None None None false) d1).2)
  else if verdict gate === Fail then (None, (moveProposal t uid (q_id p) [Testing] (mkPatch FailedGate (Some gate) None None false) d).2)
  else
    let ask := needsApproval uid p gate d in
    let (tested, d1) := moveProposal t uid (q_id p) [Testing] (mkPatch (if ask then Waiting else Testing) (Some gate) (Some ask) None false) d in
    (if ask then None else tested, d1).

Inductive RevertResult := Changed | Gone | Moved (p : option Proposal).

Definition revertProposal (t : Z) (uuid : string) (uid : Z) (p : Proposal) (d : brain) : outcome (RevertResult * brain) :=
  let live := n_body <$> getEntry (q_kind p) uid (q_name p) d in
  let done_ (d1 : brain) := let (q, d2) := moveProposal t uid (q_id p) [Applied] (mkPatch Reverted None None None true) d1 in Ok (Moved q, d2) in
  if live !== Some (q_proposed p) then Ok (Changed, d)
  else if q_appliedCreated p then done_ (deleteEntry t (q_kind p) uid (q_name p) true d).2
  else
    match q_appliedVersion p with
    | None => done_ d
    | Some v =>
        match entryVersion uid v d with
        | None => Ok (Gone, d)
        | Some w =>
            let! (r, d1) := putEntry t uuid (mkInput (q_kind p) uid (q_name p) (Text_ (v_body w)) (Some (v_author w)) (Some ("revert:" +:+ q_id p))) d in
            match r with Put _ _ _ => done_ d1 | _ => Ok (Gone, d1) end
        end
    end.

(** ** The store as a transition system *)

Inductive bop :=
| BPut (uuid : string) (i : EntryInput)
| BDelete (kind : EntryKind) (owner : Z) (name : string) (keepHistory : bool)
| BPropose (p : NewProposal)
| BMove (uid : Z) (id : string) (from : list ProposalStatus) (x : Patch)
| BRebase (uid : Z) (id : string) (current : option string)
| BNext (uid : Z)
| BSettle (uid : option Z)
| BImprove (uid : Z) (on : bool)
| BPurge.

Definition settled {A} (d : brain) (r : outcome (A * brain)) : brain := match r with Ok (_, d') => d' | Throw _ => d end.

Definition bexec (t : Z) (o : bop) (d : brain) : brain :=
  match o with
  | BPut uuid i => settled d (putEntry t uuid i d)
  | BDelete kind owner name keep => (deleteEntry t kind owner name keep d).2
  | BPropose p => settled d (addProposal t p d)
  | BMove uid id from x => (moveProposal t uid id from x d).2
  | BRebase uid id c => refreshProposalBase uid id c d
  | BNext uid => (nextQueuedProposal t uid d).2
  | BSettle uid => settleStaleTesting t uid d
  | BImprove uid on => setImprove uid on d
  | BPurge => purgeBrain t d
  end.

Inductive later : brain -> brain -> Prop :=
| later_refl d : later d d
| later_step t o d d' : later d d' -> later d (bexec t o d').

(** ** Tables *)

(** Every entry has its name once, its body and name as the cleaning leaves them, and an id
    of its own; versions are numbered below the serial, with clean bodies. *)
Record brainOk (d : brain) : Prop := BrainOk {
  bk_ids : NoDup (map n_id (entries d));
  bk_keys : NoDup (map (fun r => (n_kind r, n_owner r, n_name r)) (entries d));
  bk_bodies : forall r, r ∈ entries d -> cleanText (n_body r) MAX_ENTRY_BODY = n_body r;
  bk_names : forall r, r ∈ entries d -> n_name r <> "" /\ exists raw, n_name r = cleanLine raw MAX_ENTRY_NAME;
  bk_held : forall k o, count (fun r => (n_kind r === k) && (n_owner r =? o)) (entries d) <= MAX_ENTRIES_PER_KIND;
  bk_versions : forall v, v ∈ versions d -> v_id v < vserial d;
  bk_vids : NoDup (map v_id (versions d));
  bk_vbodies : forall v, v ∈ versions d -> cleanText (v_body v) MAX_ENTRY_BODY = v_body v }.

Lemma blank_ok_brain : brainOk blankBrain.
Proof. split; cbn; try apply NoDup_nil_2; try done; intros ? H; by apply elem_of_nil in H. Qed.

Lemma brainOk_frame d d' : entries d' = entries d -> versions d' = versions d -> vserial d' = vserial d -> brainOk d -> brainOk d'.
Proof. intros E1 E2 E3 [? ? ? ? ? ? ? ?]. split; rewrite ?E1, ?E2, ?E3; done. Qed.

Lemma findEntry_spec kind owner name d r : findEntry kind owner name d = Some r ->
  r ∈ entries d /\ n_kind r = kind /\ n_owner r = owner /\ n_name r = name.
Proof. intros [Hin H]%Arr.find_elem. unfold isEntry in H. js_bool. apply Z.eqb_eq in H1. done. Qed.

Lemma rewriteLinks_frame o k n b d : entries (rewriteLinks o k n b d) = entries d /\ versions (rewriteLinks o k n b d) = versions d
  /\ vserial (rewriteLinks o k n b d) = vserial d /\ proposals (rewriteLinks o k n b d) = proposals d /\ improve (rewriteLinks o k n b d) = improve d.
Proof. done. Qed.

Definition entryKey (r : EntryRow) := (n_kind r, n_owner r, n_name r).

Lemma brainOk_links d l : brainOk d -> brainOk (setLinks l d).
Proof. by apply brainOk_frame. Qed.

Lemma brainOk_rewriteLinks o k n b d : brainOk d -> brainOk (rewriteLinks o k n b d).
Proof. by apply brainOk_frame. Qed.

Lemma brainOk_saveVersion t e cause d : e ∈ entries d -> brainOk d -> brainOk (saveVersion t e cause d).2.
Proof.
  intros He [H1 H2 H3 H4 H5 H6 H7 H8]. split; cbn; try done.
  - intros v [Hv|Hv]%elem_of_app; [specialize (H6 v Hv); lia|]. apply list_elem_of_singleton in Hv as ->. cbn. lia.
  - rewrite map_app. apply NoDup_app. split; [done|]. split; [|apply NoDup_singleton].
    intros x (v & -> & Hv)%list_elem_of_fmap Hx. apply list_elem_of_singleton in Hx. cbn in Hx. specialize (H6 v Hv). lia.
  - intros v [Hv|Hv]%elem_of_app; [by apply H8|]. apply list_elem_of_singleton in Hv as ->. by apply H3.
Qed.

Lemma brainOk_rewrite t id body author d : cleanText body MAX_ENTRY_BODY = body -> brainOk d ->
  brainOk (setEntries (update (fun r => n_id r === id) (rewritten t body author) (entries d)) d).
Proof.
  intros Hb [H1 H2 H3 H4 H5 H6 H7 H8]. split; cbn; try done.
  - by rewrite update_map.
  - by rewrite update_map.
  - intros r (r0 & Hr0 & ->)%elem_update. destruct (_ === _); [done|by apply H3].
  - intros r (r0 & Hr0 & ->)%elem_update. destruct (_ === _); by apply (H4 r0).
  - intros k o. rewrite count_update. etrans; [|apply (H5 k o)]. apply count_mono. intros r _. by destruct (_ === id).
Qed.

Lemma brainOk_updateEntry t i e body d : e ∈ entries d -> cleanText body MAX_ENTRY_BODY = body -> brainOk d -> brainOk (updateEntry t i e body d).2.
Proof.
  intros He Hb Hd. unfold updateEntry. pose proof (brainOk_saveVersion t e (i_cause i) d He Hd) as Hs.
  destruct (n_body e === body); [|destruct (saveVersion t e (i_cause i) d) as [v d1]]; cbn [snd]; by apply brainOk_rewriteLinks, brainOk_rewrite.
Qed.

Lemma insertEntry_cases t uuid i name body d :
  insertEntry t uuid i name body d = Ok (EntryQuota, d)
  \/ insertEntry t uuid i name body d = Throw "duplicate key"
  \/ exists row, n_id row = uuid /\ n_kind row = i_kind i /\ n_owner row = i_owner i /\ n_name row = name /\ n_body row = body
       /\ (uuid ∉ map n_id (entries d))
       /\ count (fun r => (n_kind r === i_kind i) && (n_owner r =? i_owner i)) (entries d) < MAX_ENTRIES_PER_KIND
       /\ insertEntry t uuid i name body d = Ok (Put row true None, rewriteLinks (i_owner i) (i_kind i) name body (setEntries (entries d ++ [row]) d)).
Proof.
  unfold insertEntry. destruct (_ <=? _) eqn:Eq; [by left|]. right. destruct (existsb _ _) eqn:Ex; [by left|]. right.
  eexists (mkEntry uuid (i_kind i) (i_owner i) name body t t _ _). repeat (split; [done|]). split; [|split; [by apply Z.leb_gt|done]].
  rewrite list_elem_of_fmap. intros (r & Er & Hr). rewrite Arr.existsb_false in Ex. specialize (Ex r Hr). by js_bool.
Qed.

Lemma brainOk_insertEntry t uuid i raw body d : findEntry (i_kind i) (i_owner i) (cleanLine raw MAX_ENTRY_NAME) d = None ->
  cleanLine raw MAX_ENTRY_NAME <> "" -> cleanText body MAX_ENTRY_BODY = body ->
  brainOk d -> brainOk (settled d (insertEntry t uuid i (cleanLine raw MAX_ENTRY_NAME) body d)).
Proof.
  intros Hf Hn Hb Hd. destruct (insertEntry_cases t uuid i (cleanLine raw MAX_ENTRY_NAME) body d) as [-> |[-> |(row & E1 & E2 & E3 & E4 & E5 & E6 & E7 & ->)]]; [done|done|].
  cbn [settled]. apply brainOk_rewriteLinks. destruct Hd as [H1 H2 H3 H4 H5 H6 H7 H8]. split; cbn; try done.
  - rewrite map_app. apply NoDup_app. split; [done|]. split; [|apply NoDup_singleton]. intros x Hx Hx'%list_elem_of_singleton. by subst.
  - rewrite map_app. apply NoDup_app. split; [done|]. split; [|apply NoDup_singleton].
    intros x (r & -> & Hr)%list_elem_of_fmap Hx'%list_elem_of_singleton. simplify_eq.
    unfold findEntry in Hf. apply (Arr.find_none _ _ r) in Hf; [|done]. unfold isEntry in Hf. rewrite !bool_decide_eq_true_2, Z.eqb_sym, (proj2 (Z.eqb_eq _ _)) in Hf by congruence. done.
  - intros r [Hr|Hr]%elem_of_app; [by apply H3|]. apply list_elem_of_singleton in Hr as ->. by rewrite E5.
  - intros r [Hr|Hr]%elem_of_app; [by apply H4|]. apply list_elem_of_singleton in Hr as ->. rewrite E4. split; [done|]. by exists raw.
  - intros k o. rewrite count_app. unfold count at 2. cbn. destruct (_ && _) eqn:E; cbn; [|specialize (H5 k o); lia].
    js_bool. apply Z.eqb_eq in H0. subst. rewrite E2, E3 in *. lia.
Qed.

Lemma brainOk_put t uuid i d : brainOk d -> brainOk (settled d (putEntry t uuid i d)).
Proof.
  intros Hd. unfold putEntry. destruct (Str.truthy _) eqn:Et; [|done]. cbn [negb]. apply Str.truthy_iff in Et.
  destruct (bodyFor _ _) as [next|]; [|done]. destruct (_ <? _)%nat; [done|].
  destruct (findEntry _ _ _ _) as [e|] eqn:Ef.
  - cbn [settled]. apply findEntry_spec in Ef as (Hin & _). pose proof (brainOk_updateEntry t i e (cleanText next MAX_ENTRY_BODY) d Hin (cleanText_idem _ _) Hd) as H.
    by destruct (updateEntry _ _ _ _ _).
  - apply brainOk_insertEntry; try done. apply cleanText_idem.
Qed.

Lemma brainOk_sub d le lv : le `sublist_of` (entries d) -> lv `sublist_of` (versions d) ->
  brainOk d -> brainOk (mkBrain le lv (links d) (proposals d) (improve d) (vserial d)).
Proof.
  intros He Hv [H1 H2 H3 H4 H5 H6 H7 H8].
  assert (forall r, r ∈ le -> r ∈ entries d) as Hin1 by (intros r Hr; eapply elem_of_submseteq; [exact Hr|by apply sublist_submseteq]).
  assert (forall v, v ∈ lv -> v ∈ versions d) as Hin2 by (intros r Hr; eapply elem_of_submseteq; [exact Hr|by apply sublist_submseteq]).
  split; cbn; auto.
  - eapply sublist_NoDup; [exact H1|]. by apply fmap_sublist.
  - eapply sublist_NoDup; [exact H2|]. by apply fmap_sublist.
  - intros k o. etrans; [by apply count_sublist|]. apply H5.
  - eapply sublist_NoDup; [exact H7|]. by apply fmap_sublist.
Qed.

Lemma brainOk_delete t k o n keep d : brainOk d -> brainOk (deleteEntry t k o n keep d).2.
Proof.
  intros Hd. unfold deleteEntry. set (d1 := if negb keep then _ else _).
  assert (brainOk d1) as H1.
  { unfold d1. destruct keep; cbn [negb].
    - destruct (findEntry _ _ _ _) as [e|] eqn:E; [|done]. apply findEntry_spec in E as (Hin & _). by apply brainOk_saveVersion.
    - apply (brainOk_sub d); [done|apply remove_sublist|done]. }
  assert (brainOk (setEntries (remove (isEntry k o (cleanLine n MAX_ENTRY_NAME)) (entries d1)) d1)) as H2.
  { destruct d1 as [en ve li pr im vs]. by apply (brainOk_sub (mkBrain en ve li pr im vs)); [apply remove_sublist| |]. }
  cbn [snd]. destruct (0 <? _); [by apply brainOk_links|done].
Qed.

Lemma brainOk_exec t o d : brainOk d -> brainOk (bexec t o d).
Proof.
  intros Hd. destruct o as [uuid i|k ow n keep|p|uid id from x|uid id c|uid|uid|uid on|]; cbn [bexec].
  - by apply brainOk_put.
  - by apply brainOk_delete.
  - unfold addProposal. repeat (match goal with |- context [if ?b then _ else _] => destruct b end; [done|]). by apply (brainOk_frame d).
  - unfold moveProposal. destruct (List.find _ _); [|done]. by apply (brainOk_frame d).
  - by apply (brainOk_frame d).
  - unfold nextQueuedProposal. destruct (head _); [|done]. by apply (brainOk_frame d).
  - by apply (brainOk_frame d).
  - by apply (brainOk_frame d).
  - unfold purgeBrain. eapply (brainOk_frame (mkBrain (entries d) _ (links d) (proposals d) (improve d) (vserial d))); [done|done|done|].
    apply brainOk_sub; [done| |done]. etrans; apply remove_sublist.
Qed.

Lemma later_ok d d' : later d d' -> brainOk d -> brainOk d'.
Proof. induction 1; [done|]. intros Hd. apply brainOk_exec. auto. Qed.

(** The entries of a person keep their shape under every sequence of writes, deletions,
    proposals and purges: one entry per kind and name, at most 200 of a kind, and bodies
    that cleaning would leave as they are. *)
Theorem entries_wellformed d k o : later blankBrain d ->
  NoDup (map entryKey (entries d)) /\ count (fun r => (n_kind r === k) && (n_owner r =? o)) (entries d) <= MAX_ENTRIES_PER_KIND
  /\ forall r, r ∈ entries d -> cleanText (n_body r) MAX_ENTRY_BODY = n_body r.
Proof.
  intros Hl. destruct (later_ok _ _ Hl blank_ok_brain) as [_ H2 H3 _ H5 _ _ _]. done.
Qed.

Definition aSkill (name body : string) : EntryInput := mkInput Skill 1 name (Text_ body) (Some (Some "codex")) None.

Lemma entries_wellformed_witness :
  let d := bexec 20 (BPut "e2" (aSkill "ship" "new")) (bexec 10 (BPut "e1" (aSkill "ship" "old")) blankBrain) in
  NoDup (map entryKey (entries d)) /\ count (fun r => (n_kind r === Skill) && (n_owner r =? 1)) (entries d) <= MAX_ENTRIES_PER_KIND
  /\ forall r, r ∈ entries d -> cleanText (n_body r) MAX_ENTRY_BODY = n_body r.
Proof. cbv zeta. apply entries_wellformed. constructor. constructor. constructor. Defined.

(** ** History *)

Lemma updateEntry_versions t i e body d v : v ∈ versions (updateEntry t i e body d).2 -> v ∈ versions d \/ v_id v = vserial d.
Proof.
  unfold updateEntry. destruct (n_body e === body); cbn; [auto|]. intros [H|H]%elem_of_app; [auto|].
  apply list_elem_of_singleton in H as ->. auto.
Qed.

Lemma updateEntry_serial t i e body d : vserial d <= vserial (updateEntry t i e body d).2.
Proof. unfold updateEntry. destruct (n_body e === body); cbn; lia. Qed.

Lemma putEntry_versions t uuid i d : vserial d <= vserial (settled d (putEntry t uuid i d))
  /\ forall v, v ∈ versions (settled d (putEntry t uuid i d)) -> v ∈ versions d \/ v_id v = vserial d.
Proof.
  unfold putEntry. destruct (negb _); [cbn; split; [lia|auto]|]. destruct (bodyFor _ _) as [next|]; [|cbn; split; [lia|auto]].
  destruct (_ <? _)%nat; [cbn; split; [lia|auto]|]. destruct (findEntry _ _ _ _) as [e|].
  - cbn [settled]. pose proof (updateEntry_serial t i e (cleanText next MAX_ENTRY_BODY) d) as H1.
    pose proof (updateEntry_versions t i e (cleanText next MAX_ENTRY_BODY) d) as H2. by destruct (updateEntry _ _ _ _ _).
  - destruct (insertEntry_cases t uuid i (cleanLine (i_name i) MAX_ENTRY_NAME) (cleanText next MAX_ENTRY_BODY) d)
      as [-> |[-> |(row & _ & _ & _ & _ & _ & _ & _ & ->)]]; cbn; (split; [lia|auto]).
Qed.

Lemma bexec_versions t o d : vserial d <= vserial (bexec t o d)
  /\ forall v, v ∈ versions (bexec t o d) -> v ∈ versions d \/ v_id v = vserial d.
Proof.
  destruct o as [uuid i|k ow n keep|p|uid id from x|uid id c|uid|uid|uid on|]; cbn [bexec].
  - apply putEntry_versions.
  - unfold deleteEntry. set (d1 := if negb keep then _ else _).
    assert (vserial d <= vserial d1 /\ forall v, v ∈ versions d1 -> v ∈ versions d \/ v_id v = vserial d) as H.
    { unfold d1. destruct keep; cbn [negb]; [|cbn; split; [lia|intros v [Hv _]%elem_remove; auto]].
      destruct (findEntry _ _ _ _); cbn; [|split; [lia|auto]]. split; [lia|]. intros v [Hv|Hv]%elem_of_app; [auto|].
      apply list_elem_of_singleton in Hv as ->. auto. }
    cbn [snd]. by destruct (0 <? _).
  - unfold addProposal. repeat (match goal with |- context [if ?b then _ else _] => destruct b end; [cbn; split; [lia|auto]|]). cbn; split; [lia|auto].
  - unfold moveProposal. destruct (List.find _ _); cbn; (split; [lia|auto]).
  - cbn; split; [lia|auto].
  - unfold nextQueuedProposal. destruct (head _); cbn; (split; [lia|auto]).
  - cbn; split; [lia|auto].
  - cbn; split; [lia|auto].
  - cbn. split; [lia|]. intros v [[Hv _]%elem_remove _]%elem_remove. auto.
Qed.

(** A version is never rewritten: what is found later under an old number was there before. *)
Lemma later_versions d d' : later d d' -> vserial d <= vserial d' /\ forall v, v ∈ versions d' -> v_id v < vserial d -> v ∈ versions d.
Proof.
  induction 1 as [d|t o d d' Hl [IH1 IH2]]; [split; [lia|auto]|]. destruct (bexec_versions t o d') as [H1 H2].
  split; [lia|]. intros v Hv Hlt. destruct (H2 v Hv) as [H|H]; [by apply IH2|lia].
Qed.

(** ** Applying and reverting *)

Definition bodyOf (kind : EntryKind) (uid : Z) (name : string) (d : brain) : option string := n_body <$> getEntry kind uid name d.

Lemma find_ext_entries kind uid name d d' : entries d' = entries d -> bodyOf kind uid name d' = bodyOf kind uid name d.
Proof. intros E. unfold bodyOf, getEntry, findEntry. by rewrite E. Qed.

Lemma find_key kind uid name d r : brainOk d -> r ∈ entries d -> n_kind r = kind -> n_owner r = uid -> n_name r = name -> findEntry kind uid name d = Some r.
Proof.
  intros Hd Hin Hk Ho Hn. destruct (findEntry kind uid name d) as [r'|] eqn:E.
  - apply findEntry_spec in E as (Hin' & Hk' & Ho' & Hn'). f_equal. apply (same_key entryKey (entries d)); [apply Hd|done|done|]. unfold entryKey. congruence.
  - unfold findEntry in E. apply (Arr.find_none _ _ r) in E; [|done]. unfold isEntry in E. subst. by rewrite !bool_decide_eq_true_2, Z.eqb_refl in E by done.
Qed.

(** What a successful [putEntry] leaves: the body asked for, and the old one as a version when
    it was another. *)
Lemma putEntry_put t uuid i d e created v d' : brainOk d -> putEntry t uuid i d = Ok (Put e created v, d') ->
  exists next, bodyFor i (getEntry (i_kind i) (i_owner i) (i_name i) d) = Some next
  /\ bodyOf (i_kind i) (i_owner i) (i_name i) d' = Some (cleanText next MAX_ENTRY_BODY)
  /\ (if created then bodyOf (i_kind i) (i_owner i) (i_name i) d = None
      else exists old, getEntry (i_kind i) (i_owner i) (i_name i) d = Some old
        /\ match v with
           | None => n_body old = cleanText next MAX_ENTRY_BODY
           | Some x => x = vserial d /\ vserial d' = vserial d + 1 /\ exists w, w ∈ versions d' /\ v_id w = x /\ v_owner w = i_owner i /\ v_body w = n_body old
           end).
Proof.
  intros Hd Hp. assert (brainOk d') as Hd'. { pose proof (brainOk_put t uuid i d Hd) as H. by rewrite Hp in H. }
  unfold putEntry in Hp. destruct (Str.truthy _) eqn:Et; [|done]. cbn [negb] in Hp. unfold getEntry, bodyOf, getEntry.
  destruct (findEntry (i_kind i) (i_owner i) (cleanLine (i_name i) MAX_ENTRY_NAME) d) as [old|] eqn:Ef.
  - destruct (bodyFor i (Some old)) as [next|] eqn:En; [|done]. destruct (_ <? _)%nat; [done|]. exists next. split; [done|].
    apply findEntry_spec in Ef as (Hin & Ek & Eo & Ename). injection Hp as Hp. unfold updateEntry in Hp.
    set (body := cleanText next MAX_ENTRY_BODY) in *. set (author := match i_author i with None => _ | Some a => a end) in Hp.
    assert (rewritten t body author old ∈ entries d') as Hnew.
    { destruct (n_body old === body); cbn in Hp; injection Hp as _ _ _ Hd1; rewrite <- Hd1; cbn; apply elem_update; exists old;
        (split; [done|]); by rewrite bool_decide_eq_true_2. }
    rewrite (find_key _ _ _ d' _ Hd' Hnew) by done. split; [done|].
    destruct (n_body old === body) eqn:Eb; cbn in Hp; injection Hp as _ <- <- <-; exists old; (split; [done|]);
      [by apply bool_decide_eq_true in Eb|].
    cbn. split; [done|]. split; [done|]. eexists. split; [apply elem_of_app; right; by left|]. done.
  - destruct (bodyFor i None) as [next|] eqn:En; [|done]. destruct (_ <? _)%nat; [done|]. exists next. split; [done|].
    destruct (insertEntry_cases t uuid i (cleanLine (i_name i) MAX_ENTRY_NAME) (cleanText next MAX_ENTRY_BODY) d)
      as [Hs|[Hs|(row & E1 & E2 & E3 & E4 & E5 & _ & _ & Hs)]]; rewrite Hs in Hp; [done|done|]. injection Hp as _ <- _ Hd1.
    split; [|done]. assert (row ∈ entries d') as Hrow by (rewrite <- Hd1; cbn; apply elem_of_app; right; by left).
    rewrite (find_key _ _ _ d' _ Hd' Hrow) by done. cbn. by rewrite E5.
Qed.

Lemma moveProposal_entries t uid id from x d : entries (moveProposal t uid id from x d).2 = entries d.
Proof. unfold moveProposal. by destruct (List.find _ _). Qed.

Lemma deleteEntry_gone t kind uid name keep d : bodyOf kind uid name (deleteEntry t kind uid name keep d).2 = None.
Proof.
  unfold bodyOf, getEntry. set (clean := cleanLine name MAX_ENTRY_NAME).
  assert (findEntry kind uid clean (deleteEntry t kind uid name keep d).2 = None) as ->; [|done].
  destruct (findEntry _ _ _ _) as [r|] eqn:E; [|done]. exfalso. apply Arr.find_elem in E as [Hin Hr].
  unfold deleteEntry in Hin. fold clean in Hin. cbn [snd] in Hin.
  assert (forall d1, r ∈ entries (setEntries (remove (isEntry kind uid clean) (entries d1)) d1) -> False) as Hno.
  { intros d1 [_ H]%elem_remove. congruence. }
  destruct (0 <? _) in Hin; by apply Hno in Hin.
Qed.

Lemma bodyOf_clean kind uid name b d : brainOk d -> bodyOf kind uid name d = Some b -> cleanText b MAX_ENTRY_BODY = b.
Proof.
  intros Hd. unfold bodyOf, getEntry. destruct (findEntry _ _ _ _) as [r|] eqn:E; [|done]. intros [= <-].
  apply findEntry_spec in E as (Hin & _). by apply Hd.
Qed.

(** C36: reverting an applied proposal brings back what was there before: whatever was written,
    deleted, proposed and purged since a proposal was applied, a revert that goes through
    leaves the entry with the body it had before the proposal, or without the entry if the
    proposal had created it. *)
Theorem revert_restores t uuid uid p author d e created v d1 d2 t' uuid' p' r d3 :
  later blankBrain d -> putEntry t uuid (applyInput uid p author) d = Ok (Put e created v, d1) -> later d1 d2 ->
  q_kind p' = q_kind p -> q_name p' = q_name p -> q_proposed p' = q_proposed p -> q_appliedCreated p' = created -> q_appliedVersion p' = v ->
  q_kind p <> Memory -> revertProposal t' uuid' uid p' d2 = Ok (Moved r, d3) ->
  bodyOf (q_kind p) uid (q_name p) d3 = bodyOf (q_kind p) uid (q_name p) d.
Proof.
  intros Hb Hput Hl Ek En Ep Ec Ev Hmem. pose proof (later_ok _ _ Hb blank_ok_brain) as Hd.
  assert (brainOk d1) as Hd1. { pose proof (brainOk_put t uuid (applyInput uid p author) d Hd) as H. by rewrite Hput in H. }
  pose proof (later_ok _ _ Hl Hd1) as Hd2.
  apply putEntry_put in Hput as (next & Hnext & _ & Hold); [|done]. cbn in Hnext, Hold.
  destruct (_ === q_current p) in Hnext; [|done]. injection Hnext as <-.
  unfold revertProposal. rewrite Ek, En, Ep, Ec, Ev. destruct (_ !== Some (q_proposed p)) eqn:Elive; [done|].
  apply negb_false_iff, bool_decide_eq_true in Elive. change (bodyOf (q_kind p) uid (q_name p) d2 = Some (q_proposed p)) in Elive.
  destruct created.
  - rewrite Hold. intros H. destruct (moveProposal _ _ _ _ _ _) as [q d4] eqn:E in H. injection H as _ <-.
    rewrite (find_ext_entries _ _ _ (deleteEntry t' (q_kind p) uid (q_name p) true d2).2); [apply deleteEntry_gone|].
    pose proof (moveProposal_entries t' uid (q_id p') [Applied] (mkPatch Reverted None None None true) (deleteEntry t' (q_kind p) uid (q_name p) true d2).2) as Hm.
    by rewrite E in Hm.
  - destruct Hold as (old & Hget & Hv). unfold bodyOf at 2. rewrite Hget. cbn.
    pose proof (bodyOf_clean _ _ _ _ _ Hd2 Elive) as Hclean.
    destruct v as [x|].
    + destruct Hv as (-> & Hs & w & Hw & Hwid & Hwo & Hwb). destruct (entryVersion uid (vserial d) d2) as [w'|] eqn:Ew; [|done].
      apply Arr.find_elem in Ew as [Hw' E']. apply andb_true_iff in E' as [_ E']. apply Z.eqb_eq in E'.
      destruct (later_versions _ _ Hl) as [_ Hlv]. apply Hlv in Hw'; [|lia].
      assert (w' = w) as -> by (apply (same_key v_id (versions d1)); [apply Hd1|done|done|congruence]).
      rewrite Hwb. destruct (putEntry _ _ _ d2) as [[[e2 c2 v2| | | |] d4]|] eqn:Eput; cbn [obind]; try done.
      intros H. destruct (moveProposal _ _ _ _ _ d4) as [q d5] eqn:E in H. injection H as _ <-.
      rewrite (find_ext_entries _ _ _ d4); [|by rewrite <- (moveProposal_entries t' uid (q_id p') [Applied] (mkPatch Reverted None None None true) d4), E].
      apply putEntry_put in Eput as (n2 & Hn2 & Hbody & _); [|done]. cbn in Hn2, Hbody. rewrite Hbody. f_equal.
      unfold disownMemory in Hn2. rewrite bool_decide_eq_false_2 in Hn2 by done. injection Hn2 as <-.
      rewrite <- Hwb. by apply Hd1.
    + intros H. destruct (moveProposal _ _ _ _ _ d2) as [q d5] eqn:E in H. injection H as _ <-.
      rewrite (find_ext_entries _ _ _ d2); [|by rewrite <- (moveProposal_entries t' uid (q_id p') [Applied] (mkPatch Reverted None None None true) d2), E].
      rewrite Elive, Hv. by rewrite Hclean.
Qed.

(** A skill an agent wrote, and a proposal for it that a person accepts. *)
Definition before_ : brain := bexec 10 (BPut "e1" (aSkill "ship" "old")) blankBrain.
Definition aProposal (st : ProposalStatus) (v : option Z) : Proposal :=
  mkProposal "p" 1 Skill "ship" "" (Some "old") "new" st None true "codex" v false 20 None None.
Definition accepted : brain := settled before_ (putEntry 30 "x" (applyInput 1 (aProposal Waiting None) "web") before_).
Definition reverted : brain := settled accepted (revertProposal 50 "y" 1 (aProposal Applied (Some 1)) accepted).

Lemma revert_restores_witness : bodyOf Skill 1 "ship" reverted = bodyOf Skill 1 "ship" before_.
Proof.
  eapply (revert_restores 30 "x" 1 (aProposal Waiting None) "web" before_ _ false (Some 1) accepted accepted 50 "y" (aProposal Applied (Some 1)));
    [constructor; constructor|vm_compute; reflexivity|constructor|reflexivity..|discriminate|vm_compute; reflexivity].
Defined.

(** ** What is applied without asking *)

Lemma runGate_pass kind graded trials : verdict (runGate kind graded trials) = Pass ->
  GATE_MIN_GRADED <= graded
  /\ MIN_USABLE_GOALS <= count (fun r => ruling r === Cand) (List.filter usableTrial (take REPLAY_GOALS trials))
  /\ forall r, r ∈ take REPLAY_GOALS trials -> usableTrial r = true -> ruling r <> Base.
Proof.
  unfold runGate. destruct (graded <? _) eqn:Eg; [done|]. destruct (take REPLAY_GOALS trials) as [|t0 ts]; [done|].
  cbv zeta. set (usable := List.filter usableTrial (t0 :: ts)). destruct (Z.of_nat (length usable) <? _); [done|].
  destruct ((MIN_USABLE_GOALS <=? count (fun r => ruling r === Cand) usable) && (count (fun r => ruling r === Base) usable =? 0)) eqn:Ep; cbn [verdict]; [|done]. intros _. js_bool. split; [done|]. split; [done|]. apply Z.eqb_eq in H0. intros r Hr Hu Hb.
  unfold count in H0. assert (r ∈ List.filter (fun r => ruling r === Base) usable) as Hin.
  { apply Arr.elem_of_filter. split; [by apply bool_decide_eq_true_2|]. by apply Arr.elem_of_filter. }
  destruct (List.filter _ usable); [by apply elem_of_nil in Hin|]. cbn in H0. lia.
Qed.

Lemma testProposal_some t uid p gate d q d1 : testProposal t uid p gate d = (Some q, d1) ->
  bodyOf (q_kind p) uid (q_name p) d = q_current p /\ needsApproval uid p gate d = false
  /\ exists row, row ∈ proposals d /\ q_uid row = uid /\ q_id row = q_id p /\ q_status row = Testing
       /\ q = patched t (mkPatch Testing (Some gate) (Some false) None false) row.
Proof.
  unfold testProposal. destruct (_ !== _) eqn:Ec; [done|]. apply negb_false_iff, bool_decide_eq_true in Ec.
  destruct (_ === Fail); [done|]. destruct (needsApproval uid p gate d) eqn:En; [by destruct (moveProposal _ _ _ _ _ _)|].
  unfold moveProposal. destruct (List.find _ _) as [row|] eqn:Ef; [|done]. intros [= <- _]. split; [done|]. split; [done|].
  apply Arr.find_elem in Ef as [Hin Hm]. unfold movable in Hm. js_bool. apply Z.eqb_eq in H. exists row. repeat (split; [done|]).
  split; [|done]. cbn in H0. rewrite orb_false_r in H0. by js_bool.
Qed.

(** C18: a change goes into the brain without a person only under all the conditions: at least
    twenty graded outcomes, the candidate preferred in both orders on two past goals or more
    and never the current version, a skill, the setting on, no person ever having written or
    edited the entry; and, whatever happened between the test and the write, the text it
    replaces is exactly the text it was tested against. *)
Theorem auto_apply_guarded t uid p graded trials d q d1 t' uuid d' e c v d'' :
  testProposal t uid p (runGate (q_kind p) graded trials) d = (Some q, d1) ->
  (forall row, row ∈ proposals d -> q_uid row = uid -> q_id row = q_id p ->
     q_kind row = q_kind p /\ q_name row = q_name p /\ q_current row = q_current p) ->
  putEntry t' uuid (applyInput uid q (q_source p)) d' = Ok (Put e c v, d'') ->
  GATE_MIN_GRADED <= graded
  /\ MIN_USABLE_GOALS <= count (fun r => ruling r === Cand) (List.filter usableTrial (take REPLAY_GOALS trials))
  /\ (forall r, r ∈ take REPLAY_GOALS trials -> usableTrial r = true -> ruling r <> Base)
  /\ q_kind p = Skill /\ improveSettings uid d = true /\ humanTouched uid Skill (q_name p) d = false
  /\ bodyOf Skill uid (q_name p) d' = bodyOf Skill uid (q_name p) d.
Proof.
  intros (Hcur & Hn & row & Hrow & Hu & Hid & _ & ->)%testProposal_some Hsame Hput.
  destruct (Hsame row Hrow Hu Hid) as (Ek & En & Ec). unfold needsApproval in Hn.
  apply orb_false_iff in Hn as [[[Hv Hk]%orb_false_iff Hi]%orb_false_iff Hh].
  apply negb_false_iff, bool_decide_eq_true in Hv, Hk. apply negb_false_iff in Hi. apply runGate_pass in Hv as (H1 & H2 & H3).
  rewrite Hk in *. repeat (split; [done|]). rewrite Hcur.
  unfold putEntry in Hput. destruct (negb _); [done|]. cbn [bodyFor applyInput i_body i_kind i_owner i_name patched q_kind q_name q_current] in Hput.
  rewrite Ek, En, Ec in Hput. destruct (_ === q_current p) eqn:E in Hput; [|done]. by apply bool_decide_eq_true in E.
Qed.

Definition proposed : brain :=
  bexec 40 (BNext 1) (bexec 30 (BPropose (mkNewProposal "p" 1 Skill "ship" "" "new" "reflector"))
    (bexec 20 (BImprove 1 true) (bexec 10 (BPut "e1" (aSkill "ship" "old")) blankBrain))).
Definition underTest : Proposal := mkProposal "p" 1 Skill "ship" "" (Some "old") "new" Testing None true "reflector" None false 30 None (Some 40).
Definition won : trial := mkTrial (mkReplay true false true) (mkReplay true false true) 2 1.

Definition gated : GateResult := runGate Skill 25 [won; won; won].
Definition tested : Proposal := patched 50 (mkPatch Testing (Some gated) (Some false) None false) underTest.

Lemma auto_apply_guarded_witness : GATE_MIN_GRADED <= 25 /\ bodyOf Skill 1 "ship" proposed = bodyOf Skill 1 "ship" proposed.
Proof.
  destruct (auto_apply_guarded 50 1 underTest 25 [won; won; won] proposed tested (testProposal 50 1 underTest gated proposed).2 60 "z" proposed
              (mkEntry "e1" Skill 1 "ship" "new" 10 60 (Some "reflector") false) false (Some 1)
              (settled proposed (putEntry 60 "z" (applyInput 1 tested "reflector") proposed))) as (H1 & _ & _ & _ & _ & _ & H2).
  - vm_compute. reflexivity.
  - intros row Hrow _ _. vm_compute in Hrow. apply list_elem_of_singleton in Hrow as ->. vm_compute. done.
  - vm_compute. reflexivity.
  - split; [exact H1|exact H2].
Defined.

(** Accepting and rejecting at the same time: the entry is written, the rejection recorded,
    and the acceptance told it came too late. *)
Definition waiting : brain := setProposals [aProposal Waiting None] before_.

Example accept_reject_race :
  let written := settled waiting (putEntry 30 "x" (applyInput 1 (aProposal Waiting None) "web") waiting) in
  let rejected := (moveProposal 31 1 "p" [Waiting] (mkPatch Rejected None None None true) written).2 in
  let (answer, final) := applyMove 32 1 (aProposal Waiting None) (Put (mkEntry "" Skill 1 "" "" 0 0 None false) false (Some 1)) rejected in
  answer = None /\ bodyOf Skill 1 "ship" final = Some "new" /\ map q_status (proposals final) = [Rejected].
Proof. vm_compute. done. Qed.

Example links_of : extractLinks "see [[Ship it]], [[ship IT]] and (acme/app). not and/or x/y"
  = [("entry", "ship IT"); ("repo", "acme/app")].
Proof. vm_compute. reflexivity. Qed.
