(* ===== verification/BoardRunner.v ===== *)
(** * Agents that run on the board server

    [runner.ts] ([runAgent]), the gate of [executeRun] and [requestRefusal] of [routes.ts], and
    the table of runs in [store.ts].  The model, the tools and the gate's look at the store
    are oracles that may answer differently at every step. *)

From Stdlib Require Import ZArith Lia Ascii.
From S2P Require Import Prelude Collections Untrusted Board.
Open Scope Z_scope.

(** ** The table of runs *)

Inductive RunStatus := Running | RunDone | RunStopped | RunFailed.
#[global] Instance RunStatus_eq_dec : EqDecision RunStatus.
Proof. solve_decision. Defined.

Inductive StepKind := SThought | SCall | SResult | SBlocked | SFinal | SError.
#[global] Instance StepKind_eq_dec : EqDecision StepKind.
Proof. solve_decision. Defined.
Record RunStep := mkStep { s_kind : StepKind; s_text : string; s_tool : option string; s_ok : option bool }.

Record AgentRun := mkRun {
  r_id : string; r_uid : Z; r_agent : string; r_goal : string; r_status : RunStatus; r_steps : list (Z * RunStep);
  r_answer : option string; r_allow : bool; r_created : Z; r_updated : Z; r_request : option string }.

Definition RUN_STALE_MS : Z := 6 * 60000.
Definition RETAIN_RUNS_MS : Z := 7 * 24 * 3600000.

Definition running (uid : Z) (r : AgentRun) : bool := (r_uid r =? uid) && (r_status r === Running).

Definition finished (t : Z) (st : RunStatus) (answer : option string) (r : AgentRun) : AgentRun :=
  mkRun (r_id r) (r_uid r) (r_agent r) (r_goal r) st (r_steps r) answer (r_allow r) (r_created r) t (r_request r).
Definition stepped (t : Z) (s : RunStep) (r : AgentRun) : AgentRun :=
  mkRun (r_id r) (r_uid r) (r_agent r) (r_goal r) (r_status r) (r_steps r ++ [(t, s)]) (r_answer r) (r_allow r) (r_created r) t (r_request r).

Definition settleStaleRuns (t uid : Z) (l : list AgentRun) : list AgentRun :=
  update (fun r => running uid r && (r_updated r <? t - RUN_STALE_MS))
    (finished t RunStopped (Some "The server stopped before this run finished.")) l.

(** [INSERT ... ON CONFLICT (uid) WHERE status = 'running' DO NOTHING]: the index lets one
    running run of a person in. *)
Definition createRun (t : Z) (id : string) (uid : Z) (agent goal : string) (allow : bool) (request : option string) (l : list AgentRun)
    : outcome (bool * list AgentRun) :=
  let l1 := settleStaleRuns t uid l in
  if existsb (fun r => r_id r === id) l1 then Throw "duplicate key"
  else if existsb (running uid) l1 then Ok (false, l1)
  else Ok (true, l1 ++ [mkRun id uid agent goal Running [] None allow t t request]).

Definition isRunning (id : string) (r : AgentRun) : bool := (r_id r === id) && (r_status r === Running).
Definition addRunStep (t : Z) (id : string) (s : RunStep) (l : list AgentRun) : list AgentRun := update (isRunning id) (stepped t s) l.
Definition finishRun (t : Z) (id : string) (st : RunStatus) (answer : option string) (l : list AgentRun) : list AgentRun :=
  update (isRunning id) (finished t st answer) l.
Definition hasRunningRun (t uid : Z) (l : list AgentRun) : bool * list AgentRun :=
  let l1 := settleStaleRuns t uid l in (existsb (running uid) l1, l1).
Definition purgeRuns (t : Z) (l : list AgentRun) : list AgentRun := remove (fun r => r_created r <? t - RETAIN_RUNS_MS) l.

(** Requests that wait for an agent: open or sent back, or taken by a runner that stopped. *)
Definition stalledByRunner (d : board) (runs : list AgentRun) (p : PostRow) : bool :=
  (p_status p === Some Working)
  && match last (updatesOf (p_id p) d) with Some u => a_client (u_actor u) === "runner" | None => false end
  && negb (existsb (fun r => (r_request r === Some (p_id p)) && (r_status r === Running)) runs).
Definition waitingRequest (d : board) (runs : list AgentRun) (p : PostRow) : bool :=
  (p_type p === Task) && isNull (p_closed p)
  && (existsb (fun s => s === default Open (p_status p)) [Open; Changes] || stalledByRunner d runs p).

(** [COALESCE((SELECT MAX(u.at) ...), 0)] *)
Definition lastChanges (d : board) (id : string) : Z :=
  match map u_at (List.filter (fun u => u_kind u === UChanges) (updatesOf id d)) with
  | [] => 0
  | x :: l => foldl Z.max x l
  end.
Definition attempts (d : board) (runs : list AgentRun) (p : PostRow) : Z :=
  count (fun r => (r_request r === Some (p_id p)) && (lastChanges d (p_id p) <? r_created r)) runs.

Definition nextWaitingRequest (t uid maxAttempts since : Z) (d : board) (l : list AgentRun) : option PostRow * list AgentRun :=
  let runs := settleStaleRuns t uid l in
  (head (Arr.sort (Arr.by_key p_created)
     (List.filter (fun p => (p_uid p =? uid) && waitingRequest d runs p && (attempts d runs p <? maxAttempts) && (since <? p_created p)) (posts d))),
   runs).

(** ** At most one run at a time *)

Inductive rop :=
| RCreate (id : string) (uid : Z) (agent goal : string) (allow : bool) (request : option string)
| RStep (id : string) (s : RunStep)
| RFinish (id : string) (st : RunStatus) (answer : option string)
| RSettle (uid : Z)
| RPurge.

Definition rexec (t : Z) (o : rop) (l : list AgentRun) : list AgentRun :=
  match o with
  | RCreate id uid agent goal allow request => match createRun t id uid agent goal allow request l with Ok (_, l') => l' | Throw _ => l end
  | RStep id s => addRunStep t id s l
  | RFinish id st answer => if st === Running then l else finishRun t id st answer l
  | RSettle uid => settleStaleRuns t uid l
  | RPurge => purgeRuns t l
  end.

Definition oneRunning (l : list AgentRun) : Prop := forall uid, count (running uid) l <= 1.

Lemma count_update_le {A} (p q : A -> bool) f l : (forall r, p (f r) = true -> p r = true) -> count p (update q f l) <= count p l.
Proof. intros H. rewrite count_update. apply count_mono. intros r _. destruct (q r); auto. Qed.

Lemma settle_running t uid u l : count (running u) (settleStaleRuns t uid l) <= count (running u) l.
Proof. apply count_update_le. intros r. unfold running. cbn. by rewrite andb_false_r. Qed.

Lemma rexec_one t o l : oneRunning l -> oneRunning (rexec t o l).
Proof.
  intros Hl u. destruct o as [id uid agent goal allow req|id s|id st answer|uid|]; cbn [rexec].
  - unfold createRun. destruct (existsb _ _); [apply Hl|]. pose proof (settle_running t uid u l) as Hs. specialize (Hl u).
    destruct (existsb (running uid) _) eqn:E; [lia|]. rewrite count_app. unfold count at 2, running at 2. cbn [List.filter r_uid r_status].
    rewrite (bool_decide_eq_true_2 (Running = Running)), andb_true_r by done. destruct (uid =? u) eqn:Eu; cbn [length]; [|lia]. apply Z.eqb_eq in Eu. subst.
    assert (count (running u) (settleStaleRuns t u l) = 0) as ->; [|lia]. unfold count.
    destruct (List.filter _ _) as [|r l0] eqn:Ef; [done|]. assert (r ∈ List.filter (running u) (settleStaleRuns t u l)) as Hin by (rewrite Ef; by left).
    apply Arr.elem_of_filter in Hin as [Hr Hin]. rewrite Arr.existsb_false in E. by rewrite E in Hr.
  - etrans; [|apply (Hl u)]. by apply count_update_le.
  - destruct (st === Running) eqn:E; [apply Hl|]. etrans; [|apply (Hl u)]. apply count_update_le. intros r. unfold running. cbn. rewrite E. by rewrite andb_false_r.
  - etrans; [apply settle_running|apply Hl].
  - etrans; [apply count_sublist, remove_sublist|apply Hl].
Qed.

Lemma runs_one l ops : oneRunning l -> oneRunning (foldl (fun l o => rexec o.1 o.2 l) l ops).
Proof. revert l. induction ops as [|[t o] ops IH]; intros l Hl; [done|]. apply IH. by apply rexec_one. Qed.

(** A run that has ended is never touched again, only dropped when it is old. *)
Lemma rexec_ended t o l r : r ∈ l -> r_status r <> Running -> r ∈ rexec t o l \/ o = RPurge.
Proof.
  intros Hin Hs. assert (forall q f, q r = false -> r ∈ update q f l) as Hu by (intros q f E; apply elem_update; exists r; by rewrite E).
  assert (forall uid, running uid r = false) as Hr by (intros uid; unfold running; rewrite bool_decide_eq_false_2 by done; apply andb_false_r).
  assert (forall id, isRunning id r = false) as Hi by (intros id; unfold isRunning; rewrite (bool_decide_eq_false_2 (r_status r = Running)) by done; apply andb_false_r).
  destruct o as [id uid agent goal allow req|id s|id st answer|uid|]; cbn [rexec]; [|left; by apply Hu|left|left|by right].
  - left. unfold createRun. assert (r ∈ settleStaleRuns t uid l) as Hset by (apply Hu; by rewrite Hr). destruct (existsb _ _); [done|].
    destruct (existsb _ _); [done|]. apply elem_of_app. by left.
  - destruct (st === Running); [done|]. by apply Hu.
  - apply Hu. by rewrite Hr.
Qed.

(** ** The loop of an agent *)

Definition MAX_STEPS : nat := 10.
Definition HISTORY_CHARS : nat := 20 * 1000.
Definition STEP_TEXT : nat := 1200.
Definition RESULT_CHARS : nat := 3000.
#[global] Arguments HISTORY_CHARS : simpl never.
#[global] Arguments STEP_TEXT : simpl never.
#[global] Arguments RESULT_CHARS : simpl never.
#[global] Arguments clamp : simpl never.

Inductive Action :=
| ATool (thought tool : string) (arguments : json)
| AFinal (thought final : string)
| AInvalid (thought : string)
| AProse (thought prose : string).

Definition thoughtOf (a : Action) : string :=
  match a with ATool t _ _ | AFinal t _ | AInvalid t | AProse t _ => t end.

Record Tool := mkTool { t_name : string; t_readOnly : bool }.
Record ToolResult := mkResult { tr_text : string; tr_isError : bool }.

(** Joined output or [(no output)]. *)
Definition textOf (r : ToolResult) : string := if Str.truthy (tr_text r) then tr_text r else "(no output)".

(** [recent]: the newest items that fit. *)
Fixpoint recentRev (size : nat) (rev : list string) : list string :=
  match rev with
  | [] => []
  | item :: r => if (HISTORY_CHARS <? size + String.length item)%nat then [] else item :: recentRev (size + String.length item) r
  end.
Definition recent (history : list string) : string :=
  Str.join (String lf (String lf "")) (reverse (recentRev 0 (reverse history))).

(** A call that went through: the step, the tool, its arguments and what came back; [shadowed]
    when the overlay answered in place of the tool. *)
Record Call := mkCall { c_step : nat; c_tool : Tool; c_args : json; c_result : ToolResult; c_shadowed : bool }.

Record agent := mkAgent { history : list string; changes : list string; reminded : bool; recorded : list RunStep; calls : list Call }.
Definition newAgent : agent := mkAgent [] [] false [] [].

Definition record (k : StepKind) (text : string) (tool : option string) (ok : option bool) (a : agent) : agent :=
  mkAgent (history a) (changes a) (reminded a) (recorded a ++ [mkStep k text tool ok]) (calls a).
Definition say (line : string) (a : agent) : agent := mkAgent (history a ++ [line]) (changes a) (reminded a) (recorded a) (calls a).
Definition remind (b : bool) (a : agent) : agent := mkAgent (history a) (changes a) b (recorded a) (calls a).

Definition nl : string := String lf "".
Definition ledger (changes : list string) : string :=
  match changes with
  | [] => nl +:+ nl +:+ "This run made no changes."
  | _ => nl +:+ nl +:+ "Changes this run made:" +:+ nl +:+ Str.join nl (map (fun c => "- " +:+ c) changes)
  end.

Definition stepLabel (i : nat) : string := "Step " +:+ Str.showZ (Z.of_nat (S i)).

(** The line of the ledger for a call. *)
Definition changeLine (tool : string) (args : json) : string :=
  cleanLine (tool +:+ match json_field "kind" args with JStr k => " " +:+ k | _ => "" end
                  +:+ match json_field "name" args with JStr n => String " " (String dquote (n +:+ String dquote "")) | _ => "" end) 160.

(** [!readOnlyHint && isError !== true && !shadow]: an empty overlay counts as none. *)
Definition isChange (c : Call) : bool := negb (t_readOnly (c_tool c)) && negb (tr_isError (c_result c)) && negb (c_shadowed c && Str.truthy (tr_text (c_result c))).

Section loop.
Variable stringify : json -> string.
Variable fenceWrap : string -> string -> string.
(** The model's parsed reply at a step, given the history and whether it is the last one. *)
Variable model : nat -> string -> bool -> Action.
Variable tools : list Tool.
Variable gate : nat -> string -> json -> bool -> option string.
Variable overlay : string -> json -> option string.
Variable callTool : nat -> string -> json -> ToolResult.

Definition made (i : nat) (t : Tool) (args : json) (r : ToolResult) (shadowed : bool) (a : agent) : agent :=
  let c := mkCall i t args r shadowed in
  mkAgent (history a) (if isChange c then changes a ++ [changeLine (t_name t) args] else changes a) (reminded a) (recorded a) (calls a ++ [c]).

Definition refusal (i : nat) (tool : string) (args : json) (known : option Tool) : string :=
  match known with
  | Some t => default "" (gate i tool args (t_readOnly t))
  | None => tool +:+ " is not one of your tools."
  end.

Definition useTool (i : nat) (tool : string) (args : json) (a : agent) : agent :=
  let known := List.find (fun t => t_name t === tool) tools in
  let refused := refusal i tool args known in
  if Str.truthy refused then
    say (stepLabel i +:+ ": you asked for " +:+ cleanLine tool 80 +:+ ". It was refused: " +:+ refused)
      (record SBlocked refused (Some (cleanLine tool 80)) None a)
  else
    match known with
    | None => a
    | Some t =>
        let a1 := record SCall (clamp (stringify args) STEP_TEXT) (Some tool) None a in
        let shadow := overlay tool args in
        let result := match shadow with Some s => mkResult s false | None => callTool i tool args end in
        let text := textOf result in
        let a2 := record SResult (clamp text STEP_TEXT) (Some tool) (Some (negb (tr_isError result))) a1 in
        let a3 := made i t args result (negb (isNull shadow)) a2 in
        say (stepLabel i +:+ ": you called " +:+ tool +:+ " with " +:+ clamp (stringify args) 600 +:+ "."
               +:+ (if tr_isError result then " It failed." else "")
               +:+ " Result:" +:+ nl +:+ fenceWrap ("tool:" +:+ tool) (clamp text RESULT_CHARS)) a3
    end.

Definition PROSE_END : string := "The agent finished without a clean summary; its last reply is in the steps above.".

(** One step: the agent goes on, or ends with an answer. *)
Definition stepAgent (limit i : nat) (a : agent) : agent + string * agent :=
  let last := (i =? limit - 1)%nat in
  let action := model i (recent (history a)) last in
  let a0 := if Str.truthy (thoughtOf action) then record SThought (clamp (cleanLine (thoughtOf action) 600) STEP_TEXT) None None a else a in
  match action with
  | AProse _ prose =>
      if negb (reminded a0) && negb last then
        inl (say (stepLabel i +:+ ": you replied in prose, not with a JSON object. Do not think out loud. Reply with exactly one JSON object: a tool call, or a final answer.")
               (record SError "The model replied in prose instead of JSON, so the agent was asked again." None None (remind true a0)))
      else
        let a1 := record SThought (clamp (cleanLine prose 1000) STEP_TEXT) None None a0 in
        let answer := PROSE_END +:+ ledger (changes a1) in
        inr (answer, record SFinal answer None None a1)
  | AInvalid _ =>
      inl (say (stepLabel i +:+ ": your reply was not a valid JSON object. Reply with exactly one JSON object. Keep bodies short so the reply is not cut off.")
             (record SError "The model's reply was not valid JSON, so the agent was asked again." None None (remind false a0)))
  | AFinal _ final =>
      let text := if Str.truthy (Str.trim final) then Str.trim final else "The agent finished without a summary." in
      let answer := clamp text (6 * 1000) +:+ ledger (changes a0) in
      inr (answer, record SFinal answer None None (remind false a0))
  | ATool _ tool args => inl (useTool i tool args (remind false a0))
  end.

(** [for (let step = 0; step < limit; step++)], [todo] steps from [i] on. *)
Fixpoint runFrom (limit i todo : nat) (a : agent) : (RunStatus * string) * agent :=
  match todo with
  | O =>
      let answer := "Stopped after " +:+ Str.showZ (Z.of_nat limit) +:+ " steps without a final answer. The steps above show how far it got." +:+ ledger (changes a) in
      ((RunStopped, answer), record SFinal answer None None a)
  | S todo' =>
      match stepAgent limit i a with
      | inl a' => runFrom limit (S i) todo' a'
      | inr (answer, a') => ((RunDone, answer), a')
      end
  end.

Definition runAgent (limit : nat) : (RunStatus * string) * agent := runFrom limit 0 limit newAgent.

(** *** What a run does

    Every call was of a known tool the gate let through, one per step; the ledger lists the
    calls that changed something, in order. *)
Definition permitted (c : Call) : Prop :=
  c_tool c ∈ tools /\ Str.truthy (default "" (gate (c_step c) (t_name (c_tool c)) (c_args c) (t_readOnly (c_tool c)))) = false.

Definition ledgerOf (a : agent) : list string :=
  map (fun c => changeLine (t_name (c_tool c)) (c_args c)) (List.filter isChange (calls a)).

Record agentOk (i : nat) (a : agent) : Prop := AgentOk {
  ag_permitted : forall c, c ∈ calls a -> permitted c;
  ag_ledger : changes a = ledgerOf a;
  ag_steps : forall c, c ∈ calls a -> (c_step c < i)%nat;
  ag_count : (length (calls a) <= i)%nat }.

Lemma agentOk_calls i j a a' : (i <= j)%nat -> calls a' = calls a -> changes a' = changes a -> agentOk i a -> agentOk j a'.
Proof.
  intros Hij Ec Eh [H1 H2 H3 H4]. split; unfold ledgerOf in *; rewrite ?Ec, ?Eh; try done; [|lia].
  intros c Hc. specialize (H3 c Hc). lia.
Qed.

Lemma useTool_ok i tool args a : agentOk i a -> agentOk (S i) (useTool i tool args a).
Proof.
  intros Ha. unfold useTool. destruct (Str.truthy _) eqn:Er; [apply (agentOk_calls i (S i) a); done || lia|].
  destruct (List.find _ _) as [t|] eqn:Ef; [|apply (agentOk_calls i (S i) a); done || lia]. apply Arr.find_elem in Ef as [Hin Hn]. js_bool.
  cbn in Er. destruct Ha as [H1 H2 H3 H4]. split; cbn.
  - intros c [Hc|Hc]%elem_of_app; [by apply H1|]. apply list_elem_of_singleton in Hc as ->. by split.
  - unfold ledgerOf in *. cbn. rewrite List.filter_app, map_app, <- H2. cbn. destruct (isChange _); cbn; [done|by rewrite app_nil_r].
  - intros c [Hc|Hc]%elem_of_app; [specialize (H3 c Hc); lia|]. apply list_elem_of_singleton in Hc as ->. cbn. lia.
  - rewrite length_app. cbn. lia.
Qed.

Lemma stepAgent_ok limit i a : agentOk i a ->
  match stepAgent limit i a with
  | inl a' => agentOk (S i) a'
  | inr (answer, a') => agentOk (S i) a' /\ exists text, answer = text +:+ ledger (changes a')
  end.
Proof.
  intros Ha. unfold stepAgent. set (act := model _ _ _). set (a0 := if Str.truthy (thoughtOf act) then _ else a).
  assert (agentOk i a0) as H0 by (unfold a0; destruct (Str.truthy _); [by apply (agentOk_calls i i a)|done]).
  clearbody a0. destruct act as [th tool args|th fin|th|th prose].
  - apply useTool_ok. by apply (agentOk_calls i i a0).
  - split; [apply (agentOk_calls i (S i) a0); done || lia|]. by eexists.
  - apply (agentOk_calls i (S i) a0); done || lia.
  - destruct (_ && _); [apply (agentOk_calls i (S i) a0); done || lia|]. split; [apply (agentOk_calls i (S i) a0); done || lia|]. by eexists.
Qed.

Lemma runFrom_ok limit i todo a : agentOk i a ->
  agentOk (i + todo) (runFrom limit i todo a).2
  /\ exists text, (runFrom limit i todo a).1.2 = text +:+ ledger (changes (runFrom limit i todo a).2).
Proof.
  revert i a. induction todo as [|todo IH]; intros i a Ha; cbn [runFrom].
  - cbn [fst snd]. split; [by apply (agentOk_calls i (i + 0) a); [lia|..]|].
    eexists ("Stopped after " +:+ Str.showZ (Z.of_nat limit) +:+ " steps without a final answer. The steps above show how far it got.").
    cbn [record changes]. by rewrite !Str.append_assoc.
  - pose proof (stepAgent_ok limit i a Ha) as Hs. destruct (stepAgent limit i a) as [a'|[answer a']].
    + rewrite <- Nat.add_succ_comm. by apply IH.
    + destruct Hs as [Hok Ht]. split; [|exact Ht]. apply (agentOk_calls (S i) (i + S todo) a'); [lia|done..].
Qed.
End loop.

(** An agent's run is accounted for: whatever the model replies, the tools return and the
    gate decides at each step, the run ends within its limit of steps, calls at most one
    tool per step and only tools of its profile that the gate let through, and the answer it
    returns ends with a ledger of exactly the calls that changed something, in order. *)
Theorem agent_run_accounted stringify fenceWrap model tools gate overlay callTool limit :
  let r := runAgent stringify fenceWrap model tools gate overlay callTool limit in
  (forall c, c ∈ calls r.2 -> permitted tools gate c /\ (c_step c < limit)%nat)
  /\ (length (calls r.2) <= limit)%nat
  /\ exists text, r.1.2 = text +:+ ledger (ledgerOf r.2).
Proof.
  cbv zeta. unfold runAgent. edestruct (runFrom_ok stringify fenceWrap model tools gate overlay callTool limit 0 limit newAgent) as [[H1 H2 H3 H4] [text Ht]].
  - split; cbn; try done; intros c Hc; by apply elem_of_nil in Hc.
  - split; [intros c Hc; split; [by apply H1|by apply H3]|]. split; [done|]. exists text. by rewrite <- H2.
Qed.

(** ** What a run may do *)

Record profile := mkProfile { reflects : bool; builds : bool }.

Definition CREATE_WRITES : list string := ["brain_write"; "memory_save"].
Definition LIBRARIAN_READS : nat := 6.
Definition creates (tool : string) : bool := existsb (fun t => t === tool) CREATE_WRITES.

Definition reflectorRefusal (tool : string) (args : json) (readOnly : bool) : option string :=
  if readOnly || (tool === "propose_change") then None
  else if (tool === "brain_write") && json_is_str "lesson" (json_field "kind" args) then None
  else Some "The Reflector only reads, writes new lessons and proposes changes.".

Definition SCOPE : string :=
  "This run works on one request, so it can only report on that request, claim work and ask you in its repository, and add new brain entries.".

(** [getPost] is the board at the time. *)
Definition requestRefusal (request : PostRow) (getPost : string -> option PostRow) (tool : string) (args : json) : option string :=
  if creates tool || (tool === "run_report") then None
  else if tool === "board_release" then
    match json_field "post_id" args with
    | JStr id =>
        match getPost id with
        | Some claim =>
            if (p_type claim === Claim) && (p_uid claim =? p_uid request) && (p_client claim === "runner") && (p_repoName claim === p_repoName request)
            then None else Some SCOPE
        | None => Some SCOPE
        end
    | _ => Some SCOPE
    end
  else if tool === "work_update" then if json_is_str (p_id request) (json_field "task_id" args) then None else Some SCOPE
  else if tool === "board_post" then
    if json_is_str "claim" (json_field "type" args) && json_is_str (p_repoName request) (json_field "repo" args) then None else Some SCOPE
  else if tool === "board_ask" then if json_is_str (p_repoName request) (json_field "repo" args) then None else Some SCOPE
  else Some SCOPE.

Definition ENTRY_KINDS : list string := ["project"; "memory"; "skill"; "process"; "rule"; "lesson"; "record"; "role"].

(** [String(args.k ?? d)] *)
Definition argString (k d : string) (args : json) : string := json_to_string (json_or (json_field k args) (JStr d)).

(** The gate of [executeRun]; [reads] counts the reads of a librarian, [lessons] are the names
    of the lessons and [hasEntry] whether an entry exists at the time. *)
Definition runGate (p : profile) (request : option PostRow) (allowChanges : bool) (getPost : string -> option PostRow)
    (lessons : list string) (hasEntry : string -> string -> bool) (reads : nat) (tool : string) (args : json) (readOnly : bool)
    : option string * nat :=
  if reflects p then
    (match reflectorRefusal tool args readOnly with
     | Some why => Some why
     | None =>
         if tool !== "brain_write" then None
         else
           let wanted := Str.toLowerCase (cleanLine (argString "name" "" args) 120) in
           if existsb (fun l => Str.toLowerCase l === wanted) lessons
           then Some "A lesson with that name already exists. Write a new lesson with its own name." else None
     end, reads)
  else
    match (if readOnly then None else match request with Some r => requestRefusal r getPost tool args | None => None end) with
    | Some why => (Some why, reads)
    | None =>
        if negb readOnly && negb (isNull request) && negb (creates tool) then (None, reads)
        else
          let reads' := if readOnly && builds p then S reads else reads in
          if readOnly && builds p && (LIBRARIAN_READS <? reads')%nat then
            (Some "You have read enough. Write the entries the sources support now with brain_write, or finish.", reads')
          else if readOnly then (None, reads')
          else if allowChanges && negb (builds p) then (None, reads')
          else if negb (creates tool) then
            (Some (if builds p then "The librarian only reads sources and adds new entries."
                   else "Changes are off for this run, so this tool is not allowed. The person can allow changes when starting a run."), reads')
          else
            let kind := if tool === "memory_save" then "memory" else argString "kind" "" args in
            let name := argString "name" "" args in
            if existsb (fun k => k === kind) ENTRY_KINDS && Str.truthy name && hasEntry kind name then
              (Some ("An entry named " +:+ String dquote (cleanLine name 80 +:+ String dquote "")
                       +:+ " already exists. Without changes allowed, runs only add new entries, so pick another name or skip it."), reads')
            else (None, reads')
    end.

(** What a run for a request may change: new entries, its own report, its own task, claims and
    questions in its repository, and the runner's claims of that person there. *)
Definition withinRequest (r : PostRow) (getPost : string -> option PostRow) (hasEntry : string -> string -> bool) (tool : string) (args : json) : Prop :=
  (creates tool = true /\ forall kind, kind ∈ ENTRY_KINDS -> (tool = "memory_save" -> kind = "memory") ->
     (tool = "brain_write" -> kind = argString "kind" "" args) -> argString "name" "" args <> "" -> hasEntry kind (argString "name" "" args) = false)
  \/ tool = "run_report"
  \/ (tool = "work_update" /\ json_field "task_id" args = JStr (p_id r))
  \/ (tool = "board_post" /\ json_field "type" args = JStr "claim" /\ json_field "repo" args = JStr (p_repoName r))
  \/ (tool = "board_ask" /\ json_field "repo" args = JStr (p_repoName r))
  \/ (tool = "board_release" /\ exists id c, json_field "post_id" args = JStr id /\ getPost id = Some c
        /\ p_type c = Claim /\ p_uid c = p_uid r /\ p_client c = "runner" /\ p_repoName c = p_repoName r).

Lemma json_is_str_eq s j : json_is_str s j = true -> j = JStr s.
Proof. destruct j; cbn; try done. intros H. js_bool. done. Qed.

Lemma requestRefusal_none r getPost tool args : requestRefusal r getPost tool args = None -> creates tool = false ->
  forall hasEntry, withinRequest r getPost hasEntry tool args.
Proof.
  unfold requestRefusal, withinRequest. intros H Hc hasEntry. rewrite Hc in H. cbn in H.
  destruct (tool === "run_report") eqn:E1; js_bool; [auto|].
  destruct (tool === "board_release") eqn:E2; js_bool.
  { do 5 right. split; [done|]. destruct (json_field "post_id" args) as [| | | |id| |]; try done. destruct (getPost id) as [c|] eqn:Eg; [|done].
    destruct (_ && _) eqn:Ec; [|done].
    apply andb_true_iff in Ec as [[[Ht Hu]%andb_true_iff Hcl]%andb_true_iff Hr]. apply Z.eqb_eq in Hu. js_bool. by exists id, c. }
  destruct (tool === "work_update") eqn:E3; js_bool.
  { do 2 right. left. destruct (json_is_str _ _) eqn:Ej; [|done]. by apply json_is_str_eq in Ej. }
  destruct (tool === "board_post") eqn:E4; js_bool.
  { do 3 right. left. destruct (_ && _) eqn:Ej; [|done]. apply andb_true_iff in Ej as [?%json_is_str_eq ?%json_is_str_eq]. done. }
  destruct (tool === "board_ask") eqn:E5; js_bool.
  do 4 right. left. destruct (json_is_str _ _) eqn:Ej; [|done]. by apply json_is_str_eq in Ej.
Qed.

(** A run that works on a request stays within it: whenever the gate lets it change
    something, that is a new entry of the brain whose name is not taken, its own report, an
    update of the very task it works on, a claim or a question in that task's repository, or
    the release of a claim the same person's runner holds there. *)
Theorem request_run_confined p r getPost lessons hasEntry reads tool args :
  reflects p = false -> (runGate p (Some r) false getPost lessons hasEntry reads tool args false).1 = None ->
  withinRequest r getPost hasEntry tool args.
Proof.
  intros Hp. unfold runGate. rewrite Hp. cbn [negb isNull andb]. destruct (requestRefusal r getPost tool args) eqn:Er; [done|].
  destruct (creates tool) eqn:Ec; cbn [negb andb]; [|intros _; by apply requestRefusal_none].
  set (kind := if tool === "memory_save" then "memory" else argString "kind" "" args).
  destruct (_ && _ && _) eqn:E; [done|]. intros _. left. split; [done|]. intros k Hk Hm Hb Hn.
  assert (k = kind) as ->.
  { unfold kind. destruct (tool === "memory_save") eqn:Et; js_bool; [by apply Hm|]. apply Hb. unfold creates in Ec. cbn in Ec.
    rewrite orb_false_r in Ec. apply orb_true_iff in Ec as [Ec|Ec]; js_bool; congruence. }
  apply not_true_iff_false. intros Hh. rewrite Hh, andb_true_r in E. rewrite (proj2 (Str.truthy_iff _) Hn), andb_true_r in E.
  rewrite Arr.existsb_false in E. specialize (E kind Hk). by js_bool.
Qed.

Definition aRequest : PostRow := mkPost "t" 7 "acme/app" Task "ship" "" None None "ada" 1 "web" 10 None None None None None None.

Lemma request_run_confined_witness :
  withinRequest aRequest (fun _ => None) (fun _ _ => false) "work_update" (JObj [("task_id", JStr "t"); ("kind", JStr "progress")]).
Proof. apply (request_run_confined (mkProfile false false) aRequest _ [] _ 0); vm_compute; reflexivity. Defined.

(** A person has at most one run going at a time, whatever runs are created, stepped,
    finished, given up as stale and purged, and in whatever order. *)
Theorem one_run_at_a_time ops uid : count (running uid) (foldl (fun l o => rexec o.1 o.2 l) [] ops) <= 1.
Proof. apply (runs_one [] ops). intros u. done. Qed.
