(* ===== verification/SignIn.v ===== *)
(** * SignIn: signing in by a link sent to a mailbox

    [Broker] is the single-use claims of the core ([src/api/routes/auth-broker.ts]
    over the table of [src/auth/replay-dedupe.ts]) with its client
    ([plugins/chassis/src/claims.ts]).  The rest is the identity provider
    [plugins/auth/src/server.ts] with the tokens of [plugins/auth/src/tokens.ts]:
    an application asks to sign somebody in, the person gets a link by mail, the
    link gives a code, and the code an identity token.  Hashing, the signing of
    tokens and what people type are parameters or events; a token that verifies
    has been sealed by the provider ([sealed] is the log of what it sealed), and
    ids that are drawn are new.  The clocks of the provider and of the core are
    independent; the core's does not run backwards. *)

From Stdlib Require Import ZArith Lia Ascii.
From S2P Require Import Prelude Collections.
Open Scope Z_scope.

(** ** Claims that succeed once *)
Module Broker.

Definition NAMESPACE : string := "authbroker:".
Definition MAX_IDS : nat := 64.
Definition MAX_ID_LENGTH : nat := 200.
Definition MAX_HORIZON_MS : Z := 24 * 60 * 60 * 1000.
Definition PRUNE_INTERVAL_MS : Z := 60000.

(** The table [source_auth_replay] and the time of the next pruning. *)
Record t := mk { rows : jmap string Z; nextPruneAt : option Z }.

Definition empty : t := mk [] None.

Definition prune (now : Z) (b : t) : t :=
  if match nextPruneAt b with Some n => n <=? now | None => true end
  then mk (List.filter (fun p => negb (p.2 <? now)) (rows b)) (Some (now + PRUNE_INTERVAL_MS))
  else b.

(** [claim] of [createPostgresReplayDedupe]: insert unless the id is there. *)
Definition claim (eventId : string) (expiresAtMs now : Z) (b : t) : bool * t :=
  let b := prune now b in
  match JMap.get (rows b) eventId with
  | Some _ => (false, b)
  | None => (true, mk (JMap.set (rows b) eventId expiresAtMs) (nextPruneAt b))
  end.

Fixpoint claimAny (ids : list string) (expiresAtMs now : Z) (b : t) : option string * t :=
  match ids with
  | [] => (None, b)
  | i :: ids => let '(ok, b) := claim (NAMESPACE +:+ i) expiresAtMs now b in
                if ok then (Some i, b) else claimAny ids expiresAtMs now b
  end.

(** The route; [None] is a refusal or [claimed: null]. *)
Definition claimBrokerNonce (ids : list string) (expiresAtMs now : Z) (b : t) : option string * t :=
  if (length ids =? 0)%nat || (MAX_IDS <? length ids)%nat
     || negb (forallb (fun i => Str.truthy i && (String.length i <=? MAX_ID_LENGTH)%nat) ids)
  then (None, b) else
  if (expiresAtMs <=? now) || (now + MAX_HORIZON_MS <? expiresAtMs) then (None, b) else
  claimAny ids expiresAtMs now b.

(** What the network makes of a request. *)
Inductive Net := Delivered | AnswerLost | NotReached.

Definition claimFirst (net : Net) (ids : list string) (expiresAtMs now : Z) (b : t) : option string * t :=
  match net with
  | Delivered => claimBrokerNonce ids expiresAtMs now b
  | AnswerLost => (None, (claimBrokerNonce ids expiresAtMs now b).2)
  | NotReached => (None, b)
  end.

Definition rateId (kind bucket : string) (window slot : Z) : string :=
  ((("rate:" +:+ kind +:+ ":" +:+ bucket) +:+ ":" +:+ Str.showZ window) +:+ ":" +:+ Str.showZ slot).

Definition rateSlots (kind bucket : string) (window : Z) (limit : nat) : list string :=
  map (fun i => rateId kind bucket window (Z.of_nat i)) (seq 0 limit).

Lemma rateSlots_length kind b w n : length (rateSlots kind b w n) = n.
Proof. unfold rateSlots. by rewrite length_map, length_seq. Qed.

Definition windowOf (nowMs windowS : Z) : Z := nowMs / (windowS * 1000).

(** ** A claim succeeds once *)

(** While the time is [now], the claim of [i] until [e] is remembered. *)
Definition holds (i : string) (e now : Z) (b : t) : Prop := now <= e -> JMap.get (rows b) (NAMESPACE +:+ i) = Some e.

Definition ok (b : t) : Prop := JMap.wf (rows b).

Lemma prune_ok now b : ok b -> ok (prune now b).
Proof. intros H. unfold prune. destruct (match nextPruneAt b with Some _ => _ | None => _ end); [by apply JMap.wf_filter|done]. Qed.

Lemma prune_holds i e now now' b : ok b -> now <= now' -> holds i e now b -> holds i e now' (prune now' b).
Proof.
  intros Hok Hn Hh He. unfold prune. destruct (match nextPruneAt b with Some _ => _ | None => _ end); [|apply Hh; lia]. cbn.
  apply JMap.elem_get; [by apply JMap.wf_filter|]. apply Arr.elem_of_filter.
  split; [apply negb_true_iff, Z.ltb_ge; done|]. apply JMap.get_elem, Hh. lia.
Qed.

Lemma claim_ok i e now b : ok b -> ok (claim i e now b).2.
Proof.
  intros H%(prune_ok now). unfold claim. destruct (JMap.get _ _); [done|]. by apply JMap.wf_set.
Qed.

Lemma claim_keeps i e now j x now' b : ok b -> now <= now' -> holds i e now b -> holds i e now' (claim j x now' b).2.
Proof.
  intros Hok Hn Hh He. pose proof (prune_holds i e now now' b Hok Hn Hh He) as Hp. unfold claim.
  destruct (JMap.get _ j) eqn:Ej; [done|]. cbn [rows snd]. rewrite JMap.get_set. case_decide; [subst; congruence|done].
Qed.

Lemma claimAny_spec ids e now b : ok b ->
  ok (claimAny ids e now b).2 /\
  (forall i e' n, n <= now -> holds i e' n b -> holds i e' now (claimAny ids e now b).2) /\
  match (claimAny ids e now b).1 with
  | Some i => i ∈ ids /\ holds i e now (claimAny ids e now b).2 /\
              (forall n, n <= now -> now <= e -> ~ holds i e n b)
  | None => True
  end.
Proof.
  revert b. induction ids as [|i ids IH]; intros b Hok; cbn [claimAny].
  { split_and!; [done| |done]. intros j e' n Hn Hh He. apply Hh. lia. }
  pose proof (claim_ok (NAMESPACE +:+ i) e now b Hok) as Hok'.
  pose proof (fun j e' n => claim_keeps j e' n (NAMESPACE +:+ i) e now b Hok) as Hk.
  destruct (claim (NAMESPACE +:+ i) e now b) as [[] b'] eqn:Ec; cbn in Hok', Hk.
  - cbn. split_and!; [done|by eauto|left| |].
    + intros _. unfold claim in Ec. destruct (JMap.get _ _) eqn:Eg; [done|]. injection Ec as <-. cbn [rows]. by rewrite JMap.get_set_eq.
    + intros n Hn He Hh. pose proof (prune_holds i e n now b Hok Hn Hh He) as Hp. unfold claim in Ec.
      by rewrite Hp in Ec.
  - destruct (IH b' Hok') as (I1 & I2 & I3). split_and!; [done|intros j e' n Hn Hh; apply (I2 j e' now); [lia|by apply (Hk j e' n)]|].
    destruct (claimAny ids e now b').1 as [j|]; [|done]. destruct I3 as (Hj & Hh & Hn). split_and!; [by right|done|].
    intros n Hle He Hh'. apply (Hn now); [lia|done|]. by apply (Hk j e n).
Qed.

(** One request to the core: claims that were made are remembered, and what is
    claimed now was not claimed until the same time before. *)
Lemma claimFirst_spec net ids e now b : ok b ->
  ok (claimFirst net ids e now b).2 /\
  (forall i e' n, n <= now -> holds i e' n b -> holds i e' now (claimFirst net ids e now b).2) /\
  match (claimFirst net ids e now b).1 with
  | Some i => i ∈ ids /\ holds i e now (claimFirst net ids e now b).2 /\ (forall n, n <= now -> ~ holds i e n b)
  | None => True
  end.
Proof.
  intros Hok. destruct (claimAny_spec ids e now b Hok) as (A1 & A2 & A3).
  assert (Hsame : ok b /\ (forall i e' n, n <= now -> holds i e' n b -> holds i e' now b)).
  { split; [done|]. intros i e' n Hn Hh He. apply Hh. lia. }
  assert (Hc : let r := claimBrokerNonce ids e now b in
    ok r.2 /\ (forall i e' n, n <= now -> holds i e' n b -> holds i e' now r.2) /\
    match r.1 with Some i => i ∈ ids /\ holds i e now r.2 /\ (forall n, n <= now -> ~ holds i e n b) | None => True end).
  { unfold claimBrokerNonce. destruct (_ || _ || _); [by destruct Hsame|]. destruct (Z.leb_spec e now); [by destruct Hsame|].
    destruct (_ <? e); [by destruct Hsame|]. cbn. split_and!; [done|done|]. destruct (claimAny ids e now b).1; [|done].
    destruct A3 as (? & ? & Hn). split_and!; [done|done|]. intros n Hle. apply Hn; lia. }
  unfold claimFirst. destruct net; cbn; [done|by destruct Hc as (? & ? & _)|by destruct Hsame].
Qed.

End Broker.

(** ** Tokens *)
Inductive TokenPurpose := request_ | link_ | code_ | access_.
#[global] Instance TokenPurpose_eq_dec : EqDecision TokenPurpose.
Proof. solve_decision. Defined.

Definition purposeName (p : TokenPurpose) : string :=
  match p with request_ => "request" | link_ => "link" | code_ => "code" | access_ => "access" end.

Record Payload := mkPayload { claims : jmap string string; iss : string; aud : string; iat : Z; exp : Z; jti : string }.
#[global] Instance Payload_eq_dec : EqDecision Payload.
Proof. solve_decision. Defined.

Record AuthRequest := mkRequest {
  clientId : string; redirectUri : string; state : string; nonce : string; codeChallenge : string; scope : string }.

Record AuthConfig := mkConfig {
  issuer : string; c_clientId : string; clientSecret : string; c_redirectUri : string; tokenSecret : string;
  allowedEmails : list string; allowedEmailDomain : string;
  requestTtlS : Z; linkTtlS : Z; codeTtlS : Z; accessTtlS : Z;
  sendWindowS : Z; sendLimitPerIp : nat; sendLimitPerEmail : nat }.

Definition requestClaims (r : AuthRequest) : jmap string string :=
  [("cid", clientId r); ("ru", redirectUri r); ("st", state r); ("no", nonce r); ("cc", codeChallenge r); ("sc", scope r)].

(** A claim that is a non-empty string. *)
Definition claimOf (p : Payload) (k : string) : option string :=
  match JMap.get (claims p) k with Some v => if Str.truthy v then Some v else None | None => None end.

Definition readRequest (p : Payload) : option AuthRequest :=
  cid ← claimOf p "cid"; ru ← claimOf p "ru"; st ← claimOf p "st"; no ← claimOf p "no";
  cc ← claimOf p "cc"; sc ← claimOf p "sc"; Some (mkRequest cid ru st no cc sc).

(** ** Mail addresses *)
Definition emailChar (c : ascii) : bool :=
  negb (Str.js_space c) && negb (existsb (fun d => c === d) ["@"%char; ","%char; ";"%char; "<"%char; ">"%char; "034"%char]).

Fixpoint allChars (f : ascii -> bool) (s : string) : bool :=
  match s with "" => true | String c s => f c && allChars f s end.

(** At most 254 characters; one at sign; no white space, comma, semicolon, angle
    bracket or double quote; a dot inside the domain, with something on both sides. *)
Definition validEmail (value : string) : bool :=
  (String.length value <=? 254)%nat &&
  match Str.split "@" value with
  | [l; d] => Str.truthy l && allChars emailChar l && allChars emailChar d
              && Str.includesChar "." (Str.drop 1 (Str.take (String.length d - 1) d))
  | _ => false
  end.

Definition emailAllowed (cfg : AuthConfig) (email : string) : bool :=
  existsb (fun e => e === email) (allowedEmails cfg)
  || (Str.truthy (allowedEmailDomain cfg) && Str.endsWith email ("@" +:+ allowedEmailDomain cfg)).

Definition normalizeEmail (raw : string) : string := Str.toLowerCase (Str.trim raw).

Definition ID_TOKEN_TTL_S : Z := 300.
Definition MAX_INFLIGHT_SENDS : nat := 32.

Section provider.
(** SHA-256 in base64url; the first 22 characters of the HMAC of a rate limit's
    subject; decoding base64 to text; verifying under the key of a purpose. *)
Variables (sha256 : string -> string) (bucket : string -> string -> string).
Variable decodeBase64 : string -> string.
Variable verifySig : TokenPurpose -> string -> option Payload.
Variable cfg : AuthConfig.

Definition safeEqual (a b : string) : bool := sha256 a === sha256 b.

Definition verifierChar (c : ascii) : bool :=
  let n := N_of_ascii c in
  ((65 <=? n) && (n <=? 90) || (97 <=? n) && (n <=? 122) || (48 <=? n) && (n <=? 57))%N
  || existsb (fun d => c === d) ["-"%char; "."%char; "_"%char; "~"%char].

Definition challengeChar (c : ascii) : bool :=
  let n := N_of_ascii c in
  ((65 <=? n) && (n <=? 90) || (97 <=? n) && (n <=? 122) || (48 <=? n) && (n <=? 57))%N
  || existsb (fun d => c === d) ["-"%char; "_"%char].

(** A Basic header: what base64 decodes to, split at the first colon. *)
Definition basicCredentials (header : option string) : option (string * string) :=
  h ← header;
  if Str.toLowerCase (Str.take 6 h) !== "basic " then None else
  let decoded := decodeBase64 (Str.trim (Str.drop 6 h)) in
  match Str.indexOf ":" decoded with
  | Some (S n) => Some (Str.take (S n) decoded, Str.drop (S (S n)) decoded)
  | _ => None
  end.

Definition pkceMatches (codeVerifier challenge : string) : bool :=
  if (String.length codeVerifier <? 43)%nat || (128 <? String.length codeVerifier)%nat || negb (allChars verifierChar codeVerifier)
  then false else safeEqual (sha256 codeVerifier) challenge.

Definition subjectFor (email : string) : string := sha256 (issuer cfg +:+ String "010"%char "" +:+ email).

Definition audienceFor (p : TokenPurpose) : string := "qm-auth:" +:+ purposeName p.

Definition sealed_ (purpose : TokenPurpose) (cs : jmap string string) (ttlS nowMs : Z) (newJti : string) : Payload :=
  let issuedAt := nowMs / 1000 in
  mkPayload cs (issuer cfg) (audienceFor purpose) issuedAt (issuedAt + ttlS) newJti.

(** [open]: [jwtVerify] with its issuer, audience and a tolerance of five seconds. *)
Definition open (purpose : TokenPurpose) (token : string) (nowMs : Z) : option Payload :=
  match verifySig purpose token with
  | Some p => if (iss p === issuer cfg) && (aud p === audienceFor purpose) && (nowMs / 1000 - 5 <? exp p) then Some p else None
  | None => None
  end.

Definition openRequest (token : string) (nowMs : Z) : option AuthRequest :=
  p ← open request_ token nowMs; readRequest p.

Definition linkClaims (r : AuthRequest) (email : string) : jmap string string := requestClaims r ++ [("em", email)].

Definition openLink (token : string) (nowMs : Z) : option (AuthRequest * string * Payload) :=
  p ← open link_ token nowMs; r ← readRequest p; em ← claimOf p "em"; Some (r, em, p).

Definition codeClaims (r : AuthRequest) (email : string) : jmap string string :=
  [("cid", clientId r); ("ru", redirectUri r); ("no", nonce r); ("cc", codeChallenge r); ("em", email)].

Record CodeClaims := mkCode { k_clientId : string; k_redirectUri : string; k_nonce : string; k_codeChallenge : string; k_email : string }.

Definition openCode (token : string) (nowMs : Z) : option (CodeClaims * Payload) :=
  p ← open code_ token nowMs;
  cid ← claimOf p "cid"; ru ← claimOf p "ru"; no ← claimOf p "no"; cc ← claimOf p "cc"; em ← claimOf p "em";
  Some (mkCode cid ru no cc em, p).

(** [readAuthorizeRequest]: the request, or [None] for a problem page. *)
Definition readAuthorizeRequest (params : string -> option string) : option AuthRequest :=
  let get k := default "" (params k) in
  let cid := get "client_id" in
  let ru := get "redirect_uri" in
  if negb (Str.truthy cid) || negb (safeEqual cid (c_clientId cfg)) then None else
  if negb (Str.truthy ru) || negb (safeEqual ru (c_redirectUri cfg)) then None else
  if get "response_type" !== "code" then None else
  if get "code_challenge_method" !== "S256" then None else
  let cc := get "code_challenge" in
  if negb ((String.length cc =? 43)%nat && allChars challengeChar cc) then None else
  let st := get "state" in
  let no := get "nonce" in
  if negb (Str.truthy st) || (512 <? String.length st)%nat then None else
  if negb (Str.truthy no) || (512 <? String.length no)%nat then None else
  let sc := default "openid" (params "scope") in
  if negb (existsb (fun w => w === "openid") (Str.split " " (Str.collapse false sc))) then None else
  Some (mkRequest cid ru st no cc sc).

(** ** The provider at work *)

(** A mail with the link of [m_jti], sent under claim [m_slot] of window [m_window]. *)
Record Mail := mkMail { m_to : string; m_jti : string; m_slot : string; m_window : Z }.

(** An identity token, with the code and the link it came from. *)
Record IdToken := mkIdToken {
  it_sub : string; it_email : string; it_nonce : string; it_verifier : string; it_code : string; it_link : string }.

Record Sys := mkSys {
  broker : Broker.t; coreNow : Z;
  sealed : list (TokenPurpose * Payload);
  pending : list (AuthRequest * string * string);
  mails : list Mail;
  codes : list (string * string);  (** the code's id and its link's *)
  minted : list IdToken }.

Definition start : Sys := mkSys Broker.empty 0 [] [] [] [] [].

Definition fresh (j : string) (y : Sys) : bool := negb (existsb (fun e => jti e.2 === j) (sealed y)).

(** Nobody can make a token that verifies: it is one the provider sealed. *)
Definition authentic (token : string) (y : Sys) : bool :=
  forallb (fun p => match verifySig p token with
                    | Some pl => existsb (fun e => e === (p, pl)) (sealed y)
                    | None => true
                    end) [request_; link_; code_; access_].

Definition logSealed (purpose : TokenPurpose) (p : Payload) (y : Sys) : Sys :=
  mkSys (broker y) (coreNow y) ((purpose, p) :: sealed y) (pending y) (mails y) (codes y) (minted y).

Definition withBroker (b : Broker.t) (t : Z) (y : Sys) : Sys :=
  mkSys b t (sealed y) (pending y) (mails y) (codes y) (minted y).

Definition withPending (l : list (AuthRequest * string * string)) (y : Sys) : Sys :=
  mkSys (broker y) (coreNow y) (sealed y) l (mails y) (codes y) (minted y).

(** GET /authorize *)
Definition authorizeForm (params : string -> option string) (newJti : string) (nowMs : Z) (y : Sys) : Sys :=
  match readAuthorizeRequest params with
  | Some r => logSealed request_ (sealed_ request_ (requestClaims r) (requestTtlS cfg) nowMs newJti) y
  | None => y
  end.

(** POST /authorize: answered with the same page in any case; the sending of the
    link is left to the background, unless too many are in flight. *)
Definition authorizeSubmit (token rawEmail ip newJti : string) (nowMs : Z) (y : Sys) : Sys :=
  match openRequest token nowMs with
  | None => y
  | Some r =>
    let email := normalizeEmail rawEmail in
    if negb (validEmail email) then logSealed request_ (sealed_ request_ (requestClaims r) (requestTtlS cfg) nowMs newJti) y else
    if (MAX_INFLIGHT_SENDS <=? length (pending y))%nat then y else withPending (pending y ++ [(r, email, ip)]) y
  end.

Definition limitClaim (net : Broker.Net) (kind value : string) (limit : nat) (nowMs coreT : Z) (b : Broker.t) : option string * Broker.t :=
  let window := Broker.windowOf nowMs (sendWindowS cfg) in
  Broker.claimFirst net (Broker.rateSlots kind (bucket kind value) window limit) ((window + 1) * sendWindowS cfg * 1000) coreT b.

(** [sendLink] *)
Definition sendLink (r : AuthRequest) (email ip newJti : string) (nowMs coreT : Z) (net1 net2 : Broker.Net) (y : Sys) : Sys :=
  if negb (emailAllowed cfg email) then y else
  match limitClaim net1 "ip" ip (sendLimitPerIp cfg) nowMs coreT (broker y) with
  | (None, b) => withBroker b coreT y
  | (Some _, b) =>
    match limitClaim net2 "mailbox" email (sendLimitPerEmail cfg) nowMs coreT b with
    | (None, b) => withBroker b coreT y
    | (Some slot, b) =>
      let p := sealed_ link_ (linkClaims r email) (linkTtlS cfg) nowMs newJti in
      let y := logSealed link_ p (withBroker b coreT y) in
      mkSys (broker y) (coreNow y) (sealed y) (pending y)
        (mkMail email newJti slot (Broker.windowOf nowMs (sendWindowS cfg)) :: mails y) (codes y) (minted y)
    end
  end.

(** POST /verify *)
Definition verify (token newJti : string) (nowMs coreT : Z) (net : Broker.Net) (y : Sys) : Sys :=
  match openLink token nowMs with
  | None => y
  | Some (r, email, p) =>
    match Broker.claimFirst net ["link:" +:+ jti p] (exp p * 1000) coreT (broker y) with
    | (None, b) => withBroker b coreT y
    | (Some _, b) =>
      let y := withBroker b coreT y in
      if negb (safeEqual (clientId r) (c_clientId cfg)) || negb (safeEqual (redirectUri r) (c_redirectUri cfg)) then y else
      if negb (emailAllowed cfg email) then y else
      let y := logSealed code_ (sealed_ code_ (codeClaims r email) (codeTtlS cfg) nowMs newJti) y in
      mkSys (broker y) (coreNow y) (sealed y) (pending y) (mails y) ((newJti, jti p) :: codes y) (minted y)
    end
  end.

(** POST /token *)
Definition token (authorization : option string) (grantType tok redirect verifier newJti : string)
    (nowMs coreT : Z) (net : Broker.Net) (y : Sys) : Sys :=
  if negb match basicCredentials authorization with
          | Some (i, secret) => safeEqual i (c_clientId cfg) && safeEqual secret (clientSecret cfg)
          | None => false
          end then y else
  if grantType !== "authorization_code" then y else
  match openCode tok nowMs with
  | None => y
  | Some (g, p) =>
    if negb (safeEqual (k_clientId g) (c_clientId cfg)) || negb (safeEqual (k_redirectUri g) redirect)
       || negb (safeEqual redirect (c_redirectUri cfg)) then y else
    match Broker.claimFirst net ["code:" +:+ jti p] (exp p * 1000) coreT (broker y) with
    | (None, b) => withBroker b coreT y
    | (Some _, b) =>
      let y := withBroker b coreT y in
      if negb (pkceMatches verifier (k_codeChallenge g)) then y else
      if negb (emailAllowed cfg (k_email g)) then y else
      let sub := subjectFor (k_email g) in
      let y := logSealed access_ (sealed_ access_ [("sub", sub); ("em", k_email g)] (accessTtlS cfg) nowMs newJti) y in
      let from := match List.find (fun e => e.1 === jti p) (codes y) with Some e => e.2 | None => "" end in
      mkSys (broker y) (coreNow y) (sealed y) (pending y) (mails y) (codes y)
        (mkIdToken sub (k_email g) (k_nonce g) verifier (jti p) from :: minted y)
    end
  end.

Definition openAccess (tok : string) (nowMs : Z) : option (string * string) :=
  p ← open access_ tok nowMs;
  sub ← JMap.get (claims p) "sub"; em ← JMap.get (claims p) "em"; Some (sub, em).

(** GET /userinfo: the subject and address, if the header bears a good access token. *)
Definition userinfo (header : string) (nowMs : Z) : option (string * string) :=
  if Str.toLowerCase (Str.take 7 header) !== "bearer " then None else openAccess (Str.trim (Str.drop 7 header)) nowMs.

Inductive Event :=
| EForm (params : string -> option string) (newJti : string) (nowMs : Z)
| ESubmit (tok rawEmail ip newJti : string) (nowMs : Z)
| ESend (i : nat) (newJti : string) (nowMs coreT : Z) (net1 net2 : Broker.Net)
| EVerify (tok newJti : string) (nowMs coreT : Z) (net : Broker.Net)
| EToken (authorization : option string) (grantType tok redirect verifier newJti : string) (nowMs coreT : Z) (net : Broker.Net)
| ERestart.  (** the core restarts: only the table is left *)

Definition exec (ev : Event) (y : Sys) : option Sys :=
  match ev with
  | EForm params j nowMs => if fresh j y then Some (authorizeForm params j nowMs y) else None
  | ESubmit tok em ip j nowMs => if fresh j y && authentic tok y then Some (authorizeSubmit tok em ip j nowMs y) else None
  | ESend i j nowMs coreT n1 n2 =>
    match pending y !! i with
    | Some (r, em, ip) =>
      if fresh j y && (coreNow y <=? coreT)
      then Some (sendLink r em ip j nowMs coreT n1 n2 (withPending (delete i (pending y)) y)) else None
    | None => None
    end
  | EVerify tok j nowMs coreT net =>
    if fresh j y && authentic tok y && (coreNow y <=? coreT) then Some (verify tok j nowMs coreT net y) else None
  | EToken a g tok rd v j nowMs coreT net =>
    if fresh j y && authentic tok y && (coreNow y <=? coreT) then Some (token a g tok rd v j nowMs coreT net y) else None
  | ERestart => Some (withBroker (Broker.mk (Broker.rows (broker y)) None) (coreNow y) y)
  end.

Fixpoint execs (evs : list Event) (y : Sys) : option Sys :=
  match evs with [] => Some y | ev :: evs => match exec ev y with Some y => execs evs y | None => None end end.

(** ** Invariant *)

(** The application asked for this sign-in, and the provider accepted it. *)
Definition asked (y : Sys) (r : AuthRequest) : Prop := exists p, (request_, p) ∈ sealed y /\ readRequest p = Some r.

Definition limitExpiry (window : Z) : Z := (window + 1) * sendWindowS cfg * 1000.

Definition mailOk (y : Sys) (m : Mail) : Prop :=
  (exists p r, (link_, p) ∈ sealed y /\ jti p = m_jti m /\ claims p = linkClaims r (m_to m) /\ asked y r) /\
  emailAllowed cfg (m_to m) = true /\
  m_slot m ∈ Broker.rateSlots "mailbox" (bucket "mailbox" (m_to m)) (m_window m) (sendLimitPerEmail cfg) /\
  Broker.holds (m_slot m) (limitExpiry (m_window m)) (coreNow y) (broker y).

Definition codeOk (y : Sys) (c : string * string) : Prop :=
  exists pc pl r em, (code_, pc) ∈ sealed y /\ jti pc = c.1 /\ claims pc = codeClaims r em /\
    (link_, pl) ∈ sealed y /\ jti pl = c.2 /\ claims pl = linkClaims r em /\
    Broker.holds ("link:" +:+ c.2) (exp pl * 1000) (coreNow y) (broker y).

Definition tokenOk (y : Sys) (t : IdToken) : Prop :=
  exists pc r, (code_, pc) ∈ sealed y /\ jti pc = it_code t /\ claims pc = codeClaims r (it_email t) /\
    it_nonce t = nonce r /\ pkceMatches (it_verifier t) (codeChallenge r) = true /\
    emailAllowed cfg (it_email t) = true /\ it_sub t = subjectFor (it_email t) /\
    Broker.holds ("code:" +:+ it_code t) (exp pc * 1000) (coreNow y) (broker y).

(** An access token goes with an identity token. *)
Definition granted (y : Sys) (p : Payload) : Prop :=
  exists k, k ∈ minted y /\ claims p = [("sub", it_sub k); ("em", it_email k)].

Record inv (y : Sys) : Prop := mkInv {
  i_broker : Broker.ok (broker y);
  i_jti : NoDup (map (fun e => jti e.2) (sealed y));
  i_pending : forall r em ip, (r, em, ip) ∈ pending y -> asked y r;
  i_mail : forall m, m ∈ mails y -> mailOk y m;
  i_slots : NoDup (map m_slot (mails y));
  i_links : forall p, (link_, p) ∈ sealed y -> exists m, m ∈ mails y /\ m_jti m = jti p;
  i_code : forall c, c ∈ codes y -> codeOk y c;
  i_once : NoDup (map fst (codes y)) /\ NoDup (map snd (codes y));
  i_codes : forall p, (code_, p) ∈ sealed y -> exists l, (jti p, l) ∈ codes y;
  i_token : forall t, t ∈ minted y -> tokenOk y t /\ (it_code t, it_link t) ∈ codes y;
  i_minted : NoDup (map it_code (minted y));
  i_access : forall p, (access_, p) ∈ sealed y -> granted y p }.

(** What is known stays known. *)
Definition grows (y y' : Sys) : Prop :=
  (forall e, e ∈ sealed y -> e ∈ sealed y') /\
  (forall i e, Broker.holds i e (coreNow y) (broker y) -> Broker.holds i e (coreNow y') (broker y')).

Lemma asked_mono y y' r : grows y y' -> asked y r -> asked y' r.
Proof. intros [Hs _] (p & Hp & Hr). exists p. split; [by apply Hs|done]. Qed.

Lemma mailOk_mono y y' m : grows y y' -> mailOk y m -> mailOk y' m.
Proof.
  intros G ((p & r & Hp & Hj & Hc & Ha) & He & Hsl & Hh). split_and!; [|done|done|by apply G].
  exists p, r. split_and!; [by apply G|done|done|by eapply asked_mono].
Qed.

Lemma codeOk_mono y y' c : grows y y' -> codeOk y c -> codeOk y' c.
Proof.
  intros G (pc & pl & r & em & H1 & H2 & H3 & H4 & H5 & H6 & H7). exists pc, pl, r, em.
  split_and!; try done; by apply G.
Qed.

Lemma tokenOk_mono y y' t : grows y y' -> tokenOk y t -> tokenOk y' t.
Proof.
  intros G (pc & r & H1 & H2 & H3 & H4 & H5 & H6 & H7 & H8). exists pc, r. split_and!; try done; by apply G.
Qed.

Lemma fresh_jti j y : fresh j y = true -> j ∉ map (fun e => jti e.2) (sealed y).
Proof.
  unfold fresh. rewrite negb_true_iff. intros Hf (e & -> & He)%list_elem_of_fmap.
  assert (existsb (fun e' => jti e'.2 === jti e.2) (sealed y) = true); [|congruence].
  apply Arr.existsb_elem. exists e. split; [done|by apply bool_decide_eq_true].
Qed.

Lemma authentic_spec tok y p pl : authentic tok y = true -> verifySig p tok = Some pl -> (p, pl) ∈ sealed y.
Proof.
  unfold authentic. rewrite forallb_forall. intros Ha Hv. specialize (Ha p). rewrite Hv in Ha.
  assert (Hin : In p [request_; link_; code_; access_]) by (destruct p; cbn; tauto).
  apply Ha, Arr.existsb_elem in Hin as (e & He & ->%bool_decide_eq_true). done.
Qed.

(** One id, one payload. *)
Lemma sealed_unique y e e' : inv y -> e ∈ sealed y -> e' ∈ sealed y -> jti e.2 = jti e'.2 -> e = e'.
Proof.
  intros I He He' Hj. apply list_elem_of_lookup in He as [n Hn]. apply list_elem_of_lookup in He' as [n' Hn'].
  assert (n = n') as ->; [|congruence].
  apply (NoDup_lookup _ _ _ (jti e.2) (i_jti _ I)); rewrite list_lookup_fmap; [by rewrite Hn|by rewrite Hn', Hj].
Qed.

Lemma grows_seal purpose p y : grows y (logSealed purpose p y).
Proof. split; [intros e He; by right|done]. Qed.

(** Requests and access tokens add nothing but themselves. *)
Lemma seal_inv purpose p y : inv y -> (purpose = request_ \/ purpose = access_ /\ granted y p) -> fresh (jti p) y = true ->
  inv (logSealed purpose p y).
Proof.
  intros I Hp Hf. pose proof (grows_seal purpose p y) as G. destruct I. split; cbn; try done.
  - constructor; [by apply fresh_jti|done].
  - intros r em ip Hin. eapply asked_mono; [done|by eapply i_pending0].
  - intros m Hm. eapply mailOk_mono; [done|by apply i_mail0].
  - intros q [[= <- <-]|Hq]%elem_of_cons; [by destruct Hp as [|[]]|by apply i_links0].
  - intros c Hc. eapply codeOk_mono; [done|by apply i_code0].
  - intros q [[= <- <-]|Hq]%elem_of_cons; [by destruct Hp as [|[]]|by apply i_codes0].
  - intros t Ht. destruct (i_token0 _ Ht). split; [by eapply tokenOk_mono|done].
  - intros q [[= <- <-]|Hq]%elem_of_cons; [by destruct Hp as [|[]]|by apply i_access0].
Qed.

Lemma grows_broker b t y : (forall i e, Broker.holds i e (coreNow y) (broker y) -> Broker.holds i e t b) ->
  grows y (withBroker b t y).
Proof. intros H. by split. Qed.

Lemma broker_inv b t y : inv y -> Broker.ok b ->
  (forall i e, Broker.holds i e (coreNow y) (broker y) -> Broker.holds i e t b) -> inv (withBroker b t y).
Proof.
  intros I Hb Hh. pose proof (grows_broker b t y Hh) as G. destruct I. split; cbn; try done.
  - intros m Hm. eapply mailOk_mono; [done|by apply i_mail0].
  - intros c Hc. eapply codeOk_mono; [done|by apply i_code0].
  - intros k Hk. destruct (i_token0 _ Hk). split; [by eapply tokenOk_mono|done].
Qed.

Lemma pending_inv l y : inv y -> (forall r em ip, (r, em, ip) ∈ l -> asked y r) -> inv (withPending l y).
Proof. intros [] Hl. by split. Qed.

(** Reading a token gives what was sealed into it. *)
Lemma claimOf_get p k v : claimOf p k = Some v -> JMap.get (claims p) k = Some v.
Proof. unfold claimOf. destruct (JMap.get (claims p) k); [|done]. by destruct (Str.truthy _); intros [= <-]. Qed.

Lemma readRequest_get p r : readRequest p = Some r ->
  JMap.get (claims p) "cid" = Some (clientId r) /\ JMap.get (claims p) "ru" = Some (redirectUri r) /\
  JMap.get (claims p) "st" = Some (state r) /\ JMap.get (claims p) "no" = Some (nonce r) /\
  JMap.get (claims p) "cc" = Some (codeChallenge r) /\ JMap.get (claims p) "sc" = Some (scope r).
Proof.
  unfold readRequest. intros (cid & H1%claimOf_get & H)%bind_Some. apply bind_Some in H as (ru & H2%claimOf_get & H).
  apply bind_Some in H as (st & H3%claimOf_get & H). apply bind_Some in H as (no & H4%claimOf_get & H).
  apply bind_Some in H as (cc & H5%claimOf_get & H). apply bind_Some in H as (sc & H6%claimOf_get & H). by injection H as <-.
Qed.

Lemma link_read p r em r0 em0 : claims p = linkClaims r0 em0 -> readRequest p = Some r -> claimOf p "em" = Some em ->
  r = r0 /\ em = em0.
Proof.
  intros E (H1 & H2 & H3 & H4 & H5 & H6)%readRequest_get H7%claimOf_get. rewrite E in *. destruct r, r0.
  vm_compute in H1, H2, H3, H4, H5, H6, H7. by simplify_eq.
Qed.

Lemma code_read p g tok nowMs : openCode tok nowMs = Some (g, p) ->
  JMap.get (claims p) "cid" = Some (k_clientId g) /\ JMap.get (claims p) "no" = Some (k_nonce g) /\
  JMap.get (claims p) "cc" = Some (k_codeChallenge g) /\ JMap.get (claims p) "em" = Some (k_email g) /\
  verifySig code_ tok = Some p.
Proof.
  unfold openCode. intros (q & Ho & H)%bind_Some. apply bind_Some in H as (cid & H1%claimOf_get & H).
  apply bind_Some in H as (ru & H2%claimOf_get & H). apply bind_Some in H as (no & H4%claimOf_get & H).
  apply bind_Some in H as (cc & H5%claimOf_get & H). apply bind_Some in H as (em & H6%claimOf_get & H). injection H as <- <-.
  split_and!; try done. unfold open in Ho. destruct (verifySig code_ tok); [|done]. by destruct (_ && _ && _); simplify_eq.
Qed.

Lemma open_sealed purpose tok nowMs y p : authentic tok y = true -> open purpose tok nowMs = Some p -> (purpose, p) ∈ sealed y.
Proof.
  intros Ha Ho. unfold open in Ho. destruct (verifySig purpose tok) as [q|] eqn:Ev; [|done].
  destruct (_ && _ && _); [|done]. injection Ho as <-. by eapply authentic_spec.
Qed.

(** ** Every step keeps the invariant *)

Lemma form_inv params j nowMs y : inv y -> fresh j y = true -> inv (authorizeForm params j nowMs y).
Proof. intros I Hf. unfold authorizeForm. destruct (readAuthorizeRequest params); [|done]. apply seal_inv; auto. Qed.

Lemma submit_inv tok em ip j nowMs y : inv y -> fresh j y = true -> authentic tok y = true ->
  inv (authorizeSubmit tok em ip j nowMs y).
Proof.
  intros I Hf Ha. unfold authorizeSubmit. destruct (openRequest tok nowMs) as [r|] eqn:Eo; [|done].
  destruct (negb (validEmail (normalizeEmail em))); [apply seal_inv; auto|]. destruct (_ <=? _)%nat; [done|].
  apply pending_inv; [done|]. intros r' em' ip' [Hin|[= -> -> ->]%list_elem_of_singleton]%elem_of_app.
  - by eapply (i_pending _ I).
  - unfold openRequest in Eo. apply bind_Some in Eo as (p & Hp & Hr). exists p. split; [by eapply open_sealed|done].
Qed.

(** A request to the core keeps what was claimed. *)
Lemma core_inv net ids e t y : inv y -> coreNow y <= t -> inv (withBroker (Broker.claimFirst net ids e t (broker y)).2 t y).
Proof.
  intros I Ht. destruct (Broker.claimFirst_spec net ids e t (broker y) (i_broker _ I)) as (H1 & H2 & _).
  apply broker_inv; [done|done|]. intros i e' Hh. by apply (H2 i e' (coreNow y)).
Qed.

Lemma rateSlots_window kind b w n kind' b' w' n' s : s ∈ Broker.rateSlots kind b w n -> s ∈ Broker.rateSlots kind' b' w' n' -> w = w'.
Proof.
  intros (i & -> & _)%list_elem_of_fmap (i' & E & _)%list_elem_of_fmap. unfold Broker.rateId in E.
  apply Str.append_colon_inj in E as [E _]; [|apply Str.showZ_no_colon..].
  apply Str.append_colon_inj in E as [_ E]; [|apply Str.showZ_no_colon..]. by apply (inj pretty) in E.
Qed.

(** A mail: its slot was not used before. *)
Lemma mail_inv b t y r em slot j ttlS nowMs w :
  inv (withBroker b t y) -> fresh j y = true -> asked y r -> emailAllowed cfg em = true ->
  slot ∈ Broker.rateSlots "mailbox" (bucket "mailbox" em) w (sendLimitPerEmail cfg) ->
  Broker.holds slot (limitExpiry w) t b ->
  (forall m, m ∈ mails y -> m_slot m = slot -> m_window m = w -> False) ->
  let p := sealed_ link_ (linkClaims r em) ttlS nowMs j in
  inv (mkSys b t ((link_, p) :: sealed y) (pending y) (mkMail em j slot w :: mails y) (codes y) (minted y)).
Proof.
  intros I Hf Ha He Hsl Hh Hnew p.
  set (y' := mkSys b t ((link_, p) :: sealed y) (pending y) (mkMail em j slot w :: mails y) (codes y) (minted y)).
  assert (G : grows (withBroker b t y) y') by (split; [intros e Hin; by right|done]).
  destruct I. split; cbn in *; try done.
  - constructor; [by apply fresh_jti|done].
  - intros r' em' ip' Hin. eapply asked_mono; [done|by eapply i_pending0].
  - intros m [->|Hm]%elem_of_cons; [|eapply mailOk_mono; [done|by apply i_mail0]].
    split_and!; [|done|done|done]. exists p, r. split_and!; [left|done|done|]. by eapply (asked_mono (withBroker b t y)).
  - constructor; [|done]. intros (m & Es & Hm)%list_elem_of_fmap. apply (Hnew m Hm (eq_sym Es)).
    destruct (i_mail0 _ Hm) as (_ & _ & Hms & _). rewrite <- Es in Hms. by eapply rateSlots_window.
  - intros q [[= ->]|Hq]%elem_of_cons; [eexists; split; [by left|done]|].
    destruct (i_links0 _ Hq) as (m & Hm & ?). exists m. split; [by right|done].
  - intros c Hc. eapply codeOk_mono; [done|by apply i_code0].
  - intros q [[=]|Hq]%elem_of_cons. by apply i_codes0.
  - intros k Hk. destruct (i_token0 _ Hk). split; [by eapply tokenOk_mono|done].
  - intros q [[=]|Hq]%elem_of_cons. by apply i_access0.
Qed.

Lemma sendLink_inv r em ip j nowMs t n1 n2 y : inv y -> fresh j y = true -> asked y r -> coreNow y <= t ->
  inv (sendLink r em ip j nowMs t n1 n2 y).
Proof.
  intros I Hf Ha Ht. unfold sendLink. destruct (emailAllowed cfg em) eqn:He; cbn [negb]; [|done].
  unfold limitClaim. set (w := Broker.windowOf nowMs (sendWindowS cfg)).
  match goal with |- context [Broker.claimFirst n1 ?l ?e t (broker y)] =>
    pose proof (core_inv n1 l e t y I Ht) as I1; destruct (Broker.claimFirst n1 l e t (broker y)) as [[s1|] b1] end; [|done].
  cbn [snd] in I1. set (slots := Broker.rateSlots "mailbox" (bucket "mailbox" em) w (sendLimitPerEmail cfg)).
  change ((w + 1) * sendWindowS cfg * 1000) with (limitExpiry w).
  pose proof (core_inv n2 slots (limitExpiry w) t (withBroker b1 t y) I1 (Z.le_refl t)) as I2. cbn in I2.
  destruct (Broker.claimFirst_spec n2 slots (limitExpiry w) t b1 (i_broker _ I1)) as (_ & _ & Hc).
  destruct (Broker.claimFirst n2 slots (limitExpiry w) t b1) as [[s2|] b2]; cbn in I2, Hc; [|done].
  destruct Hc as (Hin & Hh & Hno). apply (mail_inv b2 t y r em s2 j (linkTtlS cfg) nowMs w); try done.
  intros m Hm Hs Hw. destruct (i_mail _ I1 m Hm) as (_ & _ & _ & Hhm). rewrite Hs, Hw in Hhm. by apply (Hno t (Z.le_refl t)).
Qed.

(** A code: its link was not used before. *)
Lemma code_inv b t y r em pl j ttlS nowMs :
  inv (withBroker b t y) -> fresh j y = true -> (link_, pl) ∈ sealed y -> claims pl = linkClaims r em ->
  Broker.holds ("link:" +:+ jti pl) (exp pl * 1000) t b -> jti pl ∉ map snd (codes y) ->
  let p := sealed_ code_ (codeClaims r em) ttlS nowMs j in
  inv (mkSys b t ((code_, p) :: sealed y) (pending y) (mails y) ((j, jti pl) :: codes y) (minted y)).
Proof.
  intros I Hf Hl Hcl Hh Hnew p.
  set (y' := mkSys b t ((code_, p) :: sealed y) (pending y) (mails y) ((j, jti pl) :: codes y) (minted y)).
  assert (G : grows (withBroker b t y) y') by (split; [intros e Hin; by right|done]).
  destruct I. split; cbn in *; try done.
  - constructor; [by apply fresh_jti|done].
  - intros r' em' ip' Hin. eapply asked_mono; [done|by eapply i_pending0].
  - intros m Hm. eapply mailOk_mono; [done|by apply i_mail0].
  - intros q [[=]|Hq]%elem_of_cons. by apply i_links0.
  - intros c [->|Hc]%elem_of_cons; [|eapply codeOk_mono; [done|by apply i_code0]].
    exists p, pl, r, em. split_and!; try done; [left|by right].
  - split; constructor; try apply i_once0; [|done]. intros (c & Ej & Hc)%list_elem_of_fmap.
    destruct (i_code0 _ Hc) as (pc & _ & _ & _ & Hpc & Hj & _). apply (fresh_jti _ _ Hf).
    rewrite Ej, <- Hj. by apply (list_elem_of_fmap_2 (fun e => jti e.2) _ (code_, pc)).
  - intros q [[= ->]|Hq]%elem_of_cons; [eexists; by left|]. destruct (i_codes0 _ Hq) as (l & ?). exists l. by right.
  - intros k Hk. destruct (i_token0 _ Hk) as [Hok Hin]. split; [by eapply tokenOk_mono|by right].
  - intros q [[=]|Hq]%elem_of_cons. by apply i_access0.
Qed.

Lemma verify_inv tok j nowMs t net y : inv y -> fresh j y = true -> authentic tok y = true -> coreNow y <= t ->
  inv (verify tok j nowMs t net y).
Proof.
  intros I Hf Ha Ht. unfold verify. destruct (openLink tok nowMs) as [[[r em] p]|] eqn:Eo; [|done].
  unfold openLink in Eo. apply bind_Some in Eo as (q & Hq & Eo). apply bind_Some in Eo as (r' & Hr & Eo).
  apply bind_Some in Eo as (em' & Hem & Eo). injection Eo as -> -> ->.
  pose proof (open_sealed _ _ _ _ _ Ha Hq) as Hp. destruct (i_links _ I _ Hp) as (m & Hm & Hmj).
  destruct (i_mail _ I _ Hm) as ((p0 & r0 & Hp0 & Hj0 & Hc0 & _) & _).
  assert (p0 = p) as -> by (by assert (E : (link_, p0) = (link_, p)) by (eapply sealed_unique; eauto; cbn; congruence); injection E).
  destruct (link_read _ _ _ _ _ Hc0 Hr Hem) as [-> ->].
  pose proof (core_inv net ["link:" +:+ jti p] (exp p * 1000) t y I Ht) as I1.
  destruct (Broker.claimFirst_spec net ["link:" +:+ jti p] (exp p * 1000) t (broker y) (i_broker _ I)) as (_ & _ & Hc).
  destruct (Broker.claimFirst net ["link:" +:+ jti p] (exp p * 1000) t (broker y)) as [[s|] b]; cbn [fst snd] in *; [|done].
  destruct Hc as (->%list_elem_of_singleton & Hh & Hno). destruct (_ || _); [done|]. destruct (negb _); [done|].
  apply (code_inv b t y); try done. intros (c & Ec & Hin)%list_elem_of_fmap.
  destruct (i_code _ I _ Hin) as (_ & pl & _ & _ & _ & _ & _ & Hpl & Hjl & _ & Hhl).
  assert (E : (link_, pl) = (link_, p)) by (eapply sealed_unique; eauto; cbn; congruence). injection E as ->.
  rewrite <- Ec in Hhl. by apply (Hno (coreNow y)).
Qed.

Lemma codes_link y c l : inv y -> (c, l) ∈ codes y ->
  match List.find (fun e => e.1 === c) (codes y) with Some e => e.2 | None => "" end = l.
Proof.
  intros I Hl. destruct (i_once _ I) as [Hnd _]. revert Hl Hnd. induction (codes y) as [|[c' l'] cs IH]; cbn.
  { by intros ?%elem_of_nil. }
  intros [[= <- <-]|Hin]%elem_of_cons [Hn Hnd]%NoDup_cons; [by rewrite bool_decide_eq_true_2|].
  case_bool_decide as E; cbn in E; [|by apply IH]. subst. destruct Hn. by apply (list_elem_of_fmap_2 fst _ (c, l)).
Qed.

(** A token: its code was not used before. *)
Lemma minted_inv b t y pa k :
  inv (withBroker b t y) -> fresh (jti pa) y = true -> claims pa = [("sub", it_sub k); ("em", it_email k)] ->
  tokenOk (withBroker b t y) k -> (it_code k, it_link k) ∈ codes y -> it_code k ∉ map it_code (minted y) ->
  inv (mkSys b t ((access_, pa) :: sealed y) (pending y) (mails y) (codes y) (k :: minted y)).
Proof.
  intros I Hf Hc Hk Hl Hnew. set (y' := mkSys b t (sealed y) (pending y) (mails y) (codes y) (k :: minted y)).
  apply (seal_inv access_ pa y'); [|right; split; [done|exists k; split; [by left|done]]|done].
  destruct I. split; cbn in *; try done.
  - intros k' [->|Hk']%elem_of_cons; [by split|]. destruct (i_token0 _ Hk'). by split.
  - by constructor.
  - intros p Hp. destruct (i_access0 _ Hp) as (k' & Hin & ?). exists k'. split; [by right|done].
Qed.

Lemma token_inv a g tok rd v j nowMs t net y : inv y -> fresh j y = true -> authentic tok y = true -> coreNow y <= t ->
  inv (token a g tok rd v j nowMs t net y).
Proof.
  intros I Hf Ha Ht. unfold token. destruct (negb _); [done|]. destruct (g !== _); [done|].
  destruct (openCode tok nowMs) as [[k p]|] eqn:Eo; [|done]. destruct (code_read _ _ _ _ Eo) as (Hcid & Hno & Hcc & Hem & Hv).
  pose proof (authentic_spec _ _ _ _ Ha Hv) as Hp. destruct (i_codes _ I _ Hp) as (l & Hl).
  destruct (i_code _ I _ Hl) as (pc & pl & r & em & Hpc & Hjc & Hc & _). cbn in Hjc.
  assert (E : (code_, pc) = (code_, p)) by (eapply sealed_unique; eauto). injection E as ->.
  rewrite Hc in Hno, Hcc, Hem. destruct k as [kid kru kno kcc kem].
  vm_compute in Hno, Hcc, Hem. injection Hno as Hno. injection Hcc as Hcc. injection Hem as Hem.
  cbn [k_clientId k_redirectUri k_nonce k_codeChallenge k_email] in *.
  destruct (_ || _); [done|].
  pose proof (core_inv net ["code:" +:+ jti p] (exp p * 1000) t y I Ht) as I1.
  destruct (Broker.claimFirst_spec net ["code:" +:+ jti p] (exp p * 1000) t (broker y) (i_broker _ I)) as (_ & _ & Hcl).
  destruct (Broker.claimFirst net ["code:" +:+ jti p] (exp p * 1000) t (broker y)) as [[sl|] b]; cbn [fst snd] in *; [|done].
  destruct Hcl as (->%list_elem_of_singleton & Hh & Hnot). destruct (pkceMatches v kcc) eqn:Epk; cbn [negb]; [|done].
  destruct (emailAllowed cfg kem) eqn:Eem; cbn [negb]; [|done].
  cbn [codes logSealed withBroker]. rewrite (codes_link y _ _ I Hl).
  apply (minted_inv b t y); [done|done|done| |done|].
  - exists p, r. cbn [it_code it_email it_nonce it_verifier it_sub]. subst. by split_and!.
  - cbn [it_code]. intros (k & Ek & Hk)%list_elem_of_fmap.
    destruct (i_token _ I _ Hk) as [(pk & _ & Hpk & Hjk & _ & _ & _ & _ & _ & Hhk) _].
    assert (E : (code_, pk) = (code_, p)) by (eapply sealed_unique; eauto; cbn; congruence). injection E as ->.
    rewrite <- Ek in Hhk. by apply (Hnot (coreNow y)).
Qed.

Lemma start_inv : inv start.
Proof. split; cbn; try (by intros * ?%elem_of_nil); try by constructor. split; constructor. Qed.

Lemma signIn_exec_inv ev y y' : inv y -> exec ev y = Some y' -> inv y'.
Proof.
  intros I. unfold exec. destruct ev as [params j ms|tok em ip j ms|i j ms t n1 n2|tok j ms t net|a g tok rd v j ms t net|].
  - destruct (fresh j y) eqn:Hf; [|done]. intros [= <-]. by apply form_inv.
  - destruct (fresh j y) eqn:Hf; [|done]. destruct (authentic tok y) eqn:Ha; [|done]. intros [= <-]. by apply submit_inv.
  - destruct (pending y !! i) as [[[r em] ip]|] eqn:Ep; [|done]. destruct (fresh j y) eqn:Hf; [|done].
    destruct (Z.leb_spec (coreNow y) t); [|done]. intros [= <-]. apply sendLink_inv; try done.
    + apply pending_inv; [done|]. intros r' em' ip' Hin. eapply (i_pending _ I). by eapply elem_of_sublist; [|apply sublist_delete].
    + by eapply (i_pending _ I), list_elem_of_lookup_2.
  - destruct (fresh j y) eqn:Hf; [|done]. destruct (authentic tok y) eqn:Ha; [|done].
    destruct (Z.leb_spec (coreNow y) t); [|done]. intros [= <-]. by apply verify_inv.
  - destruct (fresh j y) eqn:Hf; [|done]. destruct (authentic tok y) eqn:Ha; [|done].
    destruct (Z.leb_spec (coreNow y) t); [|done]. intros [= <-]. by apply token_inv.
  - intros [= <-]. apply broker_inv; [done|apply I|done].
Qed.

Lemma signIn_execs_inv evs y y' : inv y -> execs evs y = Some y' -> inv y'.
Proof.
  revert y. induction evs as [|ev evs IH]; cbn; intros y I H; [by simplify_eq|].
  destruct (exec ev y) eqn:E; [|done]. by eapply IH; [eapply signIn_exec_inv|].
Qed.

(** ** What a sign-in is worth *)

Lemma minted_origin y k : inv y -> k ∈ minted y ->
  exists r m, asked y r /\ m ∈ mails y /\ m_jti m = it_link k /\ m_to m = it_email k /\
    it_nonce k = nonce r /\ pkceMatches (it_verifier k) (codeChallenge r) = true.
Proof.
  intros I Hk. destruct (i_token _ I _ Hk) as [(pc & r & Hpc & Hj & Hc & Hn & Hv & _) Hcl].
  destruct (i_code _ I _ Hcl) as (pc' & pl & r' & em & Hpc' & Hj' & Hc' & Hpl & Hjl & Hl & _). cbn in Hj', Hjl.
  assert (E : (code_, pc') = (code_, pc)) by (eapply sealed_unique; eauto; cbn; congruence). injection E as ->.
  rewrite Hc in Hc'. injection Hc' as _ _ En Ecc Eem.
  destruct (i_links _ I _ Hpl) as (m & Hm & Hmj). destruct (i_mail _ I _ Hm) as ((p0 & r0 & Hp0 & Hj0 & Hc0 & Ha) & _).
  assert (E : (link_, p0) = (link_, pl)) by (eapply sealed_unique; eauto; cbn; congruence). injection E as ->.
  rewrite Hl in Hc0. injection Hc0 as _ _ _ En0 Ecc0 _ Eem0.
  exists r0, m. split_and!; [done|done|congruence|congruence|congruence|congruence].
Qed.

Lemma links_once y : inv y -> NoDup (map it_link (minted y)).
Proof.
  intros I. apply NoDup_alt. intros i j l Hi Hj. rewrite list_lookup_fmap in Hi, Hj.
  destruct (minted y !! i) as [k|] eqn:Ei; [|done]. destruct (minted y !! j) as [k'|] eqn:Ej; [|done].
  cbn in Hi, Hj. injection Hi as Hi. injection Hj as Hj.
  destruct (i_token _ I k) as [_ Hk]; [by eapply list_elem_of_lookup_2|].
  destruct (i_token _ I k') as [_ Hk']; [by eapply list_elem_of_lookup_2|].
  apply list_elem_of_lookup in Hk as [n Hn]. apply list_elem_of_lookup in Hk' as [n' Hn'].
  destruct (i_once _ I) as [_ Hs].
  assert (n = n') as -> by (apply (NoDup_lookup _ _ _ l Hs); rewrite list_lookup_fmap; [rewrite Hn|rewrite Hn']; cbn; congruence).
  rewrite Hn in Hn'. injection Hn' as Ec _.
  apply (NoDup_lookup _ _ _ (it_code k) (i_minted _ I)); rewrite list_lookup_fmap; [by rewrite Ei|by rewrite Ej; cbn; rewrite Ec].
Qed.

(** Distinct keys among known ones: no more than those. *)
Lemma keys_bound {A : Type} (f : A -> string) (l : list A) (known : list string) :
  NoDup (map f l) -> (forall x, x ∈ l -> f x ∈ known) -> (length l <= length known)%nat.
Proof.
  intros Hnd Hin. rewrite <- (length_map f l). apply submseteq_length, NoDup_submseteq; [done|].
  intros s (x & -> & Hx)%list_elem_of_fmap. by apply Hin.
Qed.

Lemma keys_filter {A : Type} (f : A -> string) (g : A -> bool) l : NoDup (map f l) -> NoDup (map f (List.filter g l)).
Proof.
  induction l as [|x l IH]; cbn; [done|]. intros [Hn Hnd]%NoDup_cons. destruct (g x); [|by apply IH].
  cbn. constructor; [|by apply IH]. intros (z & Ez & [_ Hz]%Arr.elem_of_filter)%list_elem_of_fmap. apply Hn. rewrite Ez.
  by apply (list_elem_of_fmap_2 f).
Qed.

Definition tokensFor (email : string) (y : Sys) : list IdToken := List.filter (fun k => it_email k === email) (minted y).
Definition mailsTo (email : string) (y : Sys) : list Mail := List.filter (fun m => m_to m === email) (mails y).
Definition mailsIn (w : Z) (ms : list Mail) : list Mail := List.filter (fun m => m_window m === w) ms.

(** C19: whatever is asked of the provider, in any order, with requests to the core
    that are lost and clocks that disagree: an identity token is about an address
    that is allowed and that a mail with a link was sent to; it answers a sign-in the
    application asked for, with that request's nonce, to somebody who knows the
    verifier of its challenge; and its subject is the one of that address. *)
Theorem sign_in_genuine evs y k :
  execs evs start = Some y -> k ∈ minted y ->
  emailAllowed cfg (it_email k) = true /\ it_sub k = subjectFor (it_email k) /\
  exists r m, asked y r /\ m ∈ mails y /\ m_jti m = it_link k /\ m_to m = it_email k /\
    it_nonce k = nonce r /\ pkceMatches (it_verifier k) (codeChallenge r) = true.
Proof.
  intros He Hk. pose proof (signIn_execs_inv _ _ _ start_inv He) as I.
  destruct (i_token _ I _ Hk) as [(pc & r & _ & _ & _ & _ & _ & Ha & Hs & _) _].
  split_and!; [done|done|by apply minted_origin].
Qed.

(** C40: every link signs in at most once, so an address has no more identity tokens
    than mails sent to it; and the mails of a window are at most the limit. *)
Theorem sign_in_bounded evs y email w :
  execs evs start = Some y ->
  NoDup (map it_link (minted y)) /\
  (length (tokensFor email y) <= length (mailsTo email y))%nat /\
  (length (mailsIn w (mailsTo email y)) <= sendLimitPerEmail cfg)%nat.
Proof.
  intros He. pose proof (signIn_execs_inv _ _ _ start_inv He) as I. split_and!; [by apply links_once| |].
  - rewrite <- (length_map m_jti (mailsTo email y)). apply (keys_bound it_link); [by apply keys_filter, links_once|].
    intros k [Ek%bool_decide_eq_true Hk]%Arr.elem_of_filter. destruct (minted_origin y k I Hk) as (r & m & _ & Hm & Hj & Ht & _).
    rewrite <- Hj. apply list_elem_of_fmap_2, Arr.elem_of_filter. split; [apply bool_decide_eq_true; congruence|done].
  - rewrite <- (Broker.rateSlots_length "mailbox" (bucket "mailbox" email) w (sendLimitPerEmail cfg)).
    apply (keys_bound m_slot); [apply keys_filter, keys_filter, I|].
    intros m [Ew%bool_decide_eq_true [Et%bool_decide_eq_true Hm]%Arr.elem_of_filter]%Arr.elem_of_filter.
    destruct (i_mail _ I _ Hm) as (_ & _ & Hs & _). by rewrite Ew, Et in Hs.
Qed.

(** What [userinfo] tells about an access token is what an identity token said. *)
Theorem userinfo_of_token evs y header nowMs sub email :
  execs evs start = Some y -> authentic (Str.trim (Str.drop 7 header)) y = true -> userinfo header nowMs = Some (sub, email) ->
  exists k, k ∈ minted y /\ it_sub k = sub /\ it_email k = email.
Proof.
  intros He Ha Hu. pose proof (signIn_execs_inv _ _ _ start_inv He) as I. unfold userinfo, openAccess in Hu.
  destruct (_ !== _); [done|].
  apply bind_Some in Hu as (p & Ho & Hu). apply bind_Some in Hu as (s & Hs & Hu). apply bind_Some in Hu as (e & Hm & Hu).
  injection Hu as -> ->. destruct (i_access _ I p (open_sealed _ _ _ _ _ Ha Ho)) as (k & Hk & Hc).
  rewrite Hc in Hs, Hm. exists k. destruct k. vm_compute in Hs, Hm. by simplify_eq.
Qed.

End provider.

(** ** A sign-in from end to end *)
Module Toy.

Definition sha (s : string) : string := s.
Definition bucketOf (kind value : string) : string := value.

Definition config : AuthConfig := mkConfig "https://auth" "portal" "secret" "https://portal/cb" "key"
  [] "acme.com" 900 900 120 120 900 20 5.

Definition challenge : string := "abcdefghijklmnopqrstuvwxyz-ABCDEFGHIJKLMNOP".

Definition params (k : string) : option string :=
  JMap.get [("client_id", "portal"); ("redirect_uri", "https://portal/cb"); ("response_type", "code");
            ("code_challenge_method", "S256"); ("code_challenge", challenge); ("state", "st"); ("nonce", "n1")] k.

Definition asks : AuthRequest := mkRequest "portal" "https://portal/cb" "st" "n1" challenge "openid".

(** The tokens of this run, by name. *)
Definition verifies (p : TokenPurpose) (tok : string) : option Payload :=
  match p with
  | request_ => if tok === "R" then Some (sealed_ config request_ (requestClaims asks) 900 1000 "j1") else None
  | link_ => if tok === "L" then Some (sealed_ config link_ (linkClaims asks "ann@acme.com") 900 2000 "j2") else None
  | code_ => if tok === "C" then Some (sealed_ config code_ (codeClaims asks "ann@acme.com") 120 3000 "j3") else None
  | access_ => if tok === "A"
               then Some (sealed_ config access_ [("sub", subjectFor sha config "ann@acme.com"); ("em", "ann@acme.com")] 120 4000 "j4")
               else None
  end.

(** The link is opened twice and the code used twice; the core restarts in between. *)
Definition events : list Event :=
  [EForm params "j1" 1000;
   ESubmit "R" "  Ann@ACME.com " "1.2.3.4" "j2" 1500;
   ESubmit "R" "eve@evil.com" "1.2.3.4" "j2" 1600;
   ESend 1 "j2" 1700 1700 Broker.Delivered Broker.Delivered;
   ESend 0 "j2" 2000 1800 Broker.Delivered Broker.Delivered;
   ERestart;
   EVerify "L" "j3" 3000 2500 Broker.Delivered;
   EVerify "L" "j4" 3100 2600 Broker.Delivered;
   EToken (Some "Basic portal:secret") "authorization_code" "C" "https://portal/cb" challenge "j4" 4000 3500 Broker.Delivered;
   EToken (Some "Basic portal:secret") "authorization_code" "C" "https://portal/cb" challenge "j5" 4100 3600 Broker.Delivered].

Definition run : option Sys := execs sha bucketOf sha verifies config events start.

Definition idToken : IdToken :=
  mkIdToken (subjectFor sha config "ann@acme.com") "ann@acme.com" "n1" challenge "j3" "j2".

Definition reached : Sys := default start run.

Example reached_run : run = Some reached.
Proof. vm_compute. reflexivity. Qed.

Example one_token : minted reached = [idToken] /\ map m_to (mails reached) = ["ann@acme.com"].
Proof. vm_compute. done. Qed.

Lemma sign_in_genuine_witness :
  emailAllowed config "ann@acme.com" = true /\
  exists r m, asked reached r /\ m ∈ mails reached /\ m_jti m = "j2" /\ m_to m = "ann@acme.com" /\
    "n1" = nonce r /\ pkceMatches sha challenge (codeChallenge r) = true.
Proof.
  destruct (sign_in_genuine sha bucketOf sha verifies config events reached idToken reached_run) as (H1 & _ & H2).
  { rewrite (proj1 one_token). left. }
  split; [exact H1|exact H2].
Defined.

Lemma sign_in_bounded_witness :
  (length (tokensFor "ann@acme.com" reached) <= length (mailsTo "ann@acme.com" reached))%nat /\
  (length (mailsIn 0 (mailsTo "ann@acme.com" reached)) <= 5)%nat.
Proof. exact (proj2 (sign_in_bounded sha bucketOf sha verifies config events reached "ann@acme.com" 0 reached_run)). Defined.

Lemma userinfo_of_token_witness :
  exists k, k ∈ minted reached /\ it_sub k = subjectFor sha config "ann@acme.com" /\ it_email k = "ann@acme.com".
Proof.
  apply (userinfo_of_token sha bucketOf sha verifies config events reached "Bearer A" 5000 _ _ reached_run).
  - vm_compute. reflexivity.
  - vm_compute. reflexivity.
Defined.

End Toy.
