(* ===== verification/Screen.v ===== *)
(** * Screening what comes from outside

    [Proxy] is [src/security/security-screener.ts]: a text is cut into overlapping
    chunks, each is sent to a classifier, and the worst answer counts.  Texts are
    lists of UTF-16 code units, so that surrogate pairs are seen.  [Attempt] is
    [src/core/orchestrator/security-screen.ts]: an attempt races the classifier (the
    model's, the proxy's, or both with the proxy in the shadow) against a timer; its
    events come in any order.  What the network, the model and the clock answer is
    chosen freely. *)

From Stdlib Require Import ZArith Lia Ascii.
From S2P Require Import Prelude Collections Numbers Posture.
Open Scope Z_scope.

Module Proxy.

Definition MAX_SECURITY_SCREEN_CHARS : Z := 16000.
Definition MAX_SECURITY_SCREEN_RESPONSE_BYTES : Z := 64 * 1024.
Definition SECURITY_SCREEN_CHUNK_CHARS : Z := 1600.
Definition SECURITY_SCREEN_CHUNK_OVERLAP_CHARS : Z := 256.
Definition SECURITY_SCREEN_RETRY_MS : list Z := [250; 1000; 4000].

(** ** Chunks *)
Notation text := (list Z).
Definition len (t : text) : Z := Z.of_nat (length t).

Definition high (u : Z) : bool := (0xD800 <=? u) && (u <=? 0xDBFF).
Definition low (u : Z) : bool := (0xDC00 <=? u) && (u <=? 0xDFFF).

(** [String.prototype.toWellFormed] *)
Fixpoint toWellFormed (t : text) : text :=
  match t with
  | [] => []
  | u :: t' =>
    if high u then
      match t' with
      | v :: t'' => if low v then u :: v :: toWellFormed t'' else 0xFFFD :: toWellFormed t'
      | [] => [0xFFFD]
      end
    else if low u then 0xFFFD :: toWellFormed t' else u :: toWellFormed t'
  end.

(** [charCodeAt] gives [NaN] past the end, which is no surrogate. *)
Definition lowAt (t : text) (i : Z) : bool := match t !! Z.to_nat i with Some u => low u | None => false end.

Definition slice (t : text) (s e : Z) : text := take (Z.to_nat (e - s)) (drop (Z.to_nat s) t).

Definition chunkEnd (t : text) (start : Z) : Z :=
  let end_ := Z.min (start + SECURITY_SCREEN_CHUNK_CHARS) (len t) in
  if (end_ <? len t) && lowAt t end_ then end_ - 1 else end_.

Definition nextStart (t : text) (start end_ : Z) : Z :=
  let start := Z.max (end_ - SECURITY_SCREEN_CHUNK_OVERLAP_CHARS) (start + 1) in
  if lowAt t start then start + 1 else start.

(** The loop; [fuel] bounds its turns. *)
Fixpoint rangesFrom (fuel : nat) (t : text) (start : Z) : list (Z * Z) :=
  match fuel with
  | O => []
  | S fuel =>
    if start <? len t then
      let e := chunkEnd t start in
      (start, e) :: (if e =? len t then [] else rangesFrom fuel t (nextStart t start e))
    else []
  end.

Definition securityScreenChunks (t : text) : list text :=
  let normalized := toWellFormed t in
  if len normalized <=? SECURITY_SCREEN_CHUNK_CHARS then [normalized]
  else map (fun r => slice normalized r.1 r.2) (rangesFrom (length normalized) normalized 0).

(** ** One chunk *)
Record Classification := mkClassification {
  verdict : SecurityScreenVerdict; score : Num.t; threshold : Num.t; outcome_ : option string }.

(** The members of the answer's object that are read: [None] when a member is not a
    number; the outcome is absent, another value, or a string. *)
Record Body := mkBody { b_score : option Num.t; b_threshold : option Num.t; b_outcome : option (option string) }.

Definition zero : Num.t := Num.of_Z 0.
Definition one : Num.t := Num.of_Z 1.

Definition unit_interval (x : Num.t) : bool := Num.ge x zero && Num.ge one x.

Definition outcomeChar (c : ascii) : bool :=
  let n := N_of_ascii c in ((97 <=? n) && (n <=? 122) || (48 <=? n) && (n <=? 57))%N.

Fixpoint outcomeRest (s : string) : bool :=
  match s with
  | "" => true
  | String c s => (outcomeChar c || existsb (fun d => c === d) ["."%char; "_"%char; "-"%char]) && outcomeRest s
  end.

Definition OUTCOME (s : string) : bool :=
  match s with "" => false | String c s => outcomeChar c && outcomeRest s && (String.length s <=? 127)%nat end.

Section chunk.
(** [JSON.parse] of the answer, [None] when it throws and [Some None] unless it is an
    object; decoding UTF-8. *)
Variables (jsonParse : string -> option (option Body)) (utf8 : list Z -> string) (provider : string).

Definition classification (body : string) : outcome Classification :=
  match jsonParse body with
  | None => Throw "Security screen proxy returned invalid JSON"
  | Some None => Throw "Security screen proxy returned an invalid classification"
  | Some (Some r) =>
    match b_score r, b_threshold r with
    | Some sc, Some th =>
      if negb (unit_interval sc && unit_interval th) then Throw "Security screen proxy returned invalid scores" else
      match b_outcome r with
      | Some None => Throw "Security screen proxy returned an invalid outcome"
      | Some (Some o) =>
        if negb (OUTCOME o) then Throw "Security screen proxy returned an invalid outcome" else
        Ok (mkClassification (if Num.ge sc th then mkVerdict screen_strict (Some (provider +:+ ":" +:+ o)) None
                              else mkVerdict screen_auto None None) sc th (Some o))
      | None =>
        Ok (mkClassification (if Num.ge sc th then mkVerdict screen_strict (Some (provider +:+ ":malicious")) None
                              else mkVerdict screen_auto None None) sc th None)
      end
    | _, _ => Throw "Security screen proxy returned invalid scores"
    end
  end.

Definition tooLarge : string := "Security screen proxy response exceeds the supported limit".

(** The body as it is read, piece by piece. *)
Fixpoint readPieces (pieces : list (list Z)) (total : Z) : outcome (list Z) :=
  match pieces with
  | [] => Ok []
  | p :: pieces =>
    let total := total + Z.of_nat (length p) in
    if MAX_SECURITY_SCREEN_RESPONSE_BYTES <? total then Throw tooLarge else
    match readPieces pieces total with Ok rest => Ok (p ++ rest) | Throw e => Throw e end
  end.

(** [responseText]; [declared] is the Content-Length when it is a number. *)
Definition responseText (declared : option Z) (pieces : option (list (list Z))) : outcome string :=
  if match declared with Some n => MAX_SECURITY_SCREEN_RESPONSE_BYTES <? n | None => false end then Throw tooLarge else
  match pieces with
  | None => Ok ""
  | Some ps => match readPieces ps 0 with Ok bytes => Ok (utf8 bytes) | Throw e => Throw e end
  end.

(** What a request comes to: it fails, or a response; [waitAborted] is the wait
    before the next attempt being aborted. *)
Inductive Reply :=
| Failed (e : string)
| Response (status : Z) (declared : option Z) (pieces : option (list (list Z))) (waitAborted : option string).

(** The attempts for one chunk, [more] of them after this one. *)
Fixpoint request (replies : nat -> Reply) (attempt more : nat) : outcome Classification :=
  match replies attempt with
  | Failed e => Throw e
  | Response status declared pieces waitAborted =>
    let finish :=
      if negb ((200 <=? status) && (status <=? 299)) then Throw ("Security screen proxy returned HTTP " +:+ Str.showZ status)
      else match responseText declared pieces with Ok body => classification body | Throw e => Throw e end in
    match more with
    | O => finish
    | S more =>
      if status =? 429 then match waitAborted with Some e => Throw e | None => request replies (S attempt) more end
      else finish
    end
  end.

Definition classifyChunk (replies : nat -> Reply) : outcome Classification := request replies 0 (length SECURITY_SCREEN_RETRY_MS).

End chunk.

(** ** All chunks *)
Section chunks.
Context {T : Type}.
(** [classify i c] classifies chunk [c] with index [i]; when both chunks of a batch
    fail, [secondFirst] says that the second one did first; [aborted] is the signal. *)
Variables (classify : nat -> text -> outcome T) (secondFirst : nat -> bool) (aborted : nat -> bool).

Fixpoint classifyChunks (chunks : list text) (start : nat) : outcome (list T) :=
  if aborted start then Throw "aborted" else
  match chunks with
  | [] => Ok []
  | c1 :: rest =>
    match rest with
    | [] => match classify start c1 with
            | Ok a => if aborted (S start) then Throw "aborted" else Ok [a]
            | Throw e => Throw e
            end
    | c2 :: rest =>
      match classify start c1, classify (S start) c2 with
      | Ok a, Ok b => match classifyChunks rest (S (S start)) with Ok l => Ok (a :: b :: l) | Throw e => Throw e end
      | Throw e, Ok _ => Throw e
      | Ok _, Throw e => Throw e
      | Throw e, Throw e' => Throw (if secondFirst start then e' else e)
      end
    end
  end.
End chunks.

Definition isStrict (c : Classification) : bool := decision (verdict c) === screen_strict.

(** The step of the [reduce]. *)
Definition worse (highest current : Classification) : Classification :=
  if decision (verdict current) !== decision (verdict highest) then if isStrict current then current else highest
  else if Num.gt (score current) (score highest) then current else highest.

Definition worst (cs : list Classification) : outcome Classification :=
  match cs with
  | [] => Throw "Reduce of empty array with no initial value"
  | c :: cs => Ok (fold_left worse cs c)
  end.

(** The calls in flight of a screener in the shadow: one more, or the error. *)
Definition takeSlot (shadow : bool) (activeShadow : nat) : outcome nat :=
  if shadow && (2 <=? activeShadow)%nat then Throw "Security screen proxy shadow capacity reached"
  else Ok (if shadow then S activeShadow else activeShadow).

Definition freeSlot (shadow : bool) (activeShadow : nat) : nat := if shadow then pred activeShadow else activeShadow.

(** [classify] of the proxy, between the taking of its slot and the freeing. *)
Definition classify (classifyOne : nat -> text -> outcome Classification) (secondFirst aborted : nat -> bool) (payload : text)
    : outcome Classification :=
  if MAX_SECURITY_SCREEN_CHARS <? len payload then Throw "Security screen proxy payload exceeds the supported limit" else
  match classifyChunks classifyOne secondFirst aborted (securityScreenChunks payload) 0 with
  | Ok cs => worst cs
  | Throw e => Throw e
  end.

(** ** The chunks cover the text *)

Lemma len_slice t s e : 0 <= s -> s <= e -> e <= len t -> len (slice t s e) = e - s.
Proof. intros. unfold len, slice in *. rewrite length_take, length_drop. lia. Qed.

Lemma chunkEnd_bounds t start : 0 <= start < len t ->
  start < chunkEnd t start <= len t /\ chunkEnd t start - start <= SECURITY_SCREEN_CHUNK_CHARS /\
  (chunkEnd t start = len t \/ start + SECURITY_SCREEN_CHUNK_CHARS - 1 <= chunkEnd t start).
Proof.
  intros H. unfold chunkEnd, SECURITY_SCREEN_CHUNK_CHARS in *.
  destruct (Z.ltb_spec (Z.min (start + 1600) (len t)) (len t)); cbn; [destruct (lowAt t _)|]; lia.
Qed.

Lemma nextStart_bounds t start e : 0 <= start < len t -> e = chunkEnd t start -> e <> len t ->
  start < nextStart t start e <= e - SECURITY_SCREEN_CHUNK_OVERLAP_CHARS + 1 /\ nextStart t start e < len t.
Proof.
  intros H -> Hne. destruct (chunkEnd_bounds t start H) as (H1 & H2 & [?|H3]); [done|].
  unfold nextStart, SECURITY_SCREEN_CHUNK_CHARS, SECURITY_SCREEN_CHUNK_OVERLAP_CHARS in *. destruct (lowAt t _); lia.
Qed.

(** Every window of as many units as chunks overlap lies in one of them. *)
Lemma rangesFrom_cover fuel t start a b :
  0 <= start < len t -> len t - start <= Z.of_nat fuel -> start <= a <= b -> b <= len t ->
  b - a <= SECURITY_SCREEN_CHUNK_OVERLAP_CHARS ->
  exists r, r ∈ rangesFrom fuel t start /\ r.1 <= a /\ b <= r.2.
Proof.
  revert start. induction fuel as [|fuel IH]; intros start Hs Hf Ha Hb Hw; [lia|]. cbn [rangesFrom].
  destruct (Z.ltb_spec start (len t)); [|lia].
  destruct (Z.le_gt_cases b (chunkEnd t start)) as [Hle|Hgt].
  { exists (start, chunkEnd t start). split; [left|cbn; lia]. }
  destruct (Z.eqb_spec (chunkEnd t start) (len t)) as [?|Hne]; [lia|].
  destruct (nextStart_bounds t start _ Hs eq_refl Hne) as [H1 H2].
  destruct (IH (nextStart t start (chunkEnd t start))) as (r & Hr & ? & ?); try lia.
  exists r. split; [by right|done].
Qed.

Lemma rangesFrom_bounds fuel t start r : 0 <= start < len t -> r ∈ rangesFrom fuel t start ->
  0 <= r.1 < r.2 /\ r.2 <= len t /\ r.2 - r.1 <= SECURITY_SCREEN_CHUNK_CHARS.
Proof.
  revert start. induction fuel as [|fuel IH]; intros start Hs; cbn [rangesFrom]; [by intros ?%elem_of_nil|].
  destruct (Z.ltb_spec start (len t)); [|lia]. pose proof (chunkEnd_bounds t start Hs) as (H1 & H2 & _).
  intros [->|Hr]%elem_of_cons; [cbn; lia|]. destruct (Z.eqb_spec (chunkEnd t start) (len t)); [by apply elem_of_nil in Hr|].
  destruct (nextStart_bounds t start _ Hs eq_refl n). eapply IH; [|done]. lia.
Qed.

(** ** Pairs are not cut *)

(** Every high surrogate is followed by a low one and every low one follows a high one. *)
Fixpoint wellFormed (t : text) : bool :=
  match t with
  | [] => true
  | u :: t' => if high u then match t' with v :: t'' => low v && wellFormed t'' | [] => false end
               else negb (low u) && wellFormed t'
  end.

Lemma text_pairs (P : text -> Prop) :
  P [] -> (forall u t, high u = false -> P t -> P (u :: t)) -> (forall u, high u = true -> P [u]) ->
  (forall u v t, high u = true -> P t -> P (v :: t) -> P (u :: v :: t)) -> forall t, P t.
Proof.
  intros H0 H1 H2 H3 t. enough (P t /\ forall u, P (u :: t)) by tauto.
  induction t as [|v t [IH IH']]; [|split; [apply IH'|]].
  - split; [done|]. intros u. destruct (high u) eqn:E; [by apply H2|by apply H1].
  - intros u. destruct (high u) eqn:E; [by apply H3|by apply H1].
Qed.

Lemma high_low u : high u = true -> low u = false.
Proof. unfold high, low. rewrite andb_true_iff, Z.leb_le, Z.leb_le. intros [? ?]. rewrite andb_false_iff, Z.leb_gt. lia. Qed.

Lemma toWellFormed_high u v t : high u = true ->
  toWellFormed (u :: v :: t) = if low v then u :: v :: toWellFormed t else 0xFFFD :: toWellFormed (v :: t).
Proof. intros E. change (toWellFormed (u :: v :: t)) with (if high u then if low v then u :: v :: toWellFormed t
  else 0xFFFD :: toWellFormed (v :: t) else if low u then 0xFFFD :: toWellFormed (v :: t) else u :: toWellFormed (v :: t)).
  by rewrite E. Qed.

Lemma toWellFormed_wf t : wellFormed (toWellFormed t) = true.
Proof.
  induction t as [|u t E IH|u E|u v t E IH IH'] using text_pairs; [done| | |].
  - cbn [toWellFormed]. rewrite E. destruct (low u) eqn:El; cbn [wellFormed]; [by rewrite IH|by rewrite E, El, IH].
  - cbn. by rewrite E.
  - rewrite toWellFormed_high by done. destruct (low v) eqn:El; [cbn; by rewrite E, El, IH|exact IH'].
Qed.

Lemma toWellFormed_len t : len (toWellFormed t) = len t.
Proof.
  unfold len. f_equal. induction t as [|u t E IH|u E|u v t E IH IH'] using text_pairs; [done| | |].
  - cbn [toWellFormed]. rewrite E. destruct (low u); cbn; by rewrite IH.
  - cbn. by rewrite E.
  - rewrite toWellFormed_high by done. destruct (low v); cbn [length]; [by rewrite IH|]. by rewrite IH'.
Qed.

Lemma wellFormed_drop t n : wellFormed t = true -> lowAt t (Z.of_nat n) = false -> wellFormed (drop n t) = true.
Proof.
  unfold lowAt. rewrite Nat2Z.id. revert n. induction t as [|u t E IH|u E|u v t E IH IH'] using text_pairs; intros n Hw Hl.
  - by rewrite drop_nil.
  - cbn in Hw. rewrite E, andb_true_iff in Hw. destruct n; cbn; [by rewrite E, andb_true_iff|]. apply IH; [apply Hw|done].
  - cbn in Hw. by rewrite E in Hw.
  - cbn in Hw. rewrite E, andb_true_iff in Hw. destruct Hw as [Hv Hw].
    destruct n as [|[|n]]; cbn; [by rewrite E, Hv|cbn in Hl; congruence|by apply IH].
Qed.

Lemma wellFormed_take t n : wellFormed t = true -> lowAt t (Z.of_nat n) = false -> wellFormed (take n t) = true.
Proof.
  unfold lowAt. rewrite Nat2Z.id. revert n. induction t as [|u t E IH|u E|u v t E IH IH'] using text_pairs; intros n Hw Hl.
  - by rewrite take_nil.
  - cbn in Hw. rewrite E, andb_true_iff in Hw. destruct n; cbn; [done|]. rewrite E, andb_true_iff. split; [apply Hw|apply IH; [apply Hw|done]].
  - cbn in Hw. by rewrite E in Hw.
  - cbn in Hw. rewrite E, andb_true_iff in Hw. destruct Hw as [Hv Hw].
    destruct n as [|[|n]]; [done|cbn in Hl; congruence|]. cbn. rewrite E, Hv. by apply IH.
Qed.

(** Two units in a row are not both low. *)
Lemma low_once t i : wellFormed t = true -> 0 <= i -> lowAt t (i + 1) = true -> lowAt t i = false.
Proof.
  intros Hw Hi. unfold lowAt. replace (Z.to_nat (i + 1)) with (S (Z.to_nat i)) by lia. generalize (Z.to_nat i). clear i Hi.
  induction t as [|u t E IH|u E|u v t E IH IH'] using text_pairs; intros n.
  - done.
  - cbn in Hw. rewrite E, andb_true_iff, negb_true_iff in Hw. destruct Hw as [Hu Hw]. destruct n; cbn; [done|]. by apply IH.
  - cbn in Hw. by rewrite E in Hw.
  - cbn in Hw. rewrite E, andb_true_iff in Hw. destruct Hw as [Hv Hw]. destruct n as [|[|n]]; cbn.
    + intros _. by apply high_low.
    + destruct t as [|w t]; cbn; [done|]. cbn in Hw. destruct (high w) eqn:Ew; [by rewrite (high_low w Ew)|].
      intros El. by rewrite El in Hw.
    + by apply IH.
Qed.

Lemma lowAt_end t : lowAt t (len t) = false.
Proof. unfold lowAt, len. rewrite Nat2Z.id. destruct (t !! length t) eqn:E; [apply lookup_lt_Some in E; lia|done]. Qed.

Lemma chunkEnd_low t start : 0 <= start < len t -> wellFormed t = true -> lowAt t (chunkEnd t start) = false.
Proof.
  intros Hs Hw. unfold chunkEnd, SECURITY_SCREEN_CHUNK_CHARS. set (e := Z.min (start + 1600) (len t)).
  destruct (Z.ltb_spec e (len t)) as [Hlt|]; cbn [andb].
  - destruct (lowAt t e) eqn:El; [|done]. apply low_once; [done|lia|]. by replace (e - 1 + 1) with e by lia.
  - replace e with (len t) by lia. apply lowAt_end.
Qed.

Lemma nextStart_low t start e : 0 <= start < len t -> wellFormed t = true -> lowAt t (nextStart t start e) = false.
Proof.
  intros Hs Hw. unfold nextStart. set (s := Z.max _ _). destruct (lowAt t s) eqn:El; [|done].
  destruct (lowAt t (s + 1)) eqn:E; [|done]. apply low_once in E; [congruence|done|lia].
Qed.

Lemma rangesFrom_low fuel t start r : 0 <= start < len t -> wellFormed t = true -> lowAt t start = false ->
  r ∈ rangesFrom fuel t start -> lowAt t r.1 = false /\ lowAt t r.2 = false.
Proof.
  revert start. induction fuel as [|fuel IH]; intros start Hs Hw Hl; cbn [rangesFrom]; [by intros ?%elem_of_nil|].
  destruct (Z.ltb_spec start (len t)); [|lia]. intros [->|Hr]%elem_of_cons.
  - split; [done|]. cbn. by apply chunkEnd_low.
  - destruct (Z.eqb_spec (chunkEnd t start) (len t)); [by apply elem_of_nil in Hr|].
    destruct (nextStart_bounds t start _ Hs eq_refl n). eapply IH; [|done| |done]; [lia|]. by apply nextStart_low.
Qed.

(** ** What the chunks are *)

Lemma slice_app t s m e : 0 <= s -> s <= m -> m <= e -> slice t s e = slice t s m ++ slice t m e.
Proof.
  intros. unfold slice. replace (Z.to_nat (e - s)) with (Z.to_nat (m - s) + Z.to_nat (e - m))%nat by lia.
  rewrite <- take_take_drop, drop_drop. by replace (Z.to_nat s + Z.to_nat (m - s))%nat with (Z.to_nat m) by lia.
Qed.

Lemma slice_all t : slice t 0 (len t) = t.
Proof. unfold slice, len. rewrite Z.sub_0_r, Nat2Z.id. apply firstn_all. Qed.

(** [w] occurs in [c]. *)
Definition occurs (w c : text) : Prop := exists p q, c = p ++ w ++ q.

Lemma slice_occurs t s a b e : 0 <= s -> s <= a -> a <= b -> b <= e -> occurs (slice t a b) (slice t s e).
Proof. intros. exists (slice t s a), (slice t b e). rewrite <- !slice_app by lia. done. Qed.

Lemma chunks_cover t a b :
  0 <= a <= b -> b <= len t -> b - a <= SECURITY_SCREEN_CHUNK_OVERLAP_CHARS ->
  exists c, c ∈ securityScreenChunks t /\ occurs (slice (toWellFormed t) a b) c.
Proof.
  intros Ha Hb Hw. unfold securityScreenChunks. pose proof (toWellFormed_len t) as Hl. set (n := toWellFormed t) in *.
  destruct (Z.leb_spec (len n) SECURITY_SCREEN_CHUNK_CHARS) as [Hle|Hgt].
  { exists n. split; [by left|]. rewrite <- (slice_all n) at 2. apply slice_occurs; lia. }
  unfold SECURITY_SCREEN_CHUNK_CHARS in Hgt.
  destruct (rangesFrom_cover (length n) n 0 a b) as (r & Hr & H1 & H2); [lia|unfold len; lia|lia|lia|done|].
  exists (slice n r.1 r.2). split; [by apply (list_elem_of_fmap_2 (fun r => slice n r.1 r.2))|].
  apply rangesFrom_bounds in Hr; [|lia]. apply slice_occurs; lia.
Qed.

Lemma chunks_fit t c : c ∈ securityScreenChunks t -> len c <= SECURITY_SCREEN_CHUNK_CHARS /\ wellFormed c = true.
Proof.
  unfold securityScreenChunks. pose proof (toWellFormed_wf t) as Hw. set (n := toWellFormed t) in *.
  destruct (Z.leb_spec (len n) SECURITY_SCREEN_CHUNK_CHARS) as [Hle|Hgt]; [by intros ->%list_elem_of_singleton|].
  unfold SECURITY_SCREEN_CHUNK_CHARS in Hgt.
  assert (H0 : lowAt n 0 = false).
  { unfold lowAt. cbn. destruct n as [|u n]; [done|]. cbn. cbn in Hw. destruct (high u) eqn:E; [by apply high_low|].
    by apply andb_true_iff in Hw as [?%negb_true_iff _]. }
  intros (r & -> & Hr)%list_elem_of_fmap. pose proof (rangesFrom_bounds _ n 0 r ltac:(lia) Hr) as (H1 & H2 & H3).
  destruct (rangesFrom_low _ n 0 r ltac:(lia) Hw H0 Hr) as [L1 L2]. rewrite len_slice by lia. split; [done|].
  unfold slice. apply wellFormed_take; [apply wellFormed_drop; [done|by rewrite Z2Nat.id by lia]|].
  unfold lowAt. rewrite Nat2Z.id, lookup_drop.
  replace (Z.to_nat r.1 + Z.to_nat (r.2 - r.1))%nat with (Z.to_nat r.2) by lia. exact L2.
Qed.

Lemma chunks_nonempty t : securityScreenChunks t <> [].
Proof.
  unfold securityScreenChunks. set (n := toWellFormed t). destruct (Z.leb_spec (len n) SECURITY_SCREEN_CHUNK_CHARS) as [|Hgt]; [done|].
  unfold SECURITY_SCREEN_CHUNK_CHARS, len in Hgt. destruct n as [|u n]; [cbn in Hgt; lia|]. cbn [length rangesFrom].
  by destruct (Z.ltb_spec 0 (len (u :: n))); [|unfold len in *; cbn in *; lia].
Qed.

(** ** The answers *)

Lemma two_by_two {A} (P : list A -> Prop) :
  P [] -> (forall c, P [c]) -> (forall c d l, P l -> P (c :: d :: l)) -> forall l, P l.
Proof. intros H0 H1 H2 l. enough (P l /\ forall c, P (c :: l)) by tauto. induction l as [|d l [IH IH']]; auto. Qed.

Lemma classifyChunks_spec {T} (one : nat -> text -> outcome T) sf ab chunks start l :
  classifyChunks one sf ab chunks start = Ok l ->
  length l = length chunks /\ forall i c, chunks !! i = Some c -> exists a, one (start + i)%nat c = Ok a /\ l !! i = Some a.
Proof.
  revert start l. induction chunks as [|c|c d chunks IH] using two_by_two; intros start l; cbn; destruct (ab start); try done.
  - intros [= <-]. split; [done|]. intros i c. by rewrite lookup_nil.
  - destruct (one start c) as [a|e] eqn:E; [|done]. destruct (ab (S start)); [done|]. intros [= <-]. split; [done|].
    intros [|i] c'; cbn; [|by destruct i]. intros [= <-]. rewrite Nat.add_0_r. by exists a.
  - destruct (one start c) as [a|e] eqn:E1, (one (S start) d) as [b|e'] eqn:E2; try done.
    destruct (classifyChunks one sf ab chunks (S (S start))) as [rest|] eqn:E; [|done]. intros [= <-].
    destruct (IH _ _ E) as [Hl Hi]. split; [cbn; by rewrite Hl|]. intros [|[|i]] c'; cbn.
    + intros [= <-]. rewrite Nat.add_0_r. by exists a.
    + intros [= <-]. rewrite Nat.add_1_r. by exists b.
    + intros Hc. destruct (Hi i c' Hc) as (x & Hx & ?). exists x. by replace (start + S (S i))%nat with (S (S start) + i)%nat by lia.
Qed.

Lemma classifyChunks_total {T} (one : nat -> text -> outcome T) sf ab chunks start :
  (forall i, ab i = false) -> (forall i c, c ∈ chunks -> exists a, one i c = Ok a) ->
  exists l, classifyChunks one sf ab chunks start = Ok l.
Proof.
  intros Hab. revert start. induction chunks as [|c|c d chunks IH] using two_by_two; intros start Hok; cbn; rewrite Hab.
  - by eexists.
  - destruct (Hok start c) as [a ->]; [by left|]. rewrite Hab. by eexists.
  - destruct (Hok start c) as [a ->]; [by left|]. destruct (Hok (S start) d) as [b ->]; [by right; left|].
    destruct (IH (S (S start))) as [l ->]; [|by eexists]. intros i x Hx. apply Hok. by right; right.
Qed.

Lemma worse_strict c d : isStrict (worse c d) = isStrict c || isStrict d.
Proof.
  destruct c as [[dc rc uc] sc tc oc], d as [[dd rd ud] sd td od]. unfold worse, isStrict. cbn.
  destruct dc, dd; cbn; try done; by destruct (Num.gt sd sc).
Qed.

Lemma fold_worse_strict cs c : isStrict (fold_left worse cs c) = isStrict c || existsb isStrict cs.
Proof.
  revert c. induction cs as [|d cs IH]; intros c; cbn; [by rewrite orb_false_r|]. by rewrite IH, orb_assoc, worse_strict.
Qed.

(** The worst of the answers is one of them. *)
Lemma fold_worse_elem cs c : fold_left worse cs c ∈ c :: cs.
Proof.
  revert c. induction cs as [|d cs IH]; intros c; cbn; [left|]. pose proof (IH (worse c d)) as H.
  apply elem_of_cons in H as [->|H]; [|by right; right]. unfold worse.
  destruct (_ !== _); [destruct (isStrict d)|destruct (Num.gt _ _)]; first [left|by right; left].
Qed.

Lemma classify_chunks one sf ab payload v : classify one sf ab payload = Ok v ->
  exists cs, classifyChunks one sf ab (securityScreenChunks payload) 0 = Ok cs /\ v ∈ cs /\ isStrict v = existsb isStrict cs.
Proof.
  unfold classify. destruct (_ <? _); [done|]. destruct (classifyChunks _ _ _ _ _) as [[|c cs]|] eqn:E; try done.
  intros [= <-]. exists (c :: cs). split_and!; [done|apply fold_worse_elem|apply fold_worse_strict].
Qed.

(** A verdict stands for the whole text: every chunk was classified, it is strict
    exactly if one of them is, and it is one of their answers.  A text within the
    limit whose chunks are all answered gets a verdict. *)
Theorem screen_verdict_exact one sf ab payload :
  (forall v, classify one sf ab payload = Ok v ->
    (forall i c, securityScreenChunks payload !! i = Some c -> exists a, one i c = Ok a) /\
    (isStrict v = true <-> exists i c a, securityScreenChunks payload !! i = Some c /\ one i c = Ok a /\ isStrict a = true) /\
    exists i c, securityScreenChunks payload !! i = Some c /\ one i c = Ok v) /\
  (len payload <= MAX_SECURITY_SCREEN_CHARS -> (forall i, ab i = false) ->
    (forall i c, c ∈ securityScreenChunks payload -> exists a, one i c = Ok a) -> exists v, classify one sf ab payload = Ok v).
Proof.
  split.
  - intros v (cs & Hc & Hv & Hs)%classify_chunks. destruct (classifyChunks_spec _ _ _ _ _ _ Hc) as [Hl Hi]. cbn in Hi.
    assert (Hback : forall a, a ∈ cs -> exists i c, securityScreenChunks payload !! i = Some c /\ one i c = Ok a).
    { intros a (i & Ha)%list_elem_of_lookup. destruct (lookup_lt_is_Some_2 (securityScreenChunks payload) i) as [c Hci].
      { rewrite <- Hl. by eapply lookup_lt_Some. } destruct (Hi i c Hci) as (a' & ? & ?). exists i, c. split; [done|congruence]. }
    split_and!; [|rewrite Hs, Arr.existsb_elem; split|by apply Hback].
    + intros i c Hci. destruct (Hi i c Hci) as (a & ? & _). by exists a.
    + intros (a & Ha & Hst). destruct (Hback a Ha) as (i & c & ? & ?). by exists i, c, a.
    + intros (i & c & a & Hci & Ho & Hst). destruct (Hi i c Hci) as (a' & Ho' & Hin). exists a. split; [|done].
      rewrite Ho in Ho'. injection Ho' as ->. by eapply list_elem_of_lookup_2.
  - intros Hle Hab Hok. unfold classify. destruct (Z.ltb_spec MAX_SECURITY_SCREEN_CHARS (len payload)); [lia|].
    destruct (classifyChunks_total one sf ab _ 0 Hab Hok) as [l Hl]. rewrite Hl.
    destruct (classifyChunks_spec _ _ _ _ _ _ Hl) as [Hlen _]. pose proof (chunks_nonempty payload) as Hne.
    destruct l as [|c l]; [|by eexists]. cbn in Hlen. by destruct (securityScreenChunks payload).
Qed.

(** C21: cutting hides nothing: a passage of up to 256 units that makes every text
    around it strict makes the verdict strict wherever it stands, no chunk is
    longer than the classifier takes, and no surrogate pair is cut. *)
Theorem screen_misses_no_passage one sf ab payload v a b :
  classify one sf ab payload = Ok v -> 0 <= a <= b -> b <= len payload -> b - a <= SECURITY_SCREEN_CHUNK_OVERLAP_CHARS ->
  (forall i c r, occurs (slice (toWellFormed payload) a b) c -> one i c = Ok r -> isStrict r = true) ->
  isStrict v = true /\
  forall c, c ∈ securityScreenChunks payload -> len c <= SECURITY_SCREEN_CHUNK_CHARS /\ wellFormed c = true.
Proof.
  intros Hc Ha Hb Hw Hd. split; [|apply chunks_fit]. destruct (chunks_cover payload a b Ha Hb Hw) as (c & Hin & Ho).
  apply list_elem_of_lookup in Hin as [i Hi]. apply classify_chunks in Hc as (cs & Hc & _ & ->).
  destruct (classifyChunks_spec _ _ _ _ _ _ Hc) as [_ Hs]. destruct (Hs i c Hi) as (r & Hr & Hl).
  apply Arr.existsb_elem. exists r. split; [by eapply list_elem_of_lookup_2|by eapply Hd].
Qed.

(** An answer counts only within the bounds: a score of at least the threshold, both
    between zero and one, is strict. *)
Lemma classification_spec jp pr body c : classification jp pr body = Ok c ->
  unit_interval (score c) = true /\ unit_interval (threshold c) = true /\ isStrict c = Num.ge (score c) (threshold c).
Proof.
  unfold classification. destruct (jp body) as [[r|]|]; try done. destruct (b_score r) as [sc|], (b_threshold r) as [th|]; try done.
  destruct (unit_interval sc) eqn:E1, (unit_interval th) eqn:E2; try done. cbn [andb negb].
  destruct (b_outcome r) as [[o|]|]; try done; [destruct (OUTCOME o); [|done]|]; cbn [negb]; intros [= <-]; cbn;
    split_and!; try done; unfold isStrict; cbn; by destruct (Num.ge sc th).
Qed.

(** A chunk is asked about at most four times; only an answer 429 is followed by
    another attempt. *)
Lemma request_attempts jp u8 pr replies replies' attempt more :
  (forall n, (attempt <= n <= attempt + more)%nat -> replies n = replies' n) ->
  request jp u8 pr replies attempt more = request jp u8 pr replies' attempt more.
Proof.
  revert attempt. induction more as [|more IH]; intros attempt H; cbn; rewrite (H attempt) by lia; [done|].
  destruct (replies' attempt) as [|status d ps [e|]]; [done|done|]. destruct (status =? 429); [|done]. apply IH. intros n Hn. apply H. lia.
Qed.

Lemma readPieces_bound pieces total bytes : readPieces pieces total = Ok bytes ->
  total <= MAX_SECURITY_SCREEN_RESPONSE_BYTES -> total + Z.of_nat (length bytes) <= MAX_SECURITY_SCREEN_RESPONSE_BYTES.
Proof.
  revert total bytes. induction pieces as [|p ps IH]; intros total bytes; cbn; [intros [= <-]; cbn; lia|].
  destruct (Z.ltb_spec MAX_SECURITY_SCREEN_RESPONSE_BYTES (total + Z.of_nat (length p))); [done|].
  destruct (readPieces ps _) as [rest|] eqn:E; [|done]. intros [= <-] _. apply IH in E; [|done]. rewrite length_app. lia.
Qed.

(** Calls that come ([true]) and end ([false]): never more than two of a shadow are
    in flight, and those are the ones counted. *)
Fixpoint calls (evs : list bool) (active inFlight : nat) : option (nat * nat) :=
  match evs with
  | [] => Some (active, inFlight)
  | true :: evs =>
    match takeSlot true active with Ok a => calls evs a (S inFlight) | Throw _ => calls evs active inFlight end
  | false :: evs =>
    match inFlight with O => None | S n => calls evs (freeSlot true active) n end
  end.

Lemma calls_bounded evs active n a m : calls evs active n = Some (a, m) -> active = n -> (n <= 2)%nat -> a = m /\ (m <= 2)%nat.
Proof.
  revert active n. induction evs as [|[] evs IH]; cbn; intros active n H -> Hn; [by simplify_eq| |].
  - unfold takeSlot in H. cbn [andb] in H. destruct (Nat.leb_spec 2 n); [|apply (IH _ _ H); lia]. by apply (IH _ _ H).
  - destruct n as [|n]; [done|]. apply (IH _ _ H); cbn; lia.
Qed.

(** ** A text of two chunks *)
Definition attack : text := [105; 103; 110; 111; 114; 101].
Definition sample : text := replicate (Z.to_nat 1598) 32 ++ attack ++ replicate (Z.to_nat 10) 32.

Fixpoint startsWith (w c : text) : bool :=
  match w, c with [], _ => true | x :: w, y :: c => (x =? y) && startsWith w c | _, _ => false end.

Fixpoint contains (w c : text) : bool := startsWith w c || match c with [] => false | _ :: c => contains w c end.

Definition detector (i : nat) (c : text) : outcome Classification :=
  Ok (mkClassification (mkVerdict (if contains attack c then screen_strict else screen_auto) None None) one zero None).

Lemma startsWith_app w q : startsWith w (w ++ q) = true.
Proof. induction w as [|x w IH]; cbn; [done|]. by rewrite Z.eqb_refl. Qed.

Lemma contains_occurs w c : occurs w c -> contains w c = true.
Proof.
  intros (p & q & ->). induction p as [|x p IH]; cbn [app].
  - pose proof (startsWith_app w q) as H. destruct (w ++ q); cbn; by rewrite H.
  - cbn. by rewrite IH, orb_true_r.
Qed.

Lemma screen_verdict_exact_witness : exists v, classify detector (fun _ => false) (fun _ => false) sample = Ok v.
Proof.
  apply (proj2 (screen_verdict_exact detector (fun _ => false) (fun _ => false) sample)).
  - vm_compute. discriminate.
  - done.
  - intros i c _. by eexists.
Defined.

Lemma screen_misses_no_passage_witness : exists v,
  classify detector (fun _ => false) (fun _ => false) sample = Ok v /\ isStrict v = true.
Proof.
  destruct (classify detector (fun _ => false) (fun _ => false) sample) as [v|e] eqn:E; [|by vm_compute in E].
  exists v. split; [done|].
  apply (screen_misses_no_passage detector (fun _ => false) (fun _ => false) sample v 1598 1604 E).
  - lia.
  - vm_compute. discriminate.
  - vm_compute. discriminate.
  - intros i c r Ho [= <-]. cbn.
    assert (Hs : slice (toWellFormed sample) 1598 1604 = attack) by (vm_compute; reflexivity).
    rewrite Hs in Ho. unfold isStrict. cbn. by rewrite (contains_occurs _ _ Ho).
Defined.

End Proxy.

(** ** One attempt, and the classifier *)
Module Attempt.
Import Proxy.

(** Which classifiers there are: only the model's; the proxy's; or the model's with
    the proxy in the shadow.  [hasModel] is whether the harness can screen. *)
Inductive Mode := ModelOnly | ProxyDecides | ProxyShadow.
#[global] Instance Mode_eq_dec : EqDecision Mode.
Proof. solve_decision. Defined.

Inductive AuditStatus := would_block | shadow_allow | block | allow_ | error_ | unavailable | agree | disagree.

Inductive AuditAction := classify_ | shadow_evaluation.

Definition DEFAULT_SECURITY_SCREEN_TIMEOUT_MS : Z := 15000.

Definition UNSCREENED_REASON : string := "screen_unavailable".

Definition unscreenedVerdict : SecurityScreenVerdict := mkVerdict screen_auto (Some UNSCREENED_REASON) (Some true).

(** An end of one of the two: [None] is still running, [Some None] is an error (or
    nothing), and [result] is what the race came to. *)
Record State := mkState {
  proxySettled : bool; aborted : bool;
  modelEnd : option (option SecurityScreenVerdict);
  proxyEnd : option (option Classification);
  result : option (option SecurityScreenVerdict);
  audit : list (AuditAction * AuditStatus) }.

Definition start : State := mkState false false None None None [].

Inductive Event :=
| ModelAnswers (v : option SecurityScreenVerdict)
| ModelFails
| ProxyAnswers (c : Classification)
| ProxyFails
| TimerFires.

Definition settle (v : option SecurityScreenVerdict) (s : State) : State :=
  match result s with
  | Some _ => s
  | None => mkState (proxySettled s) (aborted s) (modelEnd s) (proxyEnd s) (Some v) (audit s)
  end.

Definition record (a : AuditAction) (st : AuditStatus) (s : State) : State :=
  mkState (proxySettled s) (aborted s) (modelEnd s) (proxyEnd s) (result s) (audit s ++ [(a, st)]).

Definition withModel (v : option SecurityScreenVerdict) (s : State) : State :=
  mkState (proxySettled s) (aborted s) (Some v) (proxyEnd s) (result s) (audit s).

Definition withProxy (c : option Classification) (s : State) : State :=
  mkState (proxySettled s) (aborted s) (modelEnd s) (Some c) (result s) (audit s).

Definition withSettled (s : State) : State :=
  mkState true (aborted s) (modelEnd s) (proxyEnd s) (result s) (audit s).

Definition withAborted (s : State) : State :=
  mkState (proxySettled s) true (modelEnd s) (proxyEnd s) (result s) (audit s).

Definition recordProxyError (mode : Mode) (s : State) : State :=
  if (mode === ModelOnly) || proxySettled s then s else record classify_ error_ (withSettled s).

(** [classified.verdict.decision], compared when both have ended. *)
Definition compared (m : option SecurityScreenVerdict) (p : option Classification) : AuditStatus :=
  match m, p with
  | Some v, Some c => if decision v === decision (verdict c) then agree else disagree
  | _, _ => unavailable
  end.

(** [settled] of [runShadowScreen], once both have ended. *)
Definition shadowSettled (mode : Mode) (s : State) : State :=
  match mode, modelEnd s, proxyEnd s with
  | ProxyShadow, Some m, Some p => record shadow_evaluation (compared m p) s
  | _, _, _ => s
  end.

#[local] Arguments shadowSettled : simpl never.

Definition classifyStatus (mode : Mode) (c : Classification) : AuditStatus :=
  if mode === ProxyShadow then if isStrict c then would_block else shadow_allow
  else if isStrict c then block else allow_.

(** [proxyScreen] once the proxy has answered. *)
Definition proxyAnswered (mode : Mode) (c : Classification) (s : State) : State :=
  if aborted s then withProxy None s
  else withProxy (Some c) (record classify_ (classifyStatus mode c) (withSettled s)).

Definition deliver (mode : Mode) (s : State) : State :=
  match mode, proxyEnd s with
  | ProxyDecides, Some p => settle (verdict <$> p) s
  | _, _ => s
  end.

Definition exec (mode : Mode) (ev : Event) (s : State) : option State :=
  match ev with
  | ModelAnswers v =>
    if (mode === ProxyDecides) || bool_decide (is_Some (modelEnd s)) then None else Some (shadowSettled mode (settle v (withModel v s)))
  | ModelFails =>
    if (mode === ProxyDecides) || bool_decide (is_Some (modelEnd s)) then None else Some (shadowSettled mode (settle None (withModel None s)))
  | ProxyAnswers c =>
    if (mode === ModelOnly) || bool_decide (is_Some (proxyEnd s)) then None
    else Some (shadowSettled mode (deliver mode (proxyAnswered mode c s)))
  | ProxyFails =>
    if (mode === ModelOnly) || bool_decide (is_Some (proxyEnd s)) then None
    else Some (shadowSettled mode (deliver mode (withProxy None (recordProxyError mode s))))
  | TimerFires =>
    if bool_decide (is_Some (result s)) then None else Some (settle None (recordProxyError mode (withAborted s)))
  end.

Fixpoint execs (mode : Mode) (evs : list Event) (s : State) : option State :=
  match evs with [] => Some s | ev :: evs => match exec mode ev s with Some s => execs mode evs s | None => None end end.

(** [classifySecurityData] from what its attempts come to; [elapsed] is the time the
    first one took. *)
Definition classifySecurityData (available : bool) (timeoutMs elapsed : Z) (first second : option SecurityScreenVerdict)
    : option SecurityScreenVerdict :=
  if negb available then None else
  match first with
  | Some v => Some v
  | None => if timeoutMs <=? 2 * elapsed then Some unscreenedVerdict else Some (default unscreenedVerdict second)
  end.

(** ** The shadow decides nothing *)

Definition ofModel (ev : Event) : bool := match ev with ProxyAnswers _ | ProxyFails => false | _ => true end.

(** What the decision depends on. *)
Definition same (s s' : State) : Prop := modelEnd s = modelEnd s' /\ result s = result s'.

Lemma same_shadowSettled m s s' : same s s' -> same (shadowSettled m s) s'.
Proof. unfold shadowSettled. by destruct m, (modelEnd s), (proxyEnd s). Qed.

Lemma same_settle v s s' : same s s' -> same (settle v s) (settle v s').
Proof. intros [H1 H2]. unfold settle. rewrite <- H2. destruct (result s) eqn:E; split; cbn; congruence. Qed.

Lemma same_proxyError m s s' : same s s' -> same (recordProxyError m s) s'.
Proof. unfold recordProxyError. by destruct (_ || _). Qed.

Lemma same_sym s s' : same s s' -> same s' s.
Proof. intros [? ?]. by split. Qed.

Lemma shadow_step ev s s1 s' : same s s' -> exec ProxyShadow ev s = Some s1 ->
  if ofModel ev then exists s1', exec ModelOnly ev s' = Some s1' /\ same s1 s1' else same s1 s'.
Proof.
  intros Hs. pose proof Hs as [Hm Hr]. destruct ev as [v| |c| |]; cbn [exec ofModel]; rewrite <- ?Hm, <- ?Hr;
    change (ProxyShadow === ProxyDecides) with false; change (ModelOnly === ProxyDecides) with false;
    change (ProxyShadow === ModelOnly) with false; cbn [orb]; (case_bool_decide; [done|]); intros [= <-].
  - eexists. split; [done|]. by apply same_shadowSettled, same_settle.
  - eexists. split; [done|]. by apply same_shadowSettled, same_settle.
  - apply same_shadowSettled. cbn. unfold proxyAnswered. by destruct (aborted s).
  - apply same_shadowSettled. cbn. by apply (same_proxyError ProxyShadow s s').
  - eexists. split; [done|]. apply same_settle, same_proxyError, same_sym, same_proxyError. by apply same_sym.
Qed.

Lemma shadow_run evs s s1 s' : same s s' -> execs ProxyShadow evs s = Some s1 ->
  exists s1', execs ModelOnly (List.filter ofModel evs) s' = Some s1' /\ same s1 s1'.
Proof.
  revert s s'. induction evs as [|ev evs IH]; cbn; intros s s' Hs; [intros [= <-]; by exists s'|].
  destruct (exec ProxyShadow ev s) as [s2|] eqn:E; [|done]. intros H. pose proof (shadow_step _ _ _ _ Hs E) as Hst.
  destruct (ofModel ev); [|by eapply IH]. destruct Hst as (s2' & E' & Hs'). cbn. rewrite E'. by eapply IH.
Qed.

(** C22: a screener in the shadow decides nothing: whatever it answers, and whenever,
    the attempt comes to what it would have come to without it. *)
Theorem shadow_never_decides evs s :
  execs ProxyShadow evs start = Some s ->
  exists s', execs ModelOnly (List.filter ofModel evs) start = Some s' /\ result s = result s'.
Proof. intros H. destruct (shadow_run evs start s start) as (s' & ? & [_ ?]); [done|done|]. by exists s'. Qed.

(** ** What is recorded *)

Definition countOf (a : AuditAction) (l : list (AuditAction * AuditStatus)) : nat :=
  length (List.filter (fun e => match a, e.1 with classify_, classify_ | shadow_evaluation, shadow_evaluation => true | _, _ => false end) l).

#[local] Arguments countOf : simpl never.

Lemma countOf_snoc a b st l : countOf a (l ++ [(b, st)]) =
  (countOf a l + match a, b with classify_, classify_ | shadow_evaluation, shadow_evaluation => 1 | _, _ => 0 end)%nat.
Proof. unfold countOf. rewrite List.filter_app, length_app. by destruct a, b. Qed.

Record inv (mode : Mode) (s : State) : Prop := mkInv {
  v_classify : countOf classify_ (audit s) = (if proxySettled s then 1 else 0)%nat;
  v_settled : proxySettled s = (mode !== ModelOnly) && (bool_decide (is_Some (proxyEnd s)) || aborted s);
  v_shadow : countOf shadow_evaluation (audit s) =
    match mode, modelEnd s, proxyEnd s with ProxyShadow, Some _, Some _ => 1 | _, _, _ => 0 end%nat;
  v_decides : mode = ProxyDecides -> forall v, result s = Some (Some v) ->
    exists c, proxyEnd s = Some (Some c) /\ v = verdict c /\ (classify_, classifyStatus mode c) ∈ audit s }.

Lemma start_recorded mode : inv mode start.
Proof. by split; destruct mode. Qed.

(** Cases on everything the record depends on. *)
Ltac recorded :=
  unfold settle, shadowSettled, deliver, proxyAnswered, recordProxyError, record in *; cbn in *;
  repeat (case_match; cbn in *); split; cbn; rewrite ?countOf_snoc; cbn; try done; try lia;
  match goal with
  | H : ProxyDecides = ProxyDecides -> forall v, Some _ = Some (Some v) -> exists c, None = _ /\ _ |- _ =>
    intros _ v [= ->]; destruct (H eq_refl _ eq_refl) as (? & [=] & _)
  | _ => intros _ v [= <-]; eexists; split_and!; [done|done|apply elem_of_app; right; left]
  end.

Lemma model_recorded mode v s : mode <> ProxyDecides -> modelEnd s = None -> inv mode s ->
  inv mode (shadowSettled mode (settle v (withModel v s))).
Proof.
  intros Hm Hn []. destruct s as [ps ab me pe res au], mode, pe as [p|], res as [r|]; cbn in *; subst me ps; try done; recorded.
Qed.

Lemma proxyFail_recorded mode s : mode <> ModelOnly -> proxyEnd s = None -> inv mode s ->
  inv mode (shadowSettled mode (deliver mode (withProxy None (recordProxyError mode s)))).
Proof.
  intros Hm Hn []. destruct s as [ps [] me pe res au], mode, me as [p|], res as [r|]; cbn in *; subst pe ps; try done; recorded.
Qed.

Lemma proxyAnswer_recorded mode c s : mode <> ModelOnly -> proxyEnd s = None -> inv mode s ->
  inv mode (shadowSettled mode (deliver mode (proxyAnswered mode c s))).
Proof.
  intros Hm Hn []. destruct s as [ps [] me pe res au], mode, me as [p|], res as [r|]; cbn in *; subst pe ps; try done; recorded.
Qed.

Lemma timer_recorded mode s : result s = None -> inv mode s -> inv mode (settle None (recordProxyError mode (withAborted s))).
Proof.
  intros Hn []. destruct s as [ps [] me pe res au], mode, me as [p|], pe as [r|]; cbn in *; subst res ps; try done; recorded.
Qed.

Lemma event_recorded mode ev s s' : inv mode s -> exec mode ev s = Some s' -> inv mode s'.
Proof.
  intros I. destruct ev as [v| |c| |]; cbn [exec].
  5: { destruct (bool_decide _) eqn:E; [done|]. intros [= <-]. apply timer_recorded; [|done].
       apply bool_decide_eq_false in E. by apply eq_None_not_Some. }
  all: destruct (_ || _) eqn:E; [done|]; intros [= <-].
  all: apply orb_false_iff in E as [E1%bool_decide_eq_false E2%bool_decide_eq_false]; apply eq_None_not_Some in E2.
  - by apply model_recorded.
  - by apply model_recorded.
  - by apply proxyAnswer_recorded.
  - by apply proxyFail_recorded.
Qed.

Lemma events_recorded mode evs s s' : inv mode s -> execs mode evs s = Some s' -> inv mode s'.
Proof.
  revert s. induction evs as [|ev evs IH]; cbn; intros s I; [by intros [= <-]|].
  destruct (exec mode ev s) as [s1|] eqn:E; [|done]. by apply IH, (event_recorded mode ev s).
Qed.

(** A verdict of the proxy is on record: when it decides, the verdict an attempt
    comes to is recorded as it was given; and whatever happens in whatever order, an
    attempt records one classification exactly if the proxy ended or the timer cut
    it off, and one comparison exactly if both classifiers of a shadow ended. *)
Theorem screen_recorded mode evs s :
  execs mode evs start = Some s ->
  (mode = ProxyDecides -> forall v, result s = Some (Some v) ->
     exists c, v = verdict c /\ (classify_, if isStrict c then block else allow_) ∈ audit s) /\
  countOf classify_ (audit s) = (if (mode !== ModelOnly) && (bool_decide (is_Some (proxyEnd s)) || aborted s) then 1 else 0)%nat /\
  countOf shadow_evaluation (audit s) =
    match mode, modelEnd s, proxyEnd s with ProxyShadow, Some _, Some _ => 1 | _, _, _ => 0 end%nat.
Proof.
  intros H. destruct (events_recorded mode evs start s (start_recorded mode) H) as [H1 H2 H3 H4]. split_and!; [|by rewrite <- H2|done].
  intros -> v Hv. destruct (H4 eq_refl v Hv) as (c & _ & Hc & Hin). exists c. by split.
Qed.

Definition malicious : Classification := mkClassification (mkVerdict screen_strict (Some "p:malicious") None) one zero None.

Lemma screen_recorded_witness : exists c, verdict malicious = verdict c /\
  (classify_, if isStrict c then block else allow_) ∈ [(classify_, block)].
Proof.
  exact (proj1 (screen_recorded ProxyDecides [ProxyAnswers malicious] _ eq_refl) eq_refl (verdict malicious) eq_refl).
Defined.

Lemma shadow_never_decides_witness : exists s',
  execs ModelOnly [ModelAnswers (Some (mkVerdict screen_auto None None))] start = Some s' /\
  Some (Some (mkVerdict screen_auto None None)) = result s'.
Proof.
  exact (shadow_never_decides
    [ProxyAnswers malicious; ModelAnswers (Some (mkVerdict screen_auto None None))] _ eq_refl).
Defined.

(** With a screener there is always a verdict, and it is a screener's unless both
    attempts came to nothing or the first took half the time allowed. *)
Lemma classifySecurityData_cases timeoutMs elapsed first second :
  exists v, classifySecurityData true timeoutMs elapsed first second = Some v /\
  (v = unscreenedVerdict \/ first = Some v \/ (first = None /\ second = Some v)) /\
  (first = None -> 2 * elapsed < timeoutMs -> Some v = second \/ (second = None /\ v = unscreenedVerdict)).
Proof.
  unfold classifySecurityData. destruct first as [v|]; cbn; [exists v; split_and!; auto; done|].
  destruct (Z.leb_spec timeoutMs (2 * elapsed)); [exists unscreenedVerdict; split_and!; auto; lia|].
  exists (default unscreenedVerdict second). split_and!; [done| |]; destruct second; cbn; auto.
Qed.

End Attempt.
