(* ===== verification/Skills.v ===== *)
(** * Skills: names and paths, their life cycle, and which one is used

    [Paths] is [src/skills/skill-name.ts], [safeSkillFilePath] of
    [src/skills/skill-store.ts], [src/skills/materialization-paths.ts] and
    [src/skills/skill-collision.ts].  The rest is [createSkillStore] of
    [src/skills/skill-store.ts] over a durable map, and the installation of seeds
    ([src/skills/seed.ts]).  The signature is a parameter: the HMAC of the JSON of a
    canonical manifest.  A method runs to its end before the next one starts; ids
    and times are arguments; the dashes of error messages are written as colons. *)

From Stdlib Require Import ZArith Lia Ascii.
From S2P Require Import Prelude Collections Scopes DurableMap.
Open Scope Z_scope.

(** ** Names and paths *)
Module Paths.

Definition alnum (c : ascii) : bool :=
  let n := N_of_ascii c in
  ((65 <=? n) && (n <=? 90) || (97 <=? n) && (n <=? 122) || (48 <=? n) && (n <=? 57))%N.

Definition nameChar (c : ascii) : bool := alnum c || existsb (fun d => c === d) ["_"%char; "."%char; "-"%char].
Definition lastChar (c : ascii) : bool := alnum c || existsb (fun d => c === d) ["_"%char; "-"%char].

(** The rest of a name: characters of a name, the last one no dot. *)
Fixpoint nameRest (s : string) : bool :=
  match s with
  | "" => true
  | String c "" => lastChar c
  | String c s => nameChar c && nameRest s
  end.

Definition isSafeSkillName (name : string) : bool :=
  match name with "" => false | String c s => alnum c && nameRest s && (String.length s <=? 127)%nat end.

Definition nameError : string :=
  "skill name must be 1-128 ASCII letters, digits, dots, underscores, or hyphens; it must start with a letter or digit and cannot end with a dot".

Definition assertSafeSkillName (name : string) : outcome string := if isSafeSkillName name then Ok name else Throw nameError.

Fixpoint slashes (s : string) : string :=
  match s with "" => "" | String c s => String (if c === "\"%char then "/"%char else c) (slashes s) end.

Fixpoint dropSlashes (s : string) : string :=
  match s with "" => "" | String c s' => if c === "/"%char then dropSlashes s' else s end.

(** [replace(/^\.\/+/, )] with the empty text *)
Definition dropDotSlash (s : string) : string :=
  match s with
  | String c (String d s') => if (c === "."%char) && (d === "/"%char) then dropSlashes s' else s
  | _ => s
  end.

Fixpoint dropTrailing (s : string) : string :=
  match s with
  | "" => ""
  | String c s => match dropTrailing s with "" => if c === "/"%char then "" else String c "" | s' => String c s' end
  end.

Definition badPart (part : string) : bool :=
  (part === ".") || (part === "..") || Str.includesChar "000" part.

Definition partsOf (path : string) : list string :=
  List.filter Str.truthy (Str.split "/" (dropTrailing (dropDotSlash (slashes path)))).

Definition safeSkillFilePath (path : string) : outcome string :=
  let parts := partsOf path in
  if negb (match parts with [] => false | _ => true end) || Str.startsWith path "/" || existsb badPart parts
  then Throw ("invalid skill file path: " +:+ path) else Ok (Str.join "/" parts).

Definition SKILLS_DIR : string := "skills".
Definition SKILLS_INDEX_MARKER : string := SKILLS_DIR +:+ "/.index".
Definition SKILL_TREE_MARKER : string := ".tree".

Definition isSkillMaterializationControlPath (path : string) : bool :=
  (path === SKILLS_INDEX_MARKER) || Str.startsWith path (SKILLS_INDEX_MARKER +:+ "/") ||
  match Str.split "/" path with
  | a :: _ :: c :: _ => (a === SKILLS_DIR) && (c === SKILL_TREE_MARKER)
  | _ => false
  end.

Record SkillFile := mkFile { path : string; content : string; executable : bool }.
#[global] Instance SkillFile_eq_dec : EqDecision SkillFile.
Proof. solve_decision. Defined.

(** The record's paths: the skill's own file, its marker, its files. *)
Definition filePath (dir : string) (f : SkillFile) : list string :=
  match safeSkillFilePath (path f) with
  | Throw _ => []
  | Ok rel => let p := dir +:+ "/" +:+ rel in if isSkillMaterializationControlPath p then [] else [p]
  end.

Definition skillRecordPaths (name : string) (files : list SkillFile) : outcome (list string) :=
  match assertSafeSkillName name with
  | Throw e => Throw e
  | Ok n => let dir := SKILLS_DIR +:+ "/" +:+ n in
            Ok ([dir +:+ "/SKILL.md"; dir +:+ "/" +:+ SKILL_TREE_MARKER] ++ concat (map (filePath dir) files))
  end.

Definition persistedSkillRecordPaths (name : string) (files : list SkillFile) : outcome (list string) :=
  if isSafeSkillName name then skillRecordPaths name files else Ok [].

Fixpoint collisionsFrom (incoming : list string) (claimed : jmap string string) (seen : list string) : list (string * string) :=
  match incoming with
  | [] => []
  | p :: incoming =>
    match JMap.get claimed p with
    | Some owner => if bool_decide (p ∈ seen) then collisionsFrom incoming claimed seen
                    else (p, owner) :: collisionsFrom incoming claimed (p :: seen)
    | None => collisionsFrom incoming claimed seen
    end
  end.

Definition detectPathCollisions (incoming : list string) (claimed : jmap string string) : list (string * string) :=
  collisionsFrom incoming claimed [].

(** ** A safe path is a normal form *)

Lemma parts_elem p x : x ∈ partsOf p -> Str.truthy x = true /\ Str.includesChar "/" x = false.
Proof. unfold partsOf. intros [H1 H2]%Arr.elem_of_filter. split; [done|by eapply Str.split_elem]. Qed.

Lemma slashes_id s : Str.includesChar "\" s = false -> slashes s = s.
Proof. induction s as [|c s IH]; cbn; [done|]. intros [Hc Hs]%orb_false_iff. by rewrite Hc, (IH Hs). Qed.

Lemma slashes_none s : Str.includesChar "\" (slashes s) = false.
Proof. induction s as [|c s IH]; cbn; [done|]. rewrite IH, orb_false_r. destruct (c === "\"%char) eqn:E; [done|exact E]. Qed.

(** No step puts a character into a path. *)
Lemma dropSlashes_sub d s : Str.includesChar d s = false -> Str.includesChar d (dropSlashes s) = false.
Proof.
  induction s as [|c s IH]; [done|]. cbn. intros H. pose proof H as [Hc Hs]%orb_false_iff.
  destruct (c === "/"%char); [by apply IH|exact H].
Qed.

Lemma dropDotSlash_sub d s : Str.includesChar d s = false -> Str.includesChar d (dropDotSlash s) = false.
Proof.
  intros H. unfold dropDotSlash. destruct s as [|c [|e s]]; [done|done|]. destruct (_ && _); [|done].
  apply dropSlashes_sub. cbn in H. by apply orb_false_iff in H as [_ [_ H]%orb_false_iff].
Qed.

Lemma dropTrailing_sub d s : Str.includesChar d s = false -> Str.includesChar d (dropTrailing s) = false.
Proof.
  induction s as [|c s IH]; cbn; [done|]. intros [Hc Hs]%orb_false_iff. specialize (IH Hs).
  destruct (dropTrailing s); [destruct (c === "/"%char); cbn; [done|by rewrite Hc]|]. cbn in *. by rewrite Hc, IH.
Qed.

Lemma split_sub c d s x : x ∈ Str.split c s -> Str.includesChar d s = false -> Str.includesChar d x = false.
Proof.
  revert x. induction s as [|e s IH]; intros x; cbn; [by intros ->%list_elem_of_singleton|].
  intros Hx [He Hs]%orb_false_iff. destruct (e === c); [apply elem_of_cons in Hx as [->|Hx]; [done|by apply IH]|].
  destruct (Str.split c s) as [|w ws]; [apply list_elem_of_singleton in Hx as ->; cbn; by rewrite He|].
  apply elem_of_cons in Hx as [->|Hx]; [cbn; rewrite He; apply IH; [left|done]|apply IH; [by right|done]].
Qed.

Lemma parts_backslash p x : x ∈ partsOf p -> Str.includesChar "\" x = false.
Proof.
  unfold partsOf. intros [_ H]%Arr.elem_of_filter. eapply split_sub; [done|].
  by apply dropTrailing_sub, dropDotSlash_sub, slashes_none.
Qed.

Lemma includesChar_join c sep l : Str.includesChar c sep = false -> (forall x, x ∈ l -> Str.includesChar c x = false) ->
  Str.includesChar c (Str.join sep l) = false.
Proof.
  intros Hs. induction l as [|x l IH]; intros Hl; [done|]. destruct l as [|y l]; [apply Hl; by left|].
  change (Str.join sep (x :: y :: l)) with (x +:+ sep +:+ Str.join sep (y :: l)).
  rewrite !Str.includesChar_append, Hs, (Hl x (list_elem_of_here _ _)), IH; [done|]. intros z Hz. apply Hl. by right.
Qed.

(** The parts of a path: none empty, no separator inside. *)
Definition part (x : string) : Prop := Str.truthy x = true /\ Str.includesChar "/" x = false.

Lemma dropTrailing_part x : part x -> dropTrailing x = x.
Proof.
  intros [_ Hx]. induction x as [|c x IH]; cbn; [done|]. cbn in Hx. apply orb_false_iff in Hx as [Hc Hx]. rewrite (IH Hx), Hc.
  by destruct x.
Qed.

Lemma dropTrailing_append a t : t <> "" -> dropTrailing t = t -> dropTrailing (a +:+ t) = a +:+ t.
Proof.
  intros Hne Ht. induction a as [|c a IH]; cbn; [done|]. rewrite IH. destruct (a +:+ t) eqn:E; [|done].
  by destruct a, t.
Qed.

Lemma part_nonempty x : part x -> x <> "".
Proof. by intros [H _] ->. Qed.

Lemma join_nonempty x l : part x -> Str.join "/" (x :: l) <> "".
Proof. intros H%part_nonempty. destruct l; [done|]. cbn. by destruct x. Qed.

Lemma dropTrailing_join l : Forall part l -> dropTrailing (Str.join "/" l) = Str.join "/" l.
Proof.
  induction 1 as [|x l Hx Hl IH]; [done|]. destruct l as [|y l]; [by apply dropTrailing_part|].
  change (Str.join "/" (x :: y :: l)) with (x +:+ ("/" +:+ Str.join "/" (y :: l))).
  apply Forall_cons in Hl as [Hy _]. apply dropTrailing_append; [done|].
  apply dropTrailing_append; [by apply join_nonempty|done].
Qed.

Lemma dropDotSlash_join x l : part x -> x <> "." -> dropDotSlash (Str.join "/" (x :: l)) = Str.join "/" (x :: l).
Proof.
  intros [Ht Hs] Hd. unfold dropDotSlash. destruct x as [|c [|d x]]; [done| |].
  - destruct l as [|y l]; [done|]. cbn. case_bool_decide as E; [|done]. by subst.
  - cbn in Hs. apply orb_false_iff in Hs as [_ [Hd' _]%orb_false_iff].
    destruct l as [|y l]; cbn; rewrite Hd', andb_false_r; done.
Qed.

Lemma startsSlash_join x l : part x -> Str.startsWith (Str.join "/" (x :: l)) "/" = false.
Proof.
  intros [Ht Hs]. destruct x as [|c x]; [done|]. cbn in Hs. apply orb_false_iff in Hs as [Hc _].
  assert (exists r, Str.join "/" (String c x :: l) = String c r) as [r ->] by (destruct l; cbn; by eexists).
  by rewrite Str.startsWith_cons, Hc.
Qed.

Lemma partsOf_join l : l <> [] -> Forall part l -> (forall x, x ∈ l -> Str.includesChar "\" x = false /\ x <> ".") ->
  partsOf (Str.join "/" l) = l.
Proof.
  intros Hne Hp Hb. unfold partsOf. rewrite slashes_id by (apply includesChar_join; [done|intros x Hx; by apply Hb]).
  destruct l as [|x l]; [done|]. pose proof Hp as [Hx _]%Forall_cons.
  rewrite dropDotSlash_join by (try done; apply Hb; left). rewrite dropTrailing_join by done.
  rewrite Str.split_join; [|done|eapply Forall_impl; [done|by intros ? []]].
  apply Arr.filter_all. intros y Hy. rewrite Forall_forall in Hp. by apply Hp.
Qed.

Lemma safePath_parts p q x : safeSkillFilePath p = Ok q -> x ∈ Str.split "/" q -> Str.truthy x = true /\ badPart x = false.
Proof.
  unfold safeSkillFilePath. destruct (_ || _) eqn:E; [done|]. intros [= <-].
  apply orb_false_iff in E as [[E1 _]%orb_false_iff E2]. assert (Hne : partsOf p <> []) by (by destruct (partsOf p)).
  rewrite Str.split_join; [|done|apply Forall_forall; intros y Hy; by apply parts_elem in Hy as []].
  intros Hx. split; [by apply parts_elem in Hx as []|by eapply Arr.existsb_false].
Qed.

(** A path that is accepted names a file below the skill's directory (no part is
    empty, a dot, two dots or has a NUL), and is its own normal form. *)
Theorem safe_path_normal p q :
  safeSkillFilePath p = Ok q ->
  (forall x, x ∈ Str.split "/" q -> Str.truthy x = true /\ badPart x = false) /\ safeSkillFilePath q = Ok q.
Proof.
  intros Hq. split; [intros x; by apply (safePath_parts p)|]. revert Hq. unfold safeSkillFilePath.
  destruct (_ || _) eqn:E; [done|]. intros [= <-].
  apply orb_false_iff in E as [[E1 _]%orb_false_iff E2]. assert (Hne : partsOf p <> []) by (by destruct (partsOf p)).
  assert (Hp : Forall part (partsOf p)) by (apply Forall_forall; intros x Hx; by apply parts_elem in Hx).
  rewrite (partsOf_join (partsOf p)); [|done|done|].
  - destruct (partsOf p) as [|x l] eqn:El; [done|]. apply Forall_cons in Hp as [Hx _].
    rewrite startsSlash_join by done. cbn [negb orb]. by rewrite E2.
  - intros x Hx. split; [by apply (parts_backslash p)|]. intros ->. by pose proof (proj1 (Arr.existsb_false _ _) E2 _ Hx).
Qed.

Lemma safe_path_normal_witness : safeSkillFilePath "./a\b//c.md/" = Ok "a/b/c.md" /\ safeSkillFilePath "a/b/c.md" = Ok "a/b/c.md".
Proof. split; [reflexivity|]. apply (safe_path_normal "./a\b//c.md/" "a/b/c.md"). reflexivity. Defined.

Lemma nameChar_slash c : nameChar c = true -> (c === "/"%char) = false.
Proof. intros H. case_bool_decide as E; [|done]. by subst. Qed.

Lemma nameRest_slash s : nameRest s = true -> Str.includesChar "/" s = false.
Proof.
  induction s as [|c s IH]; [done|]. cbn [Str.includesChar]. destruct s as [|d s].
  - cbn. intros H. rewrite nameChar_slash; [done|]. unfold nameChar. unfold lastChar in H. apply orb_true_iff in H as [->|H]; [done|].
    rewrite orb_true_iff. right. cbn in *. destruct (c === "_"%char); [done|]. destruct (c === "-"%char); [|done]. by rewrite !orb_true_r.
  - intros H. change (nameChar c && nameRest (String d s) = true) in H. apply andb_true_iff in H as [Hc Hs].
    by rewrite (nameChar_slash c Hc), (IH Hs).
Qed.

(** A safe name is one part of a path. *)
Lemma safeName_part n : isSafeSkillName n = true -> part n.
Proof.
  unfold isSafeSkillName. destruct n as [|c n]; [done|]. rewrite !andb_true_iff. intros [[Hc Hn] _]. split; [done|].
  cbn. rewrite (nameRest_slash n Hn), orb_false_r. case_bool_decide as E; [|done]. by subst.
Qed.

Lemma split_nonempty c s : Str.split c s <> [].
Proof. destruct s as [|d s]; cbn; [done|]. destruct (d === c); [done|]. by destruct (Str.split c s). Qed.

(** Below the directory of [n]. *)
Definition below (n p : string) : Prop :=
  exists rest, Str.split "/" p = SKILLS_DIR :: n :: rest /\ rest <> [] /\
    forall x, x ∈ rest -> Str.truthy x = true /\ badPart x = false.

Lemma below_intro n rel : part n -> (forall x, x ∈ Str.split "/" rel -> Str.truthy x = true /\ badPart x = false) ->
  below n ((SKILLS_DIR +:+ "/" +:+ n) +:+ "/" +:+ rel).
Proof.
  intros [_ Hn] Hrel. exists (Str.split "/" rel). split_and!; [|apply split_nonempty|done].
  change ((SKILLS_DIR +:+ "/" +:+ n) +:+ "/" +:+ rel) with ((SKILLS_DIR +:+ String "/" n) +:+ String "/" rel).
  rewrite !Str.split_append, (Str.split_no_sep _ n Hn). done.
Qed.

Lemma Ok_eq {A} (a b : A) : Ok a = Ok b -> a = b.
Proof. by intros [=]. Qed.

(** Every path a skill's record writes lies below the skill's own directory, so two
    skills with different names write no common path. *)
Theorem record_paths_confined name files ps p :
  skillRecordPaths name files = Ok ps -> p ∈ ps ->
  below name p /\
  forall name' files' ps', skillRecordPaths name' files' = Ok ps' -> p ∈ ps' -> name' = name.
Proof.
  assert (Hb : forall n fs l, skillRecordPaths n fs = Ok l -> p ∈ l -> below n p).
  { intros n fs l. unfold skillRecordPaths, assertSafeSkillName. destruct (isSafeSkillName n) eqn:En; [|done].
    apply safeName_part in En. intros <-%Ok_eq. intros [Hin|Hin]%elem_of_app.
    - apply elem_of_cons in Hin as [->|Hin]; [|apply list_elem_of_singleton in Hin as ->].
      + apply (below_intro n "SKILL.md"); [done|]. intros x ->%list_elem_of_singleton. done.
      + apply (below_intro n ".tree"); [done|]. intros x ->%list_elem_of_singleton. done.
    - apply list_elem_of_In, in_concat in Hin as (l & Hl & Hin). apply in_map_iff in Hl as (f & <- & _). apply list_elem_of_In in Hin.
      unfold filePath in Hin. destruct (safeSkillFilePath (path f)) as [rel|] eqn:Er; [|by apply elem_of_nil in Hin].
      destruct (isSkillMaterializationControlPath _); [by apply elem_of_nil in Hin|]. apply list_elem_of_singleton in Hin as ->.
      apply below_intro; [done|intros x; by apply (safePath_parts (path f))]. }
  intros H Hp. split; [by eapply Hb|]. intros name' files' ps' H' Hp'.
  destruct (Hb _ _ _ H Hp) as (r & Hr & _), (Hb _ _ _ H' Hp') as (r' & Hr' & _). congruence.
Qed.

Lemma record_paths_confined_witness : below "deploy" "skills/deploy/run.sh".
Proof.
  apply (record_paths_confined "deploy" [mkFile "./run.sh" "echo" true]
           ["skills/deploy/SKILL.md"; "skills/deploy/.tree"; "skills/deploy/run.sh"]).
  - reflexivity.
  - right. right. left.
Defined.

(** The collisions: the claimed paths among those that come in, each once, with the owner. *)
Lemma collisionsFrom_spec incoming claimed seen p o :
  (p, o) ∈ collisionsFrom incoming claimed seen <-> p ∈ incoming /\ (p ∉ seen) /\ JMap.get claimed p = Some o.
Proof.
  revert seen. induction incoming as [|q l IH]; intros seen; cbn; [split; [by intros ?%elem_of_nil|by intros [?%elem_of_nil _]]|].
  destruct (JMap.get claimed q) as [o'|] eqn:E; [case_bool_decide as Hs|]; rewrite ?elem_of_cons, ?IH, ?elem_of_cons; split;
    try naive_solver.
  intros ([->|Hin] & Hn & Ho); [left; congruence|]. destruct (decide (p = q)) as [->|]; [left; congruence|]. right. naive_solver.
Qed.

Lemma collisionsFrom_nodup incoming claimed seen : NoDup (map fst (collisionsFrom incoming claimed seen)).
Proof.
  revert seen. induction incoming as [|q l IH]; intros seen; cbn; [constructor|]. destruct (JMap.get claimed q); [|apply IH].
  case_bool_decide; [apply IH|]. cbn. constructor; [|apply IH]. intros ([p o] & -> & Hin)%list_elem_of_fmap.
  apply collisionsFrom_spec in Hin as (_ & Hn & _). apply Hn. by left.
Qed.

End Paths.

(** ** The store *)
Import Paths.

Inductive SkillStatus := draft | reviewed | published | archived.
#[global] Instance SkillStatus_eq_dec : EqDecision SkillStatus.
Proof. solve_decision. Defined.

Record SkillManifest := mkManifest {
  name : string; description : string; requiredCapabilities : list string; body : string; files : list SkillFile }.
#[global] Instance SkillManifest_eq_dec : EqDecision SkillManifest.
Proof. solve_decision. Defined.

Record Pack := mkPack { packId : string; commit : string; upstreamName : string }.

Record Skill := mkSkill {
  s_id : string; s_scopeId : ScopeId; manifest : SkillManifest; signature : string; status : SkillStatus;
  createdBy : string; version : Z; grantedCapabilities : list string; approvals : list string;
  createdAt : option Z; updatedAt : option Z; lastUsedAt : option Z; pack : option Pack }.

(** What is signed: the capabilities and files in order. *)
Record Canonical := mkCanonical {
  n_name : string; n_description : string; n_requiredCapabilities : list string; n_body : string;
  n_files : list (string * string * bool) }.

Definition canonicalFiles (fs : list SkillFile) : list (string * string * bool) :=
  Arr.sort (fun a b => Str.leb a.1.1 b.1.1) (map (fun f => (path f, content f, executable f)) fs).

Definition canonical (m : SkillManifest) : Canonical :=
  mkCanonical (name m) (description m) (Arr.sort Str.leb (requiredCapabilities m)) (body m) (canonicalFiles (files m)).

(** [parseScopeId(scopeId).kind ?? scopeId] *)
Definition scopeKind (scopeId : ScopeId) : string :=
  match (parseScopeId scopeId).1 with Some k => ScopeKind.to_string k | None => scopeId end.

Definition withManifest (m : SkillManifest) (sig : string) (st : SkillStatus) (v now : Z) (s : Skill) : Skill :=
  mkSkill (s_id s) (s_scopeId s) m sig st (createdBy s) v (grantedCapabilities s) (approvals s) (createdAt s) (Some now) (lastUsedAt s) (pack s).

Definition withStatus (st : SkillStatus) (now : Z) (s : Skill) : Skill :=
  mkSkill (s_id s) (s_scopeId s) (manifest s) (signature s) st (createdBy s) (version s) (grantedCapabilities s) (approvals s)
    (createdAt s) (Some now) (lastUsedAt s) (pack s).

Definition withReview (reviewer : string) (caps : list string) (now : Z) (s : Skill) : Skill :=
  mkSkill (s_id s) (s_scopeId s) (manifest s) (signature s) reviewed (createdBy s) (version s)
    (Arr.dedup (grantedCapabilities s ++ caps))
    (if bool_decide (reviewer ∈ approvals s) then approvals s else approvals s ++ [reviewer])
    (createdAt s) (Some now) (lastUsedAt s) (pack s).

Definition withScope (sc : ScopeId) (now : Z) (s : Skill) : Skill :=
  mkSkill (s_id s) sc (manifest s) (signature s) (status s) (createdBy s) (version s) (grantedCapabilities s) (approvals s)
    (createdAt s) (Some now) (lastUsedAt s) (pack s).

Definition withUse (at_ : Z) (s : Skill) : Skill :=
  mkSkill (s_id s) (s_scopeId s) (manifest s) (signature s) (status s) (createdBy s) (version s) (grantedCapabilities s)
    (approvals s) (createdAt s) (updatedAt s) (Some at_) (pack s).

Definition unknown (id : string) : string := "unknown skill: " +:+ id.

Section store.
Context {M : Type -> Type} `{DurableMapLaws M}.
(** The HMAC under the store's secret of the JSON of a canonical manifest. *)
Variable mac : Canonical -> string.

Definition sign (m : SkillManifest) : string := mac (canonical m).

Notation Store := (M Skill).

Definition create (scopeId : ScopeId) (m : SkillManifest) (by_ : string) (pk : option Pack) (newId : string) (now : Z) (st : Store)
    : outcome (Skill * Store) :=
  match assertSafeSkillName (name m) with
  | Throw e => Throw e
  | Ok _ => let s := mkSkill newId scopeId m (sign m) draft by_ 1 [] [] (Some now) (Some now) None pk in Ok (s, dm_put newId s st)
  end.

Definition update (id : string) (m : SkillManifest) (now : Z) (st : Store) : outcome (Skill * Store) :=
  match assertSafeSkillName (name m) with
  | Throw e => Throw e
  | Ok _ =>
    match dm_get id st with
    | None => Throw (unknown id)
    | Some s =>
      if name m !== name (manifest s) then Throw "skill update cannot rename: create a new skill instead" else
      let s := withManifest m (sign m) (if scopeKind (s_scopeId s) !== "personal" then draft else status s) (version s + 1) now s in
      Ok (s, dm_put (s_id s) s st)
    end
  end.

Definition verify (s : Skill) : bool := sign (manifest s) === signature s.

Definition review (id reviewer : string) (caps : list string) (now : Z) (st : Store) : outcome (Skill * Store) :=
  match dm_get id st with
  | None => Throw (unknown id)
  | Some s =>
    match assertSafeSkillName (name (manifest s)) with
    | Throw e => Throw e
    | Ok _ =>
      if sign (manifest s) !== signature s then Throw "skill signature invalid: manifest was tampered with" else
      let s := withReview reviewer caps now s in Ok (s, dm_put (s_id s) s st)
    end
  end.

Definition missing (s : Skill) : list string :=
  List.filter (fun c => negb (bool_decide (c ∈ grantedCapabilities s))) (requiredCapabilities (manifest s)).

Definition publish (id : string) (now : Z) (st : Store) : outcome (Skill * Store) :=
  match dm_get id st with
  | None => Throw (unknown id)
  | Some s =>
    match assertSafeSkillName (name (manifest s)) with
    | Throw e => Throw e
    | Ok _ =>
      if status s === draft then Throw "skill must be reviewed before it is published" else
      match missing s with
      | _ :: _ => Throw ("skill requires ungranted capabilities: " +:+ Str.join ", " (missing s))
      | [] => let s := withStatus published now s in Ok (s, dm_put (s_id s) s st)
      end
    end
  end.

Definition archive (id : string) (now : Z) (st : Store) : outcome (Skill * Store) :=
  match dm_get id st with
  | None => Throw (unknown id)
  | Some s => if status s === archived then Ok (s, st) else let s := withStatus archived now s in Ok (s, dm_put (s_id s) s st)
  end.

Definition restore (s : Skill) (st : Store) : outcome Store :=
  match assertSafeSkillName (name (manifest s)) with Throw e => Throw e | Ok _ => Ok (dm_put (s_id s) s st) end.

Definition recordUse (id : string) (at_ : Z) (st : Store) : Store := (dm_update id (withUse at_) st).2.

(** The one found for a scope. *)
Definition publishedIn (all : list Skill) (n : string) (sc : ScopeId) : option Skill :=
  List.find (fun s => (status s === published) && (name (manifest s) === n) && (s_scopeId s === sc)) all.

Definition resolve (n : string) (orderedScopes : list ScopeId) (st : Store) : option Skill * list Skill :=
  if negb (isSafeSkillName n) then (None, []) else
  match omap (publishedIn (dm_all st) n) orderedScopes with
  | [] => (None, [])
  | s :: shadowed => (Some s, shadowed)
  end.

Definition visibleNames (orderedScopes : list ScopeId) (st : Store) : list string :=
  Arr.dedup (map (fun s => name (manifest s))
    (List.filter (fun s => (status s === published) && bool_decide (s_scopeId s ∈ orderedScopes) && isSafeSkillName (name (manifest s)))
       (dm_all st))).

Definition visibleFor (orderedScopes : list ScopeId) (st : Store) : list (option Skill * list Skill) :=
  List.filter (fun r => bool_decide (is_Some r.1)) (map (fun n => resolve n orderedScopes st) (visibleNames orderedScopes st)).

Definition promote (id : string) (target : ScopeId) (newId : string) (now : Z) (st : Store) : outcome (Skill * Store) :=
  match dm_get id st with
  | None => Throw (unknown id)
  | Some s =>
    match assertSafeSkillName (name (manifest s)) with
    | Throw e => Throw e
    | Ok _ =>
      if status s !== published then Throw "only a published skill can be promoted" else
      if sign (manifest s) !== signature s then Throw "skill signature invalid: cannot promote" else
      let existing := publishedIn (dm_all st) (name (manifest s)) target in
      let promoted := mkSkill (match existing with Some e => s_id e | None => newId end) target (manifest s) (sign (manifest s)) published
        (createdBy s) (match existing with Some e => version e | None => 0 end + 1) (grantedCapabilities s) (approvals s)
        (Some now) (Some now) None None in
      Ok (promoted, dm_put (s_id promoted) promoted st)
    end
  end.

Definition move (id : string) (toScope : ScopeId) (now : Z) (st : Store) : outcome (Skill * Store) :=
  match dm_get id st with
  | None => Throw (unknown id)
  | Some s =>
    match assertSafeSkillName (name (manifest s)) with
    | Throw e => Throw e
    | Ok _ =>
      if scopeKind toScope === "org" then Throw "ceding a skill to the org goes through promote (admin-gated), not move" else
      let s := withScope toScope now s in Ok (s, dm_put (s_id s) s st)
    end
  end.

(** ** What a published skill has been through *)

Inductive Op :=
| OCreate (scopeId : ScopeId) (m : SkillManifest) (by_ : string) (pk : option Pack) (newId : string) (now : Z)
| OUpdate (id : string) (m : SkillManifest) (now : Z)
| OReview (id reviewer : string) (caps : list string) (now : Z)
| OPublish (id : string) (now : Z)
| OArchive (id : string) (now : Z)
| ORestore (s : Skill)
| ODelete (id : string)
| OUse (id : string) (at_ : Z)
| OPromote (id : string) (target : ScopeId) (newId : string) (now : Z)
| OMove (id : string) (toScope : ScopeId) (now : Z).

(** The store; the reviews so far; the skills whose text went past review (changed in
    a personal scope, archived as a draft, put back as they were, or promoted from
    such a one, and not reviewed since); the skills put back as they were. *)
Record World := mkWorld { store : Store; log : list (SkillManifest * string); unreviewed : list string; putBack : list string }.

Definition without (id : string) (l : list string) : list string := List.filter (fun i => i !== id) l.

Definition mark (b : bool) (id : string) (l : list string) : list string := if b then id :: l else without id l.

Definition statusOf (id : string) (st : Store) : option SkillStatus := status <$> dm_get id st.

Definition exec (o : Op) (w : World) : World :=
  let st := store w in
  match o with
  | OCreate sc m by_ pk newId now =>
    match create sc m by_ pk newId now st with
    | Ok (_, st') => mkWorld st' (log w) (without newId (unreviewed w)) (without newId (putBack w))
    | Throw _ => w
    end
  | OUpdate id m now =>
    match update id m now st with
    | Ok (s, st') => mkWorld st' (log w) (mark (scopeKind (s_scopeId s) === "personal") id (unreviewed w)) (without id (putBack w))
    | Throw _ => w
    end
  | OReview id reviewer caps now =>
    match review id reviewer caps now st with
    | Ok (s, st') => mkWorld st' ((manifest s, reviewer) :: log w) (without id (unreviewed w)) (putBack w)
    | Throw _ => w
    end
  | OPublish id now => match publish id now st with Ok (_, st') => mkWorld st' (log w) (unreviewed w) (putBack w) | Throw _ => w end
  | OArchive id now =>
    match archive id now st with
    | Ok (_, st') => mkWorld st' (log w) (if statusOf id st === Some draft then id :: unreviewed w else unreviewed w) (putBack w)
    | Throw _ => w
    end
  | ORestore s =>
    match restore s st with Ok st' => mkWorld st' (log w) (s_id s :: unreviewed w) (s_id s :: putBack w) | Throw _ => w end
  | ODelete id => mkWorld (dm_delete id st) (log w) (unreviewed w) (putBack w)
  | OUse id at_ => mkWorld (recordUse id at_ st) (log w) (unreviewed w) (putBack w)
  | OPromote id target newId now =>
    match promote id target newId now st with
    | Ok (s, st') => mkWorld st' (log w) (mark (bool_decide (id ∈ unreviewed w)) (s_id s) (unreviewed w)) (without (s_id s) (putBack w))
    | Throw _ => w
    end
  | OMove id toScope now => match move id toScope now st with Ok (_, st') => mkWorld st' (log w) (unreviewed w) (putBack w) | Throw _ => w end
  end.

Definition emptyWorld : World := mkWorld dm_empty [] [] [].

Definition run (ops : list Op) : World := foldl (fun w o => exec o w) emptyWorld ops.

(** Somebody who approved it reviewed this very text; what it needs was granted. *)
Definition cleared (l : list (SkillManifest * string)) (s : Skill) : Prop :=
  (status s <> draft -> exists r, r ∈ approvals s /\ (manifest s, r) ∈ l) /\
  (status s = published -> forall c, c ∈ requiredCapabilities (manifest s) -> c ∈ grantedCapabilities s).

Definition inv (w : World) : Prop := forall i s, dm_get i (store w) = Some s ->
  s_id s = i /\ (i ∉ unreviewed w -> cleared (log w) s) /\ (i ∉ putBack w -> verify s = true).

Lemma cleared_log l l' s : (forall e, e ∈ l -> e ∈ l') -> cleared l s -> cleared l' s.
Proof. intros Hl [H1 H2]. split; [|done]. intros Hs. destruct (H1 Hs) as (r & ? & ?). exists r. auto. Qed.

Lemma not_without x id l : x ∉ without id l -> x <> id -> x ∉ l.
Proof. intros Hn Hx Hin. apply Hn, Arr.elem_of_filter. split; [by rewrite bool_decide_eq_false_2|done]. Qed.

Lemma not_mark x b id l : x ∉ mark b id l -> x <> id -> x ∉ l.
Proof. unfold mark. destruct b; [|apply not_without]. intros Hn _ Hin. apply Hn. by right. Qed.

(** Storing a skill that is in order. *)
Lemma put_inv w s l' t' f' :
  inv w -> (s_id s ∉ t' -> cleared l' s) -> (s_id s ∉ f' -> verify s = true) ->
  (forall e, e ∈ log w -> e ∈ l') -> (forall j, j <> s_id s -> j ∉ t' -> j ∉ unreviewed w) ->
  (forall j, j <> s_id s -> j ∉ f' -> j ∉ putBack w) ->
  inv (mkWorld (dm_put (s_id s) s (store w)) l' t' f').
Proof.
  intros I Hc Hv Hl Ht Hf i x. cbn. rewrite dm_get_put. case_decide as E; [intros [= <-]; by subst|].
  intros Hx. destruct (I i x Hx) as (H1 & H2 & H3). split_and!; [done| |].
  - intros Hn. apply (cleared_log (log w)); [done|]. apply H2, Ht; [done|done].
  - intros Hn. apply H3, Hf; [done|done].
Qed.

Lemma create_inv sc m by_ pk newId now w : inv w -> inv (exec (OCreate sc m by_ pk newId now) w).
Proof.
  intros I. cbn. unfold create. destruct (assertSafeSkillName (name m)); [|done].
  apply (put_inv w (mkSkill newId sc m (sign m) draft by_ 1 [] [] (Some now) (Some now) None pk)); cbn; try done.
  - intros _. by apply bool_decide_eq_true.
  - intros j Hj Hn. by eapply not_without.
  - intros j Hj Hn. by eapply not_without.
Qed.

Lemma update_inv id m now w : inv w -> inv (exec (OUpdate id m now) w).
Proof.
  intros I. cbn. unfold update. destruct (assertSafeSkillName (name m)); [|done].
  destruct (dm_get id (store w)) as [s|] eqn:E; [|done]. destruct (_ !== _); [done|]. destruct (I _ _ E) as (<- & _ & _).
  set (k := scopeKind (s_scopeId s) === "personal").
  apply (put_inv w (withManifest m (sign m) (if negb k then draft else status s) (version s + 1) now s)); cbn; try done.
  - fold k. destruct k; [intros []; by left|]. intros _. by split.
  - by intros _; apply bool_decide_eq_true.
  - intros j Hj Hn. by eapply not_mark.
  - intros j Hj Hn. by eapply not_without.
Qed.

Lemma review_inv id reviewer caps now w : inv w -> inv (exec (OReview id reviewer caps now) w).
Proof.
  intros I. cbn. unfold review. destruct (dm_get id (store w)) as [s|] eqn:E; [|done].
  destruct (assertSafeSkillName _); [|done]. destruct (sign (manifest s) !== signature s) eqn:Es; [done|].
  destruct (I _ _ E) as (<- & _ & _). apply (put_inv w (withReview reviewer caps now s)); cbn; try done.
  - intros _. split; cbn; [|discriminate]. intros _. exists reviewer. split; [|by left].
    destruct (decide (reviewer ∈ approvals s)) as [Hr|Hr]; [by rewrite bool_decide_eq_true_2|].
    rewrite bool_decide_eq_false_2 by done. apply elem_of_app. right. left.
  - intros _. unfold verify. cbn. by apply negb_false_iff in Es.
  - intros e He. by right.
  - intros j Hj Hn. by eapply not_without.
Qed.

Lemma missing_nil s : missing s = [] -> forall c, c ∈ requiredCapabilities (manifest s) -> c ∈ grantedCapabilities s.
Proof.
  unfold missing. intros Hm c Hc. destruct (decide (c ∈ grantedCapabilities s)); [done|]. exfalso.
  assert (c ∈ ([] : list string)) as ?%elem_of_nil; [|done]. rewrite <- Hm. apply Arr.elem_of_filter.
  split; [by rewrite bool_decide_eq_false_2|done].
Qed.

Lemma publish_inv id now w : inv w -> inv (exec (OPublish id now) w).
Proof.
  intros I. cbn. unfold publish. destruct (dm_get id (store w)) as [s|] eqn:E; [|done].
  destruct (assertSafeSkillName _); [|done]. case_bool_decide as Ed; [done|]. destruct (missing s) eqn:Em; [|done].
  destruct (I _ _ E) as (<- & Hc & Hv). apply (put_inv w (withStatus published now s)); cbn; try done.
  intros Hn. destruct (Hc Hn) as [H1 _]. split; cbn; [intros _; by apply H1|]. intros _. by apply missing_nil.
Qed.

Lemma archive_inv id now w : inv w -> inv (exec (OArchive id now) w).
Proof.
  intros I. cbn. unfold archive, statusOf. destruct (dm_get id (store w)) as [s|] eqn:E; [|done]. cbn.
  case_bool_decide as Ea; [rewrite Ea; by destruct w|]. destruct (I _ _ E) as (<- & Hc & Hv).
  apply (put_inv w (withStatus archived now s)); cbn; try done.
  - intros Hn. split; cbn; [intros _|discriminate]. destruct (decide (status s = draft)) as [Ed|Ed].
    { rewrite Ed in Hn. destruct Hn. by left. }
    rewrite bool_decide_eq_false_2 in Hn by congruence. by apply Hc.
  - intros j Hj Hn. case_bool_decide; [|done]. intros Hin. apply Hn. by right.
Qed.

Lemma restore_inv s w : inv w -> inv (exec (ORestore s) w).
Proof.
  intros I. cbn. unfold restore. destruct (assertSafeSkillName _); [|done]. apply (put_inv w s); try done.
  - intros []. by left.
  - intros []. by left.
  - intros j _ Hn Hin. apply Hn. by right.
  - intros j _ Hn Hin. apply Hn. by right.
Qed.

Lemma move_inv id toScope now w : inv w -> inv (exec (OMove id toScope now) w).
Proof.
  intros I. cbn. unfold move. destruct (dm_get id (store w)) as [s|] eqn:E; [|done].
  destruct (assertSafeSkillName _); [|done]. destruct (_ === _); [done|]. destruct (I _ _ E) as (<- & Hc & Hv).
  by apply (put_inv w (withScope toScope now s)).
Qed.

Lemma promote_inv id target newId now w : inv w -> inv (exec (OPromote id target newId now) w).
Proof.
  intros I. cbn. unfold promote. destruct (dm_get id (store w)) as [s|] eqn:E; [|done].
  destruct (assertSafeSkillName _); [|done]. destruct (status s !== published) eqn:Ep; [done|].
  destruct (sign (manifest s) !== signature s) eqn:Es; [done|]. set (ex := publishedIn _ _ _).
  destruct (I _ _ E) as (<- & Hc & Hv). apply negb_false_iff, bool_decide_eq_true in Ep.
  set (p := mkSkill _ _ _ _ _ _ _ _ _ _ _ _ _). apply (put_inv w p); try done.
  - intros Hn. destruct (decide (s_id s ∈ unreviewed w)) as [Hu|Hu].
    { destruct Hn. cbn [fst]. unfold mark. rewrite bool_decide_eq_true_2 by done. left. }
    destruct (Hc Hu) as [H1 H2]. rewrite Ep in H1. split; cbn; intros _; [by apply H1|by apply H2].
  - intros _. by apply bool_decide_eq_true.
  - intros j Hj Hn. by eapply not_mark.
  - intros j Hj Hn. by eapply not_without.
Qed.

Lemma skill_exec_inv o w : inv w -> inv (exec o w).
Proof.
  intros I. destruct o; [by apply create_inv|by apply update_inv|by apply review_inv|by apply publish_inv|by apply archive_inv
    |by apply restore_inv| | |by apply promote_inv|by apply move_inv].
  - intros i s. cbn. rewrite dm_get_delete. case_decide; [done|]. apply I.
  - intros i s. cbn. unfold recordUse. rewrite dm_update_spec. destruct (dm_get id (store w)) as [x|] eqn:E; [|apply I].
    cbn. rewrite dm_get_put. case_decide as Ei; [|apply I]. subst i. intros [= <-]. exact (I id x E).
Qed.

Lemma skill_run_inv ops : inv (run ops).
Proof.
  unfold run. assert (I : inv emptyWorld) by (intros i s; cbn; by rewrite dm_get_empty).
  revert I. generalize emptyWorld. induction ops as [|o ops IH]; cbn; intros w I; [done|]. by apply IH, skill_exec_inv.
Qed.

(** C20: a published skill whose text did not go past review was approved as it is:
    one of its approvals is a review of this very manifest, and every capability it
    requires was granted; and unless it was put back as it was, its signature holds. *)
Theorem published_reviewed ops id s :
  dm_get id (store (run ops)) = Some s -> status s = published ->
  (id ∉ unreviewed (run ops) ->
    (exists r, r ∈ approvals s /\ (manifest s, r) ∈ log (run ops)) /\
    forall c, c ∈ requiredCapabilities (manifest s) -> c ∈ grantedCapabilities s) /\
  (id ∉ putBack (run ops) -> verify s = true).
Proof.
  intros Hg Hs. destruct (skill_run_inv ops id s Hg) as (_ & Hc & Hv). split; [|done].
  intros Hn. destruct (Hc Hn) as [H1 H2]. split; [apply H1; by rewrite Hs|by apply H2].
Qed.

(** ** Which skill is used *)

Lemma omap_head {A B} (f : A -> option B) l x :
  (exists r, omap f l = x :: r) <-> exists pre y post, l = pre ++ y :: post /\ f y = Some x /\ forall z, z ∈ pre -> f z = None.
Proof.
  induction l as [|a l IH].
  - split; [by intros []|]. intros ([|] & ? & ? & ? & _); done.
  - change (omap f (a :: l)) with (match f a with Some y => y :: omap f l | None => omap f l end). destruct (f a) as [b|] eqn:E.
    + split.
      * intros (r & E'). injection E' as -> _. exists [], a, l. split_and!; [done|done|by intros ? ?%elem_of_nil].
      * intros ([|p pre] & y & post & [= -> ->] & Hy & Hn); [rewrite E in Hy; injection Hy as ->; by eexists|].
        by rewrite (Hn p (list_elem_of_here _ _)) in E.
    + rewrite IH. split; intros (pre & y & post & Hl & Hy & Hn).
      * exists (a :: pre), y, post. split_and!; [by rewrite Hl|done|]. intros z [->|Hz]%elem_of_cons; auto.
      * destruct pre as [|p pre]; injection Hl as -> ->; [congruence|]. exists pre, y, post. split_and!; [done|done|].
        intros z Hz. apply Hn. by right.
Qed.

Lemma publishedIn_Some all n sc s : publishedIn all n sc = Some s ->
  s ∈ all /\ status s = published /\ name (manifest s) = n /\ s_scopeId s = sc.
Proof.
  intros [Hin Hp]%Arr.find_elem. apply andb_true_iff in Hp as [[H1 H2]%andb_true_iff H3].
  by apply bool_decide_eq_true in H1, H2, H3.
Qed.

Lemma publishedIn_None all n sc : publishedIn all n sc = None <->
  forall t, t ∈ all -> status t = published -> name (manifest t) = n -> s_scopeId t <> sc.
Proof.
  split.
  - intros Hf t Hin H1 H2 H3. pose proof (Arr.find_none _ _ _ Hf Hin) as Hp. cbn in Hp.
    by rewrite !bool_decide_eq_true_2 in Hp by done.
  - intros Hn. destruct (publishedIn all n sc) as [t|] eqn:E; [|done]. apply publishedIn_Some in E as (? & ? & ? & ?).
    by destruct (Hn t).
Qed.

(** Nothing published under this name in the scopes before. *)
Definition nothingIn (all : list Skill) (n : string) (pre : list ScopeId) : Prop :=
  forall t, t ∈ all -> status t = published -> name (manifest t) = n -> s_scopeId t ∉ pre.

Definition wins (all : list Skill) (scopes : list ScopeId) (s : Skill) : Prop :=
  exists pre sc post, scopes = pre ++ sc :: post /\ publishedIn all (name (manifest s)) sc = Some s /\
    nothingIn all (name (manifest s)) pre.

Lemma resolve_wins n scopes st s : (resolve n scopes st).1 = Some s <->
  isSafeSkillName n = true /\ name (manifest s) = n /\ wins (dm_all st) scopes s.
Proof.
  unfold resolve. destruct (isSafeSkillName n); cbn; [|by split; [|intros []]].
  assert (E : (exists r, omap (publishedIn (dm_all st) n) scopes = s :: r) <->
              (match omap (publishedIn (dm_all st) n) scopes with [] => (None, []) | x :: sh => (Some x, sh) end).1 = Some s).
  { destruct (omap _ scopes) as [|x r]; cbn; split; [by intros []|done|by intros (? & [= -> ->])|intros [= ->]; by eexists]. }
  rewrite <- E, omap_head. split.
  - intros (pre & y & post & -> & Hy & Hn). pose proof (publishedIn_Some _ _ _ _ Hy) as (_ & _ & <- & _). split_and!; [done|done|].
    exists pre, y, post. split_and!; [done|done|]. intros t Ht H1 H2 H3. by apply (proj1 (publishedIn_None _ _ _) (Hn _ H3) t).
  - intros (_ & <- & pre & y & post & -> & Hy & Hn). exists pre, y, post. split_and!; [done|done|]. intros z Hz.
    apply publishedIn_None. intros t Ht H1 H2 <-. by apply (Hn t).
Qed.

(** The skills visible through a list of scopes are exactly those that win: of a
    safe name, published in one of the scopes, with nothing of that name published
    in the scopes before it and no earlier record in its own. *)
Theorem visible_exact scopes st s :
  (exists shadowed, (Some s, shadowed) ∈ visibleFor scopes st) <->
  isSafeSkillName (name (manifest s)) = true /\ wins (dm_all st) scopes s.
Proof.
  unfold visibleFor. split.
  - intros (sh & [_ Hin]%Arr.elem_of_filter). apply list_elem_of_In, in_map_iff in Hin as (n & Hn & _).
    assert (Hr : (resolve n scopes st).1 = Some s) by (by rewrite Hn). apply resolve_wins in Hr as (Hs & <- & Hw). by split.
  - intros [Hs Hw]. destruct (resolve (name (manifest s)) scopes st) as [r sh] eqn:E.
    assert (Hr : (resolve (name (manifest s)) scopes st).1 = Some s) by (by apply resolve_wins). rewrite E in Hr. cbn in Hr. subst r.
    exists sh. apply Arr.elem_of_filter. split; [by apply bool_decide_eq_true|]. rewrite <- E.
    apply (list_elem_of_fmap_2 (fun n => resolve n scopes st)). apply Arr.elem_of_dedup.
    apply (list_elem_of_fmap_2 (fun s => name (manifest s)) _ s). apply Arr.elem_of_filter.
    destruct Hw as (pre & sc & post & -> & Hp & _). apply publishedIn_Some in Hp as (Hin & -> & _ & ->).
    split; [|done]. rewrite Hs, andb_true_r. apply andb_true_iff. split; apply bool_decide_eq_true; [done|].
    apply elem_of_app. right. left.
Qed.

(** ** Installing a seed *)

(** The key of the files of a manifest: NUL characters separate the parts of a file,
    and the character 1 separates the files. *)
Definition NUL : string := String "000" "".
Definition SOH : string := String "001" "".

Definition canonicalFilesKey (fs : list SkillFile) : string :=
  Str.join SOH (Arr.sort Str.leb (map (fun f => path f +:+ NUL +:+ content f +:+ NUL +:+ (if executable f then "1" else "0")) fs)).

Definition sameManifest (a b : SkillManifest) : bool :=
  (description a === description b) && (body a === body b) &&
  (Str.join NUL (Arr.sort Str.leb (requiredCapabilities a)) === Str.join NUL (Arr.sort Str.leb (requiredCapabilities b))) &&
  (canonicalFilesKey (files a) === canonicalFilesKey (files b)).

Definition foreignSkillCollision (all : list Skill) (scopeId : ScopeId) (n by_ : string) : option Skill :=
  List.find (fun s => (s_scopeId s === scopeId) && (name (manifest s) === n) && (createdBy s !== by_) && (status s !== archived)) all.

Inductive UpsertOutcome := installed | updated_ | skipped | foreign.

Definition bindSt {A B} (r : outcome (A * Store)) (f : A -> Store -> outcome B) : outcome B :=
  match r with Ok (a, st) => f a st | Throw e => Throw e end.

Definition reviewAndPublish (id reviewer : string) (m : SkillManifest) (out : UpsertOutcome) (now : Z) (st : Store)
    : outcome (UpsertOutcome * Store) :=
  bindSt (review id reviewer (requiredCapabilities m) now st) (fun _ st =>
  bindSt (publish id now st) (fun _ st => Ok (out, st))).

Definition ownSkill (all : list Skill) (scopeId : ScopeId) (n by_ : string) : option Skill :=
  List.find (fun s => (s_scopeId s === scopeId) && (name (manifest s) === n) && (createdBy s === by_)) all.

(** [upsertSeedSkill]; calls for one scope and name are queued. *)
Definition upsertSeedSkill (scopeId : ScopeId) (m : SkillManifest) (by_ reviewer : string) (pk : option Pack) (newId : string) (now : Z)
    (st : Store) : outcome (UpsertOutcome * Store) :=
  match ownSkill (dm_all st) scopeId (name m) by_ with
  | None =>
    match foreignSkillCollision (dm_all st) scopeId (name m) by_ with
    | Some _ => Ok (foreign, st)
    | None => bindSt (create scopeId m by_ pk newId now st) (fun s st => reviewAndPublish (s_id s) reviewer m installed now st)
    end
  | Some e =>
    let changed := negb (sameManifest (manifest e) m) in
    if negb changed && (status e === published) then Ok (skipped, st) else
    if changed then bindSt (update (s_id e) m now st) (fun _ st => reviewAndPublish (s_id e) reviewer m updated_ now st)
    else reviewAndPublish (s_id e) reviewer m updated_ now st
  end.

(** A skill as the seed wants it. *)
Definition asSeeded (scopeId : ScopeId) (m : SkillManifest) (by_ : string) (s : Skill) : Prop :=
  s_scopeId s = scopeId /\ name (manifest s) = name m /\ createdBy s = by_ /\ status s = published /\
  sameManifest (manifest s) m = true.

Lemma sameManifest_refl m : sameManifest m m = true.
Proof. unfold sameManifest. by rewrite !bool_decide_eq_true_2. Qed.

(** A skill that verifies and needs no more than the manifest at hand gets published. *)
Lemma reviewAndPublish_spec id reviewer m out now st s :
  dm_get id st = Some s -> s_id s = id -> isSafeSkillName (name (manifest s)) = true -> verify s = true ->
  (forall c, c ∈ requiredCapabilities (manifest s) -> c ∈ requiredCapabilities m) ->
  exists s', reviewAndPublish id reviewer m out now st = Ok (out, dm_put id s' (dm_put id (withReview reviewer (requiredCapabilities m) now s) st))
    /\ s' = withStatus published now (withReview reviewer (requiredCapabilities m) now s).
Proof.
  intros Hg Hid Hn Hv Hcaps. unfold reviewAndPublish, review, publish, verify in *. rewrite Hg. unfold assertSafeSkillName. rewrite Hn, Hv. cbn.
  rewrite Hid, dm_get_put, decide_True by done. cbn. rewrite Hn.
  assert (Hm : missing (withReview reviewer (requiredCapabilities m) now s) = []).
  { unfold missing. cbn. destruct (List.filter _ _) as [|c l] eqn:E; [done|]. exfalso.
    assert (Hc : c ∈ c :: l) by left. rewrite <- E in Hc. apply Arr.elem_of_filter in Hc as [Hc Hin].
    rewrite bool_decide_eq_true_2 in Hc; [done|]. apply Arr.elem_of_dedup, elem_of_app. right. by apply Hcaps. }
  rewrite Hm. cbn. rewrite Hid. by eexists.
Qed.

(** Capabilities as they are written: not empty, without NUL. *)
Definition plain (c : string) : Prop := c <> "" /\ Str.includesChar "000" c = false.

Lemma join_inj l l' : Forall plain l -> Forall plain l' -> Str.join NUL l = Str.join NUL l' -> l = l'.
Proof.
  assert (Hne : forall x r, plain x -> Str.join NUL (x :: r) <> "") by (intros [|] [|] []; done).
  assert (Hs : forall k, Forall plain k -> k <> [] -> Str.split "000" (Str.join NUL k) = k).
  { intros k Hk Hkn. apply Str.split_join; [done|]. eapply Forall_impl; [done|]. by intros ? []. }
  intros Hl Hl' E. destruct l as [|x r], l' as [|x' r']; [done| | |].
  - apply Forall_cons in Hl' as [Hx _]. by destruct (Hne x' r' Hx).
  - apply Forall_cons in Hl as [Hx _]. by destruct (Hne x r Hx).
  - rewrite <- (Hs (x :: r)), <- (Hs (x' :: r')), E by done. done.
Qed.

Lemma sameManifest_caps a b c : Forall plain (requiredCapabilities a) -> Forall plain (requiredCapabilities b) ->
  sameManifest a b = true -> c ∈ requiredCapabilities a -> c ∈ requiredCapabilities b.
Proof.
  intros Ha Hb. unfold sameManifest. rewrite !andb_true_iff. intros [[[_ _] E%bool_decide_eq_true] _] Hc.
  apply join_inj in E; [|by rewrite Arr.sort_perm|by rewrite Arr.sort_perm].
  apply (Arr.elem_of_sort Str.leb). rewrite <- E. by apply Arr.elem_of_sort.
Qed.

Lemma all_get (st : Store) s : s ∈ dm_all st -> exists i, dm_get i st = Some s.
Proof. rewrite dm_all_entries. intros ([i x] & -> & Hin)%list_elem_of_fmap. exists i. by apply dm_entries_get. Qed.

(** The seed is in place in [st'], and nothing else changed since [st]. *)
Definition inPlace (scopeId : ScopeId) (m : SkillManifest) (by_ : string) (st st' : Store) : Prop :=
  exists s, dm_get (s_id s) st' = Some s /\ asSeeded scopeId m by_ s /\ forall j, j <> s_id s -> dm_get j st' = dm_get j st.

Lemma seeded_end scopeId m by_ reviewer out now (st st0 : Store) u :
  dm_get (s_id u) st0 = Some u -> (forall j, j <> s_id u -> dm_get j st0 = dm_get j st) ->
  isSafeSkillName (name m) = true -> verify u = true ->
  (forall c, c ∈ requiredCapabilities (manifest u) -> c ∈ requiredCapabilities m) ->
  s_scopeId u = scopeId -> name (manifest u) = name m -> createdBy u = by_ -> sameManifest (manifest u) m = true ->
  exists st', reviewAndPublish (s_id u) reviewer m out now st0 = Ok (out, st') /\ inPlace scopeId m by_ st st'.
Proof.
  intros Hg Hj Hn Hv Hc H1 H2 H3 H4.
  destruct (reviewAndPublish_spec (s_id u) reviewer m out now st0 u) as (s' & -> & ->); [done|done|by rewrite H2|done|done|].
  eexists. split; [done|]. exists (withStatus published now (withReview reviewer (requiredCapabilities m) now u)).
  cbn [s_id withStatus withReview]. split_and!; [by rewrite dm_get_put, decide_True|by split_and!|].
  intros j Hne. rewrite !dm_get_put, !decide_False by done. by apply Hj.
Qed.

(** Installing a seed puts it in place: unless somebody else's skill has the name
    in that scope, the seeder's own skill is published afterwards with the seed's
    text and capabilities, every other record is as before, and no step fails. *)
Theorem seed_installed scopeId m by_ reviewer pk newId now st :
  isSafeSkillName (name m) = true -> Forall plain (requiredCapabilities m) ->
  (forall i s, dm_get i st = Some s -> s_id s = i /\ verify s = true /\ Forall plain (requiredCapabilities (manifest s))) ->
  exists out st', upsertSeedSkill scopeId m by_ reviewer pk newId now st = Ok (out, st') /\
  (out = foreign /\ st' = st \/ inPlace scopeId m by_ st st').
Proof.
  intros Hn Hm Hst. unfold upsertSeedSkill. destruct (ownSkill _ _ _ _) as [e|] eqn:Eo.
  - apply Arr.find_elem in Eo as [Hin Hp]. apply andb_true_iff in Hp as [[H1 H2]%andb_true_iff H3].
    apply bool_decide_eq_true in H1, H2, H3. apply all_get in Hin as (i & Hi). destruct (Hst _ _ Hi) as (Hid & Hv & Hpl). subst i.
    destruct (sameManifest (manifest e) m) eqn:Es; cbn [negb andb].
    + case_bool_decide as Ep; [exists skipped, st; split; [done|]; right; exists e; by split_and!|].
      destruct (seeded_end scopeId m by_ reviewer updated_ now st st e) as (st' & ? & ?); try done.
      { intros c. by apply sameManifest_caps. } exists updated_, st'. auto.
    + unfold update, assertSafeSkillName. rewrite Hn, Hi, H2, bool_decide_eq_true_2 by done. cbn [negb bindSt].
      set (u := withManifest _ _ _ _ _ _).
      destruct (seeded_end scopeId m by_ reviewer updated_ now st (dm_put (s_id u) u st) u) as (st' & ? & ?); try done.
      * by rewrite dm_get_put, decide_True.
      * intros j Hj. by rewrite dm_get_put, decide_False.
      * by apply bool_decide_eq_true.
      * apply sameManifest_refl.
      * exists updated_, st'. auto.
  - destruct (foreignSkillCollision _ _ _ _); [eexists _, _; by split; [|left]|].
    unfold create, assertSafeSkillName. rewrite Hn. cbn [bindSt]. set (u := mkSkill _ _ _ _ _ _ _ _ _ _ _ _ _).
    destruct (seeded_end scopeId m by_ reviewer installed now st (dm_put (s_id u) u st) u) as (st' & ? & ?); try done.
    + by rewrite dm_get_put, decide_True.
    + intros j Hj. by rewrite dm_get_put, decide_False.
    + by apply bool_decide_eq_true.
    + apply sameManifest_refl.
    + exists installed, st'. auto.
Qed.

End store.

(** ** Examples, on the in-memory map *)
Module Samples.

Definition toyMac (c : Canonical) : string := n_name c +:+ n_body c.
Definition me : ScopeId := "personal:ann".
Definition team : ScopeId := "group:ops".
Definition manifestOf (text : string) (caps : list string) : SkillManifest := mkManifest "deploy" "d" caps text [].

Notation runs := (run (M := Memory.t) toyMac).

Definition reviewedOps : list Op :=
  [OCreate team (manifestOf "v1" ["net"]) "ann" None "s1" 1; OReview "s1" "bob" ["net"] 2; OPublish "s1" 3].

Definition reviewedSkill : Skill :=
  mkSkill "s1" team (manifestOf "v1" ["net"]) "deployv1" published "ann" 1 ["net"] ["bob"] (Some 1) (Some 3) None None.

Lemma published_reviewed_witness :
  (exists r, r ∈ ["bob"] /\ (manifestOf "v1" ["net"], r) ∈ [(manifestOf "v1" ["net"], "bob")]) /\
  forall c, c ∈ ["net"] -> c ∈ ["net"].
Proof.
  exact (proj1 (published_reviewed toyMac reviewedOps "s1" reviewedSkill eq_refl eq_refl) ltac:(by intros ?%elem_of_nil)).
Defined.

Lemma seed_installed_witness : exists out st',
  upsertSeedSkill (M := Memory.t) toyMac team (manifestOf "v1" ["net"]) "seed" "rev" None "s1" 1 dm_empty = Ok (out, st') /\
  (out = foreign /\ st' = dm_empty \/ inPlace team (manifestOf "v1" ["net"]) "seed" dm_empty st').
Proof.
  apply (seed_installed toyMac team (manifestOf "v1" ["net"]) "seed" "rev" None "s1" 1 dm_empty).
  - reflexivity.
  - constructor; [|constructor]. by split.
  - intros i s. by rewrite dm_get_empty.
Defined.

(** A draft that is archived can be published: nobody reviewed it. *)
Example archived_draft_published :
  (fun s => (status s, approvals s)) <$> dm_get "s1" (store (runs
    [OCreate team (manifestOf "v1" []) "ann" None "s1" 1; OPublish "s1" 2; OArchive "s1" 3; OPublish "s1" 4]))
  = Some (published, []).
Proof. reflexivity. Qed.

(** A skill published in a personal scope stays published when its text changes, and
    moving or promoting it takes the new text, and capabilities nobody granted, to
    others. *)
Example changed_skill_moves_unreviewed :
  let w := runs [OCreate me (manifestOf "v1" []) "ann" None "s1" 1; OReview "s1" "bob" [] 2; OPublish "s1" 3;
                 OUpdate "s1" (manifestOf "v2" ["net"]) 4; OPromote "s1" "org:acme" "s2" 5; OMove "s1" team 6] in
  (fun s => (s_scopeId s, body (manifest s), status s, grantedCapabilities s)) <$> dm_get "s1" (store w) = Some (team, "v2", published, []) /\
  (fun s => (s_scopeId s, body (manifest s), status s, grantedCapabilities s)) <$> dm_get "s2" (store w) = Some ("org:acme", "v2", published, []) /\
  log w = [(manifestOf "v1" [], "bob")].
Proof. split_and!; reflexivity. Qed.

End Samples.
