(* ===== verification/Files.v ===== *)
(** * Files: artifacts, their bytes, and listing them page by page

    [Bytes] is the in-memory store of [src/files/durable-byte-store.ts], addressed by
    the hash of the content.  The rest is [createMemoryFileArtifactStore] of
    [src/files/file-artifact-store.ts] over it.  Hashing, base64url and [Number] of a
    text are parameters; a file's data is the list of its bytes; the field [source],
    which is always live here, is left out. *)

From Stdlib Require Import ZArith Lia Ascii SpecFloat.
From S2P Require Import Prelude Collections Numbers Scopes.
Open Scope Z_scope.

Section files.
Variable sha256 : list Z -> string.
(** [Buffer.from(text).toString("base64url")] and back; [Number(text)] when it is finite. *)
Variables (b64 : string -> string) (unb64 : string -> string) (toNumber : string -> option Z).

(** ** Bytes *)
Definition Blobs : Type := jmap string (list Z).

Definition keyFor (sha : string) : string := "files/" +:+ sha.

(** The key, the size and the hash; too much data throws. *)
Definition putBytes (data : list Z) (maxBytes : option Z) (b : Blobs) : outcome (string * Z * string * Blobs) :=
  if match maxBytes with Some m => m <? Z.of_nat (length data) | None => false end then Throw "file exceeds the size limit" else
  let sha := sha256 data in
  let blobKey := keyFor sha in
  Ok (blobKey, Z.of_nat (length data), sha, if JMap.has b blobKey then b else JMap.set b blobKey data).

Definition openBytes (blobKey : string) (b : Blobs) : option (list Z) := JMap.get b blobKey.

(** ** Artifacts *)
Inductive FileDirection := in_ | out_.
#[local] Instance FileDirection_eq_dec : EqDecision FileDirection.
Proof. solve_decision. Defined.

Record FileArtifact := mkArtifact {
  id : string; ownerScopeId : ScopeId; createdBy : string; name : string; path : string; mimetype : string; sizeBytes : Z;
  blobKey : option string; sha : option string; direction : FileDirection; createdInScope : option ScopeId;
  createdAt : Z; updatedAt : Z; enabled : bool }.

Record PutFileInput := mkPut {
  p_id : string; p_ownerScopeId : ScopeId; p_createdBy : string; p_name : string; p_path : string; p_mimetype : string;
  p_data : list Z; p_direction : FileDirection; p_createdInScope : option ScopeId; p_createdAt : option Z; p_maxBytes : option Z }.

Record Store := mkStore { rows : jmap string FileArtifact; blobs : Blobs }.

Definition emptyStore : Store := mkStore [] [].

Definition put (input : PutFileInput) (now : Z) (s : Store) : outcome (FileArtifact * bool * Store) :=
  match JMap.get (rows s) (p_id input) with
  | Some existing => Ok (existing, false, s)
  | None =>
    match putBytes (p_data input) (p_maxBytes input) (blobs s) with
    | Throw e => Throw e
    | Ok (key, size, h, b) =>
      let at_ := default now (p_createdAt input) in
      let a := mkArtifact (p_id input) (p_ownerScopeId input) (p_createdBy input) (p_name input) (p_path input) (p_mimetype input) size
                 (Some key) (Some h) (p_direction input)
                 (match p_createdInScope input with Some sc => if Str.truthy sc then Some sc else None | None => None end) at_ at_ true in
      Ok (a, true, mkStore (JMap.set (rows s) (id a) a) b)
    end
  end.

Definition get (i : string) (includeDisabled : bool) (s : Store) : option FileArtifact :=
  match JMap.get (rows s) i with
  | Some r => if negb (enabled r) && negb includeDisabled then None else Some r
  | None => None
  end.

Definition open (i : string) (s : Store) : option (FileArtifact * list Z) :=
  match JMap.get (rows s) i with
  | Some r =>
    if negb (enabled r) then None else
    match blobKey r with
    | Some k => if Str.truthy k then match openBytes k (blobs s) with Some bytes => Some (r, bytes) | None => None end else None
    | None => None
    end
  | None => None
  end.

Definition setEnabled (i : string) (e : bool) (now : Z) (s : Store) : Store :=
  match JMap.get (rows s) i with
  | Some r => mkStore (JMap.set (rows s) i
                (mkArtifact (id r) (ownerScopeId r) (createdBy r) (name r) (path r) (mimetype r) (sizeBytes r) (blobKey r) (sha r)
                   (direction r) (createdInScope r) (createdAt r) now e)) (blobs s)
  | None => s
  end.

Definition delete (i : string) (s : Store) : Store := mkStore (JMap.delete (rows s) i) (blobs s).

(** ** Pages *)
Definition DEFAULT_LIMIT : Z := 50.
Definition MAX_LIMIT : Z := 200.

(** [Number.isFinite] *)
Definition isFinite (n : Num.t) : bool := match n with S754_zero _ | S754_finite _ _ _ => true | _ => false end.

(** A limit is any number, as [Number] reads it from the query of a request. *)
Definition clampLimit (limit : option Num.t) : nat :=
  match limit with
  | Some n =>
    if negb (isFinite n) || SFleb n (S754_zero false) then Z.to_nat DEFAULT_LIMIT else Z.to_nat (Z.min (Num.floor n) MAX_LIMIT)
  | None => Z.to_nat DEFAULT_LIMIT
  end.

Definition encodeCursor (a : FileArtifact) : string := b64 (Str.showZ (createdAt a) +:+ "|" +:+ id a).

Definition decodeCursor (cursor : string) : option (Z * string) :=
  match Str.split "|" (unb64 cursor) with
  | at_ :: i :: _ => match toNumber at_ with Some n => Some (n, i) | None => None end
  | _ => None
  end.

Definition afterCursor (a : FileArtifact) (c : Z * string) : bool :=
  (createdAt a <? c.1) || ((createdAt a =? c.1) && Str.ltb (id a) c.2).

Record ListOptions := mkOptions { o_limit : option Num.t; o_includeDisabled : bool; o_createdInScope : option ScopeId }.

(** The order: newest first, then by id from the last. *)
Definition newerLeb (a b : FileArtifact) : bool :=
  (createdAt b <? createdAt a) || ((createdAt b =? createdAt a) && Str.leb (id b) (id a)).

Definition matches (scopes : list ScopeId) (o : ListOptions) (r : FileArtifact) : bool :=
  bool_decide (ownerScopeId r ∈ scopes) && (o_includeDisabled o || enabled r) &&
  match o_createdInScope o with Some sc => createdInScope r === Some sc | None => true end.

Definition listOwnedByScopes (scopes : list ScopeId) (o : ListOptions) (cursor : option string) (s : Store)
    : list FileArtifact * option string :=
  let limit := clampLimit (o_limit o) in
  let from := match cursor with Some c => if Str.truthy c then decodeCursor c else None | None => None end in
  let all := Arr.sort newerLeb
    (List.filter (fun r => match from with Some c => afterCursor r c | None => true end)
       (List.filter (matches scopes o) (JMap.values (rows s)))) in
  let page := take limit all in
  (page, if (limit <? length all)%nat then match last page with Some a => Some (encodeCursor a) | None => None end else None).

(** The owner and the path with a NUL character between them. *)
Definition pathKey (sc : ScopeId) (p : string) : string := sc +:+ String "000" p.

Definition resolveByOwnerPaths (refs : list (ScopeId * string)) (s : Store) : list FileArtifact :=
  let want := map (fun r => pathKey r.1 r.2) refs in
  List.filter (fun r => enabled r && bool_decide (pathKey (ownerScopeId r) (path r) ∈ want)) (JMap.values (rows s)).

(** A client that follows the cursors. *)
Fixpoint pages (fuel : nat) (scopes : list ScopeId) (o : ListOptions) (cursor : option string) (s : Store) : list FileArtifact :=
  match fuel with
  | O => []
  | S fuel =>
    let '(files, next) := listOwnedByScopes scopes o cursor s in
    files ++ match next with Some c => pages fuel scopes o (Some c) s | None => [] end
  end.

(** ** Sorting and filtering *)

Lemma insert_filter {A} (leb : A -> A -> bool) (f : A -> bool) x l :
  (forall a b c, leb a b = true -> leb b c = true -> leb a c = true) ->
  StronglySorted (fun a b => leb a b = true) l ->
  List.filter f (Arr.insert_sorted leb x l) = if f x then Arr.insert_sorted leb x (List.filter f l) else List.filter f l.
Proof.
  intros Ht. induction 1 as [|y l Hl IH Hy]; cbn; [by destruct (f x)|]. destruct (leb x y) eqn:E; cbn.
  - destruct (f x); [|done]. destruct (f y); cbn; [by rewrite E|].
    destruct (List.filter f l) as [|z r] eqn:Ef; [done|]. cbn. rewrite (Ht x y z); [done|done|].
    rewrite Forall_forall in Hy. apply Hy. assert (Hz : z ∈ List.filter f l) by (rewrite Ef; left).
    by apply Arr.elem_of_filter in Hz as [].
  - rewrite IH. destruct (f y), (f x); cbn; rewrite ?E; done.
Qed.

Lemma sort_filter {A} (leb : A -> A -> bool) (f : A -> bool) l :
  (forall a b, leb a b = false -> leb b a = true) -> (forall a b c, leb a b = true -> leb b c = true -> leb a c = true) ->
  Arr.sort leb (List.filter f l) = List.filter f (Arr.sort leb l).
Proof.
  intros Htot Htr. induction l as [|x l IH]; cbn; [done|]. rewrite insert_filter, <- IH; [|done|by apply Arr.sort_sorted].
  by destruct (f x).
Qed.

Lemma newerLeb_total a b : newerLeb a b = false -> newerLeb b a = true.
Proof.
  unfold newerLeb. rewrite orb_false_iff, andb_false_iff, orb_true_iff, andb_true_iff, !Z.ltb_lt, Z.ltb_ge, Z.eqb_eq, Z.eqb_neq.
  intros [H1 [H2|H2]]; [lia|]. apply Str.leb_total in H2. destruct (Z.eq_dec (createdAt a) (createdAt b)); [by right|left; lia].
Qed.

Lemma newerLeb_trans a b c : newerLeb a b = true -> newerLeb b c = true -> newerLeb a c = true.
Proof.
  unfold newerLeb. rewrite !orb_true_iff, !andb_true_iff, !Z.ltb_lt, !Z.eqb_eq.
  intros [H1|[H1 H2]] [H3|[H3 H4]]; [left; lia..|]. right. split; [lia|]. by apply (Str.leb_trans _ (id b)).
Qed.

Notation after x y := (afterCursor y (createdAt x, id x)).

Lemma after_strict x y : newerLeb x y = true -> id x <> id y -> after x y = true.
Proof.
  unfold newerLeb, afterCursor. cbn. rewrite !orb_true_iff, !andb_true_iff, !Z.ltb_lt, !Z.eqb_eq. intros [?|[H1 H2]] Hne; [by left|].
  right. split; [done|]. unfold Str.leb in H2. apply negb_true_iff in H2. destruct (Str.ltb (id y) (id x)) eqn:E; [done|].
  by destruct Hne, (Str.ltb_total _ _ H2 E).
Qed.

Lemma after_not x y : newerLeb y x = true -> after x y = false.
Proof.
  unfold newerLeb, afterCursor. cbn. rewrite orb_true_iff, orb_false_iff, andb_true_iff, andb_false_iff, Z.ltb_lt, Z.ltb_ge, Z.eqb_eq, Z.eqb_neq.
  intros [?|[H1 H2]]; [split; [lia|left; lia]|]. split; [lia|right]. by apply negb_true_iff.
Qed.

Lemma newerLeb_refl x : newerLeb x x = true.
Proof. destruct (newerLeb x x) eqn:E; [done|]. by rewrite (newerLeb_total _ _ E) in E. Qed.

(** In a sorted list the files after one of them are the rest. *)
Lemma after_rest d x rest : StronglySorted (fun a b => newerLeb a b = true) (d ++ x :: rest) -> NoDup (map id (d ++ x :: rest)) ->
  List.filter (fun y => after x y) (d ++ x :: rest) = rest.
Proof.
  intros Hs Hnd. rewrite List.filter_app. cbn. rewrite (after_not x x (newerLeb_refl x)).
  assert (Hd : List.filter (fun y => after x y) d = []).
  { destruct (List.filter _ d) as [|z r] eqn:E; [done|]. exfalso. assert (Hz : z ∈ z :: r) by left. rewrite <- E in Hz.
    apply Arr.elem_of_filter in Hz as [Hz Hin]. rewrite after_not in Hz; [done|]. eapply (Arr.sorted_app _ _ _ Hs); [done|left]. }
  rewrite Hd. cbn. apply Arr.filter_all. intros y Hy. apply after_strict.
  - change (d ++ x :: rest) with (d ++ [x] ++ rest) in Hs. rewrite app_assoc in Hs.
    eapply (Arr.sorted_app _ _ _ Hs); [apply elem_of_app; right; left|done].
  - rewrite map_app in Hnd. apply NoDup_app in Hnd as (_ & _ & Hnd). cbn in Hnd. apply NoDup_cons in Hnd as [Hn _].
    intros E. apply Hn. rewrite E. by apply (list_elem_of_fmap_2 id).
Qed.

(** ** What a store holds *)

Inductive Op := OPut (input : PutFileInput) (now : Z) | OEnable (i : string) (e : bool) (now : Z) | ODelete (i : string).

Definition exec (o : Op) (s : Store) : Store :=
  match o with
  | OPut input now => match put input now s with Ok (_, s') => s' | Throw _ => s end
  | OEnable i e now => setEnabled i e now s
  | ODelete i => delete i s
  end.

Definition run (ops : list Op) : Store := foldl (fun s o => exec o s) emptyStore ops.

(** Every row is under its id and came with data of its size, kept under its hash. *)
Record inv (s : Store) : Prop := mkInv {
  i_rows : JMap.wf (rows s);
  i_ids : forall k r, JMap.get (rows s) k = Some r -> id r = k;
  i_blobs : forall k data, JMap.get (blobs s) k = Some data -> k = keyFor (sha256 data);
  i_data : forall k r, JMap.get (rows s) k = Some r -> exists data, JMap.get (blobs s) (keyFor (sha256 data)) <> None /\
    blobKey r = Some (keyFor (sha256 data)) /\ sha r = Some (sha256 data) /\ sizeBytes r = Z.of_nat (length data) }.

Lemma file_put_inv input now s a c s' : inv s -> put input now s = Ok (a, c, s') -> inv s'.
Proof.
  intros I. unfold put. destruct (JMap.get (rows s) (p_id input)) eqn:Eg; [by intros [= <- <- <-]|].
  unfold putBytes. destruct (match p_maxBytes input with Some _ => _ | None => _ end); [done|]. intros [= <- <- <-]. destruct I.
  remember (keyFor (sha256 (p_data input))) as key eqn:Hkey.
  assert (Hb : forall k, JMap.get (if JMap.has (blobs s) key then blobs s else JMap.set (blobs s) key (p_data input)) k =
    match JMap.get (blobs s) k with Some x => Some x | None => if decide (key = k) then Some (p_data input) else None end).
  { intros k. unfold JMap.has. destruct (JMap.get (blobs s) key) eqn:Ek; cbn.
    - destruct (JMap.get (blobs s) k) eqn:Ek'; [done|]. case_decide as Ed; [rewrite <- Ed in Ek'; congruence|done].
    - rewrite JMap.get_set. case_decide as Ed; [by rewrite <- Ed, Ek|]. by destruct (JMap.get (blobs s) k). }
  split; cbn [rows blobs].
  - by apply JMap.wf_set.
  - intros k r. rewrite JMap.get_set. case_decide; [intros [= <-]; by subst|apply i_ids0].
  - intros k data. rewrite Hb. destruct (JMap.get (blobs s) k) eqn:Ek; [intros [= <-]; by apply i_blobs0|].
    case_decide; [intros [= <-]; by subst|done].
  - intros k r. rewrite JMap.get_set. case_decide as Ei.
    + intros [= <-]. exists (p_data input). rewrite Hb, <- Hkey. cbn. split_and!; try done.
      destruct (JMap.get (blobs s) key); [done|]. by rewrite decide_True.
    + intros Hr. destruct (i_data0 k r Hr) as (data & H1 & H2). exists data. split; [|done]. rewrite Hb. by destruct (JMap.get (blobs s) _).
Qed.

Lemma exec_ok o s : inv s -> inv (exec o s).
Proof.
  intros I. destruct o as [input now|i e now|i]; cbn.
  - destruct (put input now s) as [[[a c] s']|] eqn:E; [|done]. by eapply file_put_inv.
  - unfold setEnabled. destruct (JMap.get (rows s) i) as [r|] eqn:E; [|done]. destruct I. split; cbn.
    + by apply JMap.wf_set.
    + intros k x. rewrite JMap.get_set. case_decide; [intros [= <-]; subst; exact (i_ids0 _ _ E)|apply i_ids0].
    + done.
    + intros k x. rewrite JMap.get_set. case_decide; [intros [= <-]; subst; exact (i_data0 _ _ E)|apply i_data0].
  - destruct I. split; cbn; [by apply JMap.wf_delete| |done|]; intros k r; rewrite JMap.get_delete; case_decide; try done; [apply i_ids0|apply i_data0].
Qed.

Lemma run_ok ops : inv (run ops).
Proof.
  unfold run. assert (I : inv emptyStore) by (split; [apply JMap.wf_nil|done..]).
  revert I. generalize emptyStore. induction ops as [|o ops IH]; cbn; intros s I; [done|]. by apply IH, exec_ok.
Qed.

(** What is opened is what was put: while a file is enabled, opening it gives the
    very bytes it was put with (hashes that do not collide), with the size and hash
    of its record; a disabled or deleted one does not open. *)
Theorem opened_as_put ops i r bytes :
  (forall a b, sha256 a = sha256 b -> a = b) ->
  open i (run ops) = Some (r, bytes) ->
  JMap.get (rows (run ops)) i = Some r /\ enabled r = true /\ id r = i /\ sha r = Some (sha256 bytes) /\ sizeBytes r = Z.of_nat (length bytes).
Proof.
  intros Hinj. pose proof (run_ok ops) as I. unfold open. destruct (JMap.get (rows (run ops)) i) as [x|] eqn:Eg; [|done].
  destruct (i_data _ I i x Eg) as (data & Hk & Hb & Hs & Hz). destruct (enabled x) eqn:Ee; [|done]. cbn. rewrite Hb.
  destruct (Str.truthy _); [|done]. unfold openBytes. destruct (JMap.get (blobs (run ops)) _) as [y|] eqn:Ey; [|done]. intros [= <- <-].
  apply (i_blobs _ I) in Ey. unfold keyFor in Ey. assert (Esha : sha256 data = sha256 y) by (by apply (inj (String.append "files/")) in Ey).
  apply Hinj in Esha as ->. split_and!; try done. by apply (i_ids _ I).
Qed.

(** ** Files by their owner and path *)

Lemma pathKey_inj sc p sc' p' : Str.includesChar "000" sc = false -> Str.includesChar "000" sc' = false ->
  pathKey sc p = pathKey sc' p' -> sc = sc' /\ p = p'.
Proof.
  unfold pathKey. revert sc'. induction sc as [|c sc IH]; intros [|c' sc']; cbn; rewrite ?orb_false_iff.
  - by intros _ _ [= ->].
  - intros _ [Hc _] [= <- _]. by rewrite bool_decide_eq_false in Hc.
  - intros [Hc _] _ [= -> _]. by rewrite bool_decide_eq_false in Hc.
  - intros [_ H] [_ H'] [= <- E]. by destruct (IH sc' H H' E) as [-> ->].
Qed.

(** The files found by owner and path are the enabled ones of those owners at those
    paths, and no others: the separator does not occur in a scope. *)
Theorem resolved_exactly ops refs r :
  (forall x, x ∈ refs -> Str.includesChar "000" x.1 = false) -> Str.includesChar "000" (ownerScopeId r) = false ->
  r ∈ resolveByOwnerPaths refs (run ops) <->
  JMap.get (rows (run ops)) (id r) = Some r /\ enabled r = true /\ (ownerScopeId r, path r) ∈ refs.
Proof.
  intros Hr Ho. pose proof (run_ok ops) as I. unfold resolveByOwnerPaths.
  rewrite Arr.elem_of_filter, JMap.elem_of_values, andb_true_iff, bool_decide_eq_true by apply I.
  assert (Hk : pathKey (ownerScopeId r) (path r) ∈ map (fun r => pathKey r.1 r.2) refs <-> (ownerScopeId r, path r) ∈ refs).
  { split; [|intros H; by apply (list_elem_of_fmap_2 (fun r => pathKey r.1 r.2) _ _ H)].
    intros ([sc p] & E & Hin)%list_elem_of_fmap. cbn in E. by destruct (pathKey_inj _ _ _ _ Ho (Hr _ Hin) E) as [-> ->]. }
  rewrite Hk. split.
  - intros [[He Hp] [k Hg]]. by rewrite (i_ids _ I k r Hg).
  - intros (Hg & He & Hp). split; [done|]. by exists (id r).
Qed.

(** ** Following the cursors *)

(** A character that is no digit is not in a printed number. *)
Lemma prettyN_no c (x : N) : (forall y, (pretty_N_char y === c) = false) -> (c === "0"%char) = false -> Str.includesChar c (pretty x) = false.
Proof.
  intros Hc H0.
  assert (H : forall x t, Str.includesChar c t = false -> Str.includesChar c (pretty_N_go x t) = false).
  { clear x. intros x. induction (N.lt_wf_0 x) as [x _ IH]; intros t Ht.
    destruct (decide (x = 0)%N) as [->|Hx]; [by rewrite pretty_N_go_0|].
    rewrite pretty_N_go_step by lia. apply IH; [apply N.div_lt; lia|]. cbn [Str.includesChar]. by rewrite Ht, Hc. }
  unfold pretty, pretty_N. destruct (decide (x = 0)%N); [|by apply H]. cbn. rewrite orb_false_r.
  apply bool_decide_eq_false in H0. by apply bool_decide_eq_false_2.
Qed.

Lemma showZ_no_bar n : Str.includesChar "|" (Str.showZ n) = false.
Proof.
  assert (HN : forall x : N, Str.includesChar "|" (pretty x) = false).
  { intros x. apply prettyN_no; [|done]. intros y. unfold pretty_N_char. by repeat case_match. }
  destruct n; [done|apply HN|]. apply (HN (Npos p)).
Qed.

Section paging.
(** Documented of the platform: decoding undoes encoding, and a printed integer reads back. *)
Hypothesis b64_back : forall t, unb64 (b64 t) = t.
Hypothesis b64_empty : unb64 "" = "".
Hypothesis number_back : forall n, toNumber (Str.showZ n) = Some n.

Lemma cursor_back a : Str.includesChar "|" (id a) = false ->
  Str.truthy (encodeCursor a) = true /\ decodeCursor (encodeCursor a) = Some (createdAt a, id a).
Proof.
  intros Hi. unfold encodeCursor, decodeCursor. rewrite b64_back. split.
  - set (t := _ +:+ _). destruct (b64 t) eqn:E; [|done]. exfalso. pose proof (b64_back t) as Hb. rewrite E, b64_empty in Hb.
    assert (Hc : Str.includesChar "|" t = true) by (unfold t; rewrite Str.includesChar_append; cbn; by rewrite orb_true_r). by rewrite <- Hb in Hc.
  - change ("|" +:+ id a) with (String "|" (id a)).
    rewrite Str.split_append, (Str.split_no_sep _ _ (showZ_no_bar (createdAt a))), (Str.split_no_sep _ _ Hi). cbn. by rewrite number_back.
Qed.

(** A limit that is a positive number below one: a mantissa [m] and an exponent [e]
    with [m * 2 ^ e < 1].  Its floor is zero, and so is the size of its pages. *)
Definition belowOne (l : option Num.t) : bool :=
  match l with Some (S754_finite false m e) => (e <? 0) && (Zpos m <? 2 ^ (- e)) | _ => false end.

Lemma clampLimit_zero l : clampLimit l = 0%nat <-> belowOne l = true.
Proof.
  unfold clampLimit, DEFAULT_LIMIT, MAX_LIMIT. destruct l as [[sg|sg| |[] m e]|]; try (cbn; by destruct sg); try done.
  cbn -[Z.min Num.floor Z.pow]. unfold Num.floor.
  destruct (Z.ltb_spec e 0) as [He|He].
  - rewrite (proj2 (Z.leb_gt 0 e)) by lia. cbn [andb].
    pose proof (Z.pow_pos_nonneg 2 (- e) ltac:(lia) ltac:(lia)) as Hp. rewrite Z.ltb_lt. split.
    + intros H1. destruct (Z.lt_ge_cases (Zpos m) (2 ^ (- e))) as [?|Hge]; [done|].
      pose proof (Z.div_le_mono (2 ^ (- e)) (Zpos m) (2 ^ (- e)) Hp Hge) as Hd. rewrite Z.div_same in Hd by lia. lia.
    + intros H1. rewrite Z.div_small by lia. lia.
  - rewrite (proj2 (Z.leb_le 0 e)) by lia. cbn [andb].
    split; [|done]. intros H1. pose proof (Z.pow_pos_nonneg 2 e ltac:(lia) ltac:(lia)). nia.
Qed.

(** All that matches, newest first. *)
Definition everything (scopes : list ScopeId) (o : ListOptions) (s : Store) : list FileArtifact :=
  Arr.sort newerLeb (List.filter (matches scopes o) (JMap.values (rows s))).

Lemma list_from scopes o cursor s (c : option FileArtifact) rest :
  (match c with
   | Some x => cursor = Some (encodeCursor x) /\ Str.includesChar "|" (id x) = false /\
               List.filter (fun y => after x y) (everything scopes o s) = rest
   | None => cursor = None /\ everything scopes o s = rest
   end) ->
  listOwnedByScopes scopes o cursor s =
  (take (clampLimit (o_limit o)) rest,
   if (clampLimit (o_limit o) <? length rest)%nat
   then match last (take (clampLimit (o_limit o)) rest) with Some a => Some (encodeCursor a) | None => None end else None).
Proof.
  unfold listOwnedByScopes, everything. destruct c as [x|].
  - intros (-> & Hi & <-). destruct (cursor_back x Hi) as [-> ->]. by rewrite sort_filter by (apply newerLeb_total || apply newerLeb_trans).
  - intros [-> <-]. by rewrite (Arr.filter_all _ (List.filter _ _)).
Qed.

Lemma pages_from fuel scopes o s d rest cursor :
  belowOne (o_limit o) = false -> everything scopes o s = d ++ rest -> NoDup (map id (d ++ rest)) ->
  (forall x, x ∈ d ++ rest -> Str.includesChar "|" (id x) = false) ->
  cursor = (match last d with Some x => Some (encodeCursor x) | None => None end) ->
  (length rest < fuel)%nat -> pages fuel scopes o cursor s = rest.
Proof.
  intros Hl. assert (Hpos : clampLimit (o_limit o) <> 0%nat) by (intros E%clampLimit_zero; congruence).
  revert d rest cursor. induction fuel as [|fuel IH]; intros d rest cursor He Hnd Hb Hc Hf; [lia|]. cbn [pages].
  set (k := clampLimit (o_limit o)) in *.
  assert (Hs : StronglySorted (fun a b => newerLeb a b = true) (d ++ rest)).
  { rewrite <- He. apply Arr.sort_sorted; [apply newerLeb_total|apply newerLeb_trans]. }
  rewrite (list_from scopes o cursor s (last d) rest).
  2: { destruct (last d) as [x|] eqn:El.
       - apply last_Some in El as [d' ->]. split_and!; [done|apply Hb, elem_of_app; left; apply elem_of_app; right; left|].
         rewrite He. rewrite <- app_assoc in *. by apply after_rest.
       - apply last_None in El as ->. split; [done|]. by rewrite He. }
  fold k. destruct (Nat.ltb_spec k (length rest)) as [Hlt|Hge]; [|by rewrite take_ge, app_nil_r by lia].
  destruct (last (take k rest)) as [a|] eqn:Ea.
  2: { apply last_None in Ea. apply (f_equal length) in Ea. rewrite length_take in Ea. cbn in Ea. lia. }
  rewrite (IH (d ++ take k rest) (drop k rest)); [apply take_drop| | | | |].
  - by rewrite <- app_assoc, take_drop.
  - by rewrite <- app_assoc, take_drop.
  - by rewrite <- app_assoc, take_drop.
  - by rewrite last_app, Ea.
  - rewrite length_drop. lia.
Qed.

Lemma belowOne_nothing scopes o cursor s : belowOne (o_limit o) = true -> listOwnedByScopes scopes o cursor s = ([], None).
Proof. intros H%clampLimit_zero. unfold listOwnedByScopes. rewrite H. cbn [take last]. by destruct (_ <? _)%nat. Qed.

Lemma filtered_ids (f : FileArtifact -> bool) (l : jmap string FileArtifact) :
  JMap.wf l -> (forall k r, JMap.get l k = Some r -> id r = k) -> NoDup (map id (List.filter f (JMap.values l))).
Proof.
  intros Hwf Hid. assert (Hm : map id (JMap.values l) = JMap.keys l).
  { unfold JMap.values, JMap.keys. rewrite map_map. apply map_ext_in. intros [k r] Hin. cbn. apply Hid, JMap.elem_get; [done|by apply list_elem_of_In]. }
  assert (Hnd : NoDup (map id (JMap.values l))) by (rewrite Hm; exact Hwf). revert Hnd. generalize (JMap.values l).
  induction l0 as [|x k IH]; cbn; [done|]. intros [Hn Hnd]%NoDup_cons. destruct (f x); [|by apply IH]. cbn. constructor; [|by apply IH].
  intros (z & Ez & [_ Hz]%Arr.elem_of_filter)%list_elem_of_fmap. apply Hn. rewrite Ez. by apply (list_elem_of_fmap_2 id).
Qed.

(** The ids are those that were put. *)
Lemma run_ids (P : string -> Prop) ops : (forall input now, OPut input now ∈ ops -> P (p_id input)) ->
  forall k r, JMap.get (rows (run ops)) k = Some r -> P k.
Proof.
  unfold run. intros Hops. assert (I : forall k r, JMap.get (rows emptyStore) k = Some r -> P k) by done.
  revert I. generalize emptyStore. induction ops as [|o ops IH]; cbn; intros s I; [done|].
  apply IH; [intros input now Hin; apply (Hops input now); by right|]. clear IH. intros k r.
  destruct o as [input now|i e now|i]; cbn.
  - unfold put. destruct (JMap.get (rows s) (p_id input)); [apply I|]. destruct (putBytes _ _ _) as [[[[key size] h] b]|]; [|apply I]. cbn.
    rewrite JMap.get_set. case_decide as E; [|apply I]. intros _. rewrite <- E. apply (Hops input now). left.
  - unfold setEnabled. destruct (JMap.get (rows s) i) as [x|] eqn:E; [|apply I]. cbn. rewrite JMap.get_set. case_decide; [subst; intros _; by eapply I|apply I].
  - rewrite JMap.get_delete. case_decide; [done|apply I].
Qed.

(** C39: a client that follows the cursors sees everything that matches exactly once,
    newest first, whatever the limit of a page: no file is left out or repeated at a
    page's end, also among files of the same instant.  The exception is a limit
    strictly between zero and one, which is rounded down to nothing: the client is
    shown an empty page without a cursor, whatever there is. *)
Theorem pages_complete ops scopes o :
  (forall input now, OPut input now ∈ ops -> Str.includesChar "|" (p_id input) = false) ->
  let s := run ops in
  let seen := pages (S (length (rows s))) scopes o None s in
  if belowOne (o_limit o) then seen = [] /\ listOwnedByScopes scopes o None s = ([], None) else
  seen = everything scopes o s /\ NoDup (map id seen) /\
  forall r, r ∈ seen <-> matches scopes o r = true /\ JMap.get (rows s) (id r) = Some r.
Proof.
  intros Hops s seen. destruct (belowOne (o_limit o)) eqn:Hone.
  { by rewrite <- (belowOne_nothing scopes o None s Hone); subst seen; cbn [pages]; rewrite (belowOne_nothing scopes o None s Hone). }
  pose proof (run_ok ops) as I. fold s in I.
  assert (Hin : forall r, r ∈ everything scopes o s <-> matches scopes o r = true /\ JMap.get (rows s) (id r) = Some r).
  { intros r. unfold everything. rewrite Arr.elem_of_sort, Arr.elem_of_filter, JMap.elem_of_values by apply I. split.
    - intros [Hm [k Hk]]. split; [done|]. by rewrite (i_ids _ I k r Hk).
    - intros [Hm Hk]. split; [done|]. by exists (id r). }
  assert (Hnd : NoDup (map id (everything scopes o s))).
  { unfold everything. rewrite Arr.sort_perm. apply filtered_ids, I. apply I. }
  assert (E : seen = everything scopes o s).
  { apply (pages_from _ scopes o s [] (everything scopes o s) None); [done|done|done| |done|].
    - intros x Hx. apply Hin in Hx as [_ Hx]. exact (run_ids (fun k => Str.includesChar "|" k = false) ops Hops _ _ Hx).
    - unfold everything. rewrite Arr.sort_length. pose proof (List.filter_length_le (matches scopes o) (JMap.values (rows s))) as Hl.
      unfold JMap.values in Hl |- *. rewrite length_map in Hl. lia. }
  rewrite E. by split_and!.
Qed.

End paging.

End files.

(** ** Examples *)
Module FileSamples.

Definition digit (c : ascii) : N := (N_of_ascii c - 48)%N.

Fixpoint readN (acc : N) (t : string) : N := match t with "" => acc | String c t => readN (10 * acc + digit c) t end.

Definition readZ (t : string) : option Z :=
  match t with
  | String c r => if c === "-"%char then Some (- Z.of_N (readN 0 r)) else Some (Z.of_N (readN 0 t))
  | "" => None
  end.

Lemma readN_go x t : readN 0 (pretty_N_go x t) = readN x t.
Proof.
  revert t. induction (N.lt_wf_0 x) as [x _ IH]; intros t. destruct (decide (x = 0)%N) as [->|Hx]; [by rewrite pretty_N_go_0|].
  rewrite pretty_N_go_step by lia. rewrite IH by (apply N.div_lt; lia). cbn. f_equal.
  assert (Hd : digit (pretty_N_char (x mod 10)) = (x mod 10)%N).
  { pose proof (N.mod_lt x 10 ltac:(done)) as Hlt. revert Hlt. generalize (x mod 10)%N. intros y Hy.
    assert (Hc : (y = 0 \/ y = 1 \/ y = 2 \/ y = 3 \/ y = 4 \/ y = 5 \/ y = 6 \/ y = 7 \/ y = 8 \/ y = 9)%N) by lia.
    repeat (destruct Hc as [->|Hc]; [reflexivity|]). by subst. }
  rewrite Hd. pose proof (N.div_mod x 10 ltac:(done)). lia.
Qed.

Lemma readN_pretty (x : N) : readN 0 (pretty x) = x.
Proof. unfold pretty, pretty_N. case_decide; [by subst|]. by rewrite readN_go. Qed.

Lemma readZ_back n : readZ (Str.showZ n) = Some n.
Proof.
  assert (Hno : forall x : N, Str.includesChar "-" (pretty x) = false).
  { intros x. apply prettyN_no; [|done]. intros y. unfold pretty_N_char. by repeat case_match. }
  destruct n as [|p|p]; [reflexivity| |].
  - change (Str.showZ (Zpos p)) with (pretty (Npos p)). pose proof (readN_pretty (Npos p)) as E. pose proof (Hno (Npos p)) as Hn.
    destruct (pretty (Npos p)) as [|c r]; [done|]. unfold readZ. cbn in Hn. apply orb_false_iff in Hn as [-> _]. by rewrite E.
  - change (Str.showZ (Zneg p)) with (String "-" (pretty (Npos p))). cbn. by rewrite readN_pretty.
Qed.

Definition input (i : string) (at_ : Z) : PutFileInput :=
  mkPut i "personal:ann" "ann" i i "text/plain" [1; 2] in_ None (Some at_) None.

Definition ops : list Op := [OPut (input "a" 7) 7; OPut (input "b" 7) 7; OPut (input "c" 9) 9; OEnable "c" true 10].

Definition toySha (d : list Z) : string := Str.join "," (map Str.showZ d).

Lemma pages_complete_witness :
  map id (pages (fun t => t) (fun t => t) readZ 4 ["personal:ann"] (mkOptions (Some (Num.of_Z 1)) false None) None (run toySha ops)) = ["c"; "b"; "a"].
Proof.
  destruct (pages_complete toySha (fun t => t) (fun t => t) readZ (fun _ => eq_refl) eq_refl readZ_back ops ["personal:ann"] (mkOptions (Some (Num.of_Z 1)) false None))
    as [E _].
  - intros i now Hin. repeat (apply elem_of_cons in Hin as [Hin|Hin]; [by simplify_eq|]). by apply elem_of_nil in Hin.
  - change 4%nat with (S (length (rows (run toySha ops)))). rewrite E. vm_compute. reflexivity.
Defined.

(** Half a file to a page: two files match, none is shown and no cursor says that
    there is more. *)
Example half_a_file :
  let s := run toySha [OPut (input "a" 7) 7; OPut (input "b" 7) 7] in
  let half := mkOptions (Some (Num.div (Num.of_Z 1) (Num.of_Z 2))) false None in
  length (everything ["personal:ann"] half s) = 2%nat /\
  listOwnedByScopes (fun t => t) (fun t => t) readZ ["personal:ann"] half None s = ([], None).
Proof. split; vm_compute; reflexivity. Qed.

End FileSamples.
